(* ===== verification/_CoqProject ===== *)
-Q . S2P
Prelude.v
Bitfield.v
Types.v
Encoding.v
Merkle.v
Topology.v
Transactions.v
Livelock.v
VoteSet.v
Core.v
Runner.v
QcTheory.v
QcRoundtrip.v
VoteFlow.v
PendingBlock.v
BftState.v
BftVote.v
BftCommit.v
BftPropose.v
BftLoops.v
BftChain.v
BftReach.v
BftVoting.v
BftViews.v
BftHazards.v
BftProposals.v
Provisions.v
ProvisionFlow.v
Mempool.v
MempoolInv.v
MempoolRuns.v
MempoolLocks.v
MempoolReady.v
Trackers.v
Execution.v
ExecutionRunner.v
ExecutionInv.v
ExecutionRuns.v
ExecutionVotes.v
ExecutionCert.v
ExecutionFinal.v
ExecutionOrder.v
ExecutionHazards.v
ExecutionSamples.v
Node.v
NodeEvents.v
NodeRuns.v
NodeLoop.v
NodeLoad.v
NodeSamples.v
SyncManager.v
SyncRuns.v
FetchManager.v
FetchRuns.v
Epoch.v
Sbor.v
Storage.v
StorageChain.v
Recovery.v
Substates.v
SubstateTheory.v
CrossShard.v
StateWrites.v
StorageTree.v
StorageCommit.v
StorageGc.v
Batchers.v
BatcherRuns.v
Topics.v
Gossip.v
BatchDelivery.v
Serving.v
ServingRuns.v
Requests.v
RequestRuns.v
Committee.v
CommitteeFork.v
Agreement.v
AgreementSteps.v
AgreementRuns.v
