(* ===== verification/Prelude.v ===== *)
(** * hyperscale-rs in Rocq: a verification development

    hyperscale-rs is a sharded blockchain node.  Every shard runs a
    HotStuff-2 consensus (crates/bft) as a deterministic state machine: events
    go in, the state changes, actions come out.  A runner (crates/production,
    or crates/simulation in tests) executes the actions: it sends messages,
    sets timers, and does the expensive work that consensus delegates, such as
    checking signatures and building blocks, whose results come back as
    events.  Around consensus are the mempool, the execution of transactions
    across shards, the collection of state provisions, livelock detection, and
    the node that dispatches events between them.

    The development models these components, the node that joins them and the
    work they delegate to the runner.  Of the production runner it also models
    the sync and fetch managers, the storage of the chain and of the state
    tree, the message batcher, gossip, and the requests between nodes.
    Definitions carry the names of the source; PROJECT.json maps the
    definitions to their lines.

    ** Files

    - Prelude.v: machine integers, record update, iteration order of hash
      tables, sums, and the combinators for handlers.
    - Bitfield.v (types/signer_bitfield.rs): the packed set of signers, and
      its refinement of a finite set.
    - Types.v (types/{identifiers,quorum_certificate,transaction,proofs,
      block}.rs): the data, and [Crypto], the class of the hash and signature
      functions of other crates.
    - Encoding.v (types/{signing,proofs}.rs): the bytes that are signed.
    - Merkle.v (types/{hash,block}.rs): Merkle roots.
    - Topology.v (types/{topology,validator}.rs): committees, voting power and
      leaders as the class [Topology] with the laws [TopologyLaws], which
      [StaticTopology] satisfies.
    - Transactions.v (types/{transaction,state,block}.rs): retries, the status
      machine of a transaction, and the messages of provisions and votes.
    - Core.v (core/{action,event,message,lib}.rs): the actions and events that
      the components exchange.
    - VoteSet.v (bft/vote_set.rs): the votes collected for one block.
    - Runner.v (production/runner.rs, types/crypto.rs):
      the bodies of the delegated actions of consensus.
    - QcTheory.v, QcRoundtrip.v, VoteFlow.v: certificates, from single votes to
      the certificate and its check, in every interleaving.
    - PendingBlock.v (bft/pending.rs): assembling a block from its parts.
    - BftState.v, BftVote.v, BftCommit.v, BftPropose.v (bft/{state,config}.rs):
      the consensus state machine, one definition per function.  A handler maps
      the state to the new state and the list of actions, and handlers are
      composed in the order of the source.
    - BftLoops.v, BftChain.v, BftReach.v: termination of the commit cycle, the
      invariant of the stored blocks, and runs of the handlers.
    - BftVoting.v, BftViews.v, BftProposals.v: when a validator votes, views
      and timeouts, and the proposals of a correct leader.
    - BftHazards.v: concrete runs on which the code departs from its comments.
    - Livelock.v (livelock/{tracker,state}.rs): cycle detection between
      cross-shard transactions, the queue of deferrals and the tombstones.
    - Provisions.v, ProvisionFlow.v (provisions/state.rs and the runner's
      verification of provisions): the coordinator, its runs, and the way of
      a commitment from its provisions to the check that consensus makes.
    - Mempool.v (mempool/state.rs): the pool, its locks, ready sets, deferrals
      and retries.  MempoolInv.v, MempoolRuns.v and MempoolLocks.v hold the
      invariants and runs, MempoolReady.v what the proposer is offered.
    - Trackers.v (execution/trackers): votes and certificates of a transaction.
    - Execution.v (execution/{state,pending}.rs): the execution state machine.
    - ExecutionRunner.v (production/runner.rs, types/crypto.rs): executing and
      signing, batches of votes, state certificates.  The Radix engine and the
      batch check of the signature library are the class [Engine].
    - ExecutionInv.v, ExecutionRuns.v: the invariant of execution and its runs;
      ExecutionVotes.v, ExecutionCert.v, ExecutionFinal.v: from votes to the
      final certificate; ExecutionOrder.v: events in either order;
      ExecutionHazards.v, ExecutionSamples.v: misleading inputs and samples.
    - Node.v (node/state.rs): the node, one instance of every component, and
      the dispatch of events.  NodeEvents.v: internal events; NodeRuns.v: runs
      of a node as runs of its components; NodeLoop.v: the queues through which
      internal events return; NodeLoad.v: limits on transactions in flight;
      NodeSamples.v: concrete runs.
    - SyncManager.v, FetchManager.v (production/{sync,sync_error,fetch}.rs) and
      their runs, SyncRuns.v and FetchRuns.v.
    - Epoch.v (types/{epoch,topology}.rs): epochs and [DynamicTopology].
    - Sbor.v: the class [Sbor] of the binary encoding.
    - Storage.v, StorageChain.v (production/storage.rs): blocks, certificates,
      own votes and metadata on RocksDB.  Recovery.v: crashes and restarts.
    - Substates.v (engine/{storage,execution,executor}.rs): the database that
      the engine reads, provisions over it, and the writes that come out; the
      engine is the class [Radix].  SubstateTheory.v, CrossShard.v and
      StateWrites.v have the scans, the execution in several shards and the
      writes.
    - StorageTree.v (production/storage.rs): the state tree on RocksDB, with
      prepared commits and garbage collection; the tree algorithm is the class
      [Jmt].  StorageCommit.v and StorageGc.v have the theorems.
    - Batchers.v, BatcherRuns.v (production/message_batcher.rs): batches of
      outgoing messages; broadcasts and clock are the class [Outside].
    - Topics.v, Gossip.v (production/network): topics, the wire format and the
      adapter, with compression as the class [Lz4].  BatchDelivery.v: from one
      node's batcher to another node's events.
    - Serving.v, ServingRuns.v (production/network/{inbound_router,
      request_manager}.rs, messages): a request, its answer and the streams
      that carry them.  Requests.v, RequestRuns.v (production/network/
      {request_manager,peer_health}.rs): retries, peers and slots.
    - Committee.v: the validators of a shard, each a node with its runner, and
      the messages between them.  CommitteeFork.v: a run with two commits at
      one height.  Agreement.v, AgreementSteps.v and AgreementRuns.v:
      agreement of the committee as far as it holds.

    ** What the theorems show

    - The committed chain: along every run of the handlers, with arbitrary
      input, commits are of consecutive heights, each block under its own
      hash (BftReach.v).  The mutually recursive commit functions terminate
      and satisfy the equations of the source (BftLoops.v), a certificate
      makes exactly its parent ready to commit (BftProposals.v), and pruning
      keeps exactly what is above the committed height (BftChain.v).
    - Agreement: in a committee whose validators follow the code, with an
      asynchronous network and crashes, no two blocks are committed at one
      height as long as no validator votes for two blocks at one height
      (AgreementRuns.v).  Without that premise it fails: [advance_round]
      releases vote locks, and CommitteeFork.v has a run in which delays alone
      lead four such validators to commit different blocks.
    - Certificates: building one never panics, and it has the power of its
      distinct signers; two of them for one height and round agree when less
      than a third of the power is faulty; the one that is built is accepted
      by the check; its timestamp is within the range of the votes.
    - Voting: the exact condition of a vote and its effects, and exact
      characterisations of the header, order, deferral and abort checks; the
      proposal of a correct leader passes them.
    - Data: the bitfield is a set, signed messages of different contents are
      different, the transaction root binds the transactions, and a pending
      block becomes the announced block.
    - Views: the view does not go down, and the timeout fires inside its
      window.
    - Mempool: the tracking of ready and held-back transactions is consistent
      in every run; load counters and locks are exact as long as execution
      results come for transactions in flight; the offer to the proposer
      respects limits and priorities.
    - Livelock and provisions: a reported quorum queues exactly the deferrals
      of the cycles it closes; a reported quorum of provisions is one; honest
      provisions lead to a proof that consensus accepts.
    - Execution: two validators do not certify different results; what a shard
      certifies is accepted elsewhere; a finalized certificate stands for the
      agreement of all shards; votes of enough honest validators finalize a
      transaction; provisioning and commit may come in either order; a removed
      transaction leaves no trace.
    - Nodes: what a node does is a run of each component, so that their
      invariants hold together; internal events run out; the committed blocks
      reach every component in the order of the chain, once each.
    - Sync and fetch: no height of the window and no hash of a chunk is lost,
      and honest answers complete a sync.
    - Storage: stored blocks and votes are read back; a restart keeps the
      recorded votes; a prepared commit and the plain one leave the same
      state, under the root that was verified; garbage collection deletes
      exactly what is stale and old enough.
    - Engine: shards with the same provisions execute a transaction alike.
    - Network: batched items arrive as the events they stand for; a node that
      holds a block serves it as it was stored; slots and requests in flight
      are accounted for.
    - Departures: BftHazards.v, ExecutionHazards.v, and the last parts of
      BftViews.v, VoteFlow.v, Livelock.v, ProvisionFlow.v, MempoolReady.v,
      ExecutionSamples.v, NodeLoad.v, SyncRuns.v, FetchRuns.v, Recovery.v,
      CrossShard.v, StateWrites.v and StorageCommit.v, and CommitteeFork.v,
      prove behaviours that contradict comments of the source, such as two
      votes at one height and round.  They are the findings of PROJECT.json,
      and they say which hypotheses the safety theorems can not do without:
      agreement of certificates is proved from the hypothesis that correct
      validators do not vote twice in a round, agreement of commits from the
      one that they do not vote twice at a height, and the handlers establish
      neither.

    ** How the code is modelled

    - A [u64] is an [N] with wrap-around written [+w] and [*w]; the release
      profile has no overflow checks.  A [usize] is a [nat], for lengths and
      indices of collections in memory.  A [Duration] is its nanoseconds.
    - A [Hash], key or signature is the number its bytes spell.
    - [HashMap] and [HashSet] are [gmap] and [gset].  Where the result depends
      on the iteration order, the order comes from the class [HashIter], about
      which only that it enumerates the entries is assumed.
    - Cryptography, the transaction engine, the tree algorithm, the binary
      encoding, compression and the network are outside the repository.  They
      are the fields of the classes [Crypto], [Engine], [Radix], [Jmt],
      [Sbor], [Lz4] and [Outside]; what a theorem needs of them is a
      hypothesis of that theorem, and the witnesses instantiate it.
    - A panic is [None] where the source can panic on an index.
    - Logging, tracing and metrics are left out.

    ** Bounds

    - The commit cycle is bounded by the number of buffered entries plus one
      ([commit_rec]); [commit_cycle_equations] shows that the equations of the
      source hold without a bound, for every state.
    - The walk along the uncommitted chain is bounded by the number of blocks
      the validator knows; [chain_walk_equation] shows that this is enough
      when heights fall along parent links.
    - The Merkle loop is bounded by the number of leaves, and each level at
      least halves it rounded up; Merkle.v proves that the loop is the tree.
    - The merge of two scans of substates is bounded by their lengths together
      ([collect_merged]), which SubstateTheory.v proves to be enough.
    - Deleting a subtree is bounded by a depth; the theorem on garbage
      collection asks that stale subtrees are not deeper.
    - Decimal numbers have up to 20 digits, as many as a [u64] needs.
    - [settle] in Committee.v bounds the events it hands to a validator; it
      only builds concrete runs, and the step relation has no bound.

    ** What is not modelled

    RPC, metrics, binaries, the libp2p event loop, thread pools and the
    validation batcher are input and output or plumbing and have no model,
    nor have the simulation and load tools, genesis and validation of
    transactions, which the Radix engine does, and the codecs derived by
    libraries.  The moving averages that weigh the random choice of a peer are
    floating-point numbers; the choice is an arbitrary input.  Back-off delays
    of requests are left out.  Failing reads and writes of the disk are left
    out. *)

From stdpp Require Import base gmap list numbers sorting.
From Stdlib Require Import NArith Lia.

#[export] Set Default Goal Selector "!".

Open Scope N_scope.

(** ** Machine integers

    A Rust [u64] is an [N] below [u64_modulus].  The release profile of the
    crates leaves overflow checks off, so [+] and [*] on [u64] wrap; they are
    written [+w] and [*w].  [saturating_sub] is [N.sub] as it stands. *)

Declare Scope hs_scope.
Delimit Scope hs_scope with hs.
Open Scope hs_scope.

Abbreviation u64 := N (only parsing).
Abbreviation usize := nat (only parsing).

Definition u64_modulus : N := 18446744073709551616.
Definition u64_max : N := 18446744073709551615.

Definition as_u64 (a : N) : N := a mod u64_modulus.
Definition wadd (a b : N) : N := as_u64 (a + b).
Definition wmul (a b : N) : N := as_u64 (a * b).

#[global] Arguments wadd : simpl never.
#[global] Arguments wmul : simpl never.

Infix "+w" := wadd (at level 50, left associativity) : hs_scope.
Infix "*w" := wmul (at level 40, left associativity) : hs_scope.

Lemma as_u64_small a : a < u64_modulus -> as_u64 a = a.
Proof. intros. by apply N.mod_small. Qed.

Lemma as_u64_lt a : as_u64 a < u64_modulus.
Proof. by apply N.mod_lt. Qed.

Lemma wadd_small a b : a + b < u64_modulus -> a +w b = a + b.
Proof. apply as_u64_small. Qed.

Lemma wmul_small a b : a * b < u64_modulus -> a *w b = a * b.
Proof. apply as_u64_small. Qed.

Lemma wadd_lt a b : a +w b < u64_modulus.
Proof. apply as_u64_lt. Qed.

(** Successor below the maximum does not wrap. *)
Lemma wadd_1_small a : a < u64_max -> a +w 1 = a + 1.
Proof. intros. apply wadd_small. unfold u64_max, u64_modulus in *. lia. Qed.

(** Iterated wrapping successor: adding [n] once is adding 1 [n] times. *)
Lemma wadd_assoc_1 a n : (a +w n) +w 1 = a +w (n + 1).
Proof.
  unfold wadd, as_u64. rewrite N.Div0.add_mod_idemp_l. f_equal. lia.
Qed.

Lemma wadd_0_r a : a < u64_modulus -> a +w 0 = a.
Proof. intros. rewrite wadd_small; lia. Qed.

(** Sum of a list of numbers, as [Iterator::sum] computes it on [u64]. *)
Definition sum_N (l : list N) : N := foldr N.add 0 l.
Definition wsum (l : list N) : N := foldl wadd 0 l.

Lemma sum_N_app l1 l2 : sum_N (l1 ++ l2) = sum_N l1 + sum_N l2.
Proof. induction l1; simpl; lia. Qed.

Lemma sum_N_perm l1 l2 : l1 ≡ₚ l2 -> sum_N l1 = sum_N l2.
Proof. induction 1; simpl; lia. Qed.

Lemma sum_N_submseteq l1 l2 : l1 ⊆+ l2 -> sum_N l1 <= sum_N l2.
Proof. induction 1; simpl; lia. Qed.

Lemma foldl_wadd_small l acc :
  acc + sum_N l < u64_modulus -> foldl wadd acc l = acc + sum_N l.
Proof.
  revert acc. induction l as [|x l IH]; intros acc Hlt; simpl in *; [lia|].
  rewrite IH; rewrite wadd_small; lia.
Qed.

Lemma wsum_snoc l x : wsum (l ++ [x]) = wsum l +w x.
Proof. unfold wsum. by rewrite foldl_app. Qed.

Lemma wsum_small l : sum_N l < u64_modulus -> wsum l = sum_N l.
Proof. intros. unfold wsum. rewrite foldl_wadd_small; lia. Qed.

(** ** Functional record update

    [r <| f := v |>] is [r] with field [f] set to [v], and [r <| f ::= g |>]
    applies [g] to the field.  An [Eta] instance lists a record's fields; the
    setter of each field is found from it. *)

Class Eta (R : Type) := eta : R -> R.
Class Setter {R T : Type} (proj : R -> T) := upd : (T -> T) -> R -> R.

Ltac derive_setter :=
  match goal with
  | |- @Setter ?R ?T ?p =>
      let e := constr:(_ : Eta R) in
      let e := eval hnf in e in
      let f := fresh "f" in
      let r := fresh "r" in
      intros f r;
      let body := eval cbv beta in (e r) in
      match eval pattern (p r) in body with
      | ?g _ => let b := eval cbv beta in (g (f (p r))) in exact b
      end
  end.

#[export] Hint Extern 1 (Setter _) => derive_setter : typeclass_instances.

Notation "r <| p := v |>" := (upd (proj := p) (fun _ => v) r)
  (at level 12, left associativity, p at level 10, v at level 200) : hs_scope.
Notation "r <| p ::= g |>" := (upd (proj := p) g r)
  (at level 12, left associativity, p at level 10, g at level 200) : hs_scope.

(** ** Hash maps

    A [HashMap] is a [gmap].  Rust iterates it in an unspecified order: the
    order is the operation of the class [HashIter], about which only the
    permutation law is known, and every theorem holds for each order. *)

Class HashIter := {
  hm_iter : forall {K : Type} `{Countable K} {A : Type}, gmap K A -> list (K * A);
  hm_iter_perm : forall {K : Type} `{Countable K} {A : Type} (m : gmap K A),
    hm_iter m ≡ₚ map_to_list m
}.

(** The order [map_to_list] gives, to evaluate the definitions. *)
Definition canonical_iter : HashIter :=
  {| hm_iter := fun K _ _ A m => map_to_list m; hm_iter_perm := fun K _ _ A m => reflexivity _ |}.

Section hash_iter.
Context `{HashIter} `{Countable K} {A : Type}.
Implicit Types (m : gmap K A).

Lemma elem_of_hm_iter m k x : (k, x) ∈ hm_iter m <-> m !! k = Some x.
Proof. by rewrite hm_iter_perm, elem_of_map_to_list. Qed.

Lemma NoDup_hm_iter m : NoDup (hm_iter m).*1.
Proof. rewrite hm_iter_perm. apply NoDup_fst_map_to_list. Qed.

(** Iterating a [HashSet]. *)
Definition hs_iter (X : gset K) : list K := (hm_iter (gset_to_gmap tt X)).*1.

Lemma elem_of_hs_iter X k : k ∈ hs_iter X <-> k ∈ X.
Proof.
  unfold hs_iter. rewrite list_elem_of_fmap. split.
  - intros ([k' []] & -> & Hk). rewrite hm_iter_perm, elem_of_map_to_list in Hk.
    by apply lookup_gset_to_gmap_Some in Hk as [? _].
  - intros Hk. exists (k, tt). split; [done|].
    by rewrite hm_iter_perm, elem_of_map_to_list, lookup_gset_to_gmap_Some.
Qed.

Lemma hm_iter_empty : hm_iter (∅ : gmap K A) = [].
Proof. apply Permutation_nil_r. by rewrite hm_iter_perm, map_to_list_empty. Qed.
End hash_iter.

Lemma NoDup_hs_iter `{HashIter} `{Countable K} (X : gset K) : NoDup (hs_iter X).
Proof. apply NoDup_hm_iter. Qed.

(** [HashMap::retain] and [HashSet::retain]. *)
Definition hm_retain `{Countable K} {A} (f : K -> A -> bool) (m : gmap K A) : gmap K A :=
  filter (fun kv => f kv.1 kv.2 = true) m.
Definition hs_retain `{Countable K} (f : K -> bool) (X : gset K) : gset K :=
  filter (fun k => f k = true) X.

Definition contains_key `{Countable K} {A} (m : gmap K A) (k : K) : bool :=
  match m !! k with Some _ => true | None => false end.

Section retain.
Context `{Countable K} {A : Type}.
Implicit Types (m : gmap K A) (f : K -> A -> bool).

Lemma hm_retain_Some f m k x :
  hm_retain f m !! k = Some x <-> m !! k = Some x /\ f k x = true.
Proof. unfold hm_retain. by rewrite map_lookup_filter_Some. Qed.

Lemma hm_retain_None f m k : m !! k = None -> hm_retain f m !! k = None.
Proof. intros Hk. apply eq_None_not_Some. intros [x Hx%hm_retain_Some]. naive_solver. Qed.

Lemma hm_retain_subseteq f m : hm_retain f m ⊆ m.
Proof. apply map_filter_subseteq. Qed.

Lemma hm_retain_size f m : (size (hm_retain f m) <= size m)%nat.
Proof. apply map_subseteq_size, hm_retain_subseteq. Qed.

Lemma hm_retain_all f m :
  (forall k x, m !! k = Some x -> f k x = true) -> hm_retain f m = m.
Proof. intros Hall. apply map_filter_id. intros k x Hk. by apply Hall. Qed.

Lemma elem_of_hs_retain (g : K -> bool) (X : gset K) k :
  k ∈ hs_retain g X <-> k ∈ X /\ g k = true.
Proof. unfold hs_retain. rewrite elem_of_filter. tauto. Qed.

Lemma contains_key_true m k : contains_key m k = true <-> is_Some (m !! k).
Proof. unfold contains_key. destruct (m !! k); naive_solver. Qed.

Lemma contains_key_false m k : contains_key m k = false <-> m !! k = None.
Proof. unfold contains_key. by destruct (m !! k). Qed.
End retain.

(** ** Maps of sets

    A [HashMap<K, HashSet<V>>] is read as a relation between keys and values.
    [mm_insert] is [entry(k).or_default().insert(v)], and [mm_remove] takes a
    value out and drops the key with its last value. *)

Section multimap.
Context `{Countable K} `{Countable V}.
Implicit Types (m : gmap K (gset V)) (k : K) (v : V).

Definition mm_get m k : gset V := default ∅ (m !! k).

Definition mm_insert k v m : gmap K (gset V) := <[k := {[v]} ∪ mm_get m k]> m.

Definition mm_remove k v m : gmap K (gset V) :=
  match m !! k with
  | Some X => let X' := X ∖ {[v]} in if bool_decide (X' = ∅) then delete k m else <[k := X']> m
  | None => m
  end.

(** [get_mut(k)] and [remove(v)]: the key stays with an empty set. *)
Definition mm_discard k v m : gmap K (gset V) :=
  match m !! k with
  | Some X => <[k := X ∖ {[v]}]> m
  | None => m
  end.

(** No key is left with an empty set. *)
Definition mm_compact m : Prop := forall k, m !! k <> Some ∅.

Lemma elem_of_mm_insert k v m k' v' :
  v' ∈ mm_get (mm_insert k v m) k' <-> (k' = k /\ v' = v) \/ v' ∈ mm_get m k'.
Proof.
  unfold mm_insert, mm_get at 1. rewrite lookup_insert. case_decide; subst; set_solver.
Qed.

Lemma elem_of_mm_remove k v m k' v' :
  v' ∈ mm_get (mm_remove k v m) k' <-> v' ∈ mm_get m k' /\ ~ (k' = k /\ v' = v).
Proof.
  unfold mm_remove. destruct (m !! k) as [X|] eqn:E.
  - assert (mm_get m k = X) as Hk by (unfold mm_get; by rewrite E).
    destruct (decide (k' = k)) as [->|Hne].
    + rewrite Hk. case_bool_decide as He; unfold mm_get;
        rewrite ?lookup_delete_eq, ?lookup_insert_eq; set_solver.
    + case_bool_decide; unfold mm_get;
        rewrite ?lookup_delete_ne, ?lookup_insert_ne by done; naive_solver.
  - assert (mm_get m k = ∅) as Hk by (unfold mm_get; by rewrite E).
    split; [|naive_solver]. intros Hv. split; [done|]. intros [-> ->]. set_solver.
Qed.

Lemma elem_of_mm_discard k v m k' v' :
  v' ∈ mm_get (mm_discard k v m) k' <-> v' ∈ mm_get m k' /\ ~ (k' = k /\ v' = v).
Proof.
  unfold mm_discard, mm_get. destruct (m !! k) as [X|] eqn:E.
  - destruct (decide (k' = k)) as [->|Hne].
    + rewrite lookup_insert_eq, E. simpl. set_solver.
    + rewrite lookup_insert_ne by done. naive_solver.
  - split; [|by intros []]. intros Hin. split; [done|]. intros [-> _]. by rewrite E in Hin.
Qed.

Lemma mm_insert_compact k v m : mm_compact m -> mm_compact (mm_insert k v m).
Proof.
  intros Hm k'. unfold mm_insert. rewrite lookup_insert.
  case_decide; [|done]. intros [= He]. set_solver.
Qed.

Lemma mm_remove_compact k v m : mm_compact m -> mm_compact (mm_remove k v m).
Proof.
  intros Hm k'. unfold mm_remove. destruct (m !! k) as [X|] eqn:E; [|done].
  case_bool_decide as He; rewrite ?lookup_delete, ?lookup_insert; case_decide;
    first [done|apply Hm|congruence].
Qed.

(** One value under many keys. *)
Lemma elem_of_mm_insert_all ks v m k' v' :
  v' ∈ mm_get (foldl (fun m k => mm_insert k v m) m ks) k'
  <-> (k' ∈ ks /\ v' = v) \/ v' ∈ mm_get m k'.
Proof.
  revert m. induction ks as [|k ks IH]; intros m; simpl; [set_solver|].
  rewrite IH, elem_of_mm_insert. set_solver.
Qed.

Lemma elem_of_mm_remove_all ks v m k' v' :
  v' ∈ mm_get (foldl (fun m k => mm_remove k v m) m ks) k'
  <-> v' ∈ mm_get m k' /\ ~ (k' ∈ ks /\ v' = v).
Proof.
  revert m. induction ks as [|k ks IH]; intros m; simpl; [set_solver|].
  rewrite IH, elem_of_mm_remove. set_solver.
Qed.

Lemma mm_insert_all_compact ks v m :
  mm_compact m -> mm_compact (foldl (fun m k => mm_insert k v m) m ks).
Proof. revert m. induction ks; simpl; auto using mm_insert_compact. Qed.

Lemma mm_remove_all_compact ks v m :
  mm_compact m -> mm_compact (foldl (fun m k => mm_remove k v m) m ks).
Proof. revert m. induction ks; simpl; auto using mm_remove_compact. Qed.

Lemma mm_get_None m k : mm_compact m -> m !! k = None <-> mm_get m k = ∅.
Proof. intros Hm. unfold mm_get. specialize (Hm k). destruct (m !! k); naive_solver. Qed.
End multimap.

(** ** State handlers

    A handler takes the component's state and returns the state after it and
    the actions it emits.  [h1 ;> h2] is [actions.extend(self.h2())] after
    [h1]. *)

Definition handler (St Act : Type) : Type := St -> St * list Act.

Definition hskip {St Act} : handler St Act := fun s => (s, []).
Definition hemit {St Act} (acts : list Act) : handler St Act := fun s => (s, acts).
Definition hupd {St Act} (f : St -> St) : handler St Act := fun s => (f s, []).
Definition hseq {St Act} (h1 h2 : handler St Act) : handler St Act := fun s =>
  let '(s1, a1) := h1 s in
  let '(s2, a2) := h2 s1 in
  (s2, a1 ++ a2).

Notation "h1 ;> h2" := (hseq h1 h2) (at level 60, right associativity) : hs_scope.

(** [for x in xs { actions.extend(f(x)) }]. *)
Fixpoint for_each {St Act A} (f : A -> handler St Act) (xs : list A) : handler St Act :=
  match xs with
  | [] => hskip
  | x :: xs => f x ;> for_each f xs
  end.

(** A predicate on a handler's run that is closed under sequencing: a
    reflexive and transitive relation between the states. *)
Definition hsteps {St Act} (R : St -> St -> Prop) (h : handler St Act) : Prop :=
  forall s, R s (h s).1.

Section handlers.
Context {St Act : Type} (R : relation St) `{!PreOrder R}.
Implicit Types (h : handler St Act).

Lemma hsteps_skip : hsteps R (hskip (Act := Act)).
Proof. intros s. reflexivity. Qed.

Lemma hsteps_emit (acts : list Act) : hsteps R (hemit acts).
Proof. intros s. reflexivity. Qed.

Lemma hsteps_seq h1 h2 : hsteps R h1 -> hsteps R h2 -> hsteps R (h1 ;> h2).
Proof.
  intros H1 H2 s. unfold hseq. specialize (H1 s).
  destruct (h1 s) as [s1 a1]. specialize (H2 s1). destruct (h2 s1) as [s2 a2].
  simpl in *. by etrans.
Qed.
End handlers.

(** A handler keeps a property of the state. *)
Definition keeps {St Act} (I : St -> Prop) (f : handler St Act) : Prop := forall s, I s -> I (f s).1.

Section keeps.
Context {St Act : Type} (I : St -> Prop).
Implicit Types (f g : handler St Act).

Lemma keeps_skip : keeps I (hskip (Act := Act)).
Proof. by intros s. Qed.

Lemma keeps_emit (acts : list Act) : keeps I (hemit acts).
Proof. by intros s. Qed.

Lemma keeps_upd (u : St -> St) : (forall s, I s -> I (u s)) -> keeps I (hupd (Act := Act) u).
Proof. intros Hu s Hs. by apply Hu. Qed.

Lemma keeps_seq f g : keeps I f -> keeps I g -> keeps I (f ;> g).
Proof.
  intros Hf Hg s Hs. unfold hseq. specialize (Hf s Hs). destruct (f s) as [s1 a1].
  specialize (Hg s1 Hf). by destruct (g s1).
Qed.

Lemma keeps_for_each_in {A} (f : A -> handler St Act) xs :
  (forall x, x ∈ xs -> keeps I (f x)) -> keeps I (for_each f xs).
Proof.
  induction xs as [|x xs IH]; intros Hf; [apply keeps_skip|].
  apply keeps_seq; [apply Hf; by left|]. apply IH. intros y Hy. apply Hf. by right.
Qed.

Lemma keeps_for_each {A} (f : A -> handler St Act) xs :
  (forall x, keeps I (f x)) -> keeps I (for_each f xs).
Proof. intros Hf. by apply keeps_for_each_in. Qed.
End keeps.

(** ** Automation *)

Create HintDb hs discriminated.

#[export] Hint Resolve hsteps_skip hsteps_emit hsteps_seq : hs.
#[export] Hint Resolve as_u64_lt wadd_lt : hs.

(** Membership in a list built with [::] and [++]. *)
Ltac solve_mem := repeat rewrite ?elem_of_cons, ?elem_of_app; tauto.

(** Split every [match] and [if] of the goal, then simplify. *)
Ltac split_matches := repeat (case_match; simplify_eq/=).

(** Turn boolean tests in the hypotheses into propositions. *)
Ltac bool_to_prop :=
  repeat match goal with
  | H : _ && _ = true |- _ => apply andb_true_iff in H as [??]
  | H : _ && _ = false |- _ => apply andb_false_iff in H
  | H : _ || _ = false |- _ => apply orb_false_iff in H as [??]
  | H : _ || _ = true |- _ => apply orb_true_iff in H
  | H : negb _ = true |- _ => apply negb_true_iff in H
  | H : negb _ = false |- _ => apply negb_false_iff in H
  | H : (_ <=? _) = true |- _ => apply N.leb_le in H
  | H : (_ <=? _) = false |- _ => apply N.leb_gt in H
  | H : (_ <? _) = true |- _ => apply N.ltb_lt in H
  | H : (_ <? _) = false |- _ => apply N.ltb_ge in H
  | H : (_ =? _) = true |- _ => apply N.eqb_eq in H
  | H : (_ =? _) = false |- _ => apply N.eqb_neq in H
  | H : contains_key _ _ = true |- _ => apply contains_key_true in H
  | H : contains_key _ _ = false |- _ => apply contains_key_false in H
  | H : bool_decide _ = true |- _ => apply bool_decide_eq_true in H
  | H : bool_decide _ = false |- _ => apply bool_decide_eq_false in H
  end.

(** ** Lists *)

(** [filter_map] of an iterator. *)
Abbreviation filter_map := omap (only parsing).

(** A loop keeps what each pass keeps. *)
Lemma foldl_keeps {A B} (P : A -> Prop) (f : A -> B -> A) l a :
  P a -> (forall a x, x ∈ l -> P a -> P (f a x)) -> P (foldl f a l).
Proof.
  revert a. induction l as [|x l IH]; intros a Ha Hf; simpl; [done|].
  apply IH; [apply Hf; [set_solver|done]|]. intros b y Hy. apply Hf. set_solver.
Qed.

Lemma NoDup_fmap_filter {A B} (g : A -> B) (f : A -> bool) l :
  NoDup (g <$> l) -> NoDup (g <$> List.filter f l).
Proof.
  induction l as [|x l IH]; simpl; [done|]. intros [Hx Hl]%NoDup_cons.
  case_match; simpl; [|by apply IH]. apply NoDup_cons. split; [|by apply IH].
  intros (y & E & Hy%list_elem_of_In%filter_In%proj1)%list_elem_of_fmap.
  apply Hx, list_elem_of_fmap. exists y. split; [done|]. by apply list_elem_of_In.
Qed.

Lemma list_filter_nil {A} (P : A -> Prop) `{!forall x, Decision (P x)} (l : list A) :
  (forall x, x ∈ l -> ~ P x) -> filter P l = [].
Proof.
  intros Hl. destruct (filter P l) as [|x l'] eqn:E; [done|].
  assert (x ∈ filter P l) as [Hx Hin]%list_elem_of_filter by (rewrite E; by left).
  by destruct (Hl x Hin).
Qed.

Lemma Forall_elem {A} (P : A -> Prop) l x : Forall P l -> x ∈ l -> P x.
Proof. rewrite Forall_forall. auto. Qed.

Lemma Forall_sublist {A} (P : A -> Prop) l1 l2 : l1 `sublist_of` l2 -> Forall P l2 -> Forall P l1.
Proof. induction 1; inversion 1; subst; auto. Qed.
