(* ===== verification/Bitfield.v ===== *)
(** * The signer bitfield (crates/types/src/signer_bitfield.rs)

    [SignerBitfield] records which committee members contributed to an
    aggregated signature.  The bytes are numbers below 256.  Indexing a byte
    out of range panics in the source, so [set] and [clear] return [None]
    there.  The abstract value of a bitfield is the set of committee indices
    it holds ([signers]); the operations are shown to refine the operations on
    that set. *)

From stdpp Require Import base gmap list numbers.
From S2P Require Import Prelude.

Record SignerBitfield := mk_bitfield {
  bf_bits : list N;
  bf_num_validators : nat
}.

#[export] Instance SignerBitfield_eq_dec : EqDecision SignerBitfield.
Proof. solve_decision. Defined.

Module SignerBitfieldOps.

Definition div_ceil8 (n : nat) : nat := ((n + 7) / 8)%nat.

Definition new (num_validators : nat) : SignerBitfield :=
  {| bf_bits := replicate (div_ceil8 num_validators) 0; bf_num_validators := num_validators |}.

Definition empty : SignerBitfield := {| bf_bits := []; bf_num_validators := 0 |}.

(** The byte and the bit of an index. *)
Definition byte_idx (index : nat) : nat := (index / 8)%nat.
Definition bit_idx (index : nat) : N := N.of_nat (index mod 8)%nat.

(** [1 << bit_idx] on a byte, and its complement [!(1 << bit_idx)]. *)
Definition bit_mask (index : nat) : N := N.shiftl 1 (bit_idx index).
Definition bit_mask_not (index : nat) : N := N.lxor 255 (bit_mask index).

Definition set (bf : SignerBitfield) (index : nat) : option SignerBitfield :=
  if (index <? bf_num_validators bf)%nat then
    match bf_bits bf !! byte_idx index with
    | Some b =>
        Some {| bf_bits := <[byte_idx index := N.lor b (bit_mask index)]> (bf_bits bf);
                bf_num_validators := bf_num_validators bf |}
    | None => None
    end
  else Some bf.

Definition clear (bf : SignerBitfield) (index : nat) : option SignerBitfield :=
  if (index <? bf_num_validators bf)%nat then
    match bf_bits bf !! byte_idx index with
    | Some b =>
        Some {| bf_bits := <[byte_idx index := N.land b (bit_mask_not index)]> (bf_bits bf);
                bf_num_validators := bf_num_validators bf |}
    | None => None
    end
  else Some bf.

Definition is_set (bf : SignerBitfield) (index : nat) : bool :=
  if (bf_num_validators bf <=? index)%nat then false
  else
    match bf_bits bf !! byte_idx index with
    | Some b => N.land (N.shiftr b (bit_idx index)) 1 =? 1
    | None => false
    end.

(** [u8::count_ones]. *)
Definition byte_count_ones (b : N) : nat :=
  length (filter (fun i => N.testbit b (N.of_nat i) = true) (seq 0 8)).

Definition count_ones (bf : SignerBitfield) : nat :=
  foldr Nat.add 0%nat (byte_count_ones <$> bf_bits bf).
Definition count (bf : SignerBitfield) : nat := count_ones bf.

Definition set_indices (bf : SignerBitfield) : list nat :=
  filter (fun i => is_set bf i = true) (seq 0 (bf_num_validators bf)).

Definition is_empty (bf : SignerBitfield) : bool := forallb (fun b => b =? 0) (bf_bits bf).

(** ** Well-formed bitfields: the byte count fits the committee, the bytes are
    bytes, and no bit past the last validator is set. *)
Record wf (bf : SignerBitfield) : Prop := {
  wf_len : length (bf_bits bf) = div_ceil8 (bf_num_validators bf);
  wf_byte : Forall (fun b => b < 256) (bf_bits bf);
  wf_tail : forall j b i, bf_bits bf !! j = Some b -> (i < 8)%nat ->
    (bf_num_validators bf <= 8 * j + i)%nat -> N.testbit b (N.of_nat i) = false
}.

(** The abstract value: the set of committee indices that signed. *)
Definition signers (bf : SignerBitfield) : gset nat := list_to_set (set_indices bf).

(** ** Bits *)

Lemma land_shiftr_1 b i : (N.land (N.shiftr b i) 1 =? 1) = N.testbit b i.
Proof.
  replace 1 with (N.ones 1) at 1 by reflexivity.
  rewrite N.land_ones, N.pow_1_r, <- N.bit0_mod, N.shiftr_spec', N.add_0_l.
  by destruct (N.testbit b i).
Qed.

Lemma bit_mask_spec i j :
  (j < 8)%nat -> N.testbit (bit_mask i) (N.of_nat j) = bool_decide (i mod 8 = j)%nat.
Proof.
  intros Hj. unfold bit_mask, bit_idx. rewrite N.shiftl_1_l, N.pow2_bits_eqb.
  destruct (N.eqb_spec (N.of_nat (i mod 8)) (N.of_nat j)) as [E|E];
    symmetry; [apply bool_decide_eq_true|apply bool_decide_eq_false]; lia.
Qed.

Lemma testbit_255 j : (j < 8)%nat -> N.testbit 255 (N.of_nat j) = true.
Proof.
  intros. replace 255 with (N.ones 8) by reflexivity. apply N.ones_spec_low. lia.
Qed.

Lemma lt_256_bits b : b < 256 <-> forall j, (8 <= j)%nat -> N.testbit b (N.of_nat j) = false.
Proof.
  split.
  - intros Hb j Hj. destruct (decide (b = 0)) as [->|Hnz]; [apply N.bits_0|].
    apply N.bits_above_log2. assert (N.log2 b < 8); [|lia].
    apply N.log2_lt_pow2; [lia|]. done.
  - intros Hbits. destruct (decide (b = 0)) as [->|Hnz]; [done|].
    change 256 with (2 ^ 8). apply N.log2_lt_pow2; [lia|].
    destruct (N.lt_ge_cases (N.log2 b) 8) as [?|Hge]; [done|].
    specialize (Hbits (N.to_nat (N.log2 b)) ltac:(lia)).
    rewrite N2Nat.id, N.bit_log2 in Hbits by lia. done.
Qed.

Lemma index_split i : i = (8 * byte_idx i + i mod 8)%nat.
Proof. unfold byte_idx. rewrite <- Nat.div_mod_eq. done. Qed.

Lemma byte_idx_lt i n : (i < n)%nat -> (byte_idx i < div_ceil8 n)%nat.
Proof.
  intros. unfold byte_idx, div_ceil8. apply Nat.Div0.div_lt_upper_bound.
  pose proof (Nat.div_mod_eq (n + 7) 8). pose proof (Nat.mod_upper_bound (n + 7) 8). lia.
Qed.

(** The bit [is_set] reads. *)
Lemma is_set_testbit bf i b :
  (i < bf_num_validators bf)%nat -> bf_bits bf !! byte_idx i = Some b ->
  is_set bf i = N.testbit b (N.of_nat (i mod 8)).
Proof.
  intros Hi Hb. unfold is_set.
  destruct (Nat.leb_spec (bf_num_validators bf) i); [lia|].
  rewrite Hb. apply land_shiftr_1.
Qed.

Lemma wf_byte_at bf i :
  wf bf -> (i < bf_num_validators bf)%nat -> is_Some (bf_bits bf !! byte_idx i).
Proof.
  intros [Hlen _ _] Hi. apply lookup_lt_is_Some. rewrite Hlen. by apply byte_idx_lt.
Qed.

Lemma is_set_lt bf i : is_set bf i = true -> (i < bf_num_validators bf)%nat.
Proof. unfold is_set. destruct (Nat.leb_spec (bf_num_validators bf) i); [done|lia]. Qed.

Lemma is_set_ge bf i : (bf_num_validators bf <= i)%nat -> is_set bf i = false.
Proof. intros. unfold is_set. by destruct (Nat.leb_spec (bf_num_validators bf) i); [|lia]. Qed.

Lemma elem_of_set_indices bf i : i ∈ set_indices bf <-> is_set bf i = true.
Proof.
  unfold set_indices. rewrite list_elem_of_filter, elem_of_seq. split; [tauto|].
  intros Hs. pose proof (is_set_lt _ _ Hs). split; [done|lia].
Qed.

Lemma elem_of_signers bf i : i ∈ signers bf <-> is_set bf i = true.
Proof. unfold signers. rewrite elem_of_list_to_set. apply elem_of_set_indices. Qed.

Lemma NoDup_set_indices bf : NoDup (set_indices bf).
Proof. apply list.NoDup_filter, NoDup_seq. Qed.

(** ** The operations keep a bitfield well formed *)

Lemma new_wf n : wf (new n).
Proof.
  split; simpl.
  - by rewrite length_replicate.
  - apply Forall_replicate. lia.
  - intros j b i [-> _]%lookup_replicate_1 ??. apply N.bits_0.
Qed.

Lemma new_signers n : signers (new n) = ∅.
Proof.
  apply set_eq. intros i. rewrite elem_of_signers. split; [|set_solver].
  intros Hs. pose proof (is_set_lt _ _ Hs) as Hi.
  destruct (wf_byte_at (new n) i (new_wf n) Hi) as [b Hb].
  rewrite (is_set_testbit _ _ b) in Hs by done.
  simpl in Hb. apply lookup_replicate_1 in Hb as [-> _]. by rewrite N.bits_0 in Hs.
Qed.

(** Replacing one byte by one that agrees on the tail keeps [wf]. *)
Lemma wf_update bf j b b' :
  wf bf -> bf_bits bf !! j = Some b -> b' < 256 ->
  (forall i, (i < 8)%nat -> (bf_num_validators bf <= 8 * j + i)%nat ->
     N.testbit b' (N.of_nat i) = false) ->
  wf {| bf_bits := <[j := b']> (bf_bits bf); bf_num_validators := bf_num_validators bf |}.
Proof.
  intros [Hlen Hbyte Htail] Hj Hb' Ht. split; simpl.
  - by rewrite length_insert.
  - by apply Forall_insert.
  - intros j' c i Hc Hi Hge. destruct (decide (j = j')) as [<-|Hne].
    + rewrite list_lookup_insert_eq in Hc by (by eapply lookup_lt_Some).
      simplify_eq. by apply Ht.
    + rewrite list_lookup_insert_ne in Hc by done. by eapply Htail.
Qed.

(** Reading any index after one byte has been replaced. *)
Lemma is_set_update bf j b b' i :
  bf_bits bf !! j = Some b -> (i < bf_num_validators bf)%nat ->
  is_set {| bf_bits := <[j := b']> (bf_bits bf); bf_num_validators := bf_num_validators bf |} i
  = if decide (byte_idx i = j) then N.testbit b' (N.of_nat (i mod 8)) else is_set bf i.
Proof.
  intros Hj Hi. unfold is_set. simpl.
  destruct (Nat.leb_spec (bf_num_validators bf) i); [lia|].
  case_decide as E.
  - rewrite E, list_lookup_insert_eq by (by eapply lookup_lt_Some). apply land_shiftr_1.
  - by rewrite list_lookup_insert_ne.
Qed.

Lemma lor_mask_lt b i : b < 256 -> N.lor b (bit_mask i) < 256.
Proof.
  rewrite !lt_256_bits. intros Hb j Hj. rewrite N.lor_spec, Hb by done.
  unfold bit_mask, bit_idx. rewrite N.shiftl_1_l, N.pow2_bits_eqb. simpl.
  apply N.eqb_neq. pose proof (Nat.mod_upper_bound i 8). lia.
Qed.

Lemma land_lt b c : b < 256 -> N.land b c < 256.
Proof. rewrite !lt_256_bits. intros Hb j Hj. by rewrite N.land_spec, Hb. Qed.

Lemma mod8_lt i : (i mod 8 < 8)%nat.
Proof. by apply Nat.mod_upper_bound. Qed.

#[local] Hint Resolve mod8_lt : core.

(** On a well-formed bitfield [set] never panics, keeps it well formed, and
    adds the index to the signers (out of range it changes nothing). *)
Lemma set_spec bf i :
  wf bf -> exists bf', set bf i = Some bf' /\ wf bf' /\
    bf_num_validators bf' = bf_num_validators bf /\
    forall k, is_set bf' k = is_set bf k ||
                (bool_decide (k = i) && (i <? bf_num_validators bf)%nat).
Proof.
  intros Hwf. unfold set. destruct (Nat.ltb_spec i (bf_num_validators bf)) as [Hi|Hi].
  2:{ exists bf. repeat split; try apply Hwf. intros k. by rewrite andb_false_r, orb_false_r. }
  destruct (wf_byte_at _ _ Hwf Hi) as [b Hb]. rewrite Hb.
  eexists. split; [done|]. split; [|split; [done|]].
  - apply (wf_update _ _ b); [done|done| |].
    + apply lor_mask_lt, (Forall_lookup_1 _ _ _ _ (wf_byte _ Hwf) Hb).
    + intros k Hk Hge. rewrite N.lor_spec, bit_mask_spec by done.
      rewrite (wf_tail _ Hwf _ _ _ Hb Hk Hge), orb_false_l. apply bool_decide_eq_false.
      pose proof (index_split i). lia.
  - intros k. destruct (Nat.lt_ge_cases k (bf_num_validators bf)) as [Hk|Hk].
    + rewrite (is_set_update _ _ b) by done. case_decide as E.
      * rewrite N.lor_spec, bit_mask_spec, andb_true_r by done.
        rewrite <- E in Hb. rewrite (is_set_testbit bf k b Hk Hb). f_equal.
        apply bool_decide_ext. pose proof (index_split i). pose proof (index_split k). lia.
      * rewrite bool_decide_eq_false_2 by congruence. by rewrite orb_false_r.
    + rewrite !is_set_ge, bool_decide_eq_false_2 by (simpl; lia). done.
Qed.

Lemma clear_spec bf i :
  wf bf -> exists bf', clear bf i = Some bf' /\ wf bf' /\
    bf_num_validators bf' = bf_num_validators bf /\
    forall k, is_set bf' k = is_set bf k && negb (bool_decide (k = i)).
Proof.
  intros Hwf. unfold clear. destruct (Nat.ltb_spec i (bf_num_validators bf)) as [Hi|Hi].
  2:{ exists bf. repeat split; try apply Hwf. intros k.
      destruct (is_set bf k) eqn:E; [|done]. apply is_set_lt in E.
      by rewrite bool_decide_eq_false_2 by lia. }
  destruct (wf_byte_at _ _ Hwf Hi) as [b Hb]. rewrite Hb.
  eexists. split; [done|]. split; [|split; [done|]].
  - apply (wf_update _ _ b); [done|done| |].
    + apply land_lt, (Forall_lookup_1 _ _ _ _ (wf_byte _ Hwf) Hb).
    + intros k Hk Hge. by rewrite N.land_spec, (wf_tail _ Hwf _ _ _ Hb Hk Hge).
  - intros k. destruct (Nat.lt_ge_cases k (bf_num_validators bf)) as [Hk|Hk].
    + rewrite (is_set_update _ _ b) by done. case_decide as E.
      * unfold bit_mask_not. rewrite N.land_spec, N.lxor_spec, testbit_255, bit_mask_spec by done.
        rewrite <- E in Hb. rewrite (is_set_testbit bf k b Hk Hb). f_equal.
        rewrite xorb_true_l. f_equal. apply bool_decide_ext.
        pose proof (index_split i). pose proof (index_split k). lia.
      * rewrite bool_decide_eq_false_2 by congruence. by rewrite andb_true_r.
    + by rewrite !is_set_ge by (simpl; lia).
Qed.

(** ** Counting

    [count_ones] counts the bits of the bytes; on a well-formed bitfield they
    are the indices [set_indices] lists. *)

Definition bit_at (bits : list N) (i : nat) : bool :=
  match bits !! byte_idx i with
  | Some b => N.testbit b (N.of_nat (i mod 8))
  | None => false
  end.

Lemma length_filter_ext {A} (f g : A -> bool) (l : list A) :
  (forall x, x ∈ l -> f x = g x) ->
  length (filter (fun x => f x = true) l) = length (filter (fun x => g x = true) l).
Proof.
  induction l as [|x l IH]; intros Hext; [done|].
  rewrite !filter_cons, (Hext x) by set_solver.
  case_decide; simpl; rewrite IH; set_solver.
Qed.

Lemma length_filter_fmap {A B} (f : B -> bool) (g : A -> B) (l : list A) :
  length (filter (fun y => f y = true) (g <$> l)) = length (filter (fun x => f (g x) = true) l).
Proof.
  induction l as [|x l IH]; [done|]. rewrite fmap_cons, !filter_cons.
  case_decide; simpl; by rewrite IH.
Qed.

Lemma bit_at_skip b bits i : bit_at (b :: bits) (8 + i) = bit_at bits i.
Proof.
  unfold bit_at, byte_idx. replace (8 + i)%nat with (i + 1 * 8)%nat by lia.
  by rewrite Nat.div_add, Nat.Div0.mod_add, Nat.add_1_r.
Qed.

Lemma bit_at_head b bits i : (i < 8)%nat -> bit_at (b :: bits) i = N.testbit b (N.of_nat i).
Proof.
  intros. unfold bit_at, byte_idx. by rewrite Nat.div_small, Nat.mod_small.
Qed.

Lemma count_bits bits :
  foldr Nat.add 0%nat (byte_count_ones <$> bits)
  = length (filter (fun i => bit_at bits i = true) (seq 0 (8 * length bits))).
Proof.
  induction bits as [|b bits IH]; [done|].
  rewrite fmap_cons. cbn [foldr length]. rewrite IH.
  replace (8 * S (length bits))%nat with (8 + 8 * length bits)%nat by lia.
  rewrite seq_app, list.filter_app, length_app. apply (f_equal2 Nat.add).
  - unfold byte_count_ones. apply length_filter_ext. intros i [_ Hi]%elem_of_seq.
    rewrite bit_at_head; [done|lia].
  - rewrite <- (Nat.add_0_r (0 + 8)), <- fmap_add_seq, length_filter_fmap.
    apply (length_filter_ext (bit_at bits)). intros i _. by rewrite <- (bit_at_skip b).
Qed.

Lemma div_ceil8_le n : (n <= 8 * div_ceil8 n)%nat.
Proof.
  unfold div_ceil8. pose proof (Nat.div_mod_eq (n + 7) 8).
  pose proof (Nat.mod_upper_bound (n + 7) 8). lia.
Qed.

Lemma bit_at_is_set bf i :
  (i < bf_num_validators bf)%nat -> bit_at (bf_bits bf) i = is_set bf i.
Proof.
  intros Hi. unfold bit_at. destruct (bf_bits bf !! byte_idx i) as [b|] eqn:Hb.
  - by rewrite (is_set_testbit bf i b).
  - unfold is_set. rewrite Hb. by destruct (_ <=? _)%nat.
Qed.

Lemma bit_at_tail bf i :
  wf bf -> (bf_num_validators bf <= i)%nat -> bit_at (bf_bits bf) i = false.
Proof.
  intros Hwf Hi. unfold bit_at. destruct (bf_bits bf !! byte_idx i) as [b|] eqn:Hb; [|done].
  apply (wf_tail _ Hwf _ _ _ Hb (mod8_lt i)). rewrite <- index_split. done.
Qed.

Lemma filter_none {A} (f : A -> bool) (l : list A) :
  (forall x, x ∈ l -> f x = false) -> filter (fun x => f x = true) l = [].
Proof.
  induction l as [|x l IH]; intros Hf; [done|].
  rewrite filter_cons, Hf by set_solver. simpl. apply IH. set_solver.
Qed.

Lemma count_ones_set_indices bf : wf bf -> count_ones bf = length (set_indices bf).
Proof.
  intros Hwf. unfold count_ones, set_indices. rewrite count_bits, (wf_len _ Hwf).
  pose proof (div_ceil8_le (bf_num_validators bf)) as Hle.
  replace (8 * div_ceil8 (bf_num_validators bf))%nat
    with (bf_num_validators bf + (8 * div_ceil8 (bf_num_validators bf) - bf_num_validators bf))%nat
    by lia.
  rewrite seq_app, list.filter_app, length_app.
  rewrite (filter_none (bit_at (bf_bits bf)) (seq (0 + _) _)).
  - rewrite Nat.add_0_r. apply length_filter_ext.
    intros i [_ Hi]%elem_of_seq. by apply bit_at_is_set.
  - intros i [Hi _]%elem_of_seq. by apply bit_at_tail.
Qed.

Lemma size_signers bf : size (signers bf) = length (set_indices bf).
Proof. apply size_list_to_set, NoDup_set_indices. Qed.

(** Setting every index of a list, the loop that builds the signers of a
    certificate. *)
Fixpoint set_all (bf : SignerBitfield) (l : list nat) : option SignerBitfield :=
  match l with
  | [] => Some bf
  | i :: l => match set bf i with Some bf' => set_all bf' l | None => None end
  end.

Lemma set_all_spec l bf :
  wf bf -> Forall (fun i => i < bf_num_validators bf)%nat l ->
  exists bf', set_all bf l = Some bf' /\ wf bf' /\
    bf_num_validators bf' = bf_num_validators bf /\
    signers bf' = signers bf ∪ list_to_set l.
Proof.
  revert bf. induction l as [|i l IH]; intros bf Hwf Hl.
  - exists bf. repeat split; try apply Hwf. set_solver.
  - inversion_clear Hl as [|?? Hi Hl']. simpl.
    destruct (set_spec bf i Hwf) as (bf1 & -> & Hwf1 & Hn1 & Hset).
    destruct (IH bf1 Hwf1) as (bf2 & -> & Hwf2 & Hn2 & Hs2); [by rewrite Hn1|].
    exists bf2. repeat split; [apply Hwf2..|congruence|].
    rewrite Hs2. apply set_eq. intros k. rewrite !elem_of_union, !elem_of_signers, Hset.
    destruct (Nat.ltb_spec i (bf_num_validators bf)); [|lia].
    rewrite andb_true_r, orb_true_iff, bool_decide_eq_true. set_solver.
Qed.

(** the packed bitfield implements a finite set of validator indices.  On
    a well-formed bitfield and an index in range, [set] and [clear] succeed,
    keep it well formed and insert or delete the index; [is_set] is membership
    and [count_ones] the cardinality, so a certificate's signer count is the
    number of distinct signers. *)
Theorem bitfield_refines_set bf i :
  wf bf -> (i < bf_num_validators bf)%nat ->
  (exists bf', set bf i = Some bf' /\ wf bf' /\ signers bf' = {[i]} ∪ signers bf) /\
  (exists bf', clear bf i = Some bf' /\ wf bf' /\ signers bf' = signers bf ∖ {[i]}) /\
  (is_set bf i = true <-> i ∈ signers bf) /\
  count_ones bf = size (signers bf).
Proof.
  intros Hwf Hi. split; [|split; [|split]].
  - destruct (set_spec bf i Hwf) as (bf' & -> & Hwf' & _ & Hset).
    exists bf'. repeat split; try apply Hwf'. apply set_eq. intros k.
    rewrite elem_of_union, !elem_of_signers, Hset.
    destruct (Nat.ltb_spec i (bf_num_validators bf)); [|lia].
    rewrite andb_true_r, orb_true_iff, bool_decide_eq_true. set_solver.
  - destruct (clear_spec bf i Hwf) as (bf' & -> & Hwf' & _ & Hclr).
    exists bf'. repeat split; try apply Hwf'. apply set_eq. intros k.
    rewrite elem_of_difference, !elem_of_signers, Hclr, andb_true_iff, negb_true_iff,
      bool_decide_eq_false. set_solver.
  - symmetry. apply elem_of_signers.
  - by rewrite size_signers, count_ones_set_indices.
Qed.

Lemma bitfield_refines_set_witness :
  (exists bf', set (new 10) 9 = Some bf' /\ wf bf' /\ signers bf' = {[9%nat]} ∪ signers (new 10)) /\
  (exists bf', clear (new 10) 9 = Some bf' /\ wf bf' /\ signers bf' = signers (new 10) ∖ {[9%nat]}) /\
  (is_set (new 10) 9 = true <-> 9%nat ∈ signers (new 10)) /\
  count_ones (new 10) = size (signers (new 10)).
Proof. apply (bitfield_refines_set (new 10) 9); [apply new_wf | simpl; lia]. Defined.

End SignerBitfieldOps.
