(* ===== verification/Types.v ===== *)
(** * Core types (crates/types/src)

    The data the components exchange: identifiers, voting power, quorum
    certificates, transactions, proofs, blocks and votes, with the methods the
    other crates call.  A [Hash] is the number its 32 bytes spell in
    big-endian order, so that the derived byte-wise [Ord] is the order of [N];
    signatures, public keys and node ids are numbers in the same way.  [Arc]s
    are transparent. *)

From stdpp Require Import base gmap list numbers.
From S2P Require Import Prelude Bitfield.

(** ** Identifiers (hash.rs, identifiers.rs, validator.rs) *)

Abbreviation Hash := N (only parsing).
Abbreviation ValidatorId := N (only parsing).
Abbreviation ShardGroupId := N (only parsing).
Abbreviation BlockHeight := N (only parsing).
Abbreviation NodeId := N (only parsing).
Abbreviation Bls12381G1PublicKey := N (only parsing).
Abbreviation Bls12381G2Signature := N (only parsing).
Abbreviation Bls12381G1PrivateKey := N (only parsing).
(** [std::time::Duration], in nanoseconds. *)
Abbreviation Duration := N (only parsing).
Abbreviation bytes := (list N) (only parsing).

Definition from_millis (ms : N) : Duration := ms * 1000000.
Definition from_secs (s : N) : Duration := s * 1000000000.

Definition ZERO : Hash := 0.

Module BlockHeightOps.
Definition GENESIS : BlockHeight := 0.
Definition next (h : BlockHeight) : BlockHeight := h +w 1.
Definition prev (h : BlockHeight) : option BlockHeight := if 0 <? h then Some (h - 1) else None.
End BlockHeightOps.

Module VotePower.
Definition new (power : u64) : u64 := N.max power 1.
Definition sum (powers : list u64) : u64 := wsum powers.
(** More than two thirds: [voted * 3 > total * 2]. *)
Definition has_quorum (voted total : u64) : bool := total *w 2 <? voted *w 3.
End VotePower.

(** [Duration::as_millis] followed by [as u64]. *)
Definition as_millis_u64 (d : Duration) : u64 := as_u64 (d / 1000000).

(** ** Quorum certificates (quorum_certificate.rs) *)

Record QuorumCertificate := mk_qc {
  qc_block_hash : Hash;
  qc_height : BlockHeight;
  qc_parent_block_hash : Hash;
  qc_round : u64;
  qc_signers : SignerBitfield;
  qc_aggregated_signature : Bls12381G2Signature;
  qc_voting_power : u64;
  qc_weighted_timestamp_ms : u64
}.

#[export] Instance QuorumCertificate_eq_dec : EqDecision QuorumCertificate.
Proof. solve_decision. Defined.

Definition zero_bls_signature : Bls12381G2Signature := 0.

Module QC.
Definition genesis : QuorumCertificate := {|
  qc_block_hash := ZERO;
  qc_height := 0;
  qc_parent_block_hash := ZERO;
  qc_round := 0;
  qc_signers := SignerBitfieldOps.empty;
  qc_aggregated_signature := zero_bls_signature;
  qc_voting_power := 0;
  qc_weighted_timestamp_ms := 0
|}.

Definition is_genesis (qc : QuorumCertificate) : bool :=
  (qc_height qc =? 0) && (qc_block_hash qc =? ZERO).

Definition signer_count (qc : QuorumCertificate) : usize :=
  SignerBitfieldOps.count_ones (qc_signers qc).

Definition has_quorum (qc : QuorumCertificate) (total_power : u64) : bool :=
  VotePower.has_quorum (qc_voting_power qc) total_power.

Definition has_committable_block (qc : QuorumCertificate) : bool :=
  (0 <? qc_height qc) && negb (is_genesis qc).

Definition committable_height (qc : QuorumCertificate) : option BlockHeight :=
  if has_committable_block qc then Some (qc_height qc - 1) else None.

Definition committable_hash (qc : QuorumCertificate) : option Hash :=
  if has_committable_block qc then Some (qc_parent_block_hash qc) else None.
End QC.

(** ** State entries, proofs and certificates (state.rs, proofs.rs) *)

Record StateEntry := mk_state_entry {
  se_storage_key : bytes;
  se_value : option bytes
}.

Record SubstateWrite := mk_substate_write {
  sw_node_id : NodeId;
  sw_partition : N;
  sw_sort_key : bytes;
  sw_value : bytes
}.

Record StateCertificate := mk_state_certificate {
  sc_transaction_hash : Hash;
  sc_shard_group_id : ShardGroupId;
  sc_read_nodes : list NodeId;
  sc_state_writes : list SubstateWrite;
  sc_outputs_merkle_root : Hash;
  sc_success : bool;
  sc_aggregated_signature : Bls12381G2Signature;
  sc_signers : SignerBitfield;
  sc_voting_power : u64
}.

#[export] Instance SubstateWrite_eq_dec : EqDecision SubstateWrite.
Proof. solve_decision. Defined.
#[export] Instance SubstateWrite_countable : Countable SubstateWrite.
Proof.
  apply (inj_countable' (fun w => (sw_node_id w, sw_partition w, sw_sort_key w, sw_value w))
           (fun '(n, p, k, v) => mk_substate_write n p k v)). by intros [].
Defined.

(** Signed state entries for a transaction, from a validator of another shard. *)
Record StateProvision := mk_state_provision {
  sp_transaction_hash : Hash;
  sp_target_shard : ShardGroupId;
  sp_source_shard : ShardGroupId;
  sp_block_height : BlockHeight;
  sp_block_timestamp : u64;
  sp_entries : list StateEntry;
  sp_validator_id : ValidatorId;
  sp_signature : Bls12381G2Signature
}.

(** A validator's vote on the result of an execution. *)
Record StateVoteBlock := mk_state_vote {
  sv_transaction_hash : Hash;
  sv_shard_group_id : ShardGroupId;
  sv_state_root : Hash;
  sv_success : bool;
  sv_state_writes : list SubstateWrite;
  sv_validator : ValidatorId;
  sv_signature : Bls12381G2Signature
}.

#[export] Instance StateVoteBlock_eq_dec : EqDecision StateVoteBlock.
Proof. solve_decision. Defined.
#[export] Instance StateVoteBlock_countable : Countable StateVoteBlock.
Proof.
  apply (inj_countable'
    (fun v => (sv_transaction_hash v, sv_shard_group_id v, sv_state_root v, sv_success v,
               sv_state_writes v, sv_validator v, sv_signature v))
    (fun '(h, s, r, b, w, v, g) => mk_state_vote h s r b w v g)). by intros [].
Defined.

Record ExecutionResult := mk_execution_result {
  er_transaction_hash : Hash;
  er_success : bool;
  er_state_root : Hash;
  er_writes : list SubstateWrite;
  er_error : option bytes
}.

Record CommitmentProof := mk_commitment_proof {
  cp_tx_hash : Hash;
  cp_source_shard : ShardGroupId;
  cp_signers : SignerBitfield;
  cp_aggregated_signature : Bls12381G2Signature;
  cp_block_height : BlockHeight;
  cp_block_timestamp : u64;
  cp_entries : list StateEntry
}.

Definition commitment_signer_count (p : CommitmentProof) : usize := SignerBitfieldOps.count (cp_signers p).

Record CycleProof := mk_cycle_proof {
  cyp_winner_tx_hash : Hash;
  cyp_winner_commitment : CommitmentProof
}.

Definition winner_source_shard (p : CycleProof) : ShardGroupId :=
  cp_source_shard (cyp_winner_commitment p).

(** ** Transactions (transaction.rs) *)

Record RetryDetails := mk_retry_details {
  rd_original_tx_hash : Hash;
  rd_retry_count : N;
  rd_deferred_by : Hash;
  rd_deferred_at : BlockHeight
}.

(** The Radix [UserTransaction] is represented by its serialized bytes, the
    field [serialized_bytes] the source caches beside it; the validation cache
    is left out. *)
Record RoutableTransaction := mk_routable_transaction {
  rt_serialized_bytes : bytes;
  rt_declared_reads : list NodeId;
  rt_declared_writes : list NodeId;
  rt_retry_details : option RetryDetails;
  rt_hash : Hash
}.

Definition is_retry (tx : RoutableTransaction) : bool :=
  match rt_retry_details tx with Some _ => true | None => false end.

Inductive TransactionDecision := Accept | Reject.

Record TransactionCertificate := mk_transaction_certificate {
  tc_transaction_hash : Hash;
  tc_decision : TransactionDecision;
  tc_shard_proofs : gmap ShardGroupId StateCertificate
}.

Inductive DeferReason := LivelockCycle (winner_tx_hash : Hash).

Record TransactionDefer := mk_transaction_defer {
  td_tx_hash : Hash;
  td_reason : DeferReason;
  td_block_height : BlockHeight;
  td_proof : CycleProof
}.

Definition winner_hash (d : TransactionDefer) : Hash :=
  match td_reason d with LivelockCycle w => w end.

Inductive AbortReason :=
  | ExecutionTimeout (committed_at : BlockHeight)
  | TooManyRetries (retry_count : N)
  | ExecutionRejected (reason : bytes).

Record TransactionAbort := mk_transaction_abort {
  ta_tx_hash : Hash;
  ta_reason : AbortReason;
  ta_block_height : BlockHeight
}.

(** ** The life of a transaction (transaction.rs) *)

Inductive TransactionStatus :=
  | Pending
  | Committed (height : BlockHeight)
  | Executed (decision : TransactionDecision) (committed_at : BlockHeight)
  | Completed (decision : TransactionDecision)
  | Deferred (by_ : Hash)
  | Retried (new_tx : Hash)
  | Aborted (reason : AbortReason).

#[export] Instance TransactionDecision_eq_dec : EqDecision TransactionDecision.
Proof. solve_decision. Defined.
#[export] Instance AbortReason_eq_dec : EqDecision AbortReason.
Proof. solve_decision. Defined.
#[export] Instance TransactionStatus_eq_dec : EqDecision TransactionStatus.
Proof. solve_decision. Defined.

Module Status.
Definition is_pending (s : TransactionStatus) : bool :=
  match s with Pending => true | _ => false end.
Definition is_committed (s : TransactionStatus) : bool :=
  match s with Committed _ => true | _ => false end.
Definition is_executed (s : TransactionStatus) : bool :=
  match s with Executed _ _ => true | _ => false end.

Definition is_final (s : TransactionStatus) : bool :=
  match s with Completed _ | Retried _ | Aborted _ => true | _ => false end.

Definition holds_state_lock (s : TransactionStatus) : bool :=
  match s with Committed _ | Executed _ _ => true | _ => false end.

Definition is_deferrable (s : TransactionStatus) : bool :=
  match s with Committed _ => true | _ => false end.

Definition ordinal (s : TransactionStatus) : N :=
  match s with
  | Pending => 0
  | Committed _ => 1
  | Executed _ _ => 2
  | Completed _ => 3
  | Deferred _ => 4
  | Retried _ => 5
  | Aborted _ => 6
  end.

Definition can_transition_to (s next : TransactionStatus) : bool :=
  match s, next with
  | Pending, Committed _ => true
  | Pending, Retried _ => true
  | Pending, Deferred _ => true
  | Committed _, Executed _ _ => true
  | Committed _, Deferred _ => true
  | Committed _, Retried _ => true
  | Committed _, Aborted _ => true
  | Executed _ _, Completed _ => true
  | Executed _ _, Aborted _ => true
  | Deferred _, Retried _ => true
  | Deferred _, Aborted _ => true
  | _, _ => false
  end.
End Status.

(** Transactions ready for a block, by section. *)
Record ReadyTransactions := mk_ready_transactions {
  ready_retries : list RoutableTransaction;
  ready_priority : list RoutableTransaction;
  ready_others : list RoutableTransaction
}.

Definition ready_is_empty (r : ReadyTransactions) : bool :=
  match ready_retries r, ready_priority r, ready_others r with
  | [], [], [] => true
  | _, _, _ => false
  end.

(** ** Blocks and votes (block.rs, lib.rs) *)

Record BlockHeader := mk_block_header {
  bh_height : BlockHeight;
  bh_parent_hash : Hash;
  bh_parent_qc : QuorumCertificate;
  bh_proposer : ValidatorId;
  bh_timestamp : u64;
  bh_round : u64;
  bh_is_fallback : bool;
  bh_state_root : Hash;
  bh_state_version : u64;
  bh_transaction_root : Hash
}.

#[export] Instance BlockHeader_eq_dec : EqDecision BlockHeader.
Proof. solve_decision. Defined.

Definition header_is_genesis (h : BlockHeader) : bool := bh_height h =? 0.

Record Block := mk_block {
  bl_header : BlockHeader;
  bl_retry_transactions : list RoutableTransaction;
  bl_priority_transactions : list RoutableTransaction;
  bl_transactions : list RoutableTransaction;
  bl_certificates : list TransactionCertificate;
  bl_deferred : list TransactionDefer;
  bl_aborted : list TransactionAbort;
  bl_commitment_proofs : gmap Hash CommitmentProof
}.

Definition transaction_count (b : Block) : usize :=
  (length (bl_retry_transactions b) + length (bl_priority_transactions b)
   + length (bl_transactions b))%nat.

Definition has_commitment_proof (b : Block) (tx_hash : Hash) : bool :=
  contains_key (bl_commitment_proofs b) tx_hash.

Definition genesis_block (genesis_qc : QuorumCertificate) : Block := {|
  bl_header := {|
    bh_height := 0;
    bh_parent_hash := ZERO;
    bh_parent_qc := genesis_qc;
    bh_proposer := 0;
    bh_timestamp := 0;
    bh_round := 0;
    bh_is_fallback := false;
    bh_state_root := ZERO;
    bh_state_version := 0;
    bh_transaction_root := ZERO
  |};
  bl_retry_transactions := [];
  bl_priority_transactions := [];
  bl_transactions := [];
  bl_certificates := [];
  bl_deferred := [];
  bl_aborted := [];
  bl_commitment_proofs := ∅
|}.

Record BlockVote := mk_block_vote {
  bv_block_hash : Hash;
  bv_height : BlockHeight;
  bv_round : u64;
  bv_voter : ValidatorId;
  bv_signature : Bls12381G2Signature;
  bv_timestamp : u64
}.

#[export] Instance BlockVote_eq_dec : EqDecision BlockVote.
Proof. solve_decision. Defined.

(** The block proposal message (messages/src/gossip/block_header.rs). *)
Record BlockHeaderGossip := mk_block_header_gossip {
  bg_header : BlockHeader;
  bg_retry_hashes : list Hash;
  bg_priority_hashes : list Hash;
  bg_transaction_hashes : list Hash;
  bg_certificate_hashes : list Hash;
  bg_deferred : list TransactionDefer;
  bg_aborted : list TransactionAbort;
  bg_commitment_proofs : gmap Hash CommitmentProof
}.

(** ** Code outside the repository: hashing, encoding, signatures

    blake3, the SBOR encoding of a header and BLS12-381 come from other
    crates; they are the operations of the class [Crypto].  Each theorem that
    needs a law of theirs names it. *)
Class Crypto := {
  blake3 : bytes -> Hash;
  sbor_encode_header : BlockHeader -> bytes;
  sign_v1 : Bls12381G1PrivateKey -> bytes -> Bls12381G2Signature;
  verify_bls12381_v1 : bytes -> Bls12381G1PublicKey -> Bls12381G2Signature -> bool;
  aggregate_signatures : list Bls12381G2Signature -> option Bls12381G2Signature;
  aggregate_public_keys : list Bls12381G1PublicKey -> option Bls12381G1PublicKey
}.

Section hashing.
Context `{Crypto}.

(** [BlockHeader::hash] and [Block::hash]. *)
Definition header_hash (h : BlockHeader) : Hash := blake3 (sbor_encode_header h).
Definition block_hash (b : Block) : Hash := header_hash (bl_header b).
End hashing.
