(* ===== verification/Encoding.v ===== *)
(** * Byte encodings and signed messages (crates/types/src/signing.rs, proofs.rs)

    The fixed-width encodings the hashes and signatures are computed over, and
    the four domain-separated messages validators sign.  The theorem at the end
    says that the bytes of a signed message determine which message it is. *)

From stdpp Require Import base gmap list numbers strings.
From Stdlib Require Import Strings.Byte NArith Lia.
From S2P Require Import Prelude Bitfield Types.

(** ** Fixed-width integers and hashes as bytes *)

(** [to_le_bytes] of a [k]-byte integer. *)
Fixpoint le_bytes (k : nat) (n : N) : bytes :=
  match k with
  | O => []
  | S k' => (n mod 256) :: le_bytes k' (n / 256)
  end.

Definition to_le_bytes (n : u64) : bytes := le_bytes 8 n.
Definition u32_to_le_bytes (n : N) : bytes := le_bytes 4 n.

(** [Hash::as_bytes]: the 32 bytes, most significant first. *)
Definition as_bytes (h : Hash) : bytes := rev (le_bytes 32 h).

#[global] Arguments to_le_bytes : simpl never.
#[global] Arguments u32_to_le_bytes : simpl never.
#[global] Arguments as_bytes : simpl never.

(** A byte-string literal [b"..."]. *)
Definition byte_literal (s : string) : bytes := Byte.to_N <$> String.list_byte_of_string s.

(** Values that fit the source's machine types. *)
Definition is_u64 (n : N) : Prop := n < u64_modulus.
Definition hash_modulus : N := 2 ^ 256.
Definition is_hash (h : Hash) : Prop := h < hash_modulus.

Lemma length_le_bytes k n : length (le_bytes k n) = k.
Proof. revert n. induction k as [|k IH]; intros n; simpl; [done|]. by rewrite IH. Qed.

Lemma le_bytes_inj k n m :
  n < 256 ^ N.of_nat k -> m < 256 ^ N.of_nat k -> le_bytes k n = le_bytes k m -> n = m.
Proof.
  revert n m. induction k as [|k IH]; intros n m Hn Hm Heq.
  - change (256 ^ N.of_nat 0) with 1 in *. lia.
  - rewrite Nat2N.inj_succ, N.pow_succ_r' in Hn, Hm.
    cbn [le_bytes] in Heq. injection Heq as Hmod Hdiv.
    apply IH in Hdiv; [|by apply N.Div0.div_lt_upper_bound..].
    rewrite (N.div_mod n 256), (N.div_mod m 256) by done. by rewrite Hmod, Hdiv.
Qed.

Lemma length_to_le_bytes n : length (to_le_bytes n) = 8%nat.
Proof. apply length_le_bytes. Qed.

Lemma length_as_bytes h : length (as_bytes h) = 32%nat.
Proof. unfold as_bytes. by rewrite length_rev, length_le_bytes. Qed.

Lemma to_le_bytes_inj n m : is_u64 n -> is_u64 m -> to_le_bytes n = to_le_bytes m -> n = m.
Proof. apply (le_bytes_inj 8). Qed.

Lemma as_bytes_inj h h' : is_hash h -> is_hash h' -> as_bytes h = as_bytes h' -> h = h'.
Proof.
  unfold as_bytes. intros Hh Hh' Heq. apply (le_bytes_inj 32); [done..|].
  by rewrite <- (rev_involutive (le_bytes 32 h)), <- (rev_involutive (le_bytes 32 h')), Heq.
Qed.

(** Concatenation of hashes is injective. *)
Lemma concat_as_bytes_inj l l' :
  Forall is_hash l -> Forall is_hash l' -> flat_map as_bytes l = flat_map as_bytes l' -> l = l'.
Proof.
  intros Hl. revert l'. induction Hl as [|h l Hh Hl IH]; intros l' Hl' Heq.
  - destruct Hl' as [|h' l' _ _]; [done|]. apply (f_equal length) in Heq.
    cbn [flat_map] in Heq. rewrite length_app, length_as_bytes in Heq. discriminate.
  - destruct Hl' as [|h' l' Hh' Hl'].
    + apply (f_equal length) in Heq. cbn [flat_map] in Heq. rewrite length_app, length_as_bytes in Heq. discriminate.
    + cbn [flat_map] in Heq. apply app_inj_1 in Heq as [H1 H2]; [|by rewrite !length_as_bytes].
      f_equal; [by apply as_bytes_inj | by apply IH].
Qed.

(** ** Messages *)

Definition DOMAIN_BLOCK_VOTE : bytes := byte_literal "BLOCK_VOTE".
Definition DOMAIN_STATE_PROVISION : bytes := byte_literal "STATE_PROVISION".
Definition DOMAIN_EXEC_VOTE : bytes := byte_literal "EXEC_VOTE".
Definition DOMAIN_COMMITMENT_PROOF : bytes := byte_literal "COMMITMENT_PROOF".

Definition block_vote_message (shard_group : ShardGroupId) (height round : u64)
    (block_hash : Hash) : bytes :=
  DOMAIN_BLOCK_VOTE ++ to_le_bytes shard_group ++ to_le_bytes height ++ to_le_bytes round
  ++ as_bytes block_hash.

Definition state_provision_message (tx_hash : Hash) (target_shard source_shard : ShardGroupId)
    (block_height : BlockHeight) (block_timestamp : u64) (entries_hashes : list Hash) : bytes :=
  DOMAIN_STATE_PROVISION ++ as_bytes tx_hash ++ to_le_bytes target_shard
  ++ to_le_bytes source_shard ++ to_le_bytes block_height ++ to_le_bytes block_timestamp
  ++ flat_map as_bytes entries_hashes.

Definition exec_vote_message (tx_hash state_root : Hash) (shard_group : ShardGroupId)
    (success : bool) : bytes :=
  DOMAIN_EXEC_VOTE ++ as_bytes tx_hash ++ as_bytes state_root ++ to_le_bytes shard_group
  ++ [if success then 1 else 0].

Definition commitment_proof_message (tx_hash : Hash) (source_shard : ShardGroupId)
    (block_height : BlockHeight) (entry_hashes : list Hash) : bytes :=
  DOMAIN_COMMITMENT_PROOF ++ as_bytes tx_hash ++ to_le_bytes source_shard
  ++ to_le_bytes block_height ++ flat_map as_bytes entry_hashes.

(** What a validator signs: one constructor per message builder. *)
Inductive SignedContent :=
  | BlockVoteContent (shard_group : ShardGroupId) (height round : u64) (block_hash : Hash)
  | StateProvisionContent (tx_hash : Hash) (target_shard source_shard : ShardGroupId)
      (block_height : BlockHeight) (block_timestamp : u64) (entries_hashes : list Hash)
  | ExecVoteContent (tx_hash state_root : Hash) (shard_group : ShardGroupId) (success : bool)
  | CommitmentProofContent (tx_hash : Hash) (source_shard : ShardGroupId)
      (block_height : BlockHeight) (entry_hashes : list Hash).

Definition signing_message (c : SignedContent) : bytes :=
  match c with
  | BlockVoteContent s h r b => block_vote_message s h r b
  | StateProvisionContent t ts ss h tm es => state_provision_message t ts ss h tm es
  | ExecVoteContent t r s ok => exec_vote_message t r s ok
  | CommitmentProofContent t s h es => commitment_proof_message t s h es
  end.

(** Every field is a value of its machine type. *)
Definition content_wf (c : SignedContent) : Prop :=
  match c with
  | BlockVoteContent s h r b => is_u64 s /\ is_u64 h /\ is_u64 r /\ is_hash b
  | StateProvisionContent t ts ss h tm es =>
      is_hash t /\ is_u64 ts /\ is_u64 ss /\ is_u64 h /\ is_u64 tm /\ Forall is_hash es
  | ExecVoteContent t r s _ => is_hash t /\ is_hash r /\ is_u64 s
  | CommitmentProofContent t s h es => is_hash t /\ is_u64 s /\ is_u64 h /\ Forall is_hash es
  end.

(** Split an equation between concatenations of fixed-width fields. *)
Ltac split_fields :=
  repeat match goal with
  | H : _ ++ _ = _ ++ _ |- _ =>
      apply app_inj_1 in H;
      [destruct H | by rewrite ?length_as_bytes, ?length_to_le_bytes]
  | H : as_bytes _ = as_bytes _ |- _ => apply as_bytes_inj in H; [subst | done | done]
  | H : to_le_bytes _ = to_le_bytes _ |- _ => apply to_le_bytes_inj in H; [subst | done | done]
  | H : flat_map _ _ = flat_map _ _ |- _ => apply concat_as_bytes_inj in H; [subst | done | done]
  end.

Lemma signing_message_inj (c c' : SignedContent) :
  content_wf c -> content_wf c' -> signing_message c = signing_message c' -> c = c'.
Proof.
  intros Hc Hc' Heq.
  destruct c, c'; try discriminate Heq; simpl in Hc, Hc', Heq; destruct_and!.
  - unfold block_vote_message in Heq. by split_fields.
  - unfold state_provision_message in Heq. by split_fields.
  - unfold exec_vote_message in Heq. split_fields.
    by destruct success, success0.
  - unfold commitment_proof_message in Heq. by split_fields.
Qed.

(** two different things to sign, of the same or of different kinds (block
    vote, execution vote, state provision, commitment proof), never have the
    same signed bytes; a signature can not be replayed for another kind,
    shard, height, round, block or set of entries. *)
Theorem signing_messages_separate (c c' : SignedContent) :
  content_wf c -> content_wf c' -> c <> c' -> signing_message c <> signing_message c'.
Proof. intros Hc Hc' Hne Heq. by apply Hne, signing_message_inj. Qed.

Lemma signing_messages_separate_witness :
  signing_message (StateProvisionContent 5 1 0 7 0 [99]) <>
  signing_message (CommitmentProofContent 5 0 7 [99]) /\
  signing_message (BlockVoteContent 1 7 2 99) <> signing_message (BlockVoteContent 1 7 3 99).
Proof.
  split; apply signing_messages_separate;
    first [discriminate | repeat split; repeat constructor; vm_compute; reflexivity].
Defined.

(** ** A concrete instance of the primitives

    The witnesses evaluate the definitions with these functions: a polynomial
    hash of 256 bits, and a linear signature scheme in which the key is its own
    public key.  No theorem is about them. *)
Definition sample_hash (b : bytes) : Hash :=
  fold_left (fun acc x => (acc * 1000003 + x) mod (hash_modulus - 1) + 1) b 7.

Definition sample_encode_header (h : BlockHeader) : bytes :=
  [bh_height h; bh_parent_hash h; bh_proposer h; bh_timestamp h; bh_round h;
   if bh_is_fallback h then 1 else 0; bh_state_root h; bh_state_version h;
   bh_transaction_root h; qc_block_hash (bh_parent_qc h); qc_round (bh_parent_qc h)].

Definition sample_crypto : Crypto := {|
  blake3 := sample_hash;
  sbor_encode_header := sample_encode_header;
  sign_v1 sk m := sk * (1 + sample_hash m);
  verify_bls12381_v1 m pk sig := sig =? pk * (1 + sample_hash m);
  aggregate_signatures l := match l with [] => None | _ => Some (sum_N l) end;
  aggregate_public_keys l := match l with [] => None | _ => Some (sum_N l) end
|}.

Lemma sample_hash_bounds b : 0 < sample_hash b < hash_modulus.
Proof.
  unfold sample_hash.
  assert (forall acc, 0 < acc < hash_modulus ->
    0 < fold_left (fun acc x => (acc * 1000003 + x) mod (hash_modulus - 1) + 1) b acc
      < hash_modulus) as Hgen.
  { induction b as [|x b IH]; intros acc Hacc; simpl; [done|].
    apply IH. assert (hash_modulus - 1 <> 0) as Hne by done.
    pose proof (N.mod_lt (acc * 1000003 + x) (hash_modulus - 1) Hne) as Hlt.
    set (r := _ mod _) in *. clearbody r. unfold hash_modulus in *. lia. }
  apply Hgen. by vm_compute.
Qed.

Lemma sample_hash_nonzero b : sample_hash b <> ZERO.
Proof. destruct (sample_hash_bounds b) as [Hpos _]. intros Hz. rewrite Hz in Hpos. by apply N.lt_irrefl in Hpos. Qed.

Lemma sample_hash_range b : is_hash (sample_hash b).
Proof. apply sample_hash_bounds. Qed.
