(* ===== verification/Merkle.v ===== *)
(** * Merkle roots (crates/types/src/hash.rs, block.rs)

    [compute_merkle_root] folds a list of hashes pairwise, level by level, and
    [compute_transaction_root] applies it to the tagged transaction hashes of a
    block.  The level-wise loop is related to the binary tree it walks, and the
    tree gives the property the header field [transaction_root] is there for:
    it commits to the transactions of every section, in order. *)

From stdpp Require Import base gmap list numbers strings.
From Stdlib Require Import NArith Lia.
From S2P Require Import Prelude Bitfield Types Encoding.

(** The tree behind the level-wise loop, with what is hashed at its leaves. *)
Inductive mtree := Leaf (input : bytes) | Node (l r : mtree).

Section merkle.
Context `{Crypto}.

(** [Hash::from_parts]. *)
Definition from_parts (parts : list bytes) : Hash := blake3 (concat parts).

(** One pass of the loop body: [level.chunks(2)]. *)
Fixpoint next_level (level : list Hash) : list Hash :=
  match level with
  | a :: b :: rest => from_parts [as_bytes a; as_bytes b] :: next_level rest
  | [a] => [a]
  | [] => []
  end.

(** [while level.len() > 1]. *)
Fixpoint merkle_loop (fuel : nat) (level : list Hash) : list Hash :=
  match fuel with
  | O => level
  | S fuel' => if Nat.ltb 1 (length level) then merkle_loop fuel' (next_level level) else level
  end.

(** Each pass shortens the level, so its length is fuel enough
    ([merkle_loop_done]); [level[0]] is then in range. *)
Definition compute_merkle_root (hashes : list Hash) : Hash :=
  match hashes with
  | [] => ZERO
  | [h] => h
  | _ => match merkle_loop (length hashes) hashes with h :: _ => h | [] => ZERO end
  end.

Definition RETRY_TAG : bytes := byte_literal "RETRY".
Definition PRIORITY_TAG : bytes := byte_literal "PRIORITY".
Definition NORMAL_TAG : bytes := byte_literal "NORMAL".

Definition compute_transaction_root (retry_transactions priority_transactions transactions :
    list RoutableTransaction) : Hash :=
  let total_count := (length retry_transactions + length priority_transactions
                      + length transactions)%nat in
  if Nat.eqb total_count 0 then ZERO
  else compute_merkle_root
    (((fun tx => from_parts [RETRY_TAG; as_bytes (rt_hash tx)]) <$> retry_transactions)
     ++ ((fun tx => from_parts [PRIORITY_TAG; as_bytes (rt_hash tx)]) <$> priority_transactions)
     ++ ((fun tx => from_parts [NORMAL_TAG; as_bytes (rt_hash tx)]) <$> transactions)).

(** ** The byte strings hashed on the way *)

Fixpoint level_inputs (level : list Hash) : list bytes :=
  match level with
  | a :: b :: rest => (as_bytes a ++ as_bytes b) :: level_inputs rest
  | _ => []
  end.

Fixpoint loop_inputs (fuel : nat) (level : list Hash) : list bytes :=
  match fuel with
  | O => []
  | S fuel' =>
      if Nat.ltb 1 (length level)
      then level_inputs level ++ loop_inputs fuel' (next_level level) else []
  end.

Definition leaf_inputs (retry priority txs : list RoutableTransaction) : list bytes :=
  ((fun tx => RETRY_TAG ++ as_bytes (rt_hash tx)) <$> retry)
  ++ ((fun tx => PRIORITY_TAG ++ as_bytes (rt_hash tx)) <$> priority)
  ++ ((fun tx => NORMAL_TAG ++ as_bytes (rt_hash tx)) <$> txs).

(** Every input hashed by [compute_transaction_root]. *)
Definition transaction_root_inputs (retry priority txs : list RoutableTransaction) : list bytes :=
  let leaves := leaf_inputs retry priority txs in
  leaves ++ loop_inputs (length leaves) (blake3 <$> leaves).

(** ** Trees *)

Fixpoint value (t : mtree) : Hash :=
  match t with
  | Leaf input => blake3 input
  | Node l r => from_parts [as_bytes (value l); as_bytes (value r)]
  end.

Fixpoint leaves (t : mtree) : list bytes :=
  match t with Leaf input => [input] | Node l r => leaves l ++ leaves r end.

Fixpoint tree_inputs (t : mtree) : list bytes :=
  match t with
  | Leaf input => [input]
  | Node l r => (as_bytes (value l) ++ as_bytes (value r)) :: tree_inputs l ++ tree_inputs r
  end.

Fixpoint next_trees (ts : list mtree) : list mtree :=
  match ts with
  | a :: b :: rest => Node a b :: next_trees rest
  | [a] => [a]
  | [] => []
  end.

(** ** The loop terminates within its fuel *)

Lemma list_pair_ind {A} (P : list A -> Prop) :
  P [] -> (forall a, P [a]) -> (forall a b l, P l -> P (a :: b :: l)) -> forall l, P l.
Proof.
  intros H0 H1 H2 l. enough (P l /\ forall a, P (a :: l)) by tauto.
  induction l as [|x l [IH1 IH2]]; split; auto.
Qed.

Lemma length_next_level l : (2 * length (next_level l) = length l + length l mod 2)%nat.
Proof.
  induction l as [|a|a b l IH] using list_pair_ind; [done..|].
  cbn [next_level length].
  replace (S (S (length l))) with (length l + 1 * 2)%nat by lia.
  rewrite Nat.Div0.mod_add. lia.
Qed.

Lemma next_level_shorter l :
  (1 < length l -> 1 <= length (next_level l) < length l)%nat.
Proof.
  intros Hl. pose proof (length_next_level l).
  pose proof (Nat.mod_upper_bound (length l) 2). lia.
Qed.

Lemma merkle_loop_done fuel l :
  l <> [] -> (length l <= fuel)%nat -> length (merkle_loop fuel l) = 1%nat.
Proof.
  revert l. induction fuel as [|fuel IH]; intros l Hne Hf.
  - destruct l; [done|simpl in Hf; lia].
  - cbn [merkle_loop]. destruct (Nat.ltb_spec 1 (length l)) as [Hlt|Hge].
    + pose proof (next_level_shorter l Hlt). apply IH; [|lia].
      intros Hn. rewrite Hn in *. simpl in *. lia.
    + destruct l as [|? [|]]; simpl in *; [done|done|lia].
Qed.

(** ** The loop computes the value of a tree over the leaves *)

Lemma next_level_value ts : next_level (value <$> ts) = value <$> next_trees ts.
Proof.
  induction ts as [|a|a b ts IH] using list_pair_ind; [done..|].
  rewrite !fmap_cons. cbn [next_level next_trees]. by rewrite fmap_cons, IH.
Qed.

Lemma next_trees_leaves ts : flat_map leaves (next_trees ts) = flat_map leaves ts.
Proof.
  induction ts as [|a|a b ts IH] using list_pair_ind; [done..|].
  cbn [next_trees flat_map leaves]. by rewrite IH, app_assoc.
Qed.

Lemma next_trees_inputs ts :
  flat_map tree_inputs (next_trees ts)
  ⊆ flat_map tree_inputs ts ++ level_inputs (value <$> ts).
Proof.
  induction ts as [|a|a b ts IH] using list_pair_ind.
  - done.
  - rewrite app_nil_r. done.
  - rewrite !fmap_cons. cbn [next_trees flat_map tree_inputs level_inputs].
    intros z. specialize (IH z). revert IH. solve_mem.
Qed.

Lemma merkle_loop_tree fuel ts :
  ts <> [] -> (length ts <= fuel)%nat ->
  exists t, merkle_loop fuel (value <$> ts) = [value t] /\
            leaves t = flat_map leaves ts /\
            tree_inputs t ⊆ flat_map tree_inputs ts ++ loop_inputs fuel (value <$> ts).
Proof.
  revert ts. induction fuel as [|fuel IH]; intros ts Hne Hf.
  { destruct ts; [done|simpl in Hf; lia]. }
  cbn [merkle_loop loop_inputs]. destruct (Nat.ltb_spec 1 (length (value <$> ts))) as [Hlt|Hge].
  - pose proof (next_level_shorter _ Hlt) as Hs.
    rewrite next_level_value, !length_fmap in Hs.
    destruct (IH (next_trees ts)) as (t & Ht & Hl & Hi).
    { intros Hn. rewrite Hn in Hs. simpl in Hs. lia. }
    { lia. }
    exists t. rewrite next_level_value. split; [done|]. split.
    + by rewrite Hl, next_trees_leaves.
    + pose proof (next_trees_inputs ts) as Hn. intros z Hz%Hi. revert Hz.
      specialize (Hn z). revert Hn. solve_mem.
  - destruct ts as [|t [|]]; [done| |simpl in Hge; lia].
    exists t. cbn [flat_map]. rewrite !app_nil_r. done.
Qed.

(** ** A tree commits to its leaves *)

(** Two different inputs of the two computations with the same hash. *)
Definition collision (xs ys : list bytes) : Prop :=
  exists x y, x ∈ xs /\ y ∈ ys /\ x <> y /\ blake3 x = blake3 y.

Lemma collision_mono xs ys xs' ys' :
  collision xs ys -> xs ⊆ xs' -> ys ⊆ ys' -> collision xs' ys'.
Proof. intros (x & y & ? & ? & ? & ?) ? ?. exists x, y. auto. Qed.

Lemma tree_value_inj (Hrange : forall x, is_hash (blake3 x)) t t' :
  Forall (fun x => length x <> 64%nat) (leaves t) ->
  Forall (fun x => length x <> 64%nat) (leaves t') ->
  value t = value t' -> t = t' \/ collision (tree_inputs t) (tree_inputs t').
Proof.
  assert (forall t0, is_hash (value t0)) as Hval by (intros []; apply Hrange).
  assert (forall h h', length (as_bytes h ++ as_bytes h') = 64%nat) as Hlen
    by (intros; by rewrite length_app, !length_as_bytes).
  revert t'. induction t as [x|l IHl r IHr]; intros [x'|l' r'] Hx Hx' Heq;
    cbn [leaves value tree_inputs] in *; unfold from_parts in *; cbn [concat] in Heq;
    rewrite ?app_nil_r in Heq.
  - destruct (decide (x = x')) as [->|Hne]; [by left|right].
    exists x, x'. split_and!; [solve_mem..|done|done].
  - right. exists x, (as_bytes (value l') ++ as_bytes (value r')).
    inv Hx. split_and!; [solve_mem..| |done].
    intros ->. by rewrite Hlen in *.
  - right. exists (as_bytes (value l) ++ as_bytes (value r)), x'.
    inv Hx'. split_and!; [solve_mem..| |done].
    intros <-. by rewrite Hlen in *.
  - destruct (decide (as_bytes (value l) ++ as_bytes (value r)
                      = as_bytes (value l') ++ as_bytes (value r'))) as [Hin|Hne].
    + apply app_inj_1 in Hin as [Hl Hr]; [|by rewrite !length_as_bytes].
      apply as_bytes_inj in Hl; [|done..]. apply as_bytes_inj in Hr; [|done..].
      apply Forall_app in Hx as [Hxl Hxr]. apply Forall_app in Hx' as [Hxl' Hxr'].
      destruct (IHl l' Hxl Hxl' Hl) as [->|C].
      2: { right. eapply collision_mono; [done|intros z; solve_mem..]. }
      destruct (IHr r' Hxr Hxr' Hr) as [->|C]; [by left|].
      right. eapply collision_mono; [done|intros z; solve_mem..].
    + right. exists (as_bytes (value l) ++ as_bytes (value r)),
        (as_bytes (value l') ++ as_bytes (value r')).
      split_and!; [solve_mem..|done|done].
Qed.

(** ** The transaction root *)

Lemma app_split_unique {A} (P : A -> Prop) l1 r1 l2 r2 :
  Forall P l1 -> Forall P l2 ->
  Forall (fun x => ~ P x) r1 -> Forall (fun x => ~ P x) r2 ->
  l1 ++ r1 = l2 ++ r2 -> l1 = l2 /\ r1 = r2.
Proof.
  intros H1. revert l2. induction H1 as [|x l1 Hx H1 IH]; intros l2 H2 Hr1 Hr2 Heq.
  - destruct H2 as [|y l2 Hy H2]; [done|]. simpl in Heq. subst r1. by inv Hr1.
  - destruct H2 as [|y l2 Hy H2].
    + simpl in Heq. subst r2. by inv Hr2.
    + simplify_eq/=. destruct (IH l2) as [-> ->]; [done..|]. done.
Qed.

Lemma tagged_fmap_inj (tag : bytes) l l' :
  Forall (fun tx => is_hash (rt_hash tx)) l -> Forall (fun tx => is_hash (rt_hash tx)) l' ->
  ((fun tx => tag ++ as_bytes (rt_hash tx)) <$> l)
  = ((fun tx => tag ++ as_bytes (rt_hash tx)) <$> l') ->
  rt_hash <$> l = rt_hash <$> l'.
Proof.
  intros Hl. revert l'. induction Hl as [|x l Hx Hl IH]; intros l' Hl' Heq;
    destruct Hl' as [|y l' Hy Hl']; try done.
  rewrite !fmap_cons in *. injection Heq as H1 H2.
  apply app_inj_2 in H1 as [_ H1]; [|by rewrite !length_as_bytes].
  f_equal; [by apply as_bytes_inj | by apply IH].
Qed.

Lemma Forall_tagged (tag : bytes) (P : nat -> Prop) l :
  P (length tag + 32)%nat ->
  Forall (fun x => P (length x)) ((fun tx => tag ++ as_bytes (rt_hash tx)) <$> l).
Proof.
  intros HP. apply Forall_fmap, Forall_true. intros tx. simpl.
  by rewrite length_app, length_as_bytes.
Qed.

Definition hashes_wf (retry priority txs : list RoutableTransaction) : Prop :=
  Forall (fun tx => is_hash (rt_hash tx)) (retry ++ priority ++ txs).

Lemma leaf_inputs_inj r p t r' p' t' :
  hashes_wf r p t -> hashes_wf r' p' t' -> leaf_inputs r p t = leaf_inputs r' p' t' ->
  rt_hash <$> r = rt_hash <$> r' /\ rt_hash <$> p = rt_hash <$> p' /\
  rt_hash <$> t = rt_hash <$> t'.
Proof.
  unfold hashes_wf. rewrite !Forall_app. intros (?&?&?) (?&?&?) Heq.
  apply (app_split_unique (fun x => length x = 37%nat)) in Heq as [Hr Heq];
    [|rewrite ?Forall_app; repeat split; by apply (Forall_tagged _ (fun n => n = 37%nat))
      || by apply (Forall_tagged _ (fun n => n <> 37%nat))..].
  apply (app_split_unique (fun x => length x = 40%nat)) in Heq as [Hp Ht];
    [|by apply (Forall_tagged _ (fun n => n = 40%nat))
      || by apply (Forall_tagged _ (fun n => n <> 40%nat))..].
  split_and!; by eapply tagged_fmap_inj.
Qed.

Lemma leaf_inputs_length r p t :
  length (leaf_inputs r p t) = (length r + length p + length t)%nat.
Proof. unfold leaf_inputs. rewrite !length_app, !length_fmap. lia. Qed.

Lemma leaf_inputs_not_64 r p t : Forall (fun x => length x <> 64%nat) (leaf_inputs r p t).
Proof.
  unfold leaf_inputs. rewrite !Forall_app.
  split_and!; by apply (Forall_tagged _ (fun n => n <> 64%nat)).
Qed.

(** The root is the value of a tree over the tagged leaves. *)
Lemma transaction_root_tree r p t :
  r ++ p ++ t <> [] ->
  exists tr, compute_transaction_root r p t = value tr /\
             leaves tr = leaf_inputs r p t /\
             tree_inputs tr ⊆ transaction_root_inputs r p t.
Proof.
  intros Hne. set (ls := leaf_inputs r p t).
  assert (length ls <> 0)%nat as Hlen.
  { unfold ls. rewrite leaf_inputs_length. intros Hz. apply Hne.
    destruct r, p, t; simpl in Hz; done || lia. }
  destruct (merkle_loop_tree (length (Leaf <$> ls)) (Leaf <$> ls)) as (tr & Ht & Hl & Hi).
  { intros Hn. apply Hlen. apply (f_equal length) in Hn. by rewrite length_fmap in Hn. }
  { done. }
  assert (value <$> (Leaf <$> ls) = blake3 <$> ls) as Hv by by rewrite <- list_fmap_compose.
  assert (forall f : mtree -> list bytes, (forall x, f (Leaf x) = [x]) ->
    flat_map f (Leaf <$> ls) = ls) as Hflat.
  { intros f Hf. clear -Hf. induction ls as [|x ls IH]; [done|].
    rewrite fmap_cons. cbn [flat_map]. by rewrite Hf, IH. }
  rewrite Hflat in Hl, Hi by done. rewrite Hv, length_fmap in *.
  exists tr. split_and!; [|done|done].
  unfold compute_transaction_root. fold ls in Hne |- *.
  replace (Nat.eqb _ 0) with false
    by (symmetry; apply Nat.eqb_neq; unfold ls in Hlen; by rewrite leaf_inputs_length in Hlen).
  replace (_ ++ _ ++ _) with (blake3 <$> ls); [clearbody ls|].
  - unfold compute_merkle_root. rewrite length_fmap.
    destruct ls as [|x [|y ls]]; [done| |by rewrite !fmap_cons in *; rewrite Ht].
    cbn in Ht. by injection Ht.
  - unfold ls, leaf_inputs, from_parts. rewrite !fmap_app, <- !list_fmap_compose.
    apply (f_equal2 app); [|apply (f_equal2 app)]; apply list_fmap_ext; intros ? tx _; cbn [compose concat];
      by rewrite app_nil_r.
Qed.

(** the transaction root commits to the block's transactions.  If two
    non-empty triples of sections have the same root, then the retry, priority
    and normal sections carry the same transaction hashes in the same order;
    otherwise two different byte strings among those hashed by the two
    computations collide under blake3.  Moving a transaction to another
    section, dropping, adding or reordering one changes the root, also across
    different numbers of transactions. *)
Theorem transaction_root_binding (Hrange : forall x, is_hash (blake3 x)) r p t r' p' t' :
  hashes_wf r p t -> hashes_wf r' p' t' ->
  r ++ p ++ t <> [] -> r' ++ p' ++ t' <> [] ->
  compute_transaction_root r p t = compute_transaction_root r' p' t' ->
  (rt_hash <$> r = rt_hash <$> r' /\ rt_hash <$> p = rt_hash <$> p' /\
   rt_hash <$> t = rt_hash <$> t')
  \/ collision (transaction_root_inputs r p t) (transaction_root_inputs r' p' t').
Proof.
  intros Hwf Hwf' Hne Hne' Heq.
  destruct (transaction_root_tree r p t Hne) as (tr & Hv & Hl & Hi).
  destruct (transaction_root_tree r' p' t' Hne') as (tr' & Hv' & Hl' & Hi').
  destruct (tree_value_inj Hrange tr tr') as [->|C].
  - rewrite Hl. apply leaf_inputs_not_64.
  - rewrite Hl'. apply leaf_inputs_not_64.
  - congruence.
  - left. apply leaf_inputs_inj; congruence.
  - right. by eapply collision_mono.
Qed.
End merkle.

(** A transaction with the given hash, for the witnesses. *)
Definition sample_tx (h : Hash) : RoutableTransaction := mk_routable_transaction [] [] [] None h.

Lemma transaction_root_binding_witness :
  @compute_transaction_root sample_crypto [sample_tx 4] [sample_tx 9] [sample_tx 5; sample_tx 8]
  = @compute_transaction_root sample_crypto
      [mk_routable_transaction [1] [] [] None 4] [sample_tx 9] [sample_tx 5; sample_tx 8] /\
  @compute_transaction_root sample_crypto [sample_tx 4] [sample_tx 9] [sample_tx 5; sample_tx 8]
  <> @compute_transaction_root sample_crypto [] [sample_tx 4; sample_tx 9] [sample_tx 5; sample_tx 8] /\
  ((rt_hash <$> [sample_tx 4] = [4] /\ rt_hash <$> [sample_tx 9] = [9] /\
    rt_hash <$> [sample_tx 5; sample_tx 8] = [5; 8])
   \/ @collision sample_crypto
        (@transaction_root_inputs sample_crypto
           [sample_tx 4] [sample_tx 9] [sample_tx 5; sample_tx 8])
        (@transaction_root_inputs sample_crypto
           [mk_routable_transaction [1] [] [] None 4] [sample_tx 9] [sample_tx 5; sample_tx 8])).
Proof.
  split; [vm_compute; reflexivity|]. split; [vm_compute; discriminate|].
  apply (@transaction_root_binding sample_crypto sample_hash_range
           [sample_tx 4] [sample_tx 9] [sample_tx 5; sample_tx 8]
           [mk_routable_transaction [1] [] [] None 4] [sample_tx 9] [sample_tx 5; sample_tx 8]);
    [repeat constructor; vm_compute; reflexivity..|discriminate|discriminate|vm_compute; reflexivity].
Defined.
