(* ===== verification/Topology.v ===== *)
(** * Topology (crates/types/src/topology.rs, validator.rs)

    The trait [Topology] is a class of operations; its provided methods are
    definitions over the class, and [TopologyLaws] states what consensus relies
    on: committees without duplicates whose total voting power is the sum of
    the members' powers.  [StaticTopology::new] discharges the laws.  The
    quorum arithmetic of [VotePower] is proved exact for every committee whose
    power fits the integers, and two quorums are shown to share a correct
    validator. *)

From stdpp Require Import base gmap list numbers sorting.
From Stdlib Require Import NArith Lia.
From S2P Require Import Prelude Bitfield Types Encoding.

(** ** Validator sets (validator.rs) *)

Record ValidatorInfo := mk_validator_info {
  vi_validator_id : ValidatorId;
  vi_public_key : Bls12381G1PublicKey;
  vi_voting_power : u64
}.

Definition id_le (v w : ValidatorInfo) : Prop := vi_validator_id v <= vi_validator_id w.

#[export] Instance id_le_dec v w : Decision (id_le v w).
Proof. unfold id_le. apply _. Defined.

(** [ValidatorSet] is its vector of validators. *)
Module ValidatorSet.
Definition new (validators : list ValidatorInfo) : list ValidatorInfo :=
  merge_sort id_le validators.

Definition total_voting_power (vs : list ValidatorInfo) : u64 := wsum (vi_voting_power <$> vs).

Definition get (vs : list ValidatorInfo) (id : ValidatorId) : option ValidatorInfo :=
  snd <$> list_find (fun v => vi_validator_id v = id) vs.

Definition index_of (vs : list ValidatorInfo) (id : ValidatorId) : option usize :=
  fst <$> list_find (fun v => vi_validator_id v = id) vs.
End ValidatorSet.

(** ** Shards of nodes *)

(** [u64::from_le_bytes]. *)
Fixpoint from_le_bytes (b : bytes) : N :=
  match b with
  | [] => 0
  | x :: b' => x + 256 * from_le_bytes b'
  end.

Definition node_bytes (node_id : NodeId) : bytes := rev (le_bytes 30 node_id).

Definition node_hash_value `{Crypto} (node_id : NodeId) : u64 :=
  from_le_bytes (take 8 (as_bytes (blake3 (node_bytes node_id)))).

(** [num_shards] is positive: the source panics on a modulus of zero. *)
Definition shard_for_node `{Crypto} (node_id : NodeId) (num_shards : u64) : ShardGroupId :=
  node_hash_value node_id mod num_shards.

(** Collecting into a [BTreeSet] and iterating it. *)
Definition btree_set (l : list N) : list N :=
  merge_sort N.le (elements (list_to_set l : gset N)).

Lemma elem_of_btree_set l x : x ∈ btree_set l <-> x ∈ l.
Proof. unfold btree_set. rewrite merge_sort_Permutation. set_solver. Qed.

(** ** The trait *)

Class Topology := {
  local_validator_id : ValidatorId;
  local_shard : ShardGroupId;
  num_shards : u64;
  committee_for_shard : ShardGroupId -> list ValidatorId;
  voting_power_for_shard : ShardGroupId -> u64;
  voting_power : ValidatorId -> option u64;
  public_key : ValidatorId -> option Bls12381G1PublicKey;
  global_validator_set : list ValidatorInfo;
  shard_for_node_id : NodeId -> ShardGroupId
}.

Section topology.
Context `{Topology}.

Definition committee_size_for_shard (shard : ShardGroupId) : usize :=
  length (committee_for_shard shard).

Definition committee_index_for_shard (shard : ShardGroupId) (v : ValidatorId) : option usize :=
  fst <$> list_find (fun w => w = v) (committee_for_shard shard).

Definition has_quorum_for_shard (shard : ShardGroupId) (power : u64) : bool :=
  VotePower.has_quorum power (voting_power_for_shard shard).

Definition quorum_threshold_for_shard (shard : ShardGroupId) : u64 :=
  (voting_power_for_shard shard *w 2) / 3 +w 1.

Definition local_committee : list ValidatorId := committee_for_shard local_shard.
Definition local_voting_power : u64 := voting_power_for_shard local_shard.
Definition local_committee_size : usize := committee_size_for_shard local_shard.
Definition local_committee_index (v : ValidatorId) : option usize :=
  committee_index_for_shard local_shard v.
Definition local_has_quorum (power : u64) : bool := has_quorum_for_shard local_shard power.
Definition local_quorum_threshold : u64 := quorum_threshold_for_shard local_shard.
Definition is_committee_member (v : ValidatorId) : bool :=
  match local_committee_index v with Some _ => true | None => false end.
Definition local_validator_at_index (index : usize) : option ValidatorId :=
  local_committee !! index.

(** [None] is the panic on an empty committee. *)
Definition proposer_for (height round : u64) : option ValidatorId :=
  local_committee !! N.to_nat ((height +w round) mod N.of_nat (length local_committee)).

Definition should_propose (height round : u64) : bool :=
  bool_decide (proposer_for height round = Some local_validator_id).

Definition consensus_shards (tx : RoutableTransaction) : list ShardGroupId :=
  btree_set (shard_for_node_id <$> rt_declared_writes tx).

Definition provisioning_shards (tx : RoutableTransaction) : list ShardGroupId :=
  let write_shards : gset N := list_to_set (shard_for_node_id <$> rt_declared_writes tx) in
  btree_set (filter (fun shard => shard ∉ write_shards)
               (shard_for_node_id <$> rt_declared_reads tx)).

Definition is_cross_shard_transaction (tx : RoutableTransaction) : bool :=
  Nat.ltb 1 (length (consensus_shards tx)).

Definition is_single_shard_transaction (tx : RoutableTransaction) : bool :=
  Nat.leb (length (consensus_shards tx)) 1.

Definition all_shards_for_transaction (tx : RoutableTransaction) : list ShardGroupId :=
  btree_set (consensus_shards tx ++ provisioning_shards tx).

Definition involves_local_shard_for_consensus (tx : RoutableTransaction) : bool :=
  existsb (fun node_id => shard_for_node_id node_id =? local_shard) (rt_declared_writes tx).

Definition involves_local_shard (tx : RoutableTransaction) : bool :=
  existsb (fun node_id => shard_for_node_id node_id =? local_shard)
    (rt_declared_writes tx ++ rt_declared_reads tx).

(** The voting power of a validator as the vote handlers read it:
    [voting_power(..).unwrap_or(0)]. *)
Definition power_of (v : ValidatorId) : u64 := default 0 (voting_power v).
End topology.

(** ** Ordered maps

    A [BTreeMap] is a [gmap] that is walked in the order of its keys. *)

Definition key_le {A} (x y : N * A) : Prop := x.1 <= y.1.

#[export] Instance key_le_dec {A} (x y : N * A) : Decision (key_le x y).
Proof. unfold key_le. apply _. Defined.

Definition btree_iter {A} (m : gmap N A) : list (N * A) := merge_sort key_le (map_to_list m).
Definition btree_values {A} (m : gmap N A) : list A := (btree_iter m).*2.

Section btree.
Context {A : Type}.
Implicit Types (m : gmap N A).

Lemma btree_iter_perm m : btree_iter m ≡ₚ map_to_list m.
Proof. apply merge_sort_Permutation. Qed.

Lemma elem_of_btree_iter m k x : (k, x) ∈ btree_iter m <-> m !! k = Some x.
Proof. by rewrite btree_iter_perm, elem_of_map_to_list. Qed.

Lemma elem_of_btree_values m x : x ∈ btree_values m <-> exists k, m !! k = Some x.
Proof.
  unfold btree_values. rewrite list_elem_of_fmap. split.
  - intros ([k y] & -> & Hk%elem_of_btree_iter). by exists k.
  - intros [k Hk%elem_of_btree_iter]. by exists (k, x).
Qed.

Lemma btree_values_length m : length (btree_values m) = size m.
Proof. unfold btree_values. by rewrite length_fmap, btree_iter_perm, length_map_to_list. Qed.

(** The keys come in strictly ascending order. *)
Lemma btree_iter_sorted m : StronglySorted N.lt (btree_iter m).*1.
Proof.
  assert (StronglySorted key_le (btree_iter m)) as Hs.
  { apply StronglySorted_merge_sort; [intros x y z; unfold key_le; lia|].
    intros x y. unfold key_le. destruct (N.le_ge_cases x.1 y.1); [by left|right; lia]. }
  assert (NoDup (btree_iter m).*1) as Hnd.
  { rewrite btree_iter_perm. apply NoDup_fst_map_to_list. }
  induction Hs as [|x l Hl IH Hx]; [constructor|]. rewrite fmap_cons in *.
  apply NoDup_cons in Hnd as [Hni Hnd]. constructor; [by apply IH|].
  apply Forall_fmap, Forall_forall. intros y Hy. cbn. rewrite Forall_forall in Hx.
  specialize (Hx y Hy). unfold key_le in Hx.
  assert (x.1 <> y.1); [|lia]. intros Heq. apply Hni. rewrite Heq. by apply list_elem_of_fmap_2.
Qed.
End btree.

(** What the clients of a topology rely on. *)
Class TopologyLaws (T : Topology) := {
  committee_NoDup shard : NoDup (committee_for_shard shard);
  committee_power shard :
    voting_power_for_shard shard = wsum (power_of <$> committee_for_shard shard)
}.

(** ** StaticTopology *)

Record ShardCommittee := mk_shard_committee {
  shc_committee : list ValidatorId;
  shc_total_voting_power : u64
}.

Record StaticTopology := mk_static_topology {
  st_local_validator_id : ValidatorId;
  st_local_shard : ShardGroupId;
  st_num_shards : u64;
  st_shard_committees : gmap ShardGroupId ShardCommittee;
  st_validator_info : gmap ValidatorId ValidatorInfo;
  st_global_validator_set : list ValidatorInfo
}.

Module StaticTopologyOps.
(** [HashMap::from_iter]: a later entry for a key replaces an earlier one. *)
Definition collect_validator_info (vs : list ValidatorInfo) : gmap ValidatorId ValidatorInfo :=
  foldl (fun m v => <[vi_validator_id v := v]> m) ∅ vs.

(** [for shard_id in 0..num_shards], inserting an empty committee. *)
Definition empty_committees (num_shards : u64) : gmap ShardGroupId ShardCommittee :=
  foldl (fun m shard_id => <[shard_id := mk_shard_committee [] 0]> m) ∅
    (N.of_nat <$> seq 0 (N.to_nat num_shards)).

(** [committee.push(id)] and [total_voting_power += power] through [get_mut]. *)
Definition push_member (m : gmap ShardGroupId ShardCommittee) (shard : ShardGroupId)
    (id : ValidatorId) (power : u64) : gmap ShardGroupId ShardCommittee :=
  match m !! shard with
  | Some c => <[shard := mk_shard_committee (shc_committee c ++ [id])
                           (shc_total_voting_power c +w power)]> m
  | None => m
  end.

Definition new (local_validator_id : ValidatorId) (num_shards : u64)
    (validator_set : list ValidatorInfo) : StaticTopology := {|
  st_local_validator_id := local_validator_id;
  st_local_shard := local_validator_id mod num_shards;
  st_num_shards := num_shards;
  st_shard_committees :=
    foldl (fun m v => push_member m (vi_validator_id v mod num_shards) (vi_validator_id v)
                        (vi_voting_power v))
      (empty_committees num_shards) validator_set;
  st_validator_info := collect_validator_info validator_set;
  st_global_validator_set := validator_set
|}.

(** [None] is the [expect] on a local shard out of range. *)
Definition with_local_shard (local_validator_id : ValidatorId) (local_shard : ShardGroupId)
    (num_shards : u64) (validator_set : list ValidatorInfo) : option StaticTopology :=
  match empty_committees num_shards !! local_shard with
  | None => None
  | Some _ => Some {|
      st_local_validator_id := local_validator_id;
      st_local_shard := local_shard;
      st_num_shards := num_shards;
      st_shard_committees :=
        foldl (fun m v => push_member m local_shard (vi_validator_id v) (vi_voting_power v))
          (empty_committees num_shards) validator_set;
      st_validator_info := collect_validator_info validator_set;
      st_global_validator_set := validator_set
    |}
  end.

(** The explicit committees are iterated as a map; each shard has one entry,
    so the order does not matter to the result. *)
Definition with_shard_committees `{HashIter} (local_validator_id : ValidatorId)
    (local_shard : ShardGroupId) (num_shards : u64) (global_validator_set : list ValidatorInfo)
    (shard_committees : gmap ShardGroupId (list ValidatorId)) : StaticTopology :=
  let validator_info := collect_validator_info global_validator_set in
  {|
    st_local_validator_id := local_validator_id;
    st_local_shard := local_shard;
    st_num_shards := num_shards;
    st_shard_committees :=
      foldl (fun m '(shard, validators) =>
        foldl (fun m id => push_member m shard id
                 (match validator_info !! id with Some v => vi_voting_power v | None => 1 end))
          m validators)
        (empty_committees num_shards) (hm_iter shard_committees);
    st_validator_info := validator_info;
    st_global_validator_set := global_validator_set
  |}.

Definition topology `{Crypto} (t : StaticTopology) : Topology := {|
  local_validator_id := st_local_validator_id t;
  local_shard := st_local_shard t;
  num_shards := st_num_shards t;
  committee_for_shard shard :=
    match st_shard_committees t !! shard with Some c => shc_committee c | None => [] end;
  voting_power_for_shard shard :=
    match st_shard_committees t !! shard with Some c => shc_total_voting_power c | None => 0 end;
  voting_power id := vi_voting_power <$> st_validator_info t !! id;
  public_key id := vi_public_key <$> st_validator_info t !! id;
  global_validator_set := st_global_validator_set t;
  shard_for_node_id node_id := shard_for_node node_id (st_num_shards t)
|}.
End StaticTopologyOps.

(** ** StaticTopology::new meets the laws *)

Section static_laws.
Import StaticTopologyOps.
Implicit Types (vs : list ValidatorInfo).

Lemma lookup_foldl_insert_const (ks : list N) (c : ShardCommittee) (m : gmap N ShardCommittee) s :
  foldl (fun m k => <[k := c]> m) m ks !! s = if decide (s ∈ ks) then Some c else m !! s.
Proof.
  revert m. induction ks as [|k ks IH]; intros m; [done|]. cbn [foldl]. rewrite IH.
  destruct (decide (s = k)) as [->|Hne].
  - rewrite lookup_insert_eq. by repeat case_decide; set_solver.
  - rewrite lookup_insert_ne by done. repeat case_decide; set_solver.
Qed.

Lemma empty_committees_lookup n s :
  empty_committees n !! s = if decide (s < n) then Some (mk_shard_committee [] 0) else None.
Proof.
  unfold empty_committees. rewrite lookup_foldl_insert_const, lookup_empty.
  apply decide_ext. rewrite list_elem_of_fmap. split.
  - intros (k & -> & Hk%elem_of_seq). lia.
  - intros Hs. exists (N.to_nat s). rewrite elem_of_seq. lia.
Qed.

(** The members pushed to shard [s], in order. *)
Definition members (shard_of : ValidatorInfo -> N) (s : N) vs : list ValidatorInfo :=
  filter (fun v => shard_of v = s) vs.

Lemma push_all_lookup shard_of vs (m : gmap N ShardCommittee) s :
  foldl (fun m v => push_member m (shard_of v) (vi_validator_id v) (vi_voting_power v)) m vs !! s
  = (fun c => mk_shard_committee (shc_committee c ++ (vi_validator_id <$> members shard_of s vs))
                (foldl wadd (shc_total_voting_power c) (vi_voting_power <$> members shard_of s vs)))
    <$> m !! s.
Proof.
  revert m. induction vs as [|v vs IH]; intros m; cbn [foldl].
  - destruct (m !! s) as [[]|]; simpl; [by rewrite app_nil_r|done].
  - rewrite IH. unfold members, push_member. rewrite list.filter_cons.
    destruct (m !! shard_of v) as [c|] eqn:Hc.
    + destruct (decide (shard_of v = s)) as [<-|Hne].
      * rewrite lookup_insert_eq, Hc. simpl. by rewrite <- app_assoc.
      * by rewrite lookup_insert_ne.
    + destruct (decide (shard_of v = s)) as [<-|Hne]; [by rewrite Hc|done].
Qed.

Lemma lookup_collect_not_in vs (mi : gmap N ValidatorInfo) (id : N) :
  id ∉ vi_validator_id <$> vs ->
  foldl (fun m v => <[vi_validator_id v := v]> m) mi vs !! id = mi !! id.
Proof.
  revert mi. induction vs as [|v vs IH]; intros mi Hni; [done|].
  rewrite fmap_cons, not_elem_of_cons in Hni. destruct Hni as [Hne Hni].
  cbn [foldl]. by rewrite IH, lookup_insert_ne.
Qed.

Lemma lookup_collect vs v :
  NoDup (vi_validator_id <$> vs) -> v ∈ vs ->
  collect_validator_info vs !! vi_validator_id v = Some v.
Proof.
  unfold collect_validator_info. generalize (∅ : gmap N ValidatorInfo) as m.
  induction vs as [|w vs IH]; intros m Hnd Hv; [by apply not_elem_of_nil in Hv|].
  rewrite fmap_cons, NoDup_cons in Hnd. destruct Hnd as [Hni Hnd].
  cbn [foldl]. apply elem_of_cons in Hv as [->|Hv]; [|by apply IH].
  by rewrite lookup_collect_not_in, lookup_insert_eq.
Qed.

Lemma static_new_committees (id n : N) vs s :
  st_shard_committees (new id n vs) !! s
  = if decide (s < n)
    then let ms := members (fun v => vi_validator_id v mod n) s vs in
         Some (mk_shard_committee (vi_validator_id <$> ms) (wsum (vi_voting_power <$> ms)))
    else None.
Proof.
  unfold new. cbn [st_shard_committees].
  rewrite (push_all_lookup (fun v => vi_validator_id v mod n)), empty_committees_lookup.
  by case_decide.
Qed.

Lemma static_new_laws `{Crypto} (id n : N) vs :
  NoDup (vi_validator_id <$> vs) -> TopologyLaws (topology (new id n vs)).
Proof.
  intros Hnd.
  assert (forall s, NoDup (vi_validator_id <$> members (fun v => vi_validator_id v mod n) s vs)) as Hm.
  { intros s. eapply sublist_NoDup; [done|]. apply fmap_sublist, sublist_filter. }
  split; intros s; cbn [committee_for_shard voting_power_for_shard topology];
    rewrite static_new_committees; case_decide; cbn [shc_committee shc_total_voting_power];
    [apply Hm|constructor| |done].
  f_equal. rewrite <- list_fmap_compose. apply list_fmap_ext. intros i v Hv. simpl.
  unfold power_of. cbn [voting_power topology new st_validator_info].
  apply list_elem_of_lookup_2 in Hv. unfold members in Hv. apply list_elem_of_filter in Hv as [_ Hv].
  by rewrite (lookup_collect vs v).
Qed.
End static_laws.

(** ** Quorums *)

Section quorum.
Context `{T : Topology} `{!TopologyLaws T}.
Implicit Types (A B F : gset ValidatorId).

(** The power a set of validators has in a shard's committee. *)
Definition power_in (shard : ShardGroupId) A : N :=
  sum_N (power_of <$> filter (fun v => v ∈ A) (committee_for_shard shard)).

(** The powers add up below the point where [total * 2] and [voted * 3] wrap. *)
Definition power_bounded (shard : ShardGroupId) : Prop :=
  3 * sum_N (power_of <$> committee_for_shard shard) < u64_modulus.

Lemma total_power shard :
  power_bounded shard ->
  voting_power_for_shard shard = sum_N (power_of <$> committee_for_shard shard).
Proof. unfold power_bounded. intros Hb. rewrite committee_power. apply wsum_small. lia. Qed.

Lemma power_in_le shard A : power_in shard A <= sum_N (power_of <$> committee_for_shard shard).
Proof. apply sum_N_submseteq, fmap_submseteq, sublist_submseteq, sublist_filter. Qed.

Lemma has_quorum_exact voted total :
  3 * total < u64_modulus -> voted <= total ->
  VotePower.has_quorum voted total = true <-> 2 * total < 3 * voted.
Proof.
  intros Ht Hv. unfold VotePower.has_quorum. rewrite !wmul_small by lia.
  rewrite N.ltb_lt. lia.
Qed.

Lemma has_quorum_for_shard_exact shard A :
  power_bounded shard ->
  has_quorum_for_shard shard (power_in shard A) = true <->
  2 * voting_power_for_shard shard < 3 * power_in shard A.
Proof.
  intros Hb. unfold has_quorum_for_shard. rewrite total_power by done.
  apply has_quorum_exact; [done|apply power_in_le].
Qed.

(** Inclusion and exclusion, for the power of committee members. *)
Lemma power_in_overlap shard A B F :
  (forall v, v ∈ committee_for_shard shard -> v ∈ A -> v ∈ B -> v ∈ F) ->
  power_in shard A + power_in shard B
  <= sum_N (power_of <$> committee_for_shard shard) + power_in shard F.
Proof.
  unfold power_in. induction (committee_for_shard shard) as [|v l IH]; intros Hall; [done|].
  assert (forall w, w ∈ l -> w ∈ A -> w ∈ B -> w ∈ F) as Hl by set_solver.
  specialize (IH Hl). specialize (Hall v (list_elem_of_here _ _)).
  rewrite !list.filter_cons.
  destruct (decide (v ∈ A)), (decide (v ∈ B)), (decide (v ∈ F)); try tauto;
    rewrite ?fmap_cons; unfold sum_N in *; cbn [foldr]; lia.
Qed.

Lemma quorums_meet shard A B F :
  power_bounded shard ->
  has_quorum_for_shard shard (power_in shard A) = true ->
  has_quorum_for_shard shard (power_in shard B) = true ->
  3 * power_in shard F < voting_power_for_shard shard ->
  exists v, v ∈ committee_for_shard shard /\ v ∈ A /\ v ∈ B /\ v ∉ F.
Proof.
  intros Hb HA HB HF. rewrite has_quorum_for_shard_exact in HA, HB by done.
  destruct (decide (Exists (fun v => v ∈ A /\ v ∈ B /\ v ∉ F) (committee_for_shard shard)))
    as [Hex|Hno].
  - apply Exists_exists in Hex as (v & Hv & HvA & HvB & HvF). by exists v.
  - exfalso. pose proof (power_in_overlap shard A B F) as Hov.
    rewrite total_power in * by done. enough (power_in shard A + power_in shard B
      <= sum_N (power_of <$> committee_for_shard shard) + power_in shard F) by lia.
    apply Hov. intros v Hv HvA HvB. destruct (decide (v ∈ F)); [done|].
    exfalso. apply Hno, Exists_exists. by exists v.
Qed.

(** quorum intersection.  In a committee whose total power [3 * total]
    fits 64 bits, any two sets of validators that both reach the quorum test
    of [has_quorum_for_shard] share a committee member outside every set [F]
    that holds less than one third of the power: two quorum certificates for
    the same height always have a correct signer in common. *)
Theorem quorum_intersection shard A B F :
  power_bounded shard ->
  has_quorum_for_shard shard (power_in shard A) = true ->
  has_quorum_for_shard shard (power_in shard B) = true ->
  3 * power_in shard F < voting_power_for_shard shard ->
  exists v, v ∈ committee_for_shard shard /\ v ∈ A /\ v ∈ B /\ v ∉ F.
Proof. apply quorums_meet. Qed.

(** the threshold and the test agree.  A set of committee members reaches
    [has_quorum_for_shard] exactly when its power is at least
    [quorum_threshold_for_shard], which is the least such power. *)
Theorem quorum_threshold_exact shard A :
  power_bounded shard ->
  has_quorum_for_shard shard (power_in shard A) = true <->
  quorum_threshold_for_shard shard <= power_in shard A.
Proof.
  intros Hb. rewrite has_quorum_for_shard_exact by done.
  unfold quorum_threshold_for_shard. rewrite total_power by done.
  unfold power_bounded in Hb. set (n := sum_N _) in *. clearbody n.
  set (p := power_in shard A). clearbody p.
  rewrite wmul_small by lia.
  pose proof (N.div_mod (n * 2) 3 ltac:(done)).
  pose proof (N.mod_lt (n * 2) 3 ltac:(done)).
  set (q := n * 2 / 3) in *. set (r := (n * 2) mod 3) in *. clearbody q r.
  rewrite wadd_small by (unfold u64_modulus in *; lia). lia.
Qed.
End quorum.

(** Four validators of power 1 in one shard. *)
Definition sample_validators : list ValidatorInfo :=
  (fun i => mk_validator_info i (i + 1) 1) <$> [0; 1; 2; 3].
Definition sample_topology (id : ValidatorId) : Topology :=
  @StaticTopologyOps.topology sample_crypto (StaticTopologyOps.new id 1 sample_validators).

Lemma sample_topology_laws id : TopologyLaws (sample_topology id).
Proof. apply static_new_laws. apply (bool_decide_unpack _). by vm_compute. Qed.

(** Eight validators of power 1, the even ones in shard 0. *)
Definition sample_topology_2 (id : ValidatorId) : Topology :=
  @StaticTopologyOps.topology sample_crypto
    (StaticTopologyOps.new id 2
       ((fun i => mk_validator_info i (i + 1) 1) <$> [0; 1; 2; 3; 4; 5; 6; 7])).

Lemma quorum_intersection_witness :
  exists v, v ∈ @committee_for_shard (sample_topology 0) 0 /\
    v ∈ ({[0; 1; 2]} : gset N) /\ v ∈ ({[1; 2; 3]} : gset N) /\ v ∉ ({[1]} : gset N).
Proof.
  apply (@quorum_intersection (sample_topology 0) (sample_topology_laws 0) 0
           {[0; 1; 2]} {[1; 2; 3]} {[1]}); vm_compute; reflexivity.
Defined.

Lemma quorum_threshold_exact_witness :
  @quorum_threshold_for_shard (sample_topology 0) 0 = 3 /\
  (@has_quorum_for_shard (sample_topology 0) 0 (@power_in (sample_topology 0) 0 {[0; 2; 3]}) = true
   <-> @quorum_threshold_for_shard (sample_topology 0) 0
       <= @power_in (sample_topology 0) 0 {[0; 2; 3]}).
Proof.
  split; [vm_compute; reflexivity|].
  apply (@quorum_threshold_exact (sample_topology 0) (sample_topology_laws 0) 0 {[0; 2; 3]}).
  vm_compute; reflexivity.
Defined.
