(* ===== verification/Transactions.v ===== *)
(** * Transactions, retries and statuses (crates/types/src/transaction.rs, state.rs)

    How a transaction is hashed, how a deferred transaction is retried under a
    new hash, which statuses may follow one another, and the messages that
    validators sign about a transaction's state. *)

From stdpp Require Import base gmap list numbers strings.
From Stdlib Require Import NArith Lia Wellfounded.
From S2P Require Import Prelude Bitfield Types Encoding Merkle Topology.

(** ** Retries *)

Definition first_retry (original_tx_hash deferred_by : Hash) (deferred_at : BlockHeight)
    : RetryDetails := mk_retry_details original_tx_hash 1 deferred_by deferred_at.

(** [retry_count + 1] on [u32]. *)
Definition next_retry (d : RetryDetails) (deferred_by : Hash) (deferred_at : BlockHeight)
    : RetryDetails :=
  mk_retry_details (rd_original_tx_hash d) ((rd_retry_count d + 1) mod 2 ^ 32) deferred_by
    deferred_at.

Definition to_hash_bytes (d : RetryDetails) : bytes :=
  byte_literal "RETRY:" ++ as_bytes (rd_original_tx_hash d) ++ u32_to_le_bytes (rd_retry_count d)
  ++ as_bytes (rd_deferred_by d) ++ to_le_bytes (rd_deferred_at d).

Definition original_hash (tx : RoutableTransaction) : Hash :=
  match rt_retry_details tx with Some d => rd_original_tx_hash d | None => rt_hash tx end.

Definition retry_count (tx : RoutableTransaction) : N :=
  match rt_retry_details tx with Some d => rd_retry_count d | None => 0 end.

Definition exceeds_max_retries (tx : RoutableTransaction) (max_retries : N) : bool :=
  max_retries <=? retry_count tx.

Definition all_declared_nodes (tx : RoutableTransaction) : list NodeId :=
  rt_declared_reads tx ++ rt_declared_writes tx.

(** [Block::all_transactions]. *)
Definition all_transactions (b : Block) : list RoutableTransaction :=
  bl_retry_transactions b ++ bl_priority_transactions b ++ bl_transactions b.

Section transactions.
Context `{Crypto}.

(** The input of the transaction hash. *)
Definition hash_input (payload : bytes) (retry_details : option RetryDetails) : bytes :=
  payload ++ match retry_details with Some d => to_hash_bytes d | None => [] end.

(** [payload] is [manifest_encode(&transaction)]. *)
Definition new_internal (payload : bytes) (declared_reads declared_writes : list NodeId)
    (retry_details : option RetryDetails) : RoutableTransaction := {|
  rt_serialized_bytes := payload;
  rt_declared_reads := declared_reads;
  rt_declared_writes := declared_writes;
  rt_retry_details := retry_details;
  rt_hash := blake3 (hash_input payload retry_details)
|}.

Definition new_transaction (payload : bytes) (declared_reads declared_writes : list NodeId)
    : RoutableTransaction := new_internal payload declared_reads declared_writes None.

Definition create_retry (tx : RoutableTransaction) (deferred_by : Hash)
    (deferred_at : BlockHeight) : RoutableTransaction :=
  let details :=
    match rt_retry_details tx with
    | Some existing => next_retry existing deferred_by deferred_at
    | None => first_retry (rt_hash tx) deferred_by deferred_at
    end in
  new_internal (rt_serialized_bytes tx) (rt_declared_reads tx) (rt_declared_writes tx)
    (Some details).

Definition writes_cross_shard (tx : RoutableTransaction) (num_shards : u64) : bool :=
  match rt_declared_writes tx with
  | [] => false
  | first :: rest =>
      existsb (fun node => negb (shard_for_node node num_shards =? shard_for_node first num_shards))
        rest
  end.

(** ** Signed state *)

(** [StateEntry::hash]. *)
Definition entry_hash (e : StateEntry) : Hash :=
  blake3 (se_storage_key e ++
    match se_value e with
    | Some value_bytes => as_bytes (blake3 value_bytes)
    | None => replicate 32 0
    end).

(** [StateProvision::signing_message]. *)
Definition provision_signing_message (p : StateProvision) : bytes :=
  state_provision_message (sp_transaction_hash p) (sp_target_shard p) (sp_source_shard p)
    (sp_block_height p) (sp_block_timestamp p) (entry_hash <$> sp_entries p).
End transactions.

(** [StateVoteBlock::signing_message] and [StateCertificate::signing_message]. *)
Definition state_vote_signing_message (v : StateVoteBlock) : bytes :=
  exec_vote_message (sv_transaction_hash v) (sv_state_root v) (sv_shard_group_id v) (sv_success v).

Definition state_certificate_signing_message (c : StateCertificate) : bytes :=
  exec_vote_message (sc_transaction_hash c) (sc_outputs_merkle_root c) (sc_shard_group_id c)
    (sc_success c).

(** ** Statuses form a finite, acyclic life *)

(** A path of allowed transitions. *)
Fixpoint status_path (s : TransactionStatus) (rest : list TransactionStatus) : Prop :=
  match rest with
  | [] => True
  | s' :: rest' => Status.can_transition_to s s' = true /\ status_path s' rest'
  end.

(** Transitions left at most. *)
Definition steps_left (s : TransactionStatus) : nat :=
  match s with
  | Pending => 3
  | Committed _ => 2
  | Executed _ _ | Deferred _ => 1
  | Completed _ | Retried _ | Aborted _ => 0
  end.

Lemma transition_decreases s s' :
  Status.can_transition_to s s' = true -> (steps_left s' < steps_left s)%nat.
Proof. destruct s, s'; simpl; intros [=]; lia. Qed.

Lemma status_path_bound s rest : status_path s rest -> (length rest <= steps_left s)%nat.
Proof.
  revert s. induction rest as [|s' rest IH]; intros s; [simpl; lia|].
  intros [Ht Hp]. apply transition_decreases in Ht. specialize (IH _ Hp). simpl. lia.
Qed.

(** A transaction's life is finite and its final statuses are exactly the
    dead ends: every path of allowed transitions takes at most three steps (none
    from a final status), and a status is final exactly when no status may
    follow it. A transaction can therefore never return to a status it left. *)
Theorem status_lifecycle s rest :
  status_path s rest ->
  (length rest <= 3)%nat /\
  (s ∉ rest) /\
  (Status.is_final s = true <-> forall s', Status.can_transition_to s s' = false).
Proof.
  intros Hp. split_and!.
  - apply status_path_bound in Hp. enough (steps_left s <= 3)%nat by lia.
    destruct s; simpl; lia.
  - enough (forall r q, status_path q r -> Forall (fun s' => steps_left s' < steps_left q)%nat r)
      as Hall.
    { intros Hin. pose proof (Forall_elem _ _ _ (Hall _ _ Hp) Hin). simpl in *. lia. }
    induction r as [|q' r IH]; intros q; [constructor|]. intros [Ht Hr].
    apply transition_decreases in Ht. constructor; [done|].
    eapply Forall_impl; [exact (IH _ Hr)|]. simpl. lia.
  - split; [by destruct s|]. intros Hall. destruct s; try done.
    + by specialize (Hall (Committed 0)).
    + by specialize (Hall (Aborted (TooManyRetries 0))).
    + by specialize (Hall (Completed Accept)).
    + by specialize (Hall (Retried 0)).
Qed.

Lemma status_lifecycle_witness :
  status_path Pending [Committed 3; Deferred 7; Retried 9] /\ (length [Committed 3; Deferred 7; Retried 9] <= 3)%nat.
Proof.
  assert (status_path Pending [Committed 3; Deferred 7; Retried 9]) as Hp by (vm_compute; auto).
  split; [exact Hp|]. exact (proj1 (status_lifecycle _ _ Hp)).
Defined.

(** ** Retries have fresh hashes *)

(** The fields fit their machine types. *)
Definition details_wf (d : RetryDetails) : Prop :=
  is_hash (rd_original_tx_hash d) /\ rd_retry_count d < 2 ^ 32 /\ is_hash (rd_deferred_by d) /\
  is_u64 (rd_deferred_at d).

Lemma to_hash_bytes_inj d d' :
  details_wf d -> details_wf d' -> to_hash_bytes d = to_hash_bytes d' -> d = d'.
Proof.
  destruct d as [o c b h], d' as [o' c' b' h']. unfold details_wf, to_hash_bytes.
  cbn [rd_original_tx_hash rd_retry_count rd_deferred_by rd_deferred_at].
  intros (Ho & Hc & Hb & Hh) (Ho' & Hc' & Hb' & Hh') Heq.
  apply app_inv_head in Heq.
  apply app_inj_1 in Heq as [->%as_bytes_inj Heq]; [|done..|by rewrite !length_as_bytes].
  apply app_inj_1 in Heq as [->%(le_bytes_inj 4) Heq];
    [|done..|unfold u32_to_le_bytes; by rewrite !length_le_bytes].
  apply app_inj_1 in Heq as [->%as_bytes_inj ->%to_le_bytes_inj];
    [done..|by rewrite !length_as_bytes].
Qed.

Section retries.
Context `{Crypto}.

(** A transaction as its constructors build it: the hash is the hash of its
    contents, and the retry details fit their types, with room for one more. *)
Definition tx_wf (tx : RoutableTransaction) : Prop :=
  rt_hash tx = blake3 (hash_input (rt_serialized_bytes tx) (rt_retry_details tx)) /\
  is_hash (rt_hash tx) /\ retry_count tx + 1 < 2 ^ 32 /\
  match rt_retry_details tx with Some d => details_wf d | None => True end.

Lemma create_retry_details tx by_ at_ :
  tx_wf tx ->
  rt_retry_details (create_retry tx by_ at_)
  = Some (mk_retry_details (original_hash tx) (retry_count tx + 1) by_ at_).
Proof.
  intros (_ & _ & Hc & _). unfold create_retry, original_hash, retry_count in *. cbn.
  destruct (rt_retry_details tx) as [d|]; [|done]. unfold next_retry.
  by rewrite (N.mod_small _ (2 ^ 32)).
Qed.

Lemma create_retry_details_wf tx by_ at_ :
  tx_wf tx -> is_hash by_ -> is_u64 at_ ->
  details_wf (mk_retry_details (original_hash tx) (retry_count tx + 1) by_ at_).
Proof.
  intros (_ & Hh & Hc & Hd) Hb Ha. unfold original_hash. split_and!; [|done..]. cbn.
  destruct (rt_retry_details tx) as [d|]; [by destruct Hd|done].
Qed.

(** A retry is the same transaction under a new name. It keeps the payload,
    the declared nodes and the original hash, and counts one more. Its hash is
    new: two retries of one transaction with the same hash have the same winner
    and height, and no retry has the hash of the transaction it retries, unless
    two different inputs collide under the hash function. *)
Theorem create_retry_spec tx by_ at_ by' at' :
  tx_wf tx -> is_hash by_ -> is_u64 at_ -> is_hash by' -> is_u64 at' ->
  let r := create_retry tx by_ at_ in
  let r' := create_retry tx by' at' in
  let input t := hash_input (rt_serialized_bytes t) (rt_retry_details t) in
  rt_serialized_bytes r = rt_serialized_bytes tx /\
  all_declared_nodes r = all_declared_nodes tx /\
  original_hash r = original_hash tx /\ is_retry r = true /\
  retry_count r = retry_count tx + 1 /\
  (rt_hash r = rt_hash r' -> (by_ = by' /\ at_ = at') \/ collision [input r] [input r']) /\
  (rt_hash r = rt_hash tx -> collision [input r] [input tx]).
Proof.
  intros Hw Hb Ha Hb' Ha' r r' input.
  pose proof (create_retry_details tx by_ at_ Hw) as Hr.
  pose proof (create_retry_details tx by' at' Hw) as Hr'.
  pose proof (create_retry_details_wf _ _ _ Hw Hb Ha) as Hdw.
  fold r in Hr. fold r' in Hr'.
  split_and!; [done|done|by unfold original_hash at 1; rewrite Hr|by unfold is_retry; rewrite Hr
    |by unfold retry_count at 1; rewrite Hr| |].
  - intros Heq. destruct (decide (input r = input r')) as [Hi|Hi].
    + left. unfold input, hash_input in Hi. rewrite Hr, Hr' in Hi.
      apply app_inv_head, to_hash_bytes_inj in Hi; [by simplify_eq|done|].
      by apply create_retry_details_wf.
    + right. exists (input r), (input r'). by split_and!; [left..| |].
  - intros Heq. exists (input r), (input tx). destruct Hw as (Hh & _ & _ & Hd).
    split_and!; [by left..| |by unfold input; rewrite <- Hh, <- Heq].
    unfold input, hash_input. rewrite Hr. intros Hi%app_inv_head.
    unfold retry_count, original_hash in Hi.
    destruct (rt_retry_details tx) as [d|] eqn:Ed; [|done].
    apply to_hash_bytes_inj in Hi; [|by unfold retry_count, original_hash in Hdw; rewrite Ed in Hdw|done].
    apply (f_equal rd_retry_count) in Hi. cbn in Hi. lia.
Qed.
End retries.

(** A transfer between two nodes, deferred twice. *)
Definition sample_transfer : RoutableTransaction :=
  @new_transaction sample_crypto [1; 2; 3] [1] [2].

Lemma create_retry_spec_witness :
  let r := @create_retry sample_crypto sample_transfer 99 5 in
  @retry_count r = 1 /\
  (rt_hash r = rt_hash sample_transfer ->
   @collision sample_crypto [hash_input [1; 2; 3] (rt_retry_details r)] [hash_input [1; 2; 3] None]).
Proof.
  assert (@tx_wf sample_crypto sample_transfer) as Hw.
  { split_and!; [reflexivity|vm_compute; reflexivity..|exact I]. }
  destruct (@create_retry_spec sample_crypto sample_transfer 99 5 99 6 Hw) as
    (_ & _ & _ & _ & Hc & _ & Hcol); [vm_compute; reflexivity..|].
  split; [exact Hc|exact Hcol].
Defined.
