(* ===== verification/Livelock.v ===== *)
(** * Livelock prevention (crates/livelock/src)

    Two cross-shard transactions that wait for each other's state are found
    when the commitment proof of the remote one arrives; the one with the
    higher hash is deferred.  [CommittedCrossShardTracker] indexes the
    committed transactions by the shards they wait for, and [LivelockState]
    queues the deferrals that the next proposals carry.  The theorems give an
    invariant of every run, the exact set of deferrals an arriving proof
    leads to, and the runs in which a cycle goes unnoticed. *)

From stdpp Require Import base gmap list numbers sorting.
From Stdlib Require Import NArith Lia.
From S2P Require Import Prelude Bitfield Types Encoding Topology.

(** ** Trackers (tracker.rs) *)

(** The [BTreeSet] of shards is the list of its elements in order. *)
Record RemoteStateNeeds := mk_remote_state_needs {
  rn_shards : list ShardGroupId;
  rn_nodes_by_shard : gmap ShardGroupId (gset NodeId)
}.

Record CommittedCrossShardTracker := mk_committed_tracker {
  ct_tx_needs : gmap Hash RemoteStateNeeds;
  ct_shards_needed_by : gmap ShardGroupId (gset Hash)
}.

#[export] Instance CommittedTracker_eta : Eta CommittedCrossShardTracker :=
  fun t => mk_committed_tracker (ct_tx_needs t) (ct_shards_needed_by t).

Module CommittedTracker.
Definition new : CommittedCrossShardTracker := mk_committed_tracker ∅ ∅.

Definition add (tx_hash : Hash) (needs : RemoteStateNeeds) (t : CommittedCrossShardTracker)
    : CommittedCrossShardTracker := {|
  ct_shards_needed_by :=
    foldl (fun m shard => mm_insert shard tx_hash m) (ct_shards_needed_by t) (rn_shards needs);
  ct_tx_needs := <[tx_hash := needs]> (ct_tx_needs t)
|}.

Definition remove (tx_hash : Hash) (t : CommittedCrossShardTracker) : CommittedCrossShardTracker :=
  match ct_tx_needs t !! tx_hash with
  | None => t
  | Some needs => {|
      ct_shards_needed_by :=
        foldl (fun m shard => mm_remove shard tx_hash m) (ct_shards_needed_by t) (rn_shards needs);
      ct_tx_needs := delete tx_hash (ct_tx_needs t)
    |}
  end.

Definition txs_needing_shard (t : CommittedCrossShardTracker) (shard : ShardGroupId)
    : option (gset Hash) := ct_shards_needed_by t !! shard.

Definition nodes_needed_from_shard (t : CommittedCrossShardTracker) (tx_hash : Hash)
    (shard : ShardGroupId) : option (gset NodeId) :=
  ct_tx_needs t !! tx_hash ≫= fun needs => rn_nodes_by_shard needs !! shard.

Definition len (t : CommittedCrossShardTracker) : usize := size (ct_tx_needs t).
End CommittedTracker.

(** [ProvisionTracker] is its field [seen]. *)
Module ProvisionTracker.
Abbreviation tracker := (gset (Hash * ShardGroupId)) (only parsing).

Definition new : tracker := ∅.

(** The boolean is true for the first provision of the pair. *)
Definition add (tx_hash : Hash) (source_shard : ShardGroupId) (seen : tracker) : tracker * bool :=
  ({[(tx_hash, source_shard)]} ∪ seen, negb (bool_decide ((tx_hash, source_shard) ∈ seen))).

Definition remove_tx (tx_hash : Hash) (seen : tracker) : tracker :=
  hs_retain (fun p => negb (p.1 =? tx_hash)) seen.
End ProvisionTracker.

(** ** The nodes of a commitment proof (types/src/state.rs, proofs.rs) *)

Definition RADIX_PREFIX_LEN : usize := 6.
Definition HASH_PREFIX_LEN : usize := 20.

(** [StateEntry::node_id]: the thirty bytes of the key after both prefixes. *)
Definition entry_node_id (e : StateEntry) : option NodeId :=
  let start := (RADIX_PREFIX_LEN + HASH_PREFIX_LEN)%nat in
  let stop := (start + 30)%nat in
  if Nat.leb stop (length (se_storage_key e))
  then Some (from_le_bytes (rev (take 30 (drop start (se_storage_key e)))))
  else None.

Definition commitment_nodes (p : CommitmentProof) : gset NodeId :=
  list_to_set (filter_map entry_node_id (cp_entries p)).

(** ** State (state.rs) *)

Record LivelockConfig := mk_livelock_config {
  lc_tombstone_ttl : Duration;
  lc_execution_timeout_blocks : u64;
  lc_max_retries : N
}.

Definition default_livelock_config : LivelockConfig := {|
  lc_tombstone_ttl := from_secs 30;
  lc_execution_timeout_blocks := 30;
  lc_max_retries := 3
|}.

Record LivelockState := mk_livelock_state {
  ll_local_shard : ShardGroupId;
  ll_committed_tracker : CommittedCrossShardTracker;
  ll_provision_tracker : gset (Hash * ShardGroupId);
  ll_deferred_tombstones : gmap Hash Duration;
  ll_commitment_proofs : gmap Hash CommitmentProof;
  ll_pending_deferrals : list TransactionDefer;
  ll_pending_deferral_hashes : gset Hash;
  ll_now : Duration;
  ll_config : LivelockConfig
}.

#[export] Instance LivelockState_eta : Eta LivelockState := fun s =>
  mk_livelock_state (ll_local_shard s) (ll_committed_tracker s) (ll_provision_tracker s)
    (ll_deferred_tombstones s) (ll_commitment_proofs s) (ll_pending_deferrals s)
    (ll_pending_deferral_hashes s) (ll_now s) (ll_config s).

Definition livelock_with_config (shard : ShardGroupId) (config : LivelockConfig)
    : LivelockState := {|
  ll_local_shard := shard;
  ll_committed_tracker := CommittedTracker.new;
  ll_provision_tracker := ProvisionTracker.new;
  ll_deferred_tombstones := ∅;
  ll_commitment_proofs := ∅;
  ll_pending_deferrals := [];
  ll_pending_deferral_hashes := ∅;
  ll_now := 0;
  ll_config := config
|}.

Definition livelock_new (shard : ShardGroupId) : LivelockState :=
  livelock_with_config shard default_livelock_config.

(** ** Operations *)

Section livelock.
Context `{Topology} `{HashIter}.

Definition livelock_set_time (now : Duration) (s : LivelockState) : LivelockState :=
  s <| ll_now := now |>.

(** One pass of the loops over the declared nodes. *)
Definition note_remote_node (local : ShardGroupId) (m : gmap ShardGroupId (gset NodeId))
    (node_id : NodeId) : gmap ShardGroupId (gset NodeId) :=
  let shard := shard_for_node_id node_id in
  if negb (shard =? local) then mm_insert shard node_id m else m.

Definition compute_remote_state_needs (s : LivelockState) (tx : RoutableTransaction)
    : RemoteStateNeeds :=
  let with_reads := foldl (note_remote_node (ll_local_shard s)) ∅ (rt_declared_reads tx) in
  let nodes_by_shard := foldl (note_remote_node (ll_local_shard s)) with_reads (rt_declared_writes tx) in
  mk_remote_state_needs (btree_set (map_to_list nodes_by_shard).*1) nodes_by_shard.

Definition on_cross_shard_committed (tx : RoutableTransaction) (height : BlockHeight)
    (s : LivelockState) : LivelockState :=
  let needs := compute_remote_state_needs s tx in
  if Nat.eqb (length (rn_shards needs)) 0 then s
  else s <| ll_committed_tracker ::= CommittedTracker.add (rt_hash tx) needs |>.

(** [CycleProof::new] and the deferral around it; the height is filled in by
    the proposer. *)
Definition cycle_deferral (loser_tx winner_tx : Hash) (commitment : CommitmentProof)
    : TransactionDefer :=
  mk_transaction_defer loser_tx (LivelockCycle winner_tx) 0 (mk_cycle_proof winner_tx commitment).

Definition queue_deferral (loser_tx winner_tx : Hash) (s : LivelockState) : LivelockState :=
  if bool_decide (loser_tx ∈ ll_pending_deferral_hashes s) then s
  else match ll_commitment_proofs s !! winner_tx with
       | None => s
       | Some commitment =>
           s <| ll_pending_deferral_hashes ::= fun X => {[loser_tx]} ∪ X |>
             <| ll_pending_deferrals ::= fun l => l ++ [cycle_deferral loser_tx winner_tx commitment] |>
       end.

(** What the loop of [check_for_cycle] pushes for one local transaction. *)
Definition cycle_with (s : LivelockState) (remote_tx_hash : Hash) (source_shard : ShardGroupId)
    (remote_tx_nodes : gset NodeId) (local_tx_hash : Hash) : option (Hash * Hash) :=
  match CommittedTracker.nodes_needed_from_shard (ll_committed_tracker s) local_tx_hash source_shard with
  | None => None
  | Some local_nodes_needed =>
      if bool_decide (local_nodes_needed ∩ remote_tx_nodes = ∅) then None
      else if local_tx_hash <? remote_tx_hash then None
      else if remote_tx_hash <? local_tx_hash then Some (local_tx_hash, remote_tx_hash)
      else None
  end.

Definition check_for_cycle (remote_tx_hash : Hash) (source_shard : ShardGroupId)
    (remote_tx_nodes : gset NodeId) (s : LivelockState) : LivelockState :=
  match CommittedTracker.txs_needing_shard (ll_committed_tracker s) source_shard with
  | None => s
  | Some local_txs_needing_source =>
      let deferrals_to_queue :=
        filter_map (cycle_with s remote_tx_hash source_shard remote_tx_nodes)
          (hs_iter local_txs_needing_source) in
      foldl (fun st '(loser, winner) => queue_deferral loser winner st) s deferrals_to_queue
  end.

Definition on_provision_quorum_reached (remote_tx_hash : Hash) (source_shard : ShardGroupId)
    (commitment_proof : CommitmentProof) (s : LivelockState) : LivelockState :=
  if contains_key (ll_deferred_tombstones s) remote_tx_hash then s
  else
    let '(seen, first) := ProvisionTracker.add remote_tx_hash source_shard (ll_provision_tracker s) in
    let s1 := s <| ll_provision_tracker := seen |> in
    if negb first then s1
    else
      check_for_cycle remote_tx_hash source_shard (commitment_nodes commitment_proof)
        (s1 <| ll_commitment_proofs ::= <[remote_tx_hash := commitment_proof]> |>).

(** [on_abort_committed] and [on_certificate_committed] have this body. *)
Definition stop_tracking (tx_hash : Hash) (s : LivelockState) : LivelockState :=
  s <| ll_committed_tracker ::= CommittedTracker.remove tx_hash |>
    <| ll_provision_tracker ::= ProvisionTracker.remove_tx tx_hash |>
    <| ll_commitment_proofs ::= delete tx_hash |>.

Definition on_abort_committed := stop_tracking.
Definition on_certificate_committed := stop_tracking.

Definition on_deferral_committed (tx_hash : Hash) (s : LivelockState) : LivelockState :=
  let expiry := ll_now s + lc_tombstone_ttl (ll_config s) in
  stop_tracking tx_hash (s <| ll_deferred_tombstones ::= <[tx_hash := expiry]> |>).

Definition livelock_on_block_committed (block : Block) (s : LivelockState) : LivelockState :=
  let s1 := foldl (fun st d => on_deferral_committed (td_tx_hash d) st) s (bl_deferred block) in
  let s2 := foldl (fun st a => on_abort_committed (ta_tx_hash a) st) s1 (bl_aborted block) in
  let s3 := foldl (fun st c => on_certificate_committed (tc_transaction_hash c) st) s2
              (bl_certificates block) in
  let hashes := foldl (fun X d => X ∖ {[td_tx_hash d]}) (ll_pending_deferral_hashes s3)
                  (bl_deferred block) in
  s3 <| ll_pending_deferral_hashes := hashes |>
     <| ll_pending_deferrals ::= List.filter (fun d => bool_decide (td_tx_hash d ∈ hashes)) |>.

Definition livelock_cleanup (s : LivelockState) : LivelockState :=
  s <| ll_deferred_tombstones ::= hm_retain (fun _ expiry => ll_now s <? expiry) |>.

Definition is_cross_shard (s : LivelockState) (tx : RoutableTransaction) : bool :=
  negb (Nat.eqb (length (rn_shards (compute_remote_state_needs s tx))) 0).
End livelock.

(** ** What the trackers hold *)

(** The reverse index is the converse of the forward map, and no shard is
    indexed without a transaction. *)
Record tracker_inv (t : CommittedCrossShardTracker) : Prop := {
  ti_index : forall shard tx,
    tx ∈ mm_get (ct_shards_needed_by t) shard
    <-> exists needs, ct_tx_needs t !! tx = Some needs /\ shard ∈ rn_shards needs;
  ti_compact : mm_compact (ct_shards_needed_by t)
}.

Lemma tracker_inv_new : tracker_inv CommittedTracker.new.
Proof. split; [|done]. intros shard tx. unfold mm_get. simpl. set_solver. Qed.

Lemma tracker_inv_add tx needs t :
  tracker_inv t -> (forall old, ct_tx_needs t !! tx = Some old -> old = needs) ->
  tracker_inv (CommittedTracker.add tx needs t).
Proof.
  intros [Hi Hc] Hold. split; simpl; [|by apply mm_insert_all_compact].
  intros shard tx'. rewrite elem_of_mm_insert_all, Hi.
  destruct (decide (tx' = tx)) as [->|Hne].
  - rewrite lookup_insert_eq. naive_solver.
  - rewrite lookup_insert_ne by done. naive_solver.
Qed.

Lemma tracker_inv_remove tx t : tracker_inv t -> tracker_inv (CommittedTracker.remove tx t).
Proof.
  intros [Hi Hc]. unfold CommittedTracker.remove.
  destruct (ct_tx_needs t !! tx) as [needs|] eqn:E; [|by split].
  split; simpl; [|by apply mm_remove_all_compact].
  intros shard tx'. rewrite elem_of_mm_remove_all, Hi. split.
  - intros [(needs' & Hn & Hs) Hnot]. exists needs'. split; [|done].
    rewrite lookup_delete_ne; [done|]. intros <-. naive_solver.
  - intros (needs' & [Hne Hn]%lookup_delete_Some & Hs). naive_solver.
Qed.

Lemma remove_needs tx t h :
  ct_tx_needs (CommittedTracker.remove tx t) !! h
  = if decide (h = tx) then None else ct_tx_needs t !! h.
Proof.
  unfold CommittedTracker.remove.
  destruct (ct_tx_needs t !! tx) eqn:E; simpl; case_decide; subst;
    rewrite ?lookup_delete_eq, ?lookup_delete_ne by done; done.
Qed.

(** What a proposal needs of a deferral. *)
Definition deferral_proposable (d : TransactionDefer) : Prop :=
  winner_hash d < td_tx_hash d /\ cyp_winner_tx_hash (td_proof d) = winner_hash d.

(** ** Runs *)

Section runs.
Context `{Topology} `{HashIter}.

Lemma note_remote_nodes local nodes m shard node :
  node ∈ mm_get (foldl (note_remote_node local) m nodes) shard
  <-> (node ∈ nodes /\ shard_for_node_id node = shard /\ shard <> local) \/ node ∈ mm_get m shard.
Proof.
  revert m. induction nodes as [|n nodes IH]; intros m; simpl; [set_solver|].
  rewrite IH. unfold note_remote_node. destruct (N.eqb_spec (shard_for_node_id n) local) as [E|E]; simpl.
  - set_solver.
  - rewrite elem_of_mm_insert. set_solver.
Qed.

Lemma note_remote_nodes_compact local nodes m :
  mm_compact m -> mm_compact (foldl (note_remote_node local) m nodes).
Proof.
  revert m. induction nodes as [|n nodes IH]; intros m Hm; simpl; [done|].
  apply IH. unfold note_remote_node. case_match; auto using mm_insert_compact.
Qed.

Inductive livelock_event :=
  | LlSetTime (now : Duration)
  | LlCommitted (tx : RoutableTransaction) (height : BlockHeight)
  | LlQuorum (tx_hash : Hash) (source_shard : ShardGroupId) (proof : CommitmentProof)
  | LlBlock (block : Block)
  | LlCleanup.

Definition livelock_handle (e : livelock_event) (s : LivelockState) : LivelockState :=
  match e with
  | LlSetTime now => livelock_set_time now s
  | LlCommitted tx height => on_cross_shard_committed tx height s
  | LlQuorum tx_hash source_shard proof => on_provision_quorum_reached tx_hash source_shard proof s
  | LlBlock block => livelock_on_block_committed block s
  | LlCleanup => livelock_cleanup s
  end.

Definition livelock_run (s : LivelockState) (events : list livelock_event) : LivelockState :=
  foldl (fun st e => livelock_handle e st) s events.

Lemma queue_deferral_frame loser winner s :
  let s' := queue_deferral loser winner s in
  ll_committed_tracker s' = ll_committed_tracker s
  /\ ll_local_shard s' = ll_local_shard s
  /\ ll_provision_tracker s' = ll_provision_tracker s
  /\ ll_commitment_proofs s' = ll_commitment_proofs s.
Proof. unfold queue_deferral. cbv zeta. by repeat case_match. Qed.

Definition queue_all (s : LivelockState) (l : list (Hash * Hash)) : LivelockState :=
  foldl (fun st '(loser, winner) => queue_deferral loser winner st) s l.

Lemma queue_all_frame l s :
  ll_committed_tracker (queue_all s l) = ll_committed_tracker s
  /\ ll_local_shard (queue_all s l) = ll_local_shard s
  /\ ll_provision_tracker (queue_all s l) = ll_provision_tracker s.
Proof.
  unfold queue_all. revert s. induction l as [|[loser winner] l IH]; intros s; simpl; [done|].
  destruct (queue_deferral_frame loser winner s) as (Ht & Hl & Hp & _).
  destruct (IH (queue_deferral loser winner s)) as (-> & -> & ->). done.
Qed.

(** The deferrals in the queue after the loop of [check_for_cycle]. *)
Lemma queue_all_pending remote proof l s d :
  ll_commitment_proofs s !! remote = Some proof ->
  Forall (fun p => p.2 = remote) l ->
  ll_pending_deferral_hashes s = list_to_set (td_tx_hash <$> ll_pending_deferrals s) ->
  d ∈ ll_pending_deferrals (queue_all s l)
  <-> d ∈ ll_pending_deferrals s
      \/ exists loser, loser ∈ l.*1 /\ (loser ∉ ll_pending_deferral_hashes s)
                       /\ d = cycle_deferral loser remote proof.
Proof.
  unfold queue_all. revert s. induction l as [|[loser winner] l IH]; intros s Hp Hall Hh; simpl.
  { split; [by left|]. intros [?|(? & Hnil & _)]; [done|]. by apply elem_of_nil in Hnil. }
  apply Forall_cons in Hall as [E Hall]. simpl in E. subst winner.
  setoid_rewrite elem_of_cons. unfold queue_deferral. case_bool_decide as Hin.
  - rewrite IH by done. naive_solver.
  - rewrite Hp, IH; [|done..|].
    + simpl. setoid_rewrite elem_of_app. setoid_rewrite list_elem_of_singleton.
      setoid_rewrite not_elem_of_union. setoid_rewrite not_elem_of_singleton.
      split; [naive_solver|]. intros [?|(loser' & Hl & Hn & ->)]; [by left; left|].
      destruct (decide (loser' = loser)) as [->|]; naive_solver.
    + simpl. rewrite Hh, fmap_app, list_to_set_app_L. simpl. set_solver.
Qed.

Definition cycle_pairs (s : LivelockState) (remote : Hash) (shard : ShardGroupId)
    (proof : CommitmentProof) : list (Hash * Hash) :=
  match CommittedTracker.txs_needing_shard (ll_committed_tracker s) shard with
  | None => []
  | Some txs => filter_map (cycle_with s remote shard (commitment_nodes proof)) (hs_iter txs)
  end.

Lemma check_for_cycle_pairs s remote shard proof :
  check_for_cycle remote shard (commitment_nodes proof) s
  = queue_all s (cycle_pairs s remote shard proof).
Proof. unfold check_for_cycle, cycle_pairs. by case_match. Qed.

(** The transactions a block finishes. *)
Definition finished (block : Block) : list Hash :=
  (td_tx_hash <$> bl_deferred block) ++ (ta_tx_hash <$> bl_aborted block)
  ++ (tc_transaction_hash <$> bl_certificates block).

(** [s'] is [s] without the tracking of the transactions [hs]. *)
Record stopped (hs : list Hash) (s s' : LivelockState) : Prop := {
  st_needs : forall h, ct_tx_needs (ll_committed_tracker s') !! h
    = if decide (h ∈ hs) then None else ct_tx_needs (ll_committed_tracker s) !! h;
  st_proofs : forall h, ll_commitment_proofs s' !! h
    = if decide (h ∈ hs) then None else ll_commitment_proofs s !! h;
  st_seen : forall p, p ∈ ll_provision_tracker s' <-> p ∈ ll_provision_tracker s /\ (p.1 ∉ hs);
  st_pending : ll_pending_deferrals s' = ll_pending_deferrals s;
  st_hashes : ll_pending_deferral_hashes s' = ll_pending_deferral_hashes s;
  st_rest : ll_now s' = ll_now s /\ ll_config s' = ll_config s /\ ll_local_shard s' = ll_local_shard s
}.

Lemma stopped_nil s : stopped [] s s.
Proof. by split; try (intros; rewrite decide_False by apply not_elem_of_nil); set_solver. Qed.

Lemma stopped_cons h hs s s1 s2 : stopped [h] s s1 -> stopped hs s1 s2 -> stopped (h :: hs) s s2.
Proof.
  intros [N1 P1 S1 D1 H1 R1] [N2 P2 S2 D2 H2 R2]. split; [..|congruence|congruence|naive_solver congruence].
  - intros k. rewrite N2, N1. repeat case_decide; set_solver.
  - intros k. rewrite P2, P1. repeat case_decide; set_solver.
  - intros p. rewrite S2, S1. set_solver.
Qed.

Lemma stop_tracking_stopped h s : stopped [h] s (stop_tracking h s).
Proof.
  split; simpl; [| | |done..].
  - intros k. rewrite remove_needs. repeat case_decide; set_solver.
  - intros k. rewrite lookup_delete. repeat case_decide; set_solver.
  - intros p. unfold ProvisionTracker.remove_tx. rewrite elem_of_hs_retain, negb_true_iff, N.eqb_neq.
    set_solver.
Qed.

Lemma deferral_committed_stopped h s : stopped [h] s (on_deferral_committed h s).
Proof. destruct (stop_tracking_stopped h (s <| ll_deferred_tombstones ::=
  <[h := ll_now s + lc_tombstone_ttl (ll_config s)]> |>)). by split. Qed.

(** One of the loops of the handler. *)
Lemma stopped_loop {A} (key : A -> Hash) (f : Hash -> LivelockState -> LivelockState) l s hs s2 :
  (forall h s, stopped [h] s (f h s)) -> stopped hs (foldl (fun st x => f (key x) st) s l) s2 ->
  stopped ((key <$> l) ++ hs) s s2.
Proof.
  intros Hf. revert s. induction l as [|x l IH]; intros s Hs; simpl in *; [done|].
  by eapply stopped_cons; [apply Hf|apply IH].
Qed.

(** The state before the queue is pruned. *)
Definition after_loops (block : Block) (s : LivelockState) : LivelockState :=
  foldl (fun st c => on_certificate_committed (tc_transaction_hash c) st)
    (foldl (fun st a => on_abort_committed (ta_tx_hash a) st)
       (foldl (fun st d => on_deferral_committed (td_tx_hash d) st) s (bl_deferred block))
       (bl_aborted block))
    (bl_certificates block).

Lemma after_loops_stopped block s : stopped (finished block) s (after_loops block s).
Proof.
  unfold finished, after_loops.
  apply (stopped_loop td_tx_hash on_deferral_committed); [apply deferral_committed_stopped|].
  apply (stopped_loop ta_tx_hash on_abort_committed); [apply stop_tracking_stopped|].
  rewrite <-(app_nil_r (tc_transaction_hash <$> _)).
  apply (stopped_loop tc_transaction_hash on_certificate_committed); [apply stop_tracking_stopped|].
  apply stopped_nil.
Qed.

Lemma deferrals_tombstones ds s h :
  ll_deferred_tombstones (foldl (fun st d => on_deferral_committed (td_tx_hash d) st) s ds) !! h
  = if decide (h ∈ td_tx_hash <$> ds) then Some (ll_now s + lc_tombstone_ttl (ll_config s))
    else ll_deferred_tombstones s !! h.
Proof.
  revert s. induction ds as [|d ds IH]; intros s.
  { by rewrite decide_False by apply not_elem_of_nil. }
  cbn [foldl]. rewrite IH, fmap_cons.
  unfold on_deferral_committed, stop_tracking. cbn. rewrite lookup_insert.
  repeat case_decide; set_solver.
Qed.

Lemma after_loops_tombstones block s h :
  ll_deferred_tombstones (after_loops block s) !! h
  = if decide (h ∈ td_tx_hash <$> bl_deferred block)
    then Some (ll_now s + lc_tombstone_ttl (ll_config s)) else ll_deferred_tombstones s !! h.
Proof.
  rewrite <-deferrals_tombstones. unfold after_loops. f_equal. set (s0 := foldl _ s _).
  repeat (apply (foldl_keeps (fun st => ll_deferred_tombstones st = ll_deferred_tombstones s0)); [|done]).
  done.
Qed.

Lemma remove_hashes ds (X : gset Hash) h :
  h ∈ foldl (fun X d => X ∖ {[td_tx_hash d]}) X ds <-> h ∈ X /\ (h ∉ (td_tx_hash <$> ds)).
Proof.
  revert X. induction ds as [|d ds IH]; intros X; simpl; [set_solver|]. rewrite IH. set_solver.
Qed.

(** Events after which the transaction [h] of shard [shard] is still known
    and no other shard has reported it. *)
Definition repeats_only (h : Hash) (shard : ShardGroupId) (e : livelock_event) : Prop :=
  match e with
  | LlQuorum h' shard' _ => h' = h -> shard' = shard
  | LlBlock block => h ∉ finished block
  | _ => True
  end.

Lemma cycle_pairs_winner s remote shard proof p :
  p ∈ cycle_pairs s remote shard proof -> p.2 = remote.
Proof.
  unfold cycle_pairs. case_match; [|by intros ?%elem_of_nil].
  rewrite list_elem_of_omap. intros (h & _ & E). unfold cycle_with in E. by split_matches.
Qed.

Lemma queue_all_winner l s d :
  d ∈ ll_pending_deferrals (queue_all s l) ->
  d ∈ ll_pending_deferrals s \/ winner_hash d ∈ l.*2.
Proof.
  unfold queue_all. revert s. induction l as [|[loser winner] l IH]; intros s; simpl; [by left|].
  intros [Hd|Hd]%IH; [|set_solver]. unfold queue_deferral in Hd.
  do 2 (case_match; [auto|]); simpl in *; auto.
  apply elem_of_app in Hd as [Hd| ->%list_elem_of_singleton]; [by left|].
  right. simpl. set_solver.
Qed.

Lemma known_remote_step h shard e s :
  (h, shard) ∈ ll_provision_tracker s -> repeats_only h shard e ->
  (h, shard) ∈ ll_provision_tracker (livelock_handle e s)
  /\ forall d, d ∈ ll_pending_deferrals (livelock_handle e s) -> winner_hash d = h ->
       d ∈ ll_pending_deferrals s.
Proof.
  intros Hseen Hr. destruct e as [now|tx height|h' shard' proof|block|]; simpl in *; [done|..|done].
  - unfold on_cross_shard_committed. by case_match.
  - unfold on_provision_quorum_reached. case_match; [done|]. simpl.
    case_bool_decide as Hin; simpl; [split; [set_solver|done]|].
    rewrite check_for_cycle_pairs. destruct (queue_all_frame (cycle_pairs
      (s <| ll_provision_tracker := {[(h', shard')]} ∪ ll_provision_tracker s |>
         <| ll_commitment_proofs ::= <[h' := proof]> |>) h' shard' proof)
      (s <| ll_provision_tracker := {[(h', shard')]} ∪ ll_provision_tracker s |>
         <| ll_commitment_proofs ::= <[h' := proof]> |>)) as (_ & _ & ->).
    split; [simpl; set_solver|].
    intros d [Hd|Hd]%queue_all_winner Hw; [done|]. exfalso.
    apply list_elem_of_fmap in Hd as (p & E & Hp%cycle_pairs_winner). apply Hin.
    assert (h' = h) as -> by congruence. by rewrite Hr.
  - destruct (after_loops_stopped block s) as [_ _ Hs Hp _ _].
    unfold livelock_on_block_committed. fold (after_loops block s). simpl. split.
    + by apply Hs.
    + intros d [Hd%list_elem_of_In _]%list_elem_of_In%filter_In _. by rewrite <-Hp.
Qed.

(** A cycle goes unnoticed when the local transaction commits after the
    quorum of the remote one was reported: until the remote transaction is
    finished, no event queues a deferral in its favour, although the local
    transaction waits for its nodes. *)
Theorem late_commit_misses_cycle h shard s events :
  (h, shard) ∈ ll_provision_tracker s -> Forall (repeats_only h shard) events ->
  forall d, d ∈ ll_pending_deferrals (livelock_run s events) -> winner_hash d = h ->
    d ∈ ll_pending_deferrals s.
Proof.
  intros Hseen Hr d. revert s Hseen. induction Hr as [|e events He Hr IH]; intros s Hseen; [done|].
  intros Hd Hw. destruct (known_remote_step h shard e s Hseen He) as [Hseen' Hold].
  apply Hold; [|done]. by apply IH.
Qed.
End runs.

(** ** The invariant of the state *)

Section theory.
Context `{Topology} `{HashIter}.

(** The reads and writes a transaction declares, by its hash. *)
Variable declared : Hash -> list NodeId * list NodeId.

Definition declared_tx (h : Hash) : RoutableTransaction :=
  mk_routable_transaction [] (declared h).1 (declared h).2 None h.

Definition declared_nodes (h : Hash) : list NodeId := (declared h).1 ++ (declared h).2.

(** The nodes a transaction declares on a shard other than the local one. *)
Definition remote_node (local shard : ShardGroupId) (h : Hash) (node : NodeId) : Prop :=
  node ∈ declared_nodes h /\ shard_for_node_id node = shard /\ shard <> local.

Lemma needs_spec s tx h :
  (rt_declared_reads tx, rt_declared_writes tx) = declared h ->
  let needs := compute_remote_state_needs s tx in
  (forall shard node, node ∈ mm_get (rn_nodes_by_shard needs) shard
                      <-> remote_node (ll_local_shard s) shard h node)
  /\ mm_compact (rn_nodes_by_shard needs)
  /\ forall shard, shard ∈ rn_shards needs <-> is_Some (rn_nodes_by_shard needs !! shard).
Proof.
  intros Hd. cbn. split_and!.
  - intros shard node. rewrite !note_remote_nodes. unfold remote_node, declared_nodes.
    rewrite <-Hd. simpl. rewrite elem_of_app. unfold mm_get. rewrite lookup_empty. set_solver.
  - by repeat apply note_remote_nodes_compact.
  - intros shard. rewrite elem_of_btree_set, list_elem_of_fmap. split.
    + intros ([shard' X] & -> & Hin%elem_of_map_to_list). by exists X.
    + intros [X HX]. exists (shard, X). by rewrite elem_of_map_to_list.
Qed.

(** A queued deferral names a smaller winner with its commitment, and the
    commitment covers a node that the loser waits for. *)
Definition deferral_justified (local : ShardGroupId) (d : TransactionDefer) : Prop :=
  deferral_proposable d
  /\ cp_tx_hash (cyp_winner_commitment (td_proof d)) = winner_hash d
  /\ exists shard node, remote_node local shard (td_tx_hash d) node
                        /\ node ∈ commitment_nodes (cyp_winner_commitment (td_proof d)).

Record livelock_inv (s : LivelockState) : Prop := {
  li_tracker : tracker_inv (ll_committed_tracker s);
  li_needs : forall tx needs, ct_tx_needs (ll_committed_tracker s) !! tx = Some needs ->
    needs = compute_remote_state_needs s (declared_tx tx);
  li_hashes : ll_pending_deferral_hashes s = list_to_set (td_tx_hash <$> ll_pending_deferrals s);
  li_nodup : NoDup (td_tx_hash <$> ll_pending_deferrals s);
  li_justified : Forall (deferral_justified (ll_local_shard s)) (ll_pending_deferrals s)
}.

(** The hash of a committed transaction determines its declared nodes, and a
    quorum is reported with the commitment of its own transaction. *)
Definition livelock_event_ok (e : livelock_event) : Prop :=
  match e with
  | LlCommitted tx _ => (rt_declared_reads tx, rt_declared_writes tx) = declared (rt_hash tx)
  | LlQuorum tx_hash _ proof => cp_tx_hash proof = tx_hash
  | _ => True
  end.

(** *** Queuing deferrals *)

(** The invariant depends on these parts of the state only. *)
Lemma livelock_inv_frame s s' :
  ll_committed_tracker s' = ll_committed_tracker s -> ll_local_shard s' = ll_local_shard s ->
  ll_pending_deferrals s' = ll_pending_deferrals s ->
  ll_pending_deferral_hashes s' = ll_pending_deferral_hashes s ->
  livelock_inv s -> livelock_inv s'.
Proof.
  intros Ht Hl Hp Hh [Itr Ine Iha Ind Iju].
  split; rewrite ?Ht, ?Hl, ?Hp, ?Hh; try done.
  intros tx needs Hn. rewrite (Ine tx needs Hn). unfold compute_remote_state_needs. by rewrite Hl.
Qed.

Lemma queue_deferral_inv loser winner s :
  livelock_inv s ->
  (forall proof, ll_commitment_proofs s !! winner = Some proof ->
     deferral_justified (ll_local_shard s) (cycle_deferral loser winner proof)) ->
  livelock_inv (queue_deferral loser winner s).
Proof.
  intros Hinv Hj. unfold queue_deferral. case_bool_decide as Hin; [done|].
  destruct (ll_commitment_proofs s !! winner) as [proof|] eqn:E; [|done].
  destruct Hinv as [Itr Ine Iha Ind Iju]. split; simpl; [done|done|..].
  - rewrite Iha, fmap_app, list_to_set_app_L. simpl. set_solver.
  - rewrite fmap_app. apply NoDup_app. split; [done|]. split; [|apply NoDup_singleton].
    intros h Hh Hc. apply list_elem_of_singleton in Hc as ->.
    apply Hin. rewrite Iha. by apply elem_of_list_to_set.
  - apply Forall_app. split; [done|]. apply Forall_singleton, Hj, eq_refl.
Qed.

Lemma queue_all_inv remote proof l s :
  livelock_inv s -> ll_commitment_proofs s !! remote = Some proof ->
  Forall (fun p => p.2 = remote
    /\ deferral_justified (ll_local_shard s) (cycle_deferral p.1 remote proof)) l ->
  livelock_inv (queue_all s l).
Proof.
  unfold queue_all. revert s.
  induction l as [|[loser winner] l IH]; intros s Hinv Hp Hall; simpl; [done|].
  apply Forall_cons in Hall as [[E Hj] Hall]. simpl in E, Hj. subst winner.
  destruct (queue_deferral_frame loser remote s) as (_ & Hl & _ & Hc).
  apply IH; [|by rewrite Hc|by rewrite Hl].
  apply queue_deferral_inv; [done|]. intros proof'. rewrite Hp. by intros [= <-].
Qed.

(** *** Finding cycles *)

(** A tracked local transaction that loses against the remote one. *)
Definition loses_to (s : LivelockState) (remote : Hash) (shard : ShardGroupId)
    (proof : CommitmentProof) (h : Hash) : Prop :=
  is_Some (ct_tx_needs (ll_committed_tracker s) !! h) /\ remote < h
  /\ exists node, remote_node (ll_local_shard s) shard h node /\ node ∈ commitment_nodes proof.

Lemma declared_needs_spec s tx needs :
  livelock_inv s -> ct_tx_needs (ll_committed_tracker s) !! tx = Some needs ->
  (forall shard node, node ∈ mm_get (rn_nodes_by_shard needs) shard
                      <-> remote_node (ll_local_shard s) shard tx node)
  /\ mm_compact (rn_nodes_by_shard needs)
  /\ forall shard, shard ∈ rn_shards needs <-> is_Some (rn_nodes_by_shard needs !! shard).
Proof.
  intros Hinv Hn. rewrite (li_needs s Hinv _ _ Hn). apply needs_spec. simpl. by destruct (declared tx).
Qed.

Lemma cycle_with_Some s remote shard proof h p :
  livelock_inv s ->
  cycle_with s remote shard (commitment_nodes proof) h = Some p
  <-> p = (h, remote) /\ loses_to s remote shard proof h.
Proof.
  intros Hinv. unfold cycle_with, loses_to, CommittedTracker.nodes_needed_from_shard.
  destruct (ct_tx_needs (ll_committed_tracker s) !! h) as [needs|] eqn:E; simpl.
  2:{ split; [done|]. intros (_ & [? [=]] & _). }
  destruct (declared_needs_spec s h needs Hinv E) as (Hnodes & Hc & _).
  assert (forall node, node ∈ default ∅ (rn_nodes_by_shard needs !! shard)
          <-> remote_node (ll_local_shard s) shard h node) as Hn by (intros; apply Hnodes).
  destruct (rn_nodes_by_shard needs !! shard) as [X|] eqn:EX; simpl in Hn.
  2:{ split; [done|]. intros (_ & _ & _ & node & Hr & _). apply Hn in Hr. set_solver. }
  case_bool_decide as Hd.
  { split; [done|]. intros (_ & _ & _ & node & Hr%Hn & Hp). set_solver. }
  destruct (N.ltb_spec h remote) as [Hlt|Hge].
  { split; [done|]. intros (_ & _ & ? & _). lia. }
  destruct (N.ltb_spec remote h) as [Hlt|Hge'].
  2:{ split; [done|]. intros (_ & _ & ? & _). lia. }
  apply set_choose_L in Hd as [node [Hx Hp]%elem_of_intersection].
  split; [|by intros [-> _]]. intros [= <-]. split_and!; [done|by eexists|done|].
  exists node. split; [by apply Hn|done].
Qed.

Lemma elem_of_cycle_pairs s remote shard proof p :
  livelock_inv s ->
  p ∈ cycle_pairs s remote shard proof
  <-> exists h, p = (h, remote) /\ loses_to s remote shard proof h.
Proof.
  intros Hinv. unfold cycle_pairs, CommittedTracker.txs_needing_shard.
  assert (forall h, loses_to s remote shard proof h ->
            h ∈ mm_get (ct_shards_needed_by (ll_committed_tracker s)) shard) as Hidx.
  { intros h ([needs E] & _ & node & Hr & _). apply (ti_index _ (li_tracker s Hinv)).
    exists needs. split; [done|]. destruct (declared_needs_spec s h needs Hinv E) as (Hn & _ & ->).
    apply Hn in Hr. unfold mm_get in Hr. destruct (_ !! shard); [done|]. set_solver. }
  unfold mm_get in Hidx. destruct (_ !! shard) as [txs|]; simpl in Hidx.
  - rewrite list_elem_of_omap. setoid_rewrite elem_of_hs_iter.
    setoid_rewrite (cycle_with_Some s remote shard proof _ p Hinv). naive_solver.
  - split; [by intros ?%elem_of_nil|]. intros (h & _ & ?%Hidx). set_solver.
Qed.

Lemma cycle_losers s remote shard proof h :
  livelock_inv s -> h ∈ (cycle_pairs s remote shard proof).*1 <-> loses_to s remote shard proof h.
Proof.
  intros Hinv. rewrite list_elem_of_fmap.
  setoid_rewrite (elem_of_cycle_pairs s remote shard proof _ Hinv). split.
  - by intros (p & -> & h' & -> & Hl).
  - intros Hl. exists (h, remote). split; [done|]. by exists h.
Qed.

Lemma cycle_pairs_inv s remote shard proof :
  livelock_inv s -> ll_commitment_proofs s !! remote = Some proof -> cp_tx_hash proof = remote ->
  livelock_inv (queue_all s (cycle_pairs s remote shard proof)).
Proof.
  intros Hinv Hp Hcp. apply (queue_all_inv remote proof); [done..|].
  apply Forall_forall. intros p (h & -> & _ & Hlt & node & Hr & Hn)%elem_of_cycle_pairs; [|done].
  split; [done|]. split; [done|]. split; [done|]. by exists shard, node.
Qed.

Lemma quorum_inv remote shard proof s :
  livelock_inv s -> cp_tx_hash proof = remote ->
  livelock_inv (on_provision_quorum_reached remote shard proof s).
Proof.
  intros Hinv Hcp. unfold on_provision_quorum_reached.
  case_match; [done|]. simpl. case_match; [by apply (livelock_inv_frame s)|].
  rewrite check_for_cycle_pairs. apply cycle_pairs_inv; [by apply (livelock_inv_frame s)| |done].
  simpl. apply lookup_insert_eq.
Qed.

(** *** Commits *)

Lemma committed_inv tx height s :
  livelock_inv s -> (rt_declared_reads tx, rt_declared_writes tx) = declared (rt_hash tx) ->
  livelock_inv (on_cross_shard_committed tx height s).
Proof.
  intros [Itr Ine Iha Ind Iju] Hd. unfold on_cross_shard_committed.
  assert (compute_remote_state_needs s tx = compute_remote_state_needs s (declared_tx (rt_hash tx)))
    as E by (unfold compute_remote_state_needs; simpl; by rewrite <-Hd).
  case_match; [done|]. split; simpl; [|..|done|done|done].
  - apply tracker_inv_add; [done|]. intros old Hold. by rewrite (Ine _ _ Hold), E.
  - intros h needs. rewrite lookup_insert_Some. intros [[<- <-]|[_ Hn]]; [done|by apply Ine].
Qed.

Lemma stop_tracking_inv h s : livelock_inv s -> livelock_inv (stop_tracking h s).
Proof.
  intros [Itr Ine Iha Ind Iju]. split; simpl; [by apply tracker_inv_remove| |done..].
  intros tx needs. rewrite remove_needs. case_decide; [done|]. by intros ?%Ine.
Qed.

Lemma deferral_committed_inv h s : livelock_inv s -> livelock_inv (on_deferral_committed h s).
Proof. intros Hinv. apply stop_tracking_inv. by apply (livelock_inv_frame s). Qed.

Lemma after_loops_inv block s : livelock_inv s -> livelock_inv (after_loops block s).
Proof.
  intros Hinv. unfold after_loops. repeat apply foldl_keeps; [done|..];
    auto using deferral_committed_inv, stop_tracking_inv.
Qed.

Lemma block_committed_pending block s :
  livelock_inv s ->
  ll_pending_deferrals (livelock_on_block_committed block s)
  = List.filter (fun d => bool_decide (td_tx_hash d ∉ (td_tx_hash <$> bl_deferred block)))
      (ll_pending_deferrals s).
Proof.
  intros Hinv. pose proof (after_loops_stopped block s) as Hst.
  unfold livelock_on_block_committed. fold (after_loops block s). simpl.
  rewrite (st_pending _ _ _ Hst), (st_hashes _ _ _ Hst). apply filter_ext_in.
  intros d Hd%list_elem_of_In. apply bool_decide_ext. rewrite remove_hashes, (li_hashes s Hinv).
  rewrite elem_of_list_to_set. split; [by intros [_ ?]|]. intros Hn. split; [|done].
  apply list_elem_of_fmap. by exists d.
Qed.

Lemma block_committed_inv block s : livelock_inv s -> livelock_inv (livelock_on_block_committed block s).
Proof.
  intros Hinv. pose proof (block_committed_pending block s Hinv) as Hpend.
  destruct (after_loops_inv block s Hinv) as [Itr Ine Iha Ind Iju].
  pose proof (after_loops_stopped block s) as Hst.
  unfold livelock_on_block_committed in *. fold (after_loops block s) in *. split; simpl in *; [done|done|..].
  - apply set_eq. intros h. rewrite remove_hashes, elem_of_list_to_set, Hpend.
    rewrite (st_hashes _ _ _ Hst), (li_hashes s Hinv), elem_of_list_to_set.
    rewrite !list_elem_of_fmap. setoid_rewrite list_elem_of_In. setoid_rewrite filter_In.
    setoid_rewrite bool_decide_eq_true. setoid_rewrite <-list_elem_of_In.
    setoid_rewrite list_elem_of_fmap. naive_solver.
  - by apply NoDup_fmap_filter.
  - apply Forall_forall. intros d Hd%list_elem_of_In%filter_In.
    destruct Hd as [Hd%list_elem_of_In _]. by eapply Forall_elem.
Qed.

Lemma livelock_handle_inv e s : livelock_inv s -> livelock_event_ok e -> livelock_inv (livelock_handle e s).
Proof.
  intros Hinv Hok. destruct e; simpl in *.
  - by apply (livelock_inv_frame s).
  - by apply committed_inv.
  - by apply quorum_inv.
  - by apply block_committed_inv.
  - by apply (livelock_inv_frame s).
Qed.

Lemma livelock_run_inv events s :
  livelock_inv s -> Forall livelock_event_ok events -> livelock_inv (livelock_run s events).
Proof.
  intros Hs Hok. apply (foldl_keeps livelock_inv); [done|]. intros s' e He Hs'.
  apply livelock_handle_inv; [done|]. by eapply Forall_elem.
Qed.

(** ** The theorems *)

(** In every run, the reverse index of the committed transactions is the
    converse of the forward one and the needs are those of the declared
    nodes; no transaction is queued for deferral twice; and every queued
    deferral names a winner with a smaller hash, carries the commitment of
    that winner, and the commitment covers a remote node that the loser
    declares. *)
Theorem livelock_invariant shard config events :
  Forall livelock_event_ok events ->
  livelock_inv (livelock_run (livelock_with_config shard config) events).
Proof.
  apply livelock_run_inv. split; simpl; [apply tracker_inv_new|done|done|constructor|constructor].
Qed.

(** C25: A reported quorum queues exactly these deferrals: one for each
    tracked transaction with a larger hash that waits for a node of the
    commitment on the reporting shard and is not queued yet, and none when
    the remote transaction has a tombstone or was reported by the shard
    before. *)
Theorem cycle_detection_exact remote shard proof s d :
  livelock_inv s ->
  d ∈ ll_pending_deferrals (on_provision_quorum_reached remote shard proof s)
  <-> d ∈ ll_pending_deferrals s
      \/ ll_deferred_tombstones s !! remote = None
         /\ ((remote, shard) ∉ ll_provision_tracker s)
         /\ exists loser, loses_to s remote shard proof loser
              /\ (loser ∉ (td_tx_hash <$> ll_pending_deferrals s))
              /\ d = cycle_deferral loser remote proof.
Proof.
  intros Hinv. unfold on_provision_quorum_reached.
  destruct (contains_key _ remote) eqn:Et; bool_to_prop.
  { destruct Et as [? Et]. rewrite Et. naive_solver. }
  simpl. case_bool_decide as Hin; simpl; [naive_solver|].
  set (s1 := _ <| ll_commitment_proofs ::= _ |>).
  assert (livelock_inv s1) as Hinv1 by by apply (livelock_inv_frame s).
  rewrite check_for_cycle_pairs, (queue_all_pending remote proof);
    [|apply lookup_insert_eq|apply Forall_forall; intros p; apply cycle_pairs_winner|apply Hinv1].
  setoid_rewrite (cycle_losers s1 remote shard proof _ Hinv1).
  change (ll_pending_deferral_hashes s1) with (ll_pending_deferral_hashes s). rewrite (li_hashes s Hinv).
  setoid_rewrite not_elem_of_list_to_set. change (loses_to s1) with (loses_to s). naive_solver.
Qed.

(** A committed block takes exactly the deferrals it carries out of the
    queue, sets the tombstones of exactly the transactions it defers, and
    ends the tracking of exactly the transactions it defers, aborts or
    completes. *)
Theorem livelock_block_commit block s :
  livelock_inv s ->
  let s' := livelock_on_block_committed block s in
  ll_pending_deferrals s'
    = List.filter (fun d => bool_decide (td_tx_hash d ∉ (td_tx_hash <$> bl_deferred block)))
        (ll_pending_deferrals s)
  /\ (forall h, ll_deferred_tombstones s' !! h
       = if decide (h ∈ td_tx_hash <$> bl_deferred block)
         then Some (ll_now s + lc_tombstone_ttl (ll_config s)) else ll_deferred_tombstones s !! h)
  /\ (forall h, ct_tx_needs (ll_committed_tracker s') !! h
       = if decide (h ∈ finished block) then None else ct_tx_needs (ll_committed_tracker s) !! h)
  /\ (forall p, p ∈ ll_provision_tracker s'
       <-> p ∈ ll_provision_tracker s /\ (p.1 ∉ finished block)).
Proof.
  intros Hinv. cbv zeta. split_and!; [by apply block_committed_pending|..].
  - intros h. apply after_loops_tombstones.
  - intros h. apply (after_loops_stopped block s).
  - intros p. apply (after_loops_stopped block s).
Qed.
End theory.

(** ** Concrete runs *)

(** Transaction 9 of shard 0 reads a node of shard 1, and transaction 3 is
    committed there with an entry of the same node. *)
Definition sample_remote_node : NodeId := 7 * 2 ^ 200.

Definition sample_declared (h : Hash) : list NodeId * list NodeId :=
  if h =? 9 then ([sample_remote_node], [1]) else ([], []).

Definition sample_local_tx : RoutableTransaction :=
  mk_routable_transaction [] [sample_remote_node] [1] None 9.

Definition sample_commitment : CommitmentProof :=
  mk_commitment_proof 3 1 SignerBitfieldOps.empty 0 5 0
    [mk_state_entry (replicate 26 0 ++ node_bytes sample_remote_node) None].

Abbreviation ll_sample_run := (@livelock_run (sample_topology_2 0) canonical_iter) (only parsing).

Definition sample_commit_first : list livelock_event :=
  [LlCommitted sample_local_tx 4; LlQuorum 3 1 sample_commitment].
Definition sample_commit_last : list livelock_event :=
  [LlQuorum 3 1 sample_commitment; LlCommitted sample_local_tx 4; LlQuorum 3 1 sample_commitment].

Lemma livelock_invariant_witness :
  livelock_inv (H := sample_topology_2 0) sample_declared (ll_sample_run (livelock_new 0) sample_commit_first)
  /\ ll_pending_deferrals (ll_sample_run (livelock_new 0) sample_commit_first)
     = [cycle_deferral 9 3 sample_commitment].
Proof.
  split; [|vm_compute; reflexivity].
  apply (@livelock_invariant (sample_topology_2 0) canonical_iter sample_declared).
  repeat constructor.
Defined.

Lemma sample_tracked_inv :
  livelock_inv (H := sample_topology_2 0) sample_declared
    (ll_sample_run (livelock_new 0) [LlCommitted sample_local_tx 4]).
Proof.
  apply livelock_run_inv; [|by repeat constructor].
  split; simpl; [apply tracker_inv_new|done|done|constructor|constructor].
Qed.

Lemma cycle_detection_exact_witness :
  cycle_deferral 9 3 sample_commitment
  ∈ ll_pending_deferrals
      (@on_provision_quorum_reached canonical_iter 3 1 sample_commitment
         (ll_sample_run (livelock_new 0) [LlCommitted sample_local_tx 4])).
Proof.
  apply (@cycle_detection_exact (sample_topology_2 0) canonical_iter sample_declared 3 1
           sample_commitment _ _ sample_tracked_inv).
  right. split_and!; [vm_compute; reflexivity|apply (bool_decide_unpack _); vm_compute; reflexivity|].
  exists 9. split_and!; [|apply (bool_decide_unpack _); vm_compute; reflexivity|reflexivity].
  split_and!; [vm_compute; by eexists|reflexivity|].
  exists sample_remote_node. split; [|apply (bool_decide_unpack _); vm_compute; reflexivity].
  split_and!; [apply (bool_decide_unpack _); vm_compute; reflexivity|vm_compute; reflexivity
              |vm_compute; discriminate].
Defined.

Definition sample_finishing_block : Block :=
  mk_block (bl_header (genesis_block QC.genesis)) [] [] [] []
    [cycle_deferral 9 3 sample_commitment] [] ∅.

Lemma livelock_block_commit_witness :
  let s' := livelock_on_block_committed sample_finishing_block
              (ll_sample_run (livelock_new 0) [LlCommitted sample_local_tx 4]) in
  ll_deferred_tombstones s' !! 9 = Some (from_secs 30)
  /\ ct_tx_needs (ll_committed_tracker s') !! 9 = None.
Proof.
  destruct (@livelock_block_commit (sample_topology_2 0) sample_declared sample_finishing_block
              (ll_sample_run (livelock_new 0) [LlCommitted sample_local_tx 4]) sample_tracked_inv)
    as (_ & Htomb & Hneeds & _).
  split; [exact (Htomb 9)|exact (Hneeds 9)].
Defined.

(** The same three events queue the deferral when the commit comes first. *)
Lemma late_commit_misses_cycle_witness :
  length (ll_pending_deferrals (ll_sample_run (livelock_new 0) sample_commit_first)) = 1%nat
  /\ forall d, d ∈ ll_pending_deferrals (ll_sample_run (livelock_new 0) sample_commit_last) ->
       winner_hash d = 3 -> d ∈ ([] : list TransactionDefer).
Proof.
  split; [vm_compute; reflexivity|].
  apply (@late_commit_misses_cycle (sample_topology_2 0) canonical_iter 3 1
           (ll_sample_run (livelock_new 0) [LlQuorum 3 1 sample_commitment])
           [LlCommitted sample_local_tx 4; LlQuorum 3 1 sample_commitment]).
  - apply (bool_decide_unpack _). vm_compute. reflexivity.
  - repeat constructor.
Defined.
