(* ===== verification/VoteSet.v ===== *)
(** * Vote collection (crates/bft/src/vote_set.rs)

    A [VoteSet] buffers the votes for one block: verified votes with their
    total power, and unverified ones that wait for a batch verification.  The
    operations are translated one by one; a boolean result is the second
    component of a pair. *)

From stdpp Require Import base gmap list numbers.
From Stdlib Require Import NArith Lia.
From S2P Require Import Prelude Bitfield Types.

(** (committee index, vote, power) and (committee index, vote, key, power). *)
Abbreviation VerifiedVote := (usize * BlockVote * u64)%type (only parsing).
Abbreviation UnverifiedVote := (usize * BlockVote * Bls12381G1PublicKey * u64)%type (only parsing).

Definition u128_modulus : N := 2 ^ 128.
(** [sum += vote.timestamp as u128 * power as u128]. *)
Definition add_weight (sum : N) (vote : BlockVote) (power : u64) : N :=
  (sum + bv_timestamp vote * power) mod u128_modulus.

Record VoteSet := mk_vote_set {
  vs_block_hash : option Hash;
  vs_height : option BlockHeight;
  vs_round : option u64;
  vs_parent_block_hash : option Hash;
  vs_verified_votes : list VerifiedVote;
  vs_verified_power : u64;
  vs_verified_timestamp_weight_sum : N;
  vs_unverified_votes : list UnverifiedVote;
  vs_unverified_power : u64;
  vs_seen_validators : list bool;
  vs_pending_verification : bool;
  vs_qc_built : bool
}.

#[export] Instance VoteSet_eta : Eta VoteSet := fun r =>
  mk_vote_set (vs_block_hash r) (vs_height r) (vs_round r) (vs_parent_block_hash r)
    (vs_verified_votes r) (vs_verified_power r) (vs_verified_timestamp_weight_sum r)
    (vs_unverified_votes r) (vs_unverified_power r) (vs_seen_validators r)
    (vs_pending_verification r) (vs_qc_built r).

Module VoteSetOps.
Definition new `{Crypto} (header : option BlockHeader) (num_validators : usize) : VoteSet := {|
  vs_block_hash := header_hash <$> header;
  vs_height := bh_height <$> header;
  vs_round := bh_round <$> header;
  vs_parent_block_hash := bh_parent_hash <$> header;
  vs_verified_votes := [];
  vs_verified_power := 0;
  vs_verified_timestamp_weight_sum := 0;
  vs_unverified_votes := [];
  vs_unverified_power := 0;
  vs_seen_validators := replicate num_validators false;
  vs_pending_verification := false;
  vs_qc_built := false
|}.

Definition has_seen_validator (vs : VoteSet) (committee_index : usize) : bool :=
  match vs_seen_validators vs !! committee_index with Some b => b | None => false end.

Definition or_set {A} (o : option A) (a : A) : option A :=
  match o with Some x => Some x | None => Some a end.

Definition set_header `{Crypto} (vs : VoteSet) (header : BlockHeader) : VoteSet :=
  vs <| vs_height ::= fun o => or_set o (bh_height header) |>
     <| vs_round ::= fun o => or_set o (bh_round header) |>
     <| vs_parent_block_hash ::= fun o => or_set o (bh_parent_hash header) |>
     <| vs_block_hash ::= fun o => or_set o (header_hash header) |>.

(** "Update block hash, height, and round from first vote if not set." *)
Definition note_first_vote (vs : VoteSet) (vote : BlockVote) : VoteSet :=
  match vs_block_hash vs with
  | Some _ => vs
  | None =>
      vs <| vs_block_hash := Some (bv_block_hash vote) |>
         <| vs_height := Some (bv_height vote) |>
         <| vs_round := Some (bv_round vote) |>
  end.

(** [seen_validators[i] = true] when [i] is in range. *)
Definition mark_seen (vs : VoteSet) (committee_index : usize) : VoteSet :=
  vs <| vs_seen_validators ::= fun l => <[committee_index := true]> l |>.

Definition buffer_unverified_vote (vs : VoteSet) (committee_index : usize) (vote : BlockVote)
    (public_key : Bls12381G1PublicKey) (voting_power : u64) : VoteSet * bool :=
  if has_seen_validator vs committee_index then (vs, false)
  else
    (mark_seen (note_first_vote vs vote) committee_index
       <| vs_unverified_power ::= fun p => p +w voting_power |>
       <| vs_unverified_votes ::= fun l => l ++ [(committee_index, vote, public_key, voting_power)] |>,
     true).

Definition should_trigger_verification (vs : VoteSet) (total_committee_power : u64) : bool :=
  negb (vs_pending_verification vs)
  && negb (vs_qc_built vs)
  && negb (Nat.eqb (length (vs_unverified_votes vs)) 0)
  && match vs_parent_block_hash vs with Some _ => true | None => false end
  && VotePower.has_quorum (vs_verified_power vs +w vs_unverified_power vs) total_committee_power.

Definition take_unverified_votes (vs : VoteSet) : VoteSet * list UnverifiedVote :=
  (vs <| vs_pending_verification := true |>
      <| vs_unverified_power := 0 |>
      <| vs_unverified_votes := [] |>,
   vs_unverified_votes vs).

Definition get_verified_votes (vs : VoteSet) : list VerifiedVote := vs_verified_votes vs.

Definition verification_data (vs : VoteSet) : option (Hash * BlockHeight * u64 * Hash) :=
  match vs_block_hash vs, vs_height vs, vs_parent_block_hash vs with
  | Some bh, Some h, Some ph => Some (bh, h, default 0 (vs_round vs), ph)
  | _, _, _ => None
  end.

Definition on_qc_built (vs : VoteSet) : VoteSet :=
  vs <| vs_qc_built := true |> <| vs_pending_verification := false |>.

(** Accumulate one verified vote. *)
Definition push_verified (vs : VoteSet) (v : VerifiedVote) : VoteSet :=
  let '(committee_index, vote, voting_power) := v in
  vs <| vs_verified_timestamp_weight_sum ::= fun w => add_weight w vote voting_power |>
     <| vs_verified_power ::= fun p => p +w voting_power |>
     <| vs_verified_votes ::= fun l => l ++ [v] |>.

Definition on_votes_verified (vs : VoteSet) (verified_votes : list VerifiedVote) : VoteSet :=
  foldl push_verified (vs <| vs_pending_verification := false |>) verified_votes.

Definition add_verified_vote (vs : VoteSet) (committee_index : usize) (vote : BlockVote)
    (voting_power : u64) : VoteSet * bool :=
  if has_seen_validator vs committee_index then (vs, false)
  else (push_verified (mark_seen (note_first_vote vs vote) committee_index)
          (committee_index, vote, voting_power), true).

#[global] Arguments note_first_vote : simpl never.
#[global] Arguments has_seen_validator : simpl never.
#[global] Arguments add_weight : simpl never.

(** ** Projections of the vote tuples *)

Definition v_index (v : VerifiedVote) : usize := v.1.1.
Definition v_vote (v : VerifiedVote) : BlockVote := v.1.2.
Definition v_power (v : VerifiedVote) : u64 := v.2.
Definition u_index (u : UnverifiedVote) : usize := u.1.1.1.
Definition u_vote (u : UnverifiedVote) : BlockVote := u.1.1.2.
Definition u_key (u : UnverifiedVote) : Bls12381G1PublicKey := u.1.2.
Definition u_power (u : UnverifiedVote) : u64 := u.2.

(** What the set holds, by committee index. *)
Definition indices (vs : VoteSet) : list usize :=
  (v_index <$> vs_verified_votes vs) ++ (u_index <$> vs_unverified_votes vs).

(** ** Invariant *)

Record wf (n : usize) (vs : VoteSet) : Prop := {
  wf_seen_length : length (vs_seen_validators vs) = n;
  wf_verified_power : vs_verified_power vs = wsum (v_power <$> vs_verified_votes vs);
  wf_unverified_power : vs_unverified_power vs = wsum (u_power <$> vs_unverified_votes vs);
  wf_weight : vs_verified_timestamp_weight_sum vs
    = foldl (fun w v => add_weight w (v_vote v) (v_power v)) 0 (vs_verified_votes vs);
  wf_seen : forall i, i ∈ indices vs -> has_seen_validator vs i = true
}.

Lemma has_seen_lt vs i :
  has_seen_validator vs i = true -> (i < length (vs_seen_validators vs))%nat.
Proof.
  unfold has_seen_validator. destruct (vs_seen_validators vs !! i) eqn:E; [|done].
  intros _. by apply lookup_lt_Some in E.
Qed.

Lemma has_seen_mark vs i j :
  has_seen_validator (mark_seen vs i) j
  = (bool_decide (i = j) && Nat.ltb i (length (vs_seen_validators vs))) || has_seen_validator vs j.
Proof.
  unfold has_seen_validator. change (vs_seen_validators (mark_seen vs i)) with
    (<[i := true]> (vs_seen_validators vs)).
  destruct (Nat.ltb_spec i (length (vs_seen_validators vs))) as [Hlt|Hge].
  - destruct (bool_decide_reflect (i = j)) as [->|Hne].
    + rewrite list_lookup_insert_eq by done. done.
    + rewrite list_lookup_insert_ne by done. done.
  - rewrite list_insert_ge by lia. by rewrite andb_false_r.
Qed.

Lemma note_first_vote_frame vs vote :
  vs_verified_votes (note_first_vote vs vote) = vs_verified_votes vs /\
  vs_unverified_votes (note_first_vote vs vote) = vs_unverified_votes vs /\
  vs_verified_power (note_first_vote vs vote) = vs_verified_power vs /\
  vs_unverified_power (note_first_vote vs vote) = vs_unverified_power vs /\
  vs_verified_timestamp_weight_sum (note_first_vote vs vote)
    = vs_verified_timestamp_weight_sum vs /\
  vs_seen_validators (note_first_vote vs vote) = vs_seen_validators vs.
Proof. unfold note_first_vote. by destruct (vs_block_hash vs). Qed.

Lemma vote_set_new_wf `{Crypto} header n : wf n (new header n).
Proof. split; try done; cbn; [by rewrite length_replicate|set_solver]. Qed.

Lemma set_header_wf `{Crypto} n vs header : wf n vs -> wf n (set_header vs header).
Proof. by intros []; split. Qed.

Lemma on_qc_built_wf n vs : wf n vs -> wf n (on_qc_built vs).
Proof. by intros []; split. Qed.

Lemma take_wf n vs : wf n vs -> wf n (take_unverified_votes vs).1.
Proof.
  intros [H1 H2 H3 H4 H5]; split; try done.
  intros i Hi. apply H5. unfold indices in *. cbn in Hi. set_solver.
Qed.

(** The set of seen validators after a vote is recorded. *)
Lemma seen_after n vs i vote j :
  (i < n)%nat -> wf n vs -> j ∈ indices vs \/ j = i ->
  has_seen_validator (mark_seen (note_first_vote vs vote) i) j = true.
Proof.
  intros Hi [H1 _ _ _ H5] Hj.
  destruct (note_first_vote_frame vs vote) as (_ & _ & _ & _ & _ & E6).
  rewrite has_seen_mark, E6, H1.
  replace (has_seen_validator (note_first_vote vs vote) j) with (has_seen_validator vs j)
    by (unfold has_seen_validator; by rewrite E6).
  destruct Hj as [Hj| ->]; [by rewrite (H5 j), orb_true_r|].
  by rewrite bool_decide_true, (proj2 (Nat.ltb_lt i n)).
Qed.

Lemma buffer_wf n vs i vote pk p :
  (i < n)%nat -> wf n vs -> wf n (buffer_unverified_vote vs i vote pk p).1.
Proof.
  intros Hi Hwf. unfold buffer_unverified_vote.
  destruct (has_seen_validator vs i); [done|]. cbn [fst].
  destruct (note_first_vote_frame vs vote) as (E1 & E2 & E3 & E4 & E5 & E6).
  pose proof (seen_after n vs i vote) as Hseen.
  destruct Hwf as [H1 H2 H3 H4 H5] eqn:Hw.
  split; cbn; rewrite ?E1, ?E2, ?E3, ?E4, ?E5, ?E6, ?fmap_app, ?wsum_snoc; try done.
  - by rewrite length_insert.
  - cbn. by rewrite wsum_snoc, H3.
  - intros j. unfold indices. cbn. rewrite ?E1, ?E2, ?fmap_app, !elem_of_app, list_elem_of_singleton.
    intros Hj. apply Hseen; [done..|]. unfold indices. rewrite elem_of_app. tauto.
Qed.

Lemma add_verified_wf n vs i vote p :
  (i < n)%nat -> wf n vs -> wf n (add_verified_vote vs i vote p).1.
Proof.
  intros Hi Hwf. unfold add_verified_vote.
  destruct (has_seen_validator vs i); [done|]. cbn [fst].
  destruct (note_first_vote_frame vs vote) as (E1 & E2 & E3 & E4 & E5 & E6).
  pose proof (seen_after n vs i vote) as Hseen.
  destruct Hwf as [H1 H2 H3 H4 H5] eqn:Hw.
  split; cbn; rewrite ?E1, ?E2, ?E3, ?E4, ?E5, ?E6, ?fmap_app, ?wsum_snoc, ?foldl_app; try done.
  - by rewrite length_insert.
  - by rewrite H2.
  - by rewrite H4.
  - intros j. unfold indices. cbn. rewrite ?E1, ?E2, ?fmap_app, !elem_of_app, list_elem_of_singleton.
    intros Hj. apply Hseen; [done..|]. unfold indices. rewrite elem_of_app. tauto.
Qed.

(** A batch of verified votes whose validators have been seen. *)
Lemma push_all_wf n vs votes :
  wf n vs -> Forall (fun v => has_seen_validator vs (v_index v) = true) votes ->
  wf n (foldl push_verified vs votes).
Proof.
  revert vs.
  induction votes as [|[[i vote] p] votes IH]; intros vs Hwf Hv; [done|]. cbn [foldl].
  inv Hv as [|?? Hi Hv']. apply IH; [|done].
  destruct Hwf as [H1 H2 H3 H4 H5].
  split; cbn; rewrite ?fmap_app, ?foldl_app; try done.
  - by rewrite H2.
  - by rewrite H4.
  - intros j. unfold indices. cbn. rewrite ?fmap_app, !elem_of_app. cbn.
    rewrite list_elem_of_singleton. intros [[Hj| ->]|Hj]; [|done|];
      apply H5; unfold indices; rewrite elem_of_app; tauto.
Qed.

Lemma on_votes_verified_wf n vs votes :
  wf n vs -> Forall (fun v => has_seen_validator vs (v_index v) = true) votes ->
  wf n (on_votes_verified vs votes).
Proof. intros [] Hv. apply push_all_wf; [by split|done]. Qed.
End VoteSetOps.
