(* ===== verification/Core.v ===== *)
(** * Actions, events and messages (crates/core/src)

    The state machines communicate with the runner, and with each other,
    through [Action] and [Event].  The types carry the constructors of the
    modelled components: consensus, mempool, provisions, execution and
    livelock prevention.  The events of global consensus and epochs, which the
    node only logs, are left out. *)

From stdpp Require Import base gmap list numbers.
From S2P Require Import Prelude Bitfield Types VoteSet.

Inductive TimerId := ProposalTimer | CleanupTimer | GlobalConsensusTimer.

(** ** Events (event.rs)

    Inputs of the node: timers, network messages, results of delegated work,
    and the internal events the components enqueue for each other. *)
Inductive Event :=
  | ProposalTimerFired
  | CleanupTimerFired
  | BlockHeaderReceived (gossip : BlockHeaderGossip)
  | BlockVoteReceived (vote : BlockVote)
  | StateProvisionReceived (provision : StateProvision)
  | StateVoteReceived (vote : StateVoteBlock)
  | StateCertificateReceived (cert : StateCertificate)
  | TransactionCertificateReceived (certificate : TransactionCertificate)
  | TransactionGossipReceived (tx : RoutableTransaction)
  | QuorumCertificateFormed (block_hash : Hash) (qc : QuorumCertificate)
  | BlockReadyToCommit (block_hash : Hash) (qc : QuorumCertificate)
  | BlockCommitted (block_hash : Hash) (height : u64) (block : Block)
  | TransactionExecuted (tx_hash : Hash) (accepted : bool)
  | TransactionStatusChanged (tx_hash : Hash) (status : TransactionStatus)
  | QuorumCertificateResult (block_hash : Hash) (qc : option QuorumCertificate)
      (verified_votes : list VerifiedVote)
  | ProvisionsVerifiedAndAggregated (tx_hash : Hash) (source_shard : ShardGroupId)
      (verified_provisions : list StateProvision) (commitment_proof : option CommitmentProof)
  | StateCertificateAggregated (tx_hash : Hash) (certificate : StateCertificate)
  | StateVotesVerifiedAndAggregated (tx_hash : Hash) (verified_votes : list (StateVoteBlock * u64))
  | StateCertificateSignatureVerified (certificate : StateCertificate) (valid : bool)
  | QcSignatureVerified (block_hash : Hash) (valid : bool)
  | CycleProofVerified (block_hash : Hash) (deferral_index : usize) (valid : bool)
  | StateRootVerified (block_hash : Hash) (valid : bool)
  | TransactionRootVerified (block_hash : Hash) (valid : bool)
  | ProposalBuilt (height : BlockHeight) (round : u64) (block : Block) (block_hash : Hash)
  | StateCommitComplete (height state_version : u64) (state_root : Hash)
  | TransactionsExecuted (block_hash : Hash) (results : list ExecutionResult)
  | SpeculativeExecutionComplete (block_hash : Hash) (tx_hashes : list Hash)
  | CrossShardTransactionsExecuted (results : list ExecutionResult)
  | MerkleRootComputed (tx_hash root : Hash)
  | ProvisionQuorumReached (tx_hash : Hash) (source_shard : ShardGroupId)
      (commitment_proof : CommitmentProof)
  | ProvisioningComplete (tx_hash : Hash) (provisions : list StateProvision)
  | CrossShardTxRegistered (tx_hash : Hash) (required_shards : list ShardGroupId)
      (quorum_thresholds : gmap ShardGroupId usize) (committed_height : BlockHeight)
  | CrossShardTxCompleted (tx_hash : Hash)
  | CrossShardTxAborted (tx_hash : Hash)
  | StateEntriesFetched (tx_hash : Hash) (entries : list StateEntry)
  | BlockFetched (height : BlockHeight) (block : option Block)
  | ChainMetadataFetched (height : BlockHeight) (hash : option Hash) (qc : option QuorumCertificate)
  | SubmitTransaction (tx : RoutableTransaction)
  | SyncBlockReceived (block : Block) (qc : QuorumCertificate)
  | SyncBlockReadyToApply (block : Block) (qc : QuorumCertificate)
  | SyncComplete (height : u64)
  | TransactionReceived (block_hash : Hash) (transactions : list RoutableTransaction)
  | CertificateReceived (block_hash : Hash) (certificates : list TransactionCertificate)
  | FetchedCertificateVerified (block_hash : Hash) (certificate : TransactionCertificate)
  | GossipedCertificateSignatureVerified (tx_hash : Hash) (shard : ShardGroupId) (valid : bool)
  | GossipedCertificateVerified (certificate : TransactionCertificate).

Inductive EventPriority := Internal | Timer | Network | Client.

#[export] Instance EventPriority_eq_dec : EqDecision EventPriority.
Proof. solve_decision. Defined.

(** Consequences of earlier events go before new inputs at the same time. *)
Definition event_priority (e : Event) : EventPriority :=
  match e with
  | ProposalTimerFired | CleanupTimerFired => Timer
  | BlockHeaderReceived _ | BlockVoteReceived _ | StateProvisionReceived _ | StateVoteReceived _
  | StateCertificateReceived _ | TransactionGossipReceived _ | SyncBlockReceived _ _
  | TransactionReceived _ _ | CertificateReceived _ _ | TransactionCertificateReceived _ => Network
  | SubmitTransaction _ => Client
  | _ => Internal
  end.

Definition event_is_internal (e : Event) : bool := bool_decide (event_priority e = Internal).
Definition event_is_network (e : Event) : bool := bool_decide (event_priority e = Network).
Definition event_is_client (e : Event) : bool := bool_decide (event_priority e = Client).

(** ** Messages (message.rs) *)

Inductive OutboundMessage :=
  | BlockHeaderMessage (gossip : BlockHeaderGossip)
  | BlockVoteMessage (vote : BlockVote)
  | TransactionGossipMessage (tx : RoutableTransaction).

(** ** Actions (action.rs) *)

Inductive Action :=
  | BroadcastToShard (shard : ShardGroupId) (message : OutboundMessage)
  | BroadcastGlobal (message : OutboundMessage)
  | BroadcastStateVote (shard : ShardGroupId) (vote : StateVoteBlock)
  | BroadcastStateCertificate (shard : ShardGroupId) (certificate : StateCertificate)
  | BroadcastStateProvision (shard : ShardGroupId) (provision : StateProvision)
  | SetTimer (id : TimerId) (duration : Duration)
  | CancelTimer (id : TimerId)
  | EnqueueInternal (event : Event)
  | VerifyAndBuildQuorumCertificate (block_hash : Hash) (height : BlockHeight) (round : u64)
      (parent_block_hash : Hash) (signing_message : bytes)
      (votes_to_verify : list UnverifiedVote) (verified_votes : list VerifiedVote)
      (total_voting_power : u64)
  | VerifyAndAggregateProvisions (tx_hash : Hash) (source_shard : ShardGroupId)
      (block_height : BlockHeight) (block_timestamp : u64) (entries : list StateEntry)
      (provisions : list StateProvision) (public_keys : list Bls12381G1PublicKey)
      (committee_size : usize)
  | AggregateStateCertificate (tx_hash : Hash) (shard : ShardGroupId) (merkle_root : Hash)
      (votes : list StateVoteBlock) (read_nodes : list NodeId) (voting_power : u64)
      (committee_size : usize)
  | VerifyAndAggregateStateVotes (tx_hash : Hash)
      (votes : list (StateVoteBlock * Bls12381G1PublicKey * u64))
  | VerifyStateCertificateSignature (certificate : StateCertificate)
      (public_keys : list Bls12381G1PublicKey)
  | VerifyQcSignature (qc : QuorumCertificate) (public_keys : list Bls12381G1PublicKey)
      (block_hash : Hash) (signing_message : bytes)
  | VerifyCycleProof (block_hash : Hash) (deferral_index : usize) (cycle_proof : CycleProof)
      (public_keys : list Bls12381G1PublicKey) (signing_message : bytes) (quorum_threshold : u64)
  | VerifyStateRoot (block_hash parent_state_root expected_root : Hash)
      (certificates : list TransactionCertificate)
  | VerifyTransactionRoot (block_hash expected_root : Hash)
      (retry_transactions priority_transactions transactions : list RoutableTransaction)
  | BuildProposal (proposer : ValidatorId) (height : BlockHeight) (round : u64)
      (parent_hash : Hash) (parent_qc : QuorumCertificate) (timestamp : u64) (is_fallback : bool)
      (parent_state_root : Hash) (parent_state_version : u64)
      (retry_transactions priority_transactions transactions : list RoutableTransaction)
      (certificates : list TransactionCertificate) (commitment_proofs : gmap Hash CommitmentProof)
      (deferred : list TransactionDefer) (aborted : list TransactionAbort)
  | ExecuteTransactions (block_hash : Hash) (transactions : list RoutableTransaction)
      (state_root : Hash)
  | SpeculativeExecute (block_hash : Hash) (transactions : list RoutableTransaction)
  | ExecuteCrossShardTransaction (tx_hash : Hash) (transaction : RoutableTransaction)
      (provisions : list StateProvision)
  | ComputeMerkleRoot (tx_hash : Hash) (writes : list (NodeId * bytes))
  | EmitCommittedBlock (block : Block)
  | EmitTransactionStatus (tx_hash : Hash) (status : TransactionStatus) (added_at : Duration)
      (cross_shard submitted_locally : bool)
  | PersistBlock (block : Block) (qc : QuorumCertificate)
  | PersistAndBroadcastVote (height : BlockHeight) (round : u64) (block_hash : Hash)
      (shard : ShardGroupId) (message : OutboundMessage)
  | PersistTransactionCertificate (certificate : TransactionCertificate)
  | FetchStateEntries (tx_hash : Hash) (nodes : list NodeId)
  | FetchBlock (height : BlockHeight)
  | FetchChainMetadata
  | StartSync (target_height : u64) (target_hash : Hash)
  | FetchTransactions (block_hash : Hash) (proposer : ValidatorId) (tx_hashes : list Hash)
  | FetchCertificates (block_hash : Hash) (proposer : ValidatorId) (cert_hashes : list Hash)
  | CancelFetch (block_hash : Hash).

Definition is_async (a : Action) : bool :=
  match a with
  | BroadcastToShard _ _ | BroadcastGlobal _ | BroadcastStateVote _ _ | BroadcastStateCertificate _ _
  | BroadcastStateProvision _ _ | PersistBlock _ _ | PersistAndBroadcastVote _ _ _ _ _
  | PersistTransactionCertificate _ => true
  | _ => false
  end.

Definition is_delegated (a : Action) : bool :=
  match a with
  | VerifyAndBuildQuorumCertificate _ _ _ _ _ _ _ _ | VerifyAndAggregateProvisions _ _ _ _ _ _ _ _
  | AggregateStateCertificate _ _ _ _ _ _ _ | VerifyAndAggregateStateVotes _ _
  | VerifyStateCertificateSignature _ _ | VerifyQcSignature _ _ _ _ | VerifyCycleProof _ _ _ _ _ _
  | VerifyStateRoot _ _ _ _ | VerifyTransactionRoot _ _ _ _ _
  | BuildProposal _ _ _ _ _ _ _ _ _ _ _ _ _ _ _ _
  | ExecuteTransactions _ _ _ | SpeculativeExecute _ _ | ExecuteCrossShardTransaction _ _ _
  | ComputeMerkleRoot _ _ | FetchStateEntries _ _ | FetchBlock _ | FetchChainMetadata => true
  | _ => false
  end.

Definition is_internal (a : Action) : bool :=
  match a with EnqueueInternal _ => true | _ => false end.
