(* ===== verification/Runner.v ===== *)
(** * Delegated work of the runner (crates/production/src/runner.rs, types/src/crypto.rs)

    The state machine hands signature checks, certificate building, root
    verification and block building to the runner; each is a pure function from
    the fields of the [Action] to the fields of the event sent back (the
    simulation's runner has the same bodies).  The storage engine is the record
    [JmtStore] of the two queries these bodies make. *)

From stdpp Require Import base gmap list numbers sorting.
From Stdlib Require Import NArith Lia.
From S2P Require Import Prelude Bitfield Types Encoding Merkle Topology VoteSet.

Import VoteSetOps.

Section runner.
Context `{Crypto}.

(** ** Signatures *)

Definition batch_verify_bls_same_message (message : bytes) (signatures : list Bls12381G2Signature)
    (pubkeys : list Bls12381G1PublicKey) : bool :=
  if negb (Nat.eqb (length signatures) (length pubkeys)) then false
  else if Nat.eqb (length signatures) 0 then true
  else
    match aggregate_signatures signatures with
    | None => false
    | Some agg_sig =>
        match aggregate_public_keys pubkeys with
        | None => false
        | Some agg_pk => verify_bls12381_v1 message agg_pk agg_sig
        end
    end.

(** ** VerifyAndBuildQuorumCertificate *)

Definition index_le (v w : VerifiedVote) : Prop := (v_index v <= v_index w)%nat.

#[global] Instance index_le_dec v w : Decision (index_le v w).
Proof. unfold index_le. apply _. Defined.

Definition to_verified (u : UnverifiedVote) : VerifiedVote := (u_index u, u_vote u, u_power u).

(** The votes that pass: the whole batch, or those that verify one by one. *)
Definition verified_of_batch (signing_message : bytes) (votes_to_verify : list UnverifiedVote)
    : list VerifiedVote :=
  let batch_valid :=
    if Nat.eqb (length votes_to_verify) 0 then true
    else batch_verify_bls_same_message signing_message
           ((fun u => bv_signature (u_vote u)) <$> votes_to_verify) (u_key <$> votes_to_verify) in
  if batch_valid then to_verified <$> votes_to_verify
  else to_verified <$> filter (fun u =>
         verify_bls12381_v1 signing_message (u_key u) (bv_signature (u_vote u)) = true)
         votes_to_verify.

(** [SignerBitfield::new(max_idx + 1)] and [signers.set(idx)] for each vote;
    [None] is the panic of [set]. *)
Definition build_signers (sorted_votes : list VerifiedVote) : option SignerBitfield :=
  let max_idx := foldr Nat.max 0%nat (v_index <$> sorted_votes) in
  SignerBitfieldOps.set_all (SignerBitfieldOps.new (max_idx + 1)) (v_index <$> sorted_votes).

Definition weighted_timestamp (sorted_votes : list VerifiedVote) (verified_power : u64) : u64 :=
  let timestamp_weight_sum :=
    foldl (fun w v => add_weight w (v_vote v) (v_power v)) 0 sorted_votes in
  if verified_power =? 0 then 0 else as_u64 (timestamp_weight_sum / verified_power).

(** The event [QuorumCertificateResult]: the certificate, or the verified
    votes.  The outer [None] is a panic. *)
Definition verify_and_build_quorum_certificate (block_hash : Hash) (height : BlockHeight)
    (round : u64) (parent_block_hash : Hash) (signing_message : bytes)
    (votes_to_verify : list UnverifiedVote) (already_verified : list VerifiedVote)
    (total_voting_power : u64) : option (option QuorumCertificate * list VerifiedVote) :=
  let all_verified := already_verified ++ verified_of_batch signing_message votes_to_verify in
  let all_signatures := (fun v => bv_signature (v_vote v)) <$> all_verified in
  let verified_power := wsum (v_power <$> all_verified) in
  if VotePower.has_quorum verified_power total_voting_power
     && negb (Nat.eqb (length all_signatures) 0)
  then
    match aggregate_signatures all_signatures with
    | Some aggregated_signature =>
        let sorted_votes := merge_sort index_le all_verified in
        match build_signers sorted_votes with
        | Some signers =>
            Some (Some {|
              qc_block_hash := block_hash;
              qc_height := height;
              qc_parent_block_hash := parent_block_hash;
              qc_round := round;
              qc_signers := signers;
              qc_aggregated_signature := aggregated_signature;
              qc_voting_power := verified_power;
              qc_weighted_timestamp_ms := weighted_timestamp sorted_votes verified_power
            |}, [])
        | None => None
        end
    | None => Some (None, all_verified)
    end
  else Some (None, all_verified).

(** ** VerifyQcSignature *)

Definition qc_signer_keys (qc : QuorumCertificate) (public_keys : list Bls12381G1PublicKey)
    : list Bls12381G1PublicKey :=
  snd <$> filter (fun '(i, _) => SignerBitfieldOps.is_set (qc_signers qc) i = true)
            (zip (seq 0 (length public_keys)) public_keys).

Definition verify_qc_signature (qc : QuorumCertificate) (public_keys : list Bls12381G1PublicKey)
    (signing_message : bytes) : bool :=
  let signer_keys := qc_signer_keys qc public_keys in
  if Nat.eqb (length signer_keys) 0 then false
  else match aggregate_public_keys signer_keys with
       | Some aggregated_pk =>
           verify_bls12381_v1 signing_message aggregated_pk (qc_aggregated_signature qc)
       | None => false
       end.

(** ** VerifyCycleProof *)

Definition verify_cycle_proof (cycle_proof : CycleProof) (public_keys : list Bls12381G1PublicKey)
    (signing_message : bytes) (quorum_threshold : u64) : bool :=
  if Nat.eqb (length public_keys) 0 then false
  else
    match aggregate_public_keys public_keys with
    | Some aggregated_pk =>
        verify_bls12381_v1 signing_message aggregated_pk
          (cp_aggregated_signature (cyp_winner_commitment cycle_proof))
    | None => false
    end
    && (quorum_threshold
        <=? N.of_nat (commitment_signer_count (cyp_winner_commitment cycle_proof))).

(** ** VerifyTransactionRoot *)

Definition verify_transaction_root (expected_root : Hash)
    (retry_transactions priority_transactions transactions : list RoutableTransaction) : bool :=
  compute_transaction_root retry_transactions priority_transactions transactions =? expected_root.

(** ** VerifyStateRoot and BuildProposal *)

(** The Jellyfish Merkle tree of the storage engine, as the runner queries it. *)
Record JmtStore := mk_jmt_store {
  current_jmt_root : Hash;
  compute_speculative_root_from_base : Hash -> list (list SubstateWrite) -> Hash
}.

Definition writes_per_cert (local_shard : ShardGroupId) (certificates : list TransactionCertificate)
    : list (list SubstateWrite) :=
  (fun cert => match tc_shard_proofs cert !! local_shard with
               | Some proof => sc_state_writes proof
               | None => []
               end) <$> certificates.

Definition verify_state_root (storage : JmtStore) (local_shard : ShardGroupId)
    (parent_state_root expected_root : Hash) (certificates : list TransactionCertificate) : bool :=
  compute_speculative_root_from_base storage parent_state_root
    (writes_per_cert local_shard certificates) =? expected_root.

(** The block and its hash, the event [ProposalBuilt]. *)
Definition build_proposal (storage : JmtStore) (local_shard : ShardGroupId)
    (proposer : ValidatorId) (height : BlockHeight) (round : u64) (parent_hash : Hash)
    (parent_qc : QuorumCertificate) (timestamp : u64) (is_fallback : bool)
    (parent_state_root : Hash) (parent_state_version : u64)
    (retry_transactions priority_transactions transactions : list RoutableTransaction)
    (certificates : list TransactionCertificate) (commitment_proofs : gmap Hash CommitmentProof)
    (deferred : list TransactionDefer) (aborted : list TransactionAbort) : Block * Hash :=
  let jmt_ready := current_jmt_root storage =? parent_state_root in
  let include_certs := jmt_ready && negb (Nat.eqb (length certificates) 0) in
  let '(state_root, state_version, certs_to_include) :=
    if include_certs then
      (compute_speculative_root_from_base storage parent_state_root
         (writes_per_cert local_shard certificates),
       parent_state_version +w N.of_nat (length certificates), certificates)
    else (parent_state_root, parent_state_version, []) in
  let header := {|
    bh_height := height;
    bh_parent_hash := parent_hash;
    bh_parent_qc := parent_qc;
    bh_proposer := proposer;
    bh_timestamp := timestamp;
    bh_round := round;
    bh_is_fallback := is_fallback;
    bh_state_root := state_root;
    bh_state_version := state_version;
    bh_transaction_root :=
      compute_transaction_root retry_transactions priority_transactions transactions
  |} in
  let block := {|
    bl_header := header;
    bl_retry_transactions := retry_transactions;
    bl_priority_transactions := priority_transactions;
    bl_transactions := transactions;
    bl_certificates := certs_to_include;
    bl_deferred := deferred;
    bl_aborted := aborted;
    bl_commitment_proofs := commitment_proofs
  |} in
  (block, block_hash block).
End runner.
