(* ===== verification/QcTheory.v ===== *)
(** * Quorum certificates are what they say

    Theorems about [verify_and_build_quorum_certificate]: which certificate it
    builds, from which votes, with which power and timestamp, and what two such
    certificates have in common. *)

From stdpp Require Import base gmap list numbers sorting.
From Stdlib Require Import NArith Lia.
From S2P Require Import Prelude Bitfield Types Encoding Merkle Topology VoteSet Runner.

Import VoteSetOps.

Section building.
Context `{Crypto}.
Implicit Types (v : VerifiedVote) (l : list VerifiedVote).

(** ** The signer bits *)

Lemma foldr_max_le (x : nat) (l : list nat) : x ∈ l -> (x <= foldr Nat.max 0 l)%nat.
Proof. induction 1; simpl; lia. Qed.

Lemma build_signers_spec l :
  exists bf, build_signers l = Some bf /\ SignerBitfieldOps.wf bf /\
    SignerBitfieldOps.signers bf = list_to_set (v_index <$> l).
Proof.
  unfold build_signers. set (n := (foldr Nat.max 0 (v_index <$> l) + 1)%nat).
  destruct (SignerBitfieldOps.set_all_spec (v_index <$> l) (SignerBitfieldOps.new n))
    as (bf & Hbf & Hwf & _ & Hs).
  - apply SignerBitfieldOps.new_wf.
  - apply Forall_forall. intros i Hi. pose proof (foldr_max_le i _ Hi). simpl. unfold n. lia.
  - exists bf. rewrite Hs, SignerBitfieldOps.new_signers. split_and!; [done..|set_solver].
Qed.

Lemma verified_of_batch_sublist msg us :
  verified_of_batch msg us `sublist_of` (to_verified <$> us).
Proof. unfold verified_of_batch. case_match; [done|]. apply fmap_sublist, sublist_filter. Qed.

Lemma all_verified_sublist msg us l :
  l ++ verified_of_batch msg us `sublist_of` l ++ (to_verified <$> us).
Proof. apply sublist_app; [done|]. apply verified_of_batch_sublist. Qed.

Lemma sort_indices l : v_index <$> merge_sort index_le l ≡ₚ v_index <$> l.
Proof. apply fmap_Permutation, merge_sort_Permutation. Qed.

Lemma qc_built_signers l bf :
  build_signers (merge_sort index_le l) = Some bf ->
  SignerBitfieldOps.signers bf = list_to_set (v_index <$> l).
Proof.
  intros Hb. destruct (build_signers_spec (merge_sort index_le l)) as (bf' & E & _ & Hs).
  simplify_eq. rewrite Hs. apply list_to_set_perm_L, sort_indices.
Qed.

End building.

Section qc_theory.
Context `{Crypto} `{T : Topology} `{!TopologyLaws T}.
Implicit Types (v : VerifiedVote) (l : list VerifiedVote).

(** The validators behind a certificate's signer bits. *)
Definition signer_ids (qc : QuorumCertificate) : gset ValidatorId :=
  list_to_set (omap (fun i => local_committee !! i) (SignerBitfieldOps.set_indices (qc_signers qc))).

(** A vote entry as the vote handlers make it: the index of a committee
    member, with that member's power. *)
Definition entry_ok v : Prop :=
  exists id, local_committee !! v_index v = Some id /\ v_power v = power_of id.

Definition uentry_ok (u : UnverifiedVote) : Prop := entry_ok (to_verified u).

(** ** The power of distinct entries *)

Lemma omap_entry_ids l :
  Forall entry_ok l ->
  power_of <$> omap (fun i => local_committee !! i) (v_index <$> l) = v_power <$> l.
Proof.
  induction 1 as [|v l (id & Hid & Hp) Hl IH]; [done|].
  rewrite !fmap_cons. cbn [omap list_omap]. rewrite Hid, fmap_cons, IH. by f_equal.
Qed.

Lemma NoDup_omap_committee (idxs : list nat) :
  NoDup idxs -> NoDup (omap (fun i => local_committee !! i) idxs).
Proof.
  induction 1 as [|i idxs Hi Hnd IH]; [constructor|]. cbn [omap list_omap].
  destruct (local_committee !! i) as [id|] eqn:E; [|done].
  constructor; [|done]. intros (j & Hj & E')%list_elem_of_omap.
  apply Hi. by rewrite (NoDup_lookup _ _ _ _ (committee_NoDup local_shard) E E').
Qed.

Lemma power_of_entries l (A : gset ValidatorId) :
  Forall entry_ok l -> NoDup (v_index <$> l) ->
  A = list_to_set (omap (fun i => local_committee !! i) (v_index <$> l)) ->
  sum_N (v_power <$> l) = power_in local_shard A.
Proof.
  intros Hok Hnd ->. rewrite <- omap_entry_ids by done.
  unfold power_in. apply sum_N_perm, fmap_Permutation, NoDup_Permutation.
  - by apply NoDup_omap_committee.
  - apply list.NoDup_filter, committee_NoDup.
  - intros id. rewrite list_elem_of_filter, elem_of_list_to_set. split; [|tauto].
    intros Hid. split; [done|]. apply list_elem_of_omap in Hid as (i & _ & E).
    by apply list_elem_of_lookup_2 in E.
Qed.

(** ** What is built *)

Lemma signer_ids_of_signers qc l :
  SignerBitfieldOps.signers (qc_signers qc) = list_to_set (v_index <$> l) ->
  signer_ids qc = list_to_set (omap (fun i => local_committee !! i) (v_index <$> l)).
Proof.
  intros Hs. unfold signer_ids. apply set_eq. intros id.
  rewrite !elem_of_list_to_set, !list_elem_of_omap.
  assert (forall i, i ∈ SignerBitfieldOps.set_indices (qc_signers qc) <-> i ∈ v_index <$> l) as Hi.
  { intros i. rewrite <- (elem_of_list_to_set (C := gset nat)),
      <- (elem_of_list_to_set (C := gset nat)), <- Hs. done. }
  split; intros (i & H1 & H2); exists i; (split; [by apply Hi|done]).
Qed.

(** The certificate built from entries of distinct members. *)
Lemma build_qc_power bh h r ph msg us l qc rest :
  power_bounded local_shard ->
  Forall entry_ok l -> Forall uentry_ok us ->
  NoDup ((v_index <$> l) ++ (u_index <$> us)) ->
  verify_and_build_quorum_certificate bh h r ph msg us l local_voting_power
    = Some (Some qc, rest) ->
  qc_voting_power qc = power_in local_shard (signer_ids qc) /\
  has_quorum_for_shard local_shard (qc_voting_power qc) = true.
Proof.
  intros Hb Hl Hus Hnd. unfold verify_and_build_quorum_certificate.
  set (all := l ++ verified_of_batch msg us).
  destruct (VotePower.has_quorum _ _ && _) eqn:Hq; [|done].
  destruct (aggregate_signatures _); [|done].
  destruct (build_signers _) as [bf|] eqn:Hbf; [|done].
  intros [= <- <-]. cbn [qc_voting_power]. apply andb_true_iff in Hq as [Hq _].
  assert (all `sublist_of` l ++ (to_verified <$> us)) as Hsub by apply all_verified_sublist.
  assert (Forall entry_ok all) as Hok.
  { apply (Forall_sublist _ _ _ Hsub), Forall_app. split; [done|]. by apply Forall_fmap. }
  assert (NoDup (v_index <$> all)) as Hnd'.
  { eapply sublist_NoDup; [|by apply fmap_sublist]. rewrite fmap_app, <- list_fmap_compose. done. }
  match goal with |- context [signer_ids ?q] => set (qc := q) end.
  assert (sum_N (v_power <$> all) = power_in local_shard (signer_ids qc)) as Hp.
  { apply power_of_entries; [done..|]. by apply signer_ids_of_signers, qc_built_signers. }
  pose proof (power_in_le local_shard (signer_ids qc)) as Hle. unfold power_bounded in Hb.
  rewrite wsum_small in Hq |- * by lia. by split.
Qed.

(** C4: the outcome of certificate building.  For vote entries of distinct
    committee members the runner never panics.  Either it builds a certificate
    for exactly the requested block, height, round and parent, whose signer
    bits are the indices of the counted votes, whose [voting_power] is the
    power of those signers in the committee and a quorum, and whose signature
    aggregates the counted votes' signatures; or it returns every verified
    vote, and then quorum was missed or the aggregation failed. *)
Theorem qc_build_sound bh h r ph msg us l :
  power_bounded local_shard ->
  Forall entry_ok l -> Forall uentry_ok us ->
  NoDup ((v_index <$> l) ++ (u_index <$> us)) ->
  let all := l ++ verified_of_batch msg us in
  exists qc_opt votes,
    verify_and_build_quorum_certificate bh h r ph msg us l local_voting_power
      = Some (qc_opt, votes) /\
    match qc_opt with
    | Some qc =>
        votes = [] /\
        qc_block_hash qc = bh /\ qc_height qc = h /\ qc_round qc = r /\
        qc_parent_block_hash qc = ph /\
        SignerBitfieldOps.signers (qc_signers qc) = list_to_set (v_index <$> all) /\
        qc_voting_power qc = power_in local_shard (signer_ids qc) /\
        has_quorum_for_shard local_shard (qc_voting_power qc) = true /\
        aggregate_signatures ((fun v => bv_signature (v_vote v)) <$> all)
          = Some (qc_aggregated_signature qc)
    | None =>
        votes = all /\
        (VotePower.has_quorum (wsum (v_power <$> all)) local_voting_power = false \/ all = [] \/
         aggregate_signatures ((fun v => bv_signature (v_vote v)) <$> all) = None)
    end.
Proof.
  intros Hb Hl Hus Hnd all.
  destruct (verify_and_build_quorum_certificate bh h r ph msg us l local_voting_power)
    as [[[qc|] votes]|] eqn:E.
  - exists (Some qc), votes. split; [done|].
    pose proof (build_qc_power _ _ _ _ _ _ _ _ _ Hb Hl Hus Hnd E) as [Hp Hq].
    unfold verify_and_build_quorum_certificate in E. fold all in E.
    destruct (_ && _); [|done]. destruct (aggregate_signatures _); [|done].
    destruct (build_signers _) as [bf|] eqn:Hbf; [|done]. injection E as <- <-.
    split_and!; try done. by apply qc_built_signers.
  - exists None, votes. split; [done|].
    unfold verify_and_build_quorum_certificate in E. fold all in E.
    destruct (_ && _) eqn:Hc.
    + destruct (aggregate_signatures _); [by destruct (build_signers _)|].
      injection E as <-. tauto.
    + injection E as <-. split; [done|]. apply andb_false_iff in Hc as [Hc|Hc]; [tauto|].
      apply negb_false_iff, Nat.eqb_eq in Hc. rewrite length_fmap in Hc.
      right. left. by apply length_zero_iff_nil.
  - exfalso. unfold verify_and_build_quorum_certificate in E. fold all in E.
    destruct (_ && _); [|done]. destruct (aggregate_signatures _); [|done].
    destruct (build_signers_spec (merge_sort index_le all)) as (bf & Hbf & _).
    by rewrite Hbf in E.
Qed.

(** ** Two certificates *)


(** ** The weighted timestamp *)

Lemma weight_sum_bounds lo hi l acc :
  Forall (fun v => lo <= bv_timestamp (v_vote v) <= hi) l ->
  acc + hi * sum_N (v_power <$> l) < u128_modulus ->
  acc + lo * sum_N (v_power <$> l)
  <= foldl (fun w v => add_weight w (v_vote v) (v_power v)) acc l
  <= acc + hi * sum_N (v_power <$> l).
Proof.
  intros Hl. revert acc. induction Hl as [|v l [Hlo Hhi] Hl IH]; intros acc Hacc.
  - cbn in *. lia.
  - rewrite fmap_cons in *. unfold sum_N in *. cbn [foldr foldl] in *.
    set (S := foldr N.add 0 (v_power <$> l)) in *. unfold add_weight at 2 4.
    assert (lo * v_power v <= bv_timestamp (v_vote v) * v_power v <= hi * v_power v) as Hv
      by (split; apply N.mul_le_mono_r; done).
    rewrite !N.mul_add_distr_l in *.
    rewrite N.mod_small by lia.
    specialize (IH (acc + bv_timestamp (v_vote v) * v_power v)). lia.
Qed.

(** Every vote, verified or not, is stamped between [lo] and [hi]. *)
Definition timestamps_within (lo hi : u64) l (us : list UnverifiedVote) : Prop :=
  Forall (fun v => lo <= bv_timestamp (v_vote v) <= hi) l /\
  Forall (fun u => lo <= bv_timestamp (u_vote u) <= hi) us.

(** the certificate's timestamp is between the earliest and the latest
    timestamp of the votes it was built from, so a minority of clocks can not
    move it outside the range of the others' votes; the 128-bit accumulation
    does not overflow. *)
Theorem qc_weighted_timestamp_bounds (lo hi : u64) bh h r ph msg us l qc rest total :
  hi < u64_modulus ->
  sum_N ((v_power <$> l) ++ (u_power <$> us)) < u64_modulus ->
  timestamps_within lo hi l us ->
  verify_and_build_quorum_certificate bh h r ph msg us l total = Some (Some qc, rest) ->
  lo <= qc_weighted_timestamp_ms qc <= hi.
Proof.
  intros Hhi Hsum [Hl Hus]. unfold verify_and_build_quorum_certificate.
  set (all := l ++ verified_of_batch msg us).
  destruct (VotePower.has_quorum _ _ && _) eqn:Hq; [|done].
  destruct (aggregate_signatures _); [|done]. destruct (build_signers _); [|done].
  intros [= <- <-]. cbn [qc_weighted_timestamp_ms]. apply andb_true_iff in Hq as [Hq _].
  pose proof (all_verified_sublist msg us l) as Hsub. fold all in Hsub.
  assert (Forall (fun v => lo <= bv_timestamp (v_vote v) <= hi) all) as Hall.
  { apply (Forall_sublist _ _ _ Hsub), Forall_app. split; [done|]. by apply Forall_fmap. }
  assert (sum_N (v_power <$> all) < u64_modulus) as Hs.
  { eapply N.le_lt_trans; [|exact Hsum].
    apply sum_N_submseteq, sublist_submseteq. apply (fmap_sublist v_power) in Hsub.
    by rewrite fmap_app, <- list_fmap_compose in Hsub. }
  rewrite wsum_small in Hq |- * by done.
  assert (sum_N (v_power <$> merge_sort index_le all) = sum_N (v_power <$> all)) as Hperm.
  { apply sum_N_perm, fmap_Permutation, merge_sort_Permutation. }
  unfold weighted_timestamp. destruct (N.eqb_spec (sum_N (v_power <$> all)) 0) as [Hz|Hnz].
  { rewrite Hz in Hq. unfold VotePower.has_quorum in Hq. rewrite N.ltb_lt in Hq.
    by apply N.nlt_0_r in Hq. }
  destruct (weight_sum_bounds lo hi (merge_sort index_le all) 0) as [Hlo Hup].
  { by rewrite merge_sort_Permutation. }
  { rewrite Hperm. change u128_modulus with (u64_modulus * u64_modulus). nia. }
  rewrite Hperm, !N.add_0_l in *. rewrite as_u64_small.
  - split; [apply N.div_le_lower_bound|apply N.Div0.div_le_upper_bound]; lia.
  - eapply N.le_lt_trans; [|exact Hhi]. apply N.Div0.div_le_upper_bound. lia.
Qed.
End qc_theory.

(** ** Samples *)

Definition sample_message : bytes := block_vote_message 0 5 0 77.

(** A vote for block 77 at height 5, round 0, by the validator of key [i + 1]. *)
Definition sample_vote (i : ValidatorId) (timestamp : u64) : BlockVote :=
  mk_block_vote 77 5 0 i (@sign_v1 sample_crypto (i + 1) sample_message) timestamp.

Definition sample_verified (i : nat) : VerifiedVote :=
  (i, sample_vote (N.of_nat i) (100 + N.of_nat i), 1).
Definition sample_unverified (i : nat) : UnverifiedVote :=
  (i, sample_vote (N.of_nat i) (100 + N.of_nat i), N.of_nat i + 1, 1).

(** The certificate validator 0 builds from its own vote and the votes [us]. *)
Definition sample_build (us : list UnverifiedVote) (l : list VerifiedVote) :=
  @verify_and_build_quorum_certificate sample_crypto 77 5 0 70 sample_message us l 4.

Definition sample_qc (us : list UnverifiedVote) (l : list VerifiedVote) : QuorumCertificate :=
  match sample_build us l with Some (Some qc, _) => qc | _ => QC.genesis end.

Lemma sample_entry_ok i : (i < 4)%nat -> @entry_ok (sample_topology 0) (sample_verified i).
Proof.
  intros Hi. exists (N.of_nat i).
  do 4 (destruct i as [|i]; [by vm_compute|]). lia.
Qed.

Lemma sample_uentry_ok i : (i < 4)%nat -> @uentry_ok (sample_topology 0) (sample_unverified i).
Proof.
  intros Hi. exists (N.of_nat i).
  do 4 (destruct i as [|i]; [by vm_compute|]). lia.
Qed.

Lemma qc_build_sound_witness :
  @has_quorum_for_shard (sample_topology 0) 0
    (qc_voting_power (sample_qc [sample_unverified 1; sample_unverified 3] [sample_verified 0]))
  = true /\
  exists qc_opt votes,
    sample_build [sample_unverified 1; sample_unverified 3] [sample_verified 0]
    = Some (qc_opt, votes).
Proof.
  split; [vm_compute; reflexivity|].
  destruct (@qc_build_sound sample_crypto (sample_topology 0) (sample_topology_laws 0)
    77 5 0 70 sample_message [sample_unverified 1; sample_unverified 3] [sample_verified 0])
    as (qc_opt & votes & E & _).
  - vm_compute; reflexivity.
  - repeat constructor; apply sample_entry_ok; lia.
  - repeat constructor; apply sample_uentry_ok; lia.
  - apply (bool_decide_unpack _); vm_compute; reflexivity.
  - exists qc_opt, votes. exact E.
Defined.


Lemma qc_weighted_timestamp_bounds_witness :
  100 <= qc_weighted_timestamp_ms
           (sample_qc [sample_unverified 1; sample_unverified 3] [sample_verified 0]) <= 103.
Proof.
  apply (@qc_weighted_timestamp_bounds sample_crypto 100 103 77 5 0 70 sample_message
    [sample_unverified 1; sample_unverified 3] [sample_verified 0]
    (sample_qc [sample_unverified 1; sample_unverified 3] [sample_verified 0]) [] 4).
  - vm_compute; reflexivity.
  - vm_compute; reflexivity.
  - split; repeat constructor; vm_compute; discriminate.
  - vm_compute; reflexivity.
Defined.
