(* ===== verification/QcRoundtrip.v ===== *)
(** * A certificate that was built verifies

    [verify_and_build_quorum_certificate] on one validator and
    [verify_qc_signature] on another are inverse to each other: a certificate
    built from valid votes passes the check every other validator makes before
    it votes on top of it.  BLS aggregation comes from another crate; the facts
    used about it are the fields of [BlsLaws]. *)

From stdpp Require Import base gmap list numbers sorting.
From Stdlib Require Import NArith Lia.
From S2P Require Import Prelude Bitfield Types Encoding Merkle Topology VoteSet Runner QcTheory.

Import VoteSetOps.

Section roundtrip.
Context `{Crypto}.

(** The aggregate of [ss] verifies under the aggregate of [ks]. *)
Definition valid_group (msg : bytes) (ks : list Bls12381G1PublicKey)
    (ss : list Bls12381G2Signature) : Prop :=
  exists apk asig, aggregate_public_keys ks = Some apk /\ aggregate_signatures ss = Some asig /\
    verify_bls12381_v1 msg apk asig = true.

(** Aggregation of BLS signatures over one message: a valid signature is a
    valid group of one, groups join, and keys aggregate in any order. *)
Record BlsLaws : Prop := {
  bls_single msg k s : verify_bls12381_v1 msg k s = true -> valid_group msg [k] [s];
  bls_join msg ks ss ks' ss' :
    valid_group msg ks ss -> valid_group msg ks' ss' -> valid_group msg (ks ++ ks') (ss ++ ss');
  bls_perm ks ks' : ks ≡ₚ ks' -> aggregate_public_keys ks = aggregate_public_keys ks'
}.

Context (pks : list Bls12381G1PublicKey).
Implicit Types (v : VerifiedVote) (l : list VerifiedVote).

Definition sig_of v : Bls12381G2Signature := bv_signature (v_vote v).
Definition keys_of l : list Bls12381G1PublicKey := omap (fun v => pks !! v_index v) l.

(** A vote with a signature that verifies under its committee member's key. *)
Definition vote_valid (msg : bytes) v : Prop :=
  exists k, pks !! v_index v = Some k /\ verify_bls12381_v1 msg k (sig_of v) = true.

Definition key_known (u : UnverifiedVote) : Prop := pks !! u_index u = Some (u_key u).

(** ** Groups *)

Lemma group_of_pairs (L : BlsLaws) msg (l : list (Bls12381G1PublicKey * Bls12381G2Signature)) :
  l <> [] -> Forall (fun ks => verify_bls12381_v1 msg ks.1 ks.2 = true) l ->
  valid_group msg l.*1 l.*2.
Proof.
  intros Hne Hl. induction Hl as [|[k s] l Hv Hl IH]; [done|].
  rewrite !fmap_cons. destruct l as [|w l]; [by apply (bls_single L)|].
  by apply (bls_join L _ [k] [s]); [apply (bls_single L)|apply IH].
Qed.

Lemma group_of_valid (L : BlsLaws) msg l :
  l <> [] -> Forall (vote_valid msg) l -> valid_group msg (keys_of l) (sig_of <$> l).
Proof.
  intros Hne Hl. induction Hl as [|v l (k & Hk & Hv) Hl IH]; [done|].
  unfold keys_of. cbn [omap list_omap]. rewrite Hk, fmap_cons.
  destruct l as [|w l]; [by apply (bls_single L)|].
  by apply (bls_join L _ [k] [sig_of v]); [apply (bls_single L)|apply IH].
Qed.

Lemma keys_of_to_verified us :
  Forall key_known us -> keys_of (to_verified <$> us) = u_key <$> us.
Proof.
  induction 1 as [|u us Hu Hus IH]; [done|]. unfold keys_of in *.
  rewrite !fmap_cons. cbn [omap list_omap]. unfold v_index at 1. cbn. rewrite Hu. by rewrite IH.
Qed.

Lemma group_of_batch (L : BlsLaws) msg us :
  Forall key_known us -> verified_of_batch msg us <> [] ->
  valid_group msg (keys_of (verified_of_batch msg us)) (sig_of <$> verified_of_batch msg us).
Proof.
  intros Hus. unfold verified_of_batch.
  destruct (Nat.eqb_spec (length us) 0) as [Hz|Hnz].
  { apply length_zero_iff_nil in Hz as ->. done. }
  case_match eqn:Hb; intros Hne.
  - unfold batch_verify_bls_same_message in Hb. rewrite !length_fmap, Nat.eqb_refl in Hb.
    cbn [negb] in Hb. destruct (Nat.eqb_spec (length us) 0); [done|].
    destruct (aggregate_signatures _) as [asig|] eqn:E1; [|done].
    destruct (aggregate_public_keys _) as [apk|] eqn:E2; [|done].
    exists apk, asig. rewrite keys_of_to_verified by done. split_and!; [done| |done].
    by rewrite <- list_fmap_compose.
  - apply (group_of_valid L); [done|]. apply Forall_fmap, Forall_forall.
    intros u [Hv Hu]%list_elem_of_filter. exists (u_key u).
    split; [by apply (Forall_elem _ _ _ Hus)|done].
Qed.

Lemma group_of_all (L : BlsLaws) msg us l :
  Forall (vote_valid msg) l -> Forall key_known us ->
  l ++ verified_of_batch msg us <> [] ->
  valid_group msg (keys_of (l ++ verified_of_batch msg us))
    (sig_of <$> (l ++ verified_of_batch msg us)).
Proof.
  intros Hl Hus Hne.
  destruct l as [|v l]; [by apply (group_of_batch L)|].
  destruct (verified_of_batch msg us) as [|w ws] eqn:E.
  - rewrite app_nil_r. by apply (group_of_valid L).
  - unfold keys_of. rewrite omap_app, fmap_app. apply (bls_join L).
    + by apply (group_of_valid L).
    + rewrite <- E. apply (group_of_batch L); [done|]. by rewrite E.
Qed.

(** ** The keys selected by the signer bits *)

Lemma zip_seq_filter {A} (f : nat -> bool) (l : list A) s :
  snd <$> filter (fun '(i, _) => f i = true) (zip (seq s (length l)) l)
  = omap (fun i => l !! (i - s)%nat) (filter (fun i => f i = true) (seq s (length l))).
Proof.
  revert s. induction l as [|x l IH]; intros s; [done|].
  cbn [length seq zip zip_with]. rewrite !list.filter_cons.
  assert (omap (fun i => (x :: l) !! (i - s)%nat) (filter (fun i => f i = true) (seq (S s) (length l)))
    = omap (fun i => l !! (i - S s)%nat) (filter (fun i => f i = true) (seq (S s) (length l)))) as E.
  { apply list_omap_ext, Forall_Forall2_diag, Forall_forall.
    intros i [_ Hi%elem_of_seq]%list_elem_of_filter.
    replace (i - s)%nat with (S (i - S s)) by lia. done. }
  destruct (decide (f s = true)) as [Hf|Hf].
  - rewrite ?decide_True by done. cbn [omap list_omap]. rewrite fmap_cons, Nat.sub_diag, IH.
    cbn. f_equal. symmetry. apply E.
  - rewrite ?decide_False by done. rewrite IH. symmetry. apply E.
Qed.

(** The keys at the set bits are the keys at the indices that were set. *)
Lemma signer_keys_perm bf idxs :
  SignerBitfieldOps.signers bf = list_to_set idxs -> NoDup idxs ->
  Forall (fun i => i < length pks)%nat idxs ->
  snd <$> filter (fun '(i, _) => SignerBitfieldOps.is_set bf i = true)
            (zip (seq 0 (length pks)) pks)
  ≡ₚ omap (fun i => pks !! i) idxs.
Proof.
  intros Hs Hnd Hlt. rewrite zip_seq_filter.
  rewrite (list_omap_ext _ (fun i => pks !! i) _
    (filter (fun i => SignerBitfieldOps.is_set bf i = true) (seq 0 (length pks)))).
  - apply omap_Permutation, NoDup_Permutation; [apply list.NoDup_filter, NoDup_seq|done|].
    intros i. rewrite list_elem_of_filter, elem_of_seq, <- SignerBitfieldOps.elem_of_signers, Hs,
      elem_of_list_to_set. split; [tauto|]. intros Hi. split; [done|].
    pose proof (Forall_elem _ _ _ Hlt Hi) as Hx. simpl in Hx. lia.
  - apply Forall_Forall2_diag, Forall_true. intros i. by rewrite Nat.sub_0_r.
Qed.

Lemma qc_signer_keys_perm qc l :
  SignerBitfieldOps.signers (qc_signers qc) = list_to_set (v_index <$> l) ->
  NoDup (v_index <$> l) -> Forall (fun v => v_index v < length pks)%nat l ->
  qc_signer_keys qc pks ≡ₚ keys_of l.
Proof.
  intros Hs Hnd Hlt. unfold qc_signer_keys.
  rewrite (signer_keys_perm _ _ Hs Hnd) by (by apply Forall_fmap).
  unfold keys_of. clear. induction l as [|v l IH]; [done|].
  rewrite fmap_cons. cbn [omap list_omap]. case_match; by rewrite IH.
Qed.

Lemma length_keys_of l :
  Forall (fun v => v_index v < length pks)%nat l -> length (keys_of l) = length l.
Proof.
  induction 1 as [|v l Hv Hl IH]; [done|]. unfold keys_of in *. cbn [omap list_omap].
  apply lookup_lt_is_Some in Hv as [k ->]. cbn. by rewrite IH.
Qed.

(** what one validator builds, every other validator accepts.  If the
    already verified votes carry valid signatures, the votes to verify come
    with their member's key, and no member occurs twice, then a certificate
    that [verify_and_build_quorum_certificate] returns passes
    [verify_qc_signature] with the committee's keys: both the batch path and
    the fallback that drops bad votes build a verifiable certificate. *)
Theorem qc_built_verifies (L : BlsLaws) bh h r ph msg us l total qc rest :
  Forall (vote_valid msg) l -> Forall key_known us ->
  NoDup ((v_index <$> l) ++ (u_index <$> us)) ->
  verify_and_build_quorum_certificate bh h r ph msg us l total = Some (Some qc, rest) ->
  verify_qc_signature qc pks msg = true.
Proof.
  intros Hl Hus Hnd. unfold verify_and_build_quorum_certificate.
  pose proof (group_of_all L msg us l Hl Hus) as Hg.
  pose proof (all_verified_sublist msg us l) as Hsub.
  set (all := l ++ verified_of_batch msg us) in *.
  destruct (_ && _) eqn:Hq; [|done]. apply andb_true_iff in Hq as [_ Hne].
  destruct (aggregate_signatures _) as [asig|] eqn:Eagg; [|done].
  destruct (build_signers _) as [bf|] eqn:Hbf; [|done]. intros [= <- <-].
  destruct Hg as (apk & asig' & Epk & Esig & Hver).
  { intros E. rewrite E in Hne. done. }
  unfold sig_of in Esig. rewrite Esig in Eagg. injection Eagg as ->.
  assert (Forall (fun v => v_index v < length pks)%nat all) as Hlt.
  { apply (Forall_sublist _ _ _ Hsub), Forall_app. split.
    - eapply Forall_impl; [exact Hl|]. intros v (k & Hk & _). by apply lookup_lt_Some in Hk.
    - apply Forall_fmap. eapply Forall_impl; [exact Hus|].
      intros u Hk. by apply lookup_lt_Some in Hk. }
  match goal with |- verify_qc_signature ?q _ _ = _ => set (qc := q) end.
  assert (qc_signer_keys qc pks ≡ₚ keys_of all) as Hperm.
  { apply qc_signer_keys_perm; [by apply qc_built_signers| |done].
    eapply sublist_NoDup; [|by apply fmap_sublist]. by rewrite fmap_app, <- list_fmap_compose. }
  unfold verify_qc_signature. rewrite (bls_perm L _ _ Hperm), Epk, Hperm, length_keys_of by done.
  rewrite length_fmap in Hne. by destruct (Nat.eqb (length all) 0).
Qed.
End roundtrip.

Lemma sample_bls_laws : @BlsLaws sample_crypto.
Proof.
  split.
  - intros msg k s Hv. exists k, s. cbn. by rewrite !N.add_0_r.
  - intros msg ks ss ks' ss' (apk & asig & E1 & E2 & Hv) (apk' & asig' & E1' & E2' & Hv').
    destruct ks as [|k ks]; [done|]. destruct ss as [|s ss]; [done|].
    destruct ks' as [|k' ks']; [done|]. destruct ss' as [|s' ss']; [done|].
    exists (apk + apk'), (asig + asig'). cbn -[sum_N] in *.
    injection E1 as <-. injection E2 as <-. injection E1' as <-. injection E2' as <-.
    rewrite N.eqb_eq in *. split_and!.
    + by rewrite app_comm_cons, sum_N_app.
    + by rewrite app_comm_cons, sum_N_app.
    + rewrite Hv, Hv'. symmetry. apply N.mul_add_distr_r.
  - intros ks ks' Hp. cbn -[sum_N].
    destruct ks, ks'; try done.
    + by apply Permutation_nil_cons in Hp.
    + symmetry in Hp. by apply Permutation_nil_cons in Hp.
    + by rewrite (sum_N_perm _ _ Hp).
Qed.

(** One vote of the batch carries a bad signature, so the fallback runs. *)
Lemma qc_built_verifies_witness :
  qc_voting_power (sample_qc [sample_unverified 1; (2%nat, sample_vote 1 9, 3, 1); sample_unverified 3]
                     [sample_verified 0]) = 3 /\
  @verify_qc_signature sample_crypto
    (sample_qc [sample_unverified 1; (2%nat, sample_vote 1 9, 3, 1); sample_unverified 3]
       [sample_verified 0]) [1; 2; 3; 4] sample_message = true.
Proof.
  split; [vm_compute; reflexivity|].
  apply (@qc_built_verifies sample_crypto [1; 2; 3; 4] sample_bls_laws 77 5 0 70 sample_message
    [sample_unverified 1; (2%nat, sample_vote 1 9, 3, 1); sample_unverified 3]
    [sample_verified 0] 4
    (sample_qc [sample_unverified 1; (2%nat, sample_vote 1 9, 3, 1); sample_unverified 3]
       [sample_verified 0]) []).
  - repeat constructor. exists 1. split; vm_compute; reflexivity.
  - repeat constructor; vm_compute; reflexivity.
  - apply (bool_decide_unpack _); vm_compute; reflexivity.
  - vm_compute; reflexivity.
Defined.
