(* ===== verification/VoteFlow.v ===== *)
(** * From votes to certificates

    The life of one vote set as [on_block_vote_internal],
    [maybe_trigger_vote_verification] and [on_qc_result] (bft/src/state.rs)
    drive it together with the runner: votes arrive in any order, a batch is
    sent for verification when quorum is possible, and its outcome comes back
    later, with more votes arriving in between.  The steps are a relation; the
    theorems follow the votes through every interleaving. *)

From stdpp Require Import base gmap list numbers sorting.
From Stdlib Require Import NArith Lia.
From S2P Require Import Prelude Bitfield Types Encoding Merkle Topology VoteSet Runner QcTheory.

Import VoteSetOps.

(** The fields of a [VerifyAndBuildQuorumCertificate] action in flight. *)
Record Batch := mk_batch {
  ba_block_hash : Hash;
  ba_height : BlockHeight;
  ba_round : u64;
  ba_parent : Hash;
  ba_votes_to_verify : list UnverifiedVote;
  ba_verified_votes : list VerifiedVote
}.

Record Flow := mk_flow { fl_set : VoteSet; fl_batch : option Batch }.

Inductive flow_event :=
  | VoteBuffered | OwnVote | HeaderSet | Triggered
  | Built (qc : QuorumCertificate) | Failed.

Section flow.
Context `{Crypto} `{T : Topology}.

Definition batch_result (b : Batch) : option (option QuorumCertificate * list VerifiedVote) :=
  verify_and_build_quorum_certificate (ba_block_hash b) (ba_height b) (ba_round b) (ba_parent b)
    (block_vote_message local_shard (ba_height b) (ba_round b) (ba_block_hash b))
    (ba_votes_to_verify b) (ba_verified_votes b) local_voting_power.

Inductive flow_step : Flow -> flow_event -> Flow -> Prop :=
  | step_buffer vs b i id vote pk :
      local_committee !! i = Some id ->
      flow_step (mk_flow vs b) VoteBuffered
        (mk_flow (buffer_unverified_vote vs i vote pk (power_of id)).1 b)
  | step_own vs b i id vote :
      local_committee !! i = Some id ->
      flow_step (mk_flow vs b) OwnVote (mk_flow (add_verified_vote vs i vote (power_of id)).1 b)
  | step_header vs b header :
      flow_step (mk_flow vs b) HeaderSet (mk_flow (set_header vs header) b)
  | step_trigger vs bh0 h r ph block_hash :
      should_trigger_verification vs local_voting_power = true ->
      verification_data vs = Some (bh0, h, r, ph) ->
      flow_step (mk_flow vs None) Triggered
        (mk_flow (take_unverified_votes vs).1
           (Some (mk_batch block_hash h r ph (take_unverified_votes vs).2 (get_verified_votes vs))))
  | step_built vs b qc votes :
      batch_result b = Some (Some qc, votes) ->
      flow_step (mk_flow vs (Some b)) (Built qc) (mk_flow (on_qc_built vs) None)
  | step_failed vs b votes :
      batch_result b = Some (None, votes) ->
      flow_step (mk_flow vs (Some b)) Failed (mk_flow (on_votes_verified vs votes) None).

Definition committee_len : nat := length local_committee.

(** Every run of the code. *)
Inductive flow_run : Flow -> Prop :=
  | run_init header : flow_run (mk_flow (new header committee_len) None)
  | run_step fl e fl' : flow_run fl -> flow_step fl e fl' -> flow_run fl'.

(** The batch in flight carries no vote that was verified before. *)
Definition nothing_to_recount (fl : Flow) : Prop :=
  match fl_batch fl with Some b => ba_verified_votes b = [] | None => True end.

(** Runs in which a batch fails only when it carries no vote that was verified
    before. *)
Inductive recount_free_run : Flow -> Prop :=
  | rfr_init header : recount_free_run (mk_flow (new header committee_len) None)
  | rfr_step fl e fl' :
      recount_free_run fl -> flow_step fl e fl' -> (e = Failed -> nothing_to_recount fl) ->
      recount_free_run fl'.

(** ** The invariant of recount-free runs *)

Definition taken (fl : Flow) : list UnverifiedVote :=
  match fl_batch fl with Some b => ba_votes_to_verify b | None => [] end.
Definition snapshot (fl : Flow) : list VerifiedVote :=
  match fl_batch fl with Some b => ba_verified_votes b | None => [] end.

Record flow_inv (fl : Flow) : Prop := {
  fi_wf : wf committee_len (fl_set fl);
  fi_verified : Forall entry_ok (vs_verified_votes (fl_set fl));
  fi_unverified : Forall uentry_ok (vs_unverified_votes (fl_set fl));
  fi_taken : Forall uentry_ok (taken fl);
  fi_snapshot : snapshot fl `sublist_of` vs_verified_votes (fl_set fl);
  fi_seen : Forall (fun u => has_seen_validator (fl_set fl) (u_index u) = true) (taken fl);
  fi_nodup : NoDup (indices (fl_set fl) ++ (u_index <$> taken fl))
}.

Lemma committee_lt i id : local_committee !! i = Some id -> (i < committee_len)%nat.
Proof. apply lookup_lt_Some. Qed.

(** An index not seen is new to everything the flow holds. *)
Lemma fresh_index fl i :
  flow_inv fl -> has_seen_validator (fl_set fl) i = false ->
  i ∉ indices (fl_set fl) ++ (u_index <$> taken fl).
Proof.
  intros Hi Hs. rewrite elem_of_app. intros [Hin|Hin].
  - by rewrite (wf_seen _ _ (fi_wf _ Hi) i Hin) in Hs.
  - apply list_elem_of_fmap in Hin as (u & -> & Hu).
    pose proof (Forall_elem _ _ _ (fi_seen _ Hi) Hu) as Hx. simpl in Hx. congruence.
Qed.

Lemma has_seen_buffer vs i vote pk p j :
  has_seen_validator vs j = true ->
  has_seen_validator (buffer_unverified_vote vs i vote pk p).1 j = true.
Proof.
  intros Hj. unfold buffer_unverified_vote. destruct (has_seen_validator vs i); [done|].
  change (has_seen_validator (mark_seen (note_first_vote vs vote) i) j = true).
  rewrite has_seen_mark. unfold has_seen_validator in *.
  destruct (note_first_vote_frame vs vote) as (_ & _ & _ & _ & _ & ->). rewrite Hj.
  apply orb_true_r.
Qed.

Lemma has_seen_add vs i vote p j :
  has_seen_validator vs j = true ->
  has_seen_validator (add_verified_vote vs i vote p).1 j = true.
Proof.
  intros Hj. unfold add_verified_vote. destruct (has_seen_validator vs i); [done|].
  change (has_seen_validator (mark_seen (note_first_vote vs vote) i) j = true).
  rewrite has_seen_mark. unfold has_seen_validator in *.
  destruct (note_first_vote_frame vs vote) as (_ & _ & _ & _ & _ & ->). rewrite Hj.
  apply orb_true_r.
Qed.

Lemma on_votes_verified_frame vs votes :
  vs_verified_votes (on_votes_verified vs votes) = vs_verified_votes vs ++ votes /\
  vs_unverified_votes (on_votes_verified vs votes) = vs_unverified_votes vs /\
  vs_seen_validators (on_votes_verified vs votes) = vs_seen_validators vs.
Proof.
  unfold on_votes_verified.
  change (vs_verified_votes vs) with (vs_verified_votes (vs <| vs_pending_verification := false |>)).
  change (vs_unverified_votes vs) with
    (vs_unverified_votes (vs <| vs_pending_verification := false |>)).
  change (vs_seen_validators vs) with
    (vs_seen_validators (vs <| vs_pending_verification := false |>)).
  generalize (vs <| vs_pending_verification := false |>) as w.
  induction votes as [|[[i vote] p] votes IH]; intros w; cbn [foldl].
  - by rewrite app_nil_r.
  - destruct (IH (push_verified w (i, vote, p))) as (-> & -> & ->). cbn.
    by rewrite <- app_assoc.
Qed.

Lemma NoDup_insert_fresh {A} (l1 l2 : list A) (x : A) :
  x ∉ l1 ++ l2 -> NoDup (l1 ++ l2) -> NoDup ((l1 ++ [x]) ++ l2).
Proof.
  intros Hx Hnd. rewrite <- app_assoc. change ([x] ++ l2) with (x :: l2).
  rewrite <- Permutation_middle. by constructor.
Qed.

Lemma flow_inv_buffer vs b i id vote pk :
  local_committee !! i = Some id -> flow_inv (mk_flow vs b) ->
  flow_inv (mk_flow (buffer_unverified_vote vs i vote pk (power_of id)).1 b).
Proof.
  intros Hid Hi. pose proof (buffer_wf _ vs i vote pk (power_of id) (committee_lt _ _ Hid)
    (fi_wf _ Hi)) as Hwf.
  pose proof (fun j => has_seen_buffer vs i vote pk (power_of id) j) as Hseen.
  revert Hwf Hseen. unfold buffer_unverified_vote.
  destruct (has_seen_validator vs i) eqn:Hs; [done|]. intros Hwf Hseen.
  pose proof (fresh_index _ _ Hi Hs) as Hfresh.
  destruct (note_first_vote_frame vs vote) as (E1 & E2 & _).
  split; cbn [fl_set fst]; [done|..].
  - cbn. rewrite E1. apply (fi_verified _ Hi).
  - cbn. rewrite E2. apply Forall_app. split; [apply (fi_unverified _ Hi)|].
    constructor; [|done]. by exists id.
  - apply (fi_taken _ Hi).
  - cbn. rewrite E1. apply (fi_snapshot _ Hi).
  - eapply Forall_impl; [apply (fi_seen _ Hi)|]. intros u Hu. by apply Hseen.
  - unfold indices. cbn. rewrite E1, E2, fmap_app, app_assoc. by apply NoDup_insert_fresh;
      [|apply (fi_nodup _ Hi)].
Qed.

Lemma flow_inv_own vs b i id vote :
  local_committee !! i = Some id -> flow_inv (mk_flow vs b) ->
  flow_inv (mk_flow (add_verified_vote vs i vote (power_of id)).1 b).
Proof.
  intros Hid Hi. pose proof (add_verified_wf _ vs i vote (power_of id) (committee_lt _ _ Hid)
    (fi_wf _ Hi)) as Hwf.
  pose proof (fun j => has_seen_add vs i vote (power_of id) j) as Hseen.
  revert Hwf Hseen. unfold add_verified_vote.
  destruct (has_seen_validator vs i) eqn:Hs; [done|]. intros Hwf Hseen.
  pose proof (fresh_index _ _ Hi Hs) as Hfresh.
  destruct (note_first_vote_frame vs vote) as (E1 & E2 & _).
  split; cbn [fl_set fst]; [done|..].
  - cbn. rewrite E1. apply Forall_app. split; [apply (fi_verified _ Hi)|].
    constructor; [|done]. by exists id.
  - cbn. rewrite E2. apply (fi_unverified _ Hi).
  - apply (fi_taken _ Hi).
  - cbn. rewrite E1. etrans; [apply (fi_snapshot _ Hi)|]. by apply sublist_inserts_r.
  - eapply Forall_impl; [apply (fi_seen _ Hi)|]. intros u Hu. by apply Hseen.
  - unfold indices in *. cbn in *. rewrite E1, E2, fmap_app. rewrite <- (app_assoc _ (u_index <$> _)).
    rewrite <- app_assoc in Hfresh. apply NoDup_insert_fresh; [done|].
    rewrite app_assoc. apply (fi_nodup _ Hi).
Qed.

Lemma flow_inv_trigger vs h r ph block_hash :
  flow_inv (mk_flow vs None) ->
  flow_inv (mk_flow (take_unverified_votes vs).1
    (Some (mk_batch block_hash h r ph (take_unverified_votes vs).2 (get_verified_votes vs)))).
Proof.
  intros Hi. split; cbn [fl_set taken snapshot fl_batch ba_votes_to_verify ba_verified_votes].
  - apply take_wf, (fi_wf _ Hi).
  - apply (fi_verified _ Hi).
  - constructor.
  - apply (fi_unverified _ Hi).
  - done.
  - apply Forall_forall. intros u Hu. apply (wf_seen _ _ (fi_wf _ Hi)). cbn.
    unfold indices. apply elem_of_app. right. by apply list_elem_of_fmap_2.
  - pose proof (fi_nodup _ Hi) as Hn. unfold indices in *. cbn in *. by rewrite !app_nil_r in *.
Qed.

Lemma flow_inv_built vs b : flow_inv (mk_flow vs (Some b)) -> flow_inv (mk_flow (on_qc_built vs) None).
Proof.
  intros Hi. split; cbn.
  - apply on_qc_built_wf, (fi_wf _ Hi).
  - apply (fi_verified _ Hi).
  - apply (fi_unverified _ Hi).
  - constructor.
  - apply sublist_nil_l.
  - constructor.
  - rewrite app_nil_r. eapply sublist_NoDup; [apply (fi_nodup _ Hi)|]. by apply sublist_inserts_r.
Qed.

Lemma batch_failed_votes b votes :
  batch_result b = Some (None, votes) ->
  votes = ba_verified_votes b ++ verified_of_batch
    (block_vote_message local_shard (ba_height b) (ba_round b) (ba_block_hash b))
    (ba_votes_to_verify b).
Proof.
  unfold batch_result, verify_and_build_quorum_certificate.
  destruct (_ && _); [|by intros [= <-]].
  destruct (aggregate_signatures _); [by destruct (build_signers _)|by intros [= <-]].
Qed.

Lemma flow_inv_failed vs b votes :
  ba_verified_votes b = [] -> batch_result b = Some (None, votes) ->
  flow_inv (mk_flow vs (Some b)) -> flow_inv (mk_flow (on_votes_verified vs votes) None).
Proof.
  intros Hempty Hres Hi. apply batch_failed_votes in Hres. rewrite Hempty in Hres. cbn in Hres.
  assert (votes `sublist_of` (to_verified <$> ba_votes_to_verify b)) as Hsub
    by (subst votes; apply verified_of_batch_sublist).
  destruct (on_votes_verified_frame vs votes) as (E1 & E2 & E3).
  split; cbn [fl_set taken snapshot fl_batch]; rewrite ?E1, ?E2.
  - apply on_votes_verified_wf; [apply (fi_wf _ Hi)|].
    apply (Forall_sublist _ _ _ Hsub), Forall_fmap. apply (fi_seen _ Hi).
  - apply Forall_app. split; [apply (fi_verified _ Hi)|].
    apply (Forall_sublist _ _ _ Hsub), Forall_fmap. apply (fi_taken _ Hi).
  - apply (fi_unverified _ Hi).
  - constructor.
  - apply sublist_nil_l.
  - constructor.
  - rewrite app_nil_r. unfold indices. rewrite E1, E2, fmap_app.
    eapply sublist_NoDup; [|apply sublist_app; [apply sublist_app; [done|]|done]];
      [|apply (fmap_sublist v_index), Hsub].
    rewrite <- list_fmap_compose. pose proof (fi_nodup _ Hi) as Hn. unfold indices in Hn. cbn in Hn.
    rewrite <- !app_assoc in *. rewrite (Permutation_app_comm (_ <$> ba_votes_to_verify b)). done.
Qed.

Lemma recount_free_inv fl : recount_free_run fl -> flow_inv fl.
Proof.
  induction 1 as [header|fl e fl' Hrun IH Hstep Hok].
  - split; [apply vote_set_new_wf|cbn; constructor..].
  - destruct Hstep.
    + by eapply flow_inv_buffer.
    + by eapply flow_inv_own.
    + destruct IH as [Hwf H1 H2 H3 H4 H5 H6]. split; try done. by apply set_header_wf.
    + by apply flow_inv_trigger.
    + by eapply flow_inv_built.
    + eapply flow_inv_failed; [by apply Hok|done|done].
Qed.

(** C22: votes are counted once.  In every interleaving of arriving votes,
    headers, batch requests and batch results in which a batch fails only when
    it carries no vote verified before, a certificate that is built claims
    exactly the power of its distinct signers, and that power is a quorum of
    the committee. *)
Theorem flow_certificate_power `{!TopologyLaws T} fl qc fl' :
  power_bounded local_shard ->
  recount_free_run fl -> flow_step fl (Built qc) fl' ->
  qc_voting_power qc = power_in local_shard (signer_ids qc) /\
  has_quorum_for_shard local_shard (power_in local_shard (signer_ids qc)) = true.
Proof.
  intros Hb Hrun Hstep. pose proof (recount_free_inv _ Hrun) as Hi. inv Hstep as [| | | |vs b ?? Hres|].
  destruct (build_qc_power _ _ _ _ _ _ _ _ _ Hb
    (Forall_sublist _ _ _ (fi_snapshot _ Hi) (fi_verified _ Hi)) (fi_taken _ Hi)
    ltac:(eapply sublist_NoDup; [apply (fi_nodup _ Hi)|];
          apply sublist_app; [|done];
          etrans; [apply fmap_sublist, (fi_snapshot _ Hi)|by apply sublist_inserts_r]) Hres)
    as [Hp Hq].
  by rewrite Hp in Hq.
Qed.

(** ** A validator is heard once *)

Lemma step_seen fl e fl' i :
  flow_step fl e fl' -> has_seen_validator (fl_set fl) i = true ->
  has_seen_validator (fl_set fl') i = true.
Proof.
  intros Hstep Hs. destruct Hstep; cbn [fl_set] in *.
  - by apply has_seen_buffer.
  - by apply has_seen_add.
  - done.
  - done.
  - done.
  - unfold has_seen_validator in *. by destruct (on_votes_verified_frame vs votes) as (_ & _ & ->).
Qed.

(** Any number of steps. *)
Inductive flow_steps : Flow -> Flow -> Prop :=
  | steps_refl fl : flow_steps fl fl
  | steps_next fl e fl' fl'' : flow_step fl e fl' -> flow_steps fl' fl'' -> flow_steps fl fl''.

(** the first vote in a validator's name is final.  Once any vote for
    committee index [i] has been buffered, with a valid signature or not,
    every later vote for [i] is refused, also after the batch with the first
    one came back as invalid: a forged vote silences the validator for this
    block. *)
Theorem first_vote_is_final vs b i id vote pk fl vote' pk' p :
  local_committee !! i = Some id -> wf committee_len vs ->
  flow_steps (mk_flow (buffer_unverified_vote vs i vote pk (power_of id)).1 b) fl ->
  buffer_unverified_vote (fl_set fl) i vote' pk' p = (fl_set fl, false) /\
  add_verified_vote (fl_set fl) i vote' p = (fl_set fl, false).
Proof.
  intros Hid Hwf Hsteps. enough (has_seen_validator (fl_set fl) i = true) as Hs
    by by unfold buffer_unverified_vote, add_verified_vote; rewrite Hs.
  assert (has_seen_validator (buffer_unverified_vote vs i vote pk (power_of id)).1 i = true) as H0.
  { unfold buffer_unverified_vote. destruct (has_seen_validator vs i) eqn:E; [done|].
    apply (seen_after _ vs i vote i (committee_lt _ _ Hid) Hwf). by right. }
  remember (mk_flow _ b) as fl0 eqn:E. assert (has_seen_validator (fl_set fl0) i = true) as H1
    by by subst fl0. clear E H0.
  induction Hsteps as [|fl0 e fl1 fl2 Hstep Hsteps IH]; [done|]. apply IH. by eapply step_seen.
Qed.
End flow.

(** ** Concrete runs *)

(** A block at height 5 whose hash under [sample_crypto] is [sample_block]. *)
Definition sample_header : BlockHeader := {|
  bh_height := 5; bh_parent_hash := 70; bh_parent_qc := QC.genesis; bh_proposer := 1;
  bh_timestamp := 0; bh_round := 0; bh_is_fallback := false; bh_state_root := 0;
  bh_state_version := 0; bh_transaction_root := 0
|}.
Definition sample_block : Hash :=
  Eval vm_compute in @header_hash sample_crypto sample_header.

(** A vote for it in the name of validator [i], signed with key [k]. *)
Definition signed_vote (i k : N) : BlockVote :=
  mk_block_vote sample_block 5 0 i
    (@sign_v1 sample_crypto k (block_vote_message 0 5 0 sample_block)) 100.

(** The states of a run at validator 0: its own vote, two votes in the names
    of 1 and 2 with bad signatures, a batch of these, and a valid vote of 3. *)
Definition run0 : VoteSet := @new sample_crypto (Some sample_header) 4.
Definition run1 : VoteSet := (add_verified_vote run0 0 (signed_vote 0 1) 1).1.
Definition run2 : VoteSet := (buffer_unverified_vote run1 1 (signed_vote 1 99) 2 1).1.
Definition run3 : VoteSet := (buffer_unverified_vote run2 2 (signed_vote 2 99) 3 1).1.
Definition batch1 : Batch :=
  mk_batch sample_block 5 0 70 (take_unverified_votes run3).2 (get_verified_votes run3).
Definition run4 : VoteSet := (take_unverified_votes run3).1.
Definition run5 : VoteSet := on_votes_verified run4 [(0%nat, signed_vote 0 1, 1)].
Definition run6 : VoteSet := (buffer_unverified_vote run5 3 (signed_vote 3 4) 4 1).1.
Definition batch2 : Batch :=
  mk_batch sample_block 5 0 70 (take_unverified_votes run6).2 (get_verified_votes run6).
Definition run7 : VoteSet := (take_unverified_votes run6).1.

#[local] Abbreviation step := (@flow_step sample_crypto (sample_topology 0)) (only parsing).

#[local] Abbreviation own_step vs i v e :=
  (@step_own sample_crypto (sample_topology 0) vs None i _ v e) (only parsing).
#[local] Abbreviation buffer_step vs i v k e :=
  (@step_buffer sample_crypto (sample_topology 0) vs None i _ v k e) (only parsing).

Lemma run3_reached : @flow_run sample_crypto (sample_topology 0) (mk_flow run3 None).
Proof.
  eapply run_step; [eapply run_step; [eapply run_step; [exact (run_init (Some sample_header))|]|]|].
  - exact (own_step run0 0 (signed_vote 0 1) (eq_refl (Some 0))).
  - exact (buffer_step run1 1 (signed_vote 1 99) 2 (eq_refl (Some 1))).
  - exact (buffer_step run2 2 (signed_vote 2 99) 3 (eq_refl (Some 2))).
Qed.

Lemma run7_reached : @flow_run sample_crypto (sample_topology 0) (mk_flow run7 (Some batch2)).
Proof.
  eapply run_step; [eapply run_step; [eapply run_step; [eapply run_step; [exact run3_reached|]|]|]|].
  - eapply (step_trigger run3 sample_block 5 0 70 sample_block); vm_compute; reflexivity.
  - eapply (step_failed run4 batch1 [(0%nat, signed_vote 0 1, 1)]). vm_compute; reflexivity.
  - exact (buffer_step run5 3 (signed_vote 3 4) 4 (eq_refl (Some 3))).
  - eapply (step_trigger run6 sample_block 5 0 70 sample_block); vm_compute; reflexivity.
Qed.

(** a failed batch makes a vote count twice.  [get_verified_votes] copies
    the verified votes into the batch and [on_votes_verified] appends all of
    them again when the batch fails, so in a committee of four the validator
    ends up with a certificate that claims power 3, a quorum, while its two
    distinct signers have power 2, which is none. *)
Theorem failed_batch_recounts_votes : exists fl qc fl',
  @flow_run sample_crypto (sample_topology 0) fl /\
  step fl (Built qc) fl' /\
  signer_ids (T := sample_topology 0) qc = {[0; 3]} /\
  qc_voting_power qc = 3 /\
  has_quorum_for_shard (H := sample_topology 0) 0 (qc_voting_power qc) = true /\
  has_quorum_for_shard (H := sample_topology 0) 0
    (power_in (T := sample_topology 0) 0 (signer_ids (T := sample_topology 0) qc)) = false.
Proof.
  set (qc := match @batch_result sample_crypto (sample_topology 0) batch2 with
             | Some (Some qc, _) => qc | _ => QC.genesis end).
  exists (mk_flow run7 (Some batch2)), qc, (mk_flow (on_qc_built run7) None).
  split_and!.
  - exact run7_reached.
  - apply (step_built run7 batch2 qc []). vm_compute; reflexivity.
  - apply (bool_decide_unpack _). vm_compute; reflexivity.
  - vm_compute; reflexivity.
  - vm_compute; reflexivity.
  - vm_compute; reflexivity.
Qed.

(** A run without a failed batch: three valid votes. *)
Definition good2 : VoteSet := (buffer_unverified_vote run1 1 (signed_vote 1 2) 2 1).1.
Definition good3 : VoteSet := (buffer_unverified_vote good2 2 (signed_vote 2 3) 3 1).1.
Definition good_batch : Batch :=
  mk_batch sample_block 5 0 70 (take_unverified_votes good3).2 (get_verified_votes good3).
Definition good_qc : QuorumCertificate :=
  match @batch_result sample_crypto (sample_topology 0) good_batch with
  | Some (Some qc, _) => qc | _ => QC.genesis end.

Lemma flow_certificate_power_witness :
  qc_voting_power good_qc
  = power_in (T := sample_topology 0) 0 (signer_ids (T := sample_topology 0) good_qc) /\
  has_quorum_for_shard (H := sample_topology 0) 0
    (power_in (T := sample_topology 0) 0 (signer_ids (T := sample_topology 0) good_qc)) = true.
Proof.
  apply (@flow_certificate_power sample_crypto (sample_topology 0) (sample_topology_laws 0)
    (mk_flow (take_unverified_votes good3).1 (Some good_batch)) good_qc
    (mk_flow (on_qc_built (take_unverified_votes good3).1) None)).
  - vm_compute; reflexivity.
  - eapply rfr_step; [eapply rfr_step; [eapply rfr_step; [eapply rfr_step;
      [exact (rfr_init (Some sample_header))| |]| |]| |]| |].
    + exact (own_step run0 0 (signed_vote 0 1) (eq_refl (Some 0))).
    + discriminate.
    + exact (buffer_step run1 1 (signed_vote 1 2) 2 (eq_refl (Some 1))).
    + discriminate.
    + exact (buffer_step good2 2 (signed_vote 2 3) 3 (eq_refl (Some 2))).
    + discriminate.
    + eapply (step_trigger good3 sample_block 5 0 70 sample_block); vm_compute; reflexivity.
    + discriminate.
  - apply (step_built _ good_batch good_qc []). vm_compute; reflexivity.
Defined.

(** After the failed batch, the genuine vote of validator 1 is refused. *)
Lemma first_vote_is_final_witness :
  buffer_unverified_vote run5 1 (signed_vote 1 2) 2 1 = (run5, false) /\
  add_verified_vote run5 1 (signed_vote 1 2) 1 = (run5, false).
Proof.
  apply (@first_vote_is_final sample_crypto (sample_topology 0) run1 None 1 1 (signed_vote 1 99) 2
    (mk_flow run5 None)).
  - vm_compute; reflexivity.
  - exact (add_verified_wf 4 run0 0 (signed_vote 0 1) 1 ltac:(lia)
      (@vote_set_new_wf sample_crypto (Some sample_header) 4)).
  - eapply steps_next; [exact (buffer_step run2 2 (signed_vote 2 99) 3 (eq_refl (Some 2)))|].
    eapply steps_next; [eapply (step_trigger run3 sample_block 5 0 70 sample_block);
      vm_compute; reflexivity|].
    eapply steps_next; [eapply (step_failed run4 batch1 [(0%nat, signed_vote 0 1, 1)]);
      vm_compute; reflexivity|].
    exact (steps_refl _).
Defined.
