(* ===== verification/PendingBlock.v ===== *)
(** * Pending blocks (crates/bft/src/pending.rs)

    A [PendingBlock] collects the transactions and certificates a proposed
    header names, in any order, and assembles the block once nothing is
    missing.  The theorem at the end is the round trip: the assembled block
    carries exactly the announced hashes, section by section and in order. *)

From stdpp Require Import base gmap list numbers.
From S2P Require Import Prelude Bitfield Types.

Record PendingBlock := mk_pending_block {
  pb_header : BlockHeader;
  pb_retry_order : list Hash;
  pb_priority_order : list Hash;
  pb_other_order : list Hash;
  pb_original_cert_order : list Hash;
  pb_received_transactions : gmap Hash RoutableTransaction;
  pb_missing_transaction_hashes : gset Hash;
  pb_received_certificates : gmap Hash TransactionCertificate;
  pb_missing_certificate_hashes : gset Hash;
  pb_deferred : list TransactionDefer;
  pb_aborted : list TransactionAbort;
  pb_commitment_proofs : gmap Hash CommitmentProof;
  pb_constructed_block : option Block
}.

#[export] Instance PendingBlock_eta : Eta PendingBlock := fun r =>
  mk_pending_block (pb_header r) (pb_retry_order r) (pb_priority_order r) (pb_other_order r)
    (pb_original_cert_order r) (pb_received_transactions r) (pb_missing_transaction_hashes r)
    (pb_received_certificates r) (pb_missing_certificate_hashes r) (pb_deferred r) (pb_aborted r)
    (pb_commitment_proofs r) (pb_constructed_block r).

Module PendingBlockOps.
Definition with_proofs (header : BlockHeader)
    (retry_hashes priority_hashes transaction_hashes certificate_hashes : list Hash)
    (deferred : list TransactionDefer) (aborted : list TransactionAbort)
    (commitment_proofs : gmap Hash CommitmentProof) : PendingBlock := {|
  pb_header := header;
  pb_retry_order := retry_hashes;
  pb_priority_order := priority_hashes;
  pb_other_order := transaction_hashes;
  pb_original_cert_order := certificate_hashes;
  pb_received_transactions := ∅;
  pb_missing_transaction_hashes :=
    list_to_set retry_hashes ∪ list_to_set priority_hashes ∪ list_to_set transaction_hashes;
  pb_received_certificates := ∅;
  pb_missing_certificate_hashes := list_to_set certificate_hashes;
  pb_deferred := deferred;
  pb_aborted := aborted;
  pb_commitment_proofs := commitment_proofs;
  pb_constructed_block := None
|}.

(** [PendingBlock::full] and [PendingBlock::new]. *)
Definition full header retry_hashes priority_hashes transaction_hashes certificate_hashes
    deferred aborted : PendingBlock :=
  with_proofs header retry_hashes priority_hashes transaction_hashes certificate_hashes
    deferred aborted ∅.
Definition new header retry_hashes priority_hashes transaction_hashes certificate_hashes
    : PendingBlock :=
  full header retry_hashes priority_hashes transaction_hashes certificate_hashes [] [].

Definition needs_transaction (pb : PendingBlock) (tx_hash : Hash) : bool :=
  bool_decide (tx_hash ∈ pb_missing_transaction_hashes pb).

(** [add_transaction_arc]: true when the transaction was needed. *)
Definition add_transaction_arc (pb : PendingBlock) (tx : RoutableTransaction)
    : PendingBlock * bool :=
  let hash := rt_hash tx in
  if bool_decide (hash ∈ pb_missing_transaction_hashes pb) then
    (pb <| pb_missing_transaction_hashes ::= fun X => X ∖ {[hash]} |>
        <| pb_received_transactions ::= fun m => <[hash := tx]> m |>, true)
  else (pb, false).

Definition add_certificate (pb : PendingBlock) (cert : TransactionCertificate)
    : PendingBlock * bool :=
  let cert_hash := tc_transaction_hash cert in
  if bool_decide (cert_hash ∈ pb_missing_certificate_hashes pb) then
    (pb <| pb_missing_certificate_hashes ::= fun X => X ∖ {[cert_hash]} |>
        <| pb_received_certificates ::= fun m => <[cert_hash := cert]> m |>, true)
  else (pb, false).

Definition is_complete (pb : PendingBlock) : bool :=
  bool_decide (pb_missing_transaction_hashes pb = ∅)
  && bool_decide (pb_missing_certificate_hashes pb = ∅).

Definition missing_transaction_count (pb : PendingBlock) : usize :=
  size (pb_missing_transaction_hashes pb).
Definition missing_certificate_count (pb : PendingBlock) : usize :=
  size (pb_missing_certificate_hashes pb).
Definition missing_transactions `{HashIter} (pb : PendingBlock) : list Hash :=
  hs_iter (pb_missing_transaction_hashes pb).
Definition missing_certificates `{HashIter} (pb : PendingBlock) : list Hash :=
  hs_iter (pb_missing_certificate_hashes pb).

(** [order.iter().filter_map(|hash| received.remove(hash)).collect()]. *)
Fixpoint take_in_order {A} (order : list Hash) (received : gmap Hash A) : list A * gmap Hash A :=
  match order with
  | [] => ([], received)
  | hash :: order' =>
      match received !! hash with
      | Some x =>
          let '(xs, received') := take_in_order order' (delete hash received) in
          (x :: xs, received')
      | None => take_in_order order' received
      end
  end.

(** The result is [None] for the error of an incomplete block. *)
Definition construct_block (pb : PendingBlock) : PendingBlock * option Block :=
  if negb (is_complete pb) then (pb, None)
  else match pb_constructed_block pb with
  | Some block => (pb, Some block)
  | None =>
      let '(retry_transactions, r1) :=
        take_in_order (pb_retry_order pb) (pb_received_transactions pb) in
      let '(priority_transactions, r2) := take_in_order (pb_priority_order pb) r1 in
      let '(transactions, r3) := take_in_order (pb_other_order pb) r2 in
      let '(certificates, rc) :=
        take_in_order (pb_original_cert_order pb) (pb_received_certificates pb) in
      let block := {|
        bl_header := pb_header pb;
        bl_retry_transactions := retry_transactions;
        bl_priority_transactions := priority_transactions;
        bl_transactions := transactions;
        bl_certificates := certificates;
        bl_deferred := pb_deferred pb;
        bl_aborted := pb_aborted pb;
        bl_commitment_proofs := pb_commitment_proofs pb
      |} in
      (pb <| pb_received_transactions := r3 |>
          <| pb_received_certificates := rc |>
          <| pb_deferred := [] |>
          <| pb_aborted := [] |>
          <| pb_commitment_proofs := ∅ |>
          <| pb_constructed_block := Some block |>, Some block)
  end.

Definition block (pb : PendingBlock) : option Block := pb_constructed_block pb.

Definition all_transaction_hashes (pb : PendingBlock) : list Hash :=
  pb_retry_order pb ++ pb_priority_order pb ++ pb_other_order pb.

(** ** Receiving, in any order *)

Inductive receipt := ReceivedTx (tx : RoutableTransaction) | ReceivedCert (c : TransactionCertificate).

Definition receive (pb : PendingBlock) (r : receipt) : PendingBlock :=
  match r with
  | ReceivedTx tx => (add_transaction_arc pb tx).1
  | ReceivedCert c => (add_certificate pb c).1
  end.

(** What is received is keyed by its hash, and together with what is missing
    it is what the header announced. *)
Record inv (txs certs : gset Hash) (pb : PendingBlock) : Prop := {
  inv_txs : dom (pb_received_transactions pb) ∪ pb_missing_transaction_hashes pb = txs;
  inv_certs : dom (pb_received_certificates pb) ∪ pb_missing_certificate_hashes pb = certs;
  inv_tx_key : forall h tx, pb_received_transactions pb !! h = Some tx -> rt_hash tx = h;
  inv_cert_key : forall h c, pb_received_certificates pb !! h = Some c -> tc_transaction_hash c = h
}.

Lemma receive_inv txs certs pb r : inv txs certs pb -> inv txs certs (receive pb r).
Proof.
  intros [H1 H2 H3 H4]. destruct r as [tx|c]; cbn [receive].
  - unfold add_transaction_arc. case_bool_decide as Hin; [|done]. split; cbn; [|done| |done].
    + rewrite dom_insert_L, <- H1. apply set_eq. intros h. rewrite !elem_of_union, elem_of_difference,
        elem_of_singleton. destruct (decide (h = rt_hash tx)) as [->|]; tauto.
    + intros h t [[<- <-]|[_ Ht]]%lookup_insert_Some; [done|by apply H3].
  - unfold add_certificate. case_bool_decide as Hin; [|done]. split; cbn; [done| |done|].
    + rewrite dom_insert_L, <- H2. apply set_eq. intros h. rewrite !elem_of_union, elem_of_difference,
        elem_of_singleton. destruct (decide (h = tc_transaction_hash c)) as [->|]; tauto.
    + intros h t [[<- <-]|[_ Ht]]%lookup_insert_Some; [done|by apply H4].
Qed.

Lemma receive_frame pb r :
  pb_header (receive pb r) = pb_header pb /\ pb_retry_order (receive pb r) = pb_retry_order pb /\
  pb_priority_order (receive pb r) = pb_priority_order pb /\
  pb_other_order (receive pb r) = pb_other_order pb /\
  pb_original_cert_order (receive pb r) = pb_original_cert_order pb /\
  pb_deferred (receive pb r) = pb_deferred pb /\ pb_aborted (receive pb r) = pb_aborted pb /\
  pb_commitment_proofs (receive pb r) = pb_commitment_proofs pb /\
  pb_constructed_block (receive pb r) = pb_constructed_block pb.
Proof.
  destruct r; cbn [receive]; unfold add_transaction_arc, add_certificate;
    case_bool_decide; by cbn.
Qed.

(** ** Taking in order *)

Lemma take_in_order_spec {A} (key : A -> Hash) (order : list Hash) (m : gmap Hash A) :
  NoDup order -> (forall h, h ∈ order -> is_Some (m !! h)) ->
  (forall h x, m !! h = Some x -> key x = h) ->
  key <$> (take_in_order order m).1 = order /\
  (forall h, h ∉ order -> (take_in_order order m).2 !! h = m !! h) /\
  (take_in_order order m).2 ⊆ m.
Proof.
  intros Hnd. revert m. induction Hnd as [|h order Hni Hnd IH]; intros m Hin Hkey; [done|].
  cbn [take_in_order]. destruct (Hin h) as [x Hx]; [by left|]. rewrite Hx.
  destruct (IH (delete h m)) as (IH1 & IH2 & IH3).
  { intros k Hk. rewrite lookup_delete_ne by (intros ->; done). apply Hin. by right. }
  { intros k y Hy. apply lookup_delete_Some in Hy as [_ Hy]. by apply Hkey. }
  destruct (take_in_order order (delete h m)) as [xs m'] eqn:E. cbn [fst snd] in *.
  rewrite fmap_cons, IH1, (Hkey h x Hx). split_and!; [done| |].
  - intros k Hk. rewrite IH2 by set_solver. rewrite lookup_delete_ne; [done|]. set_solver.
  - etrans; [done|]. apply delete_subseteq.
Qed.

(** Three sections taken one after the other. *)
Lemma take_sections {A} (key : A -> Hash) (o1 o2 o3 : list Hash) (m : gmap Hash A) :
  NoDup (o1 ++ o2 ++ o3) -> (forall h, h ∈ o1 ++ o2 ++ o3 -> is_Some (m !! h)) ->
  (forall h x, m !! h = Some x -> key x = h) ->
  exists l1 m1 l2 m2 l3 m3,
    take_in_order o1 m = (l1, m1) /\ take_in_order o2 m1 = (l2, m2) /\
    take_in_order o3 m2 = (l3, m3) /\
    key <$> l1 = o1 /\ key <$> l2 = o2 /\ key <$> l3 = o3.
Proof.
  intros Hnd Hin Hkey.
  apply list.NoDup_app in Hnd as (N1 & D1 & Hnd). apply list.NoDup_app in Hnd as (N2 & D2 & N3).
  destruct (take_in_order_spec key o1 m) as (A1 & B1 & C1); [done|set_solver|done|].
  destruct (take_in_order o1 m) as [l1 m1] eqn:T1. cbn in A1, B1, C1.
  assert (forall h x, m1 !! h = Some x -> key x = h) as Hkey1
    by (intros h x Hx; by eapply Hkey, lookup_weaken).
  destruct (take_in_order_spec key o2 m1) as (A2 & B2 & C2);
    [done|intros h Hh; rewrite B1; set_solver|done|].
  destruct (take_in_order o2 m1) as [l2 m2] eqn:T2. cbn in A2, B2, C2.
  destruct (take_in_order_spec key o3 m2) as (A3 & _);
    [done|intros h Hh; rewrite B2, B1; set_solver| |].
  { intros h x Hx. by eapply Hkey1, lookup_weaken. }
  destruct (take_in_order o3 m2) as [l3 m3] eqn:T3. cbn in A3.
  exists l1, m1, l2, m2, l3, m3. done.
Qed.

(** ** Completeness *)

Definition tx_hashes (rs : list receipt) : list Hash :=
  omap (fun r => match r with ReceivedTx tx => Some (rt_hash tx) | _ => None end) rs.
Definition cert_hashes (rs : list receipt) : list Hash :=
  omap (fun r => match r with ReceivedCert c => Some (tc_transaction_hash c) | _ => None end) rs.

Lemma receive_missing pb r :
  pb_missing_transaction_hashes (receive pb r)
    = pb_missing_transaction_hashes pb ∖ list_to_set (tx_hashes [r]) /\
  pb_missing_certificate_hashes (receive pb r)
    = pb_missing_certificate_hashes pb ∖ list_to_set (cert_hashes [r]).
Proof.
  destruct r as [tx|c]; cbn [receive]; unfold add_transaction_arc, add_certificate;
    case_bool_decide; cbn; set_solver.
Qed.

Lemma receive_all_missing rs pb :
  pb_missing_transaction_hashes (foldl receive pb rs)
    = pb_missing_transaction_hashes pb ∖ list_to_set (tx_hashes rs) /\
  pb_missing_certificate_hashes (foldl receive pb rs)
    = pb_missing_certificate_hashes pb ∖ list_to_set (cert_hashes rs).
Proof.
  revert pb. induction rs as [|r rs IH]; intros pb; [cbn; set_solver|]. cbn [foldl].
  destruct (IH (receive pb r)) as [-> ->]. destruct (receive_missing pb r) as [-> ->].
  change (r :: rs) with ([r] ++ rs). unfold tx_hashes, cert_hashes.
  rewrite !omap_app, !list_to_set_app_L. set_solver.
Qed.

Lemma receive_all_inv txs certs rs pb : inv txs certs pb -> inv txs certs (foldl receive pb rs).
Proof. revert pb. induction rs as [|r rs IH]; intros pb Hi; [done|]. by apply IH, receive_inv. Qed.

Lemma receive_all_frame rs pb :
  let pb' := foldl receive pb rs in
  pb_header pb' = pb_header pb /\ pb_retry_order pb' = pb_retry_order pb /\
  pb_priority_order pb' = pb_priority_order pb /\ pb_other_order pb' = pb_other_order pb /\
  pb_original_cert_order pb' = pb_original_cert_order pb /\
  pb_deferred pb' = pb_deferred pb /\ pb_aborted pb' = pb_aborted pb /\
  pb_commitment_proofs pb' = pb_commitment_proofs pb /\
  pb_constructed_block pb' = pb_constructed_block pb.
Proof.
  revert pb. induction rs as [|r rs IH]; intros pb; [by cbn|]. cbn [foldl].
  destruct (IH (receive pb r)) as (-> & -> & -> & -> & -> & -> & -> & -> & ->).
  apply receive_frame.
Qed.

(** a pending block is complete exactly when every announced transaction
    and certificate has been received, in whatever order and with whatever
    duplicates and strangers among them. *)
Theorem pending_complete_iff header retry priority other certs deferred aborted proofs rs :
  is_complete (foldl receive
    (with_proofs header retry priority other certs deferred aborted proofs) rs) = true <->
  (forall h, h ∈ retry ++ priority ++ other -> h ∈ tx_hashes rs) /\
  (forall h, h ∈ certs -> h ∈ cert_hashes rs).
Proof.
  unfold is_complete. rewrite andb_true_iff, !bool_decide_eq_true.
  destruct (receive_all_missing rs
    (with_proofs header retry priority other certs deferred aborted proofs)) as [-> ->].
  cbn. setoid_rewrite elem_of_app. setoid_rewrite elem_of_app. split.
  - intros [H1 H2]. split; intros h Hh.
    + destruct (decide (h ∈ tx_hashes rs)) as [|Hn]; [done|]. exfalso.
      apply (not_elem_of_empty (C := gset Hash) h). rewrite <- H1. set_solver.
    + destruct (decide (h ∈ cert_hashes rs)) as [|Hn]; [done|]. exfalso.
      apply (not_elem_of_empty (C := gset Hash) h). rewrite <- H2. set_solver.
  - intros [H1 H2]. split; apply set_eq; intros h; rewrite elem_of_difference;
      repeat rewrite ?elem_of_union, ?elem_of_list_to_set; specialize (H1 h); specialize (H2 h);
      pose proof (not_elem_of_empty (C := gset Hash) h); tauto.
Qed.

(** the assembled block is the announced one.  When a pending block is
    complete, [construct_block] succeeds with the announced header, with
    transactions whose hashes are the announced hashes of each section in the
    announced order, with the announced certificates in order, and with the
    deferrals, aborts and proofs of the header; a second call returns the
    same block. *)
Theorem pending_block_roundtrip header retry priority other certs deferred aborted proofs rs :
  NoDup (retry ++ priority ++ other) -> NoDup certs ->
  let pb := foldl receive
    (with_proofs header retry priority other certs deferred aborted proofs) rs in
  is_complete pb = true ->
  exists b, (construct_block pb).2 = Some b /\
    bl_header b = header /\
    rt_hash <$> bl_retry_transactions b = retry /\
    rt_hash <$> bl_priority_transactions b = priority /\
    rt_hash <$> bl_transactions b = other /\
    tc_transaction_hash <$> bl_certificates b = certs /\
    bl_deferred b = deferred /\ bl_aborted b = aborted /\ bl_commitment_proofs b = proofs /\
    construct_block (construct_block pb).1 = ((construct_block pb).1, Some b).
Proof.
  intros Hnd Hndc pb Hc.
  assert (inv (list_to_set (retry ++ priority ++ other)) (list_to_set certs) pb) as Hi.
  { apply receive_all_inv. split; cbn; [set_solver|set_solver|done|done]. }
  destruct (receive_all_frame rs
    (with_proofs header retry priority other certs deferred aborted proofs))
    as (E1 & E2 & E3 & E4 & E5 & E6 & E7 & E8 & E9). fold pb in E1, E2, E3, E4, E5, E6, E7, E8, E9.
  cbn in E1, E2, E3, E4, E5, E6, E7, E8, E9.
  pose proof Hc as [Hm Hmc]%andb_true_iff. rewrite bool_decide_eq_true in Hm, Hmc.
  destruct Hi as [H1 H2 H3 H4]. rewrite Hm, union_empty_r_L in H1. rewrite Hmc, union_empty_r_L in H2.
  assert (forall h, h ∈ retry ++ priority ++ other -> is_Some (pb_received_transactions pb !! h)) as Hr.
  { intros h Hh. apply elem_of_dom. rewrite H1. by apply elem_of_list_to_set. }
  destruct (take_sections rt_hash retry priority other (pb_received_transactions pb))
    as (l1 & m1 & l2 & m2 & l3 & m3 & T1 & T2 & T3 & K1 & K2 & K3); [done..|].
  destruct (take_in_order_spec tc_transaction_hash certs (pb_received_certificates pb))
    as (Kc & _); [done| |done|].
  { intros h Hh. apply elem_of_dom. rewrite H2. by apply elem_of_list_to_set. }
  destruct (take_in_order certs (pb_received_certificates pb)) as [lc mc] eqn:Tc.
  unfold construct_block at 1 3 4. rewrite Hc, E9, E1, E2, E3, E4, E5, E6, E7, E8, T1, T2, T3, Tc.
  cbn [negb fst snd]. eexists. split; [reflexivity|]. split_and!; try done.
  unfold construct_block. change (is_complete (upd _ _)) with (is_complete pb). by rewrite Hc.
Qed.

Lemma pending_block_roundtrip_witness :
  let header := bl_header (genesis_block QC.genesis) in
  let tx h := mk_routable_transaction [] [] [] None h in
  let pb := foldl receive (with_proofs header [9] [] [3; 5] [7] [] [] ∅)
    [ReceivedTx (tx 5); ReceivedTx (tx 8); ReceivedCert (mk_transaction_certificate 7 Accept ∅);
     ReceivedTx (tx 9); ReceivedTx (tx 5); ReceivedTx (tx 3)] in
  exists b, (construct_block pb).2 = Some b /\ rt_hash <$> bl_transactions b = [3; 5].
Proof.
  intros header tx pb.
  destruct (pending_block_roundtrip header [9] [] [3; 5] [7] [] [] ∅
    [ReceivedTx (tx 5); ReceivedTx (tx 8); ReceivedCert (mk_transaction_certificate 7 Accept ∅);
     ReceivedTx (tx 9); ReceivedTx (tx 5); ReceivedTx (tx 3)])
    as (b & E & _ & _ & _ & Ht & _).
  - apply (bool_decide_unpack _); vm_compute; reflexivity.
  - apply (bool_decide_unpack _); vm_compute; reflexivity.
  - vm_compute; reflexivity.
  - exists b. split; assumption.
Defined.
End PendingBlockOps.
