(* ===== verification/BftState.v ===== *)
(** * Consensus state (crates/bft/src/state.rs, config.rs, core/src/action.rs)

    The record [BftState], the actions and internal events consensus emits, and
    the operations the handlers share: construction and recovery, time, sync
    mode, the view-change clock, block lookup and the pruning of old state.
    The topology is the class [Topology]; logging is left out. *)

From stdpp Require Import base gmap list numbers.
From Stdlib Require Import NArith Lia.
From S2P Require Import Prelude Bitfield Types Encoding Topology VoteSet Core PendingBlock.

(** ** Configuration (config.rs) *)

Record BftConfig := mk_bft_config {
  cfg_proposal_interval : Duration;
  cfg_view_change_timeout : Duration;
  cfg_view_change_timeout_increment : Duration;
  cfg_view_change_timeout_max : option Duration;
  cfg_max_transactions_per_block : usize;
  cfg_max_certificates_per_block : usize;
  cfg_max_timestamp_delay_ms : u64;
  cfg_max_timestamp_rush_ms : u64;
  cfg_transaction_fetch_timeout : Duration;
  cfg_certificate_fetch_timeout : Duration;
  cfg_cleanup_interval : Duration;
  cfg_min_block_interval : Duration
}.


Definition default_config : BftConfig := {|
  cfg_proposal_interval := from_millis 300;
  cfg_view_change_timeout := from_secs 3;
  cfg_view_change_timeout_increment := from_millis 500;
  cfg_view_change_timeout_max := Some (from_secs 30);
  cfg_max_transactions_per_block := 1024;
  cfg_max_certificates_per_block := 4096;
  cfg_max_timestamp_delay_ms := 30000;
  cfg_max_timestamp_rush_ms := 2000;
  cfg_transaction_fetch_timeout := from_millis 50;
  cfg_certificate_fetch_timeout := from_millis 500;
  cfg_cleanup_interval := from_secs 1;
  cfg_min_block_interval := from_millis 150
|}.

(** ** State *)

Record RecoveredState := mk_recovered_state {
  rec_voted_heights : gmap u64 (Hash * u64);
  rec_committed_height : u64;
  rec_committed_hash : option Hash;
  rec_latest_qc : option QuorumCertificate;
  rec_jmt_state : option (u64 * Hash)
}.

Record PendingSyncedBlockVerification := mk_pending_synced {
  psv_block : Block;
  psv_qc : QuorumCertificate;
  psv_verified : bool
}.

Record PendingCycleProofVerifications := mk_pending_cycle {
  pcv_total : usize;
  pcv_verified : usize;
  pcv_all_valid : bool
}.

Record PendingStateRootVerification := mk_pending_state_root {
  psr_required_root : Hash;
  psr_expected_root : Hash;
  psr_certificates : list TransactionCertificate
}.

Record PendingProposal := mk_pending_proposal {
  pp_height : BlockHeight;
  pp_round : u64
}.

Record BftState := mk_bft_state {
  s_signing_key : Bls12381G1PrivateKey;
  s_shard_group : ShardGroupId;
  s_view : u64;
  s_view_at_height_start : u64;
  s_committed_height : u64;
  s_committed_hash : Hash;
  s_latest_qc : option QuorumCertificate;
  s_genesis_block : option Block;
  s_pending_blocks : gmap Hash PendingBlock;
  s_pending_block_created_at : gmap Hash Duration;
  s_vote_sets : gmap Hash VoteSet;
  s_voted_heights : gmap u64 (Hash * u64);
  s_received_votes_by_height : gmap (u64 * ValidatorId) (Hash * u64);
  s_certified_blocks : gmap Hash (Block * QuorumCertificate);
  s_pending_qc_verifications : gmap Hash BlockHeader;
  s_pending_synced_block_verifications : gmap Hash PendingSyncedBlockVerification;
  s_pending_cycle_proof_verifications : gmap Hash PendingCycleProofVerifications;
  s_state_root_verifications_in_flight : gset Hash;
  s_pending_state_root_verifications : gmap Hash PendingStateRootVerification;
  s_last_committed_jmt_state : u64 * Hash;
  s_last_chain_committed_state_version : u64;
  s_verified_state_roots : gset Hash;
  s_verified_transaction_roots : gset Hash;
  s_transaction_root_verifications_in_flight : gset Hash;
  s_verified_cycle_proofs : gset Hash;
  s_verified_qcs : gmap Hash u64;
  s_buffered_synced_blocks : gmap u64 (Block * QuorumCertificate);
  s_pending_commits : gmap u64 (Hash * QuorumCertificate);
  s_pending_commits_awaiting_data : gmap Hash (u64 * QuorumCertificate);
  s_pending_proposal : option PendingProposal;
  s_config : BftConfig;
  s_now : Duration;
  s_last_proposal_time : Duration;
  s_last_leader_activity : Duration;
  s_last_header_reset : option (u64 * u64);
  s_syncing : bool;
  s_view_changes : u64
}.

#[export] Instance BftState_eta : Eta BftState := fun r =>
  mk_bft_state (s_signing_key r) (s_shard_group r) (s_view r) (s_view_at_height_start r)
    (s_committed_height r) (s_committed_hash r) (s_latest_qc r) (s_genesis_block r)
    (s_pending_blocks r) (s_pending_block_created_at r) (s_vote_sets r) (s_voted_heights r)
    (s_received_votes_by_height r) (s_certified_blocks r) (s_pending_qc_verifications r)
    (s_pending_synced_block_verifications r) (s_pending_cycle_proof_verifications r)
    (s_state_root_verifications_in_flight r) (s_pending_state_root_verifications r)
    (s_last_committed_jmt_state r) (s_last_chain_committed_state_version r)
    (s_verified_state_roots r) (s_verified_transaction_roots r)
    (s_transaction_root_verifications_in_flight r) (s_verified_cycle_proofs r)
    (s_verified_qcs r) (s_buffered_synced_blocks r) (s_pending_commits r)
    (s_pending_commits_awaiting_data r) (s_pending_proposal r) (s_config r) (s_now r)
    (s_last_proposal_time r) (s_last_leader_activity r) (s_last_header_reset r) (s_syncing r)
    (s_view_changes r).

#[export] Instance PendingSynced_eta : Eta PendingSyncedBlockVerification := fun r =>
  mk_pending_synced (psv_block r) (psv_qc r) (psv_verified r).
#[export] Instance PendingCycle_eta : Eta PendingCycleProofVerifications := fun r =>
  mk_pending_cycle (pcv_total r) (pcv_verified r) (pcv_all_valid r).

(** ** Operations *)

Section bft_state.
Context `{Crypto} `{Topology} `{HashIter}.

Abbreviation bft := (handler BftState Action) (only parsing).

(** [BftState::new]. *)
Definition bft_new (signing_key : Bls12381G1PrivateKey) (config : BftConfig)
    (recovered : RecoveredState) : BftState := {|
  s_signing_key := signing_key;
  s_shard_group := local_shard;
  s_view := 0;
  s_view_at_height_start := 0;
  s_committed_height := rec_committed_height recovered;
  s_committed_hash := default (blake3 (replicate 32 0)) (rec_committed_hash recovered);
  s_latest_qc := rec_latest_qc recovered;
  s_genesis_block := None;
  s_pending_blocks := ∅;
  s_pending_block_created_at := ∅;
  s_vote_sets := ∅;
  s_voted_heights :=
    hm_retain (fun height _ => rec_committed_height recovered <? height)
      (rec_voted_heights recovered);
  s_received_votes_by_height := ∅;
  s_certified_blocks := ∅;
  s_pending_qc_verifications := ∅;
  s_pending_synced_block_verifications := ∅;
  s_pending_cycle_proof_verifications := ∅;
  s_state_root_verifications_in_flight := ∅;
  s_pending_state_root_verifications := ∅;
  s_last_committed_jmt_state := default (0, ZERO) (rec_jmt_state recovered);
  s_last_chain_committed_state_version := default 0 (fst <$> rec_jmt_state recovered);
  s_verified_state_roots := ∅;
  s_verified_transaction_roots := ∅;
  s_transaction_root_verifications_in_flight := ∅;
  s_verified_cycle_proofs := ∅;
  s_verified_qcs := ∅;
  s_buffered_synced_blocks := ∅;
  s_pending_commits := ∅;
  s_pending_commits_awaiting_data := ∅;
  s_pending_proposal := None;
  s_config := config;
  s_now := 0;
  s_last_proposal_time := 0;
  s_last_leader_activity := 0;
  s_last_header_reset := None;
  s_syncing := false;
  s_view_changes := 0
|}.

Definition get_block_by_hash (s : BftState) (hash : Hash) : option Block :=
  match s_certified_blocks s !! hash with
  | Some (b, _) => Some b
  | None =>
      match s_pending_blocks s !! hash ≫= PendingBlockOps.block with
      | Some b => Some b
      | None =>
          match s_genesis_block s with
          | Some genesis => if block_hash genesis =? hash then Some genesis else None
          | None => None
          end
      end
  end.

Definition set_time (now : Duration) (s : BftState) : BftState := s <| s_now := now |>.

(** *** Sync mode *)

Definition set_syncing (syncing : bool) (s : BftState) : BftState :=
  (if negb syncing && s_syncing s then s <| s_last_leader_activity := s_now s |> else s)
  <| s_syncing := syncing |>.

Definition start_sync (target_height : u64) (target_hash : Hash) : bft := fun s =>
  if s_syncing s then (s, [])
  else (set_syncing true s, [StartSync target_height target_hash]).

(** *** The view-change clock *)

Definition record_leader_activity (s : BftState) : BftState :=
  s <| s_last_leader_activity := s_now s |>.

Definition record_header_activity (height round : u64) (s : BftState) : BftState :=
  if bool_decide (s_last_header_reset s = Some (height, round)) then s
  else s <| s_last_leader_activity := s_now s |>
         <| s_last_header_reset := Some (height, round) |>.

(** [rounds_at_height as u32] keeps the low 32 bits. *)
Definition current_view_change_timeout (s : BftState) : Duration :=
  let rounds_at_height := s_view s - s_view_at_height_start s in
  let timeout := cfg_view_change_timeout (s_config s)
    + cfg_view_change_timeout_increment (s_config s) * (rounds_at_height mod 2 ^ 32) in
  match cfg_view_change_timeout_max (s_config s) with
  | Some max => N.min timeout max
  | None => timeout
  end.

Definition should_advance_round (s : BftState) : bool :=
  current_view_change_timeout s <=? s_now s - s_last_leader_activity s.

(** *** The height to work on *)

(** [latest_qc.map(|qc| qc.height.0 + 1).unwrap_or(committed_height + 1)]. *)
Definition next_height (s : BftState) : u64 :=
  match s_latest_qc s with
  | Some qc => qc_height qc +w 1
  | None => s_committed_height s +w 1
  end.

Definition is_current_proposer (s : BftState) : bool := should_propose (next_height s) (s_view s).

Definition will_propose_next (s : BftState) : bool :=
  should_propose (next_height s) (s_view s) && negb (contains_key (s_voted_heights s) (next_height s)).

(** *** Genesis and recovery *)

Definition start_timers (s : BftState) : list Action :=
  [SetTimer ProposalTimer (cfg_proposal_interval (s_config s));
   SetTimer CleanupTimer (cfg_cleanup_interval (s_config s))].

Definition initialize_genesis (genesis : Block) : bft := fun s =>
  (s <| s_last_chain_committed_state_version := bh_state_version (bl_header genesis) |>
     <| s_genesis_block := Some genesis |>
     <| s_committed_hash := block_hash genesis |>,
   start_timers s).

Definition request_recovery (s : BftState) : list Action := [FetchChainMetadata].

(** *** Pruning *)

(** [opt.is_none_or(p)]. *)
Definition is_none_or {A} (o : option A) (p : A -> bool) : bool :=
  match o with Some x => p x | None => true end.

(** The number of cleared entries is only logged. *)
Definition clear_vote_tracking_for_height (height new_round : u64) (s : BftState) : BftState :=
  s <| s_received_votes_by_height ::= hm_retain (fun k _ => negb (k.1 =? height)) |>
    <| s_vote_sets ::= hm_retain (fun _ vs =>
         is_none_or (vs_height vs) (fun h => negb (h =? height))
         || is_none_or (vs_round vs) (fun r => new_round <=? r)) |>.

Definition cleanup_old_state (committed_height : u64) (s : BftState) : BftState * list Hash :=
  let removed_hashes :=
    fst <$> filter (fun kp => bh_height (pb_header kp.2) <= committed_height)
              (hm_iter (s_pending_blocks s)) in
  let pending_blocks :=
    hm_retain (fun _ pb => committed_height <? bh_height (pb_header pb)) (s_pending_blocks s) in
  let is_pending := contains_key pending_blocks in
  (s <| s_pending_blocks := pending_blocks |>
     <| s_pending_block_created_at ::= hm_retain (fun hash _ => is_pending hash) |>
     <| s_vote_sets ::= hm_retain (fun _ vs =>
          is_none_or (vs_height vs) (fun h => committed_height <? h)) |>
     <| s_voted_heights ::= hm_retain (fun height _ => committed_height <? height) |>
     <| s_received_votes_by_height ::= hm_retain (fun k _ => committed_height <? k.1) |>
     <| s_certified_blocks ::= hm_retain (fun _ bq =>
          committed_height <? bh_height (bl_header bq.1)) |>
     <| s_pending_commits_awaiting_data ::= hm_retain (fun _ hq => committed_height <? hq.1) |>
     <| s_buffered_synced_blocks ::= hm_retain (fun height _ => committed_height <? height) |>
     <| s_pending_synced_block_verifications ::= hm_retain (fun _ p =>
          committed_height <? bh_height (bl_header (psv_block p))) |>
     <| s_pending_qc_verifications ::= hm_retain (fun hash _ => is_pending hash) |>
     <| s_pending_cycle_proof_verifications ::= hm_retain (fun hash _ => is_pending hash) |>
     <| s_verified_cycle_proofs ::= hs_retain is_pending |>
     <| s_pending_state_root_verifications ::= hm_retain (fun hash _ => is_pending hash) |>
     <| s_state_root_verifications_in_flight ::= hs_retain is_pending |>
     <| s_verified_state_roots ::= hs_retain is_pending |>
     <| s_transaction_root_verifications_in_flight ::= hs_retain is_pending |>
     <| s_verified_transaction_roots ::= hs_retain is_pending |>
     <| s_verified_qcs ::= hm_retain (fun _ height => committed_height - 2 <? height) |>,
   removed_hashes).

Definition on_chain_metadata_fetched (height : BlockHeight) (hash : option Hash)
    (qc : option QuorumCertificate) : bft := fun s =>
  match height, hash with
  | 0, None => (s, [])
  | _, _ =>
      let s1 := s <| s_committed_height := height |>
                  <| s_committed_hash ::= fun old => default old hash |>
                  <| s_latest_qc := qc |>
                  <| s_view_at_height_start := s_view s |> in
      let '(s2, removed_blocks) := cleanup_old_state height s1 in
      (s2, start_timers s2 ++ (CancelFetch <$> removed_blocks))
  end.

(** *** Fetching and sync health *)

Definition fetches_for (s : BftState) (block_hash : Hash) (pending : PendingBlock) : list Action :=
  if PendingBlockOps.is_complete pending then []
  else match s_pending_block_created_at s !! block_hash with
  | None => []
  | Some created_at =>
      let age := s_now s - created_at in
      let proposer := bh_proposer (pb_header pending) in
      let missing_txs := PendingBlockOps.missing_transactions pending in
      let missing_certs := PendingBlockOps.missing_certificates pending in
      (if negb (Nat.eqb (length missing_txs) 0) && (cfg_transaction_fetch_timeout (s_config s) <=? age)
       then [FetchTransactions block_hash proposer missing_txs] else [])
      ++ (if negb (Nat.eqb (length missing_certs) 0)
             && (cfg_certificate_fetch_timeout (s_config s) <=? age)
          then [FetchCertificates block_hash proposer missing_certs] else [])
  end.

Definition check_pending_block_fetches (s : BftState) : list Action :=
  if s_syncing s then []
  else flat_map (fun '(block_hash, pending) => fetches_for s block_hash pending)
         (hm_iter (s_pending_blocks s)).

Definition on_sync_complete : bft := fun s =>
  let s1 := set_syncing false s in (s1, check_pending_block_fetches s1).

Definition has_complete_block_at_height (s : BftState) (height : u64) : bool :=
  (height <=? s_committed_height s)
  || existsb (fun '(_, pb) => (bh_height (pb_header pb) =? height)
               && PendingBlockOps.is_complete pb
               && match PendingBlockOps.block pb with Some _ => true | None => false end)
       (hm_iter (s_pending_blocks s))
  || existsb (fun '(_, bq) => bh_height (bl_header bq.1) =? height) (hm_iter (s_certified_blocks s))
  || existsb (fun '(_, p) => bh_height (bl_header (psv_block p)) =? height)
       (hm_iter (s_pending_synced_block_verifications s))
  || contains_key (s_buffered_synced_blocks s) height.

Definition check_sync_health : bft := fun s =>
  match s_latest_qc s with
  | None => (s, [])
  | Some latest_qc =>
      let qc_height := qc_height latest_qc in
      let qc_hash := qc_block_hash latest_qc in
      if qc_height <=? s_committed_height s then (s, [])
      else if s_syncing s then (s, [])
      else
        let next_needed_height := s_committed_height s +w 1 in
        let gap := qc_height - s_committed_height s in
        if has_complete_block_at_height s next_needed_height then
          if contains_key (s_pending_commits s) next_needed_height then
            if 10 <? gap then start_sync qc_height qc_hash s else (s, [])
          else if 3 <? gap then start_sync qc_height qc_hash s else (s, [])
        else start_sync qc_height qc_hash s
  end.

(** *** Unlocking (the lock is an entry of [voted_heights]) *)

Definition maybe_unlock_for_qc (qc : QuorumCertificate) (s : BftState) : BftState :=
  if QC.is_genesis qc then s
  else
    (if s_view s <? qc_round qc then s <| s_view := qc_round qc |> else s)
    <| s_voted_heights ::= hm_retain (fun h _ => negb (h <=? qc_height qc)) |>.
End bft_state.
