(* ===== verification/BftVote.v ===== *)
(** * Validating and voting (crates/bft/src/state.rs)

    Header and block validation, the asynchronous checks before a vote, vote
    creation and vote collection.  An error result is a constructor of the
    error type, and success is [None]. *)

From stdpp Require Import base gmap list numbers.
From Stdlib Require Import NArith Lia.
From S2P Require Import Prelude Bitfield Types Encoding Topology Transactions VoteSet Core.
From S2P Require Import PendingBlock BftState.

Section bft_vote.
Context `{Crypto} `{Topology} `{HashIter}.

Abbreviation bft := (handler BftState Action) (only parsing).

(** ** Header validation *)

Inductive HeaderError :=
  | AtOrBelowCommitted | WrongProposer | ParentQcNoQuorum | ParentQcHeight | ParentHashMismatch
  | GenesisQcHeight | TimestampTooOld | TimestampTooFarAhead.

Definition validate_timestamp (s : BftState) (header : BlockHeader) : option HeaderError :=
  if header_is_genesis header then None
  else if bh_is_fallback header then None
  else
    let now := as_millis_u64 (s_now s) in
    if bh_timestamp header <? now - cfg_max_timestamp_delay_ms (s_config s)
    then Some TimestampTooOld
    else if now +w cfg_max_timestamp_rush_ms (s_config s) <? bh_timestamp header
    then Some TimestampTooFarAhead
    else None.

Definition validate_header (s : BftState) (header : BlockHeader) : option HeaderError :=
  let height := bh_height header in
  let round := bh_round header in
  if height <=? s_committed_height s then Some AtOrBelowCommitted
  else if negb (bool_decide (proposer_for height round = Some (bh_proposer header)))
  then Some WrongProposer
  else
    let parent_qc := bh_parent_qc header in
    let qc_error :=
      if negb (QC.is_genesis parent_qc) then
        if negb (VotePower.has_quorum (qc_voting_power parent_qc) local_voting_power)
        then Some ParentQcNoQuorum
        else if negb (qc_height parent_qc +w 1 =? height) then Some ParentQcHeight
        else if negb (bh_parent_hash header =? qc_block_hash parent_qc)
        then Some ParentHashMismatch
        else None
      else if negb (height =? s_committed_height s +w 1) then Some GenesisQcHeight
      else None in
    match qc_error with
    | Some e => Some e
    | None => validate_timestamp s header
    end.

(** ** Block contents *)

Inductive BlockError :=
  | DeferralHashOrder | DeferralWinnerCertified | DeferralLoserCertified | DeferralWinnerMismatch
  | AbortBeforeCommit | AbortZeroRetries
  | SectionUnsorted | NotARetry | RetryInSection | NoCommitmentProof | HasCommitmentProof.

(** The first error of a list of checks, as a sequence of [return Err]. *)
Fixpoint first_error {A} (check : A -> option BlockError) (l : list A) : option BlockError :=
  match l with
  | [] => None
  | x :: l' => match check x with Some e => Some e | None => first_error check l' end
  end.

Definition check_deferral (cert_hashes : gset Hash) (deferral : TransactionDefer)
    : option BlockError :=
  let winner_tx_hash := winner_hash deferral in
  if td_tx_hash deferral <=? winner_tx_hash then Some DeferralHashOrder
  else if bool_decide (winner_tx_hash ∈ cert_hashes) then Some DeferralWinnerCertified
  else if bool_decide (td_tx_hash deferral ∈ cert_hashes) then Some DeferralLoserCertified
  else if negb (cyp_winner_tx_hash (td_proof deferral) =? winner_tx_hash)
  then Some DeferralWinnerMismatch
  else None.

Definition check_abort (abort : TransactionAbort) : option BlockError :=
  match ta_reason abort with
  | ExecutionTimeout committed_at =>
      if ta_block_height abort <? committed_at then Some AbortBeforeCommit else None
  | TooManyRetries retry_count => if retry_count =? 0 then Some AbortZeroRetries else None
  | ExecutionRejected _ => None
  end.

Definition validate_deferrals_and_aborts (block : Block) : option BlockError :=
  let cert_hashes : gset Hash := list_to_set (tc_transaction_hash <$> bl_certificates block) in
  match first_error (check_deferral cert_hashes) (bl_deferred block) with
  | Some e => Some e
  | None => first_error check_abort (bl_aborted block)
  end.

(** [txs.windows(2)]. *)
Fixpoint verify_hash_sorted (txs : list RoutableTransaction) : option BlockError :=
  match txs with
  | tx1 :: ((tx2 :: _) as rest) =>
      if rt_hash tx2 <=? rt_hash tx1 then Some SectionUnsorted else verify_hash_sorted rest
  | _ => None
  end.

Definition check_retry_section (tx : RoutableTransaction) : option BlockError :=
  if is_retry tx then None else Some NotARetry.

Definition check_priority_section (block : Block) (tx : RoutableTransaction) : option BlockError :=
  if is_retry tx then Some RetryInSection
  else if has_commitment_proof block (rt_hash tx) then None
  else Some NoCommitmentProof.

Definition check_other_section (block : Block) (tx : RoutableTransaction) : option BlockError :=
  if is_retry tx then Some RetryInSection
  else if has_commitment_proof block (rt_hash tx) then Some HasCommitmentProof
  else None.

(** [a?; b]. *)
Definition or_error (a b : option BlockError) : option BlockError :=
  match a with Some e => Some e | None => b end.

Definition validate_transaction_ordering (block : Block) : option BlockError :=
  or_error (verify_hash_sorted (bl_retry_transactions block))
  (or_error (verify_hash_sorted (bl_priority_transactions block))
  (or_error (verify_hash_sorted (bl_transactions block))
  (or_error (first_error check_retry_section (bl_retry_transactions block))
  (or_error (first_error (check_priority_section block) (bl_priority_transactions block))
     (first_error (check_other_section block) (bl_transactions block)))))).

(** ** Vote collection *)

Definition maybe_trigger_vote_verification (block_hash : Hash) : bft := fun s =>
  let total_power := local_voting_power in
  match s_vote_sets s !! block_hash with
  | None => (s, [])
  | Some vote_set =>
      if negb (VoteSetOps.should_trigger_verification vote_set total_power) then (s, [])
      else
        match VoteSetOps.verification_data vote_set with
        | None => (s, [])
        | Some (_, height, round, parent_block_hash) =>
            let verified_votes := VoteSetOps.get_verified_votes vote_set in
            let '(vote_set', votes_to_verify) := VoteSetOps.take_unverified_votes vote_set in
            let s' := s <| s_vote_sets ::= fun m => <[block_hash := vote_set']> m |> in
            if Nat.eqb (length votes_to_verify) 0 then (s', [])
            else
              (s', [VerifyAndBuildQuorumCertificate block_hash height round parent_block_hash
                      (block_vote_message (s_shard_group s) height round block_hash)
                      votes_to_verify verified_votes total_power])
        end
  end.

Definition on_block_vote_internal (vote : BlockVote) : bft := fun s =>
  let block_hash := bv_block_hash vote in
  let height := bv_height vote in
  let is_own_vote := bv_voter vote =? local_validator_id in
  if height <=? s_committed_height s then (s, [])
  else match local_committee_index (bv_voter vote) with
  | None => (s, [])
  | Some voter_index =>
      let voting_power := power_of (bv_voter vote) in
      if voting_power =? 0 then (s, [])
      else
        let header_for_vote := pb_header <$> s_pending_blocks s !! block_hash in
        match (if is_own_vote then Some None else Some <$> public_key (bv_voter vote)) with
        | None => (s, [])
        | Some key =>
            let vote_set :=
              default (VoteSetOps.new header_for_vote (length local_committee))
                (s_vote_sets s !! block_hash) in
            let with_set vs := s <| s_vote_sets ::= fun m => <[block_hash := vs]> m |> in
            if VoteSetOps.has_seen_validator vote_set voter_index then (with_set vote_set, [])
            else
              match key with
              | None =>
                  maybe_trigger_vote_verification block_hash
                    (with_set (VoteSetOps.add_verified_vote vote_set voter_index vote voting_power).1)
              | Some pk =>
                  maybe_trigger_vote_verification block_hash
                    (with_set (VoteSetOps.buffer_unverified_vote vote_set voter_index vote pk
                                 voting_power).1)
              end
        end
  end.

Definition on_block_vote (vote : BlockVote) : bft := on_block_vote_internal vote.

(** View synchronization and equivocation detection for one verified vote. *)
Definition note_verified_vote (block_hash : Hash) (s : BftState) (v : VerifiedVote) : BftState :=
  let vote := VoteSetOps.v_vote v in
  let s1 := if s_view s <? bv_round vote then s <| s_view := bv_round vote |> else s in
  let vote_key := (bv_height vote, bv_voter vote) in
  let equivocates :=
    match s_received_votes_by_height s1 !! vote_key with
    | Some (existing_hash, existing_round) =>
        negb (existing_hash =? block_hash) && (existing_round =? bv_round vote)
    | None => false
    end in
  if equivocates then s1
  else s1 <| s_received_votes_by_height ::= fun m =>
         <[vote_key := (block_hash, bv_round vote)]> m |>.

Definition on_qc_result (block_hash : Hash) (qc : option QuorumCertificate)
    (verified_votes : list VerifiedVote) : bft := fun s =>
  match qc with
  | Some qc =>
      (s <| s_vote_sets ::= alter VoteSetOps.on_qc_built block_hash |>,
       [EnqueueInternal (QuorumCertificateFormed block_hash qc)])
  | None =>
      let s1 := foldl (note_verified_vote block_hash) s verified_votes in
      match s_vote_sets s1 !! block_hash with
      | None => (s1, [])
      | Some vote_set =>
          maybe_trigger_vote_verification block_hash
            (s1 <| s_vote_sets ::= fun m =>
               <[block_hash := VoteSetOps.on_votes_verified vote_set verified_votes]> m |>)
      end
  end.

(** ** Voting *)

Definition create_vote (block_hash : Hash) (height round : u64) : bft := fun s =>
  let s1 := s <| s_voted_heights ::= fun m => <[height := (block_hash, round)]> m |> in
  let signing_message := block_vote_message (s_shard_group s1) height round block_hash in
  let vote := {|
    bv_block_hash := block_hash;
    bv_height := height;
    bv_round := round;
    bv_voter := local_validator_id;
    bv_signature := sign_v1 (s_signing_key s1) signing_message;
    bv_timestamp := as_millis_u64 (s_now s1)
  |} in
  (hemit [PersistAndBroadcastVote height round block_hash local_shard (BlockVoteMessage vote)]
   ;> on_block_vote_internal vote) s1.

(** *** Asynchronous checks *)

Definition block_needs_cycle_proof_verification (s : BftState) (block : Block) : bool :=
  if Nat.eqb (length (bl_deferred block)) 0 then false
  else
    let hash := block_hash block in
    negb (bool_decide (hash ∈ s_verified_cycle_proofs s)
          || contains_key (s_pending_cycle_proof_verifications s) hash).

Definition resolve_commitment_proof_signers (proof : CommitmentProof) (source_shard : ShardGroupId)
    : list Bls12381G1PublicKey :=
  filter_map (fun idx => committee_for_shard source_shard !! idx ≫= public_key)
    (SignerBitfieldOps.set_indices (cp_signers proof)).

Definition cycle_proof_action (s : BftState) (block_hash : Hash) (idx : usize)
    (deferral : TransactionDefer) : Action :=
  let proof := td_proof deferral in
  let commitment := cyp_winner_commitment proof in
  let source_shard := winner_source_shard proof in
  VerifyCycleProof block_hash idx proof
    (resolve_commitment_proof_signers commitment source_shard)
    (state_provision_message (cp_tx_hash commitment) (s_shard_group s) source_shard
       (cp_block_height commitment) (cp_block_timestamp commitment)
       (entry_hash <$> cp_entries commitment))
    (quorum_threshold_for_shard source_shard).

Definition initiate_cycle_proof_verification (block_hash : Hash) (block : Block) : bft := fun s =>
  if Nat.eqb (length (bl_deferred block)) 0 then (s, [])
  else
    (s <| s_pending_cycle_proof_verifications ::= fun m =>
            <[block_hash := mk_pending_cycle (length (bl_deferred block)) 0 true]> m |>,
     imap (cycle_proof_action s block_hash) (bl_deferred block)).

Definition block_verifications_complete (s : BftState) (block : Block) : bool :=
  let hash := block_hash block in
  let cycle_proof_ok :=
    if Nat.eqb (length (bl_deferred block)) 0 then true
    else bool_decide (hash ∈ s_verified_cycle_proofs s) in
  let state_root_ok :=
    if Nat.eqb (length (bl_certificates block)) 0 then true
    else bool_decide (hash ∈ s_verified_state_roots s) in
  let transaction_root_ok :=
    if Nat.eqb (transaction_count block) 0 then true
    else bool_decide (hash ∈ s_verified_transaction_roots s) in
  cycle_proof_ok && state_root_ok && transaction_root_ok.

Definition block_needs_state_root_verification (s : BftState) (block : Block) : bool :=
  if Nat.eqb (length (bl_certificates block)) 0 then false
  else
    let hash := block_hash block in
    negb (bool_decide (hash ∈ s_verified_state_roots s)
          || bool_decide (hash ∈ s_state_root_verifications_in_flight s)
          || contains_key (s_pending_state_root_verifications s) hash).

Definition initiate_state_root_verification (block_hash : Hash) (block : Block) : bft := fun s =>
  let current_root := (s_last_committed_jmt_state s).2 in
  let parent_state_root :=
    match get_block_by_hash s (bh_parent_hash (bl_header block)) with
    | Some parent => bh_state_root (bl_header parent)
    | None => current_root
    end in
  if current_root =? parent_state_root then
    (s <| s_state_root_verifications_in_flight ::= fun X => {[block_hash]} ∪ X |>,
     [VerifyStateRoot block_hash parent_state_root (bh_state_root (bl_header block))
        (bl_certificates block)])
  else
    (s <| s_pending_state_root_verifications ::= fun m =>
            <[block_hash := mk_pending_state_root parent_state_root
                              (bh_state_root (bl_header block)) (bl_certificates block)]> m |>, []).

Definition block_needs_transaction_root_verification (s : BftState) (block : Block) : bool :=
  if Nat.eqb (transaction_count block) 0 then false
  else
    let hash := block_hash block in
    negb (bool_decide (hash ∈ s_verified_transaction_roots s)
          || bool_decide (hash ∈ s_transaction_root_verifications_in_flight s)).

Definition initiate_transaction_root_verification (block_hash : Hash) (block : Block) : bft :=
  fun s =>
  (s <| s_transaction_root_verifications_in_flight ::= fun X => {[block_hash]} ∪ X |>,
   [VerifyTransactionRoot block_hash (bh_transaction_root (bl_header block))
      (bl_retry_transactions block) (bl_priority_transactions block) (bl_transactions block)]).

(** *** The decision *)

Definition when (c : BftState -> bool) (h : bft) : bft := fun s => if c s then h s else (s, []).

(** The verifications started for a block, in the order of the source. *)
Definition initiate_verifications (block_hash : Hash) (block : Block) : bft :=
  when (fun s => block_needs_cycle_proof_verification s block)
    (initiate_cycle_proof_verification block_hash block)
  ;> when (fun s => block_needs_state_root_verification s block)
    (initiate_state_root_verification block_hash block)
  ;> when (fun s => block_needs_transaction_root_verification s block)
    (initiate_transaction_root_verification block_hash block).

Definition try_vote_on_block (block_hash : Hash) (height round : u64) : bft := fun s =>
  match s_voted_heights s !! height with
  | Some _ => (s, [])
  | None =>
      match s_pending_blocks s !! block_hash ≫= PendingBlockOps.block with
      | Some block =>
          match validate_deferrals_and_aborts block with
          | Some _ => (s, [])
          | None =>
              match validate_transaction_ordering block with
              | Some _ => (s, [])
              | None =>
                  let '(s1, verification_actions) := initiate_verifications block_hash block s in
                  if negb (Nat.eqb (length verification_actions) 0)
                  then (s1, verification_actions)
                  else create_vote block_hash height round s1
              end
          end
      | None => create_vote block_hash height round s
      end
  end.

Definition collect_qc_signer_keys : option (list Bls12381G1PublicKey) :=
  mapM public_key local_committee.

Definition trigger_qc_verification_or_vote (block_hash : Hash) : bft := fun s =>
  match s_pending_blocks s !! block_hash with
  | None => (s, [])
  | Some pending =>
      let header := pb_header pending in
      let height := bh_height header in
      let round := bh_round header in
      let parent_qc := bh_parent_qc header in
      if negb (QC.is_genesis parent_qc) then
        if contains_key (s_verified_qcs s) (qc_block_hash parent_qc)
        then try_vote_on_block block_hash height round s
        else if contains_key (s_pending_qc_verifications s) block_hash then (s, [])
        else match collect_qc_signer_keys with
        | None => (s, [])
        | Some public_keys =>
            (s <| s_pending_qc_verifications ::= fun m => <[block_hash := header]> m |>,
             [VerifyQcSignature parent_qc public_keys block_hash
                (block_vote_message (s_shard_group s) (qc_height parent_qc) (qc_round parent_qc)
                   (qc_block_hash parent_qc))])
        end
      else try_vote_on_block block_hash height round s
  end.

(** *** Results *)

(** The common tail of the verification callbacks: vote if everything the
    block needs has been verified. *)
Definition vote_if_verified (block_hash : Hash) : bft := fun s =>
  match s_pending_blocks s !! block_hash with
  | None => (s, [])
  | Some pending_block =>
      match PendingBlockOps.block pending_block with
      | None => (s, [])
      | Some block =>
          if negb (block_verifications_complete s block) then (s, [])
          else create_vote block_hash (bh_height (pb_header pending_block))
                 (bh_round (pb_header pending_block)) s
      end
  end.

Definition on_cycle_proof_verified (block_hash : Hash) (deferral_index : usize) (valid : bool)
    : bft := fun s =>
  match s_pending_cycle_proof_verifications s !! block_hash with
  | None => (s, [])
  | Some p =>
      let p1 := p <| pcv_verified ::= S |>
                  <| pcv_all_valid ::= fun b => if valid then b else false |> in
      if Nat.ltb (pcv_verified p1) (pcv_total p1) then
        (s <| s_pending_cycle_proof_verifications ::= fun m => <[block_hash := p1]> m |>, [])
      else
        let s1 := s <| s_pending_cycle_proof_verifications ::= delete block_hash |> in
        if negb (pcv_all_valid p1) then (s1 <| s_pending_blocks ::= delete block_hash |>, [])
        else vote_if_verified block_hash
               (s1 <| s_verified_cycle_proofs ::= fun X => {[block_hash]} ∪ X |>)
  end.

Definition on_state_root_verified (block_hash : Hash) (valid : bool) : bft := fun s =>
  let s1 := s <| s_state_root_verifications_in_flight ::= fun X => X ∖ {[block_hash]} |> in
  if negb valid then (s1 <| s_pending_blocks ::= delete block_hash |>, [])
  else vote_if_verified block_hash (s1 <| s_verified_state_roots ::= fun X => {[block_hash]} ∪ X |>).

Definition on_transaction_root_verified (block_hash : Hash) (valid : bool) : bft := fun s =>
  let s1 := s <| s_transaction_root_verifications_in_flight ::= fun X => X ∖ {[block_hash]} |> in
  if negb valid then (s1 <| s_pending_blocks ::= delete block_hash |>, [])
  else vote_if_verified block_hash
         (s1 <| s_verified_transaction_roots ::= fun X => {[block_hash]} ∪ X |>).
End bft_vote.
