(* ===== verification/BftCommit.v ===== *)
(** * Committing blocks and applying synced blocks (crates/bft/src/state.rs)

    The two-chain commit path, the buffers for commits that arrive early, the
    path of blocks fetched by sync, and the handlers that complete a pending
    block.  The six functions from [commit_block_and_buffered] to
    [drain_pending_commits] call each other in a cycle.  Each takes the
    recursive call as an argument, [commit_rec] closes the cycle with a depth
    bound, and BftLoops.v proves the bounds are enough: the definitions
    satisfy the source's unbounded equations. *)

From stdpp Require Import base gmap list numbers.
From Stdlib Require Import NArith Lia.
From S2P Require Import Prelude Bitfield Types Encoding Topology VoteSet Core PendingBlock.
From S2P Require Import BftState BftVote.

Section bft_commit.
Context `{Crypto} `{Topology} `{HashIter}.

Abbreviation bft := (handler BftState Action) (only parsing).

(** The block a commit acts on: the pending block's, if there is a pending
    block, and a certified block otherwise. *)
Definition block_to_commit (s : BftState) (block_hash : Hash) : option Block :=
  match s_pending_blocks s !! block_hash with
  | Some pending => PendingBlockOps.block pending
  | None => fst <$> s_certified_blocks s !! block_hash
  end.

(** ** The commit loop *)

(** One turn of the loop for a block at the expected height. *)
Definition commit_one (current_hash : Hash) (block : Block) : bft := fun s =>
  let height := bh_height (bl_header block) in
  let s1 := record_leader_activity
    (s <| s_committed_height := height |>
       <| s_committed_hash := current_hash |>
       <| s_last_chain_committed_state_version := bh_state_version (bl_header block) |>
       <| s_view_at_height_start := s_view s |>) in
  let '(s2, removed_blocks) := cleanup_old_state height s1 in
  (s2, (CancelFetch <$> removed_blocks)
       ++ [EmitCommittedBlock block; EnqueueInternal (BlockCommitted current_hash height block)]).

(** [loop] of [commit_block_and_buffered]; [fuel] bounds the buffered commits
    taken after the first block. *)
Fixpoint commit_loop (fuel : nat) (current_hash : Hash) : bft := fun s =>
  match block_to_commit s current_hash with
  | None => (s, [])
  | Some block =>
      let height := bh_height (bl_header block) in
      if negb (height =? s_committed_height s +w 1) then (s, [])
      else
        (commit_one current_hash block ;> fun s1 =>
           match s_pending_commits s1 !! (height +w 1), fuel with
           | Some (next_hash, _), S fuel' =>
               commit_loop fuel' next_hash (s1 <| s_pending_commits ::= delete (height +w 1) |>)
           | _, _ => (s1, [])
           end) s
  end.

(** ** The cycle, with the call to [commit_block_and_buffered] open *)

Section open_recursion.
Variable commit : Hash -> bft.

Definition on_block_ready_to_commit_with (block_hash : Hash) (qc : QuorumCertificate) : bft :=
  fun s =>
  match block_to_commit s block_hash with
  | None =>
      match s_pending_blocks s !! block_hash with
      | Some pending =>
          let height := bh_height (pb_header pending) in
          if s_committed_height s <? height
          then (s <| s_pending_commits_awaiting_data ::= fun m =>
                       <[block_hash := (height, qc)]> m |>, [])
          else (s, [])
      | None => (s, [])
      end
  | Some block =>
      let height := bh_height (bl_header block) in
      if height <=? s_committed_height s then (s, [])
      else if negb (height =? s_committed_height s +w 1)
      then (s <| s_pending_commits ::= fun m => <[height := (block_hash, qc)]> m |>, [])
      else commit block_hash s
  end.

Fixpoint drain_pending_commits_loop (fuel : nat) : bft := fun s =>
  match fuel with
  | O => (s, [])
  | S fuel' =>
      let next_height := s_committed_height s +w 1 in
      match s_pending_commits s !! next_height with
      | None => (s, [])
      | Some (block_hash, qc) =>
          (on_block_ready_to_commit_with block_hash qc ;> fun s1 =>
             if s_committed_height s1 <? next_height then (s1, [])
             else drain_pending_commits_loop fuel' s1)
          (s <| s_pending_commits ::= delete next_height |>)
      end
  end.

Definition drain_pending_commits_with : bft := fun s =>
  drain_pending_commits_loop (size (s_pending_commits s)) s.

(** [if latest_qc.is_none_or(|e| qc.height > e.height)], then update and unlock. *)
Definition adopt_qc (qc : QuorumCertificate) (s : BftState) : BftState :=
  if is_none_or (s_latest_qc s) (fun existing => qc_height existing <? qc_height qc)
  then maybe_unlock_for_qc qc (s <| s_latest_qc := Some qc |>)
  else s.

Definition apply_synced_block_with (block : Block) (qc : QuorumCertificate) : bft := fun s =>
  let hash := block_hash block in
  let height := bh_height (bl_header block) in
  let s1 := s <| s_committed_height := height |>
              <| s_committed_hash := hash |>
              <| s_last_chain_committed_state_version := bh_state_version (bl_header block) |>
              <| s_view_at_height_start := s_view s |> in
  let s2 := adopt_qc qc s1 in
  let parent_qc := bh_parent_qc (bl_header block) in
  let s3 := if QC.is_genesis parent_qc then s2 else adopt_qc parent_qc s2 in
  let '(s4, removed_blocks) := cleanup_old_state height s3 in
  (hemit ([PersistBlock block qc; EmitCommittedBlock block;
           EnqueueInternal (BlockCommitted hash height block)]
          ++ (CancelFetch <$> removed_blocks))
   ;> drain_pending_commits_with) s4.

Definition submit_synced_block_for_verification_with (block : Block) (qc : QuorumCertificate)
    : bft := fun s =>
  let hash := block_hash block in
  if QC.is_genesis qc then apply_synced_block_with block qc s
  else match collect_qc_signer_keys with
  | None => (s, [])
  | Some public_keys =>
      (s <| s_pending_synced_block_verifications ::= fun m =>
              <[hash := mk_pending_synced block qc false]> m |>,
       [VerifyQcSignature qc public_keys hash
          (block_vote_message (s_shard_group s) (qc_height qc) (qc_round qc) (qc_block_hash qc))])
  end.

(** [while submitted < slots_available]. *)
Fixpoint drain_synced_loop (slots : nat) (next_height : u64) : bft := fun s =>
  match slots with
  | O => (s, [])
  | S slots' =>
      match s_buffered_synced_blocks s !! next_height with
      | None => (s, [])
      | Some (block, qc) =>
          (submit_synced_block_for_verification_with block qc
           ;> drain_synced_loop slots' (next_height +w 1))
          (s <| s_buffered_synced_blocks ::= delete next_height |>)
      end
  end.

Definition MAX_PARALLEL_SYNC_VERIFICATIONS : usize := 16.

(** [values().map(height).max().unwrap_or(committed_height)]. *)
Definition highest_pending_height (s : BftState) : u64 :=
  match (fun kp => bh_height (bl_header (psv_block kp.2)))
          <$> hm_iter (s_pending_synced_block_verifications s) with
  | [] => s_committed_height s
  | heights => foldr N.max 0 heights
  end.

Definition try_drain_buffered_synced_blocks_with : bft := fun s =>
  let pending_count := size (s_pending_synced_block_verifications s) in
  if Nat.leb MAX_PARALLEL_SYNC_VERIFICATIONS pending_count then (s, [])
  else
    drain_synced_loop (MAX_PARALLEL_SYNC_VERIFICATIONS - pending_count)
      (N.max (highest_pending_height s) (s_committed_height s) +w 1) s.

Definition commit_block_and_buffered_with (block_hash : Hash) : bft := fun s =>
  (commit_loop (size (s_pending_commits s)) block_hash
   ;> try_drain_buffered_synced_blocks_with) s.
End open_recursion.

(** ** The cycle closed

    Between two nested calls a block leaves [buffered_synced_blocks], so its
    size bounds the depth. *)

Fixpoint commit_rec (depth : nat) (block_hash : Hash) : bft :=
  match depth with
  | O => hskip
  | S depth' => commit_block_and_buffered_with (commit_rec depth') block_hash
  end.

Definition commit_block_and_buffered (block_hash : Hash) : bft := fun s =>
  commit_rec (S (size (s_buffered_synced_blocks s))) block_hash s.

Definition on_block_ready_to_commit := on_block_ready_to_commit_with commit_block_and_buffered.
Definition drain_pending_commits := drain_pending_commits_with commit_block_and_buffered.
Definition apply_synced_block := apply_synced_block_with commit_block_and_buffered.
Definition submit_synced_block_for_verification :=
  submit_synced_block_for_verification_with commit_block_and_buffered.
Definition try_drain_buffered_synced_blocks :=
  try_drain_buffered_synced_blocks_with commit_block_and_buffered.

(** ** Synced blocks *)

(** [find] over the pending verifications. *)
Definition find_verified_at (s : BftState) (height : u64) : option Hash :=
  fst <$> List.find (fun kp => psv_verified kp.2 && (bh_height (bl_header (psv_block kp.2)) =? height))
            (hm_iter (s_pending_synced_block_verifications s)).

Fixpoint apply_verified_loop (fuel : nat) : bft := fun s =>
  match fuel with
  | O => (s, [])
  | S fuel' =>
      match find_verified_at s (s_committed_height s +w 1) with
      | None => (s, [])
      | Some hash =>
          match s_pending_synced_block_verifications s !! hash with
          | None => (s, [])
          | Some pending =>
              (apply_synced_block (psv_block pending) (psv_qc pending) ;> apply_verified_loop fuel')
              (s <| s_pending_synced_block_verifications ::= delete hash |>)
          end
      end
  end.

Definition try_apply_verified_synced_blocks : bft := fun s =>
  (apply_verified_loop (size (s_buffered_synced_blocks s)
                        + size (s_pending_synced_block_verifications s))
   ;> try_drain_buffered_synced_blocks) s.

Definition on_synced_block_ready (block : Block) (qc : QuorumCertificate) : bft := fun s =>
  let hash := block_hash block in
  let height := bh_height (bl_header block) in
  if height <=? s_committed_height s then (s, [])
  else if negb (qc_block_hash qc =? hash) then (s, [])
  else if contains_key (s_pending_synced_block_verifications s) hash then (s, [])
  else if contains_key (s_buffered_synced_blocks s) height then (s, [])
  else
    let next_needed := s_committed_height s +w 1 in
    if height =? next_needed then submit_synced_block_for_verification block qc s
    else if next_needed <? height then
      try_drain_buffered_synced_blocks
        (s <| s_buffered_synced_blocks ::= fun m => <[height := (block, qc)]> m |>)
    else (s, []).

Definition on_sync_block_ready_to_apply (block : Block) (qc : QuorumCertificate) : bft := fun s =>
  if bh_height (bl_header block) <=? s_committed_height s then (s, [])
  else on_synced_block_ready block qc s.

(** The branch for synced blocks comes first. *)
Definition on_qc_signature_verified (block_hash : Hash) (valid : bool) : bft := fun s =>
  match s_pending_synced_block_verifications s !! block_hash with
  | Some pending_sync =>
      if negb valid then (s <| s_pending_synced_block_verifications := ∅ |>, [])
      else
        try_apply_verified_synced_blocks
          (s <| s_pending_synced_block_verifications ::= fun m =>
                  <[block_hash := pending_sync <| psv_verified := true |>]> m |>)
  | None =>
      match s_pending_qc_verifications s !! block_hash with
      | None => (s, [])
      | Some header =>
          let s1 := s <| s_pending_qc_verifications ::= delete block_hash |> in
          if negb valid then (s1 <| s_pending_blocks ::= delete block_hash |>, [])
          else
            let parent_qc := bh_parent_qc header in
            try_vote_on_block block_hash (bh_height header) (bh_round header)
              (s1 <| s_verified_qcs ::= fun m =>
                       <[qc_block_hash parent_qc := qc_height parent_qc]> m |>)
      end
  end.

(** ** Completing pending blocks *)

Definition try_commit_pending_data (block_hash : Hash) : bft := fun s =>
  match s_pending_commits_awaiting_data s !! block_hash with
  | Some (_, qc) =>
      on_block_ready_to_commit block_hash qc
        (s <| s_pending_commits_awaiting_data ::= delete block_hash |>)
  | None => (s, [])
  end.

(** Vote on a block that has just become complete, and commit it if a commit
    was waiting for its data. *)
Definition block_completed (block_hash : Hash) : bft :=
  trigger_qc_verification_or_vote block_hash ;> try_commit_pending_data block_hash.

(** [construct_block] when the pending block is complete and has no block
    yet; [None] is its error. *)
Definition construct_if_needed (pending : PendingBlock) : option PendingBlock :=
  match PendingBlockOps.block pending with
  | Some _ => Some pending
  | None =>
      match PendingBlockOps.construct_block pending with
      | (pending', Some _) => Some pending'
      | (_, None) => None
      end
  end.

(** The requests re-emitted for what is still missing. *)
Definition refetch (block_hash : Hash) (pending : PendingBlock) : list Action :=
  let proposer := bh_proposer (pb_header pending) in
  let missing_txs := PendingBlockOps.missing_transactions pending in
  let missing_certs := PendingBlockOps.missing_certificates pending in
  (if Nat.eqb (length missing_txs) 0 then []
   else [FetchTransactions block_hash proposer missing_txs])
  ++ (if Nat.eqb (length missing_certs) 0 then []
      else [FetchCertificates block_hash proposer missing_certs]).

(** The common second phase of the two fetch handlers, for the pending block
    after the received data was added. *)
Definition after_fetch (block_hash : Hash) (pending : PendingBlock) : bft := fun s =>
  let with_pending p := s <| s_pending_blocks ::= fun m => <[block_hash := p]> m |> in
  if negb (PendingBlockOps.is_complete pending)
  then (with_pending pending, refetch block_hash pending)
  else match construct_if_needed pending with
  | None => (with_pending (PendingBlockOps.construct_block pending).1, [])
  | Some pending' => block_completed block_hash (with_pending pending')
  end.

Definition on_transaction_fetch_received (block_hash : Hash)
    (transactions : list RoutableTransaction) : bft := fun s =>
  match s_pending_blocks s !! block_hash with
  | None => (s, [])
  | Some pending =>
      after_fetch block_hash
        (foldl (fun p tx => (PendingBlockOps.add_transaction_arc p tx).1) pending transactions) s
  end.

Definition on_certificate_fetch_received (block_hash : Hash)
    (certificates : list TransactionCertificate) : bft := fun s =>
  match s_pending_blocks s !! block_hash with
  | None => (s, [])
  | Some pending =>
      after_fetch block_hash
        (foldl (fun p cert => (PendingBlockOps.add_certificate p cert).1) pending certificates) s
  end.

(** The loop body of the two [check_pending_blocks_for_*] functions. *)
Definition fill_pending_block (add : PendingBlock -> PendingBlock) (block_hash : Hash) : bft :=
  fun s =>
  match s_pending_blocks s !! block_hash with
  | None => (s, [])
  | Some pending0 =>
      let pending := add pending0 in
      let with_pending p := s <| s_pending_blocks ::= fun m => <[block_hash := p]> m |> in
      if negb (PendingBlockOps.is_complete pending) then (with_pending pending, [])
      else match construct_if_needed pending with
      | None => (with_pending (PendingBlockOps.construct_block pending).1, [])
      | Some pending' => block_completed block_hash (with_pending pending')
      end
  end.

Definition check_pending_blocks_for_transaction (tx_hash : Hash)
    (mempool : gmap Hash RoutableTransaction) : bft := fun s =>
  let block_hashes :=
    fst <$> List.filter (fun kp => PendingBlockOps.needs_transaction kp.2 tx_hash)
              (hm_iter (s_pending_blocks s)) in
  for_each (fill_pending_block (fun pending =>
    match mempool !! tx_hash with
    | Some tx => (PendingBlockOps.add_transaction_arc pending tx).1
    | None => pending
    end)) block_hashes s.

Definition check_pending_blocks_for_certificate (cert_hash : Hash)
    (certificates : gmap Hash TransactionCertificate) : bft := fun s =>
  let block_hashes :=
    fst <$> List.filter (fun kp =>
              bool_decide (cert_hash ∈ PendingBlockOps.missing_certificates kp.2))
              (hm_iter (s_pending_blocks s)) in
  for_each (fill_pending_block (fun pending =>
    match certificates !! cert_hash with
    | Some cert => (PendingBlockOps.add_certificate pending cert).1
    | None => pending
    end)) block_hashes s.
End bft_commit.
