(* ===== verification/BftPropose.v ===== *)
(** * Proposing, receiving headers and changing views (crates/bft/src/state.rs)

    The proposal timer and the three kinds of block a validator builds, the
    handler for received headers, the results of the runner's proposal and
    state commits, quorum certificate formation and round advancement. *)

From stdpp Require Import base gmap list numbers.
From Stdlib Require Import NArith Lia.
From S2P Require Import Prelude Bitfield Types Encoding Topology VoteSet Core PendingBlock.
From S2P Require Import BftState BftVote BftCommit.

Section bft_propose.
Context `{Crypto} `{Topology} `{HashIter}.

Abbreviation bft := (handler BftState Action) (only parsing).

(** ** Parent of a new block *)

Definition parent_of_proposal (s : BftState) : Hash * QuorumCertificate :=
  match s_latest_qc s with
  | Some qc => (qc_block_hash qc, qc)
  | None => (s_committed_hash s, QC.genesis)
  end.

(** The parent's state root and version, or the local tree's when the parent
    is not known. *)
Definition parent_state (s : BftState) (parent_hash : Hash) : Hash * u64 :=
  match get_block_by_hash s parent_hash with
  | Some b => (bh_state_root (bl_header b), bh_state_version (bl_header b))
  | None => let '(version, root) := s_last_committed_jmt_state s in (root, version)
  end.

(** ** Empty blocks *)

(** The part [build_and_broadcast_fallback_block] and
    [build_and_broadcast_sync_block] share: they differ in the timestamp and
    in [is_fallback]. *)
Definition build_and_broadcast_empty_block (timestamp : BftState -> u64) (is_fallback : bool)
    (height round : u64) : bft := fun s =>
  let '(parent_hash, parent_qc) := parent_of_proposal s in
  let '(state_root, state_version) := parent_state s parent_hash in
  let header := {|
    bh_height := height;
    bh_parent_hash := parent_hash;
    bh_parent_qc := parent_qc;
    bh_proposer := local_validator_id;
    bh_timestamp := timestamp s;
    bh_round := round;
    bh_is_fallback := is_fallback;
    bh_state_root := state_root;
    bh_state_version := state_version;
    bh_transaction_root := ZERO
  |} in
  let hash := header_hash header in
  let s1 :=
    match PendingBlockOps.construct_block (PendingBlockOps.new header [] [] [] []) with
    | (pending, Some constructed) =>
        s <| s_pending_blocks ::= fun m => <[hash := pending]> m |>
          <| s_pending_block_created_at ::= fun m => <[hash := s_now s]> m |>
          <| s_certified_blocks ::= fun m => <[hash := (constructed, parent_qc)]> m |>
    | (_, None) => s
    end in
  let s2 := record_leader_activity (s1 <| s_last_proposal_time := s_now s |>) in
  (hemit [BroadcastToShard local_shard
            (BlockHeaderMessage (mk_block_header_gossip header [] [] [] [] [] [] ∅))]
   ;> create_vote hash height round
   ;> hemit [SetTimer ProposalTimer (cfg_proposal_interval (s_config s))]) s2.

Definition build_and_broadcast_fallback_block : u64 -> u64 -> bft :=
  build_and_broadcast_empty_block
    (fun s => qc_weighted_timestamp_ms (parent_of_proposal s).2) true.

Definition build_and_broadcast_sync_block : u64 -> u64 -> bft :=
  build_and_broadcast_empty_block (fun s => as_millis_u64 (s_now s)) false.

(** ** The proposal timer *)

(** The certificates of the uncommitted blocks on the way from [current_hash]
    to the committed chain.  A chain of distinct blocks has at most [fuel]
    blocks when [fuel] is the number of known blocks. *)
Fixpoint qc_chain_cert_hashes (fuel : nat) (s : BftState) (current_hash : Hash) : gset Hash :=
  match fuel with
  | O => ∅
  | S fuel' =>
      match get_block_by_hash s current_hash with
      | None => ∅
      | Some block =>
          if bh_height (bl_header block) <=? s_committed_height s then ∅
          else list_to_set (tc_transaction_hash <$> bl_certificates block)
               ∪ qc_chain_cert_hashes fuel' s (bh_parent_hash (bl_header block))
      end
  end.

Definition known_blocks (s : BftState) : nat :=
  S (size (s_certified_blocks s) + size (s_pending_blocks s)).

(** Enough signers for the proof to reach the source shard's threshold. *)
Definition enough_cycle_signers (d : TransactionDefer) : bool :=
  let source_shard := winner_source_shard (td_proof d) in
  negb (N.of_nat (commitment_signer_count (cyp_winner_commitment (td_proof d)))
        <? quorum_threshold_for_shard source_shard).

Definition set_defer_height (height : BlockHeight) (d : TransactionDefer) : TransactionDefer :=
  mk_transaction_defer (td_tx_hash d) (td_reason d) height (td_proof d).
Definition set_abort_height (height : BlockHeight) (a : TransactionAbort) : TransactionAbort :=
  mk_transaction_abort (ta_tx_hash a) (ta_reason a) height.

Definition on_proposal_timer (ready_txs : ReadyTransactions) (deferred : list TransactionDefer)
    (aborted : list TransactionAbort) (certificates : list TransactionCertificate)
    (commitment_proofs : gmap Hash CommitmentProof) : bft := fun s =>
  let height := next_height s in
  let round := s_view s in
  let timer := SetTimer ProposalTimer (cfg_proposal_interval (s_config s)) in
  if negb (should_propose height round) then (s, [timer])
  else if contains_key (s_voted_heights s) height then (s, [timer])
  else if s_syncing s then build_and_broadcast_sync_block height round s
  else
    let '(parent_hash, parent_qc) := parent_of_proposal s in
    let deferred_with_height :=
      set_defer_height height <$> List.filter enough_cycle_signers deferred in
    let aborted_with_height := set_abort_height height <$> aborted in
    let in_chain := qc_chain_cert_hashes (known_blocks s) s parent_hash in
    let certificates_to_propose :=
      take (cfg_max_certificates_per_block (s_config s))
        (List.filter (fun c => negb (bool_decide (tc_transaction_hash c ∈ in_chain))) certificates) in
    let '(parent_state_root, parent_state_version) := parent_state s parent_hash in
    let cert_hash_set : gset Hash :=
      list_to_set (tc_transaction_hash <$> certificates_to_propose) in
    let deferred_filtered :=
      List.filter (fun d => negb (bool_decide (winner_hash d ∈ cert_hash_set))
                            && negb (bool_decide (td_tx_hash d ∈ cert_hash_set)))
        deferred_with_height in
    (s <| s_pending_proposal := Some (mk_pending_proposal height round) |>,
     [timer;
      BuildProposal local_validator_id height round parent_hash parent_qc
        (as_millis_u64 (s_now s)) false parent_state_root parent_state_version
        (ready_retries ready_txs) (ready_priority ready_txs) (ready_others ready_txs)
        certificates_to_propose commitment_proofs deferred_filtered aborted_with_height]).

Definition on_proposal_built (height : BlockHeight) (round : u64) (block : Block)
    (block_hash : Hash) : bft := fun s =>
  match s_pending_proposal s with
  | None => (s, [])
  | Some pending =>
      if negb (pp_height pending =? height) || negb (pp_round pending =? round) then (s, [])
      else
        let s0 := s <| s_pending_proposal := None |> in
        let retry_hashes := rt_hash <$> bl_retry_transactions block in
        let priority_hashes := rt_hash <$> bl_priority_transactions block in
        let tx_hashes := rt_hash <$> bl_transactions block in
        let cert_hashes := tc_transaction_hash <$> bl_certificates block in
        let empty :=
          PendingBlockOps.with_proofs (bl_header block) retry_hashes priority_hashes tx_hashes
            cert_hashes (bl_deferred block) (bl_aborted block) (bl_commitment_proofs block) in
        let with_txs :=
          foldl (fun p tx => (PendingBlockOps.add_transaction_arc p tx).1) empty
            (bl_retry_transactions block ++ bl_priority_transactions block
             ++ bl_transactions block) in
        let with_certs :=
          foldl (fun p c => (PendingBlockOps.add_certificate p c).1) with_txs
            (bl_certificates block) in
        match PendingBlockOps.construct_block with_certs with
        | (_, None) => (s0, [])
        | (pending_block, Some _) =>
            let s1 := record_leader_activity
              (s0 <| s_pending_blocks ::= fun m => <[block_hash := pending_block]> m |>
                  <| s_pending_block_created_at ::= fun m => <[block_hash := s_now s]> m |>
                  <| s_last_proposal_time := s_now s |>) in
            (hemit [BroadcastToShard local_shard
                      (BlockHeaderMessage
                         (mk_block_header_gossip (bl_header block) retry_hashes priority_hashes
                            tx_hashes cert_hashes (bl_deferred block) (bl_aborted block)
                            (bl_commitment_proofs block)))]
             ;> create_vote block_hash height round) s1
        end
  end.

(** ** Received headers *)

(** The part that looks at the parent certificate, before any validation. *)
Definition note_parent_qc (header : BlockHeader) : bft := fun s =>
  let parent_qc := bh_parent_qc header in
  if QC.is_genesis parent_qc then (s, [])
  else
    let have_parent := has_complete_block_at_height s (qc_height parent_qc) in
    let '(s1, sync_actions) :=
      if have_parent then (s, [])
      else start_sync (qc_height parent_qc) (qc_block_hash parent_qc) s in
    (if have_parent then adopt_qc parent_qc s1 else s1, sync_actions).

(** The pending block filled from the mempool and the certificate store. *)
Definition fill_from_stores (pending : PendingBlock) (txs certs : list Hash)
    (mempool : gmap Hash RoutableTransaction) (certificates : gmap Hash TransactionCertificate)
    : PendingBlock :=
  foldl (fun p h => match certificates !! h with
                    | Some c => (PendingBlockOps.add_certificate p c).1
                    | None => p
                    end)
    (foldl (fun p h => match mempool !! h with
                       | Some tx => (PendingBlockOps.add_transaction_arc p tx).1
                       | None => p
                       end) pending txs) certs.

Definition is_verify_qc_signature (a : Action) : bool :=
  match a with VerifyQcSignature _ _ _ _ => true | _ => false end.

Definition on_block_header (header : BlockHeader)
    (retry_hashes priority_hashes tx_hashes cert_hashes : list Hash)
    (deferred : list TransactionDefer) (aborted : list TransactionAbort)
    (commitment_proofs : gmap Hash CommitmentProof)
    (mempool : gmap Hash RoutableTransaction) (certificates : gmap Hash TransactionCertificate)
    : bft := fun s =>
  let block_hash := header_hash header in
  let height := bh_height header in
  let round := bh_round header in
  let '(s1, sync_actions) := note_parent_qc header s in
  let s2 := if s_view s1 <? round then s1 <| s_view := round |> else s1 in
  match validate_header s2 header with
  | Some _ => (s2, [])
  | None =>
      let s3 := record_header_activity height round s2 in
      if contains_key (s_pending_blocks s3) block_hash then (s3, [])
      else
        let pending :=
          fill_from_stores
            (PendingBlockOps.with_proofs header retry_hashes priority_hashes tx_hashes cert_hashes
               deferred aborted commitment_proofs)
            (retry_hashes ++ priority_hashes ++ tx_hashes) cert_hashes mempool certificates in
        let s4 :=
          s3 <| s_pending_blocks ::= fun m => <[block_hash := pending]> m |>
             <| s_pending_block_created_at ::= fun m => <[block_hash := s_now s3]> m |>
             <| s_vote_sets ::= alter (fun vs => VoteSetOps.set_header vs header) block_hash |> in
        let '(s5, vote_actions) := maybe_trigger_vote_verification block_hash s4 in
        let actions := vote_actions ++ sync_actions in
        if existsb is_verify_qc_signature actions then (s5, actions)
        else
          (hemit actions ;> fun s6 =>
             match s_pending_blocks s6 !! block_hash with
             | Some p =>
                 if PendingBlockOps.is_complete p then
                   match construct_if_needed p with
                   | None => (s6, [])
                   | Some p' =>
                       trigger_qc_verification_or_vote block_hash
                         (s6 <| s_pending_blocks ::= fun m => <[block_hash := p']> m |>)
                   end
                 else (s6, [])
             | None => (s6, [])
             end) s5
  end.

(** ** State commits *)

Definition start_queued_verification (block_hash : Hash) : bft := fun s =>
  match s_pending_state_root_verifications s !! block_hash with
  | None => (s, [])
  | Some pv =>
      (s <| s_pending_state_root_verifications ::= delete block_hash |>
         <| s_state_root_verifications_in_flight ::= fun X => {[block_hash]} ∪ X |>,
       [VerifyStateRoot block_hash (psr_required_root pv) (psr_expected_root pv)
          (psr_certificates pv)])
  end.

Definition on_state_commit_complete (state_version : u64) (state_root : Hash) : bft := fun s =>
  if state_version <=? (s_last_committed_jmt_state s).1 then (s, [])
  else
    let s1 := s <| s_last_committed_jmt_state := (state_version, state_root) |> in
    let unblocked :=
      fst <$> List.filter (fun kp => psr_required_root kp.2 =? state_root)
                (hm_iter (s_pending_state_root_verifications s1)) in
    for_each start_queued_verification unblocked s1.

(** ** Quorum certificates *)

Definition pending_commit_counts (s : BftState) (qc : QuorumCertificate) : usize * usize :=
  match QC.committable_hash qc, QC.committable_height qc with
  | Some committable_hash, Some committable_height =>
      if committable_height <=? s_committed_height s then (0, 0)%nat
      else match block_to_commit s committable_hash with
      | Some block => (length (bl_transactions block), length (bl_certificates block))
      | None => (0, 0)%nat
      end
  | _, _ => (0, 0)%nat
  end.

Definition pending_block_tx_cert_counts (s : BftState) : usize * usize :=
  foldl (fun '(total_txs, total_certs) '(_, pending) =>
           (total_txs + length (PendingBlockOps.all_transaction_hashes pending),
            total_certs + length (pb_original_cert_order pending))%nat)
    (0, 0)%nat (hm_iter (s_pending_blocks s)).

(** The two-chain rule: the parent of a certified block is ready to commit. *)
Definition two_chain_commit (qc : QuorumCertificate) (s : BftState) : list Action :=
  match QC.committable_height qc, QC.committable_hash qc with
  | Some committable_height, Some committable_hash =>
      if s_committed_height s <? committable_height
      then [EnqueueInternal (BlockReadyToCommit committable_hash qc)]
      else []
  | _, _ => []
  end.

Definition is_empty {A} (l : list A) : bool := match l with [] => true | _ => false end.

Definition on_qc_formed (block_hash : Hash) (qc : QuorumCertificate)
    (ready_txs : ReadyTransactions) (deferred : list TransactionDefer)
    (aborted : list TransactionAbort) (certificates : list TransactionCertificate)
    (commitment_proofs : gmap Hash CommitmentProof) : bft := fun s =>
  let s1 := adopt_qc qc (record_leader_activity s) in
  let persist :=
    match block_to_commit s1 block_hash with
    | Some block => [PersistBlock block qc]
    | None => []
    end in
  let has_content :=
    negb (ready_is_empty ready_txs) || negb (is_empty deferred) || negb (is_empty aborted)
    || negb (is_empty certificates) in
  let rate_limited := s_now s1 - s_last_proposal_time s1 <? cfg_min_block_interval (s_config s1) in
  (hemit (persist ++ two_chain_commit qc s1)
   ;> (if (has_content || s_syncing s1) && negb rate_limited
       then on_proposal_timer ready_txs deferred aborted certificates commitment_proofs
       else hskip)) s1.

(** ** Changing views *)

Definition repropose_locked_block (block_hash : Hash) (height : u64) : bft := fun s =>
  let timer := SetTimer ProposalTimer (cfg_proposal_interval (s_config s)) in
  match s_pending_blocks s !! block_hash with
  | None => (s, [timer])
  | Some pending =>
      (record_leader_activity (s <| s_last_proposal_time := s_now s |>),
       [BroadcastToShard local_shard
          (BlockHeaderMessage
             (mk_block_header_gossip (pb_header pending) (pb_retry_order pending)
                (pb_priority_order pending) (pb_other_order pending)
                (pb_original_cert_order pending) (pb_deferred pending) (pb_aborted pending)
                (pb_commitment_proofs pending)));
        timer])
  end.

Definition advance_round : bft := fun s =>
  let height := next_height s in
  let s1 := s <| s_view := s_view s +w 1 |> <| s_view_changes := s_view_changes s +w 1 |> in
  let latest_qc_height := default 0 (qc_height <$> s_latest_qc s1) in
  let s2 :=
    if latest_qc_height <? height then
      clear_vote_tracking_for_height height (s_view s1)
        (s1 <| s_voted_heights ::= delete height |>)
    else s1 in
  if should_propose height (s_view s2) then
    match s_voted_heights s2 !! height with
    | Some (existing_hash, _) => repropose_locked_block existing_hash height s2
    | None => build_and_broadcast_fallback_block height (s_view s2) s2
    end
  else (s2, [SetTimer ProposalTimer (cfg_proposal_interval (s_config s2))]).

(** [None] when no timeout is due. *)
Definition check_round_timeout (s : BftState) : option (BftState * list Action) :=
  if negb (should_advance_round s) then None
  else Some (advance_round (s <| s_last_leader_activity := s_now s |>
                              <| s_last_header_reset := None |>)).
End bft_propose.
