(* ===== verification/BftLoops.v ===== *)
(** * The commit cycle terminates

    The bounds of BftCommit.v are enough: the closed definitions satisfy the
    source's equations, in which the loops and the recursive calls have no
    bound.  The argument counts the buffered entries: every nested call is
    preceded by a removal, and no function of the cycle adds to what is
    counted. *)

From stdpp Require Import base gmap list numbers.
From Stdlib Require Import NArith Lia.
From S2P Require Import Prelude Bitfield Types Encoding Topology VoteSet Core PendingBlock.
From S2P Require Import BftState BftVote BftCommit.

(** ** What is counted *)

Abbreviation n_buffered s := (size (s_buffered_synced_blocks s)).
Abbreviation n_commits s := (size (s_pending_commits s)).
Abbreviation n_synced s := (size (s_pending_synced_block_verifications s)).

Definition shrinks (s s' : BftState) : Prop :=
  (n_buffered s' <= n_buffered s)%nat /\ (n_commits s' <= n_commits s)%nat
  /\ (n_buffered s' + n_synced s' <= n_buffered s + n_synced s)%nat.

#[export] Instance shrinks_preorder : PreOrder shrinks.
Proof. split; [intros s | intros s1 s2 s3]; unfold shrinks; lia. Qed.

Lemma insert_size_le {A} (m : gmap N A) k x : (size (<[k := x]> m) <= S (size m))%nat.
Proof.
  destruct (m !! k) as [y|] eqn:Hk.
  - rewrite map_size_insert_Some by eauto. lia.
  - rewrite map_size_insert_None by done. lia.
Qed.

Lemma delete_size {A} (m : gmap N A) k x :
  m !! k = Some x -> S (size (delete k m)) = size m.
Proof.
  intros Hk. rewrite map_size_delete_Some by eauto.
  assert (size m <> 0%nat); [|lia]. eapply map_size_ne_0_lookup_2; eauto.
Qed.

Section loops.
Context `{Crypto} `{Topology} `{HashIter}.
Implicit Types (s : BftState) (K : Hash -> handler BftState Action).

(** ** Straight-line parts *)

Lemma cleanup_shrinks h s : shrinks s (cleanup_old_state h s).1.
Proof.
  unfold shrinks, cleanup_old_state. cbn.
  pose proof (hm_retain_size (fun height _ => h <? height) (s_buffered_synced_blocks s)).
  pose proof (hm_retain_size (fun _ p => h <? bh_height (bl_header (psv_block p)))
                (s_pending_synced_block_verifications s)).
  lia.
Qed.

Lemma adopt_qc_shrinks qc s : shrinks s (adopt_qc qc s).
Proof.
  unfold adopt_qc, maybe_unlock_for_qc. repeat case_match; unfold shrinks; cbn; lia.
Qed.

Lemma commit_one_state hash block s :
  (commit_one hash block s).1 =
  (cleanup_old_state (bh_height (bl_header block))
     (record_leader_activity
        (s <| s_committed_height := bh_height (bl_header block) |>
           <| s_committed_hash := hash |>
           <| s_last_chain_committed_state_version := bh_state_version (bl_header block) |>
           <| s_view_at_height_start := s_view s |>))).1.
Proof. reflexivity. Qed.

Lemma commit_one_shrinks hash block s : shrinks s (commit_one hash block s).1.
Proof. rewrite commit_one_state. etrans; [|apply cleanup_shrinks]. unfold shrinks. cbn. lia. Qed.

Lemma delete_commit_shrinks h s : shrinks s (s <| s_pending_commits ::= delete h |>).
Proof.
  unfold shrinks. cbn. split_and!; [lia| |lia].
  apply map_subseteq_size, delete_subseteq.
Qed.

(** ** The commit loop *)

Lemma commit_loop_shrinks fuel hash s : shrinks s (commit_loop fuel hash s).1.
Proof.
  revert hash s. induction fuel as [|fuel IH]; intros hash s; simpl;
    (destruct (block_to_commit s hash) as [block|]; [|reflexivity]);
    (case_match; [reflexivity|]); unfold hseq;
    pose proof (commit_one_shrinks hash block s) as Hone;
    destruct (commit_one hash block s) as [s1 a1]; cbn [fst] in Hone.
  - by destruct (s_pending_commits s1 !! _) as [[??]|].
  - destruct (s_pending_commits s1 !! _) as [[next_hash ?]|]; [|done].
    specialize (IH next_hash (s1 <| s_pending_commits ::= delete (bh_height (bl_header block) +w 1) |>)).
    destruct (commit_loop fuel next_hash _) as [s2 a2]. cbn [fst] in *.
    etrans; [exact Hone|]. etrans; [apply delete_commit_shrinks|exact IH].
Qed.

Lemma commit_loop_eq fuel hash s :
  commit_loop fuel hash s =
  match block_to_commit s hash with
  | None => (s, [])
  | Some block =>
      if negb (bh_height (bl_header block) =? s_committed_height s +w 1) then (s, [])
      else
        (commit_one hash block ;> fun s1 =>
           match s_pending_commits s1 !! (bh_height (bl_header block) +w 1), fuel with
           | Some (next_hash, _), S fuel' =>
               commit_loop fuel' next_hash
                 (s1 <| s_pending_commits ::= delete (bh_height (bl_header block) +w 1) |>)
           | _, _ => (s1, [])
           end) s
  end.
Proof. by destruct fuel. Qed.

(** More turns than buffered commits change nothing. *)
Lemma commit_loop_stable n m hash s :
  (n_commits s <= n)%nat -> (n_commits s <= m)%nat ->
  commit_loop n hash s = commit_loop m hash s.
Proof.
  revert m hash s. induction n as [|n IH]; intros m hash s Hn Hm.
  all: rewrite !commit_loop_eq.
  all: destruct (block_to_commit s hash) as [block|]; [|reflexivity].
  all: destruct (negb _); [reflexivity|].
  all: unfold hseq; pose proof (commit_one_shrinks hash block s) as (_ & Hle & _);
    destruct (commit_one hash block s) as [s1 a1]; cbn [fst] in Hle.
  all: destruct (s_pending_commits s1 !! _) as [[next_hash ?]|] eqn:Hnext; [|reflexivity].
  all: pose proof (delete_size _ _ _ Hnext) as Hsize; try lia.
  destruct m as [|m]; [lia|]. rewrite (IH m); [reflexivity| |]; cbn; lia.
Qed.

(** ** The cycle never adds to what is counted *)

Section shrinking.
Variable K : Hash -> handler BftState Action.
Hypothesis K_shrinks : forall hash, hsteps shrinks (K hash).

(** A commit that is not due is put back under another height, or the
    buffered entries shrink. *)
Lemma ready_cases hash qc s :
  shrinks s (on_block_ready_to_commit_with K hash qc s).1
  \/ exists h x, h <> s_committed_height s +w 1
       /\ on_block_ready_to_commit_with K hash qc s
          = (s <| s_pending_commits ::= fun m => <[h := x]> m |>, []).
Proof.
  unfold on_block_ready_to_commit_with.
  destruct (block_to_commit s hash) as [block|].
  - destruct (_ <=? _); [by left|].
    destruct (_ =? _ +w 1) eqn:Hh; simpl; [left; apply K_shrinks|].
    right. apply N.eqb_neq in Hh. eauto.
  - left. repeat case_match; unfold shrinks; cbn; lia.
Qed.

Lemma drain_loop_shrinks fuel s : shrinks s (drain_pending_commits_loop K fuel s).1.
Proof.
  revert s. induction fuel as [|fuel IH]; intros s; simpl; [reflexivity|].
  destruct (s_pending_commits s !! _) as [[hash qc]|] eqn:Hnext; [|reflexivity].
  set (s0 := s <| s_pending_commits ::= delete (s_committed_height s +w 1) |>).
  pose proof (ready_cases hash qc s0) as Hready. unfold hseq.
  destruct (on_block_ready_to_commit_with K hash qc s0) as [s1 a1].
  assert (shrinks s s1) as Hs1.
  { destruct Hready as [Hs | (h & x & _ & [= -> _])].
    - etrans; [apply (delete_commit_shrinks (s_committed_height s +w 1))|exact Hs].
    - pose proof (delete_size _ _ _ Hnext).
      pose proof (insert_size_le (delete (s_committed_height s +w 1) (s_pending_commits s)) h x).
      unfold shrinks. cbn. lia. }
  destruct (_ <? _); simpl; [done|].
  specialize (IH s1). destruct (drain_pending_commits_loop K fuel s1). simpl in *. by etrans.
Qed.

Lemma apply_synced_shrinks block qc s : shrinks s (apply_synced_block_with K block qc s).1.
Proof.
  unfold apply_synced_block_with. cbv zeta.
  match goal with |- context [adopt_qc qc ?x] => set (s1 := x) end.
  assert (shrinks s s1) as Hst1 by (unfold shrinks, s1; cbn; lia). clearbody s1.
  set (s3 := if QC.is_genesis _ then _ else _).
  assert (shrinks s s3) as Hst3.
  { etrans; [exact Hst1|]. unfold s3. case_match; [apply adopt_qc_shrinks|].
    etrans; apply adopt_qc_shrinks. }
  clearbody s3. clear s1 Hst1.
  pose proof (cleanup_shrinks (bh_height (bl_header block)) s3) as Hst4.
  destruct (cleanup_old_state _ s3) as [s4 removed]. unfold hseq, hemit, drain_pending_commits_with.
  pose proof (drain_loop_shrinks (n_commits s4) s4) as Hst5.
  destruct (drain_pending_commits_loop _ _ s4) as [s5 a5]. simpl in *.
  etrans; [exact Hst3|]. by etrans.
Qed.

(** Submitting a block may add one pending verification. *)
Lemma submit_shrinks block qc s :
  let s' := (submit_synced_block_for_verification_with K block qc s).1 in
  (n_buffered s' <= n_buffered s)%nat /\ (n_commits s' <= n_commits s)%nat
  /\ (n_buffered s' + n_synced s' <= S (n_buffered s + n_synced s))%nat.
Proof.
  unfold submit_synced_block_for_verification_with. case_match.
  - pose proof (apply_synced_shrinks block qc s) as (?&?&?). cbn zeta. lia.
  - case_match; simpl; [|lia].
    pose proof (insert_size_le (s_pending_synced_block_verifications s) (block_hash block)
                  (mk_pending_synced block qc false)). lia.
Qed.

Lemma drain_synced_shrinks slots h s : shrinks s (drain_synced_loop K slots h s).1.
Proof.
  revert h s. induction slots as [|slots IH]; intros h s; simpl; [reflexivity|].
  destruct (s_buffered_synced_blocks s !! h) as [[block qc]|] eqn:Hh; [|reflexivity].
  set (s0 := s <| s_buffered_synced_blocks ::= delete h |>).
  pose proof (delete_size _ _ _ Hh) as Hsize.
  pose proof (submit_shrinks block qc s0) as Hsub. unfold hseq.
  destruct (submit_synced_block_for_verification_with K block qc s0) as [s1 a1].
  specialize (IH (h +w 1) s1). destruct (drain_synced_loop K slots _ s1) as [s2 a2].
  unfold shrinks in *. cbn in *. lia.
Qed.

Lemma try_drain_shrinks s : shrinks s (try_drain_buffered_synced_blocks_with K s).1.
Proof.
  unfold try_drain_buffered_synced_blocks_with. case_match; [reflexivity|].
  apply drain_synced_shrinks.
Qed.

Lemma commit_with_shrinks hash s : shrinks s (commit_block_and_buffered_with K hash s).1.
Proof.
  unfold commit_block_and_buffered_with, hseq.
  pose proof (commit_loop_shrinks (n_commits s) hash s) as Hst1.
  destruct (commit_loop _ hash s) as [s1 a1].
  pose proof (try_drain_shrinks s1) as Hst2.
  destruct (try_drain_buffered_synced_blocks_with K s1) as [s2 a2]. simpl in *. by etrans.
Qed.
End shrinking.

Lemma commit_rec_shrinks depth hash : hsteps shrinks (commit_rec depth hash).
Proof.
  revert hash. induction depth as [|depth IH]; intros hash s; simpl; [reflexivity|].
  by apply commit_with_shrinks.
Qed.

Lemma commit_shrinks hash : hsteps shrinks (commit_block_and_buffered hash).
Proof. intros s. apply commit_rec_shrinks. Qed.

(** ** The recursive call matters only on smaller states *)

Section agreement.
Variables K1 K2 : Hash -> handler BftState Action.
Variable bound : nat.
Hypothesis K1_shrinks : forall hash, hsteps shrinks (K1 hash).
Hypothesis agree : forall hash s, (n_buffered s < bound)%nat -> K1 hash s = K2 hash s.

Lemma ready_agree hash qc s :
  (n_buffered s < bound)%nat ->
  on_block_ready_to_commit_with K1 hash qc s = on_block_ready_to_commit_with K2 hash qc s.
Proof.
  intros Hlt. unfold on_block_ready_to_commit_with.
  destruct (block_to_commit s hash); [|reflexivity]. by rewrite agree.
Qed.

Lemma ready_buffered hash qc s :
  (n_buffered (on_block_ready_to_commit_with K1 hash qc s).1 <= n_buffered s)%nat.
Proof.
  destruct (ready_cases K1 K1_shrinks hash qc s) as [(? & _) | (? & ? & _ & ->)]; simpl; lia.
Qed.

Lemma drain_loop_agree fuel s :
  (n_buffered s < bound)%nat ->
  drain_pending_commits_loop K1 fuel s = drain_pending_commits_loop K2 fuel s.
Proof.
  revert s. induction fuel as [|fuel IH]; intros s Hlt; simpl; [reflexivity|].
  destruct (s_pending_commits s !! _) as [[hash qc]|]; [|reflexivity].
  set (s0 := s <| s_pending_commits ::= delete (s_committed_height s +w 1) |>).
  unfold hseq. rewrite <-(ready_agree hash qc s0) by done.
  pose proof (ready_buffered hash qc s0) as Hle.
  destruct (on_block_ready_to_commit_with K1 hash qc s0) as [s1 a1]. cbn in Hle.
  destruct (_ <? _); [reflexivity|]. rewrite IH by lia. reflexivity.
Qed.

Lemma apply_synced_agree block qc s :
  (n_buffered s < bound)%nat ->
  apply_synced_block_with K1 block qc s = apply_synced_block_with K2 block qc s.
Proof.
  intros Hlt. unfold apply_synced_block_with. cbv zeta.
  match goal with |- context [adopt_qc qc ?x] => set (s1 := x) end.
  assert (n_buffered s1 = n_buffered s) as Hs1 by reflexivity. clearbody s1.
  set (s3 := if QC.is_genesis _ then _ else _).
  assert (n_buffered s3 <= n_buffered s)%nat as Hs3.
  { pose proof (adopt_qc_shrinks qc s1) as (? & _).
    pose proof (adopt_qc_shrinks (bh_parent_qc (bl_header block)) (adopt_qc qc s1)) as (? & _).
    unfold s3. case_match; lia. }
  clearbody s3. pose proof (cleanup_shrinks (bh_height (bl_header block)) s3) as (? & _).
  destruct (cleanup_old_state _ s3) as [s4 removed]. cbn [fst] in *.
  unfold hseq, hemit, drain_pending_commits_with. rewrite drain_loop_agree by lia. reflexivity.
Qed.

Lemma drain_synced_agree slots h s :
  (n_buffered s <= bound)%nat -> drain_synced_loop K1 slots h s = drain_synced_loop K2 slots h s.
Proof.
  revert h s. induction slots as [|slots IH]; intros h s Hle; simpl; [reflexivity|].
  destruct (s_buffered_synced_blocks s !! h) as [[block qc]|] eqn:Hh; [|reflexivity].
  set (s0 := s <| s_buffered_synced_blocks ::= delete h |>).
  pose proof (delete_size _ _ _ Hh) as Hsize.
  assert (n_buffered s0 < bound)%nat as Hlt by (cbn; lia).
  assert (submit_synced_block_for_verification_with K1 block qc s0
          = submit_synced_block_for_verification_with K2 block qc s0) as Heq.
  { unfold submit_synced_block_for_verification_with. by rewrite apply_synced_agree. }
  unfold hseq. rewrite <-Heq.
  pose proof (submit_shrinks K1 K1_shrinks block qc s0) as (Hs & _).
  destruct (submit_synced_block_for_verification_with K1 block qc s0) as [s1 a1]. cbn [fst] in Hs.
  rewrite IH by lia. reflexivity.
Qed.

Lemma commit_with_agree hash s :
  (n_buffered s <= bound)%nat ->
  commit_block_and_buffered_with K1 hash s = commit_block_and_buffered_with K2 hash s.
Proof.
  intros Hle. unfold commit_block_and_buffered_with, hseq.
  pose proof (commit_loop_shrinks (n_commits s) hash s) as (Hs & _).
  destruct (commit_loop _ hash s) as [s1 a1]. cbn [fst] in Hs.
  unfold try_drain_buffered_synced_blocks_with. destruct (Nat.leb _ _); [reflexivity|].
  rewrite drain_synced_agree by lia. reflexivity.
Qed.
End agreement.

Lemma commit_rec_stable n m hash s :
  (n_buffered s < n)%nat -> (n_buffered s < m)%nat -> commit_rec n hash s = commit_rec m hash s.
Proof.
  revert m hash s. induction n as [|n IH]; intros [|m] hash s Hn Hm; try lia.
  simpl. apply (commit_with_agree _ _ (n_buffered s)); [apply commit_rec_shrinks| |lia].
  intros hash' s' Hlt. apply IH; lia.
Qed.

Lemma commit_unfold hash s :
  commit_block_and_buffered hash s
  = commit_block_and_buffered_with commit_block_and_buffered hash s.
Proof.
  unfold commit_block_and_buffered at 1. simpl.
  apply (commit_with_agree _ _ (n_buffered s)); [apply commit_rec_shrinks| |lia].
  intros hash' s' Hlt. apply commit_rec_stable; lia.
Qed.

(** ** The loops without bounds *)

Lemma drain_loop_stable n m s :
  (n_commits s <= n)%nat -> (n_commits s <= m)%nat ->
  drain_pending_commits_loop commit_block_and_buffered n s
  = drain_pending_commits_loop commit_block_and_buffered m s.
Proof.
  revert m s. induction n as [|n IH]; intros m s Hn Hm.
  - assert (s_pending_commits s = ∅) as Hempty by (apply map_size_empty_inv; lia).
    destruct m; simpl; [done|]. by rewrite Hempty, lookup_empty.
  - destruct m as [|m].
    { assert (s_pending_commits s = ∅) as Hempty by (apply map_size_empty_inv; lia).
      simpl. by rewrite Hempty, lookup_empty. }
    simpl. destruct (s_pending_commits s !! _) as [[hash qc]|] eqn:Hnext; [|reflexivity].
    set (s0 := s <| s_pending_commits ::= delete (s_committed_height s +w 1) |>).
    pose proof (delete_size _ _ _ Hnext) as Hsize.
    pose proof (ready_cases _ commit_shrinks hash qc s0) as Hready. unfold hseq.
    destruct (on_block_ready_to_commit_with _ hash qc s0) as [s1 a1].
    destruct (_ <? _); [reflexivity|].
    destruct Hready as [(_ & Hle & _) | (h & x & Hne & [= -> _])].
    + rewrite (IH m); [reflexivity| |]; cbn in *; lia.
    + assert (forall k, drain_pending_commits_loop commit_block_and_buffered k
                (s0 <| s_pending_commits ::= fun m => <[h := x]> m |>)
              = (s0 <| s_pending_commits ::= fun m => <[h := x]> m |>, [])) as Hstop; [|by rewrite !Hstop].
      intros [|k]; simpl; [reflexivity|]. rewrite lookup_insert_ne by done.
      by rewrite lookup_delete_eq.
Qed.

Lemma apply_verified_stable n m s :
  (n_buffered s + n_synced s <= n)%nat -> (n_buffered s + n_synced s <= m)%nat ->
  apply_verified_loop n s = apply_verified_loop m s.
Proof.
  revert m s. induction n as [|n IH]; intros m s Hn Hm; [|destruct m as [|m]].
  3: simpl; destruct (find_verified_at s _) as [hash|]; [|reflexivity];
    destruct (s_pending_synced_block_verifications s !! hash) as [p|] eqn:Hp; [|reflexivity];
    pose proof (delete_size _ _ _ Hp) as Hsize;
    set (s0 := s <| s_pending_synced_block_verifications ::= delete hash |>);
    pose proof (apply_synced_shrinks _ commit_shrinks (psv_block p) (psv_qc p) s0) as (_ & _ & Hle);
    unfold hseq, apply_synced_block;
    destruct (apply_synced_block_with _ _ _ s0) as [s1 a1];
    rewrite (IH m); [reflexivity| |]; cbn in *; lia.
  all: assert (s_pending_synced_block_verifications s = ∅) as Hempty
         by (apply map_size_empty_inv; lia).
  1: destruct m as [|m]; [reflexivity|].
  all: simpl; unfold find_verified_at; by rewrite Hempty, hm_iter_empty.
Qed.

Lemma commit_unfold_loop hash s :
  commit_block_and_buffered hash s =
  match block_to_commit s hash with
  | None => try_drain_buffered_synced_blocks s
  | Some block =>
      if negb (bh_height (bl_header block) =? s_committed_height s +w 1)
      then try_drain_buffered_synced_blocks s
      else
        (commit_one hash block ;> fun s1 =>
           match s_pending_commits s1 !! (bh_height (bl_header block) +w 1) with
           | Some (next_hash, _) =>
               commit_block_and_buffered next_hash
                 (s1 <| s_pending_commits ::= delete (bh_height (bl_header block) +w 1) |>)
           | None => try_drain_buffered_synced_blocks s1
           end) s
  end.
Proof.
  rewrite commit_unfold. unfold commit_block_and_buffered_with at 1, hseq at 1.
  rewrite commit_loop_eq. fold try_drain_buffered_synced_blocks.
  destruct (block_to_commit s hash) as [block|]; [|by destruct (try_drain_buffered_synced_blocks s)].
  destruct (negb _); [by destruct (try_drain_buffered_synced_blocks s)|].
  unfold hseq. pose proof (commit_one_shrinks hash block s) as (_ & Hle & _).
  destruct (commit_one hash block s) as [s1 a1]. cbn [fst] in Hle.
  destruct (s_pending_commits s1 !! _) as [[next_hash ?]|] eqn:Hnext.
  2: by rewrite app_nil_r.
  pose proof (delete_size _ _ _ Hnext) as Hsize.
  set (s2 := s1 <| s_pending_commits ::= delete _ |>).
  destruct (n_commits s) as [|fuel] eqn:Hfuel; [lia|].
  rewrite commit_unfold. unfold commit_block_and_buffered_with, hseq.
  rewrite (commit_loop_stable (n_commits s2) fuel) by (cbn; lia).
  destruct (commit_loop fuel next_hash s2) as [s3 a3]. fold try_drain_buffered_synced_blocks.
  destruct (try_drain_buffered_synced_blocks s3). by rewrite app_assoc.
Qed.

Lemma drain_unfold s :
  drain_pending_commits s =
  match s_pending_commits s !! (s_committed_height s +w 1) with
  | None => (s, [])
  | Some (hash, qc) =>
      (on_block_ready_to_commit hash qc ;> fun s1 =>
         if s_committed_height s1 <? s_committed_height s +w 1 then (s1, [])
         else drain_pending_commits s1)
      (s <| s_pending_commits ::= delete (s_committed_height s +w 1) |>)
  end.
Proof.
  unfold drain_pending_commits at 1, drain_pending_commits_with.
  rewrite (drain_loop_stable _ (S (n_commits s))) by lia. simpl.
  destruct (s_pending_commits s !! _) as [[hash qc]|] eqn:Hnext; [|reflexivity].
  pose proof (delete_size _ _ _ Hnext) as Hsize.
  set (s0 := s <| s_pending_commits ::= delete (s_committed_height s +w 1) |>).
  pose proof (ready_cases _ commit_shrinks hash qc s0) as Hready. unfold hseq.
  unfold on_block_ready_to_commit.
  destruct (on_block_ready_to_commit_with _ hash qc s0) as [s1 a1].
  destruct (_ <? _); [reflexivity|]. unfold drain_pending_commits, drain_pending_commits_with.
  assert (n_commits s1 <= n_commits s)%nat as Hle.
  { destruct Hready as [(_ & Hle & _) | (h & x & _ & [= -> _])]; cbn in *; [lia|].
    pose proof (insert_size_le (delete (s_committed_height s +w 1) (s_pending_commits s)) h x).
    lia. }
  rewrite (drain_loop_stable (n_commits s) (n_commits s1)) by lia. reflexivity.
Qed.

Lemma try_apply_unfold s :
  try_apply_verified_synced_blocks s =
  match find_verified_at s (s_committed_height s +w 1) with
  | None => try_drain_buffered_synced_blocks s
  | Some hash =>
      match s_pending_synced_block_verifications s !! hash with
      | None => try_drain_buffered_synced_blocks s
      | Some pending =>
          (apply_synced_block (psv_block pending) (psv_qc pending)
           ;> try_apply_verified_synced_blocks)
          (s <| s_pending_synced_block_verifications ::= delete hash |>)
      end
  end.
Proof.
  unfold try_apply_verified_synced_blocks at 1, hseq at 1.
  rewrite (apply_verified_stable _ (S (n_buffered s + n_synced s))) by lia. simpl.
  destruct (find_verified_at s _) as [hash|]; [|by destruct (try_drain_buffered_synced_blocks s)].
  destruct (s_pending_synced_block_verifications s !! hash) as [p|] eqn:Hp;
    [|by destruct (try_drain_buffered_synced_blocks s)].
  pose proof (delete_size _ _ _ Hp) as Hsize.
  set (s0 := s <| s_pending_synced_block_verifications ::= delete hash |>).
  pose proof (apply_synced_shrinks _ commit_shrinks (psv_block p) (psv_qc p) s0) as (_ & _ & Hle).
  unfold hseq, apply_synced_block.
  destruct (apply_synced_block_with _ _ _ s0) as [s1 a1].
  unfold try_apply_verified_synced_blocks, hseq.
  rewrite (apply_verified_stable (n_buffered s1 + n_synced s1) (n_buffered s + n_synced s))
    by (cbn in *; lia).
  destruct (apply_verified_loop _ s1) as [s2 a2].
  destruct (try_drain_buffered_synced_blocks s2). by rewrite app_assoc.
Qed.

(** C10: The functions of the commit cycle satisfy the equations of the source,
    whose loops and mutual recursion have no bound: a commit continues with
    the buffered commit of the next height and ends by draining the synced
    blocks, draining the buffered commits goes on exactly while the committed
    height reaches the height taken out, and verified synced blocks are
    applied until none is at the next height. *)
Theorem commit_cycle_equations :
  (forall hash s,
    commit_block_and_buffered hash s =
    match block_to_commit s hash with
    | None => try_drain_buffered_synced_blocks s
    | Some block =>
        if negb (bh_height (bl_header block) =? s_committed_height s +w 1)
        then try_drain_buffered_synced_blocks s
        else
          (commit_one hash block ;> fun s1 =>
             match s_pending_commits s1 !! (bh_height (bl_header block) +w 1) with
             | Some (next_hash, _) =>
                 commit_block_and_buffered next_hash
                   (s1 <| s_pending_commits ::= delete (bh_height (bl_header block) +w 1) |>)
             | None => try_drain_buffered_synced_blocks s1
             end) s
    end)
  /\ (forall s,
    drain_pending_commits s =
    match s_pending_commits s !! (s_committed_height s +w 1) with
    | None => (s, [])
    | Some (hash, qc) =>
        (on_block_ready_to_commit hash qc ;> fun s1 =>
           if s_committed_height s1 <? s_committed_height s +w 1 then (s1, [])
           else drain_pending_commits s1)
        (s <| s_pending_commits ::= delete (s_committed_height s +w 1) |>)
    end)
  /\ (forall s,
    try_apply_verified_synced_blocks s =
    match find_verified_at s (s_committed_height s +w 1) with
    | None => try_drain_buffered_synced_blocks s
    | Some hash =>
        match s_pending_synced_block_verifications s !! hash with
        | None => try_drain_buffered_synced_blocks s
        | Some pending =>
            (apply_synced_block (psv_block pending) (psv_qc pending)
             ;> try_apply_verified_synced_blocks)
            (s <| s_pending_synced_block_verifications ::= delete hash |>)
        end
    end).
Proof.
  split; [apply commit_unfold_loop|]. split; intros s.
  - apply drain_unfold.
  - apply try_apply_unfold.
Qed.
End loops.
