(* ===== verification/BftChain.v ===== *)
(** * Commits are consecutive

    An invariant of the consensus state about the blocks it stores, and the
    proof that the commit cycle commits one height after the other: each
    commit is of the block one above the last, with no gap and no repetition,
    also when commits come from the buffers and from sync. *)

From stdpp Require Import base gmap list numbers.
From Stdlib Require Import NArith Lia.
From S2P Require Import Prelude Bitfield Types Encoding Topology VoteSet Core PendingBlock.
From S2P Require Import BftState BftVote BftCommit BftLoops.

(** ** The commits a handler announces *)

Definition commit_trace (acts : list Action) : list (Hash * u64 * Block) :=
  omap (fun a => match a with
                 | EnqueueInternal (BlockCommitted hash height block) => Some (hash, height, block)
                 | _ => None
                 end) acts.

Lemma commit_trace_app a1 a2 : commit_trace (a1 ++ a2) = commit_trace a1 ++ commit_trace a2.
Proof. apply omap_app. Qed.

Lemma commit_trace_cancel hashes : commit_trace (CancelFetch <$> hashes) = [].
Proof. induction hashes; [done|]. exact IHhashes. Qed.

Section chain.
Context `{Crypto} `{Topology} `{HashIter}.

(** [chain_steps (h, x) trace (h', x')]: from the committed height [h] and
    hash [x], [trace] commits the heights [h + 1], [h + 2], ... up to [h'],
    whose block has hash [x']. *)
Inductive chain_steps : u64 * Hash -> list (Hash * u64 * Block) -> u64 * Hash -> Prop :=
  | chain_done tip : chain_steps tip [] tip
  | chain_next height hash block tip trace :
      bh_height (bl_header block) = height + 1 ->
      block_hash block = hash ->
      chain_steps (height + 1, hash) trace tip ->
      forall old_hash, chain_steps (height, old_hash) ((hash, height + 1, block) :: trace) tip.

Lemma chain_steps_app t1 l1 t2 l2 t3 :
  chain_steps t1 l1 t2 -> chain_steps t2 l2 t3 -> chain_steps t1 (l1 ++ l2) t3.
Proof. induction 1; intros; simpl; [done|]. constructor; auto. Qed.

Lemma chain_steps_height t1 l t2 :
  chain_steps t1 l t2 -> t2.1 = t1.1 + N.of_nat (length l).
Proof. induction 1; simpl in *; lia. Qed.

(** ** The invariant *)

Definition block_ok (hash : Hash) (block : Block) : Prop :=
  block_hash block = hash /\ 0 < bh_height (bl_header block) < u64_modulus.

Definition pending_ok (hash : Hash) (pb : PendingBlock) : Prop :=
  header_hash (pb_header pb) = hash
  /\ 0 < bh_height (pb_header pb) < u64_modulus
  /\ forall block, PendingBlockOps.block pb = Some block -> bl_header block = pb_header pb.

(** A block received by sync is above the committed height, and its
    certificate is for it. *)
Definition synced_ok (committed : u64) (block : Block) (qc : QuorumCertificate) : Prop :=
  committed < bh_height (bl_header block) < u64_modulus
  /\ qc_block_hash qc = block_hash block.

Record chain_inv (s : BftState) : Prop := {
  ci_committed : s_committed_height s < u64_modulus;
  ci_pending hash pb : s_pending_blocks s !! hash = Some pb -> pending_ok hash pb;
  ci_certified hash block qc :
    s_certified_blocks s !! hash = Some (block, qc) -> block_ok hash block;
  ci_buffered height block qc :
    s_buffered_synced_blocks s !! height = Some (block, qc) ->
    bh_height (bl_header block) = height /\ synced_ok (s_committed_height s) block qc;
  ci_synced hash p :
    s_pending_synced_block_verifications s !! hash = Some p ->
    synced_ok (s_committed_height s) (psv_block p) (psv_qc p)
}.

(** The fields the invariant reads. *)
Definition chain_view (s : BftState) :=
  (s_committed_height s, s_pending_blocks s, s_certified_blocks s, s_buffered_synced_blocks s,
   s_pending_synced_block_verifications s).

Lemma chain_inv_view s s' : chain_view s' = chain_view s -> chain_inv s -> chain_inv s'.
Proof.
  unfold chain_view. intros [= Hc Hp Hce Hb Hs] [Ic Ip Ice Ib Is].
  split; rewrite ?Hc, ?Hp, ?Hce, ?Hb, ?Hs; auto.
Qed.

Lemma block_to_commit_ok s hash block :
  chain_inv s -> block_to_commit s hash = Some block -> block_ok hash block.
Proof.
  intros [_ Hp Hc _ _]. unfold block_to_commit.
  destruct (s_pending_blocks s !! hash) as [pb|] eqn:Hpb.
  - intros Hb. destruct (Hp _ _ Hpb) as (Hh & Hr & Hhd). apply Hhd in Hb.
    unfold block_ok, block_hash. by rewrite Hb.
  - destruct (s_certified_blocks s !! hash) as [[b q]|] eqn:Hce; [|done].
    intros [= <-]. eauto.
Qed.

(** The successor test on machine integers picks the successor. *)
Lemma succ_height c h : c < u64_modulus -> 0 < h -> h = c +w 1 -> h = c + 1.
Proof.
  intros Hc Hh ->. unfold wadd, as_u64 in *.
  destruct (decide (c + 1 < u64_modulus)); [by apply N.mod_small|].
  assert (c + 1 = u64_modulus) as Heq by lia. rewrite Heq, N.Div0.mod_same in Hh. lia.
Qed.

(** ** Runs that keep the invariant and commit consecutively *)

Definition tip (s : BftState) : u64 * Hash := (s_committed_height s, s_committed_hash s).

Definition run_ok (s : BftState) (r : BftState * list Action) : Prop :=
  chain_inv r.1 /\ chain_steps (tip s) (commit_trace r.2) (tip r.1).

Definition advances (h : handler BftState Action) : Prop :=
  forall s, chain_inv s -> run_ok s (h s).

Lemma run_ok_stay s s' acts :
  chain_inv s' -> tip s' = tip s -> commit_trace acts = [] -> run_ok s (s', acts).
Proof. intros Hinv Htip Ha. split; simpl; [done|]. rewrite Ha, Htip. constructor. Qed.

(** Only fields outside the invariant changed. *)
Lemma run_ok_view s s' acts :
  chain_inv s -> chain_view s' = chain_view s -> s_committed_hash s' = s_committed_hash s ->
  commit_trace acts = [] -> run_ok s (s', acts).
Proof.
  intros Hinv Hview Hhash Ha. apply run_ok_stay; [by eapply chain_inv_view| |done].
  unfold tip. rewrite Hhash. injection Hview as -> _ _ _ _. done.
Qed.

Lemma run_ok_skip s : chain_inv s -> run_ok s (s, []).
Proof. intros. by apply run_ok_view. Qed.

Lemma run_ok_seq s h1 h2 :
  run_ok s (h1 s) -> (forall s1, chain_inv s1 -> run_ok s1 (h2 s1)) -> run_ok s ((h1 ;> h2) s).
Proof.
  unfold hseq. destruct (h1 s) as [s1 a1]. intros [Hinv Hsteps] Hnext.
  specialize (Hnext s1 Hinv). destruct (h2 s1) as [s2 a2]. destruct Hnext as [Hinv2 Hsteps2].
  split; [done|]. simpl in *. rewrite commit_trace_app. by eapply chain_steps_app.
Qed.

Lemma advances_seq h1 h2 : advances h1 -> advances h2 -> advances (h1 ;> h2).
Proof. intros Hh1 Hh2 s Hs. apply run_ok_seq; auto. Qed.

(** A run from a state that differs from [s] outside the tip. *)
Lemma run_ok_from s s0 r : tip s0 = tip s -> run_ok s0 r -> run_ok s r.
Proof. intros Htip [??]. split; [done|]. by rewrite <-Htip. Qed.

(** ** One commit *)

(** Pruning at the new committed height re-establishes the invariant. *)
Lemma cleanup_inv h s s' :
  chain_inv s -> h < u64_modulus -> s_committed_height s' = h ->
  s_pending_blocks s' = s_pending_blocks s -> s_certified_blocks s' = s_certified_blocks s ->
  s_buffered_synced_blocks s' = s_buffered_synced_blocks s ->
  s_pending_synced_block_verifications s' = s_pending_synced_block_verifications s ->
  chain_inv (cleanup_old_state h s').1.
Proof.
  intros [Ic Ip Ice Ib Is] Hh Hc Hp Hce Hb Hs. unfold cleanup_old_state.
  split; cbn; rewrite ?Hc, ?Hp, ?Hce, ?Hb, ?Hs; [done|..].
  - intros hash pb [Hl _]%hm_retain_Some. auto.
  - intros hash b q [Hl _]%hm_retain_Some. eauto.
  - intros k b q [Hl Hlt%N.ltb_lt]%hm_retain_Some.
    destruct (Ib _ _ _ Hl) as (Hk & Hrange & Hq).
    split; [done|]. unfold synced_ok. split; [|done]. lia.
  - intros hash p [Hl Hlt%N.ltb_lt]%hm_retain_Some.
    destruct (Is _ _ Hl) as (Hrange & Hq). unfold synced_ok. split; [|done]. lia.
Qed.

Lemma chain_step_one s hash block :
  block_ok hash block -> bh_height (bl_header block) = s_committed_height s + 1 ->
  chain_steps (tip s) [(hash, bh_height (bl_header block), block)]
    (bh_height (bl_header block), hash).
Proof. intros [Hh _] Heq. rewrite Heq. apply chain_next; [done..|]. apply chain_done. Qed.

Lemma commit_one_ok s hash block :
  chain_inv s -> block_ok hash block -> bh_height (bl_header block) = s_committed_height s + 1 ->
  run_ok s (commit_one hash block s).
Proof.
  intros Hinv Hok Hh. split.
  - rewrite commit_one_state. eapply cleanup_inv; [exact Hinv|apply Hok|reflexivity..].
  - unfold commit_one. cbv zeta.
    set (s1 := record_leader_activity _).
    assert (tip (cleanup_old_state (bh_height (bl_header block)) s1).1
            = (bh_height (bl_header block), hash)) as Htip by reflexivity.
    clearbody s1. destruct (cleanup_old_state _ s1) as [s2 removed]. cbn [fst snd] in *.
    rewrite Htip, commit_trace_app, commit_trace_cancel. by apply chain_step_one.
Qed.

Lemma commit_loop_ok fuel hash : advances (commit_loop fuel hash).
Proof.
  revert hash. induction fuel as [|fuel IH]; intros hash s Hinv; rewrite commit_loop_eq.
  all: destruct (block_to_commit s hash) as [block|] eqn:Hb; [|by apply run_ok_skip].
  all: pose proof (block_to_commit_ok s hash block Hinv Hb) as Hok.
  all: destruct (_ =? _ +w 1) eqn:Hh; simpl; [|by apply run_ok_skip].
  all: apply N.eqb_eq, succ_height in Hh; [|apply Hinv|apply Hok].
  all: apply run_ok_seq; [by apply commit_one_ok|]; intros s1 Hs1.
  all: destruct (s_pending_commits s1 !! _) as [[next_hash ?]|]; [|by apply run_ok_skip].
  1: by apply run_ok_skip.
  eapply run_ok_from; [|apply IH, (chain_inv_view s1)]; done.
Qed.

(** ** The commit cycle *)

(** No block has the zero hash (a preimage of it is not known). *)
Definition no_zero_hash : Prop := forall block : Block, block_hash block <> ZERO.

Lemma adopt_qc_view qc s : chain_view (adopt_qc qc s) = chain_view s.
Proof. unfold adopt_qc, maybe_unlock_for_qc. by repeat case_match. Qed.

Lemma adopt_qc_tip qc s : tip (adopt_qc qc s) = tip s.
Proof. unfold adopt_qc, maybe_unlock_for_qc. by repeat case_match. Qed.

Section cycle.
Variable K : Hash -> handler BftState Action.
Hypothesis K_ok : forall hash, advances (K hash).

Lemma ready_ok hash qc : advances (on_block_ready_to_commit_with K hash qc).
Proof.
  intros s Hinv. unfold on_block_ready_to_commit_with.
  destruct (block_to_commit s hash) as [block|].
  - destruct (_ <=? _); [by apply run_ok_skip|].
    destruct (negb _); [by apply run_ok_view|]. by apply K_ok.
  - repeat case_match; by apply run_ok_view.
Qed.

Lemma drain_loop_ok fuel : advances (drain_pending_commits_loop K fuel).
Proof.
  induction fuel as [|fuel IH]; intros s Hinv; simpl; [by apply run_ok_skip|].
  destruct (s_pending_commits s !! _) as [[hash qc]|]; [|by apply run_ok_skip].
  eapply run_ok_from; [|apply run_ok_seq]; [done|apply ready_ok; by apply (chain_inv_view s)|].
  intros s1 Hs1. destruct (_ <? _); [by apply run_ok_skip|]. by apply IH.
Qed.

Lemma apply_synced_ok s block qc :
  chain_inv s -> bh_height (bl_header block) = s_committed_height s + 1 ->
  bh_height (bl_header block) < u64_modulus ->
  run_ok s (apply_synced_block_with K block qc s).
Proof.
  intros Hinv Hh Hlt. unfold apply_synced_block_with. cbv zeta.
  match goal with |- context [adopt_qc qc ?x] => set (s1 := x) end.
  set (s3 := if QC.is_genesis _ then _ else _).
  assert (chain_view s3 = chain_view s1) as Hview.
  { unfold s3. case_match; [|rewrite adopt_qc_view]; apply adopt_qc_view. }
  assert (tip s3 = tip s1) as Htip.
  { unfold s3. case_match; [|rewrite adopt_qc_tip]; apply adopt_qc_tip. }
  clearbody s3. injection Hview as Hc Hp Hce Hb Hs.
  pose proof (cleanup_inv (bh_height (bl_header block)) s s3 Hinv Hlt Hc Hp Hce Hb Hs) as Hinv4.
  assert (tip (cleanup_old_state (bh_height (bl_header block)) s3).1 = tip s1) as Htip4
    by exact Htip.
  destruct (cleanup_old_state _ s3) as [s4 removed]. cbn [fst] in *.
  unfold hseq, hemit. pose proof (drain_loop_ok (n_commits s4) s4 Hinv4) as Hdrain.
  unfold drain_pending_commits_with.
  destruct (drain_pending_commits_loop K _ s4) as [s5 a5]. destruct Hdrain as [Hinv5 Hsteps].
  split; [exact Hinv5|]. cbn [fst snd] in *. rewrite Htip4 in Hsteps.
  rewrite !commit_trace_app, commit_trace_cancel, app_nil_r.
  eapply chain_steps_app; [|exact Hsteps]. apply chain_step_one; [|done].
  split; [done|]. lia.
Qed.

Hypothesis nonzero : no_zero_hash.

(** A certificate for a block is not the genesis certificate. *)
Lemma not_genesis c block qc : synced_ok c block qc -> QC.is_genesis qc = false.
Proof.
  intros [_ Hq]. unfold QC.is_genesis. rewrite Hq.
  apply andb_false_iff. right. apply N.eqb_neq, nonzero.
Qed.

Lemma submit_ok s block qc :
  chain_inv s -> synced_ok (s_committed_height s) block qc ->
  run_ok s (submit_synced_block_for_verification_with K block qc s).
Proof.
  intros Hinv Hok. unfold submit_synced_block_for_verification_with.
  rewrite (not_genesis _ _ _ Hok). destruct collect_qc_signer_keys; [|by apply run_ok_skip].
  apply run_ok_stay; [|done..]. destruct Hinv as [Ic Ip Ice Ib Is].
  split; cbn; auto. intros hash p. rewrite lookup_insert_Some.
  intros [[_ <-] | [_ Hp]]; eauto.
Qed.

(** Taking a block out of a buffer keeps the invariant. *)
Lemma delete_buffered_inv h s :
  chain_inv s -> chain_inv (s <| s_buffered_synced_blocks ::= delete h |>).
Proof.
  intros [Ic Ip Ice Ib Is]. split; cbn; auto.
  intros k b q [_ Hl]%lookup_delete_Some. auto.
Qed.

Lemma drain_synced_ok slots h : advances (drain_synced_loop K slots h).
Proof.
  revert h. induction slots as [|slots IH]; intros h s Hinv; simpl; [by apply run_ok_skip|].
  destruct (s_buffered_synced_blocks s !! h) as [[block qc]|] eqn:Hb; [|by apply run_ok_skip].
  eapply run_ok_from; [|apply run_ok_seq]; [done| |].
  - apply submit_ok; [by apply delete_buffered_inv|]. apply (ci_buffered s Hinv h block qc Hb).
  - intros s1 Hs1. by apply IH.
Qed.

Lemma try_drain_ok : advances (try_drain_buffered_synced_blocks_with K).
Proof.
  intros s Hinv. unfold try_drain_buffered_synced_blocks_with.
  destruct (Nat.leb _ _); [by apply run_ok_skip|]. by apply drain_synced_ok.
Qed.

Lemma commit_with_ok hash : advances (commit_block_and_buffered_with K hash).
Proof.
  intros s Hinv. unfold commit_block_and_buffered_with.
  apply run_ok_seq; [by apply commit_loop_ok|]. apply try_drain_ok.
Qed.
End cycle.

Lemma commit_ok hash : no_zero_hash -> advances (commit_block_and_buffered hash).
Proof.
  intros Hz s Hinv. rewrite commit_unfold. by apply commit_with_ok.
Qed.

Lemma apply_verified_ok fuel : no_zero_hash -> advances (apply_verified_loop fuel).
Proof.
  intros Hz. induction fuel as [|fuel IH]; intros s Hinv; simpl; [by apply run_ok_skip|].
  destruct (find_verified_at s _) as [hash|] eqn:Hfind; [|by apply run_ok_skip].
  destruct (s_pending_synced_block_verifications s !! hash) as [p|] eqn:Hp;
    [|by apply run_ok_skip].
  assert (bh_height (bl_header (psv_block p)) = s_committed_height s +w 1) as Hh.
  { unfold find_verified_at in Hfind. apply fmap_Some in Hfind as ([k q] & Hfind & ->).
    apply List.find_some in Hfind as [Hin Htest]. apply list_elem_of_In in Hin.
    rewrite elem_of_hm_iter in Hin. simplify_map_eq.
    bool_to_prop. done. }
  destruct (ci_synced s Hinv hash p Hp) as [Hrange _].
  apply succ_height in Hh; [|apply Hinv|lia].
  assert (chain_inv (s <| s_pending_synced_block_verifications ::= delete hash |>)) as Hinv0.
  { destruct Hinv as [Ic Ip Ice Ib Is]. split; cbn; auto.
    intros h q [_ Hl]%lookup_delete_Some. eauto. }
  eapply run_ok_from; [|apply run_ok_seq]; [done| |exact IH].
  apply apply_synced_ok; [|done|done|lia]. intros hash'. by apply commit_ok.
Qed.

Lemma try_apply_ok : no_zero_hash -> advances try_apply_verified_synced_blocks.
Proof.
  intros Hz s Hinv. unfold try_apply_verified_synced_blocks.
  apply run_ok_seq; [by apply apply_verified_ok|]. by apply try_drain_ok.
Qed.

Lemma synced_ready_ok block qc :
  no_zero_hash -> bh_height (bl_header block) < u64_modulus ->
  advances (on_synced_block_ready block qc).
Proof.
  intros Hz Hlt s Hinv. unfold on_synced_block_ready.
  destruct (_ <=? _) eqn:Hle; [by apply run_ok_skip|]. apply N.leb_gt in Hle.
  destruct (_ =? _) eqn:Hq; simpl; [|by apply run_ok_skip]. apply N.eqb_eq in Hq.
  assert (synced_ok (s_committed_height s) block qc) as Hok by done.
  repeat (destruct (contains_key _ _); [by apply run_ok_skip|]).
  destruct (_ =? _ +w 1); [by apply submit_ok|].
  destruct (_ <? _); [|by apply run_ok_skip].
  eapply run_ok_from; [|apply try_drain_ok]; [done|done|].
  destruct Hinv as [Ic Ip Ice Ib Is]. split; cbn; auto.
  intros k b q. rewrite lookup_insert_Some. intros [[<- [= <- <-]] | [_ Hl]]; eauto.
Qed.

(** ** Pruning *)

(** Pruning at a committed height keeps exactly the pending blocks, vote
    locks, certified and buffered blocks above that height, reports exactly
    the pending blocks it drops, and leaves no verification state for a block
    that is not pending. *)
Theorem cleanup_prunes h s :
  let '(s', removed) := cleanup_old_state h s in
  (forall hash, hash ∈ removed <->
     exists pb, s_pending_blocks s !! hash = Some pb /\ bh_height (pb_header pb) <= h)
  /\ (forall hash pb, s_pending_blocks s' !! hash = Some pb <->
        s_pending_blocks s !! hash = Some pb /\ h < bh_height (pb_header pb))
  /\ (forall height lock, s_voted_heights s' !! height = Some lock <->
        s_voted_heights s !! height = Some lock /\ h < height)
  /\ (forall hash bq, s_certified_blocks s' !! hash = Some bq <->
        s_certified_blocks s !! hash = Some bq /\ h < bh_height (bl_header bq.1))
  /\ (forall height bq, s_buffered_synced_blocks s' !! height = Some bq <->
        s_buffered_synced_blocks s !! height = Some bq /\ h < height)
  /\ (forall hash, s_pending_blocks s' !! hash = None ->
        s_pending_block_created_at s' !! hash = None
        /\ s_pending_qc_verifications s' !! hash = None
        /\ s_pending_cycle_proof_verifications s' !! hash = None
        /\ s_pending_state_root_verifications s' !! hash = None
        /\ (hash ∉ s_verified_cycle_proofs s')
        /\ (hash ∉ s_verified_state_roots s')
        /\ (hash ∉ s_verified_transaction_roots s')
        /\ (hash ∉ s_state_root_verifications_in_flight s')
        /\ (hash ∉ s_transaction_root_verifications_in_flight s')).
Proof.
  unfold cleanup_old_state. cbv zeta. cbn -[hm_retain hs_retain].
  set (pending := hm_retain (fun _ pb => h <? bh_height (pb_header pb)) (s_pending_blocks s)).
  assert (forall {A} (m : gmap Hash A) hash, pending !! hash = None ->
            hm_retain (fun k _ => contains_key pending k) m !! hash = None) as Hmap.
  { intros A m hash Hnone. apply eq_None_not_Some. intros [x [_ Hc]%hm_retain_Some].
    apply contains_key_true in Hc as [? Hc]. by rewrite Hnone in Hc. }
  assert (forall (X : gset Hash) hash, pending !! hash = None ->
            hash ∉ hs_retain (contains_key pending) X) as Hset.
  { intros X hash Hnone [_ Hc]%elem_of_hs_retain.
    apply contains_key_true in Hc as [? Hc]. by rewrite Hnone in Hc. }
  split_and!.
  - intros hash. rewrite list_elem_of_fmap. setoid_rewrite list_elem_of_filter. split.
    + intros ([k pb] & -> & Hle & Hin). apply elem_of_hm_iter in Hin. eauto.
    + intros (pb & Hpb & Hle). exists (hash, pb). split; [done|]. split; [done|].
      by apply elem_of_hm_iter.
  - intros hash pb. unfold pending. by rewrite hm_retain_Some, N.ltb_lt.
  - intros. by rewrite hm_retain_Some, N.ltb_lt.
  - intros. by rewrite hm_retain_Some, N.ltb_lt.
  - intros. by rewrite hm_retain_Some, N.ltb_lt.
  - intros hash Hnone. split_and!; auto.
Qed.
End chain.
