(* ===== verification/BftReach.v ===== *)
(** * Runs of the consensus state machine

    The public handlers as one step function, runs as sequences of steps, and
    the invariant of BftChain.v along every run: whatever headers, votes,
    synced blocks, verification results and timers arrive, and in whatever
    order, the committed chain grows by one block at a time. *)

From stdpp Require Import base gmap list numbers.
From Stdlib Require Import NArith Lia.
From S2P Require Import Prelude Bitfield Types Encoding Topology VoteSet Core PendingBlock.
From S2P Require Import BftState BftVote BftCommit BftPropose BftLoops BftChain.

(** ** Steps *)

(** One constructor per public handler of [BftState], with its arguments. *)
Inductive bft_event :=
  | SetTime (now : Duration)
  | OnProposalTimer (ready_txs : ReadyTransactions) (deferred : list TransactionDefer)
      (aborted : list TransactionAbort) (certificates : list TransactionCertificate)
      (commitment_proofs : gmap Hash CommitmentProof)
  | CheckRoundTimeout
  | OnBlockHeader (gossip : BlockHeaderGossip) (mempool : gmap Hash RoutableTransaction)
      (certificates : gmap Hash TransactionCertificate)
  | OnBlockVote (vote : BlockVote)
  | OnQcResult (block_hash : Hash) (qc : option QuorumCertificate)
      (verified_votes : list VerifiedVote)
  | OnQcSignatureVerified (block_hash : Hash) (valid : bool)
  | OnCycleProofVerified (block_hash : Hash) (deferral_index : usize) (valid : bool)
  | OnStateRootVerified (block_hash : Hash) (valid : bool)
  | OnTransactionRootVerified (block_hash : Hash) (valid : bool)
  | OnProposalBuilt (height : BlockHeight) (round : u64) (block : Block) (hash : Hash)
  | OnStateCommitComplete (state_version : u64) (state_root : Hash)
  | OnQcFormed (block_hash : Hash) (qc : QuorumCertificate) (ready_txs : ReadyTransactions)
      (deferred : list TransactionDefer) (aborted : list TransactionAbort)
      (certificates : list TransactionCertificate) (commitment_proofs : gmap Hash CommitmentProof)
  | OnBlockReadyToCommit (block_hash : Hash) (qc : QuorumCertificate)
  | OnSyncBlockReadyToApply (block : Block) (qc : QuorumCertificate)
  | OnSyncComplete
  | CheckSyncHealth
  | OnTransactionFetchReceived (block_hash : Hash) (transactions : list RoutableTransaction)
  | OnCertificateFetchReceived (block_hash : Hash) (certificates : list TransactionCertificate)
  | CheckPendingBlocksForTransaction (tx_hash : Hash) (mempool : gmap Hash RoutableTransaction)
  | CheckPendingBlocksForCertificate (cert_hash : Hash)
      (certificates : gmap Hash TransactionCertificate)
  | CheckPendingBlockFetches.

Section reach.
Context `{Crypto} `{Topology} `{HashIter}.

Abbreviation bft := (handler BftState Action) (only parsing).

Definition bft_handle (e : bft_event) : bft :=
  match e with
  | SetTime now => hupd (set_time now)
  | OnProposalTimer ready deferred aborted certs proofs =>
      on_proposal_timer ready deferred aborted certs proofs
  | CheckRoundTimeout => fun s => default (s, []) (check_round_timeout s)
  | OnBlockHeader g mempool certs =>
      on_block_header (bg_header g) (bg_retry_hashes g) (bg_priority_hashes g)
        (bg_transaction_hashes g) (bg_certificate_hashes g) (bg_deferred g) (bg_aborted g)
        (bg_commitment_proofs g) mempool certs
  | OnBlockVote vote => on_block_vote vote
  | OnQcResult hash qc votes => on_qc_result hash qc votes
  | OnQcSignatureVerified hash valid => on_qc_signature_verified hash valid
  | OnCycleProofVerified hash i valid => on_cycle_proof_verified hash i valid
  | OnStateRootVerified hash valid => on_state_root_verified hash valid
  | OnTransactionRootVerified hash valid => on_transaction_root_verified hash valid
  | OnProposalBuilt height round block hash => on_proposal_built height round block hash
  | OnStateCommitComplete version root => on_state_commit_complete version root
  | OnQcFormed hash qc ready deferred aborted certs proofs =>
      on_qc_formed hash qc ready deferred aborted certs proofs
  | OnBlockReadyToCommit hash qc => on_block_ready_to_commit hash qc
  | OnSyncBlockReadyToApply block qc => on_sync_block_ready_to_apply block qc
  | OnSyncComplete => on_sync_complete
  | CheckSyncHealth => check_sync_health
  | OnTransactionFetchReceived hash txs => on_transaction_fetch_received hash txs
  | OnCertificateFetchReceived hash certs => on_certificate_fetch_received hash certs
  | CheckPendingBlocksForTransaction hash mempool =>
      check_pending_blocks_for_transaction hash mempool
  | CheckPendingBlocksForCertificate hash certs => check_pending_blocks_for_certificate hash certs
  | CheckPendingBlockFetches => fun s => (s, check_pending_block_fetches s)
  end.

(** The heights an event carries are [u64], the runner's proposal carries its
    own hash and a height above genesis, and a certificate's height leaves
    room for the next block. *)
Definition event_ok (e : bft_event) : Prop :=
  match e with
  | OnBlockHeader g _ _ => bh_height (bg_header g) < u64_modulus
  | OnProposalBuilt _ _ block hash => block_ok hash block
  | OnQcFormed _ qc _ _ _ _ _ => qc_height qc < u64_max
  | OnSyncBlockReadyToApply block _ => bh_height (bl_header block) < u64_modulus
  | _ => True
  end.

(** The height after the last one does not overflow. *)
Definition room_for_next (s : BftState) : Prop :=
  s_committed_height s < u64_max /\
  forall qc, s_latest_qc s = Some qc -> qc_height qc < u64_max.

(** A run: the events, the state reached and all actions emitted. *)
Inductive bft_run : BftState -> list bft_event -> BftState -> list Action -> Prop :=
  | run_done s : bft_run s [] s []
  | run_step s e events s' acts :
      event_ok e -> room_for_next s ->
      bft_run (bft_handle e s).1 events s' acts ->
      bft_run s (e :: events) s' ((bft_handle e s).2 ++ acts).

(** Running a list of events, and a check that it is a run. *)
Fixpoint run_events (s : BftState) (events : list bft_event) : BftState * list Action :=
  match events with
  | [] => (s, [])
  | e :: events' =>
      let '(s1, acts1) := bft_handle e s in
      let '(s2, acts2) := run_events s1 events' in
      (s2, acts1 ++ acts2)
  end.

Definition event_okb (e : bft_event) : bool :=
  match e with
  | OnBlockHeader g _ _ => bh_height (bg_header g) <? u64_modulus
  | OnProposalBuilt _ _ block hash =>
      (block_hash block =? hash) && (0 <? bh_height (bl_header block))
      && (bh_height (bl_header block) <? u64_modulus)
  | OnQcFormed _ qc _ _ _ _ _ => qc_height qc <? u64_max
  | OnSyncBlockReadyToApply block _ => bh_height (bl_header block) <? u64_modulus
  | _ => true
  end.

Fixpoint run_checked (s : BftState) (events : list bft_event) : bool :=
  match events with
  | [] => true
  | e :: events' =>
      event_okb e && (s_committed_height s <? u64_max)
      && is_none_or (s_latest_qc s) (fun qc => qc_height qc <? u64_max)
      && run_checked (bft_handle e s).1 events'
  end.

Lemma event_okb_ok e : event_okb e = true -> event_ok e.
Proof. destruct e; simpl; intros; bool_to_prop; done. Qed.

Lemma run_events_run s events :
  run_checked s events = true -> bft_run s events (run_events s events).1 (run_events s events).2.
Proof.
  revert s. induction events as [|e events IH]; intros s Hc; simpl in *; [constructor|].
  apply andb_true_iff in Hc as [[[He Hh%N.ltb_lt]%andb_true_iff Hq]%andb_true_iff Hrest].
  specialize (IH _ Hrest).
  assert (bft_run s (e :: events) (run_events (bft_handle e s).1 events).1
            ((bft_handle e s).2 ++ (run_events (bft_handle e s).1 events).2)) as Hrun.
  { constructor; [by apply event_okb_ok| |done]. split; [done|].
    intros qc Hqc. rewrite Hqc in Hq. by apply N.ltb_lt. }
  destruct (bft_handle e s) as [s1 a1]. simpl in Hrun. by destruct (run_events s1 events).
Qed.

(** ** Handlers that leave the stored blocks alone *)

Definition quiet (s : BftState) (r : BftState * list Action) : Prop :=
  chain_view r.1 = chain_view s /\ s_committed_hash r.1 = s_committed_hash s
  /\ commit_trace r.2 = [].

Lemma quiet_ok s r : chain_inv s -> quiet s r -> run_ok s r.
Proof. destruct r. intros Hinv (Hv & Hh & Ha). by apply run_ok_view. Qed.

Lemma quiet_seq s h1 h2 :
  quiet s (h1 s) -> (forall s1, quiet s1 (h2 s1)) -> quiet s ((h1 ;> h2) s).
Proof.
  unfold hseq. destruct (h1 s) as [s1 a1]. intros (Hv & Hh & Ha) Hnext.
  specialize (Hnext s1). destruct (h2 s1) as [s2 a2]. destruct Hnext as (Hv2 & Hh2 & Ha2).
  unfold quiet. simpl in *. rewrite commit_trace_app, Ha, Ha2. split_and!; [by etrans..|done].
Qed.

(** A quiet run from a state with the same stored blocks. *)
Lemma quiet_from s s0 r :
  chain_view s0 = chain_view s -> s_committed_hash s0 = s_committed_hash s ->
  quiet s0 r -> quiet s r.
Proof. intros Hv Hh (Hv2 & Hh2 & Ha). split_and!; [by etrans..|done]. Qed.

Lemma trigger_votes_quiet hash s : quiet s (maybe_trigger_vote_verification hash s).
Proof.
  unfold maybe_trigger_vote_verification.
  destruct (s_vote_sets s !! hash) as [vs|]; [|done].
  destruct (negb _); [done|].
  destruct (VoteSetOps.verification_data vs) as [[[[??]?]?]|]; [|done].
  destruct (VoteSetOps.take_unverified_votes vs) as [vs' votes].
  by destruct (Nat.eqb _ _).
Qed.

Lemma block_vote_quiet vote s : quiet s (on_block_vote_internal vote s).
Proof.
  unfold on_block_vote_internal.
  destruct (_ <=? _); [done|]. destruct (local_committee_index _); [|done].
  destruct (_ =? 0); [done|]. destruct (if bv_voter vote =? _ then _ else _) as [[pk|]|]; [..|done].
  all: destruct (VoteSetOps.has_seen_validator _ _); [done|].
  all: by eapply quiet_from; [..|apply trigger_votes_quiet].
Qed.

Lemma create_vote_quiet hash height round s : quiet s (create_vote hash height round s).
Proof.
  unfold create_vote.
  eapply quiet_from; [| |apply quiet_seq; [|intros; apply block_vote_quiet]]; done.
Qed.

Lemma qc_result_quiet hash qc votes s : quiet s (on_qc_result hash qc votes s).
Proof.
  unfold on_qc_result. destruct qc; [done|].
  assert (forall s1, chain_view (foldl (note_verified_vote hash) s1 votes) = chain_view s1
            /\ s_committed_hash (foldl (note_verified_vote hash) s1 votes) = s_committed_hash s1)
    as Hfold.
  { induction votes as [|v votes IH]; intros s1; [done|]. simpl.
    destruct (IH (note_verified_vote hash s1 v)) as [-> ->].
    unfold note_verified_vote. by repeat case_match. }
  destruct (Hfold s) as [Hv Hh]. destruct (s_vote_sets _ !! hash); [|by split_and!].
  eapply quiet_from; [| |apply trigger_votes_quiet]; [exact Hv|exact Hh].
Qed.

Lemma verifications_quiet hash block s : quiet s (initiate_verifications hash block s).
Proof.
  unfold initiate_verifications. apply quiet_seq; [|intros s1; apply quiet_seq; [|intros s2]];
    unfold when; (case_match; [|done]).
  - unfold initiate_cycle_proof_verification. case_match; [done|]. split_and!; [done..|].
    cbn [snd]. generalize (bl_deferred block) as l. intros l.
    apply elem_of_nil_inv. intros x Hx. unfold commit_trace in Hx.
    rewrite list_elem_of_omap in Hx. destruct Hx as (a & Ha & Hsome).
    apply elem_of_lookup_imap in Ha as (i & d & -> & _). done.
  - unfold initiate_state_root_verification. by case_match.
  - done.
Qed.

Lemma try_vote_quiet hash height round s : quiet s (try_vote_on_block hash height round s).
Proof.
  unfold try_vote_on_block. destruct (s_voted_heights s !! height); [done|].
  destruct (_ ≫= _) as [block|]; [|apply create_vote_quiet].
  destruct (validate_deferrals_and_aborts block); [done|].
  destruct (validate_transaction_ordering block); [done|].
  pose proof (verifications_quiet hash block s) as Hq.
  destruct (initiate_verifications hash block s) as [s1 acts].
  destruct (negb _); [done|]. destruct Hq as (Hv & Hh & _).
  eapply quiet_from; [exact Hv|exact Hh|apply create_vote_quiet].
Qed.

Lemma trigger_or_vote_quiet hash s : quiet s (trigger_qc_verification_or_vote hash s).
Proof.
  unfold trigger_qc_verification_or_vote. repeat case_match; try done; apply try_vote_quiet.
Qed.

Lemma vote_if_verified_quiet hash s : quiet s (vote_if_verified hash s).
Proof. unfold vote_if_verified. repeat case_match; try done; apply create_vote_quiet. Qed.

(** ** Pending blocks *)

Lemma insert_pending_inv hash pb s :
  chain_inv s -> pending_ok hash pb ->
  chain_inv (s <| s_pending_blocks ::= fun m => <[hash := pb]> m |>).
Proof.
  intros [Ic Ip Ice Ib Is] Hok. split; cbn; auto.
  intros h p. rewrite lookup_insert_Some. intros [[<- <-] | [_ Hl]]; auto.
Qed.

Lemma delete_pending_inv hash s :
  chain_inv s -> chain_inv (s <| s_pending_blocks ::= delete hash |>).
Proof.
  intros [Ic Ip Ice Ib Is]. split; cbn; auto. intros h p [_ Hl]%lookup_delete_Some. auto.
Qed.

(** Filling and constructing a pending block keep its header. *)
Definition same_header (pb pb' : PendingBlock) : Prop :=
  pb_header pb' = pb_header pb
  /\ forall block, PendingBlockOps.block pb' = Some block ->
       PendingBlockOps.block pb = Some block \/ bl_header block = pb_header pb.

Lemma same_header_refl pb : same_header pb pb.
Proof. split; [done|]. auto. Qed.

Lemma same_header_trans pb1 pb2 pb3 :
  same_header pb1 pb2 -> same_header pb2 pb3 -> same_header pb1 pb3.
Proof.
  intros [Heq12 Hb12] [Heq23 Hb23]. split; [congruence|]. intros b Hb.
  destruct (Hb23 b Hb) as [Hb2 | Hb2]; [by apply Hb12|]. right. congruence.
Qed.

Lemma pending_ok_same hash pb pb' :
  same_header pb pb' -> pending_ok hash pb -> pending_ok hash pb'.
Proof.
  intros [Heq Hb] (Hh & Hr & Hblock). unfold pending_ok. rewrite Heq.
  split_and!; [done|lia|lia|]. intros b Hsome. destruct (Hb b Hsome) as [?|?]; auto.
Qed.

Lemma add_tx_same pb tx : same_header pb (PendingBlockOps.add_transaction_arc pb tx).1.
Proof. unfold PendingBlockOps.add_transaction_arc. case_match; split; simpl; auto. Qed.

Lemma add_cert_same pb c : same_header pb (PendingBlockOps.add_certificate pb c).1.
Proof. unfold PendingBlockOps.add_certificate. case_match; split; simpl; auto. Qed.

Lemma construct_same pb : same_header pb (PendingBlockOps.construct_block pb).1.
Proof.
  unfold PendingBlockOps.construct_block.
  destruct (negb _); [apply same_header_refl|].
  destruct (pb_constructed_block pb); [apply same_header_refl|].
  repeat destruct (PendingBlockOps.take_in_order _ _).
  split; [done|]. intros b [= <-]. by right.
Qed.

Lemma construct_if_needed_same pb pb' :
  construct_if_needed pb = Some pb' -> same_header pb pb'.
Proof.
  unfold construct_if_needed. destruct (PendingBlockOps.block pb).
  - intros [= <-]. apply same_header_refl.
  - pose proof (construct_same pb) as Hsame.
    destruct (PendingBlockOps.construct_block pb) as [p [b|]]; [|done]. by intros [= <-].
Qed.

Lemma foldl_same {A} (f : PendingBlock -> A -> PendingBlock) l pb :
  (forall p x, same_header p (f p x)) -> same_header pb (foldl f pb l).
Proof.
  intros Hf. revert pb. induction l as [|x l IH]; intros pb; simpl; [apply same_header_refl|].
  eapply same_header_trans; [apply Hf|apply IH].
Qed.

Lemma new_pending_ok header retry priority txs certs deferred aborted proofs :
  0 < bh_height header < u64_modulus ->
  pending_ok (header_hash header)
    (PendingBlockOps.with_proofs header retry priority txs certs deferred aborted proofs).
Proof. intros Hr. split; [done|]. split; [done|]. by intros b [=]. Qed.

(** ** The handlers *)

Lemma block_completed_ok hash : no_zero_hash -> advances (block_completed hash).
Proof.
  intros Hz s Hinv. unfold block_completed.
  apply run_ok_seq; [apply quiet_ok; [done|apply trigger_or_vote_quiet]|].
  intros s1 Hs1. unfold try_commit_pending_data.
  destruct (s_pending_commits_awaiting_data s1 !! hash) as [[? qc]|]; [|by apply run_ok_skip].
  eapply run_ok_from; [|apply ready_ok]; [done| |by apply (chain_inv_view s1)].
  intros hash'. by apply commit_ok.
Qed.

(** A pending block is replaced by one with the same header, and the handler
    goes on with it. *)
Lemma with_pending_ok s hash pb0 pb h :
  chain_inv s -> s_pending_blocks s !! hash = Some pb0 -> same_header pb0 pb -> advances h ->
  run_ok s (h (s <| s_pending_blocks ::= fun m => <[hash := pb]> m |>)).
Proof.
  intros Hinv Hpb0 Hsame Hh. eapply run_ok_from; [|apply Hh]; [done|].
  apply insert_pending_inv; [done|]. eapply pending_ok_same; [done|]. by apply Hinv.
Qed.

Lemma advances_emit acts : commit_trace acts = [] -> advances (hemit acts).
Proof. intros Ha s Hinv. by apply run_ok_view. Qed.

Lemma advances_skip : advances hskip.
Proof. intros s. apply run_ok_skip. Qed.

Lemma run_ok_emit s acts h :
  commit_trace acts = [] -> run_ok s (h s) -> run_ok s ((hemit acts ;> h) s).
Proof.
  intros Ha. unfold hseq, hemit. destruct (h s) as [s1 a1]. intros [Hinv Hsteps].
  split; [done|]. cbn [fst snd] in *. by rewrite commit_trace_app, Ha.
Qed.

Lemma refetch_trace hash pb : commit_trace (refetch hash pb) = [].
Proof. unfold refetch. rewrite commit_trace_app. by repeat case_match. Qed.

Lemma after_fetch_ok s hash pb0 pb :
  no_zero_hash -> chain_inv s -> s_pending_blocks s !! hash = Some pb0 -> same_header pb0 pb ->
  run_ok s (after_fetch hash pb s).
Proof.
  intros Hz Hinv Hpb0 Hsame. unfold after_fetch. destruct (negb _).
  { apply (with_pending_ok s hash pb0 pb (hemit (refetch hash pb))); [done..|].
    apply advances_emit, refetch_trace. }
  destruct (construct_if_needed pb) as [pb'|] eqn:Hc.
  - apply (with_pending_ok s hash pb0 pb'); [done..| |by apply block_completed_ok].
    eapply same_header_trans; [done|by apply construct_if_needed_same].
  - apply (with_pending_ok s hash pb0 _ hskip); [done..| |apply advances_skip].
    eapply same_header_trans; [done|apply construct_same].
Qed.

Lemma for_each_ok {A} (h : A -> handler BftState Action) l :
  (forall x, advances (h x)) -> advances (for_each h l).
Proof.
  intros Hh. induction l as [|x l IH]; simpl; [apply advances_skip|]. by apply advances_seq.
Qed.

Lemma fill_pending_ok add hash :
  no_zero_hash -> (forall pb, same_header pb (add pb)) -> advances (fill_pending_block add hash).
Proof.
  intros Hz Hadd s Hinv. unfold fill_pending_block.
  destruct (s_pending_blocks s !! hash) as [pb0|] eqn:Hpb0; [|by apply run_ok_skip].
  specialize (Hadd pb0). destruct (negb _).
  { by apply (with_pending_ok s hash pb0 _ hskip); [..|apply advances_skip]. }
  destruct (construct_if_needed (add pb0)) as [pb'|] eqn:Hc.
  - apply (with_pending_ok s hash pb0 pb'); [done..| |by apply block_completed_ok].
    eapply same_header_trans; [done|by apply construct_if_needed_same].
  - apply (with_pending_ok s hash pb0 _ hskip); [done..| |apply advances_skip].
    eapply same_header_trans; [done|apply construct_same].
Qed.

Lemma construct_stores pb pb' block :
  PendingBlockOps.construct_block pb = (pb', Some block) -> PendingBlockOps.block pb' = Some block.
Proof.
  unfold PendingBlockOps.construct_block.
  destruct (negb _); [done|]. destruct (pb_constructed_block pb) eqn:Hb; [by intros [= <- <-]|].
  repeat destruct (PendingBlockOps.take_in_order _ _). by intros [= <- <-].
Qed.

Lemma construct_pending_ok hash pb pb' block :
  pending_ok hash pb -> PendingBlockOps.construct_block pb = (pb', Some block) ->
  pending_ok hash pb' /\ block_ok hash block.
Proof.
  intros Hok Hc. pose proof (construct_same pb) as Hsame. rewrite Hc in Hsame. cbn [fst] in Hsame.
  pose proof (pending_ok_same _ _ _ Hsame Hok) as Hok'. split; [done|].
  destruct Hok' as (Hh & Hr & Hhd). apply construct_stores, Hhd in Hc.
  unfold block_ok, block_hash. by rewrite Hc.
Qed.

Lemma empty_block_ok timestamp fb s height round :
  chain_inv s -> 0 < height < u64_modulus ->
  run_ok s (build_and_broadcast_empty_block timestamp fb height round s).
Proof.
  intros Hinv Hr. unfold build_and_broadcast_empty_block.
  destruct (parent_of_proposal s) as [parent_hash parent_qc].
  destruct (parent_state s parent_hash) as [root version].
  set (header := mk_block_header _ _ _ _ _ _ _ _ _ _).
  destruct (PendingBlockOps.construct_block _) as [pb [b|]] eqn:Hc.
  - destruct (construct_pending_ok (header_hash header) _ _ _
                (new_pending_ok header [] [] [] [] [] [] ∅ Hr) Hc) as [Hpb Hb].
    eapply run_ok_from; [|apply run_ok_seq]; [done| |].
    + apply advances_emit; [done|]. apply (insert_pending_inv _ _ _ Hinv) in Hpb.
      destruct Hpb as [Ic Ip Ice Ib Is]. split; cbn in *; auto.
      intros h b' q. rewrite lookup_insert_Some. intros [[<- [= <- <-]] | [_ Hl]]; eauto.
    + intros s1 Hs1. apply run_ok_seq; [by apply quiet_ok, create_vote_quiet|].
      by apply advances_emit.
  - eapply run_ok_from; [|apply run_ok_seq]; [done|by apply advances_emit, (chain_inv_view s)|].
    intros s1 Hs1. apply run_ok_seq; [by apply quiet_ok, create_vote_quiet|].
    by apply advances_emit.
Qed.

Lemma next_height_range s : room_for_next s -> 0 < next_height s < u64_modulus.
Proof.
  intros [Hc Hqc]. split; [|unfold next_height; case_match; apply wadd_lt].
  unfold next_height. destruct (s_latest_qc s) as [qc|].
  - rewrite wadd_1_small by auto. lia.
  - rewrite wadd_1_small by done. lia.
Qed.

Lemma proposal_timer_ok s ready deferred aborted certs proofs :
  chain_inv s -> room_for_next s ->
  run_ok s (on_proposal_timer ready deferred aborted certs proofs s).
Proof.
  intros Hinv Hroom. unfold on_proposal_timer.
  destruct (negb _); [by apply run_ok_view|].
  destruct (contains_key _ _); [by apply run_ok_view|].
  destruct (s_syncing s); [by apply empty_block_ok, next_height_range|].
  destruct (parent_of_proposal s), (parent_state s _). by apply run_ok_view.
Qed.

Lemma adopt_qc_room qc s : qc_height qc < u64_max -> room_for_next s -> room_for_next (adopt_qc qc s).
Proof.
  intros Hq [Hc Hl]. unfold adopt_qc, maybe_unlock_for_qc.
  repeat case_match; (split; [done|]); cbn; intros q [= <-] || auto; done.
Qed.

Lemma qc_formed_ok s hash qc ready deferred aborted certs proofs :
  chain_inv s -> room_for_next s -> qc_height qc < u64_max ->
  run_ok s (on_qc_formed hash qc ready deferred aborted certs proofs s).
Proof.
  intros Hinv Hroom Hq. unfold on_qc_formed. cbv zeta.
  set (s1 := adopt_qc qc (record_leader_activity s)).
  assert (chain_view s1 = chain_view s) as Hview by exact (adopt_qc_view qc _).
  assert (tip s1 = tip s) as Htip by exact (adopt_qc_tip qc _).
  assert (room_for_next s1) as Hroom1 by (by apply adopt_qc_room).
  clearbody s1. apply (chain_inv_view _ _ Hview) in Hinv.
  apply (run_ok_from _ _ _ Htip), run_ok_emit.
  - rewrite commit_trace_app. unfold two_chain_commit. by repeat case_match.
  - case_match; [by apply proposal_timer_ok|by apply run_ok_skip].
Qed.

Lemma advance_round_ok s : chain_inv s -> room_for_next s -> run_ok s (advance_round s).
Proof.
  intros Hinv Hroom. unfold advance_round. cbv zeta.
  set (s1 := s <| s_view := _ |> <| s_view_changes := _ |>).
  set (s2 := if _ <? _ then _ else _).
  assert (chain_view s2 = chain_view s) as Hview by (unfold s2; by case_match).
  assert (tip s2 = tip s) as Htip by (unfold s2; by case_match).
  clearbody s2. apply (chain_inv_view _ _ Hview) in Hinv. apply (run_ok_from _ _ _ Htip).
  destruct (should_propose _ _); [|by apply run_ok_view].
  destruct (s_voted_heights s2 !! _) as [[existing ?]|].
  - unfold repropose_locked_block. case_match; by apply run_ok_view.
  - by apply empty_block_ok, next_height_range.
Qed.

Lemma proposal_built_ok s height round block hash :
  chain_inv s -> block_ok hash block -> run_ok s (on_proposal_built height round block hash s).
Proof.
  intros Hinv [Hh Hr]. unfold on_proposal_built.
  destruct (s_pending_proposal s); [|by apply run_ok_skip].
  destruct (_ || _); [by apply run_ok_skip|]. cbv zeta.
  set (pb := foldl _ _ (bl_certificates block)).
  assert (pending_ok hash pb) as Hpb.
  { rewrite <-Hh. unfold pb. eapply pending_ok_same;
      [|apply (new_pending_ok (bl_header block)); exact Hr].
    eapply same_header_trans; [|apply foldl_same; intros; apply add_cert_same].
    apply foldl_same; intros; apply add_tx_same. }
  clearbody pb. destruct (PendingBlockOps.construct_block pb) as [pb' [b|]] eqn:Hc;
    [|by apply run_ok_view].
  destruct (construct_pending_ok _ _ _ _ Hpb Hc) as [Hpb' _].
  eapply run_ok_from; [|apply run_ok_emit]; [done|done|].
  apply quiet_ok; [|apply create_vote_quiet].
  by apply (chain_inv_view (s <| s_pending_blocks ::= fun m => <[hash := pb']> m |>)),
    insert_pending_inv.
Qed.

Lemma start_sync_quiet height hash s : quiet s (start_sync height hash s).
Proof. unfold start_sync, set_syncing. repeat case_match; done. Qed.

Lemma note_parent_quiet header s : quiet s (note_parent_qc header s).
Proof.
  unfold note_parent_qc. destruct (QC.is_genesis _); [done|].
  destruct (has_complete_block_at_height _ _).
  - split; [apply adopt_qc_view|]. split; [|done].
    pose proof (adopt_qc_tip (bh_parent_qc header) s) as Ht. by injection Ht.
  - pose proof (start_sync_quiet (qc_height (bh_parent_qc header))
                  (qc_block_hash (bh_parent_qc header)) s) as Hq.
    by destruct (start_sync _ _ s).
Qed.

Lemma validated_height s header :
  validate_header s header = None -> s_committed_height s < bh_height header.
Proof. unfold validate_header. case_match eqn:Hle; [done|]. by apply N.leb_gt in Hle. Qed.

(** The tail of [on_block_header], once the pending block is stored. *)
Lemma header_tail_ok hash :
  advances (fun s6 =>
    match s_pending_blocks s6 !! hash with
    | Some p =>
        if PendingBlockOps.is_complete p then
          match construct_if_needed p with
          | None => (s6, [])
          | Some p' =>
              trigger_qc_verification_or_vote hash
                (s6 <| s_pending_blocks ::= fun m => <[hash := p']> m |>)
          end
        else (s6, [])
    | None => (s6, [])
    end).
Proof.
  intros s Hinv. destruct (s_pending_blocks s !! hash) as [p|] eqn:Hp; [|by apply run_ok_skip].
  destruct (PendingBlockOps.is_complete p); [|by apply run_ok_skip].
  destruct (construct_if_needed p) as [p'|] eqn:Hc; [|by apply run_ok_skip].
  apply (with_pending_ok s hash p p' (trigger_qc_verification_or_vote hash)); [done..| |].
  - by apply construct_if_needed_same.
  - intros s1 Hs1. by apply quiet_ok, trigger_or_vote_quiet.
Qed.

Lemma fill_from_stores_same pb txs certs mempool certificates :
  same_header pb (fill_from_stores pb txs certs mempool certificates).
Proof.
  unfold fill_from_stores.
  eapply same_header_trans; [|apply foldl_same]; [apply foldl_same|]; intros p h;
    case_match; auto using add_tx_same, add_cert_same, same_header_refl.
Qed.

Lemma block_header_ok s header retry priority txs certs deferred aborted proofs mempool store :
  chain_inv s -> bh_height header < u64_modulus ->
  run_ok s (on_block_header header retry priority txs certs deferred aborted proofs mempool store s).
Proof.
  intros Hinv Hlt. unfold on_block_header.
  pose proof (note_parent_quiet header s) as Hq.
  destruct (note_parent_qc header s) as [s1 sync_actions]. destruct Hq as (Hv & Hh & Hsync).
  simpl in Hv, Hh, Hsync. cbv zeta.
  set (s2 := if s_view s1 <? _ then _ else s1).
  assert (chain_view s2 = chain_view s) as Hv2 by (unfold s2; by case_match).
  assert (s_committed_hash s2 = s_committed_hash s) as Hh2 by (unfold s2; by case_match).
  clearbody s2. assert (chain_inv s2) as Hinv2 by (by eapply chain_inv_view).
  assert (tip s2 = tip s) as Htip by (unfold tip; rewrite Hh2; by injection Hv2 as ->).
  apply (run_ok_from _ _ _ Htip).
  destruct (validate_header s2 header) eqn:Hvalid; [by apply run_ok_view|].
  apply validated_height in Hvalid.
  set (s3 := record_header_activity _ _ s2).
  assert (chain_view s3 = chain_view s2) as Hv3 by (unfold s3, record_header_activity; by case_match).
  assert (tip s3 = tip s2) as Htip3 by (unfold s3, record_header_activity; by case_match).
  clearbody s3. apply (chain_inv_view _ _ Hv3) in Hinv2. apply (run_ok_from _ _ _ Htip3).
  destruct (contains_key _ _); [by apply run_ok_view|].
  set (pb := fill_from_stores _ _ _ _ _).
  assert (pending_ok (header_hash header) pb) as Hpb.
  { eapply pending_ok_same; [apply fill_from_stores_same|]. apply new_pending_ok. lia. }
  clearbody pb. apply (insert_pending_inv _ _ _ Hinv2) in Hpb.
  match goal with |- context [maybe_trigger_vote_verification _ ?x] => set (s4 := x) end.
  assert (chain_inv s4) as Hinv4 by (by eapply chain_inv_view; [|exact Hpb]).
  apply (run_ok_from s3 s4); [done|]. clearbody s4.
  pose proof (trigger_votes_quiet (header_hash header) s4) as (Hv5 & Hh5 & Ha5).
  destruct (maybe_trigger_vote_verification _ s4) as [s5 acts]. simpl in Hv5, Hh5, Ha5.
  assert (tip s5 = tip s4) as Htip5 by (unfold tip; rewrite Hh5; by injection Hv5 as ->).
  apply (chain_inv_view _ _ Hv5) in Hinv4. apply (run_ok_from _ _ _ Htip5).
  assert (commit_trace (acts ++ sync_actions) = []) as Hacts
    by (by rewrite commit_trace_app, Ha5, Hsync).
  destruct (existsb _ _); [by apply run_ok_view|].
  apply run_ok_emit; [done|]. by apply header_tail_ok.
Qed.

Lemma verified_tail_ok s s' hash :
  chain_inv s -> chain_view s' = chain_view s -> s_committed_hash s' = s_committed_hash s ->
  run_ok s (vote_if_verified hash s').
Proof.
  intros Hinv Hv Hh. apply quiet_ok; [done|].
  by eapply quiet_from; [| |apply vote_if_verified_quiet].
Qed.

Lemma rejected_ok s s' hash :
  chain_inv s -> chain_view s' = chain_view s -> s_committed_hash s' = s_committed_hash s ->
  run_ok s (s' <| s_pending_blocks ::= delete hash |>, []).
Proof.
  intros Hinv Hv Hh. apply (run_ok_from s s').
  { unfold tip. rewrite Hh. by injection Hv as ->. }
  apply run_ok_stay; [|done..]. apply delete_pending_inv. by eapply chain_inv_view.
Qed.

Lemma qc_signature_ok s hash valid :
  no_zero_hash -> chain_inv s -> run_ok s (on_qc_signature_verified hash valid s).
Proof.
  intros Hz Hinv. unfold on_qc_signature_verified.
  destruct (s_pending_synced_block_verifications s !! hash) as [p|] eqn:Hp.
  - destruct (negb valid).
    + apply run_ok_stay; [|done..]. destruct Hinv as [Ic Ip Ice Ib Is]. split; cbn; auto.
      intros h q. by rewrite lookup_empty.
    + eapply run_ok_from; [|apply try_apply_ok]; [done|done|].
      destruct Hinv as [Ic Ip Ice Ib Is]. split; cbn; auto.
      intros h q. rewrite lookup_insert_Some. intros [[<- <-] | [_ Hl]]; [|by eauto].
      apply (Is _ _ Hp).
  - destruct (s_pending_qc_verifications s !! hash) as [header|]; [|by apply run_ok_skip].
    destruct (negb valid); [by apply rejected_ok|].
    apply quiet_ok; [done|]. by eapply quiet_from; [| |apply try_vote_quiet].
Qed.

Lemma fetches_trace s : commit_trace (check_pending_block_fetches s) = [].
Proof.
  unfold check_pending_block_fetches. case_match; [done|].
  induction (hm_iter (s_pending_blocks s)) as [|[hash pb] l IH]; [done|]. simpl.
  rewrite commit_trace_app, IH, app_nil_r. unfold fetches_for.
  repeat case_match; try done; rewrite commit_trace_app; by repeat case_match.
Qed.

Lemma sync_health_quiet s : quiet s (check_sync_health s).
Proof.
  unfold check_sync_health. repeat case_match; try done; apply start_sync_quiet.
Qed.

Lemma state_commit_ok s version root :
  chain_inv s -> run_ok s (on_state_commit_complete version root s).
Proof.
  intros Hinv. unfold on_state_commit_complete. case_match; [by apply run_ok_skip|].
  eapply run_ok_from; [|apply for_each_ok]; [done| |by apply (chain_inv_view s)].
  intros hash s1 Hs1. unfold start_queued_verification. case_match; by apply run_ok_view.
Qed.

(** Every step keeps the invariant and commits consecutively. *)
Lemma step_ok s e :
  no_zero_hash -> chain_inv s -> room_for_next s -> event_ok e -> run_ok s (bft_handle e s).
Proof.
  intros Hz Hinv Hroom Hok. destruct e; simpl in *.
  - by apply run_ok_view.
  - by apply proposal_timer_ok.
  - unfold check_round_timeout. case_match; simpl; [by apply run_ok_skip|].
    eapply run_ok_from; [|apply advance_round_ok]; [done|by apply (chain_inv_view s)|done].
  - by apply block_header_ok.
  - by apply quiet_ok, block_vote_quiet.
  - by apply quiet_ok, qc_result_quiet.
  - by apply qc_signature_ok.
  - unfold on_cycle_proof_verified. case_match; [|by apply run_ok_skip].
    destruct (Nat.ltb _ _); [by apply run_ok_view|].
    destruct (negb _); [by apply rejected_ok|by apply verified_tail_ok].
  - unfold on_state_root_verified. destruct (negb _); [by apply rejected_ok|by apply verified_tail_ok].
  - unfold on_transaction_root_verified.
    destruct (negb _); [by apply rejected_ok|by apply verified_tail_ok].
  - by apply proposal_built_ok.
  - by apply state_commit_ok.
  - by apply qc_formed_ok.
  - apply ready_ok; [|done]. intros hash. by apply commit_ok.
  - unfold on_sync_block_ready_to_apply. case_match; [by apply run_ok_skip|].
    by apply synced_ready_ok.
  - unfold on_sync_complete. cbv zeta.
    apply run_ok_view; [done|unfold set_syncing; by case_match..|apply fetches_trace].
  - by apply quiet_ok, sync_health_quiet.
  - unfold on_transaction_fetch_received. case_match; [|by apply run_ok_skip].
    eapply after_fetch_ok; [done..|]. apply foldl_same. intros. apply add_tx_same.
  - unfold on_certificate_fetch_received. case_match; [|by apply run_ok_skip].
    eapply after_fetch_ok; [done..|]. apply foldl_same. intros. apply add_cert_same.
  - apply for_each_ok; [|done]. intros hash. apply fill_pending_ok; [done|].
    intros pb. case_match; [apply add_tx_same|apply same_header_refl].
  - apply for_each_ok; [|done]. intros hash. apply fill_pending_ok; [done|].
    intros pb. case_match; [apply add_cert_same|apply same_header_refl].
  - apply run_ok_view; [done..|apply fetches_trace].
Qed.

(** ** Start-up *)

(** A state without stored blocks: [BftState::new], then either the genesis
    block or the recovered chain metadata. *)
Definition start_fresh (key : Bls12381G1PrivateKey) (config : BftConfig) (genesis : Block)
    : BftState :=
  (initialize_genesis genesis
     (bft_new key config (mk_recovered_state ∅ 0 None None None))).1.

Definition start_recovered (key : Bls12381G1PrivateKey) (config : BftConfig)
    (recovered : RecoveredState) (height : BlockHeight) (hash : option Hash)
    (qc : option QuorumCertificate) : BftState :=
  (on_chain_metadata_fetched height hash qc (bft_new key config recovered)).1.

Lemma new_inv key config recovered :
  rec_committed_height recovered < u64_modulus -> chain_inv (bft_new key config recovered).
Proof. intros Hc. split; cbn; [done|..]; intros *; by rewrite lookup_empty. Qed.

Lemma start_fresh_inv key config genesis : chain_inv (start_fresh key config genesis).
Proof. by apply (chain_inv_view (bft_new key config (mk_recovered_state ∅ 0 None None None))), new_inv. Qed.

Lemma start_recovered_inv key config recovered height hash qc :
  rec_committed_height recovered < u64_modulus -> height < u64_modulus ->
  chain_inv (start_recovered key config recovered height hash qc).
Proof.
  intros Hr Hh. unfold start_recovered, on_chain_metadata_fetched.
  pose proof (new_inv key config recovered Hr) as Hnew.
  set (s0 := bft_new key config recovered) in *.
  match goal with |- context [cleanup_old_state height ?x] =>
    pose proof (cleanup_inv height s0 x Hnew Hh eq_refl eq_refl eq_refl eq_refl eq_refl) as Hclean;
    destruct (cleanup_old_state height x) end.
  destruct height, hash; done.
Qed.

(** Every run keeps the invariant and commits consecutively. *)
Lemma bft_run_ok s events s' acts :
  no_zero_hash -> chain_inv s -> bft_run s events s' acts ->
  chain_steps (tip s) (commit_trace acts) (tip s') /\ chain_inv s'.
Proof.
  intros Hz Hinv Hrun. induction Hrun as [s|s e events s' acts Hok Hroom Hrun IH].
  - split; [constructor|done].
  - destruct (step_ok s e Hz Hinv Hroom Hok) as [Hinv1 Hsteps].
    destruct (IH Hinv1) as [Hrest Hinv']. split; [|done].
    rewrite commit_trace_app. by eapply chain_steps_app.
Qed.

(** C1: Along every run of the handlers, from any state that satisfies the
    invariant of the stored blocks, the blocks announced as committed are the
    consecutive heights above the height committed at the start, each under
    its own hash; the committed height and hash at the end are those of the
    last one; and the invariant holds again.  The run may mix consensus,
    buffered commits and sync in any order and with any network input.  The
    hypotheses are that no block hashes to zero and that heights do not
    reach the end of [u64]. *)
Theorem commits_are_consecutive s events s' acts :
  no_zero_hash -> chain_inv s -> bft_run s events s' acts ->
  chain_steps (tip s) (commit_trace acts) (tip s') /\ chain_inv s'.
Proof. apply bft_run_ok. Qed.
End reach.

(** ** A concrete run: two blocks, committed out of order *)

Definition sample_genesis : Block := genesis_block QC.genesis.

Definition sample_start : BftState :=
  @start_fresh sample_crypto (sample_topology 0) 1 default_config sample_genesis.

Definition sample_header (height : u64) (parent_hash : Hash) (parent_qc : QuorumCertificate)
    (proposer : ValidatorId) : BlockHeader := {|
  bh_height := height;
  bh_parent_hash := parent_hash;
  bh_parent_qc := parent_qc;
  bh_proposer := proposer;
  bh_timestamp := 0;
  bh_round := 0;
  bh_is_fallback := false;
  bh_state_root := ZERO;
  bh_state_version := 0;
  bh_transaction_root := ZERO
|}.

Definition sample_gossip (header : BlockHeader) : BlockHeaderGossip :=
  mk_block_header_gossip header [] [] [] [] [] [] ∅.

Definition sample_header_1 : BlockHeader :=
  sample_header 1 (@block_hash sample_crypto sample_genesis) QC.genesis 1.
Definition sample_hash_1 : Hash := @header_hash sample_crypto sample_header_1.

(** A certificate for the first block as three validators would sign it. *)
Definition sample_qc_1 : QuorumCertificate := {|
  qc_block_hash := sample_hash_1;
  qc_height := 1;
  qc_parent_block_hash := @block_hash sample_crypto sample_genesis;
  qc_round := 0;
  qc_signers := SignerBitfieldOps.empty;
  qc_aggregated_signature := zero_bls_signature;
  qc_voting_power := 3;
  qc_weighted_timestamp_ms := 0
|}.

Definition sample_header_2 : BlockHeader := sample_header 2 sample_hash_1 sample_qc_1 2.
Definition sample_hash_2 : Hash := @header_hash sample_crypto sample_header_2.

Definition sample_events : list bft_event :=
  [OnBlockHeader (sample_gossip sample_header_1) ∅ ∅;
   OnBlockHeader (sample_gossip sample_header_2) ∅ ∅;
   OnBlockReadyToCommit sample_hash_2 sample_qc_1;
   OnBlockReadyToCommit sample_hash_1 sample_qc_1].

#[local] Strategy opaque [sample_hash].

Lemma sample_no_zero : @no_zero_hash sample_crypto.
Proof. intros block. exact (sample_hash_nonzero (sample_encode_header (bl_header block))). Qed.

Lemma commits_are_consecutive_witness :
  exists s' acts,
    (fun c => c.1.2) <$> commit_trace acts = [1; 2]
    /\ @chain_steps sample_crypto (tip sample_start) (commit_trace acts) (tip s')
    /\ @chain_inv sample_crypto s'.
Proof.
  set (r := @run_events sample_crypto (sample_topology 0) canonical_iter sample_start sample_events).
  exists r.1, r.2. split; [vm_compute; reflexivity|].
  apply (@commits_are_consecutive sample_crypto (sample_topology 0) canonical_iter
           sample_start sample_events r.1 r.2).
  - exact sample_no_zero.
  - exact (start_fresh_inv _ _ _).
  - apply run_events_run. vm_compute; reflexivity.
Defined.
