(* ===== verification/BftVoting.v ===== *)
(** * When a validator votes

    The exact condition under which [try_vote_on_block] votes, the effect of
    a vote, and what the block checks before a vote accept. *)

From stdpp Require Import base gmap list numbers sorting.
From Stdlib Require Import NArith Lia.
From S2P Require Import Prelude Bitfield Types Encoding Merkle Topology VoteSet Core Runner.
From S2P Require Import PendingBlock.
From S2P Require Import BftState BftVote BftCommit BftPropose BftChain BftReach.

(** ** The validator's own votes among the actions *)

Definition own_votes (acts : list Action) : list (u64 * u64 * Hash) :=
  omap (fun a => match a with
                 | PersistAndBroadcastVote height round hash _ _ => Some (height, round, hash)
                 | _ => None
                 end) acts.

Lemma own_votes_app a1 a2 : own_votes (a1 ++ a2) = own_votes a1 ++ own_votes a2.
Proof. apply omap_app. Qed.

Section voting.
Context `{Crypto} `{Topology} `{HashIter}.

(** The only action vote collection emits is a batch verification. *)
Definition is_vote_batch (a : Action) : Prop :=
  match a with VerifyAndBuildQuorumCertificate _ _ _ _ _ _ _ _ => True | _ => False end.

Lemma trigger_votes_batch hash s : Forall is_vote_batch (maybe_trigger_vote_verification hash s).2.
Proof.
  unfold maybe_trigger_vote_verification.
  destruct (s_vote_sets s !! hash) as [vs|]; [|constructor].
  destruct (negb _); [constructor|].
  destruct (VoteSetOps.verification_data vs) as [[[[??]?]?]|]; [|constructor].
  destruct (VoteSetOps.take_unverified_votes vs). destruct (Nat.eqb _ _); by repeat constructor.
Qed.

Lemma block_vote_batch vote s : Forall is_vote_batch (on_block_vote_internal vote s).2.
Proof.
  unfold on_block_vote_internal.
  destruct (_ <=? _); [constructor|]. destruct (local_committee_index _); [|constructor].
  destruct (_ =? 0); [constructor|].
  destruct (if bv_voter vote =? _ then _ else _) as [[pk|]|]; [..|constructor].
  all: destruct (VoteSetOps.has_seen_validator _ _); [constructor|]; apply trigger_votes_batch.
Qed.

Lemma block_vote_none vote s : own_votes (on_block_vote_internal vote s).2 = [].
Proof.
  pose proof (block_vote_batch vote s) as Hall. induction Hall as [|a acts Ha Hall IH]; [done|].
  by destruct a.
Qed.

Lemma create_vote_votes hash height round s :
  own_votes (create_vote hash height round s).2 = [(height, round, hash)].
Proof.
  unfold create_vote, hseq, hemit. cbv zeta.
  match goal with |- context [on_block_vote_internal ?v ?x] =>
    pose proof (block_vote_none v x) as Hnone; destruct (on_block_vote_internal v x) as [s2 acts]
  end.
  cbn [fst snd] in *. rewrite own_votes_app, Hnone. done.
Qed.

(** ** The decision *)

(** The state root the block builds on, as [initiate_state_root_verification]
    looks it up. *)
Definition base_root (s : BftState) (block : Block) : Hash :=
  match get_block_by_hash s (bh_parent_hash (bl_header block)) with
  | Some parent => bh_state_root (bl_header parent)
  | None => (s_last_committed_jmt_state s).2
  end.

(** A state-root check that can start now. *)
Definition can_check_state_root (s : BftState) (block : Block) : bool :=
  block_needs_state_root_verification s block
  && ((s_last_committed_jmt_state s).2 =? base_root s block).

Lemma initiate_actions hash block s :
  (initiate_verifications hash block s).2 =
  (if block_needs_cycle_proof_verification s block
   then imap (cycle_proof_action s hash) (bl_deferred block) else [])
  ++ (if can_check_state_root s block
      then [VerifyStateRoot hash (base_root s block) (bh_state_root (bl_header block))
              (bl_certificates block)] else [])
  ++ (if block_needs_transaction_root_verification s block
      then [VerifyTransactionRoot hash (bh_transaction_root (bl_header block))
              (bl_retry_transactions block) (bl_priority_transactions block)
              (bl_transactions block)] else []).
Proof.
  assert (forall s0, (when (fun s => block_needs_transaction_root_verification s block)
                        (initiate_transaction_root_verification hash block) s0).2
            = if block_needs_transaction_root_verification s0 block
              then [VerifyTransactionRoot hash (bh_transaction_root (bl_header block))
                      (bl_retry_transactions block) (bl_priority_transactions block)
                      (bl_transactions block)] else []) as Htx.
  { intros s0. unfold when. by destruct (block_needs_transaction_root_verification s0 block). }
  unfold initiate_verifications, hseq, can_check_state_root, base_root.
  unfold when at 1, initiate_cycle_proof_verification.
  destruct (block_needs_cycle_proof_verification s block) eqn:Hcycle.
  - assert (Nat.eqb (length (bl_deferred block)) 0 = false) as Hne.
    { unfold block_needs_cycle_proof_verification in Hcycle. by destruct (Nat.eqb _ _). }
    rewrite Hne. unfold when at 1, initiate_state_root_verification.
    set (s1 := s <| s_pending_cycle_proof_verifications ::= _ |>).
    change (block_needs_state_root_verification s1 block)
      with (block_needs_state_root_verification s block).
    change (get_block_by_hash s1) with (get_block_by_hash s).
    destruct (block_needs_state_root_verification s block); [destruct (_ =? _)|].
    all: cbn [andb fst snd];
      match goal with |- context [when ?c ?h ?x] => specialize (Htx x); destruct (when c h x) end;
      cbn [fst snd] in *; by rewrite Htx.
  - unfold when at 1, initiate_state_root_verification.
    destruct (block_needs_state_root_verification s block); [destruct (_ =? _)|].
    all: cbn [andb fst snd];
      match goal with |- context [when ?c ?h ?x] => specialize (Htx x); destruct (when c h x) end;
      cbn [fst snd] in *; by rewrite Htx.
Qed.

Lemma initiate_none hash block s : own_votes (initiate_verifications hash block s).2 = [].
Proof.
  rewrite initiate_actions, !own_votes_app.
  assert (forall l, own_votes (imap (cycle_proof_action s hash) l) = []) as Himap.
  { intros l. apply elem_of_nil_inv. intros x Hx. unfold own_votes in Hx.
    apply list_elem_of_omap in Hx as (a & Ha & Hsome).
    by apply elem_of_lookup_imap in Ha as (i & d & -> & _). }
  repeat case_match; rewrite ?Himap; done.
Qed.

Lemma initiate_starts hash block s :
  (initiate_verifications hash block s).2 = [] <->
  block_needs_cycle_proof_verification s block = false
  /\ can_check_state_root s block = false
  /\ block_needs_transaction_root_verification s block = false.
Proof.
  rewrite initiate_actions.
  destruct (block_needs_cycle_proof_verification s block) eqn:Hcycle.
  - assert (bl_deferred block <> []) as Hne.
    { intros Heq. unfold block_needs_cycle_proof_verification in Hcycle. by rewrite Heq in Hcycle. }
    destruct (bl_deferred block) as [|d l]; [done|]. naive_solver.
  - destruct (can_check_state_root s block), (block_needs_transaction_root_verification s block);
      naive_solver.
Qed.

Lemma try_vote_cases hash height round s :
  let votes := own_votes (try_vote_on_block hash height round s).2 in
  (votes = [(height, round, hash)] <->
     s_voted_heights s !! height = None
     /\ forall block, s_pending_blocks s !! hash ≫= PendingBlockOps.block = Some block ->
          validate_deferrals_and_aborts block = None
          /\ validate_transaction_ordering block = None
          /\ block_needs_cycle_proof_verification s block = false
          /\ can_check_state_root s block = false
          /\ block_needs_transaction_root_verification s block = false)
  /\ (votes = [(height, round, hash)] \/ votes = []).
Proof.
  unfold try_vote_on_block. destruct (s_voted_heights s !! height) as [lock|] eqn:Hlock.
  { simpl. split; [|by right]. split; [done|]. by intros [? _]. }
  destruct (_ ≫= _) as [block|] eqn:Hblock.
  2: { rewrite create_vote_votes. split; [|by left]. split; [|done]. intros _. done. }
  destruct (validate_deferrals_and_aborts block) eqn:Hd.
  { simpl. split; [|by right]. split; [done|]. intros [_ Hall].
    destruct (Hall block eq_refl) as [Hd' _]. by rewrite Hd in Hd'. }
  destruct (validate_transaction_ordering block) eqn:Ho.
  { simpl. split; [|by right]. split; [done|]. intros [_ Hall].
    destruct (Hall block eq_refl) as (_ & Ho' & _). by rewrite Ho in Ho'. }
  pose proof (initiate_starts hash block s) as Hstarts.
  pose proof (initiate_none hash block s) as Hnone.
  destruct (initiate_verifications hash block s) as [s1 [|a acts]]; simpl in *.
  - rewrite create_vote_votes. split; [|by left]. split; [|done].
    intros _. split; [done|]. intros b [= <-]. naive_solver.
  - split; [|by right]. rewrite Hnone. split; [done|].
    intros [_ Hall]. destruct (Hall block eq_refl) as (_ & _ & Hrest). naive_solver.
Qed.


(** ** The effect of a vote *)

Definition own_vote (s : BftState) (hash : Hash) (height round : u64) : BlockVote := {|
  bv_block_hash := hash;
  bv_height := height;
  bv_round := round;
  bv_voter := local_validator_id;
  bv_signature := sign_v1 (s_signing_key s) (block_vote_message (s_shard_group s) height round hash);
  bv_timestamp := as_millis_u64 (s_now s)
|}.

(** Vote collection touches the vote sets only. *)
Lemma trigger_votes_frame hash s :
  exists m, (maybe_trigger_vote_verification hash s).1 = s <| s_vote_sets := m |>.
Proof.
  assert (exists m, s = s <| s_vote_sets := m |>) as Hsame by (by exists (s_vote_sets s); destruct s).
  unfold maybe_trigger_vote_verification.
  destruct (s_vote_sets s !! hash) as [vs|]; [|done].
  destruct (negb _); [done|].
  destruct (VoteSetOps.verification_data vs) as [[[[??]?]?]|]; [|done].
  destruct (VoteSetOps.take_unverified_votes vs) as [vs' votes].
  exists (<[hash := vs']> (s_vote_sets s)). by destruct (Nat.eqb _ _).
Qed.

Lemma block_vote_frame vote s :
  exists m, (on_block_vote_internal vote s).1 = s <| s_vote_sets := m |>.
Proof.
  assert (exists m, s = s <| s_vote_sets := m |>) as Hsame by (by exists (s_vote_sets s); destruct s).
  unfold on_block_vote_internal.
  destruct (_ <=? _); [done|]. destruct (local_committee_index _); [|done].
  destruct (_ =? 0); [done|]. destruct (if bv_voter vote =? _ then _ else _) as [[pk|]|]; [..|done].
  all: destruct (VoteSetOps.has_seen_validator _ _); [by eexists|].
  all: match goal with |- context [maybe_trigger_vote_verification ?h ?x] =>
         destruct (trigger_votes_frame h x) as [m ->] end; by exists m.
Qed.

Lemma create_vote_frame hash height round s :
  exists m, (create_vote hash height round s).1
    = s <| s_voted_heights ::= fun l => <[height := (hash, round)]> l |> <| s_vote_sets := m |>.
Proof.
  unfold create_vote, hseq, hemit. cbv zeta.
  match goal with |- context [on_block_vote_internal ?v ?x] =>
    destruct (block_vote_frame v x) as [m Hm]; destruct (on_block_vote_internal v x) end.
  by exists m.
Qed.

Lemma trigger_votes_lock hash s :
  s_voted_heights (maybe_trigger_vote_verification hash s).1 = s_voted_heights s.
Proof.
  unfold maybe_trigger_vote_verification.
  destruct (s_vote_sets s !! hash) as [vs|]; [|done].
  destruct (negb _); [done|].
  destruct (VoteSetOps.verification_data vs) as [[[[??]?]?]|]; [|done].
  destruct (VoteSetOps.take_unverified_votes vs). by destruct (Nat.eqb _ _).
Qed.

Lemma block_vote_lock vote s :
  s_voted_heights (on_block_vote_internal vote s).1 = s_voted_heights s.
Proof.
  unfold on_block_vote_internal.
  destruct (_ <=? _); [done|]. destruct (local_committee_index _); [|done].
  destruct (_ =? 0); [done|]. destruct (if bv_voter vote =? _ then _ else _) as [[pk|]|]; [..|done].
  all: destruct (VoteSetOps.has_seen_validator _ _); [done|]; by rewrite trigger_votes_lock.
Qed.

(** Taking the unverified votes leaves the verified ones. *)
Lemma trigger_votes_keeps hash s vs :
  s_vote_sets s !! hash = Some vs ->
  exists vs', s_vote_sets (maybe_trigger_vote_verification hash s).1 !! hash = Some vs'
    /\ vs_verified_votes vs' = vs_verified_votes vs.
Proof.
  intros Hvs. unfold maybe_trigger_vote_verification. rewrite Hvs.
  destruct (negb _); [by eauto|].
  destruct (VoteSetOps.verification_data vs) as [[[[??]?]?]|]; [|by eauto].
  simpl. destruct (Nat.eqb _ _); cbn; rewrite lookup_insert_eq; eauto.
Qed.

(** A vote under the validator's own name is counted as verified. *)
Lemma own_vote_counted vote s index :
  bv_voter vote = local_validator_id ->
  s_committed_height s < bv_height vote ->
  local_committee_index local_validator_id = Some index ->
  0 < power_of local_validator_id ->
  is_none_or (s_vote_sets s !! bv_block_hash vote)
    (fun vs => negb (VoteSetOps.has_seen_validator vs index)) = true ->
  (index < length local_committee)%nat ->
  exists vs, s_vote_sets (on_block_vote_internal vote s).1 !! bv_block_hash vote = Some vs
    /\ (index, vote, power_of local_validator_id) ∈ vs_verified_votes vs.
Proof.
  intros Hvoter Hheight Hindex Hpower Hunseen Hin. unfold on_block_vote_internal.
  rewrite Hvoter, (proj2 (N.leb_gt _ _) Hheight), Hindex.
  destruct (power_of local_validator_id =? 0) eqn:Hz; bool_to_prop; [lia|].
  rewrite N.eqb_refl. cbv zeta. set (vs0 := default _ _).
  assert (VoteSetOps.has_seen_validator vs0 index = false) as Hseen0.
  { unfold vs0. destruct (s_vote_sets s !! bv_block_hash vote) as [vs|]; simpl in *.
    - by apply negb_true_iff in Hunseen.
    - unfold VoteSetOps.has_seen_validator, VoteSetOps.new. cbn.
      by rewrite lookup_replicate_2. }
  rewrite Hseen0. unfold VoteSetOps.add_verified_vote. rewrite Hseen0. cbn [fst].
  match goal with |- context [maybe_trigger_vote_verification _ ?x] =>
    destruct (trigger_votes_keeps (bv_block_hash vote) x _ (lookup_insert_eq _ _ _))
      as (vs' & Hvs' & Hkeep) end.
  exists vs'. split; [done|]. rewrite Hkeep. cbn. set_solver.
Qed.

(** A validator that votes records the lock for the height, persists and
    broadcasts exactly one vote, first of all actions, signed over the block
    vote message of its shard; and when the height is open and the vote set
    has no vote of it yet, the vote is counted as verified with its power. *)
Theorem create_vote_effect hash height round s :
  let r := create_vote hash height round s in
  let vote := own_vote s hash height round in
  s_voted_heights r.1 = <[height := (hash, round)]> (s_voted_heights s)
  /\ (exists rest, own_votes rest = []
       /\ r.2 = PersistAndBroadcastVote height round hash local_shard (BlockVoteMessage vote) :: rest)
  /\ forall index,
       s_committed_height s < height ->
       local_committee_index local_validator_id = Some index ->
       0 < power_of local_validator_id ->
       is_none_or (s_vote_sets s !! hash)
         (fun vs => negb (VoteSetOps.has_seen_validator vs index)) = true ->
       (index < length local_committee)%nat ->
       exists vs, s_vote_sets r.1 !! hash = Some vs
         /\ (index, vote, power_of local_validator_id) ∈ vs_verified_votes vs.
Proof.
  cbv zeta. unfold create_vote, hseq, hemit. cbv zeta.
  match goal with |- context [on_block_vote_internal ?v ?x] => set (vote := v); set (s1 := x) end.
  change (own_vote s hash height round) with vote.
  pose proof (block_vote_lock vote s1) as Hlock. pose proof (block_vote_none vote s1) as Hnone.
  pose proof (own_vote_counted vote s1) as Hcount.
  destruct (on_block_vote_internal vote s1) as [s2 acts]. cbn [fst snd] in *.
  split; [done|]. split; [by exists acts|].
  intros index Hheight Hindex Hpower Hunseen Hin. by apply Hcount.
Qed.

(** ** What the checks before a vote accept *)

Lemma first_error_none {A} (check : A -> option BlockError) l :
  first_error check l = None <-> Forall (fun x => check x = None) l.
Proof.
  induction l as [|x l IH]; simpl; [by split|]. rewrite Forall_cons, <-IH.
  destruct (check x); naive_solver.
Qed.

Lemma or_error_none a b : or_error a b = None <-> a = None /\ b = None.
Proof. destruct a; naive_solver. Qed.

Lemma verify_hash_sorted_none txs :
  verify_hash_sorted txs = None <-> StronglySorted N.lt (rt_hash <$> txs).
Proof.
  transitivity (Sorted N.lt (rt_hash <$> txs)).
  2: split; [apply Sorted_StronglySorted; intros a b c; apply N.lt_trans|apply StronglySorted_Sorted].
  induction txs as [|tx1 [|tx2 txs] IH]; simpl.
  - split; [constructor|done].
  - split; [repeat constructor|done].
  - destruct (_ <=? _) eqn:Hle; bool_to_prop.
    + split; [done|]. intros Hs. inversion_clear Hs as [|?? _ Hhd]. inversion_clear Hhd. lia.
    + rewrite IH. split; [intros Hs; by constructor; [|constructor]|]. by inversion_clear 1.
Qed.

Lemma transaction_ordering_cases block :
  validate_transaction_ordering block = None <->
  StronglySorted N.lt (rt_hash <$> bl_retry_transactions block)
  /\ StronglySorted N.lt (rt_hash <$> bl_priority_transactions block)
  /\ StronglySorted N.lt (rt_hash <$> bl_transactions block)
  /\ Forall (fun tx => is_retry tx = true) (bl_retry_transactions block)
  /\ Forall (fun tx => is_retry tx = false /\ has_commitment_proof block (rt_hash tx) = true)
       (bl_priority_transactions block)
  /\ Forall (fun tx => is_retry tx = false /\ has_commitment_proof block (rt_hash tx) = false)
       (bl_transactions block).
Proof.
  unfold validate_transaction_ordering.
  rewrite !or_error_none, !first_error_none, !verify_hash_sorted_none.
  assert (forall P Q (l : list RoutableTransaction), (forall tx, P tx <-> Q tx) ->
            Forall P l <-> Forall Q l) as Hext.
  { intros P Q l HPQ. rewrite !Forall_forall. naive_solver. }
  rewrite (Hext (fun tx => check_retry_section tx = None) (fun tx => is_retry tx = true)),
    (Hext (fun tx => check_priority_section block tx = None)
       (fun tx => is_retry tx = false /\ has_commitment_proof block (rt_hash tx) = true)),
    (Hext (fun tx => check_other_section block tx = None)
       (fun tx => is_retry tx = false /\ has_commitment_proof block (rt_hash tx) = false));
    [done|..]; intros tx;
    unfold check_retry_section, check_priority_section, check_other_section;
    repeat case_match; naive_solver.
Qed.

(** The transaction order check accepts exactly the blocks in which each
    section is strictly ascending by hash, the first section holds only
    retries, the second only other transactions with a commitment proof, and
    the third only other transactions without one. *)
Theorem transaction_ordering_spec block :
  validate_transaction_ordering block = None <->
  StronglySorted N.lt (rt_hash <$> bl_retry_transactions block)
  /\ StronglySorted N.lt (rt_hash <$> bl_priority_transactions block)
  /\ StronglySorted N.lt (rt_hash <$> bl_transactions block)
  /\ Forall (fun tx => is_retry tx = true) (bl_retry_transactions block)
  /\ Forall (fun tx => is_retry tx = false /\ has_commitment_proof block (rt_hash tx) = true)
       (bl_priority_transactions block)
  /\ Forall (fun tx => is_retry tx = false /\ has_commitment_proof block (rt_hash tx) = false)
       (bl_transactions block).
Proof. apply transaction_ordering_cases. Qed.

Lemma deferrals_and_aborts_cases block :
  validate_deferrals_and_aborts block = None <->
  Forall (fun d =>
      winner_hash d < td_tx_hash d
      /\ (winner_hash d ∉ (tc_transaction_hash <$> bl_certificates block))
      /\ (td_tx_hash d ∉ (tc_transaction_hash <$> bl_certificates block))
      /\ cyp_winner_tx_hash (td_proof d) = winner_hash d) (bl_deferred block)
  /\ Forall (fun a =>
      match ta_reason a with
      | ExecutionTimeout committed_at => committed_at <= ta_block_height a
      | TooManyRetries retry_count => 0 < retry_count
      | ExecutionRejected _ => True
      end) (bl_aborted block).
Proof.
  unfold validate_deferrals_and_aborts.
  assert (forall a b : option BlockError,
            match a with Some e => Some e | None => b end = None <-> a = None /\ b = None) as Hor.
  { intros [?|] ?; naive_solver. }
  rewrite Hor, !first_error_none, !Forall_forall.
  assert (forall d, check_deferral (list_to_set (tc_transaction_hash <$> bl_certificates block)) d = None
            <-> winner_hash d < td_tx_hash d
                /\ (winner_hash d ∉ (tc_transaction_hash <$> bl_certificates block))
                /\ (td_tx_hash d ∉ (tc_transaction_hash <$> bl_certificates block))
                /\ cyp_winner_tx_hash (td_proof d) = winner_hash d) as Hd.
  { intros d. unfold check_deferral.
    rewrite <-!(elem_of_list_to_set (C := gset Hash)).
    destruct (_ <=? _) eqn:Hle; bool_to_prop; [split; [done|]; intros [? _]; lia|].
    repeat case_bool_decide; try (split; [done|]; naive_solver).
    destruct (_ =? _) eqn:Heq; bool_to_prop; naive_solver. }
  assert (forall a, check_abort a = None <->
            match ta_reason a with
            | ExecutionTimeout committed_at => committed_at <= ta_block_height a
            | TooManyRetries retry_count => 0 < retry_count
            | ExecutionRejected _ => True
            end) as Ha.
  { intros a. unfold check_abort. destruct (ta_reason a); [| |done].
    - destruct (_ <? _) eqn:Hlt; bool_to_prop; [split; [done|lia]|done].
    - destruct (_ =? 0) eqn:Hz; bool_to_prop; [split; [done|lia]|]. split; [lia|done]. }
  setoid_rewrite Hd. setoid_rewrite Ha. done.
Qed.

(** The deferral and abort check accepts exactly the blocks in which every
    deferral names a winner with a smaller hash that is also the winner of
    its proof, neither the winner nor the loser has a certificate in the
    block, every timeout abort is at or above the height the transaction was
    committed at, and no abort for too many retries has a count of zero. *)
Theorem deferrals_and_aborts_spec block :
  validate_deferrals_and_aborts block = None <->
  Forall (fun d =>
      winner_hash d < td_tx_hash d
      /\ (winner_hash d ∉ (tc_transaction_hash <$> bl_certificates block))
      /\ (td_tx_hash d ∉ (tc_transaction_hash <$> bl_certificates block))
      /\ cyp_winner_tx_hash (td_proof d) = winner_hash d) (bl_deferred block)
  /\ Forall (fun a =>
      match ta_reason a with
      | ExecutionTimeout committed_at => committed_at <= ta_block_height a
      | TooManyRetries retry_count => 0 < retry_count
      | ExecutionRejected _ => True
      end) (bl_aborted block).
Proof. apply deferrals_and_aborts_cases. Qed.

Lemma header_cases s header :
  let now := as_millis_u64 (s_now s) in
  validate_header s header = None <->
  s_committed_height s < bh_height header
  /\ proposer_for (bh_height header) (bh_round header) = Some (bh_proposer header)
  /\ (if QC.is_genesis (bh_parent_qc header)
      then bh_height header = s_committed_height s +w 1
      else VotePower.has_quorum (qc_voting_power (bh_parent_qc header)) local_voting_power = true
           /\ bh_height header = qc_height (bh_parent_qc header) +w 1
           /\ bh_parent_hash header = qc_block_hash (bh_parent_qc header))
  /\ (bh_is_fallback header = true
      \/ now - cfg_max_timestamp_delay_ms (s_config s) <= bh_timestamp header
         /\ bh_timestamp header <= now +w cfg_max_timestamp_rush_ms (s_config s)).
Proof.
  assert (forall b : bool, b = false -> b <> true) as Hft by (by intros [] ?).
  cbv zeta. unfold validate_header.
  destruct (_ <=? _) eqn:Hle; bool_to_prop; [split; [done|]; intros [? _]; lia|].
  case_bool_decide as Hprop; simpl; [|split; [done|]; naive_solver].
  assert (validate_timestamp s header = None <->
          bh_is_fallback header = true
          \/ as_millis_u64 (s_now s) - cfg_max_timestamp_delay_ms (s_config s) <= bh_timestamp header
             /\ bh_timestamp header <= as_millis_u64 (s_now s) +w cfg_max_timestamp_rush_ms (s_config s))
    as Hts.
  { unfold validate_timestamp, header_is_genesis.
    destruct (_ =? 0) eqn:Hz; bool_to_prop; [lia|].
    destruct (bh_is_fallback header); [naive_solver|].
    destruct (_ <? _) eqn:Hlow; bool_to_prop; [split; [done|]; intros [?|[? _]]; [done|lia]|].
    destruct (_ <? _) eqn:Hhigh; bool_to_prop; [split; [done|]; intros [?|[_ ?]]; [done|lia]|].
    split; [|done]. auto. }
  destruct (QC.is_genesis _); simpl.
  - destruct (_ =? _) eqn:Hh; bool_to_prop; simpl; rewrite ?Hts; naive_solver.
  - destruct (VotePower.has_quorum _ _); simpl; [|naive_solver].
    destruct (_ +w 1 =? _) eqn:Hh; bool_to_prop; simpl; [|naive_solver].
    destruct (_ =? _) eqn:Hp; bool_to_prop; simpl; rewrite ?Hts; naive_solver.
Qed.

(** A header is accepted exactly when it is above the committed height,
    its proposer is the one of its height and round, its parent certificate
    either is the genesis certificate and the header is at the next height,
    or claims a quorum of power and certifies the parent one height below,
    and its timestamp is within the two bounds around the local clock unless
    the block is marked as a fallback block. *)
Theorem header_spec s header :
  let now := as_millis_u64 (s_now s) in
  validate_header s header = None <->
  s_committed_height s < bh_height header
  /\ proposer_for (bh_height header) (bh_round header) = Some (bh_proposer header)
  /\ (if QC.is_genesis (bh_parent_qc header)
      then bh_height header = s_committed_height s +w 1
      else VotePower.has_quorum (qc_voting_power (bh_parent_qc header)) local_voting_power = true
           /\ bh_height header = qc_height (bh_parent_qc header) +w 1
           /\ bh_parent_hash header = qc_block_hash (bh_parent_qc header))
  /\ (bh_is_fallback header = true
      \/ now - cfg_max_timestamp_delay_ms (s_config s) <= bh_timestamp header
         /\ bh_timestamp header <= now +w cfg_max_timestamp_rush_ms (s_config s)).
Proof. apply header_cases. Qed.
End voting.

(** The vote of validator 0 for the block of BftReach.v's first header. *)
Lemma create_vote_effect_witness :
  exists vs,
    s_vote_sets (@create_vote sample_crypto (sample_topology 0) sample_hash_1 1 0 sample_start).1
      !! sample_hash_1 = Some vs
    /\ (0%nat, @own_vote sample_crypto (sample_topology 0) sample_start sample_hash_1 1 0,
        @power_of (sample_topology 0) 0) ∈ vs_verified_votes vs.
Proof.
  apply (@create_vote_effect sample_crypto (sample_topology 0) sample_hash_1 1 0 sample_start);
    vm_compute; first [reflexivity | repeat constructor].
Defined.
