(* ===== verification/BftViews.v ===== *)
(** * Views, timeouts and sync mode

    The view-change timeout and its bounds, the view along runs, what a round
    advance does to the vote lock, and sync mode: how it is entered, and that
    it is left by one event only. *)

From stdpp Require Import base gmap list numbers.
From Stdlib Require Import NArith Lia.
From S2P Require Import Prelude Bitfield Types Encoding Topology VoteSet Core PendingBlock.
From S2P Require Import BftState BftVote BftCommit BftPropose BftLoops BftChain BftReach.
From S2P Require Import BftVoting.

(** ** The requests to start a sync among the actions *)

Definition sync_starts (acts : list Action) : list (u64 * Hash) :=
  omap (fun a => match a with StartSync height hash => Some (height, hash) | _ => None end) acts.

Lemma sync_starts_app a1 a2 : sync_starts (a1 ++ a2) = sync_starts a1 ++ sync_starts a2.
Proof. apply omap_app. Qed.

Section views.
Context `{Crypto} `{Topology} `{HashIter}.

(** ** Views grow and sync mode stays *)

Definition grows (s : BftState) (r : BftState * list Action) : Prop :=
  s_view s <= s_view r.1
  /\ (s_syncing s = true -> s_syncing r.1 = true /\ sync_starts r.2 = []).

Lemma grows_stay s s' acts :
  s_view s' = s_view s -> s_syncing s' = s_syncing s -> sync_starts acts = [] ->
  grows s (s', acts).
Proof. intros Hv Hs Ha. split; simpl; [lia|]. intros <-. done. Qed.

Lemma grows_skip s : grows s (s, []).
Proof. by apply grows_stay. Qed.

Lemma grows_seq s h1 h2 : grows s (h1 s) -> (forall s1, grows s1 (h2 s1)) -> grows s ((h1 ;> h2) s).
Proof.
  unfold hseq. destruct (h1 s) as [s1 a1]. intros [Hv1 Hs1] Hnext. specialize (Hnext s1).
  destruct (h2 s1) as [s2 a2]. destruct Hnext as [Hv2 Hs2]. split; simpl in *; [lia|].
  intros Hs. destruct (Hs1 Hs) as [Hs1' Ha1]. destruct (Hs2 Hs1') as [Hs2' Ha2].
  split; [done|]. by rewrite sync_starts_app, Ha1, Ha2.
Qed.

Lemma grows_from s s0 r :
  s_view s <= s_view s0 -> (s_syncing s = true -> s_syncing s0 = true) -> grows s0 r -> grows s r.
Proof. intros Hv Hs [Hv0 Hs0]. split; [lia|auto]. Qed.

Lemma grows_same s s0 r :
  s_view s0 = s_view s -> s_syncing s0 = s_syncing s -> grows s0 r -> grows s r.
Proof. intros Hv Hs. apply grows_from; [lia|congruence]. Qed.

Lemma adopt_qc_grows qc s : s_view s <= s_view (adopt_qc qc s) /\ s_syncing (adopt_qc qc s) = s_syncing s.
Proof. unfold adopt_qc, maybe_unlock_for_qc. repeat case_match; bool_to_prop; (split; [cbn in *; lia|done]). Qed.

(** *** Votes *)

Lemma trigger_votes_grows hash s : grows s (maybe_trigger_vote_verification hash s).
Proof.
  unfold maybe_trigger_vote_verification.
  destruct (s_vote_sets s !! hash) as [vs|]; [|apply grows_skip].
  destruct (negb _); [apply grows_skip|].
  destruct (VoteSetOps.verification_data vs) as [[[[??]?]?]|]; [|apply grows_skip].
  destruct (VoteSetOps.take_unverified_votes vs). destruct (Nat.eqb _ _); by apply grows_stay.
Qed.

Lemma block_vote_grows vote s : grows s (on_block_vote_internal vote s).
Proof.
  unfold on_block_vote_internal.
  destruct (_ <=? _); [apply grows_skip|]. destruct (local_committee_index _); [|apply grows_skip].
  destruct (_ =? 0); [apply grows_skip|].
  destruct (if bv_voter vote =? _ then _ else _) as [[pk|]|]; [..|apply grows_skip].
  all: destruct (VoteSetOps.has_seen_validator _ _); [by apply grows_stay|].
  all: by eapply grows_same; [| |apply trigger_votes_grows].
Qed.

Lemma create_vote_grows hash height round s : grows s (create_vote hash height round s).
Proof.
  unfold create_vote.
  eapply grows_same; [| |apply grows_seq; [|intros; apply block_vote_grows]]; [done|done|].
  by apply grows_stay.
Qed.

Lemma qc_result_grows hash qc votes s : grows s (on_qc_result hash qc votes s).
Proof.
  unfold on_qc_result. destruct qc; [by apply grows_stay|].
  assert (forall s1, s_view s1 <= s_view (foldl (note_verified_vote hash) s1 votes)
            /\ s_syncing (foldl (note_verified_vote hash) s1 votes) = s_syncing s1) as Hfold.
  { induction votes as [|v votes IH]; intros s1; simpl; [done|].
    destruct (IH (note_verified_vote hash s1 v)) as [Hv ->].
    unfold note_verified_vote in *. repeat case_match; bool_to_prop; (split; [cbn in *; lia|done]). }
  destruct (Hfold s) as [Hv Hs]. destruct (s_vote_sets _ !! hash).
  - eapply grows_from; [| |apply trigger_votes_grows]; cbn; [done|congruence].
  - split; simpl; [done|]. rewrite Hs. done.
Qed.

Lemma cycle_actions_no_sync s hash l : sync_starts (imap (cycle_proof_action s hash) l) = [].
Proof.
  apply elem_of_nil_inv. intros x Hx. unfold sync_starts in Hx.
  apply list_elem_of_omap in Hx as (a & Ha & Hsome).
  by apply elem_of_lookup_imap in Ha as (i & d & -> & _).
Qed.

Lemma verifications_grow hash block s : grows s (initiate_verifications hash block s).
Proof.
  unfold initiate_verifications. apply grows_seq; [|intros s1; apply grows_seq; [|intros s2]];
    unfold when; (case_match; [|apply grows_skip]).
  - unfold initiate_cycle_proof_verification. case_match; [apply grows_skip|].
    apply grows_stay; [done..|apply cycle_actions_no_sync].
  - unfold initiate_state_root_verification. case_match; by apply grows_stay.
  - by apply grows_stay.
Qed.

Lemma try_vote_grows hash height round s : grows s (try_vote_on_block hash height round s).
Proof.
  unfold try_vote_on_block. destruct (s_voted_heights s !! height); [apply grows_skip|].
  destruct (_ ≫= _) as [block|]; [|apply create_vote_grows].
  destruct (validate_deferrals_and_aborts block); [apply grows_skip|].
  destruct (validate_transaction_ordering block); [apply grows_skip|].
  pose proof (verifications_grow hash block s) as Hg.
  destruct (initiate_verifications hash block s) as [s1 acts].
  destruct (negb _); [done|]. destruct Hg as [Hv Hs].
  eapply grows_from; [exact Hv|apply Hs|apply create_vote_grows].
Qed.

Lemma trigger_or_vote_grows hash s : grows s (trigger_qc_verification_or_vote hash s).
Proof.
  unfold trigger_qc_verification_or_vote.
  repeat case_match; try apply try_vote_grows; by apply grows_stay.
Qed.

Lemma vote_if_verified_grows hash s : grows s (vote_if_verified hash s).
Proof.
  unfold vote_if_verified. repeat case_match; try apply create_vote_grows; by apply grows_stay.
Qed.

(** *** Commits and sync *)

Lemma cancel_no_sync hashes : sync_starts (CancelFetch <$> hashes) = [].
Proof. induction hashes; [done|]. exact IHhashes. Qed.

Lemma commit_one_grows hash block s : grows s (commit_one hash block s).
Proof.
  unfold commit_one. cbv zeta. set (s1 := record_leader_activity _).
  pose proof (eq_refl : s_view (cleanup_old_state (bh_height (bl_header block)) s1).1 = s_view s).
  pose proof (eq_refl : s_syncing (cleanup_old_state (bh_height (bl_header block)) s1).1
                        = s_syncing s).
  destruct (cleanup_old_state _ s1) as [s2 removed]. apply grows_stay; [done..|].
  by rewrite sync_starts_app, cancel_no_sync.
Qed.

Lemma commit_loop_grows fuel hash s : grows s (commit_loop fuel hash s).
Proof.
  revert hash s. induction fuel as [|fuel IH]; intros hash s; rewrite commit_loop_eq.
  all: destruct (block_to_commit s hash) as [block|]; [|apply grows_skip].
  all: destruct (negb _); [apply grows_skip|].
  all: apply grows_seq; [apply commit_one_grows|]; intros s1.
  all: destruct (s_pending_commits s1 !! _) as [[next_hash ?]|]; [|apply grows_skip].
  1: apply grows_skip.
  by eapply grows_same; [| |apply IH].
Qed.

Section cycle.
Variable K : Hash -> handler BftState Action.
Hypothesis K_grows : forall hash s, grows s (K hash s).

Lemma ready_grows hash qc s : grows s (on_block_ready_to_commit_with K hash qc s).
Proof.
  unfold on_block_ready_to_commit_with. repeat case_match; try apply K_grows; by apply grows_stay.
Qed.

Lemma drain_loop_grows fuel s : grows s (drain_pending_commits_loop K fuel s).
Proof.
  revert s. induction fuel as [|fuel IH]; intros s; simpl; [apply grows_skip|].
  destruct (s_pending_commits s !! _) as [[hash qc]|]; [|apply grows_skip].
  eapply grows_same; [| |apply grows_seq; [apply ready_grows|]]; [done..|].
  intros s1. destruct (_ <? _); [apply grows_skip|apply IH].
Qed.

Lemma apply_synced_grows block qc s : grows s (apply_synced_block_with K block qc s).
Proof.
  unfold apply_synced_block_with. cbv zeta.
  match goal with |- context [adopt_qc qc ?x] => set (s1 := x) end.
  set (s3 := if QC.is_genesis _ then _ else _).
  assert (s_view s <= s_view s3 /\ s_syncing s3 = s_syncing s) as [Hv Hs].
  { destruct (adopt_qc_grows qc s1) as [Hv1 Hs1].
    destruct (adopt_qc_grows (bh_parent_qc (bl_header block)) (adopt_qc qc s1)) as [Hv2 Hs2].
    change (s_view s1) with (s_view s) in Hv1. change (s_syncing s1) with (s_syncing s) in Hs1.
    unfold s3. case_match; split; lia || congruence. }
  clearbody s3.
  pose proof (eq_refl : s_view (cleanup_old_state (bh_height (bl_header block)) s3).1 = s_view s3).
  pose proof (eq_refl : s_syncing (cleanup_old_state (bh_height (bl_header block)) s3).1
                        = s_syncing s3).
  destruct (cleanup_old_state _ s3) as [s4 removed]. cbn [fst] in *.
  eapply (grows_from s s4); [lia|congruence|].
  apply grows_seq; [|intros s5; apply drain_loop_grows].
  apply grows_stay; [done..|]. by rewrite sync_starts_app, cancel_no_sync.
Qed.

Lemma submit_grows block qc s :
  grows s (submit_synced_block_for_verification_with K block qc s).
Proof.
  unfold submit_synced_block_for_verification_with.
  repeat case_match; try apply apply_synced_grows; by apply grows_stay.
Qed.

Lemma drain_synced_grows slots h s : grows s (drain_synced_loop K slots h s).
Proof.
  revert h s. induction slots as [|slots IH]; intros h s; simpl; [apply grows_skip|].
  destruct (s_buffered_synced_blocks s !! h) as [[block qc]|]; [|apply grows_skip].
  by eapply grows_same; [| |apply grows_seq; [apply submit_grows|apply IH]].
Qed.

Lemma try_drain_grows s : grows s (try_drain_buffered_synced_blocks_with K s).
Proof.
  unfold try_drain_buffered_synced_blocks_with.
  destruct (Nat.leb _ _); [apply grows_skip|apply drain_synced_grows].
Qed.

Lemma commit_with_grows hash s : grows s (commit_block_and_buffered_with K hash s).
Proof. apply grows_seq; [apply commit_loop_grows|apply try_drain_grows]. Qed.
End cycle.

Lemma commit_grows hash s : grows s (commit_block_and_buffered hash s).
Proof.
  unfold commit_block_and_buffered. generalize (S (n_buffered s)) as depth. intros depth.
  revert hash s. induction depth as [|depth IH]; intros hash s; simpl; [apply grows_skip|].
  by apply commit_with_grows.
Qed.

Lemma try_apply_grows s : grows s (try_apply_verified_synced_blocks s).
Proof.
  unfold try_apply_verified_synced_blocks.
  apply grows_seq; [|intros; by apply try_drain_grows, commit_grows].
  generalize (n_buffered s + n_synced s)%nat as fuel. intros fuel. revert s.
  induction fuel as [|fuel IH]; intros s; simpl; [apply grows_skip|].
  destruct (find_verified_at s _); [|apply grows_skip].
  destruct (s_pending_synced_block_verifications s !! _); [|apply grows_skip].
  eapply grows_same; [| |apply grows_seq; [apply apply_synced_grows, commit_grows|apply IH]]; done.
Qed.

Lemma synced_ready_grows block qc s : grows s (on_synced_block_ready block qc s).
Proof.
  unfold on_synced_block_ready.
  destruct (_ <=? _); [apply grows_skip|]. destruct (negb _); [apply grows_skip|].
  do 2 (destruct (contains_key _ _); [apply grows_skip|]).
  destruct (_ =? _ +w 1); [apply submit_grows, commit_grows|].
  destruct (_ <? _); [|apply grows_skip].
  by eapply grows_same; [| |apply try_drain_grows, commit_grows].
Qed.

Lemma start_sync_grows height hash s : grows s (start_sync height hash s).
Proof.
  unfold start_sync, set_syncing. destruct (s_syncing s) eqn:Hs; [apply grows_skip|].
  split; cbn; [lia|]. by rewrite Hs.
Qed.

Lemma qc_signature_grows hash valid s : grows s (on_qc_signature_verified hash valid s).
Proof.
  unfold on_qc_signature_verified.
  destruct (s_pending_synced_block_verifications s !! hash).
  - destruct (negb valid); [by apply grows_stay|].
    by eapply grows_same; [| |apply try_apply_grows].
  - destruct (s_pending_qc_verifications s !! hash); [|apply grows_skip].
    destruct (negb valid); [by apply grows_stay|].
    by eapply grows_same; [| |apply try_vote_grows].
Qed.

(** *** Pending blocks and proposals *)

Lemma block_completed_grows hash s : grows s (block_completed hash s).
Proof.
  apply grows_seq; [apply trigger_or_vote_grows|]. intros s1. unfold try_commit_pending_data.
  destruct (s_pending_commits_awaiting_data s1 !! hash) as [[? qc]|]; [|apply grows_skip].
  by eapply grows_same; [| |apply ready_grows, commit_grows].
Qed.

Lemma refetch_no_sync hash pb : sync_starts (refetch hash pb) = [].
Proof. unfold refetch. rewrite sync_starts_app. by repeat case_match. Qed.

Lemma after_fetch_grows hash pb s : grows s (after_fetch hash pb s).
Proof.
  unfold after_fetch. destruct (negb _); [apply grows_stay; [done..|apply refetch_no_sync]|].
  destruct (construct_if_needed pb); [|by apply grows_stay].
  by eapply grows_same; [| |apply block_completed_grows].
Qed.

Lemma for_each_grows {A} (h : A -> handler BftState Action) l s :
  (forall x s, grows s (h x s)) -> grows s (for_each h l s).
Proof.
  intros Hh. revert s. induction l as [|x l IH]; intros s; simpl; [apply grows_skip|].
  by apply grows_seq.
Qed.

Lemma fill_pending_grows add hash s : grows s (fill_pending_block add hash s).
Proof.
  unfold fill_pending_block. destruct (s_pending_blocks s !! hash); [|apply grows_skip].
  destruct (negb _); [by apply grows_stay|].
  destruct (construct_if_needed _); [|by apply grows_stay].
  by eapply grows_same; [| |apply block_completed_grows].
Qed.

Lemma empty_block_grows timestamp fb height round s :
  grows s (build_and_broadcast_empty_block timestamp fb height round s).
Proof.
  unfold build_and_broadcast_empty_block.
  destruct (parent_of_proposal s), (parent_state s _).
  destruct (PendingBlockOps.construct_block _) as [pb [b|]].
  all: eapply grows_same; [| |apply grows_seq; [|intros; apply grows_seq]];
    [done..|by apply grows_stay|apply create_vote_grows|intros; by apply grows_stay].
Qed.

Lemma proposal_timer_grows ready deferred aborted certs proofs s :
  grows s (on_proposal_timer ready deferred aborted certs proofs s).
Proof.
  unfold on_proposal_timer. destruct (negb _); [by apply grows_stay|].
  destruct (contains_key _ _); [by apply grows_stay|].
  destruct (s_syncing s) eqn:Hs; [apply empty_block_grows|].
  destruct (parent_of_proposal s), (parent_state s _). by apply grows_stay.
Qed.

Lemma proposal_built_grows height round block hash s :
  grows s (on_proposal_built height round block hash s).
Proof.
  unfold on_proposal_built. destruct (s_pending_proposal s); [|apply grows_skip].
  destruct (_ || _); [apply grows_skip|].
  destruct (PendingBlockOps.construct_block _) as [pb [b|]]; [|by apply grows_stay].
  eapply grows_same; [| |apply grows_seq; [|intros; apply create_vote_grows]];
    [done..|by apply grows_stay].
Qed.

Lemma qc_formed_grows hash qc ready deferred aborted certs proofs s :
  grows s (on_qc_formed hash qc ready deferred aborted certs proofs s).
Proof.
  unfold on_qc_formed. cbv zeta.
  destruct (adopt_qc_grows qc (record_leader_activity s)) as [Hv Hs].
  eapply grows_from; [exact Hv|by rewrite Hs|]. set (s1 := adopt_qc qc _).
  apply grows_seq.
  - apply grows_stay; [done..|]. rewrite sync_starts_app. unfold two_chain_commit.
    by repeat case_match.
  - intros s2. case_match; [apply proposal_timer_grows|apply grows_skip].
Qed.

Lemma note_parent_grows header s : grows s (note_parent_qc header s).
Proof.
  unfold note_parent_qc. destruct (QC.is_genesis _); [apply grows_skip|].
  destruct (has_complete_block_at_height _ _).
  - destruct (adopt_qc_grows (bh_parent_qc header) s) as [Hv Hs]. split; simpl; [done|].
    by rewrite Hs.
  - pose proof (start_sync_grows (qc_height (bh_parent_qc header))
                  (qc_block_hash (bh_parent_qc header)) s) as Hg.
    by destruct (start_sync _ _ s).
Qed.

Lemma header_tail_grows hash s :
  grows s
    (match s_pending_blocks s !! hash with
     | Some p =>
         if PendingBlockOps.is_complete p then
           match construct_if_needed p with
           | None => (s, [])
           | Some p' =>
               trigger_qc_verification_or_vote hash
                 (s <| s_pending_blocks ::= fun m => <[hash := p']> m |>)
           end
         else (s, [])
     | None => (s, [])
     end).
Proof.
  repeat case_match; try apply grows_skip. by eapply grows_same; [| |apply trigger_or_vote_grows].
Qed.

(** A prefix of actions without sync requests in front of a run. *)
Lemma grows_prefix s s0 acts r :
  s_view s <= s_view s0 ->
  (s_syncing s = true -> s_syncing s0 = true /\ sync_starts acts = []) ->
  grows s0 r -> grows s (let '(s1, acts1) := r in (s1, acts ++ acts1)).
Proof.
  intros Hv Hs [Hv0 Hs0]. destruct r as [s1 acts1]. simpl in *. split; simpl; [lia|]. intros Hsync.
  destruct (Hs Hsync) as [Hs1 Ha]. destruct (Hs0 Hs1) as [Hs2 Ha2].
  split; [done|]. by rewrite sync_starts_app, Ha, Ha2.
Qed.

Lemma block_header_grows header retry priority txs certs deferred aborted proofs mempool store s :
  grows s (on_block_header header retry priority txs certs deferred aborted proofs mempool store s).
Proof.
  unfold on_block_header. pose proof (note_parent_grows header s) as [Hv1 Hs1].
  destruct (note_parent_qc header s) as [s1 sync_actions]. cbn [fst snd] in Hv1, Hs1. cbv zeta.
  set (s2 := if s_view s1 <? _ then _ else s1).
  assert (s_view s1 <= s_view s2 /\ s_syncing s2 = s_syncing s1) as [Hv2 Hs2]
    by (unfold s2; case_match; bool_to_prop; (split; [cbn; lia|done])).
  clearbody s2. destruct (validate_header s2 header).
  { split; simpl; [lia|]. intros Hs. rewrite Hs2. by destruct (Hs1 Hs). }
  set (s3 := record_header_activity _ _ s2).
  assert (s_view s3 = s_view s2 /\ s_syncing s3 = s_syncing s2) as [Hv3 Hs3]
    by (unfold s3, record_header_activity; by case_match).
  clearbody s3. destruct (contains_key _ _).
  { split; simpl; [lia|]. intros Hs. rewrite Hs3, Hs2. by destruct (Hs1 Hs). }
  match goal with |- context [maybe_trigger_vote_verification ?h ?x] =>
    pose proof (trigger_votes_grows h x) as [Hv5 Hs5];
    change (s_view x) with (s_view s3) in Hv5; change (s_syncing x) with (s_syncing s3) in Hs5;
    destruct (maybe_trigger_vote_verification h x) as [s5 acts] end.
  cbn [fst snd] in Hv5, Hs5.
  assert (s_syncing s = true -> s_syncing s5 = true /\ sync_starts (acts ++ sync_actions) = [])
    as Hacts.
  { intros Hs. destruct (Hs1 Hs) as [Hss Ha]. rewrite <-Hs2, <-Hs3 in Hss.
    destruct (Hs5 Hss) as [? Ha5]. split; [done|]. by rewrite sync_starts_app, Ha5, Ha. }
  destruct (existsb _ _); [split; simpl; [lia|done]|].
  unfold hseq, hemit. apply (grows_prefix s s5); [lia|exact Hacts|apply header_tail_grows].
Qed.

Lemma fetches_no_sync s : sync_starts (check_pending_block_fetches s) = [].
Proof.
  unfold check_pending_block_fetches. case_match; [done|].
  induction (hm_iter (s_pending_blocks s)) as [|[hash pb] l IH]; [done|]. simpl.
  rewrite sync_starts_app, IH, app_nil_r. unfold fetches_for.
  repeat case_match; try done; rewrite sync_starts_app; by repeat case_match.
Qed.

(** A round advance: the view is one up, and the new proposer's actions
    start from there. *)
Lemma advance_round_from s :
  exists s2, s_view s2 = s_view s +w 1 /\ s_syncing s2 = s_syncing s /\ grows s2 (advance_round s).
Proof.
  unfold advance_round. cbv zeta.
  set (s1 := s <| s_view := _ |> <| s_view_changes := _ |>).
  set (s2 := if _ <? _ then _ else _).
  exists s2. split_and!; [unfold s2; by case_match..|]. clearbody s2.
  destruct (should_propose _ _); [|by apply grows_stay].
  destruct (s_voted_heights s2 !! _) as [[existing ?]|]; [|apply empty_block_grows].
  unfold repropose_locked_block. case_match; by apply grows_stay.
Qed.

Lemma step_grows s e :
  e <> OnSyncComplete -> e <> CheckRoundTimeout -> grows s (bft_handle e s).
Proof.
  intros Hne Hne'. destruct e; simpl; try done.
  - apply proposal_timer_grows.
  - apply block_header_grows.
  - apply block_vote_grows.
  - apply qc_result_grows.
  - apply qc_signature_grows.
  - unfold on_cycle_proof_verified. case_match; [|apply grows_skip].
    destruct (Nat.ltb _ _); [by apply grows_stay|]. destruct (negb _); [by apply grows_stay|].
    by eapply grows_same; [| |apply vote_if_verified_grows].
  - unfold on_state_root_verified. destruct (negb _); [by apply grows_stay|].
    by eapply grows_same; [| |apply vote_if_verified_grows].
  - unfold on_transaction_root_verified. destruct (negb _); [by apply grows_stay|].
    by eapply grows_same; [| |apply vote_if_verified_grows].
  - apply proposal_built_grows.
  - unfold on_state_commit_complete. case_match; [apply grows_skip|].
    eapply grows_same; [| |apply for_each_grows]; [done..|].
    intros hash s1. unfold start_queued_verification. case_match; by apply grows_stay.
  - apply qc_formed_grows.
  - apply ready_grows, commit_grows.
  - unfold on_sync_block_ready_to_apply. case_match; [apply grows_skip|apply synced_ready_grows].
  - unfold check_sync_health. repeat case_match; try apply grows_skip; apply start_sync_grows.
  - unfold on_transaction_fetch_received. case_match; [apply after_fetch_grows|apply grows_skip].
  - unfold on_certificate_fetch_received. case_match; [apply after_fetch_grows|apply grows_skip].
  - apply for_each_grows. intros. apply fill_pending_grows.
  - apply for_each_grows. intros. apply fill_pending_grows.
  - apply grows_stay; [done..|apply fetches_no_sync].
Qed.

(** Sync mode is left by [OnSyncComplete] only. *)
Lemma step_stays_syncing s e :
  e <> OnSyncComplete -> s_syncing s = true ->
  s_syncing (bft_handle e s).1 = true /\ sync_starts (bft_handle e s).2 = [].
Proof.
  intros Hne Hs. assert (e = CheckRoundTimeout \/ e <> CheckRoundTimeout) as [->|Hne']
    by (destruct e; solve [by left | by right]).
  2: by apply step_grows.
  simpl. unfold check_round_timeout. case_match; simpl; [done|].
  match goal with |- context [advance_round ?x] =>
    destruct (advance_round_from x) as (s2 & _ & Hs2 & _ & Hg) end.
  apply Hg. by rewrite Hs2.
Qed.

Lemma run_stays_syncing s events s' acts :
  bft_run s events s' acts -> s_syncing s = true -> OnSyncComplete ∉ events ->
  s_syncing s' = true /\ sync_starts acts = [].
Proof.
  induction 1 as [s|s e events s' acts Hok Hroom Hrun IH]; intros Hs Hnot; [done|].
  apply not_elem_of_cons in Hnot as [Hne Hnot].
  destruct (step_stays_syncing s e (not_eq_sym Hne) Hs) as [Hs1 Ha].
  destruct (IH Hs1 Hnot) as [Hs2 Ha2]. split; [done|]. by rewrite sync_starts_app, Ha, Ha2.
Qed.

(** No handler lowers the view, as long as the view counter is below its
    maximum. *)
Theorem view_never_decreases s e :
  s_view s < u64_max -> s_view s <= s_view (bft_handle e s).1.
Proof.
  intros Hv. assert (e = OnSyncComplete \/ e = CheckRoundTimeout
                     \/ e <> OnSyncComplete /\ e <> CheckRoundTimeout) as [->|[->|[Hne Hne']]]
    by (destruct e; solve [by left | by right; left | by right; right]).
  - simpl. unfold set_syncing. by case_match.
  - simpl. unfold check_round_timeout. case_match; simpl; [done|].
    match goal with |- context [advance_round ?x] =>
      destruct (advance_round_from x) as (s2 & Hv2 & _ & Hg & _) end.
    cbn in Hv2. rewrite wadd_1_small in Hv2 by done. lia.
  - by apply step_grows.
Qed.

(** ** Round advancement and the vote lock *)

Lemma empty_block_votes timestamp fb height round s :
  exists hash, own_votes (build_and_broadcast_empty_block timestamp fb height round s).2
               = [(height, round, hash)].
Proof.
  unfold build_and_broadcast_empty_block.
  destruct (parent_of_proposal s), (parent_state s _). cbv zeta.
  match goal with |- context [create_vote ?h height round] => exists h end.
  unfold hseq, hemit.
  match goal with |- context [create_vote ?h ?a ?b ?x] =>
    pose proof (create_vote_votes h a b x) as Hv; destruct (create_vote h a b x) as [s1 acts] end.
  cbn [fst snd] in *. rewrite !own_votes_app, Hv. done.
Qed.

(** Advancing the round always drops the vote lock of the height in
    progress: a validator that is not the new proposer has no lock afterwards
    and casts no vote, and a validator that is the new proposer votes for a
    fresh fallback block, whatever block it had voted for in an earlier
    round.  The locked block is never proposed again. *)
Theorem advance_round_unlocks s :
  room_for_next s ->
  let height := next_height s in
  let round := s_view s +w 1 in
  let r := advance_round s in
  if should_propose height round
  then exists hash, own_votes r.2 = [(height, round, hash)]
  else s_voted_heights r.1 = delete height (s_voted_heights s) /\ own_votes r.2 = [].
Proof.
  intros [Hc Hqc]. cbv zeta. unfold advance_round. cbv zeta.
  assert ((default 0 (qc_height <$> s_latest_qc s) <? next_height s) = true) as Hlow.
  { apply N.ltb_lt. unfold next_height. destruct (s_latest_qc s) as [qc|]; simpl.
    - rewrite wadd_1_small by auto. lia.
    - rewrite wadd_1_small by done. lia. }
  set (s1 := s <| s_view := _ |> <| s_view_changes := _ |>).
  change (s_latest_qc s1) with (s_latest_qc s). rewrite Hlow.
  set (s2 := clear_vote_tracking_for_height _ _ _).
  change (s_view s2) with (s_view s +w 1).
  change (s_voted_heights s2) with (delete (next_height s) (s_voted_heights s)).
  rewrite lookup_delete_eq. destruct (should_propose _ _); [|done].
  apply empty_block_votes.
Qed.

(** ** The timeout window *)

Lemma empty_block_activity timestamp fb height round s :
  s_last_leader_activity (build_and_broadcast_empty_block timestamp fb height round s).1 = s_now s.
Proof.
  unfold build_and_broadcast_empty_block.
  destruct (parent_of_proposal s), (parent_state s _).
  destruct (PendingBlockOps.construct_block _) as [pb [b|]]; unfold hseq, hemit.
  all: match goal with |- context [create_vote ?h ?a ?b ?x] =>
    destruct (create_vote_frame h a b x) as [m Hm]; destruct (create_vote h a b x) as [s1 acts] end.
  all: cbn [fst snd] in *; by rewrite Hm.
Qed.

Lemma advance_round_activity s :
  s_last_leader_activity s = s_now s -> s_last_leader_activity (advance_round s).1 = s_now s.
Proof.
  intros Hact. unfold advance_round. cbv zeta.
  set (s1 := s <| s_view := _ |> <| s_view_changes := _ |>).
  set (s2 := if _ <? _ then _ else _).
  assert (s_last_leader_activity s2 = s_now s) as Hact2 by (unfold s2; by case_match).
  assert (s_now s2 = s_now s) as Hnow2 by (unfold s2; by case_match).
  clearbody s2. destruct (should_propose _ _); [|done].
  destruct (s_voted_heights s2 !! _) as [[existing ?]|].
  - unfold repropose_locked_block. by case_match.
  - unfold build_and_broadcast_fallback_block. by rewrite empty_block_activity.
Qed.

(** With a maximum timeout configured, the round timeout fires whenever
    there was no leader activity for the maximum, it does not fire before the
    base timeout has passed, and when it fires it restarts the clock. *)
Theorem round_timeout_window s max :
  cfg_view_change_timeout_max (s_config s) = Some max ->
  cfg_view_change_timeout (s_config s) <= max ->
  let idle := s_now s - s_last_leader_activity s in
  (max <= idle -> exists r, check_round_timeout s = Some r)
  /\ (idle < cfg_view_change_timeout (s_config s) -> check_round_timeout s = None)
  /\ (forall r, check_round_timeout s = Some r -> s_last_leader_activity r.1 = s_now s).
Proof.
  intros Hmax Hbase. cbv zeta.
  assert (cfg_view_change_timeout (s_config s) <= current_view_change_timeout s <= max) as Hwin.
  { unfold current_view_change_timeout. rewrite Hmax. cbv zeta.
    set (extra := _ * _). clearbody extra. lia. }
  unfold check_round_timeout, should_advance_round. split_and!.
  - intros Hidle. rewrite (proj2 (N.leb_le _ _)) by lia. by eexists.
  - intros Hidle. by rewrite (proj2 (N.leb_gt _ _)) by lia.
  - intros r. destruct (negb _); [done|]. intros [= <-]. by rewrite advance_round_activity.
Qed.

(** ** Sync mode *)

(** Whether a header is rejected does not depend on the view or sync mode. *)
Lemma validate_header_frame s s' header :
  s_committed_height s' = s_committed_height s -> s_now s' = s_now s ->
  s_config s' = s_config s -> validate_header s' header = validate_header s header.
Proof. intros Hc Hn Hcfg. unfold validate_header, validate_timestamp. by rewrite Hc, Hn, Hcfg. Qed.

(** A header that is rejected can still switch the validator to sync
    mode: when its parent certificate is for a height the validator has no
    complete block at, sync mode is on afterwards, although no sync was
    requested.  In every run from there in which no sync reports its
    completion, no handler requests a sync, sync mode stays on and the data
    of pending blocks is not fetched. *)
Theorem rejected_header_blocks_sync s header retry priority txs certs deferred aborted proofs
    mempool store error :
  s_syncing s = false ->
  QC.is_genesis (bh_parent_qc header) = false ->
  has_complete_block_at_height s (qc_height (bh_parent_qc header)) = false ->
  validate_header s header = Some error ->
  let r := on_block_header header retry priority txs certs deferred aborted proofs mempool store s in
  r.2 = [] /\ s_syncing r.1 = true
  /\ forall events s' acts,
       bft_run r.1 events s' acts -> OnSyncComplete ∉ events ->
       s_syncing s' = true /\ sync_starts acts = [] /\ check_pending_block_fetches s' = [].
Proof.
  intros Hsync Hgen Hmissing Herr. cbv zeta. unfold on_block_header, note_parent_qc.
  rewrite Hgen, Hmissing. unfold start_sync. rewrite Hsync. cbn [negb].
  set (s2 := if _ <? _ then _ else _).
  assert (s_syncing s2 = true /\ validate_header s2 header = Some error) as [Hs2 ->].
  { unfold s2. case_match; (split; [done|]); rewrite <-Herr; by apply validate_header_frame. }
  split_and!; [done|done|]. intros events s' acts Hrun Hnot.
  destruct (run_stays_syncing _ _ _ _ Hrun Hs2 Hnot) as [Hs' Ha].
  split_and!; [done..|]. unfold check_pending_block_fetches. by rewrite Hs'.
Qed.
End views.

(** ** Concrete runs *)

Abbreviation sample_handle e s :=
  (@bft_handle sample_crypto (sample_topology 0) canonical_iter e s) (only parsing).
Abbreviation sample_run := (@bft_run sample_crypto (sample_topology 0) canonical_iter) (only parsing).

(** A header from the wrong proposer, with an arbitrary round and a parent
    certificate for a block nobody has. *)
Definition bogus_header (round : u64) : BlockHeader := {|
  bh_height := 9;
  bh_parent_hash := 5;
  bh_parent_qc := mk_qc 5 8 4 0 SignerBitfieldOps.empty zero_bls_signature 0 0;
  bh_proposer := 77;
  bh_timestamp := 0;
  bh_round := round;
  bh_is_fallback := false;
  bh_state_root := ZERO;
  bh_state_version := 0;
  bh_transaction_root := ZERO
|}.

Lemma view_never_decreases_witness :
  s_view sample_start < u64_max
  /\ s_view sample_start
     <= s_view (sample_handle (OnBlockHeader (sample_gossip (bogus_header 6)) ∅ ∅) sample_start).1.
Proof.
  split; [vm_compute; reflexivity|].
  apply (@view_never_decreases sample_crypto (sample_topology 0) canonical_iter).
  vm_compute; reflexivity.
Defined.

(** Validator 3 proposes height 1 in round 2. *)
Lemma advance_round_unlocks_witness :
  exists hash,
    own_votes (@advance_round sample_crypto (sample_topology 3)
                 (sample_start <| s_view := 1 |>)).2 = [(1, 2, hash)].
Proof.
  assert (room_for_next (sample_start <| s_view := 1 |>)) as Hroom
    by (split; [vm_compute; reflexivity|]; intros qc Hqc; discriminate Hqc).
  exact (@advance_round_unlocks sample_crypto (sample_topology 3)
           (sample_start <| s_view := 1 |>) Hroom).
Defined.

Lemma round_timeout_window_witness :
  exists r, @check_round_timeout sample_crypto (sample_topology 0)
              (sample_start <| s_now := from_secs 30 |>) = Some r
    /\ s_last_leader_activity r.1 = from_secs 30.
Proof.
  destruct (@round_timeout_window sample_crypto (sample_topology 0)
              (sample_start <| s_now := from_secs 30 |>) (from_secs 30))
    as (Hfires & _ & Hclock); [vm_compute; reflexivity|vm_compute; discriminate|].
  destruct Hfires as [r Hr]; [vm_compute; discriminate|].
  exists r. split; [exact Hr|exact (Hclock r Hr)].
Defined.

Lemma rejected_header_blocks_sync_witness :
  let r := @on_block_header sample_crypto (sample_topology 0) canonical_iter (bogus_header 0)
             [] [] [] [] [] [] ∅ ∅ ∅ sample_start in
  r.2 = [] /\ s_syncing r.1 = true
  /\ forall events s' acts,
       sample_run r.1 events s' acts -> OnSyncComplete ∉ events ->
       s_syncing s' = true /\ sync_starts acts = []
       /\ @check_pending_block_fetches canonical_iter s' = [].
Proof.
  apply (@rejected_header_blocks_sync sample_crypto (sample_topology 0) canonical_iter sample_start
           (bogus_header 0) [] [] [] [] [] [] ∅ ∅ ∅ WrongProposer); vm_compute; reflexivity.
Defined.

(** A header that is rejected sets the view to any round it names: after
    a rejected header with the largest round, the next round timeout wraps
    the view of the validator around to zero. *)
Theorem rejected_header_wraps_view :
  exists s1 s2 acts1 acts2 error,
    @validate_header (sample_topology 0) sample_start (bogus_header u64_max) = Some error
    /\ sample_run sample_start [OnBlockHeader (sample_gossip (bogus_header u64_max)) ∅ ∅] s1 acts1
    /\ s_view s1 = u64_max
    /\ sample_run s1 [SetTime (from_secs 60); CheckRoundTimeout] s2 acts2
    /\ s_view s2 = 0.
Proof.
  set (r1 := @run_events sample_crypto (sample_topology 0) canonical_iter sample_start
               [OnBlockHeader (sample_gossip (bogus_header u64_max)) ∅ ∅]).
  set (r2 := @run_events sample_crypto (sample_topology 0) canonical_iter r1.1
               [SetTime (from_secs 60); CheckRoundTimeout]).
  exists r1.1, r2.1, r1.2, r2.2, WrongProposer.
  split_and!; [vm_compute; reflexivity|apply run_events_run|vm_compute; reflexivity
              |apply run_events_run|vm_compute; reflexivity]; vm_compute; reflexivity.
Qed.
