(* ===== verification/BftHazards.v ===== *)
(** * Votes that the comments exclude

    Behaviours of the voting code that contradict what the source says about
    it, as theorems with concrete runs: two votes of one validator at the same
    height and round, a vote before the state root is checked, a parent
    certificate without a quorum, and votes counted without a signature
    check. *)

From stdpp Require Import base gmap list numbers.
From Stdlib Require Import NArith Lia.
From S2P Require Import Prelude Bitfield Types Encoding Merkle Topology VoteSet Core Runner.
From S2P Require Import QcTheory.
From S2P Require Import PendingBlock BftState BftVote BftCommit BftPropose BftChain BftReach.
From S2P Require Import BftVoting.

Section hazards.
Context `{Crypto} `{Topology} `{HashIter}.

(** When the state tree has not caught up with the parent block, the
    state root check of a block with certificates is queued and the validator
    votes for the block at once: the vote is cast while the root is not
    verified, and no check is requested. *)
Theorem queued_state_root_votes s hash height round block :
  s_voted_heights s !! height = None ->
  (s_pending_blocks s !! hash ≫= PendingBlockOps.block) = Some block ->
  validate_deferrals_and_aborts block = None ->
  validate_transaction_ordering block = None ->
  bl_deferred block = [] ->
  block_needs_transaction_root_verification s block = false ->
  block_needs_state_root_verification s block = true ->
  (s_last_committed_jmt_state s).2 <> base_root s block ->
  let r := try_vote_on_block hash height round s in
  own_votes r.2 = [(height, round, hash)]
  /\ (block_hash block ∉ s_verified_state_roots s)
  /\ forall h parent expected certs, VerifyStateRoot h parent expected certs ∉ r.2.
Proof.
  intros Hlock Hblock Hd Ho Hdef Htx Hneeds Hroot. cbv zeta.
  assert (block_needs_cycle_proof_verification s block = false) as Hcycle
    by (unfold block_needs_cycle_proof_verification; by rewrite Hdef).
  assert (can_check_state_root s block = false) as Hcan.
  { unfold can_check_state_root. rewrite Hneeds. by apply N.eqb_neq. }
  split_and!.
  - apply try_vote_cases. split; [done|]. rewrite Hblock. intros b [= <-]. done.
  - unfold block_needs_state_root_verification in Hneeds. case_match; [done|].
    bool_to_prop. done.
  - intros h parent expected certs Hin.
    unfold try_vote_on_block in Hin. rewrite Hlock, Hblock, Hd, Ho in Hin.
    pose proof (initiate_starts hash block s) as Hstarts.
    destruct (initiate_verifications hash block s) as [s1 acts]. cbn [snd] in Hstarts.
    rewrite (proj2 Hstarts) in Hin by done. simpl in Hin.
    unfold create_vote, hseq, hemit in Hin. cbv zeta in Hin.
    match type of Hin with context [on_block_vote_internal ?v ?x] =>
      pose proof (block_vote_batch v x) as Hbatch; destruct (on_block_vote_internal v x) end.
    cbn [snd app] in Hin, Hbatch. apply elem_of_cons in Hin as [Hin|Hin]; [done|].
    by pose proof (Forall_elem _ _ _ Hbatch Hin).
Qed.

(** A vote that names the validator itself as the voter is counted as a
    verified vote whatever its signature is, also when it arrives from the
    network. *)
Theorem spoofed_own_vote_counted vote s index :
  bv_voter vote = local_validator_id ->
  s_committed_height s < bv_height vote ->
  local_committee_index local_validator_id = Some index ->
  (index < length local_committee)%nat ->
  0 < power_of local_validator_id ->
  is_none_or (s_vote_sets s !! bv_block_hash vote)
    (fun vs => negb (VoteSetOps.has_seen_validator vs index)) = true ->
  exists vs, s_vote_sets (on_block_vote vote s).1 !! bv_block_hash vote = Some vs
    /\ (index, vote, power_of local_validator_id) ∈ vs_verified_votes vs.
Proof. intros. by apply own_vote_counted. Qed.
End hazards.

(** ** Concrete runs *)

Abbreviation hz_run := (@bft_run sample_crypto (sample_topology 0) canonical_iter) (only parsing).
Abbreviation hz_checked := (@run_events_run sample_crypto (sample_topology 0) canonical_iter) (only parsing).
Abbreviation hz_events := (@run_events sample_crypto (sample_topology 0) canonical_iter) (only parsing).

(** A block of the first height with the given transactions: its header, and
    the gossip message for it. *)
Definition tx_header (txs : list RoutableTransaction) : BlockHeader :=
  mk_block_header 1 (@block_hash sample_crypto sample_genesis) QC.genesis 1 0 0 false ZERO 0
    (@compute_transaction_root sample_crypto [] [] txs).

Definition tx_gossip (txs : list RoutableTransaction) : BlockHeaderGossip :=
  mk_block_header_gossip (tx_header txs) [] [] (rt_hash <$> txs) [] [] [] ∅.

Definition tx_hash_of (txs : list RoutableTransaction) : Hash :=
  @header_hash sample_crypto (tx_header txs).

Definition tx_pool : gmap Hash RoutableTransaction :=
  <[5 := sample_tx 5]> (<[6 := sample_tx 6]> ∅).

Definition two_proposals : list bft_event :=
  [OnBlockHeader (tx_gossip [sample_tx 5]) tx_pool ∅;
   OnBlockHeader (tx_gossip [sample_tx 6]) tx_pool ∅;
   OnTransactionRootVerified (tx_hash_of [sample_tx 5]) true;
   OnTransactionRootVerified (tx_hash_of [sample_tx 6]) true].

(** The transaction root checks among the actions that fail. *)
Definition failing_root_checks `{Crypto} (acts : list Action) : list Action :=
  List.filter (fun a =>
    match a with
    | VerifyTransactionRoot _ expected retry priority txs =>
        negb (verify_transaction_root expected retry priority txs)
    | _ => false
    end) acts.

(** A validator that receives two valid proposals for the same height and
    round, and whose transaction root checks all succeed, broadcasts a vote
    for each of them: two votes at one height and round, for different
    blocks. *)
Theorem two_proposals_two_votes :
  exists s' acts,
    hz_run sample_start two_proposals s' acts
    /\ @failing_root_checks sample_crypto acts = []
    /\ own_votes acts = [(1, 0, tx_hash_of [sample_tx 5]); (1, 0, tx_hash_of [sample_tx 6])]
    /\ tx_hash_of [sample_tx 5] <> tx_hash_of [sample_tx 6].
Proof.
  set (r := hz_events sample_start two_proposals). exists r.1, r.2.
  split_and!; [apply (hz_checked sample_start two_proposals); vm_compute; reflexivity|vm_compute; reflexivity..|].
  vm_compute; discriminate.
Qed.

(** A first block that claims a state root of 9, and a second one on top of
    it with one certificate; the state tree is still empty. *)
Definition root_header_1 : BlockHeader :=
  mk_block_header 1 (@block_hash sample_crypto sample_genesis) QC.genesis 1 0 0 false 9 0 ZERO.
Definition root_hash_1 : Hash := @header_hash sample_crypto root_header_1.
Definition root_qc_1 : QuorumCertificate :=
  mk_qc root_hash_1 1 (@block_hash sample_crypto sample_genesis) 0 SignerBitfieldOps.empty
    zero_bls_signature 3 0.
Definition root_header_2 : BlockHeader :=
  mk_block_header 2 root_hash_1 root_qc_1 2 0 0 false 10 1 ZERO.
Definition root_hash_2 : Hash := @header_hash sample_crypto root_header_2.
Definition root_cert : TransactionCertificate := mk_transaction_certificate 4 Accept ∅.

Definition root_state : BftState :=
  (hz_events sample_start
     [OnBlockHeader (sample_gossip root_header_1) ∅ ∅;
      OnBlockHeader (mk_block_header_gossip root_header_2 [] [] [] [4] [] [] ∅) ∅
        {[4 := root_cert]}]).1.

Definition root_block_2 : Block := mk_block root_header_2 [] [] [] [root_cert] [] [] ∅.

Lemma queued_state_root_votes_witness :
  let r := @try_vote_on_block sample_crypto (sample_topology 0) root_hash_2 2 0 root_state in
  own_votes r.2 = [(2, 0, root_hash_2)]
  /\ (@block_hash sample_crypto root_block_2 ∉ s_verified_state_roots root_state)
  /\ forall h parent expected certs, VerifyStateRoot h parent expected certs ∉ r.2.
Proof.
  apply (@queued_state_root_votes sample_crypto (sample_topology 0) root_state root_hash_2 2 0
           root_block_2); vm_compute; first [reflexivity | discriminate].
Defined.

(** A vote with a signature that is not validator 0's. *)
Definition spoofed_vote : BlockVote := mk_block_vote 21 4 0 0 12345 0.

Lemma spoofed_own_vote_counted_witness :
  @verify_bls12381_v1 sample_crypto (block_vote_message 0 4 0 21) 1 (bv_signature spoofed_vote)
  = false
  /\ exists vs,
    s_vote_sets (@on_block_vote sample_crypto (sample_topology 0) spoofed_vote sample_start).1
      !! 21 = Some vs
    /\ (0%nat, spoofed_vote, @power_of (sample_topology 0) 0) ∈ vs_verified_votes vs.
Proof.
  split; [vm_compute; reflexivity|].
  apply (@spoofed_own_vote_counted sample_crypto (sample_topology 0) spoofed_vote sample_start 0%nat);
    vm_compute; first [reflexivity | repeat constructor].
Defined.

(** ** A parent certificate without a quorum

    The certificate claims the power of the whole committee and carries the
    signature of validator 3 alone. *)

Definition forged_qc : QuorumCertificate := {|
  qc_block_hash := sample_hash_1;
  qc_height := 1;
  qc_parent_block_hash := @block_hash sample_crypto sample_genesis;
  qc_round := 0;
  qc_signers := default SignerBitfieldOps.empty (SignerBitfieldOps.set (SignerBitfieldOps.new 4) 3);
  qc_aggregated_signature :=
    @sign_v1 sample_crypto 4 (block_vote_message 0 1 0 sample_hash_1);
  qc_voting_power := 4;
  qc_weighted_timestamp_ms := 0
|}.

Definition forged_header : BlockHeader := sample_header 2 sample_hash_1 forged_qc 2.
Definition forged_hash : Hash := @header_hash sample_crypto forged_header.

Definition forged_events : list bft_event :=
  [OnBlockHeader (sample_gossip sample_header_1) ∅ ∅;
   OnBlockHeader (sample_gossip forged_header) ∅ ∅;
   OnQcSignatureVerified forged_hash true].

(** The certificate checks among the actions that fail. *)
Definition failing_qc_checks `{Crypto} (acts : list Action) : list Action :=
  List.filter (fun a =>
    match a with
    | VerifyQcSignature qc keys _ message => negb (verify_qc_signature qc keys message)
    | _ => false
    end) acts.

(** A proposal whose parent certificate was signed by a single validator
    of four, and merely claims the power of all of them, passes the header
    validation and the signature check of the runner, and the validator votes
    for it. *)
Theorem forged_quorum_gets_vote :
  exists s' acts,
    hz_run sample_start forged_events s' acts
    /\ @failing_qc_checks sample_crypto acts = []
    /\ (2, 0, forged_hash) ∈ own_votes acts
    /\ @signer_ids (sample_topology 0) (bh_parent_qc forged_header) = {[3]}
    /\ @has_quorum_for_shard (sample_topology 0) 0
         (@power_in (sample_topology 0) 0
            (@signer_ids (sample_topology 0) (bh_parent_qc forged_header))) = false.
Proof.
  set (r := hz_events sample_start forged_events). exists r.1, r.2.
  split_and!; [apply (hz_checked sample_start forged_events); vm_compute; reflexivity|vm_compute; reflexivity| | |].
  - apply (bool_decide_unpack _). vm_compute; reflexivity.
  - apply (bool_decide_unpack _). vm_compute; reflexivity.
  - vm_compute; reflexivity.
Qed.

(** ** A cycle proof about another transaction

    The deferral names transaction 20 as the winner; the proof's commitment is
    the one of transaction 50, signed by validators 0, 1 and 2. *)

Definition other_commitment_message : bytes := state_provision_message 50 0 0 3 100 [].

Definition other_commitment : CommitmentProof :=
  mk_commitment_proof 50 0
    (foldl (fun bf i => default bf (SignerBitfieldOps.set bf i)) (SignerBitfieldOps.new 4)
       [0; 1; 2]%nat)
    (default 0 (@aggregate_signatures sample_crypto
       ((fun key => @sign_v1 sample_crypto key other_commitment_message) <$> [1; 2; 3])))
    3 100 [].

Definition unrelated_deferral : TransactionDefer :=
  mk_transaction_defer 30 (LivelockCycle 20) 1 (mk_cycle_proof 20 other_commitment).

Definition unrelated_block : Block :=
  mk_block (tx_header []) [] [] [] [] [unrelated_deferral] [] ∅.

(** The cycle proof checks among the actions that fail. *)
Definition failing_cycle_checks `{Crypto} (acts : list Action) : list Action :=
  List.filter (fun a =>
    match a with
    | VerifyCycleProof _ _ proof keys message threshold =>
        negb (verify_cycle_proof proof keys message threshold)
    | _ => false
    end) acts.

(** A deferral is accepted on a proof about another transaction: the
    commitment certifies transaction 50 and the deferral claims that 20 won,
    the structural check accepts the block, the one cycle proof check that is
    requested succeeds, and the validator votes for the block. *)
Theorem unrelated_commitment_accepted :
  cp_tx_hash (cyp_winner_commitment (td_proof unrelated_deferral)) <> winner_hash unrelated_deferral
  /\ validate_deferrals_and_aborts unrelated_block = None
  /\ exists s' acts,
       hz_run sample_start
         [OnBlockHeader (mk_block_header_gossip (tx_header []) [] [] [] [] [unrelated_deferral] [] ∅)
            ∅ ∅;
          OnCycleProofVerified (tx_hash_of []) 0 true] s' acts
       /\ (exists proof keys message threshold,
             VerifyCycleProof (tx_hash_of []) 0 proof keys message threshold ∈ acts)
       /\ @failing_cycle_checks sample_crypto acts = []
       /\ own_votes acts = [(1, 0, tx_hash_of [])].
Proof.
  split; [vm_compute; discriminate|]. split; [vm_compute; reflexivity|].
  set (events := [_; _]). set (r := hz_events sample_start events). exists r.1, r.2.
  split_and!; [apply (hz_checked sample_start events); vm_compute; reflexivity| |vm_compute; reflexivity..].
  eexists _, _, _, _. apply list_elem_of_lookup_2 with (i := 0%nat). vm_compute; reflexivity.
Qed.
