(* ===== verification/BftProposals.v ===== *)
(** * Proposals of a correct leader

    A block that follows the code from the proposal timer through the
    runner's block builder passes every check a validator makes before it
    votes.  The walk along the uncommitted chain that the timer makes
    terminates within its bound, and leaves out the certificates it finds. *)

From stdpp Require Import base gmap list numbers sorting.
From Stdlib Require Import NArith Lia.
From S2P Require Import Prelude Bitfield Types Encoding Merkle Topology Livelock VoteSet Core.
From S2P Require Import Runner PendingBlock.
From S2P Require Import BftState BftVote BftCommit BftPropose BftChain BftReach BftVoting.
From S2P Require Import BftHazards.

Section proposals.
Context `{Crypto} `{Topology} `{HashIter}.

(** The runner on the action [BuildProposal]. *)
Definition run_build_proposal (storage : JmtStore) (a : Action) : option (Block * Hash) :=
  match a with
  | BuildProposal proposer height round parent_hash parent_qc timestamp is_fallback
      parent_state_root parent_state_version retry priority txs certs proofs deferred aborted =>
      Some (build_proposal storage local_shard proposer height round parent_hash parent_qc timestamp
              is_fallback parent_state_root parent_state_version retry priority txs certs proofs
              deferred aborted)
  | _ => None
  end.

(** What the mempool and the livelock component hand to the timer. *)
Record inputs_ok (height : u64) (ready : ReadyTransactions) (deferred : list TransactionDefer)
    (aborted : list TransactionAbort) (proofs : gmap Hash CommitmentProof) : Prop := {
  in_retries_sorted : StronglySorted N.lt (rt_hash <$> ready_retries ready);
  in_priority_sorted : StronglySorted N.lt (rt_hash <$> ready_priority ready);
  in_others_sorted : StronglySorted N.lt (rt_hash <$> ready_others ready);
  in_retries : Forall (fun tx => is_retry tx = true) (ready_retries ready);
  in_priority : Forall (fun tx => is_retry tx = false /\ contains_key proofs (rt_hash tx) = true)
                  (ready_priority ready);
  in_others : Forall (fun tx => is_retry tx = false /\ contains_key proofs (rt_hash tx) = false)
                (ready_others ready);
  in_deferred : Forall deferral_proposable deferred;
  in_aborted : Forall (fun a =>
                  match ta_reason a with
                  | ExecutionTimeout committed_at => committed_at <= height
                  | TooManyRetries retry_count => 0 < retry_count
                  | ExecutionRejected _ => True
                  end) aborted
}.

(** A validator that can judge a proposal made in state [s]: the block is
    above what it committed, and its clock agrees within the bounds. *)
Definition can_judge (s v : BftState) : Prop :=
  s_committed_height v < next_height s
  /\ (s_latest_qc s = None -> next_height s = s_committed_height v +w 1)
  /\ as_millis_u64 (s_now v) - cfg_max_timestamp_delay_ms (s_config v) <= as_millis_u64 (s_now s)
  /\ as_millis_u64 (s_now s) <= as_millis_u64 (s_now v) +w cfg_max_timestamp_rush_ms (s_config v).

(** The latest certificate is a real one and claims a quorum. *)
Definition latest_qc_ok (s : BftState) : Prop :=
  forall qc, s_latest_qc s = Some qc ->
    QC.is_genesis qc = false
    /\ VotePower.has_quorum (qc_voting_power qc) local_voting_power = true.

Lemma own_header_accepted s v header :
  latest_qc_ok s -> can_judge s v -> should_propose (next_height s) (s_view s) = true ->
  bh_height header = next_height s -> bh_round header = s_view s ->
  (bh_parent_hash header, bh_parent_qc header) = parent_of_proposal s ->
  bh_proposer header = local_validator_id ->
  (bh_is_fallback header = true \/ bh_timestamp header = as_millis_u64 (s_now s)) ->
  validate_header v header = None.
Proof.
  intros Hqc (Hh & Hgen & Hlow & Hhigh) Hprop Eh Er Eparent Eprop Ets.
  apply header_cases. rewrite Eh, Er, Eprop. unfold should_propose in Hprop.
  apply bool_decide_eq_true in Hprop. split_and!; [done|done| |].
  - unfold parent_of_proposal in Eparent. unfold next_height in *.
    destruct (s_latest_qc s) as [qc|] eqn:Hl; injection Eparent as Ehash ->.
    + destruct (Hqc qc Hl) as [-> Hq]. done.
    + simpl. by apply Hgen.
  - destruct Ets as [?|Ets]; [by left|]. right. rewrite Ets. lia.
Qed.

(** The certificates the runner includes are among those it was given. *)
Lemma built_block_fields storage shard proposer height round parent_hash parent_qc timestamp fb
    root version retry priority txs certs proofs deferred aborted :
  let b := (build_proposal storage shard proposer height round parent_hash parent_qc timestamp fb
              root version retry priority txs certs proofs deferred aborted).1 in
  bh_height (bl_header b) = height /\ bh_round (bl_header b) = round
  /\ (bh_parent_hash (bl_header b), bh_parent_qc (bl_header b)) = (parent_hash, parent_qc)
  /\ bh_proposer (bl_header b) = proposer /\ bh_timestamp (bl_header b) = timestamp
  /\ bh_transaction_root (bl_header b) = compute_transaction_root retry priority txs
  /\ bl_retry_transactions b = retry /\ bl_priority_transactions b = priority
  /\ bl_transactions b = txs /\ bl_deferred b = deferred /\ bl_aborted b = aborted
  /\ bl_commitment_proofs b = proofs
  /\ (bl_certificates b = certs \/ bl_certificates b = []).
Proof. unfold build_proposal. cbv zeta. destruct (_ && _); split_and!; auto. Qed.

Lemma stale_filter_ok (certs : list TransactionCertificate) (d : TransactionDefer) :
  let set : gset Hash := list_to_set (tc_transaction_hash <$> certs) in
  negb (bool_decide (winner_hash d ∈ set)) && negb (bool_decide (td_tx_hash d ∈ set)) = true ->
  (winner_hash d ∉ (tc_transaction_hash <$> certs))
  /\ (td_tx_hash d ∉ (tc_transaction_hash <$> certs)).
Proof.
  cbv zeta. intros [Hw Hl]%andb_true_iff. apply negb_true_iff, bool_decide_eq_false in Hw, Hl.
  rewrite elem_of_list_to_set in Hw, Hl. done.
Qed.

(** A deferral that goes into the block: it passes the deferral check and its
    proof has enough signers. *)
Lemma proposed_deferral (included certs : list TransactionCertificate) deferred height d :
  Forall (fun d => winner_hash d < td_tx_hash d
            /\ cyp_winner_tx_hash (td_proof d) = winner_hash d) deferred ->
  certs = included \/ certs = [] ->
  d ∈ List.filter (fun d =>
        negb (bool_decide (winner_hash d ∈ (list_to_set (tc_transaction_hash <$> included) : gset Hash)))
        && negb (bool_decide (td_tx_hash d ∈ (list_to_set (tc_transaction_hash <$> included) : gset Hash))))
      (set_defer_height height <$> List.filter enough_cycle_signers deferred) ->
  (winner_hash d < td_tx_hash d
   /\ (winner_hash d ∉ (tc_transaction_hash <$> certs))
   /\ (td_tx_hash d ∉ (tc_transaction_hash <$> certs))
   /\ cyp_winner_tx_hash (td_proof d) = winner_hash d)
  /\ quorum_threshold_for_shard (winner_source_shard (td_proof d))
     <= N.of_nat (commitment_signer_count (cyp_winner_commitment (td_proof d))).
Proof.
  intros Hdef Hcerts Hd. apply list_elem_of_In, List.filter_In in Hd as [Hd Hst].
  apply stale_filter_ok in Hst as [Hw Hl].
  apply list_elem_of_In, list_elem_of_fmap in Hd as (d0 & -> & Hd0).
  apply list_elem_of_In, List.filter_In in Hd0 as [Hd0%list_elem_of_In Henough].
  destruct (Forall_elem _ _ _ Hdef Hd0) as [Hlt Heq].
  unfold enough_cycle_signers in Henough. apply negb_true_iff, N.ltb_ge in Henough.
  split; [|done]. destruct Hcerts as [->| ->]; [done|]. split_and!; [done|set_solver|set_solver|done].
Qed.


(** ** The walk along the uncommitted chain *)

(** Heights fall along parent links, as header validation demands. *)
Definition parents_descend (s : BftState) : Prop :=
  forall hash block parent,
    get_block_by_hash s hash = Some block ->
    get_block_by_hash s (bh_parent_hash (bl_header block)) = Some parent ->
    bh_height (bl_header parent) < bh_height (bl_header block).

(** The hashes under which a block is known. *)
Definition known_hashes (s : BftState) : gset Hash :=
  dom (s_certified_blocks s) ∪ dom (s_pending_blocks s)
  ∪ match s_genesis_block s with Some g => {[block_hash g]} | None => ∅ end.

Lemma known_hashes_size s : (size (known_hashes s) <= known_blocks s)%nat.
Proof.
  unfold known_hashes, known_blocks. rewrite !size_union_alt.
  pose proof (subseteq_size (dom (s_pending_blocks s) ∖ dom (s_certified_blocks s))
                (dom (s_pending_blocks s)) ltac:(set_solver)) as Hp.
  rewrite !size_dom in *.
  set (g := match s_genesis_block s with Some _ => _ | None => _ end).
  assert (size (g ∖ (dom (s_certified_blocks s) ∪ dom (s_pending_blocks s))) <= 1)%nat as Hg.
  { etrans; [apply (subseteq_size _ g); set_solver|]. unfold g.
    case_match; rewrite ?size_singleton, ?size_empty; lia. }
  lia.
Qed.

Lemma get_block_known s hash block :
  get_block_by_hash s hash = Some block -> hash ∈ known_hashes s.
Proof.
  unfold get_block_by_hash, known_hashes. rewrite !elem_of_union, !elem_of_dom.
  destruct (s_certified_blocks s !! hash); [by eauto|].
  destruct (s_pending_blocks s !! hash); [by eauto|]. simpl.
  destruct (s_genesis_block s); [|done]. destruct (_ =? _) eqn:Heq; [|done].
  bool_to_prop. set_solver.
Qed.

Lemma parents_descend_check s :
  forallb (fun hash =>
    is_none_or (get_block_by_hash s hash) (fun block =>
      is_none_or (get_block_by_hash s (bh_parent_hash (bl_header block))) (fun parent =>
        bh_height (bl_header parent) <? bh_height (bl_header block))))
    (elements (known_hashes s)) = true ->
  parents_descend s.
Proof.
  intros Hcheck hash block parent Hb Hp. rewrite List.forallb_forall in Hcheck.
  specialize (Hcheck hash). rewrite Hb in Hcheck. simpl in Hcheck. rewrite Hp in Hcheck.
  apply N.ltb_lt, Hcheck, list_elem_of_In, elem_of_elements. by eapply get_block_known.
Qed.

(** The known blocks not above [height]. *)
Definition not_above (s : BftState) (height : u64) : gset Hash :=
  filter (fun hash => is_none_or (get_block_by_hash s hash)
                        (fun b => bh_height (bl_header b) <=? height) = true) (known_hashes s).

Lemma not_above_parent s hash block parent :
  parents_descend s -> get_block_by_hash s hash = Some block ->
  get_block_by_hash s (bh_parent_hash (bl_header block)) = Some parent ->
  (size (not_above s (bh_height (bl_header parent)))
   < size (not_above s (bh_height (bl_header block))))%nat.
Proof.
  intros Hdesc Hb Hp. pose proof (Hdesc _ _ _ Hb Hp) as Hlt. apply subset_size. split.
  - intros h. unfold not_above. rewrite !elem_of_filter. intros [Hh Hk]. split; [|done].
    destruct (get_block_by_hash s h) as [b|]; simpl in *; [|done]. bool_to_prop.
    apply N.leb_le. lia.
  - intros Hsub. specialize (Hsub hash). unfold not_above in Hsub.
    rewrite !elem_of_filter, Hb in Hsub. simpl in Hsub.
    destruct Hsub as [Hle _]; [split; [apply N.leb_refl|by eapply get_block_known]|].
    bool_to_prop. lia.
Qed.

(** More steps than known blocks change nothing. *)
Lemma walk_stable s n m hash :
  parents_descend s ->
  (match get_block_by_hash s hash with
   | Some b => size (not_above s (bh_height (bl_header b))) | None => 0 end <= n)%nat ->
  (match get_block_by_hash s hash with
   | Some b => size (not_above s (bh_height (bl_header b))) | None => 0 end <= m)%nat ->
  qc_chain_cert_hashes n s hash = qc_chain_cert_hashes m s hash.
Proof.
  intros Hdesc. revert m hash. induction n as [|n IH]; intros [|m] hash; simpl;
    destruct (get_block_by_hash s hash) as [b|] eqn:Hb; try done; intros Hn Hm.
  1,2: exfalso; assert (hash ∈ not_above s (bh_height (bl_header b))) as Hin
    by (unfold not_above; rewrite elem_of_filter, Hb; split;
        [apply N.leb_refl|by eapply get_block_known]);
    assert (not_above s (bh_height (bl_header b)) ≡ ∅) as Hempty
      by (apply size_empty_inv; lia); set_solver.
  destruct (_ <=? _); [done|]. f_equal.
  pose proof (not_above_parent s hash b) as Hless.
  apply IH; destruct (get_block_by_hash s (bh_parent_hash _)) as [p|] eqn:Hp; try lia;
    specialize (Hless p Hdesc Hb eq_refl); lia.
Qed.

(** When heights fall along parent links, the set of certificates the
    proposal timer leaves out satisfies the equation of the source's loop,
    which has no bound: the certificates of the block, and those of its
    ancestors, as far as the blocks are known and above the committed
    height. *)
Theorem chain_walk_equation s hash :
  parents_descend s ->
  qc_chain_cert_hashes (known_blocks s) s hash =
  match get_block_by_hash s hash with
  | None => ∅
  | Some block =>
      if bh_height (bl_header block) <=? s_committed_height s then ∅
      else list_to_set (tc_transaction_hash <$> bl_certificates block)
           ∪ qc_chain_cert_hashes (known_blocks s) s (bh_parent_hash (bl_header block))
  end.
Proof.
  intros Hdesc.
  assert (forall h b, get_block_by_hash s h = Some b ->
            (size (not_above s (bh_height (bl_header b))) <= known_blocks s)%nat) as Hsize.
  { intros h b _. etrans; [|apply known_hashes_size]. apply subseteq_size.
    unfold not_above. set_solver. }
  rewrite (walk_stable s _ (S (known_blocks s))) by
    (done || (destruct (get_block_by_hash s hash) as [b|] eqn:Hb; [|lia];
              specialize (Hsize _ _ Hb); lia)).
  reflexivity.
Qed.

(** ** The two-chain rule *)

Definition commit_requests (acts : list Action) : list (Hash * QuorumCertificate) :=
  omap (fun a => match a with
                 | EnqueueInternal (BlockReadyToCommit hash qc) => Some (hash, qc)
                 | _ => None
                 end) acts.

Lemma commit_requests_app a1 a2 :
  commit_requests (a1 ++ a2) = commit_requests a1 ++ commit_requests a2.
Proof. apply omap_app. Qed.

Lemma create_vote_requests hash height round s :
  commit_requests (create_vote hash height round s).2 = [].
Proof.
  unfold create_vote, hseq, hemit. cbv zeta.
  match goal with |- context [on_block_vote_internal ?v ?x] =>
    pose proof (block_vote_batch v x) as Hbatch; destruct (on_block_vote_internal v x) end.
  cbn [snd] in *. rewrite commit_requests_app. simpl.
  induction Hbatch as [|a acts Ha Hall IH]; [done|]. by destruct a.
Qed.

Lemma proposal_timer_requests ready deferred aborted certs proofs s :
  commit_requests (on_proposal_timer ready deferred aborted certs proofs s).2 = [].
Proof.
  unfold on_proposal_timer. destruct (negb _); [done|]. destruct (contains_key _ _); [done|].
  destruct (s_syncing s); [|by destruct (parent_of_proposal s), (parent_state s _)].
  unfold build_and_broadcast_sync_block, build_and_broadcast_empty_block.
  destruct (parent_of_proposal s), (parent_state s _). cbv zeta. unfold hseq, hemit.
  match goal with |- context [create_vote ?h ?a ?b ?x] =>
    pose proof (create_vote_requests h a b x) as Hv; destruct (create_vote h a b x) end.
  cbn [snd] in *. by rewrite !commit_requests_app, Hv.
Qed.

(** When a certificate forms, its parent block, and nothing else, becomes
    ready to commit, exactly when the certificate is not the genesis
    certificate and the parent is above the committed height. *)
Theorem qc_formed_two_chain hash qc ready deferred aborted certs proofs s :
  commit_requests (on_qc_formed hash qc ready deferred aborted certs proofs s).2 =
  if negb (QC.is_genesis qc) && (s_committed_height s + 1 <? qc_height qc)
  then [(qc_parent_block_hash qc, qc)] else [].
Proof.
  unfold on_qc_formed. cbv zeta. set (s1 := adopt_qc qc (record_leader_activity s)).
  assert (s_committed_height s1 = s_committed_height s) as Hc.
  { pose proof (adopt_qc_tip qc (record_leader_activity s)) as Ht. by injection Ht. }
  clearbody s1. unfold hseq, hemit.
  assert (forall b : bool, commit_requests ((if b then on_proposal_timer ready deferred aborted
            certs proofs else hskip) s1).2 = []) as Hnone.
  { intros [|]; [apply proposal_timer_requests|done]. }
  match goal with |- context [if ?b then on_proposal_timer _ _ _ _ _ else hskip] =>
    specialize (Hnone b); destruct ((if b then on_proposal_timer _ _ _ _ _ else hskip) s1) end.
  cbn [snd] in *. rewrite !commit_requests_app, Hnone, app_nil_r.
  assert (commit_requests (match block_to_commit s1 hash with
            | Some block => [PersistBlock block qc] | None => [] end) = []) as -> by (by case_match).
  unfold two_chain_commit, QC.committable_height, QC.committable_hash, QC.has_committable_block.
  rewrite Hc. destruct (QC.is_genesis qc); rewrite ?andb_false_r, ?andb_true_r; simpl; [done|].
  destruct (0 <? qc_height qc) eqn:Hpos; bool_to_prop.
  - destruct (_ <? qc_height qc - 1) eqn:H1', (_ + 1 <? _) eqn:H2'; bool_to_prop; done || lia.
  - rewrite (proj2 (N.ltb_ge _ _)) by lia. done.
Qed.
End proposals.

(** ** Concrete inputs *)

(** Validator 1 leads height 1. *)
Definition leader_start : BftState :=
  @start_fresh sample_crypto (sample_topology 1) 2 default_config sample_genesis.

Definition three_signers : SignerBitfield :=
  foldl (fun bf i => default bf (SignerBitfieldOps.set bf i)) (SignerBitfieldOps.new 4) [0; 1; 2]%nat.

Definition sample_deferral (loser winner : Hash) : TransactionDefer :=
  mk_transaction_defer loser (LivelockCycle winner) 0
    (mk_cycle_proof winner (mk_commitment_proof winner 0 three_signers 0 3 100 [])).

Definition leader_inputs : ReadyTransactions :=
  mk_ready_transactions [] [] [sample_tx 5; sample_tx 8].

Definition leader_storage : JmtStore := mk_jmt_store ZERO (fun root _ => root + 1).

(** Two deferrals are offered; the one whose loser is certified in the block
    is left out. *)
Definition leader_action : Action :=
  default FetchChainMetadata
    ((@on_proposal_timer sample_crypto (sample_topology 1) leader_inputs
        [sample_deferral 30 20; sample_deferral 40 20] []
        [mk_transaction_certificate 40 Accept ∅] ∅ leader_start).2 !! 1%nat).


(** The chain of BftHazards.v, whose second block has one certificate. *)
Lemma chain_walk_equation_witness :
  @qc_chain_cert_hashes sample_crypto (known_blocks root_state) root_state root_hash_2
  = list_to_set [4]
    ∪ @qc_chain_cert_hashes sample_crypto (known_blocks root_state) root_state root_hash_1.
Proof.
  assert (@parents_descend sample_crypto root_state) as Hdesc.
  { apply parents_descend_check. vm_compute; reflexivity. }
  pose proof (@chain_walk_equation sample_crypto root_state root_hash_2 Hdesc) as Heq.
  rewrite Heq. vm_compute; reflexivity.
Defined.
