(* ===== verification/Provisions.v ===== *)
(** * The provision coordinator (crates/provisions/src/state.rs)

    Validators of other shards send signed state ("provisions") for cross-shard
    transactions.  The coordinator buffers them until there are enough for a
    quorum, has the runner verify a whole batch, counts the verified ones per
    source shard, and reports when a shard, and when every required shard, has
    a quorum.  The runner's part, [VerifyAndAggregateProvisions], is here too.

    The theorems: what the coordinator holds in every run, including the runs in
    which transactions are forgotten while a batch is in flight; and what the
    answer to a batch does. *)

From stdpp Require Import base gmap list numbers sorting.
From Stdlib Require Import NArith Lia.
From S2P Require Import Prelude Bitfield Types Encoding Topology Transactions Livelock VoteSet.
From S2P Require Import Core Runner.

Record TxRegistration := mk_tx_registration {
  tr_required_shards : list ShardGroupId;
  tr_quorum_thresholds : gmap ShardGroupId usize;
  tr_registered_at : BlockHeight;
  tr_nodes_by_shard : gmap ShardGroupId (gset NodeId)
}.

Record ProvisionCoordinator := mk_provision_coordinator {
  pc_registered_txs : gmap Hash TxRegistration;
  pc_unverified_provisions :
    gmap (Hash * ShardGroupId) (list (StateProvision * Bls12381G1PublicKey));
  pc_seen_validators : gset (Hash * ValidatorId);
  pc_pending_verification_batches : gset (Hash * ShardGroupId);
  pc_verified_provisions : gmap Hash (gmap ShardGroupId (list StateProvision));
  pc_shards_with_quorum : gmap Hash (gset ShardGroupId);
  pc_quorum_reached : gmap Hash (list StateProvision);
  pc_txs_by_source_shard : gmap ShardGroupId (gset Hash);
  pc_now : Duration
}.

#[export] Instance ProvisionCoordinator_eta : Eta ProvisionCoordinator := fun s =>
  mk_provision_coordinator (pc_registered_txs s) (pc_unverified_provisions s)
    (pc_seen_validators s) (pc_pending_verification_batches s) (pc_verified_provisions s)
    (pc_shards_with_quorum s) (pc_quorum_reached s) (pc_txs_by_source_shard s) (pc_now s).

Definition provisions := handler ProvisionCoordinator Action.

Definition provision_coordinator_new : ProvisionCoordinator :=
  mk_provision_coordinator ∅ ∅ ∅ ∅ ∅ ∅ ∅ ∅ 0.

Definition provisions_set_time (now : Duration) (s : ProvisionCoordinator)
    : ProvisionCoordinator := s <| pc_now := now |>.

(** ** Queries *)

(** The verified provisions of a transaction from a shard, none when there is no entry. *)
Definition verified_from (s : ProvisionCoordinator) (tx_hash : Hash) (shard : ShardGroupId)
    : list StateProvision :=
  match pc_verified_provisions s !! tx_hash with
  | Some by_shard => default [] (by_shard !! shard)
  | None => []
  end.

Definition has_any_verified_provisions (s : ProvisionCoordinator) (tx_hash : Hash) : bool :=
  match pc_verified_provisions s !! tx_hash with
  | Some by_shard =>
      existsb (fun kv => negb (Nat.eqb (length kv.2) 0)) (map_to_list by_shard)
  | None => false
  end.

Definition provisions_has_quorum (s : ProvisionCoordinator) (tx_hash : Hash) : bool :=
  contains_key (pc_quorum_reached s) tx_hash.

Definition get_quorum_provisions (s : ProvisionCoordinator) (tx_hash : Hash)
    : option (list StateProvision) := pc_quorum_reached s !! tx_hash.

Definition txs_with_provisions_from (s : ProvisionCoordinator) (shard : ShardGroupId)
    : option (gset Hash) := pc_txs_by_source_shard s !! shard.

Definition provision_nodes (s : ProvisionCoordinator) (tx_hash : Hash) (shard : ShardGroupId)
    : gset NodeId :=
  list_to_set (flat_map (fun p => filter_map entry_node_id (sp_entries p))
                 (verified_from s tx_hash shard)).

Definition is_registered (s : ProvisionCoordinator) (tx_hash : Hash) : bool :=
  contains_key (pc_registered_txs s) tx_hash.

Definition get_registration (s : ProvisionCoordinator) (tx_hash : Hash) : option TxRegistration :=
  pc_registered_txs s !! tx_hash.

Definition has_verified_provision_from (s : ProvisionCoordinator) (tx_hash : Hash)
    (validator_id : ValidatorId) : bool :=
  match pc_verified_provisions s !! tx_hash with
  | Some by_shard =>
      existsb (fun kv => existsb (fun p => sp_validator_id p =? validator_id) kv.2)
        (map_to_list by_shard)
  | None => false
  end.

Definition check_shard_quorum (s : ProvisionCoordinator) (tx_hash : Hash) (shard : ShardGroupId)
    : bool :=
  match pc_registered_txs s !! tx_hash with
  | None => false
  | Some registration =>
      match tr_quorum_thresholds registration !! shard with
      | None => false
      | Some threshold => Nat.leb threshold (length (verified_from s tx_hash shard))
      end
  end.

Definition shard_has_quorum (s : ProvisionCoordinator) (tx_hash : Hash) (shard : ShardGroupId)
    : bool := bool_decide (shard ∈ mm_get (pc_shards_with_quorum s) tx_hash).

Definition all_shards_have_quorum (s : ProvisionCoordinator) (tx_hash : Hash) : bool :=
  match pc_registered_txs s !! tx_hash with
  | None => false
  | Some registration =>
      match pc_shards_with_quorum s !! tx_hash with
      | None => false
      | Some shards_with_quorum =>
          forallb (fun shard => bool_decide (shard ∈ shards_with_quorum))
            (tr_required_shards registration)
      end
  end.

Definition collect_all_quorum_provisions (s : ProvisionCoordinator) (tx_hash : Hash)
    : list StateProvision :=
  match pc_registered_txs s !! tx_hash with
  | None => []
  | Some registration =>
      filter_map (fun shard => head (verified_from s tx_hash shard))
        (tr_required_shards registration)
  end.

(** ** Cleanup *)

Definition cleanup_tx (tx_hash : Hash) (s : ProvisionCoordinator) : ProvisionCoordinator :=
  let s := s <| pc_registered_txs ::= delete tx_hash |>
             <| pc_seen_validators ::= hs_retain (fun hv => negb (hv.1 =? tx_hash)) |>
             <| pc_unverified_provisions ::= hm_retain (fun k _ => negb (k.1 =? tx_hash)) |>
             <| pc_pending_verification_batches ::= hs_retain (fun k => negb (k.1 =? tx_hash)) |> in
  let s :=
    match pc_verified_provisions s !! tx_hash with
    | Some by_shard =>
        s <| pc_verified_provisions ::= delete tx_hash |>
          <| pc_txs_by_source_shard ::= fun m =>
               foldl (fun m shard => mm_discard shard tx_hash m) m (map_to_list by_shard).*1 |>
    | None => s
    end in
  s <| pc_shards_with_quorum ::= delete tx_hash |>
    <| pc_quorum_reached ::= delete tx_hash |>.

Definition on_tx_registered (tx_hash : Hash) (registration : TxRegistration) : provisions :=
  hupd (fun s => s <| pc_registered_txs ::= <[tx_hash := registration]> |>).

Definition on_tx_completed (tx_hash : Hash) : provisions := hupd (cleanup_tx tx_hash).
Definition on_tx_aborted (tx_hash : Hash) : provisions := hupd (cleanup_tx tx_hash).

Definition provisions_on_block_committed (block : Block) : provisions := hupd (fun s =>
  foldl (fun s h => cleanup_tx h s) s
    ((tc_transaction_hash <$> bl_certificates block) ++ (ta_tx_hash <$> bl_aborted block)
     ++ (td_tx_hash <$> bl_deferred block))).

Section coordinator.
Context `{Crypto} `{T : Topology}.

(** ** Receiving provisions *)

Definition maybe_trigger_verification (tx_hash : Hash) (source_shard : ShardGroupId)
    : provisions := fun s =>
  if bool_decide ((tx_hash, source_shard) ∈ pc_pending_verification_batches s) then (s, [])
  else
    let threshold :=
      default 0%nat
        (pc_registered_txs s !! tx_hash ≫= fun r => tr_quorum_thresholds r !! source_shard) in
    if Nat.eqb threshold 0 then (s, [])
    else
      let verified_count := length (verified_from s tx_hash source_shard) in
      let unverified := pc_unverified_provisions s !! (tx_hash, source_shard) in
      let unverified_count := match unverified with Some p => length p | None => 0%nat end in
      if Nat.ltb (verified_count + unverified_count) threshold then (s, [])
      else
        match unverified with
        | None => (s, [])
        | Some provisions_with_keys =>
            let s := s <| pc_unverified_provisions ::= delete (tx_hash, source_shard) |> in
            match provisions_with_keys with
            | [] => (s, [])
            | (first, _) :: _ =>
                (s <| pc_pending_verification_batches ::= union {[(tx_hash, source_shard)]} |>,
                 [VerifyAndAggregateProvisions tx_hash source_shard (sp_block_height first)
                    (sp_block_timestamp first) (sp_entries first) provisions_with_keys.*1
                    provisions_with_keys.*2 (committee_size_for_shard source_shard)])
            end
        end.

(** A transaction nobody registered gets the default threshold of the source shard. *)
Definition auto_registration (source_shard : ShardGroupId) : TxRegistration :=
  mk_tx_registration [source_shard]
    {[source_shard := N.to_nat (quorum_threshold_for_shard source_shard)]} 0 ∅.

Definition on_provision_received (provision : StateProvision) : provisions := fun s =>
  let tx_hash := sp_transaction_hash provision in
  let validator_id := sp_validator_id provision in
  let source_shard := sp_source_shard provision in
  let s :=
    if contains_key (pc_registered_txs s) tx_hash then s
    else s <| pc_registered_txs ::= <[tx_hash := auto_registration source_shard]> |> in
  if bool_decide ((tx_hash, validator_id) ∈ pc_seen_validators s) then (s, [])
  else if has_verified_provision_from s tx_hash validator_id then (s, [])
  else if shard_has_quorum s tx_hash source_shard then (s, [])
  else
    match public_key validator_id with
    | None => (s, [])
    | Some pk =>
        let s := s <| pc_seen_validators ::= union {[(tx_hash, validator_id)]} |>
                   <| pc_unverified_provisions ::= fun m =>
                        <[(tx_hash, source_shard) :=
                            default [] (m !! (tx_hash, source_shard)) ++ [(provision, pk)]]> m |> in
        maybe_trigger_verification tx_hash source_shard s
    end.

(** ** The answer to a batch *)

(** [verified_provisions.entry(tx).or_default().entry(shard).or_default().push(p)]. *)
Definition push_verified_provision (tx_hash : Hash) (source_shard : ShardGroupId)
    (m : gmap Hash (gmap ShardGroupId (list StateProvision))) (p : StateProvision)
    : gmap Hash (gmap ShardGroupId (list StateProvision)) :=
  let by_shard := default ∅ (m !! tx_hash) in
  <[tx_hash := <[source_shard := default [] (by_shard !! source_shard) ++ [p]]> by_shard]> m.

(** Every required shard has a quorum: [ProvisioningComplete]. *)
Definition complete_provisioning (tx_hash : Hash) : provisions := fun s =>
  if all_shards_have_quorum s tx_hash then
    let all_provisions := collect_all_quorum_provisions s tx_hash in
    (s <| pc_quorum_reached ::= <[tx_hash := all_provisions]> |>,
     [EnqueueInternal (ProvisioningComplete tx_hash all_provisions)])
  else (s, []).

(** The first quorum of a source shard. *)
Definition record_shard_quorum (tx_hash : Hash) (source_shard : ShardGroupId)
    (commitment_proof : option CommitmentProof) : provisions :=
  hupd (fun s => s <| pc_shards_with_quorum ::= mm_insert tx_hash source_shard |>) ;>
  hemit match commitment_proof with
        | Some proof => [EnqueueInternal (ProvisionQuorumReached tx_hash source_shard proof)]
        | None => []
        end ;>
  complete_provisioning tx_hash.

Definition on_provisions_verified_and_aggregated (tx_hash : Hash) (source_shard : ShardGroupId)
    (verified_provisions : list StateProvision) (commitment_proof : option CommitmentProof)
    : provisions := fun s =>
  let s := s <| pc_pending_verification_batches ::= fun X => X ∖ {[(tx_hash, source_shard)]} |> in
  match verified_provisions with
  | [] => (s, [])
  | _ :: _ =>
      let s := s <| pc_verified_provisions ::= fun m =>
                      foldl (push_verified_provision tx_hash source_shard) m verified_provisions |>
                 <| pc_txs_by_source_shard ::= mm_insert source_shard tx_hash |> in
      if check_shard_quorum s tx_hash source_shard then
        if shard_has_quorum s tx_hash source_shard then (s, [])
        else record_shard_quorum tx_hash source_shard commitment_proof s
      else maybe_trigger_verification tx_hash source_shard s
  end.

(** ** Proofs for priority transactions *)

(** The outer [None] is the panic of [expect] when the aggregation fails, or of
    [SignerBitfield::set]. *)
Definition build_commitment_proof `{HashIter} (s : ProvisionCoordinator) (tx_hash : Hash)
    : option (option CommitmentProof) :=
  match pc_verified_provisions s !! tx_hash with
  | None => Some None
  | Some by_shard =>
      match list_find (fun kv => length kv.2 <> 0%nat) (hm_iter by_shard) with
      | None => Some None
      | Some (_, (source_shard, provisions)) =>
          match provisions with
          | [] => Some None
          | first_provision :: _ =>
              let num_validators := length global_validator_set in
              let indices :=
                filter (fun i => (i < num_validators)%nat)
                  ((fun p => N.to_nat (sp_validator_id p)) <$> provisions) in
              signers ← SignerBitfieldOps.set_all (SignerBitfieldOps.new num_validators) indices;
              aggregated_signature ← aggregate_signatures (sp_signature <$> provisions);
              Some (Some (mk_commitment_proof tx_hash source_shard signers aggregated_signature
                            (sp_block_height first_provision) (sp_block_timestamp first_provision)
                            (sp_entries first_provision)))
          end
      end
  end.

(** ** The runner: VerifyAndAggregateProvisions *)

Definition committee_indices (source_shard : ShardGroupId) (ps : list StateProvision)
    : list usize :=
  filter_map (fun p => committee_index_for_shard source_shard (sp_validator_id p)) ps.

(** The bits of the committee members among [ps], and their signatures'
    aggregate; [None] is the panic of [SignerBitfield::set]. *)
Definition aggregate_proof (tx_hash : Hash) (source_shard : ShardGroupId)
    (block_height : BlockHeight) (block_timestamp : u64) (entries : list StateEntry)
    (committee_size : usize) (ps : list StateProvision) : option CommitmentProof :=
  signers ← SignerBitfieldOps.set_all (SignerBitfieldOps.new committee_size)
              (committee_indices source_shard ps);
  Some (mk_commitment_proof tx_hash source_shard signers
          (default zero_bls_signature (aggregate_signatures (sp_signature <$> ps)))
          block_height block_timestamp entries).

Definition batch_message (ps : list StateProvision) : bytes :=
  match ps with p :: _ => provision_signing_message p | [] => [] end.

(** The provisions that pass: all of them, or those that verify one by one,
    in either case against the message of the first. *)
Definition verified_of_provisions (ps : list StateProvision)
    (public_keys : list Bls12381G1PublicKey) : list StateProvision :=
  if batch_verify_bls_same_message (batch_message ps) (sp_signature <$> ps) public_keys then ps
  else fst <$> filter (fun pk => verify_bls12381_v1 (batch_message ps) pk.2 (sp_signature pk.1) = true)
                 (zip ps public_keys).

(** The event [ProvisionsVerifiedAndAggregated]; [None] is a panic. *)
Definition verify_and_aggregate_provisions (tx_hash : Hash) (source_shard : ShardGroupId)
    (block_height : BlockHeight) (block_timestamp : u64) (entries : list StateEntry)
    (ps : list StateProvision) (public_keys : list Bls12381G1PublicKey) (committee_size : usize)
    : option (list StateProvision * option CommitmentProof) :=
  let verified := verified_of_provisions ps public_keys in
  if batch_verify_bls_same_message (batch_message ps) (sp_signature <$> ps) public_keys
     || negb (Nat.eqb (length verified) 0)
  then proof ← aggregate_proof tx_hash source_shard block_height block_timestamp entries
                 committee_size verified;
       Some (verified, Some proof)
  else Some (verified, None).
End coordinator.

(** ** What the handlers do to the stored provisions *)

Notation Batch_key := (Hash * ShardGroupId)%type (only parsing).

Definition unverified_at (s : ProvisionCoordinator) (k : Batch_key)
    : list (StateProvision * Bls12381G1PublicKey) :=
  default [] (pc_unverified_provisions s !! k).

(** The reverse index lists the transactions that have verified provisions. *)
Definition index_exact (s : ProvisionCoordinator) : Prop := forall tx sh,
  tx ∈ mm_get (pc_txs_by_source_shard s) sh <-> verified_from s tx sh <> [].

Section handler_lemmas.
Implicit Types (s : ProvisionCoordinator) (tx : Hash) (sh : ShardGroupId).

Lemma verified_from_eq s s' :
  pc_verified_provisions s = pc_verified_provisions s' ->
  forall tx sh, verified_from s tx sh = verified_from s' tx sh.
Proof. intros Heq tx sh. unfold verified_from. by rewrite Heq. Qed.

Lemma verified_from_push s s' tx sh vs :
  pc_verified_provisions s' = foldl (push_verified_provision tx sh) (pc_verified_provisions s) vs ->
  forall tx' sh', verified_from s' tx' sh'
  = if decide (tx' = tx /\ sh' = sh) then verified_from s tx sh ++ vs else verified_from s tx' sh'.
Proof.
  unfold verified_from. intros -> tx' sh'. generalize (pc_verified_provisions s) as m.
  induction vs as [|p vs IH]; intros m; cbn [foldl].
  - case_decide as Hd; [destruct Hd as [-> ->]; by rewrite app_nil_r|done].
  - rewrite IH. unfold push_verified_provision at 1 2. case_decide as Hd.
    + destruct Hd as [-> ->]. rewrite lookup_insert_eq, lookup_insert_eq. simpl.
      destruct (m !! tx) as [bs|]; simpl; by rewrite ?lookup_empty, <- ?app_assoc.
    + destruct (decide (tx' = tx)) as [->|Hne]; [|by rewrite lookup_insert_ne].
      assert (sh' <> sh) by naive_solver. rewrite lookup_insert_eq, lookup_insert_ne by done.
      by destruct (m !! tx).
Qed.

(** *** Cleanup *)

Lemma elem_of_discard_all tx shs m tx' sh' :
  tx' ∈ mm_get (foldl (fun m sh => mm_discard sh tx m) m shs) sh'
  <-> tx' ∈ mm_get m sh' /\ ~ (tx' = tx /\ sh' ∈ shs).
Proof.
  revert m. induction shs as [|sh shs IH]; intros m; cbn [foldl].
  - set_solver.
  - rewrite IH, elem_of_mm_discard. set_solver.
Qed.

Lemma cleanup_verified s tx tx' sh :
  verified_from (cleanup_tx tx s) tx' sh = if decide (tx' = tx) then [] else verified_from s tx' sh.
Proof.
  unfold verified_from, cleanup_tx. cbn. destruct (pc_verified_provisions s !! tx) as [bs|] eqn:E; cbn.
  - case_decide as Hd; [subst; by rewrite lookup_delete_eq|by rewrite lookup_delete_ne].
  - case_decide as Hd; [subst; by rewrite E|done].
Qed.

Lemma cleanup_unverified s tx k :
  unverified_at (cleanup_tx tx s) k = if decide (k.1 = tx) then [] else unverified_at s k.
Proof.
  unfold unverified_at, cleanup_tx. cbn. replace (pc_unverified_provisions _) with
    (hm_retain (fun k _ => negb (k.1 =? tx)) (pc_unverified_provisions s)) by (by case_match).
  destruct (hm_retain _ _ !! k) as [l|] eqn:E; simpl.
  - apply hm_retain_Some in E as [-> Hk]. bool_to_prop. by rewrite decide_False.
  - case_decide as Hd; [done|]. destruct (pc_unverified_provisions s !! k) eqn:E2; [|done].
    assert (hm_retain (fun k _ => negb (k.1 =? tx)) (pc_unverified_provisions s) !! k = Some l) as Hx.
    { apply hm_retain_Some. split; [done|]. by apply negb_true_iff, N.eqb_neq. }
    by rewrite E in Hx.
Qed.

Lemma cleanup_seen s tx hv :
  hv ∈ pc_seen_validators (cleanup_tx tx s) <-> hv ∈ pc_seen_validators s /\ hv.1 <> tx.
Proof.
  unfold cleanup_tx. cbn. destruct (pc_verified_provisions s !! tx); cbn;
    rewrite elem_of_hs_retain, negb_true_iff, N.eqb_neq; done.
Qed.

Lemma cleanup_pending s tx k :
  k ∈ pc_pending_verification_batches (cleanup_tx tx s) <->
  k ∈ pc_pending_verification_batches s /\ k.1 <> tx.
Proof.
  unfold cleanup_tx. cbn. destruct (pc_verified_provisions s !! tx); cbn;
    rewrite elem_of_hs_retain, negb_true_iff, N.eqb_neq; done.
Qed.

Lemma cleanup_index s tx : index_exact s -> index_exact (cleanup_tx tx s).
Proof.
  intros Hi tx' sh. rewrite cleanup_verified. unfold cleanup_tx. cbn.
  destruct (pc_verified_provisions s !! tx) as [bs|] eqn:E; cbn.
  - rewrite elem_of_discard_all, (Hi tx' sh). case_decide as Hd; [subst tx'|naive_solver].
    split; [|done]. intros [Hv Hn]. destruct Hn. split; [done|].
    unfold verified_from in Hv. rewrite E in Hv. destruct (bs !! sh) as [l|] eqn:E2; [|done].
    apply list_elem_of_fmap. exists (sh, l). split; [done|]. by apply elem_of_map_to_list.
  - rewrite (Hi tx' sh). case_decide as Hd; [subst tx'|done]. unfold verified_from. by rewrite E.
Qed.
End handler_lemmas.

(** ** Batches in flight *)

Definition batch_key (a : Action) : option Batch_key :=
  match a with
  | VerifyAndAggregateProvisions tx sh _ _ _ _ _ _ => Some (tx, sh)
  | _ => None
  end.

Definition batch_items (a : Action) : list (StateProvision * Bls12381G1PublicKey) :=
  match a with
  | VerifyAndAggregateProvisions _ _ _ _ _ ps pks _ => zip ps pks
  | _ => []
  end.

(** The coordinator with the batches the runner has not answered yet. *)
Record PFlow := mk_pflow { pf_state : ProvisionCoordinator; pf_inflight : list Action }.

Definition in_flight_at (fl : list Action) (k : Batch_key)
    : list (StateProvision * Bls12381G1PublicKey) :=
  flat_map (fun a => if decide (batch_key a = Some k) then batch_items a else []) fl.

Definition batches (acts : list Action) : list Action :=
  filter (fun a => batch_key a <> None) acts.

Section flow.
Context `{Crypto} `{T : Topology}.
Implicit Types (s : ProvisionCoordinator) (fl : list Action) (k : Batch_key).

(** A batch as [maybe_trigger_verification] builds it from the buffered items. *)
Definition batch_of k (items : list (StateProvision * Bls12381G1PublicKey)) : Action :=
  match items with
  | [] => FetchChainMetadata
  | (first, _) :: _ =>
      VerifyAndAggregateProvisions k.1 k.2 (sp_block_height first) (sp_block_timestamp first)
        (sp_entries first) items.*1 items.*2 (committee_size_for_shard k.2)
  end.

Lemma batch_of_items k items : items <> [] -> batch_items (batch_of k items) = items.
Proof. intros Hne. destruct items as [|[p pk] items]; [done|]. apply zip_fst_snd. Qed.

Lemma batch_of_key k items : items <> [] -> batch_key (batch_of k items) = Some k.
Proof. destruct items as [|[p pk] items]; [done|]. by destruct k. Qed.

Lemma maybe_trigger_cases tx sh s :
  let '(s', acts) := maybe_trigger_verification tx sh s in
  pc_registered_txs s' = pc_registered_txs s /\
  pc_seen_validators s' = pc_seen_validators s /\
  pc_verified_provisions s' = pc_verified_provisions s /\
  pc_txs_by_source_shard s' = pc_txs_by_source_shard s /\
  pc_shards_with_quorum s' = pc_shards_with_quorum s /\
  ((acts = [] /\ (forall k, unverified_at s' k = unverified_at s k) /\
    pc_pending_verification_batches s' = pc_pending_verification_batches s) \/
   (unverified_at s (tx, sh) <> [] /\ ((tx, sh) ∉ pc_pending_verification_batches s) /\
    acts = [batch_of (tx, sh) (unverified_at s (tx, sh))] /\
    (forall k, unverified_at s' k = if decide (k = (tx, sh)) then [] else unverified_at s k) /\
    pc_pending_verification_batches s' = {[(tx, sh)]} ∪ pc_pending_verification_batches s)).
Proof.
  unfold maybe_trigger_verification. case_bool_decide as Hp.
  { split_and!; [done..|left; by split_and!]. }
  destruct (Nat.eqb _ 0). { split_and!; [done..|left; by split_and!]. }
  destruct (Nat.ltb _ _). { split_and!; [done..|left; by split_and!]. }
  destruct (pc_unverified_provisions s !! (tx, sh)) as [items|] eqn:E.
  2: { split_and!; [done..|left; by split_and!]. }
  assert (forall k, default [] (delete (tx, sh) (pc_unverified_provisions s) !! k)
           = if decide (k = (tx, sh)) then [] else unverified_at s k) as Hd.
  { intros k. case_decide as Hk; [subst; by rewrite lookup_delete_eq|].
    by rewrite lookup_delete_ne. }
  destruct items as [|[p pk] items]; cbn.
  - split_and!; [done..|left]. split_and!; [done| |done]. intros k. unfold unverified_at at 1. cbn.
    rewrite Hd. case_decide; [subst|done]. unfold unverified_at. by rewrite E.
  - split_and!; [done..|right]. unfold unverified_at at 1 2. rewrite E.
    split_and!; [done|done|done| |done]. exact Hd.
Qed.

(** ** Runs *)

(** The transactions a committed block removes. *)
Definition block_removes (block : Block) : list Hash :=
  (tc_transaction_hash <$> bl_certificates block) ++ (ta_tx_hash <$> bl_aborted block)
  ++ (td_tx_hash <$> bl_deferred block).

(** No batch of the transaction is in flight. *)
Definition quiet fl (tx : Hash) : Prop := Forall (fun a => forall k, batch_key a = Some k -> k.1 <> tx) fl.

(** One call of the coordinator, with the runner answering batches in any order.
    Transactions are removed only when none of their batches is in flight. *)
Inductive pflow_step : PFlow -> PFlow -> Prop :=
  | pf_receive s fl p :
      let r := on_provision_received p s in
      pflow_step (mk_pflow s fl) (mk_pflow r.1 (fl ++ batches r.2))
  | pf_register s fl tx registration :
      pflow_step (mk_pflow s fl) (mk_pflow (on_tx_registered tx registration s).1 fl)
  | pf_completed s fl tx :
      quiet fl tx -> pflow_step (mk_pflow s fl) (mk_pflow (on_tx_completed tx s).1 fl)
  | pf_aborted s fl tx :
      quiet fl tx -> pflow_step (mk_pflow s fl) (mk_pflow (on_tx_aborted tx s).1 fl)
  | pf_block s fl block :
      Forall (quiet fl) (block_removes block) ->
      pflow_step (mk_pflow s fl) (mk_pflow (provisions_on_block_committed block s).1 fl)
  | pf_answer s fl rest tx sh h ts es ps pks n vs proof :
      fl ≡ₚ VerifyAndAggregateProvisions tx sh h ts es ps pks n :: rest ->
      verify_and_aggregate_provisions tx sh h ts es ps pks n = Some (vs, proof) ->
      let r := on_provisions_verified_and_aggregated tx sh vs proof s in
      pflow_step (mk_pflow s fl) (mk_pflow r.1 (rest ++ batches r.2)).

Inductive pflow_run : PFlow -> Prop :=
  | pf_init : pflow_run (mk_pflow provision_coordinator_new [])
  | pf_next f f' : pflow_run f -> pflow_step f f' -> pflow_run f'.

(** Everything held for a transaction and shard: buffered, in flight, verified. *)
Definition held s fl k : list StateProvision :=
  (unverified_at s k).*1 ++ (in_flight_at fl k).*1 ++ verified_from s k.1 k.2.

Definition known_key (pp : StateProvision * Bls12381G1PublicKey) : Prop :=
  public_key (sp_validator_id pp.1) = Some pp.2.

Record pflow_inv s fl : Prop := {
  pi_nodup k : NoDup (sp_validator_id <$> held s fl k);
  pi_held k : Forall (fun p => sp_transaction_hash p = k.1 /\ sp_source_shard p = k.2 /\
                        (k.1, sp_validator_id p) ∈ pc_seen_validators s /\
                        is_Some (public_key (sp_validator_id p))) (held s fl k);
  pi_keys k : Forall known_key (unverified_at s k ++ in_flight_at fl k);
  pi_batches : Forall (fun a => exists k items, items <> [] /\ a = batch_of k items) fl;
  pi_one : NoDup (batch_key <$> fl);
  pi_flag k : k ∈ pc_pending_verification_batches s <-> Some k ∈ batch_key <$> fl;
  pi_index : index_exact s
}.

Lemma in_flight_at_app fl1 fl2 k :
  in_flight_at (fl1 ++ fl2) k = in_flight_at fl1 k ++ in_flight_at fl2 k.
Proof. apply flat_map_app. Qed.

Lemma in_flight_at_perm fl1 fl2 k : fl1 ≡ₚ fl2 -> in_flight_at fl1 k ≡ₚ in_flight_at fl2 k.
Proof. intros Hp. unfold in_flight_at. by rewrite Hp. Qed.

Lemma in_flight_at_batch k items k' :
  items <> [] -> in_flight_at [batch_of k items] k' = if decide (k' = k) then items else [].
Proof.
  intros Hne. unfold in_flight_at. cbn [flat_map].
  rewrite batch_of_key, batch_of_items, app_nil_r by done.
  repeat case_decide; naive_solver.
Qed.

(** The invariant is about the multiset of batches. *)
Lemma pflow_inv_perm s fl fl' : fl ≡ₚ fl' -> pflow_inv s fl -> pflow_inv s fl'.
Proof.
  intros Hp [Hn Hh Hk Hb Ho Hf Hi].
  assert (forall k, held s fl k ≡ₚ held s fl' k) as Hheld.
  { intros k. unfold held. by rewrite (in_flight_at_perm _ _ k Hp). }
  split; try done.
  - intros k. by rewrite <- (Hheld k).
  - intros k. by rewrite <- (Hheld k).
  - intros k. by rewrite <- (in_flight_at_perm _ _ k Hp).
  - by rewrite <- Hp.
  - by rewrite <- Hp.
  - intros k. by rewrite <- Hp.
Qed.

(** Sending the buffered provisions off moves them, and nothing else. *)
Lemma trigger_inv s fl tx sh :
  pflow_inv s fl ->
  let r := maybe_trigger_verification tx sh s in pflow_inv r.1 (fl ++ batches r.2).
Proof.
  intros Hinv r. pose proof (maybe_trigger_cases tx sh s) as Hc. fold r in Hc.
  destruct r as [s' acts]. destruct Hc as (_ & Hseen & Hver & Hidx & _ & Hc). cbn [fst snd].
  destruct Hinv as [Hn Hh Hk Hb Ho Hf Hi].
  pose proof (verified_from_eq _ _ Hver) as Hvf.
  assert (index_exact s') as Hi'.
  { intros tx' sh'. rewrite Hidx, Hvf. apply Hi. }
  destruct Hc as [(-> & Hu & Hp)|(Hne & Hnp & -> & Hu & Hp)].
  - rewrite app_nil_r.
    assert (forall k, held s' fl k = held s fl k) as Hheld.
    { intros k. unfold held. by rewrite Hu, Hvf. }
    split; try done; intros k; rewrite ?Hheld, ?Hseen, ?Hu, ?Hp; auto.
  - assert (batches [batch_of (tx, sh) (unverified_at s (tx, sh))]
            = [batch_of (tx, sh) (unverified_at s (tx, sh))]) as ->.
    { unfold batches. rewrite filter_cons_True; [done|]. by rewrite batch_of_key. }
    set (b := batch_of (tx, sh) (unverified_at s (tx, sh))).
    assert (forall k, unverified_at s' k ++ in_flight_at (fl ++ [b]) k
                      ≡ₚ unverified_at s k ++ in_flight_at fl k) as Hall.
    { intros k. rewrite in_flight_at_app. unfold b. rewrite in_flight_at_batch, Hu by done.
      case_decide as Hd; [subst k; by rewrite app_nil_l, Permutation_app_comm|].
      by rewrite app_nil_r. }
    assert (forall k, held s' (fl ++ [b]) k ≡ₚ held s fl k) as Hheld.
    { intros k. unfold held. by rewrite !app_assoc, <- !fmap_app, Hall, Hvf. }
    split; try done.
    + intros k. by rewrite Hheld.
    + intros k. rewrite Hheld, Hseen. apply Hh.
    + intros k. by rewrite Hall.
    + apply Forall_app. split; [done|]. constructor; [|constructor]. by eexists _, _.
    + rewrite fmap_app. apply NoDup_app. split_and!; [done| |apply NoDup_singleton].
      intros x Hx. rewrite list_elem_of_fmap. intros (a & -> & Ha%list_elem_of_singleton).
      subst a. unfold b in Hx. rewrite batch_of_key in Hx by done. by apply Hf in Hx.
    + intros k. rewrite Hp, fmap_app, elem_of_union, elem_of_app, elem_of_singleton, Hf.
      unfold b. cbn [fmap list_fmap]. rewrite batch_of_key, list_elem_of_singleton by done.
      naive_solver.
Qed.

(** Registrations do not matter to the invariant. *)
Lemma registered_inv s fl f : pflow_inv s fl -> pflow_inv (s <| pc_registered_txs ::= f |>) fl.
Proof. intros [Hn Hh Hk Hb Ho Hf Hi]. by split. Qed.

Lemma cleanup_tx_inv s fl tx : quiet fl tx -> pflow_inv s fl -> pflow_inv (cleanup_tx tx s) fl.
Proof.
  intros Hq [Hn Hh Hk Hb Ho Hf Hi].
  assert (forall k, k.1 = tx -> in_flight_at fl k = []) as Hnone.
  { intros k Hkt. unfold in_flight_at. clear -Hq Hkt.
    induction Hq as [|a fl Ha Hq IH]; [done|]. cbn [flat_map]. rewrite IH.
    case_decide as Hd; [by apply Ha in Hd|done]. }
  assert (forall k, held (cleanup_tx tx s) fl k = if decide (k.1 = tx) then [] else held s fl k)
    as Hheld.
  { intros k. unfold held. rewrite cleanup_unverified, cleanup_verified.
    case_decide; [by rewrite Hnone|done]. }
  split; try done.
  - intros k. rewrite Hheld. case_decide; [constructor|done].
  - intros k. rewrite Hheld. case_decide; [constructor|].
    eapply Forall_impl; [apply Hh|]. cbv beta. intros p (? & ? & ? & ?).
    rewrite cleanup_seen. by split_and!.
  - intros k. rewrite cleanup_unverified. case_decide; [|done]. by rewrite Hnone.
  - intros k. rewrite cleanup_pending, Hf. split; [by intros []|]. intros Hin. split; [done|].
    apply list_elem_of_fmap in Hin as (a & Heq & Ha).
    pose proof (Forall_elem _ _ _ Hq Ha) as Hx. cbn in Hx. by apply Hx.
  - by apply cleanup_index.
Qed.

Lemma cleanup_all_inv hs s fl :
  Forall (quiet fl) hs -> pflow_inv s fl -> pflow_inv (foldl (fun s h => cleanup_tx h s) s hs) fl.
Proof.
  intros Hq. revert s. induction Hq as [|h hs Hh Hq IH]; intros s Hs; cbn [foldl]; [done|].
  by apply IH, cleanup_tx_inv.
Qed.

(** Buffering a provision of a validator that was not seen. *)
Lemma buffer_inv s fl p pk :
  let k := (sp_transaction_hash p, sp_source_shard p) in
  (k.1, sp_validator_id p) ∉ pc_seen_validators s -> public_key (sp_validator_id p) = Some pk ->
  pflow_inv s fl ->
  pflow_inv (s <| pc_seen_validators ::= union {[(k.1, sp_validator_id p)]} |>
               <| pc_unverified_provisions ::= fun m =>
                    <[k := default [] (m !! k) ++ [(p, pk)]]> m |>) fl.
Proof.
  intros k Hns Hpk [Hn Hh Hk Hb Ho Hf Hi]. set (s' := upd _ _).
  assert (forall k', unverified_at s' k' =
            unverified_at s k' ++ if decide (k' = k) then [(p, pk)] else []) as Hu.
  { intros k'. unfold unverified_at, s'. cbn. case_decide as Hd.
    - subst. by rewrite lookup_insert_eq.
    - by rewrite lookup_insert_ne, app_nil_r. }
  assert (forall k', held s' fl k' ≡ₚ (if decide (k' = k) then [p] else []) ++ held s fl k') as Hheld.
  { intros k'. unfold held. rewrite Hu. case_decide.
    - rewrite fmap_app, <- app_assoc. apply Permutation_app_swap_app.
    - by rewrite app_nil_r. }
  split; try done.
  - intros k'. rewrite Hheld. case_decide as Hd; [|apply Hn]. cbn [app]. rewrite fmap_cons.
    apply NoDup_cons. split; [|apply Hn]. intros (q & Heq & Hq)%list_elem_of_fmap.
    pose proof (Forall_elem _ _ _ (Hh k') Hq) as (_ & _ & Hs & _). subst k'. by rewrite <- Heq in Hs.
  - intros k'. rewrite Hheld. apply Forall_app. split.
    + case_decide as Hd; [|constructor]. subst k'. constructor; [|constructor].
      unfold s'. cbn. split_and!; [done|done|set_solver|by eexists].
    + eapply Forall_impl; [apply Hh|]. unfold s'. cbn. intros q (? & ? & ? & ?).
      split_and!; [done|done|set_solver|done].
  - intros k'. rewrite Hu, <- app_assoc. specialize (Hk k'). apply Forall_app in Hk as [Hk1 Hk2].
    rewrite !Forall_app. split_and!; [done| |done]. case_decide; [|constructor].
    by constructor.
Qed.

Lemma provision_received_inv s fl p :
  pflow_inv s fl ->
  let r := on_provision_received p s in pflow_inv r.1 (fl ++ batches r.2).
Proof.
  intros Hinv. unfold on_provision_received.
  assert (pflow_inv (if contains_key (pc_registered_txs s) (sp_transaction_hash p) then s
            else s <| pc_registered_txs ::= <[sp_transaction_hash p :=
                        auto_registration (sp_source_shard p)]> |>) fl) as Hr.
  { case_match; [done|by apply registered_inv]. }
  revert Hr. generalize (if contains_key (pc_registered_txs s) (sp_transaction_hash p) then s
            else s <| pc_registered_txs ::= <[sp_transaction_hash p :=
                        auto_registration (sp_source_shard p)]> |>) as s1.
  intros s1 Hr. cbn zeta. case_bool_decide as Hseen; [by rewrite app_nil_r|].
  destruct (has_verified_provision_from _ _ _); [by rewrite app_nil_r|].
  destruct (shard_has_quorum _ _ _); [by rewrite app_nil_r|].
  destruct (public_key (sp_validator_id p)) as [pk|] eqn:Hpk; [|by rewrite app_nil_r].
  by apply trigger_inv, buffer_inv.
Qed.

(** *** The runner's answer *)

Lemma verified_of_provisions_sublist ps pks :
  length ps = length pks -> verified_of_provisions ps pks `sublist_of` ps.
Proof.
  intros Hl. unfold verified_of_provisions. case_match; [done|].
  transitivity (zip ps pks).*1; [apply fmap_sublist, sublist_filter|].
  by rewrite fst_zip by lia.
Qed.

Lemma aggregate_proof_total tx sh h ts es ps :
  exists proof, aggregate_proof tx sh h ts es (committee_size_for_shard sh) ps = Some proof.
Proof.
  unfold aggregate_proof.
  destruct (SignerBitfieldOps.set_all_spec (committee_indices sh ps)
              (SignerBitfieldOps.new (committee_size_for_shard sh))) as (bf & Hbf & _).
  - apply SignerBitfieldOps.new_wf.
  - apply Forall_forall. intros i (p & _ & Hi)%list_elem_of_omap.
    unfold committee_index_for_shard in Hi. apply fmap_Some in Hi as ([j w] & Hf & ->).
    apply list_find_Some in Hf as (Hj%lookup_lt_Some & _). done.
  - rewrite Hbf. by eexists.
Qed.

(** Delivering the answer moves provisions from the batch to the verified ones. *)
Lemma deliver_inv s s' fl rest a k items vs :
  pflow_inv s fl -> fl ≡ₚ a :: rest -> a = batch_of k items -> items <> [] ->
  vs `sublist_of` items.*1 ->
  pc_seen_validators s' = pc_seen_validators s ->
  pc_unverified_provisions s' = pc_unverified_provisions s ->
  pc_pending_verification_batches s' = pc_pending_verification_batches s ∖ {[k]} ->
  (forall tx sh, verified_from s' tx sh
     = if decide (tx = k.1 /\ sh = k.2) then verified_from s k.1 k.2 ++ vs
       else verified_from s tx sh) ->
  index_exact s' -> pflow_inv s' rest.
Proof.
  intros Hinv Hfl -> Hne Hvs Hseen Hunv Hp Hver Hi'.
  apply (pflow_inv_perm _ _ _ Hfl) in Hinv as [Hn Hh Hk Hb Ho Hf _].
  assert (forall k', in_flight_at (batch_of k items :: rest) k' =
            (if decide (k' = k) then items else []) ++ in_flight_at rest k') as Hfly.
  { intros k'. rewrite (in_flight_at_app [batch_of k items] rest). by rewrite in_flight_at_batch. }
  assert (forall k', unverified_at s' k' = unverified_at s k') as Hu.
  { intros k'. unfold unverified_at. by rewrite Hunv. }
  assert (forall k', exists l, held s' rest k' ≡ₚ l /\ l `sublist_of` held s (batch_of k items :: rest) k')
    as Hsub.
  { intros k'. unfold held. rewrite Hu, Hver, Hfly, fmap_app. case_decide as Hd.
    - assert (k' = k) as -> by (destruct k, k'; simpl in *; naive_solver).
      rewrite decide_True by done. eexists. split.
      + rewrite (Permutation_app_comm (verified_from s k.1 k.2) vs), (Permutation_app_swap_app _ vs). done.
      + rewrite <- app_assoc. by repeat apply sublist_app.
    - rewrite decide_False by (intros ->; by destruct Hd). by eexists. }
  rewrite fmap_cons, batch_of_key, NoDup_cons in Ho by done. destruct Ho as [Hnk Ho].
  split; try done.
  - intros k'. destruct (Hsub k') as (l & -> & Hl). eapply sublist_NoDup; [apply (Hn k')|].
    by apply fmap_sublist.
  - intros k'. destruct (Hsub k') as (l & -> & Hl). rewrite Hseen. by eapply Forall_sublist.
  - intros k'. specialize (Hk k'). rewrite Hu, Hfly in *. rewrite !Forall_app in *. tauto.
  - by apply Forall_cons in Hb as [_ Hb].
  - intros k'. rewrite Hp, elem_of_difference, Hf, fmap_cons, batch_of_key, elem_of_cons by done.
    rewrite elem_of_singleton. naive_solver.
Qed.

(** The state after storing a batch's verified provisions. *)
Definition store_verified (tx : Hash) (sh : ShardGroupId) (vs : list StateProvision) s
    : ProvisionCoordinator :=
  s <| pc_pending_verification_batches ::= fun X => X ∖ {[(tx, sh)]} |>
    <| pc_verified_provisions ::= fun m => foldl (push_verified_provision tx sh) m vs |>
    <| pc_txs_by_source_shard ::= mm_insert sh tx |>.

Lemma store_verified_from tx sh vs s tx' sh' :
  verified_from (store_verified tx sh vs s) tx' sh'
  = if decide (tx' = tx /\ sh' = sh) then verified_from s tx sh ++ vs else verified_from s tx' sh'.
Proof. by apply verified_from_push. Qed.

Lemma store_verified_index tx sh vs s :
  vs <> [] -> index_exact s -> index_exact (store_verified tx sh vs s).
Proof.
  intros Hne Hi tx' sh'. rewrite store_verified_from. cbn.
  rewrite elem_of_mm_insert. case_decide as Hd.
  - split; [|naive_solver]. intros _ Hx%app_eq_nil. naive_solver.
  - rewrite (Hi tx' sh'). naive_solver.
Qed.

Lemma quorum_fields_inv s fl f g :
  pflow_inv s fl ->
  pflow_inv (s <| pc_shards_with_quorum ::= f |> <| pc_quorum_reached ::= g |>) fl.
Proof. intros [Hn Hh Hk Hb Ho Hf Hi]. by split. Qed.

Lemma record_quorum_inv s fl tx sh proof :
  pflow_inv s fl ->
  let r := record_shard_quorum tx sh proof s in pflow_inv r.1 (fl ++ batches r.2).
Proof.
  intros Hinv r.
  assert (exists f g, r.1 = s <| pc_shards_with_quorum ::= f |> <| pc_quorum_reached ::= g |>) as (f & g & ->).
  { unfold r, record_shard_quorum, complete_provisioning, hseq, hupd, hemit.
    destruct (all_shards_have_quorum _ _); cbn; [by eexists _, _|]. by eexists _, id. }
  assert (batches r.2 = []) as ->; [|rewrite app_nil_r; by apply quorum_fields_inv].
  unfold r, record_shard_quorum, complete_provisioning, hseq, hupd, hemit.
  by destruct (all_shards_have_quorum _ _), proof.
Qed.

Lemma answer_inv s fl rest k items vs proof :
  pflow_inv s fl -> fl ≡ₚ batch_of k items :: rest -> items <> [] -> vs `sublist_of` items.*1 ->
  let r := on_provisions_verified_and_aggregated k.1 k.2 vs proof s in
  pflow_inv r.1 (rest ++ batches r.2).
Proof.
  intros Hinv Hfl Hne Hvs. unfold on_provisions_verified_and_aggregated.
  destruct (decide (vs = [])) as [->|Hvne].
  - cbn zeta. rewrite app_nil_r. eapply (deliver_inv _ _ _ _ _ k items []); try done.
    + by destruct k.
    + intros tx sh. rewrite app_nil_r. by case_decide as Hd; [destruct Hd as [-> ->]|].
    + exact (pi_index _ _ Hinv).
  - assert (pflow_inv (store_verified k.1 k.2 vs s) rest) as Hs.
    { eapply (deliver_inv _ _ _ _ _ k items vs); try done; [by destruct k| |].
      - intros tx sh. by rewrite store_verified_from.
      - apply store_verified_index; [done|]. exact (pi_index _ _ Hinv). }
    destruct vs as [|p vs]; [done|]. cbn zeta. fold (store_verified k.1 k.2 (p :: vs) s).
    destruct (check_shard_quorum _ _ _); [destruct (shard_has_quorum _ _ _)|].
    + by rewrite app_nil_r.
    + by apply record_quorum_inv.
    + by apply trigger_inv.
Qed.

(** What the runner is handed, and what it answers. *)
Lemma run_answer_inv s fl rest tx sh h ts es ps pks n vs proof :
  pflow_inv s fl -> fl ≡ₚ VerifyAndAggregateProvisions tx sh h ts es ps pks n :: rest ->
  verify_and_aggregate_provisions tx sh h ts es ps pks n = Some (vs, proof) ->
  vs `sublist_of` ps /\ exists items, items <> [] /\
    VerifyAndAggregateProvisions tx sh h ts es ps pks n = batch_of (tx, sh) items /\ ps = items.*1.
Proof.
  intros Hinv Hfl Hrun. apply (pflow_inv_perm _ _ _ Hfl) in Hinv as [_ _ _ Hb _ _ _].
  apply Forall_cons in Hb as [(k & items & Hne & Heq) _].
  destruct items as [|[p pk] items]; [done|]. cbn in Heq. injection Heq as -> -> -> -> -> -> -> ->.
  assert (vs = verified_of_provisions ((p, pk) :: items).*1 ((p, pk) :: items).*2) as ->.
  { unfold verify_and_aggregate_provisions in Hrun. destruct (_ || _).
    - apply bind_Some in Hrun as (? & _ & Hrun). injection Hrun as <- _. reflexivity.
    - injection Hrun as <- _. reflexivity. }
  split; [apply verified_of_provisions_sublist; by cbn; rewrite !length_fmap|].
  exists ((p, pk) :: items). by split_and!; [| |].
Qed.

Lemma pflow_step_inv f f' :
  pflow_step f f' -> pflow_inv (pf_state f) (pf_inflight f) ->
  pflow_inv (pf_state f') (pf_inflight f').
Proof.
  intros [s fl p r|s fl tx reg|s fl tx Hq|s fl tx Hq|s fl b Hq
         |s fl rest tx sh h ts es ps pks n vs proof Hfl Hrun r] Hinv; cbn [pf_state pf_inflight] in *.
  - by apply provision_received_inv.
  - by apply registered_inv.
  - by apply cleanup_tx_inv.
  - by apply cleanup_tx_inv.
  - by apply cleanup_all_inv.
  - pose proof (run_answer_inv _ _ _ _ _ _ _ _ _ _ _ _ _ Hinv Hfl Hrun)
      as (Hsub & items & Hne & Heq & ->).
    rewrite Heq in Hfl. by apply (answer_inv s fl rest (tx, sh) items vs proof).
Qed.

Lemma pflow_run_inv f : pflow_run f -> pflow_inv (pf_state f) (pf_inflight f).
Proof.
  induction 1 as [|f f' _ IH Hs]; [|by eapply pflow_step_inv].
  split; cbn; try (by constructor); try (intros k; by constructor).
  - intros k. set_solver.
Qed.

(** ** What the answer to a batch reports *)

(** With the new provisions [vs] the shard meets its registered threshold, for
    the first time. *)
Definition meets_threshold s (tx : Hash) (sh : ShardGroupId) (vs : list StateProvision)
    (registration : TxRegistration) : Prop :=
  vs <> [] /\ (sh ∉ mm_get (pc_shards_with_quorum s) tx) /\
  pc_registered_txs s !! tx = Some registration /\
  exists t, tr_quorum_thresholds registration !! sh = Some t /\
    (t <= length (verified_from s tx sh ++ vs))%nat.

(** The first verified provision of every required shard, the new ones counted. *)
Definition first_provisions s (tx : Hash) (sh : ShardGroupId) (vs : list StateProvision)
    (registration : TxRegistration) : list StateProvision :=
  filter_map (fun sh' => head (if decide (sh' = sh) then verified_from s tx sh ++ vs
                               else verified_from s tx sh'))
    (tr_required_shards registration).

Lemma check_shard_quorum_iff s tx sh :
  check_shard_quorum s tx sh = true <->
  exists registration t, pc_registered_txs s !! tx = Some registration /\
    tr_quorum_thresholds registration !! sh = Some t /\ (t <= length (verified_from s tx sh))%nat.
Proof.
  unfold check_shard_quorum. destruct (pc_registered_txs s !! tx) as [reg|]; [|naive_solver].
  destruct (tr_quorum_thresholds reg !! sh) as [t|] eqn:E; [|naive_solver].
  rewrite Nat.leb_le. naive_solver.
Qed.

(** No event leaves [maybe_trigger_verification]. *)
Lemma trigger_no_event tx sh s e :
  EnqueueInternal e ∉ (maybe_trigger_verification tx sh s).2.
Proof.
  pose proof (maybe_trigger_cases tx sh s) as Hc.
  destruct (maybe_trigger_verification tx sh s) as [s' acts]. cbn.
  destruct Hc as (_ & _ & _ & _ & _ & [(-> & _)|(Hne & _ & -> & _)]); [apply not_elem_of_nil|].
  rewrite list_elem_of_singleton. destruct (unverified_at s (tx, sh)) as [|[] ?]; done.
Qed.

Lemma record_shard_quorum_events s tx sh proof e registration :
  pc_registered_txs s !! tx = Some registration ->
  EnqueueInternal e ∈ (record_shard_quorum tx sh proof s).2 <->
  (exists pr, proof = Some pr /\ e = ProvisionQuorumReached tx sh pr) \/
  ((forall sh', sh' ∈ tr_required_shards registration ->
      sh' = sh \/ sh' ∈ mm_get (pc_shards_with_quorum s) tx) /\
   e = ProvisioningComplete tx
         (filter_map (fun sh' => head (verified_from s tx sh')) (tr_required_shards registration))).
Proof.
  intros Hreg. unfold record_shard_quorum, complete_provisioning, hseq, hupd, hemit.
  set (s1 := upd (mm_insert tx sh) s).
  assert (all_shards_have_quorum s1 tx = true <->
          forall sh', sh' ∈ tr_required_shards registration ->
            sh' = sh \/ sh' ∈ mm_get (pc_shards_with_quorum s) tx) as Hall.
  { unfold all_shards_have_quorum, s1, mm_insert. cbn. rewrite Hreg, lookup_insert_eq.
    rewrite forallb_forall. setoid_rewrite <- list_elem_of_In.
    setoid_rewrite bool_decide_eq_true. set_solver. }
  assert (collect_all_quorum_provisions s1 tx
          = filter_map (fun sh' => head (verified_from s tx sh')) (tr_required_shards registration)) as Hcol.
  { unfold collect_all_quorum_provisions, s1. cbn. by rewrite Hreg. }
  destruct (all_shards_have_quorum s1 tx); cbn [fst snd app].
  - rewrite Hcol, elem_of_app, list_elem_of_singleton. destruct Hall as [Hall _].
    destruct proof as [pr|]; [rewrite list_elem_of_singleton|rewrite elem_of_nil]; naive_solver.
  - rewrite app_nil_r. destruct Hall as [_ Hall].
    destruct proof as [pr|]; [rewrite list_elem_of_singleton|rewrite elem_of_nil]; naive_solver.
Qed.

(** The answer stores the verified provisions of the batch. *)
Lemma answer_verified s tx sh vs proof :
  vs <> [] ->
  verified_from (on_provisions_verified_and_aggregated tx sh vs proof s).1 tx sh
  = verified_from s tx sh ++ vs.
Proof.
  intros Hne. unfold on_provisions_verified_and_aggregated. destruct vs as [|p vs]; [done|].
  fold (store_verified tx sh (p :: vs) s). set (s1 := store_verified tx sh (p :: vs) s).
  assert (verified_from s1 tx sh = verified_from s tx sh ++ p :: vs) as Hs1.
  { unfold s1. by rewrite store_verified_from, decide_True. }
  rewrite <- Hs1. destruct (check_shard_quorum _ _ _); [destruct (shard_has_quorum _ _ _)|].
  - done.
  - unfold record_shard_quorum, complete_provisioning, hseq, hupd, hemit.
    by destruct (all_shards_have_quorum _ _).
  - pose proof (maybe_trigger_cases tx sh s1) as Ht.
    destruct (maybe_trigger_verification tx sh s1) as [s' acts].
    destruct Ht as (_ & _ & Hv & _). by apply verified_from_eq.
Qed.

Lemma answer_events s tx sh vs proof e :
  let r := on_provisions_verified_and_aggregated tx sh vs proof s in
  (EnqueueInternal e ∈ r.2 <->
   exists registration, meets_threshold s tx sh vs registration /\
     ((exists pr, proof = Some pr /\ e = ProvisionQuorumReached tx sh pr) \/
      ((forall sh', sh' ∈ tr_required_shards registration ->
          sh' = sh \/ sh' ∈ mm_get (pc_shards_with_quorum s) tx) /\
       e = ProvisioningComplete tx (first_provisions s tx sh vs registration)))) /\
  (forall tx' sh', sh' ∈ mm_get (pc_shards_with_quorum r.1) tx' <->
     sh' ∈ mm_get (pc_shards_with_quorum s) tx' \/
     (tx' = tx /\ sh' = sh /\ exists registration, meets_threshold s tx sh vs registration)).
Proof.
  cbn zeta. destruct vs as [|p vs].
  { cbn. split; [split; [by intros ?%not_elem_of_nil|]|intros; split; [by left|]];
      [intros (? & (? & _) & _)|intros [?|(_ & _ & ? & ? & _)]]; done. }
  unfold on_provisions_verified_and_aggregated.
  fold (store_verified tx sh (p :: vs) s). set (s1 := store_verified tx sh (p :: vs) s).
  assert (shard_has_quorum s1 tx sh = true <-> sh ∈ mm_get (pc_shards_with_quorum s) tx) as Hq
    by apply bool_decide_eq_true.
  assert (check_shard_quorum s1 tx sh = true /\ (sh ∉ mm_get (pc_shards_with_quorum s) tx) <->
          exists reg, meets_threshold s tx sh (p :: vs) reg) as Hm.
  { rewrite check_shard_quorum_iff. unfold meets_threshold. unfold s1 at 2.
    rewrite store_verified_from, decide_True by done. naive_solver. }
  destruct (check_shard_quorum s1 tx sh) eqn:Hc; [destruct (shard_has_quorum s1 tx sh) eqn:Hh|].
  - cbn. split; [split; [by intros ?%not_elem_of_nil|]|intros; split; [by left|]]; naive_solver.
  - destruct Hm as [Hm _]. destruct Hm as [reg Hm]; [naive_solver|].
    assert (forall reg', pc_registered_txs s !! tx = Some reg' <-> reg' = reg) as Hreg.
    { intros reg'. destruct Hm as (_ & _ & -> & _). naive_solver. }
    rewrite (record_shard_quorum_events s1 tx sh proof e reg) by by apply Hreg.
    assert (filter_map (fun sh' => head (verified_from s1 tx sh')) (tr_required_shards reg)
            = first_provisions s tx sh (p :: vs) reg) as ->.
    { apply list_omap_ext, Forall_Forall2_diag, Forall_forall. intros sh' _. unfold s1. rewrite store_verified_from.
      repeat case_decide; naive_solver. }
    split; [split; [by exists reg|]|].
    + intros (reg' & Hm' & He). assert (reg' = reg) as -> by (apply Hreg; apply Hm'). done.
    + intros tx' sh'. unfold record_shard_quorum, complete_provisioning, hseq, hupd, hemit.
      destruct (all_shards_have_quorum _ _); cbn; rewrite elem_of_mm_insert; naive_solver.
  - pose proof (maybe_trigger_cases tx sh s1) as Ht. pose proof (trigger_no_event tx sh s1 e) as He.
    destruct (maybe_trigger_verification tx sh s1) as [s' acts]. cbn [fst snd] in *.
    destruct Ht as (_ & _ & _ & _ & -> & _).
    split; [|intros tx' sh'; change (pc_shards_with_quorum s1) with (pc_shards_with_quorum s)];
      split; naive_solver.
Qed.

(** What the answer to a provision batch reports, exactly. A quorum of the
    source shard is reported, with the batch's proof, when the batch has a
    verified provision, the shard had no quorum before, and the verified
    provisions now meet the registered threshold; the shard is then recorded, so
    it is reported once. Provisioning is complete exactly when, in addition,
    every required shard has a quorum, and hands over the first verified
    provision of every required shard. Nothing else is reported. *)
Theorem provision_answer_spec s tx sh vs proof e :
  let r := on_provisions_verified_and_aggregated tx sh vs proof s in
  (EnqueueInternal e ∈ r.2 <->
   exists registration, meets_threshold s tx sh vs registration /\
     ((exists pr, proof = Some pr /\ e = ProvisionQuorumReached tx sh pr) \/
      ((forall sh', sh' ∈ tr_required_shards registration ->
          sh' = sh \/ sh' ∈ mm_get (pc_shards_with_quorum s) tx) /\
       e = ProvisioningComplete tx (first_provisions s tx sh vs registration)))) /\
  (forall tx' sh', sh' ∈ mm_get (pc_shards_with_quorum r.1) tx' <->
     sh' ∈ mm_get (pc_shards_with_quorum s) tx' \/
     (tx' = tx /\ sh' = sh /\ exists registration, meets_threshold s tx sh vs registration)).
Proof. apply answer_events. Qed.

(** ** Every run *)

(** A provision counted for a transaction and shard. *)
Definition counted_ok (tx : Hash) (sh : ShardGroupId) (p : StateProvision) : Prop :=
  sp_transaction_hash p = tx /\ sp_source_shard p = sh /\ is_Some (public_key (sp_validator_id p)).

Lemma verified_of_inv s fl tx sh :
  pflow_inv s fl ->
  NoDup (sp_validator_id <$> verified_from s tx sh) /\ Forall (counted_ok tx sh) (verified_from s tx sh).
Proof.
  intros [Hn Hh _ _ _ _ _]. specialize (Hn (tx, sh)). specialize (Hh (tx, sh)).
  unfold held in Hn, Hh. cbn [fst snd] in *. rewrite !fmap_app, !NoDup_app in Hn.
  rewrite !Forall_app in Hh. split; [tauto|]. destruct Hh as (_ & _ & Hh).
  eapply Forall_impl; [exact Hh|]. cbv beta. intros p (? & ? & ? & ?). by split_and!.
Qed.

(** In every run of the coordinator, with provisions, registrations and the
    runner's answers in any order: the verified provisions of a transaction and
    shard come from different, known validators and are for that transaction and
    shard; the reverse index lists exactly the transactions that have some; a
    key is marked as being verified exactly while one batch of it is in flight,
    never two; and the runner never panics on a batch. *)
Theorem provision_run_invariant f tx sh :
  pflow_run f ->
  let s := pf_state f in
  NoDup (sp_validator_id <$> verified_from s tx sh) /\
  Forall (counted_ok tx sh) (verified_from s tx sh) /\
  (tx ∈ mm_get (pc_txs_by_source_shard s) sh <-> verified_from s tx sh <> []) /\
  length (filter (fun a => batch_key a = Some (tx, sh)) (pf_inflight f))
  = (if bool_decide ((tx, sh) ∈ pc_pending_verification_batches s) then 1 else 0)%nat /\
  (forall h ts es ps pks n,
     VerifyAndAggregateProvisions tx sh h ts es ps pks n ∈ pf_inflight f ->
     is_Some (verify_and_aggregate_provisions tx sh h ts es ps pks n)).
Proof.
  intros Hrun s. pose proof (pflow_run_inv _ Hrun) as Hinv. fold s in Hinv.
  destruct (verified_of_inv _ _ tx sh Hinv) as [Hn Hc].
  destruct Hinv as [_ _ _ Hb Ho Hf Hi]. split_and!; [done|done|apply Hi| |].
  - specialize (Hf (tx, sh)). case_bool_decide as Hp.
    + apply Hf in Hp as (a & Ha & Hin)%list_elem_of_fmap.
      apply list_elem_of_split in Hin as (l1 & l2 & Heq). rewrite Heq in Ho |- *.
      rewrite fmap_app, fmap_cons, NoDup_app, NoDup_cons in Ho.
      assert (forall l, (batch_key a ∉ (batch_key <$> l)) ->
                filter (fun a => batch_key a = Some (tx, sh)) l = []) as Hnil.
      { intros l Hl. apply list_filter_nil. intros b Hb' Hbk. apply Hl. apply list_elem_of_fmap.
        exists b. split; [congruence|done]. }
      rewrite list.filter_app, filter_cons_True by done. rewrite !Hnil; [done|tauto|].
      intros Hx. by destruct Ho as (_ & Ho & _); apply (Ho _ Hx); left.
    + rewrite list_filter_nil; [done|]. intros a Ha Hk. apply Hp, Hf, list_elem_of_fmap. eauto.
  - intros h ts es ps pks n Hin. pose proof (Forall_elem _ _ _ Hb Hin) as (k & items & Hne & Heq).
    destruct items as [|[p pk] items]; [done|]. cbn in Heq. injection Heq as -> -> -> -> -> -> -> ->.
    unfold verify_and_aggregate_provisions. destruct (_ || _); [|done].
    edestruct aggregate_proof_total as [pr ->]. by eexists.
Qed.

End flow.

(** ** Proofs exist exactly for transactions with provisions *)

Section commitment_proofs.
Context `{Crypto} `{T : Topology} `{HashIter}.

(** As the documentation of [has_any_verified_provisions] demands: a proof can be
    built exactly for the transactions it reports, whatever order the map is
    walked in, when aggregation of signatures does not fail. *)
Lemma commitment_proof_iff_verified s tx :
  (forall sigs, sigs <> [] -> is_Some (aggregate_signatures sigs)) ->
  if has_any_verified_provisions s tx
  then exists proof, build_commitment_proof s tx = Some (Some proof) /\ cp_tx_hash proof = tx
  else build_commitment_proof s tx = Some None.
Proof.
  intros Hagg. unfold has_any_verified_provisions, build_commitment_proof.
  destruct (pc_verified_provisions s !! tx) as [by_shard|]; [|done].
  destruct (list_find _ (hm_iter by_shard)) as [[i [sh ps]]|] eqn:Hf.
  - apply list_find_Some in Hf as (Hi & Hne & _). cbn in Hne.
    apply list_elem_of_lookup_2, elem_of_hm_iter in Hi.
    assert (existsb (fun kv => negb (Nat.eqb (length kv.2) 0)) (map_to_list by_shard) = true) as ->.
    { apply existsb_exists. exists (sh, ps). split.
      - by apply list_elem_of_In, elem_of_map_to_list.
      - cbn. by apply negb_true_iff, Nat.eqb_neq. }
    destruct ps as [|p ps]; [done|].
    destruct (SignerBitfieldOps.set_all_spec
      (filter (fun i => (i < length global_validator_set)%nat)
         ((fun p => N.to_nat (sp_validator_id p)) <$> (p :: ps)))
      (SignerBitfieldOps.new (length global_validator_set))) as (bf & -> & _).
    + apply SignerBitfieldOps.new_wf.
    + apply Forall_forall. intros j [Hj _]%list_elem_of_filter. done.
    + destruct (Hagg (sp_signature <$> (p :: ps))) as [sig Hsig]; [done|].
      cbn [mbind option_bind]. rewrite Hsig. by eexists.
  - apply list_find_None in Hf.
    assert (existsb (fun kv => negb (Nat.eqb (length kv.2) 0)) (map_to_list by_shard) = false) as ->;
      [|done].
    apply not_true_iff_false. intros ([sh ps] & Hin%list_elem_of_In & Hp)%existsb_exists.
    apply elem_of_map_to_list, elem_of_hm_iter in Hin.
    pose proof (Forall_elem _ _ _ Hf Hin) as Hx. apply Hx. cbn in *.
    by apply negb_true_iff, Nat.eqb_neq in Hp.
Qed.
End commitment_proofs.
