(* ===== verification/ProvisionFlow.v ===== *)
(** * From provisions to an accepted cycle proof

    The whole way of a provision quorum: honest validators of another shard send
    the same state, the coordinator ([Provisions]) collects and has it verified,
    the runner aggregates the proof, and the validators of this shard check that
    proof ([BftVote], [Runner]) when a proposer uses it to defer a transaction.
    The last part shows what a few faulty validators can do to it. *)

From stdpp Require Import base gmap list numbers sorting.
From Stdlib Require Import NArith Lia.
From S2P Require Import Prelude Bitfield Types Encoding Merkle Topology Transactions Livelock.
From S2P Require Import VoteSet Core Runner QcTheory QcRoundtrip PendingBlock BftState BftVote.
From S2P Require Import Provisions.

Section provision_proof.
Context `{Crypto} `{T : Topology}.
Implicit Types (ps : list StateProvision) (items : list (StateProvision * Bls12381G1PublicKey)).

(** ** The proof the runner builds *)

Lemma committee_index_lookup sh v i :
  committee_index_for_shard sh v = Some i -> committee_for_shard sh !! i = Some v.
Proof.
  unfold committee_index_for_shard. intros ([j w] & Hf & ->)%fmap_Some.
  by apply list_find_Some in Hf as (Hj & -> & _).
Qed.

Lemma committee_index_member sh v :
  v ∈ committee_for_shard sh -> exists i, committee_index_for_shard sh v = Some i.
Proof.
  intros Hv. unfold committee_index_for_shard.
  destruct (list_find_elem_of (fun w => w = v) _ _ Hv eq_refl) as [[i w] ->]. by exists i.
Qed.

Definition in_committee (sh : ShardGroupId) (p : StateProvision) : Prop :=
  sp_validator_id p ∈ committee_for_shard sh.

Lemma committee_indices_spec sh ps :
  Forall (in_committee sh) ps ->
  (fun i => committee_for_shard sh !! i) <$> committee_indices sh ps
  = (fun p => Some (sp_validator_id p)) <$> ps.
Proof.
  induction 1 as [|p ps Hp Hps IH]; [done|]. unfold committee_indices in *.
  destruct (committee_index_member _ _ Hp) as [i Hi]. cbn [filter_map omap list_omap].
  rewrite Hi. rewrite !fmap_cons. by rewrite (committee_index_lookup _ _ _ Hi), IH.
Qed.

Lemma committee_indices_NoDup sh ps :
  Forall (in_committee sh) ps -> NoDup (sp_validator_id <$> ps) -> NoDup (committee_indices sh ps).
Proof.
  intros Hm Hnd. apply (NoDup_fmap_1 (fun i => committee_for_shard sh !! i)).
  rewrite committee_indices_spec by done.
  rewrite (list_fmap_compose sp_validator_id Some). apply NoDup_fmap_2; [apply _|done].
Qed.

Lemma committee_indices_length sh ps :
  Forall (in_committee sh) ps -> length (committee_indices sh ps) = length ps.
Proof.
  intros Hl%committee_indices_spec%(f_equal length). by rewrite !length_fmap in Hl.
Qed.

(** The signer bits of the proof are the committee positions of the senders. *)
Lemma aggregate_proof_signers tx sh h ts es ps proof :
  aggregate_proof tx sh h ts es (committee_size_for_shard sh) ps = Some proof ->
  SignerBitfieldOps.wf (cp_signers proof) /\
  SignerBitfieldOps.signers (cp_signers proof) = list_to_set (committee_indices sh ps) /\
  cp_aggregated_signature proof
  = default zero_bls_signature (aggregate_signatures (sp_signature <$> ps)) /\
  cp_tx_hash proof = tx /\ cp_source_shard proof = sh /\ cp_block_height proof = h /\
  cp_block_timestamp proof = ts /\ cp_entries proof = es.
Proof.
  unfold aggregate_proof. intros (bf & Hbf & [= <-])%bind_Some. cbn.
  destruct (SignerBitfieldOps.set_all_spec (committee_indices sh ps)
              (SignerBitfieldOps.new (committee_size_for_shard sh))) as (bf' & Hbf' & Hwf & _ & Hs).
  - apply SignerBitfieldOps.new_wf.
  - apply Forall_forall. intros i (p & _ & Hi)%list_elem_of_omap.
    by apply committee_index_lookup, lookup_lt_Some in Hi.
  - rewrite Hbf in Hbf'. injection Hbf' as <-. rewrite SignerBitfieldOps.new_signers in Hs.
    split_and!; [done| |done..]. set_solver.
Qed.

(** The keys that [resolve_commitment_proof_signers] finds are the senders' keys. *)
Lemma resolve_signers_perm tx sh h ts es items proof :
  aggregate_proof tx sh h ts es (committee_size_for_shard sh) items.*1 = Some proof ->
  Forall (in_committee sh) items.*1 -> NoDup (sp_validator_id <$> items.*1) ->
  Forall known_key items ->
  resolve_commitment_proof_signers proof sh ≡ₚ items.*2.
Proof.
  intros Hp Hm Hnd Hk. apply aggregate_proof_signers in Hp as (Hwf & Hs & _).
  unfold resolve_commitment_proof_signers.
  transitivity (omap (fun i => committee_for_shard sh !! i ≫= public_key)
                  (committee_indices sh items.*1)).
  - apply omap_Permutation, NoDup_Permutation;
      [apply SignerBitfieldOps.NoDup_set_indices|by apply committee_indices_NoDup|].
    intros i. rewrite SignerBitfieldOps.elem_of_set_indices, <- SignerBitfieldOps.elem_of_signers, Hs.
    apply elem_of_list_to_set.
  - clear -Hm Hk. induction items as [|[p pk] items IH]; [done|].
    apply Forall_cons in Hm as [Hp Hm]. apply Forall_cons in Hk as [Hpk Hk].
    cbn [fst] in Hp. destruct (committee_index_member _ _ Hp) as [i Hi]. unfold committee_indices in *.
    cbn [fmap list_fmap fst snd filter_map omap list_omap]. rewrite Hi.
    cbn [omap list_omap]. rewrite (committee_index_lookup _ _ _ Hi). cbn.
    unfold known_key in Hpk. cbn in Hpk. rewrite Hpk. by rewrite IH.
Qed.

Lemma proof_signer_count tx sh h ts es ps proof :
  aggregate_proof tx sh h ts es (committee_size_for_shard sh) ps = Some proof ->
  Forall (in_committee sh) ps -> NoDup (sp_validator_id <$> ps) ->
  commitment_signer_count proof = length ps.
Proof.
  intros Hp Hm Hnd. apply aggregate_proof_signers in Hp as (Hwf & Hs & _).
  unfold commitment_signer_count, SignerBitfieldOps.count.
  rewrite SignerBitfieldOps.count_ones_set_indices by done.
  rewrite <- SignerBitfieldOps.size_signers, Hs, size_list_to_set.
  - by apply committee_indices_length.
  - by apply committee_indices_NoDup.
Qed.

(** ** Honest provisions *)

Section honest.
Context (L : BlsLaws) (tx : Hash) (sh : ShardGroupId) (h : BlockHeight) (ts : u64)
  (es : list StateEntry).

Definition provision_message : bytes :=
  state_provision_message tx local_shard sh h ts (entry_hash <$> es).

(** What a correct member of shard [sh] sends for the transaction. *)
Definition honest_item (pp : StateProvision * Bls12381G1PublicKey) : Prop :=
  pp.1 = mk_state_provision tx local_shard sh h ts es (sp_validator_id pp.1) (sp_signature pp.1) /\
  in_committee sh pp.1 /\ known_key pp /\
  verify_bls12381_v1 provision_message pp.2 (sp_signature pp.1) = true.

Lemma group_of_items msg items :
  items <> [] ->
  Forall (fun pp => verify_bls12381_v1 msg pp.2 (sp_signature pp.1) = true) items ->
  valid_group msg items.*2 (sp_signature <$> items.*1).
Proof.
  intros Hne Hv. induction Hv as [|[p pk] items Hp Hv IH]; [done|]. cbn [fmap list_fmap fst snd].
  destruct items as [|q items]; [by apply (bls_single L)|].
  by apply (bls_join L _ [pk] [sp_signature p]); [apply (bls_single L)|apply IH].
Qed.

Lemma honest_message items :
  items <> [] -> Forall honest_item items -> batch_message items.*1 = provision_message.
Proof.
  intros Hne Hh. destruct Hh as [|[p pk] items (Hp & _) _]; [done|].
  cbn in *. rewrite Hp. done.
Qed.

Lemma honest_batch_valid items :
  items <> [] -> Forall honest_item items ->
  batch_verify_bls_same_message (batch_message items.*1) (sp_signature <$> items.*1) items.*2 = true.
Proof.
  intros Hne Hh. rewrite honest_message by done. unfold batch_verify_bls_same_message.
  rewrite !length_fmap, Nat.eqb_refl. cbn [negb].
  destruct (Nat.eqb_spec (length items) 0) as [Hz|_]; [done|].
  destruct (group_of_items provision_message items) as (apk & asig & -> & -> & Hv); [done| |done].
  eapply Forall_impl; [exact Hh|]. intros pp Hpp. apply Hpp.
Qed.

(** The runner accepts all of them, and the proof it builds verifies at every
    validator of this shard. *)
Lemma honest_runner items :
  items <> [] -> Forall honest_item items -> NoDup (sp_validator_id <$> items.*1) ->
  exists proof,
    verify_and_aggregate_provisions tx sh h ts es items.*1 items.*2 (committee_size_for_shard sh)
    = Some (items.*1, Some proof) /\
    commitment_signer_count proof = length items /\
    (forall cp, cyp_winner_commitment cp = proof ->
       verify_cycle_proof cp (resolve_commitment_proof_signers proof sh) provision_message
         (quorum_threshold_for_shard sh)
       = (quorum_threshold_for_shard sh <=? N.of_nat (length items))).
Proof.
  intros Hne Hh Hnd. destruct (aggregate_proof_total tx sh h ts es items.*1) as [proof Hproof].
  assert (Forall (in_committee sh) items.*1) as Hm.
  { apply Forall_fmap. eapply Forall_impl; [exact Hh|]. intros pp Hpp. apply Hpp. }
  assert (Forall known_key items) as Hk.
  { eapply Forall_impl; [exact Hh|]. intros pp Hpp. apply Hpp. }
  pose proof (proof_signer_count _ _ _ _ _ _ _ Hproof Hm Hnd) as Hcount. rewrite length_fmap in Hcount.
  exists proof. split_and!; [|done|].
  - unfold verify_and_aggregate_provisions, verified_of_provisions.
    rewrite honest_batch_valid by done. cbn [orb]. by rewrite Hproof.
  - intros cp Hcp. unfold verify_cycle_proof. rewrite Hcp, Hcount.
    pose proof (resolve_signers_perm _ _ _ _ _ _ _ Hproof Hm Hnd Hk) as Hperm.
    rewrite (Permutation_length Hperm), length_fmap.
    destruct (Nat.eqb_spec (length items) 0) as [Hz|_]; [by apply length_zero_iff_nil in Hz|].
    rewrite (bls_perm L _ _ Hperm).
    apply aggregate_proof_signers in Hproof as (_ & _ & -> & _).
    destruct (group_of_items provision_message items) as (apk & asig & -> & -> & Hv); [done| |].
    + eapply Forall_impl; [exact Hh|]. intros pp Hpp. apply Hpp.
    + change (default zero_bls_signature (Some asig)) with asig. by rewrite Hv.
Qed.

(** ** Collecting *)

Fixpoint receive_all (ps : list StateProvision) : provisions :=
  match ps with
  | [] => hskip
  | p :: ps' => (on_provision_received p ;> receive_all ps')%hs
  end.

(** The transaction is registered with threshold [t] for the shard, nothing is
    verified, and exactly [acc] has been received. *)
Record collecting (s : ProvisionCoordinator) (reg : TxRegistration) (t : nat)
    (acc : list (StateProvision * Bls12381G1PublicKey)) : Prop := {
  co_registered : pc_registered_txs s !! tx = Some reg;
  co_threshold : tr_quorum_thresholds reg !! sh = Some t;
  co_idle : (tx, sh) ∉ pc_pending_verification_batches s;
  co_no_quorum : sh ∉ mm_get (pc_shards_with_quorum s) tx;
  co_unverified : pc_verified_provisions s !! tx = None;
  co_acc : unverified_at s (tx, sh) = acc;
  co_seen v : (tx, v) ∈ pc_seen_validators s -> v ∈ (sp_validator_id <$> acc.*1)
}.

(** Below the threshold a provision is only stored; the one that reaches it
    sends the batch off. *)
Lemma receive_collecting s reg t acc p pk :
  collecting s reg t acc -> honest_item (p, pk) -> (sp_validator_id p ∉ (sp_validator_id <$> acc.*1)) ->
  let r := on_provision_received p s in
  ((length acc + 1 < t)%nat -> r.2 = [] /\ collecting r.1 reg t (acc ++ [(p, pk)])) /\
  ((length acc + 1 = t)%nat -> r.2 = [batch_of (tx, sh) (acc ++ [(p, pk)])] /\
     pc_registered_txs r.1 !! tx = Some reg /\ (sh ∉ mm_get (pc_shards_with_quorum r.1) tx) /\
     pc_verified_provisions r.1 !! tx = None).
Proof.
  intros [Hreg Ht Hidle Hnq Hver Hacc Hseen] (Hp & _ & Hpk & _) Hfresh.
  cbn [fst] in Hp. rewrite Hp. rewrite Hp in Hfresh, Hpk. unfold known_key in Hpk. cbn in Hpk, Hfresh.
  set (v := sp_validator_id p) in *. set (sig := sp_signature p) in *. clearbody v sig. clear Hp p.
  set (p := mk_state_provision tx local_shard sh h ts es v sig).
  unfold on_provision_received. cbn [sp_transaction_hash sp_validator_id sp_source_shard p].
  unfold contains_key. rewrite Hreg.
  rewrite bool_decide_eq_false_2 by (intros Hx; by apply Hfresh, Hseen).
  unfold has_verified_provision_from. rewrite Hver.
  unfold shard_has_quorum. rewrite bool_decide_eq_false_2 by done. rewrite Hpk.
  set (s1 := upd _ _).
  assert (unverified_at s1 (tx, sh) = acc ++ [(p, pk)]) as Hacc1.
  { unfold unverified_at, s1. cbn. rewrite lookup_insert_eq. cbn. by rewrite <- Hacc. }
  unfold maybe_trigger_verification. rewrite bool_decide_eq_false_2 by done.
  change (pc_registered_txs s1) with (pc_registered_txs s).
  rewrite Hreg. cbn [mbind option_bind]. rewrite Ht. cbn [default from_option id].
  assert (verified_from s1 tx sh = []) as -> by (unfold verified_from, s1; cbn; by rewrite Hver).
  assert (pc_unverified_provisions s1 !! (tx, sh) = Some (acc ++ [(p, pk)])) as ->.
  { unfold s1. cbn. rewrite lookup_insert_eq. unfold unverified_at in Hacc. by rewrite Hacc. }
  rewrite length_app. cbn [length Nat.add]. split; intros Hlt.
  - destruct (Nat.eqb_spec t 0) as [?|_]; [lia|].
    destruct (Nat.ltb_spec (length acc + 1) t) as [_|?]; [|lia].
    split; [done|]. split; try done. unfold s1. cbn. intros w Hw.
    rewrite !fmap_app, elem_of_app. cbn. rewrite list_elem_of_singleton. set_solver.
  - destruct (Nat.eqb_spec t 0) as [?|_]; [lia|].
    destruct (Nat.ltb_spec (length acc + 1) t) as [?|_]; [lia|].
    by destruct acc as [|[q qk] acc].
Qed.

(** The result of the last receipt. *)
Lemma receive_all_collecting items s reg t acc :
  collecting s reg t acc -> Forall honest_item items -> items <> [] ->
  NoDup (sp_validator_id <$> (acc ++ items).*1) -> (length acc + length items = t)%nat ->
  exists s1, receive_all items.*1 s = (s1, [batch_of (tx, sh) (acc ++ items)]) /\
    pc_registered_txs s1 !! tx = Some reg /\ (sh ∉ mm_get (pc_shards_with_quorum s1) tx) /\
    pc_verified_provisions s1 !! tx = None.
Proof.
  intros Hc Hh. revert s acc Hc. induction Hh as [|[p pk] items Hp Hh IH]; intros s acc Hc Hne Hnd Hl;
    [done|].
  cbn [fmap list_fmap fst receive_all]. unfold hseq.
  assert (sp_validator_id p ∉ (sp_validator_id <$> acc.*1)) as Hfresh.
  { rewrite !fmap_app, NoDup_app in Hnd. destruct Hnd as (_ & Hd & _). intros Hx.
    apply (Hd _ Hx). by left. }
  destruct (receive_collecting s reg t acc p pk Hc Hp Hfresh) as [Hlt Heq].
  destruct (on_provision_received p s) as [s1 acts]. cbn [fst snd length] in *.
  destruct items as [|q items].
  - destruct Heq as (-> & Hrest); [cbn in Hl; lia|]. exists s1. by cbn.
  - destruct Hlt as (-> & Hc1); [cbn in Hl; lia|].
    destruct (IH s1 (acc ++ [(p, pk)]) Hc1) as (s2 & E & Hrest); [done| | |].
    + by rewrite <- app_assoc.
    + rewrite length_app. cbn in *. lia.
    + rewrite E. exists s2. rewrite <- app_assoc. by split.
Qed.

(** C24: Honest provisions prove a commitment, end to end. When a quorum of correct
    members of another shard send their provisions for a transaction the
    coordinator tracks, the last one makes it hand exactly these to the runner;
    the runner accepts all of them; its answer makes the coordinator report the
    quorum; and a deferral that carries the reported proof passes the check every
    validator of this shard makes. *)
Theorem honest_provisions_prove_cycle items s reg :
  collecting s reg (length items) [] -> Forall honest_item items ->
  NoDup (sp_validator_id <$> items.*1) -> items <> [] ->
  quorum_threshold_for_shard sh <= N.of_nat (length items) ->
  exists s1 proof,
    receive_all items.*1 s
    = (s1, [VerifyAndAggregateProvisions tx sh h ts es items.*1 items.*2
              (committee_size_for_shard sh)]) /\
    verify_and_aggregate_provisions tx sh h ts es items.*1 items.*2 (committee_size_for_shard sh)
    = Some (items.*1, Some proof) /\
    EnqueueInternal (ProvisionQuorumReached tx sh proof)
      ∈ (on_provisions_verified_and_aggregated tx sh items.*1 (Some proof) s1).2 /\
    forall (b : BftState) bh idx d,
      s_shard_group b = local_shard -> cyp_winner_commitment (td_proof d) = proof ->
      exists keys msg threshold,
        cycle_proof_action b bh idx d = VerifyCycleProof bh idx (td_proof d) keys msg threshold /\
        verify_cycle_proof (td_proof d) keys msg threshold = true.
Proof.
  intros Hc Hh Hnd Hne Hq.
  destruct (receive_all_collecting items s reg (length items) [] Hc Hh Hne Hnd eq_refl)
    as (s1 & Hrec & Hreg & Hnq & Hver).
  destruct (honest_runner items Hne Hh Hnd) as (proof & Hrun & Hcount & Hverify).
  exists s1, proof. split_and!; [|done| |].
  - rewrite Hrec. cbn [app]. destruct Hh as [|[p pk] items (Hp & _) _]; [done|].
    cbn [batch_of fst snd]. cbn [fst] in Hp.
    assert (sp_block_height p = h /\ sp_block_timestamp p = ts /\ sp_entries p = es)
      as (-> & -> & ->) by (by rewrite Hp). done.
  - destruct (answer_events s1 tx sh items.*1 (Some proof) (ProvisionQuorumReached tx sh proof))
      as [Hev _].
    apply Hev. exists reg. split; [|left; by exists proof]. split_and!; [|done|done|].
    + by destruct items.
    + exists (length items). split; [apply Hc|]. rewrite length_app, length_fmap. lia.
  - intros b bh idx d Hb Hd. unfold cycle_proof_action. eexists _, _, _. split; [done|].
    assert (cp_tx_hash proof = tx /\ cp_source_shard proof = sh /\ cp_block_height proof = h /\
            cp_block_timestamp proof = ts /\ cp_entries proof = es) as (E1 & E2 & E3 & E4 & E5).
    { unfold verify_and_aggregate_provisions, verified_of_provisions in Hrun.
      rewrite honest_batch_valid in Hrun by done. cbn [orb] in Hrun.
      apply bind_Some in Hrun as (pr & Hpr & [= <-]). by apply aggregate_proof_signers in Hpr as (_ & _ & _ & ?). }
    unfold winner_source_shard. rewrite Hd, Hb, E1, E2, E3, E4, E5.
    etransitivity; [exact (Hverify _ Hd)|]. by apply N.leb_le.
Qed.
End honest.
End provision_proof.

(** ** Two shards of four validators *)

(** Transaction 50 was committed by shard 1 at height 9; the local validator is
    in shard 0.  [signed] is the state whose message the sender signs. *)
Definition sample_message_of (es : list StateEntry) : bytes :=
  @provision_message sample_crypto (sample_topology_2 0) 50 1 9 1000 es.

Definition sample_provision (v : ValidatorId) (es signed : list StateEntry) : StateProvision :=
  mk_state_provision 50 0 1 9 1000 es v
    (@sign_v1 sample_crypto (v + 1) (sample_message_of signed)).

Definition real_state : list StateEntry := [mk_state_entry [1; 2; 3] (Some [100])].
Definition forged_state : list StateEntry := [mk_state_entry [1; 2; 3] (Some [255; 255])].

Definition sample_registration : TxRegistration := mk_tx_registration [1] {[1 := 3%nat]} 7 ∅.

Definition sample_registered : ProvisionCoordinator :=
  (on_tx_registered 50 sample_registration provision_coordinator_new).1.

Definition sample_items : list (StateProvision * Bls12381G1PublicKey) :=
  (fun v => (sample_provision v real_state real_state, v + 1)) <$> [1; 3; 5].

Lemma sample_collecting :
  @collecting 50 1 sample_registered sample_registration 3 [].
Proof.
  split; try (vm_compute; reflexivity).
  - apply (bool_decide_unpack _). vm_compute. reflexivity.
  - apply (bool_decide_unpack _). vm_compute. reflexivity.
  - intros v Hv. change (pc_seen_validators sample_registered) with (∅ : gset (N * N)) in Hv. set_solver.
Qed.

Lemma sample_honest :
  Forall (@honest_item sample_crypto (sample_topology_2 0) 50 1 9 1000 real_state) sample_items.
Proof.
  repeat (apply Forall_cons; split); [| | |by apply Forall_nil];
    (split_and!; [vm_compute; reflexivity
                 |unfold in_committee; apply (bool_decide_unpack _); vm_compute; reflexivity
                 |vm_compute; reflexivity..]).
Qed.

Lemma honest_provisions_prove_cycle_witness : exists s1 proof,
  @receive_all (sample_topology_2 0) sample_items.*1 sample_registered
  = (s1, [VerifyAndAggregateProvisions 50 1 9 1000 real_state sample_items.*1 [2; 4; 6] 4]) /\
  EnqueueInternal (ProvisionQuorumReached 50 1 proof)
    ∈ (@on_provisions_verified_and_aggregated (sample_topology_2 0) 50 1 sample_items.*1 (Some proof) s1).2.
Proof.
  destruct (@honest_provisions_prove_cycle sample_crypto (sample_topology_2 0) sample_bls_laws
    50 1 9 1000 real_state sample_items sample_registered sample_registration)
    as (s1 & proof & Hrec & _ & Hev & _).
  - exact sample_collecting.
  - exact sample_honest.
  - apply (bool_decide_unpack _). vm_compute. reflexivity.
  - discriminate.
  - vm_compute. discriminate.
  - exists s1, proof. split; [exact Hrec|exact Hev].
Defined.

(** The run in which the three provisions arrive. *)
Definition sample_flow : PFlow :=
  foldl (fun f p => let r := @on_provision_received (sample_topology_2 0) p (pf_state f) in
                    mk_pflow r.1 (pf_inflight f ++ batches r.2))
    (mk_pflow sample_registered []) sample_items.*1.

Lemma sample_flow_run : @pflow_run sample_crypto (sample_topology_2 0) sample_flow.
Proof.
  unfold sample_flow. generalize sample_items.*1 as ps.
  assert (@pflow_run sample_crypto (sample_topology_2 0) (mk_pflow sample_registered [])) as Hrun.
  { eapply pf_next; [apply pf_init|]. apply pf_register. }
  revert Hrun. generalize (mk_pflow sample_registered []) as f. intros f Hrun ps. revert f Hrun.
  induction ps as [|p ps IH]; intros f Hrun; cbn [foldl]; [done|].
  apply IH. eapply pf_next; [exact Hrun|]. destruct f as [s fl]. apply pf_receive.
Qed.

Definition sample_answer : list StateProvision * option CommitmentProof :=
  default ([], None)
    (@verify_and_aggregate_provisions sample_crypto (sample_topology_2 0) 50 1 9 1000 real_state
       sample_items.*1 sample_items.*2 4).

Lemma provision_run_invariant_witness :
  length (pf_inflight sample_flow) = 1%nat /\
  NoDup (sp_validator_id <$> verified_from (pf_state sample_flow) 50 1).
Proof.
  split; [vm_compute; reflexivity|].
  exact (proj1 (@provision_run_invariant sample_crypto (sample_topology_2 0) sample_flow 50 1
                  sample_flow_run)).
Defined.


(** ** What one faulty validator can do *)

(** Somebody claims to be validator 7 and sends the real state with a signature
    that does not verify; validator 1 is faulty, sends forged state and signs
    the message of the real state; validators 3 and 5 are correct. *)
Definition attack_impostor : StateProvision := mk_state_provision 50 0 1 9 1000 real_state 7 0.
Definition attack_faulty : StateProvision := sample_provision 1 forged_state real_state.
Definition attack_correct (v : ValidatorId) : StateProvision :=
  sample_provision v real_state real_state.

(** C38: A single faulty validator can have its own state executed. The runner
    checks every signature of a batch against the message of the batch's first
    provision, so a provision whose content is not what its sender signed is
    counted, and may become the one handed to the execution. Here the three
    correct validators of the source shard sign the real state only, one
    provision is an impostor's with a bad signature, one comes from a faulty
    validator, and the state handed over for execution is the forged one. *)
Theorem forged_state_executed :
  let receive := @receive_all (sample_topology_2 0) in
  let verify := @verify_and_aggregate_provisions sample_crypto (sample_topology_2 0) 50 1 9 1000 in
  let answered := @on_provisions_verified_and_aggregated (sample_topology_2 0) 50 1 in
  exists s1 s2 s3 proof1 proof2,
    receive [attack_impostor; attack_faulty; attack_correct 3] sample_registered
    = (s1, [VerifyAndAggregateProvisions 50 1 9 1000 real_state
              [attack_impostor; attack_faulty; attack_correct 3] [8; 2; 4] 4]) /\
    verify real_state [attack_impostor; attack_faulty; attack_correct 3] [8; 2; 4] 4%nat
    = Some ([attack_faulty; attack_correct 3], proof1) /\
    answered [attack_faulty; attack_correct 3] proof1 s1 = (s2, []) /\
    receive [attack_correct 5] s2
    = (s3, [VerifyAndAggregateProvisions 50 1 9 1000 real_state [attack_correct 5] [6] 4]) /\
    verify real_state [attack_correct 5] [6] 4%nat = Some ([attack_correct 5], proof2) /\
    EnqueueInternal (ProvisioningComplete 50 [attack_faulty])
      ∈ (answered [attack_correct 5] proof2 s3).2 /\
    sp_entries attack_faulty <> real_state.
Proof.
  cbv zeta. eexists _, _, _, _, _. split_and!.
  - vm_compute. reflexivity.
  - vm_compute. reflexivity.
  - vm_compute. reflexivity.
  - vm_compute. reflexivity.
  - vm_compute. reflexivity.
  - vm_compute. right. left.
  - discriminate.
Qed.
