(* ===== verification/Mempool.v ===== *)
(** * The mempool (crates/mempool/src/state.rs)

    The pool of transactions with their statuses, the locks that transactions in
    flight hold on the nodes they declare, the ready sets a proposer takes a
    block from, which are maintained incrementally, and the retries of deferred
    transactions.  [MempoolInv] proves what every run keeps; [MempoolReady] is
    about what a proposer gets. *)

From stdpp Require Import base gmap list numbers sorting.
From Stdlib Require Import NArith Lia.
From S2P Require Import Prelude Bitfield Types Encoding Topology Transactions VoteSet Core.

Definition TRANSACTION_RETENTION_BLOCKS : u64 := 100.
Definition DEFAULT_IN_FLIGHT_LIMIT : usize := 512.
Definition DEFAULT_IN_FLIGHT_HARD_LIMIT : usize := 1024.
Definition DEFAULT_MAX_PENDING : usize := 2048.

Record MempoolConfig := mk_mempool_config {
  max_in_flight : usize;
  max_in_flight_hard_limit : usize;
  max_pending : usize
}.

Definition default_mempool_config : MempoolConfig :=
  mk_mempool_config DEFAULT_IN_FLIGHT_LIMIT DEFAULT_IN_FLIGHT_HARD_LIMIT DEFAULT_MAX_PENDING.

Record LockContentionStats := mk_lock_contention_stats {
  lcs_locked_nodes : usize;
  lcs_deferred_count : usize;
  lcs_pending_count : usize;
  lcs_pending_deferred : usize;
  lcs_committed_count : usize;
  lcs_executed_count : usize
}.

Record PoolEntry := mk_pool_entry {
  pe_tx : RoutableTransaction;
  pe_status : TransactionStatus;
  pe_added_at : Duration;
  pe_cross_shard : bool;
  pe_submitted_locally : bool
}.

#[export] Instance PoolEntry_eta : Eta PoolEntry := fun e =>
  mk_pool_entry (pe_tx e) (pe_status e) (pe_added_at e) (pe_cross_shard e)
    (pe_submitted_locally e).

Record ReadyEntry := mk_ready_entry {
  re_tx : RoutableTransaction;
  re_has_provisions : bool
}.

Record MempoolState := mk_mempool {
  mp_pool : gmap Hash PoolEntry;
  mp_deferred_by : gmap Hash (RoutableTransaction * Hash * BlockHeight);
  mp_deferred_losers_by_winner : gmap Hash (list Hash);
  mp_pending_deferrals : gmap Hash (Hash * BlockHeight);
  mp_pending_retries : gmap Hash (Hash * BlockHeight);
  mp_completed_winners : gmap Hash BlockHeight;
  mp_tombstones : gmap Hash BlockHeight;
  mp_recently_evicted : gmap Hash (RoutableTransaction * BlockHeight);
  mp_locked_nodes_cache : gset NodeId;
  mp_committed_count : usize;
  mp_executed_count : usize;
  mp_ready_retries : gmap Hash ReadyEntry;
  mp_ready_priority : gmap Hash ReadyEntry;
  mp_ready_others : gmap Hash ReadyEntry;
  mp_deferred_by_nodes : gmap Hash (gset NodeId);
  mp_txs_deferred_by_node : gmap NodeId (gset Hash);
  mp_ready_txs_by_node : gmap NodeId (gset Hash);
  mp_now : Duration;
  mp_current_height : BlockHeight;
  mp_config : MempoolConfig
}.

#[export] Instance MempoolState_eta : Eta MempoolState := fun s =>
  mk_mempool (mp_pool s) (mp_deferred_by s) (mp_deferred_losers_by_winner s)
    (mp_pending_deferrals s) (mp_pending_retries s) (mp_completed_winners s) (mp_tombstones s)
    (mp_recently_evicted s) (mp_locked_nodes_cache s) (mp_committed_count s) (mp_executed_count s)
    (mp_ready_retries s) (mp_ready_priority s) (mp_ready_others s) (mp_deferred_by_nodes s)
    (mp_txs_deferred_by_node s) (mp_ready_txs_by_node s) (mp_now s) (mp_current_height s)
    (mp_config s).

Definition mempool := handler MempoolState Action.

Definition mempool_with_config (config : MempoolConfig) : MempoolState :=
  mk_mempool ∅ ∅ ∅ ∅ ∅ ∅ ∅ ∅ ∅ 0 0 ∅ ∅ ∅ ∅ ∅ ∅ 0 0 config.
Definition mempool_new : MempoolState := mempool_with_config default_mempool_config.

Definition mempool_set_time (now : Duration) (s : MempoolState) : MempoolState :=
  s <| mp_now := now |>.

Definition is_tombstoned (s : MempoolState) (tx_hash : Hash) : bool :=
  contains_key (mp_tombstones s) tx_hash.

Definition emit_status (tx_hash : Hash) (status : TransactionStatus) (entry : PoolEntry) : Action :=
  EmitTransactionStatus tx_hash status (pe_added_at entry) (pe_cross_shard entry)
    (pe_submitted_locally entry).

(** ** Ready sets *)

Definition add_to_ready_set (hash : Hash) (tx : RoutableTransaction) (s : MempoolState)
    : MempoolState :=
  let ready_entry := mk_ready_entry tx false in
  let s := s <| mp_ready_txs_by_node ::= fun m =>
                  foldl (fun m node => mm_insert node hash m) m (all_declared_nodes tx) |> in
  if is_retry tx then s <| mp_ready_retries ::= <[hash := ready_entry]> |>
  else s <| mp_ready_others ::= <[hash := ready_entry]> |>.

Definition add_to_ready_tracking (hash : Hash) (tx : RoutableTransaction) (s : MempoolState)
    : MempoolState :=
  let blocking_nodes : gset NodeId :=
    list_to_set (filter (fun node => node ∈ mp_locked_nodes_cache s) (all_declared_nodes tx)) in
  if bool_decide (blocking_nodes <> ∅) then
    s <| mp_txs_deferred_by_node ::= fun m =>
           foldl (fun m node => mm_insert node hash m) m (elements blocking_nodes) |>
      <| mp_deferred_by_nodes ::= <[hash := blocking_nodes]> |>
  else add_to_ready_set hash tx s.

Definition remove_from_ready_txs_by_node (hash : Hash) (tx : RoutableTransaction)
    (s : MempoolState) : MempoolState :=
  s <| mp_ready_txs_by_node ::= fun m =>
         foldl (fun m node => mm_remove node hash m) m (all_declared_nodes tx) |>.

Definition remove_from_ready_tracking (hash : Hash) (s : MempoolState) : MempoolState :=
  let s :=
    match mp_ready_retries s !! hash with
    | Some entry =>
        remove_from_ready_txs_by_node hash (re_tx entry)
          (s <| mp_ready_retries ::= delete hash |>)
    | None =>
        match mp_ready_priority s !! hash with
        | Some entry =>
            remove_from_ready_txs_by_node hash (re_tx entry)
              (s <| mp_ready_priority ::= delete hash |>)
        | None =>
            match mp_ready_others s !! hash with
            | Some entry =>
                remove_from_ready_txs_by_node hash (re_tx entry)
                  (s <| mp_ready_others ::= delete hash |>)
            | None => s
            end
        end
    end in
  match mp_deferred_by_nodes s !! hash with
  | Some blocking_nodes =>
      s <| mp_deferred_by_nodes ::= delete hash |>
        <| mp_txs_deferred_by_node ::= fun m =>
             foldl (fun m node => mm_remove node hash m) m (elements blocking_nodes) |>
  | None => s
  end.

Definition on_provision_verified (tx_hash : Hash) (s : MempoolState) : MempoolState :=
  match mp_ready_others s !! tx_hash with
  | Some entry =>
      s <| mp_ready_others ::= delete tx_hash |>
        <| mp_ready_priority ::= <[tx_hash := mk_ready_entry (re_tx entry) true]> |>
  | None => s
  end.

Section locking.
Context `{HashIter}.

(** [ready_retries.remove(h).or_else(..ready_priority..).or_else(..ready_others..)]. *)
Definition take_ready (hash : Hash) (s : MempoolState) : option ReadyEntry * MempoolState :=
  match mp_ready_retries s !! hash with
  | Some e => (Some e, s <| mp_ready_retries ::= delete hash |>)
  | None =>
      match mp_ready_priority s !! hash with
      | Some e => (Some e, s <| mp_ready_priority ::= delete hash |>)
      | None =>
          match mp_ready_others s !! hash with
          | Some e => (Some e, s <| mp_ready_others ::= delete hash |>)
          | None => (None, s)
          end
      end
  end.

(** One transaction that declares the node that is now locked. *)
Definition block_transaction (node : NodeId) (s : MempoolState) (hash : Hash) : MempoolState :=
  match take_ready hash s with
  | (Some entry, s) =>
      s <| mp_ready_txs_by_node ::= fun m =>
             foldl (fun m other_node => mm_remove other_node hash m) m
               (filter (fun other_node => other_node <> node) (all_declared_nodes (re_tx entry))) |>
        <| mp_deferred_by_nodes ::= mm_insert hash node |>
        <| mp_txs_deferred_by_node ::= mm_insert node hash |>
  | (None, s) => s
  end.

Definition block_transactions_for_node (node : NodeId) (s : MempoolState) : MempoolState :=
  match mp_ready_txs_by_node s !! node with
  | None => s
  | Some tx_hashes =>
      foldl (block_transaction node) (s <| mp_ready_txs_by_node ::= delete node |>)
        (hs_iter tx_hashes)
  end.

(** Remove the node from the blockers of one transaction, and collect the
    transaction when it was the last. *)
Definition unblock (node : NodeId) (acc : MempoolState * list (Hash * RoutableTransaction))
    (tx_hash : Hash) : MempoolState * list (Hash * RoutableTransaction) :=
  let '(s, to_promote) := acc in
  match mp_deferred_by_nodes s !! tx_hash with
  | None => (s, to_promote)
  | Some blocking_nodes =>
      let blocking_nodes := blocking_nodes ∖ {[node]} in
      if bool_decide (blocking_nodes = ∅) then
        (s <| mp_deferred_by_nodes ::= delete tx_hash |>,
         match mp_pool s !! tx_hash with
         | Some entry =>
             if bool_decide (pe_status entry = Pending) then to_promote ++ [(tx_hash, pe_tx entry)]
             else to_promote
         | None => to_promote
         end)
      else (s <| mp_deferred_by_nodes ::= <[tx_hash := blocking_nodes]> |>, to_promote)
  end.

Definition promote_transactions_for_node (node : NodeId) (s : MempoolState) : MempoolState :=
  match mp_txs_deferred_by_node s !! node with
  | None => s
  | Some deferred_txs =>
      let '(s, to_promote) :=
        foldl (unblock node) (s <| mp_txs_deferred_by_node ::= delete node |>, [])
          (hs_iter deferred_txs) in
      foldl (fun s '(hash, tx) => add_to_ready_set hash tx s) s to_promote
  end.

Definition lock_node (s : MempoolState) (node : NodeId) : MempoolState :=
  if bool_decide (node ∈ mp_locked_nodes_cache s) then s
  else block_transactions_for_node node (s <| mp_locked_nodes_cache ::= union {[node]} |>).

Definition unlock_node (s : MempoolState) (node : NodeId) : MempoolState :=
  if bool_decide (node ∈ mp_locked_nodes_cache s) then
    promote_transactions_for_node node
      (s <| mp_locked_nodes_cache ::= fun X => X ∖ {[node]} |>)
  else s.

Definition add_locked_nodes (tx : RoutableTransaction) (s : MempoolState) : MempoolState :=
  foldl lock_node s (all_declared_nodes tx).

Definition remove_locked_nodes (tx : RoutableTransaction) (s : MempoolState) : MempoolState :=
  foldl unlock_node s (all_declared_nodes tx).

(** ** Leaving the pool *)

(** The counter of the status a transaction leaves. *)
Definition uncount (status : TransactionStatus) (s : MempoolState) : MempoolState :=
  match status with
  | Committed _ => s <| mp_committed_count ::= fun c => (c - 1)%nat |>
  | Executed _ _ => s <| mp_executed_count ::= fun c => (c - 1)%nat |>
  | _ => s
  end.

Definition evict_terminal (tx_hash : Hash) (s : MempoolState) : MempoolState :=
  let s :=
    match mp_pool s !! tx_hash with
    | Some entry =>
        if Status.holds_state_lock (pe_status entry)
        then uncount (pe_status entry) (remove_locked_nodes (pe_tx entry) s)
        else s
    | None => s
    end in
  let s := remove_from_ready_tracking tx_hash s in
  let s :=
    match mp_pool s !! tx_hash with
    | Some entry =>
        s <| mp_pool ::= delete tx_hash |>
          <| mp_recently_evicted ::= <[tx_hash := (pe_tx entry, mp_current_height s)]> |>
    | None => s
    end in
  s <| mp_tombstones ::= <[tx_hash := mp_current_height s]> |>.

Definition prune_recently_evicted (s : MempoolState) : MempoolState :=
  let cutoff := mp_current_height s - TRANSACTION_RETENTION_BLOCKS in
  s <| mp_recently_evicted ::= hm_retain (fun _ e => cutoff <? e.2) |>.

Definition mark_completed (tx_hash : Hash) (decision : TransactionDecision) : mempool := fun s =>
  match mp_pool s !! tx_hash with
  | Some entry => (evict_terminal tx_hash s, [emit_status tx_hash (Completed decision) entry])
  | None => (s, [])
  end.

(** ** Status updates *)

(** Counting a transition, first for [Committed] and then for [Executed]. *)
Definition count_committed (old new : TransactionStatus) (c : usize) : usize :=
  if Status.is_committed new then if Status.is_committed old then c else S c
  else if Status.is_committed old then (c - 1)%nat else c.
Definition count_executed (old new : TransactionStatus) (c : usize) : usize :=
  if Status.is_executed new then if Status.is_executed old then c else S c
  else if Status.is_executed old then (c - 1)%nat else c.

Definition update_status (tx_hash : Hash) (new_status : TransactionStatus) : mempool := fun s =>
  match mp_pool s !! tx_hash with
  | None => (s, [])
  | Some entry =>
      let old_status := pe_status entry in
      if bool_decide (old_status = new_status) then (s, [])
      else if Status.can_transition_to old_status new_status then
        let was_holding := Status.holds_state_lock old_status in
        let will_hold := Status.holds_state_lock new_status in
        let s := if negb was_holding && will_hold then add_locked_nodes (pe_tx entry) s else s in
        let s := if was_holding && negb will_hold then remove_locked_nodes (pe_tx entry) s else s in
        let s := s <| mp_committed_count ::= count_committed old_status new_status |>
                   <| mp_executed_count ::= count_executed old_status new_status |>
                   <| mp_pool ::= <[tx_hash := entry <| pe_status := new_status |>]> |> in
        (s, [emit_status tx_hash new_status entry])
      else (s, [])
  end.
End locking.

Section mempool.
Context `{Crypto} `{T : Topology} `{HashIter}.

(** ** Submission, gossip *)

Definition pending_entry (tx : RoutableTransaction) (submitted_locally : bool) (s : MempoolState)
    : PoolEntry :=
  mk_pool_entry tx Pending (mp_now s) (writes_cross_shard tx num_shards) submitted_locally.

Definition insert_pending (tx : RoutableTransaction) (submitted_locally : bool) (s : MempoolState)
    : MempoolState :=
  s <| mp_pool ::= <[rt_hash tx := pending_entry tx submitted_locally s]> |>.

Definition on_submit_transaction (tx : RoutableTransaction) : mempool := fun s =>
  let hash := rt_hash tx in
  match mp_pool s !! hash with
  | Some entry => (s, [emit_status hash Pending entry])
  | None =>
      if is_tombstoned s hash then (s, [])
      else (add_to_ready_tracking hash tx (insert_pending tx true s),
            [emit_status hash Pending (pending_entry tx true s)])
  end.

Definition on_transaction_gossip (tx : RoutableTransaction) : mempool := fun s =>
  let hash := rt_hash tx in
  if contains_key (mp_pool s) hash || is_tombstoned s hash then (s, [])
  else (add_to_ready_tracking hash tx (insert_pending tx false s), []).

Definition broadcast_to_transaction_shards (tx : RoutableTransaction) : list Action :=
  (fun shard => BroadcastToShard shard (TransactionGossipMessage tx))
    <$> all_shards_for_transaction tx.

(** ** Retries *)

(** The original becomes [Retried] and leaves the pool. *)
Definition retire_loser (loser_hash retry_hash : Hash) : mempool := fun s =>
  match mp_pool s !! loser_hash with
  | Some entry =>
      (evict_terminal loser_hash s, [emit_status loser_hash (Retried retry_hash) entry])
  | None => (s, [])
  end.

Definition add_retry (retry_tx : RoutableTransaction) : mempool := fun s =>
  let retry_hash := rt_hash retry_tx in
  if negb (contains_key (mp_pool s) retry_hash) && negb (is_tombstoned s retry_hash) then
    (add_to_ready_tracking retry_hash retry_tx (insert_pending retry_tx false s),
     emit_status retry_hash Pending (pending_entry retry_tx false s)
     :: broadcast_to_transaction_shards retry_tx)
  else (s, []).

(** The body that [on_certificate_committed], [on_winner_aborted] and
    [on_transaction_executed] repeat inline. *)
Definition create_retry_for_transaction (loser_tx : RoutableTransaction)
    (loser_hash winner_hash : Hash) (height : BlockHeight) : mempool :=
  let retry_tx := create_retry loser_tx winner_hash height in
  retire_loser loser_hash (rt_hash retry_tx) ;> add_retry retry_tx.

(** [deferred_losers_by_winner.remove(&winner).unwrap_or_default()], and the
    body for each loser. *)
Definition for_losers (winner : Hash) (f : Hash -> mempool) : mempool := fun s =>
  let loser_hashes := default [] (mp_deferred_losers_by_winner s !! winner) in
  for_each f loser_hashes (s <| mp_deferred_losers_by_winner ::= delete winner |>).

Definition retry_on_certificate (height : BlockHeight) (loser_hash : Hash) : mempool := fun s =>
  match mp_deferred_by s !! loser_hash with
  | Some (loser_tx, winner_hash, _) =>
      create_retry_for_transaction loser_tx loser_hash winner_hash height
        (s <| mp_deferred_by ::= delete loser_hash |>)
  | None =>
      match mp_pending_deferrals s !! loser_hash with
      | Some (winner_hash, _) =>
          (s <| mp_pending_deferrals ::= delete loser_hash |>
             <| mp_pending_retries ::= <[loser_hash := (winner_hash, height)]> |>, [])
      | None => (s, [])
      end
  end.

Definition on_certificate_committed (tx_hash : Hash) (decision : TransactionDecision)
    (height : BlockHeight) : mempool :=
  (fun s =>
     match mp_pool s !! tx_hash with
     | Some entry => (evict_terminal tx_hash s, [emit_status tx_hash (Completed decision) entry])
     | None => (s, [])
     end) ;>
  hupd (fun s => s <| mp_completed_winners ::= <[tx_hash := height]> |>) ;>
  for_losers tx_hash (retry_on_certificate height).

(** A loser whose retry names [winner]: the winner given, or the recorded one. *)
Definition retry_deferred (winner : option Hash) (height : BlockHeight) (loser_hash : Hash)
    : mempool := fun s =>
  match mp_deferred_by s !! loser_hash with
  | Some (loser_tx, winner_hash, _) =>
      create_retry_for_transaction loser_tx loser_hash (default winner_hash winner) height
        (s <| mp_deferred_by ::= delete loser_hash |>)
  | None => (s, [])
  end.

Definition on_winner_aborted (winner_hash : Hash) (height : BlockHeight) : mempool :=
  for_losers winner_hash (retry_deferred (Some winner_hash) height).

(** The status change of [on_transaction_executed]. *)
Definition set_executed (tx_hash : Hash) (accepted : bool) : mempool := fun s =>
  match mp_pool s !! tx_hash with
  | None => (s, [])
  | Some entry =>
      let decision := if accepted then Accept else Reject in
      let '(s, committed_at) :=
        match pe_status entry with
        | Committed height =>
            (s <| mp_committed_count ::= fun c => (c - 1)%nat |>
               <| mp_executed_count ::= S |>, height)
        | Executed _ committed_at => (s, committed_at)
        | _ => (s, mp_current_height s)
        end in
      let status := Executed decision committed_at in
      (s <| mp_pool ::= <[tx_hash := entry <| pe_status := status |>]> |>,
       [emit_status tx_hash status entry])
  end.

Definition on_transaction_executed (tx_hash : Hash) (accepted : bool) : mempool :=
  set_executed tx_hash accepted ;>
  (fun s => for_losers tx_hash (retry_deferred None (mp_current_height s)) s).

(** ** Deferrals *)

Definition on_deferral_committed (tx_hash : Hash) (reason : DeferReason) (height : BlockHeight)
    : mempool := fun s =>
  let '(LivelockCycle winner_tx_hash) := reason in
  match mp_completed_winners s !! winner_tx_hash with
  | Some cert_height =>
      match mp_pool s !! tx_hash with
      | Some entry =>
          create_retry_for_transaction (pe_tx entry) tx_hash winner_tx_hash cert_height s
      | None => (s <| mp_pending_retries ::= <[tx_hash := (winner_tx_hash, cert_height)]> |>, [])
      end
  | None =>
      let push_loser s :=
        s <| mp_deferred_losers_by_winner ::= fun m =>
               <[winner_tx_hash := default [] (m !! winner_tx_hash) ++ [tx_hash]]> m |> in
      match mp_pool s !! tx_hash with
      | Some entry =>
          let old_status := pe_status entry in
          let new_status := Deferred winner_tx_hash in
          if Status.can_transition_to old_status new_status then
            let s := s <| mp_pool ::= <[tx_hash := entry <| pe_status := new_status |>]> |> in
            let s := remove_from_ready_tracking tx_hash s in
            let s := if Status.holds_state_lock old_status
                     then uncount old_status (remove_locked_nodes (pe_tx entry) s) else s in
            let s := s <| mp_deferred_by ::= <[tx_hash := (pe_tx entry, winner_tx_hash, height)]> |> in
            (push_loser s, [emit_status tx_hash new_status entry])
          else (s, [])
      | None =>
          (push_loser (s <| mp_pending_deferrals ::= <[tx_hash := (winner_tx_hash, height)]> |>), [])
      end
  end.

(** ** Committed blocks *)

(** A committed transaction that the pool does not have, and its pending retry. *)
Definition ensure_in_pool (tx : RoutableTransaction) : mempool := fun s =>
  let hash := rt_hash tx in
  if contains_key (mp_pool s) hash then (s, [])
  else
    let s := insert_pending tx false s in
    match mp_pending_retries s !! hash with
    | Some (winner_hash, cert_height) =>
        create_retry_for_transaction tx hash winner_hash cert_height
          (s <| mp_pending_retries ::= delete hash |>)
    | None => (s, [])
    end.

Definition mark_committed (height : BlockHeight) (tx : RoutableTransaction) : mempool := fun s =>
  let hash := rt_hash tx in
  match mp_pool s !! hash with
  | Some entry =>
      if bool_decide (pe_status entry = Pending) then
        let s := s <| mp_pool ::= <[hash := entry <| pe_status := Committed height |>]> |> in
        let s := remove_from_ready_tracking hash s in
        let s := add_locked_nodes tx s in
        (s <| mp_committed_count ::= S |>, [emit_status hash (Committed height) entry])
      else (s, [])
  | None => (s, [])
  end.

Definition process_abort (height : BlockHeight) (abort : TransactionAbort) : mempool :=
  (fun s =>
     match mp_pool s !! ta_tx_hash abort with
     | Some entry =>
         (evict_terminal (ta_tx_hash abort) s,
          [emit_status (ta_tx_hash abort) (Aborted (ta_reason abort)) entry])
     | None => (s, [])
     end) ;>
  on_winner_aborted (ta_tx_hash abort) height.

Definition on_block_committed_full (block : Block) : mempool :=
  let height := bh_height (bl_header block) in
  hupd (fun s => prune_recently_evicted (s <| mp_current_height := height |>)) ;>
  for_each ensure_in_pool (all_transactions block) ;>
  for_each (mark_committed height) (all_transactions block) ;>
  for_each (fun d => on_deferral_committed (td_tx_hash d) (td_reason d) height) (bl_deferred block) ;>
  for_each (fun c => on_certificate_committed (tc_transaction_hash c) (tc_decision c) height)
    (bl_certificates block) ;>
  for_each (process_abort height) (bl_aborted block).

(** The deprecated form, one hash at a time. *)
Definition legacy_commit (height : BlockHeight) (s : MempoolState) (hash : Hash) : MempoolState :=
  match mp_pool s !! hash with
  | None => s
  | Some entry =>
      let s := if negb (Status.holds_state_lock (pe_status entry))
               then (add_locked_nodes (pe_tx entry) s) <| mp_committed_count ::= S |> else s in
      s <| mp_pool ::= <[hash := entry <| pe_status := Committed height |>]> |>
  end.

Definition mempool_on_block_committed (tx_hashes : list Hash) (height : BlockHeight)
    (s : MempoolState) : MempoolState := foldl (legacy_commit height) s tx_hashes.

(** ** Cleanup *)

Definition forget_deferred (s : MempoolState) (loser_hash : Hash) : MempoolState :=
  match mp_deferred_by s !! loser_hash with
  | None => s
  | Some (_, winner_hash, _) =>
      s <| mp_deferred_by ::= delete loser_hash |>
        <| mp_deferred_losers_by_winner ::= fun m =>
             match m !! winner_hash with
             | Some losers =>
                 let losers := filter (fun h => h <> loser_hash) losers in
                 if Nat.eqb (length losers) 0 then delete winner_hash m
                 else <[winner_hash := losers]> m
             | None => m
             end |>
  end.

(** Returns the number of tombstones removed. *)
Definition cleanup_old_tombstones (current_height : BlockHeight) (retention_blocks : u64)
    (s : MempoolState) : MempoolState * usize :=
  let cutoff := current_height - retention_blocks in
  let before_count := size (mp_tombstones s) in
  let s := s <| mp_tombstones ::= hm_retain (fun _ h => cutoff <? h) |>
             <| mp_completed_winners ::= hm_retain (fun _ h => cutoff <? h) |>
             <| mp_pending_deferrals ::= hm_retain (fun _ e => cutoff <? e.2) |>
             <| mp_pending_retries ::= hm_retain (fun _ e => cutoff <? e.2) |> in
  let stale_deferred := fst <$> filter (fun kv => kv.2.2 <= cutoff) (hm_iter (mp_deferred_by s)) in
  let s := foldl forget_deferred s stale_deferred in
  (s, (before_count - size (mp_tombstones s))%nat).
End mempool.

(** ** Queries *)

Definition in_flight (s : MempoolState) : usize := (mp_committed_count s + mp_executed_count s)%nat.

Definition at_in_flight_limit (s : MempoolState) : bool :=
  Nat.leb (max_in_flight (mp_config s)) (in_flight s).
Definition at_in_flight_hard_limit (s : MempoolState) : bool :=
  Nat.leb (max_in_flight_hard_limit (mp_config s)) (in_flight s).

Definition pending_count (s : MempoolState) : usize :=
  length (filter (fun e => pe_status e = Pending) (btree_values (mp_pool s))).
Definition at_pending_limit (s : MempoolState) : bool :=
  Nat.leb (max_pending (mp_config s)) (pending_count s).

Definition has_transaction (s : MempoolState) (hash : Hash) : bool :=
  contains_key (mp_pool s) hash.

Definition get_transaction (s : MempoolState) (hash : Hash) : option RoutableTransaction :=
  match mp_pool s !! hash with
  | Some entry => Some (pe_tx entry)
  | None => fst <$> mp_recently_evicted s !! hash
  end.

Definition mempool_status (s : MempoolState) (hash : Hash) : option TransactionStatus :=
  pe_status <$> mp_pool s !! hash.

Definition transactions_by_hash (s : MempoolState) : gmap Hash RoutableTransaction :=
  pe_tx <$> mp_pool s.

Definition incomplete_transactions (s : MempoolState)
    : list (Hash * TransactionStatus * RoutableTransaction) :=
  (fun kv => (kv.1, pe_status kv.2, pe_tx kv.2)) <$>
    filter (fun kv => match pe_status kv.2 with
                      | Executed _ _ | Completed _ => false
                      | _ => true
                      end = true) (btree_iter (mp_pool s)).

Definition lock_contention_stats (s : MempoolState) : LockContentionStats :=
  let ready_count :=
    (size (mp_ready_retries s) + size (mp_ready_priority s) + size (mp_ready_others s))%nat in
  {| lcs_locked_nodes := size (mp_locked_nodes_cache s);
     lcs_deferred_count := size (mp_deferred_by s);
     lcs_pending_count := (ready_count + size (mp_deferred_by_nodes s))%nat;
     lcs_pending_deferred := size (mp_deferred_by_nodes s);
     lcs_committed_count := mp_committed_count s;
     lcs_executed_count := mp_executed_count s |}.

(** [for entry in values { if remaining == 0 { break } push; remaining -= 1 }]. *)
Definition take_values (remaining : usize) (m : gmap Hash ReadyEntry)
    : list RoutableTransaction * usize :=
  let taken := take remaining (re_tx <$> btree_values m) in
  (taken, (remaining - length taken)%nat).

Definition ready_transactions (s : MempoolState)
    (max_count pending_commit_tx_count pending_commit_cert_count : usize) : ReadyTransactions :=
  let effective_in_flight :=
    (in_flight s + pending_commit_tx_count - pending_commit_cert_count)%nat in
  let at_soft_limit := Nat.leb (max_in_flight (mp_config s)) effective_in_flight in
  let at_hard_limit := Nat.leb (max_in_flight_hard_limit (mp_config s)) effective_in_flight in
  if at_hard_limit then mk_ready_transactions [] [] []
  else
    let room_to_hard_limit := (max_in_flight_hard_limit (mp_config s) - effective_in_flight)%nat in
    let max_count := Nat.min max_count room_to_hard_limit in
    let '(retries, remaining) := take_values max_count (mp_ready_retries s) in
    let '(priority, remaining) := take_values remaining (mp_ready_priority s) in
    let others := if at_soft_limit then [] else (take_values remaining (mp_ready_others s)).1 in
    mk_ready_transactions retries priority others.

(** The aborts of one pool entry; the proposer fills in the height. *)
Definition timed_out_aborts (current_height : BlockHeight) (timeout_blocks : u64) (max_retries : N)
    (hash : Hash) (entry : PoolEntry) : list TransactionAbort :=
  match pe_status entry with
  | Completed _ => []
  | status =>
      let committed_at :=
        match status with
        | Committed height => Some height
        | Executed _ committed_at => Some committed_at
        | _ => None
        end in
      match committed_at with
      | Some committed_at =>
          if timeout_blocks <=? current_height - committed_at
          then [mk_transaction_abort hash (ExecutionTimeout committed_at) 0] else []
      | None => []
      end
      ++ (if exceeds_max_retries (pe_tx entry) max_retries
          then [mk_transaction_abort hash (TooManyRetries (retry_count (pe_tx entry))) 0] else [])
  end.

Definition get_timed_out_transactions (s : MempoolState) (current_height : BlockHeight)
    (timeout_blocks : u64) (max_retries : N) : list TransactionAbort :=
  flat_map (fun kv => timed_out_aborts current_height timeout_blocks max_retries kv.1 kv.2)
    (btree_iter (mp_pool s)).
