(* ===== verification/MempoolInv.v ===== *)
(** * What the mempool keeps (crates/mempool/src/state.rs)

    The ready sets, the transactions held back by locked nodes and the two
    reverse indexes are updated incrementally by every handler.  The invariant
    says that they fit together; it is proved for each primitive, then for the
    handlers, then for every run. *)

From stdpp Require Import base gmap list numbers sorting.
From Stdlib Require Import NArith Lia.
From S2P Require Import Prelude Bitfield Types Encoding Topology Transactions VoteSet Core.
From S2P Require Import Mempool.

(** ** The invariant *)

(** The ready entry of a transaction, in whichever section. *)
Definition ready_of (s : MempoolState) (h : Hash) : option ReadyEntry :=
  match mp_ready_retries s !! h with
  | Some e => Some e
  | None => match mp_ready_priority s !! h with
            | Some e => Some e
            | None => mp_ready_others s !! h
            end
  end.

(** The nodes a transaction is held back by. *)
Definition held_back (s : MempoolState) (h : Hash) : gset NodeId :=
  mm_get (mp_deferred_by_nodes s) h.

(** The sections do not overlap; retries are in their own section, and the
    priority section holds the transactions with provisions. *)
Record sections_ok (s : MempoolState) : Prop := {
  so_retries h e : mp_ready_retries s !! h = Some e ->
    mp_ready_priority s !! h = None /\ mp_ready_others s !! h = None /\
    is_retry (re_tx e) = true /\ re_has_provisions e = false;
  so_priority h e : mp_ready_priority s !! h = Some e ->
    mp_ready_retries s !! h = None /\ mp_ready_others s !! h = None /\
    is_retry (re_tx e) = false /\ re_has_provisions e = true;
  so_others h e : mp_ready_others s !! h = Some e ->
    mp_ready_retries s !! h = None /\ mp_ready_priority s !! h = None /\
    is_retry (re_tx e) = false /\ re_has_provisions e = false
}.

(** The tracking structures, with the rows of the ready index given by [P] and
    the rows of the deferred index by [Q]; both hold of every node except inside
    the loops that empty one row. *)
Record tracking_inv (P Q : NodeId -> Prop) (s : MempoolState) : Prop := {
  ti_sections : sections_ok s;
  ti_exclusive h e : ready_of s h = Some e -> mp_deferred_by_nodes s !! h = None;
  ti_ready n h : h ∈ mm_get (mp_ready_txs_by_node s) n <->
    P n /\ exists e, ready_of s h = Some e /\ n ∈ all_declared_nodes (re_tx e);
  ti_deferred n h : h ∈ mm_get (mp_txs_deferred_by_node s) n <-> Q n /\ n ∈ held_back s h;
  ti_compact1 : mm_compact (mp_ready_txs_by_node s);
  ti_compact2 : mm_compact (mp_txs_deferred_by_node s);
  ti_compact3 : mm_compact (mp_deferred_by_nodes s);
  ti_pool h e : ready_of s h = Some e ->
    exists pe, mp_pool s !! h = Some pe /\ pe_tx pe = re_tx e;
  ti_held n h : n ∈ held_back s h ->
    (exists pe, mp_pool s !! h = Some pe /\ n ∈ all_declared_nodes (pe_tx pe)) /\
    (n ∈ mp_locked_nodes_cache s \/ ~ Q n);
  ti_hash h pe : mp_pool s !! h = Some pe -> rt_hash (pe_tx pe) = h
}.

Lemma sections_ok_ext s s' :
  mp_ready_retries s' = mp_ready_retries s -> mp_ready_priority s' = mp_ready_priority s ->
  mp_ready_others s' = mp_ready_others s -> sections_ok s -> sections_ok s'.
Proof. intros E1 E2 E3 [H1 H2 H3]. split; rewrite E1, E2, E3; done. Qed.

Notation every_row := (fun _ : NodeId => True).
Notation mp_inv := (tracking_inv every_row every_row).

(** Nothing is recorded about the transaction. *)
Definition untracked (s : MempoolState) (h : Hash) : Prop :=
  ready_of s h = None /\ mp_deferred_by_nodes s !! h = None.

(** The fields outside the tracking structures and the locks. *)
Definition same_core (s s' : MempoolState) : Prop :=
  mp_pool s' = mp_pool s /\ mp_deferred_by s' = mp_deferred_by s /\
  mp_deferred_losers_by_winner s' = mp_deferred_losers_by_winner s /\
  mp_pending_deferrals s' = mp_pending_deferrals s /\
  mp_pending_retries s' = mp_pending_retries s /\
  mp_completed_winners s' = mp_completed_winners s /\ mp_tombstones s' = mp_tombstones s /\
  mp_recently_evicted s' = mp_recently_evicted s /\
  mp_committed_count s' = mp_committed_count s /\ mp_executed_count s' = mp_executed_count s /\
  mp_now s' = mp_now s /\ mp_current_height s' = mp_current_height s /\ mp_config s' = mp_config s.

Lemma same_core_refl s : same_core s s.
Proof. by split_and!. Qed.

Lemma same_core_trans s1 s2 s3 : same_core s1 s2 -> same_core s2 s3 -> same_core s1 s3.
Proof. unfold same_core. intros. destruct_and!. split_and!; congruence. Qed.

Lemma same_core_pool s s' : same_core s s' -> mp_pool s' = mp_pool s.
Proof. by intros []. Qed.

Section primitives.
Implicit Types (s : MempoolState) (h : Hash) (n : NodeId) (tx : RoutableTransaction).

(** ** Adding *)

Lemma add_to_ready_set_core h tx s : same_core s (add_to_ready_set h tx s).
Proof. unfold add_to_ready_set. by case_match; split_and!. Qed.

Lemma add_to_ready_set_ready h tx s h' :
  ready_of s h = None ->
  ready_of (add_to_ready_set h tx s) h'
  = if decide (h' = h) then Some (mk_ready_entry tx false) else ready_of s h'.
Proof.
  unfold ready_of, add_to_ready_set. intros Hn.
  destruct (is_retry tx); cbn; (case_decide as Hd; [subst h'; rewrite lookup_insert_eq|
    by rewrite lookup_insert_ne]); [done|].
  destruct (mp_ready_retries s !! h); [done|]. by destruct (mp_ready_priority s !! h).
Qed.

Lemma add_to_ready_set_sections h tx s :
  sections_ok s -> ready_of s h = None -> sections_ok (add_to_ready_set h tx s).
Proof.
  intros [H1 H2 H3] Hn. unfold ready_of in Hn. unfold add_to_ready_set.
  destruct (mp_ready_retries s !! h) eqn:E1; [done|].
  destruct (mp_ready_priority s !! h) eqn:E2; [done|].
  destruct (is_retry tx) eqn:Hr; split; cbn; intros h' e'; rewrite ?lookup_insert_Some;
    destruct (decide (h' = h)) as [->|Hne]; rewrite ?lookup_insert_eq, ?lookup_insert_ne by done;
    naive_solver.
Qed.

Lemma add_to_ready_set_inv P Q h tx s pe :
  tracking_inv P Q s -> (forall n, n ∈ all_declared_nodes tx -> P n) -> untracked s h ->
  mp_pool s !! h = Some pe -> pe_tx pe = tx -> tracking_inv P Q (add_to_ready_set h tx s).
Proof.
  intros [Hs Hx Hr Hd C1 C2 C3 Hp Hh Hk] HP [Hn1 Hn2] Hpe Htx.
  pose proof (add_to_ready_set_core h tx s) as Hcore.
  assert (mp_deferred_by_nodes (add_to_ready_set h tx s) = mp_deferred_by_nodes s /\
          mp_txs_deferred_by_node (add_to_ready_set h tx s) = mp_txs_deferred_by_node s /\
          mp_locked_nodes_cache (add_to_ready_set h tx s) = mp_locked_nodes_cache s /\
          mp_ready_txs_by_node (add_to_ready_set h tx s)
          = foldl (fun m node => mm_insert node h m) (mp_ready_txs_by_node s) (all_declared_nodes tx))
    as (E1 & E2 & E3 & E4) by (unfold add_to_ready_set; by case_match).
  split.
  - by apply add_to_ready_set_sections.
  - intros h' e. rewrite add_to_ready_set_ready, E1 by done. case_decide; naive_solver.
  - intros n h'. rewrite E4, elem_of_mm_insert_all, Hr, add_to_ready_set_ready by done.
    case_decide as Hd'; [subst h'|naive_solver]. rewrite Hn1. naive_solver.
  - intros n h'. unfold held_back. rewrite E1, E2. apply Hd.
  - rewrite E4. by apply mm_insert_all_compact.
  - by rewrite E2.
  - by rewrite E1.
  - intros h' e. rewrite add_to_ready_set_ready, (same_core_pool _ _ Hcore) by done.
    case_decide; [|apply Hp]. intros [= <-]. subst h'. by exists pe.
  - intros n h'. unfold held_back. rewrite E1, E3, (same_core_pool _ _ Hcore). apply Hh.
  - intros h' pe'. rewrite (same_core_pool _ _ Hcore). apply Hk.
Qed.

Lemma add_to_ready_tracking_core h tx s : same_core s (add_to_ready_tracking h tx s).
Proof.
  unfold add_to_ready_tracking. case_bool_decide; [by split_and!|apply add_to_ready_set_core].
Qed.

Lemma add_to_ready_tracking_inv h tx s pe :
  mp_inv s -> untracked s h -> mp_pool s !! h = Some pe -> pe_tx pe = tx ->
  mp_inv (add_to_ready_tracking h tx s).
Proof.
  intros Hinv Hun Hpe Htx. unfold add_to_ready_tracking.
  case_bool_decide as Hb; [|by eapply add_to_ready_set_inv].
  set (X := list_to_set _) in *. destruct Hun as [Hn1 Hn2].
  assert (forall n, n ∈ X <-> n ∈ all_declared_nodes tx /\ n ∈ mp_locked_nodes_cache s) as HX.
  { intros n. unfold X. rewrite elem_of_list_to_set, list_elem_of_filter. tauto. }
  destruct Hinv as [Hs Hx Hr Hd C1 C2 C3 Hp Hh Hk].
  assert (forall h', held_back (s <| mp_txs_deferred_by_node ::= fun m =>
             foldl (fun m node => mm_insert node h m) m (elements X) |>
             <| mp_deferred_by_nodes ::= <[h := X]> |>) h'
           = if decide (h' = h) then X else held_back s h') as Hheld.
  { intros h'. unfold held_back, mm_get. cbn. rewrite lookup_insert.
    repeat case_decide; naive_solver. }
  split; try done.
  - by apply (sections_ok_ext s).
  - cbn. intros h' e He. change (ready_of s h' = Some e) in He.
    rewrite lookup_insert_ne by naive_solver. by eapply Hx.
  - cbn. intros n h'. rewrite elem_of_mm_insert_all, elem_of_elements, Hd, Hheld.
    case_decide; [subst h'|naive_solver]. unfold held_back, mm_get. rewrite Hn2. set_solver.
  - cbn. by apply mm_insert_all_compact.
  - cbn. intros h'. rewrite lookup_insert. case_decide; [naive_solver|apply C3].
  - intros n h'. rewrite Hheld. case_decide; [subst h'|apply Hh].
    intros [? ?]%HX. cbn. split; [|by left]. exists pe. by subst tx.
Qed.

(** ** Removing *)

Lemma remove_from_ready_tracking_core h s : same_core s (remove_from_ready_tracking h s).
Proof. unfold remove_from_ready_tracking, remove_from_ready_txs_by_node. repeat case_match; by split_and!. Qed.

Lemma remove_from_ready_tracking_locked h s :
  mp_locked_nodes_cache (remove_from_ready_tracking h s) = mp_locked_nodes_cache s.
Proof. unfold remove_from_ready_tracking, remove_from_ready_txs_by_node. by repeat case_match. Qed.

(** Taking a transaction out of the ready sets, index rows aside. *)
Lemma take_ready_spec h s :
  sections_ok s ->
  let r := take_ready h s in
  r.1 = ready_of s h /\ sections_ok r.2 /\ same_core s r.2 /\
  (forall h', ready_of r.2 h' = if decide (h' = h) then None else ready_of s h') /\
  mp_deferred_by_nodes r.2 = mp_deferred_by_nodes s /\
  mp_txs_deferred_by_node r.2 = mp_txs_deferred_by_node s /\
  mp_ready_txs_by_node r.2 = mp_ready_txs_by_node s /\
  mp_locked_nodes_cache r.2 = mp_locked_nodes_cache s.
Proof.
  intros [H1 H2 H3]. unfold take_ready, ready_of.
  destruct (mp_ready_retries s !! h) as [e|] eqn:E1; cbn;
    [|destruct (mp_ready_priority s !! h) as [e|] eqn:E2; cbn;
      [|destruct (mp_ready_others s !! h) as [e|] eqn:E3; cbn]].
  - destruct (H1 _ _ E1) as (E2 & E3 & _).
    split_and!; try done; [split; cbn; intros h' e'; rewrite ?lookup_delete; case_decide; naive_solver|].
    intros h'. rewrite lookup_delete. repeat case_decide; subst; try done. by rewrite E2, E3.
  - destruct (H2 _ _ E2) as (_ & E3 & _).
    split_and!; try done; [split; cbn; intros h' e'; rewrite ?lookup_delete; case_decide; naive_solver|].
    intros h'. rewrite lookup_delete. repeat case_decide; subst; try done. by rewrite E1, E3.
  - split_and!; try done; [split; cbn; intros h' e'; rewrite ?lookup_delete; case_decide; naive_solver|].
    intros h'. rewrite lookup_delete. repeat case_decide; subst; try done. by rewrite E1, E2.
  - split_and!; try done. intros h'. case_decide; [subst|done]. by rewrite E1, E2, E3.
Qed.

(** [remove_from_ready_tracking] with the ready part as one step. *)
Lemma remove_from_ready_tracking_eq h s :
  remove_from_ready_tracking h s =
  let s1 := match take_ready h s with
            | (Some e, s1) => remove_from_ready_txs_by_node h (re_tx e) s1
            | (None, s1) => s1
            end in
  match mp_deferred_by_nodes s1 !! h with
  | Some X => s1 <| mp_deferred_by_nodes ::= delete h |>
                 <| mp_txs_deferred_by_node ::= fun m =>
                      foldl (fun m node => mm_remove node h m) m (elements X) |>
  | None => s1
  end.
Proof. unfold remove_from_ready_tracking, take_ready. by repeat case_match; simplify_eq. Qed.

Lemma remove_ready_inv h s :
  mp_inv s ->
  let s1 := match take_ready h s with
            | (Some e, s1) => remove_from_ready_txs_by_node h (re_tx e) s1
            | (None, s1) => s1
            end in
  mp_inv s1 /\ (forall h', ready_of s1 h' = if decide (h' = h) then None else ready_of s h') /\
  mp_deferred_by_nodes s1 = mp_deferred_by_nodes s.
Proof.
  intros [Hs Hx Hr Hd C1 C2 C3 Hp Hh Hk]. pose proof (take_ready_spec h s Hs) as Ht.
  destruct (take_ready h s) as [o s1]. cbn zeta in *. cbn [fst snd] in Ht.
  destruct Ht as (-> & Hs1 & Hcore & Hready & E1 & E2 & E3 & E4).
  pose proof (same_core_pool _ _ Hcore) as Hpool.
  assert (forall s2, mp_pool s2 = mp_pool s1 -> mp_deferred_by_nodes s2 = mp_deferred_by_nodes s1 ->
    mp_txs_deferred_by_node s2 = mp_txs_deferred_by_node s1 ->
    mp_locked_nodes_cache s2 = mp_locked_nodes_cache s1 -> (forall h', ready_of s2 h' = ready_of s1 h') ->
    sections_ok s2 -> mm_compact (mp_ready_txs_by_node s2) ->
    (forall n h', h' ∈ mm_get (mp_ready_txs_by_node s2) n <->
       exists e, ready_of s1 h' = Some e /\ n ∈ all_declared_nodes (re_tx e)) -> mp_inv s2) as Hgen.
  { intros s2 F1 F2 F3 F4 F5 F6 F7 F8. split; unfold held_back; rewrite ?F1, ?F2, ?F3, ?F4, ?E1, ?E2, ?E4, ?Hpool; try done.
    - intros h' e. rewrite F5, Hready. case_decide; [done|apply Hx].
    - intros n h'. rewrite F8. setoid_rewrite F5. tauto.
    - intros h' e. rewrite F5, Hready. case_decide; [done|apply Hp]. }
  destruct (ready_of s h) as [e|] eqn:He.
  - split_and!; [apply Hgen; try done|done|done].
    + by apply (sections_ok_ext s1).
    + cbn. apply mm_remove_all_compact. by rewrite E3.
    + intros n h'. cbn. rewrite elem_of_mm_remove_all, E3, Hr, Hready.
      case_decide; [subst h'|naive_solver]. rewrite He. naive_solver.
  - split_and!; [apply Hgen; try done|done|done]; [by rewrite E3|].
    intros n h'. rewrite E3, Hr, Hready. case_decide; [subst h'|naive_solver]. rewrite He. naive_solver.
Qed.

Lemma remove_from_ready_tracking_inv h s :
  mp_inv s ->
  let s' := remove_from_ready_tracking h s in
  mp_inv s' /\ untracked s' h /\
  (forall h', h' <> h -> ready_of s' h' = ready_of s h' /\
     mp_deferred_by_nodes s' !! h' = mp_deferred_by_nodes s !! h').
Proof.
  intros Hinv. rewrite remove_from_ready_tracking_eq. cbn zeta.
  destruct (remove_ready_inv h s Hinv) as (Hinv1 & Hready & E). revert Hinv1 Hready E.
  set (s1 := match take_ready h s with (Some _, _) => _ | (None, s1) => s1 end). clearbody s1.
  intros Hinv1 Hready E.
  destruct (mp_deferred_by_nodes s1 !! h) as [X|] eqn:HX.
  - destruct Hinv1 as [Hs Hx Hr Hd C1 C2 C3 Hp Hh Hk].
    set (s2 := upd _ _).
    assert (forall h', ready_of s2 h' = ready_of s1 h') as Hr2 by done.
    assert (forall h', held_back s2 h' = if decide (h' = h) then ∅ else held_back s1 h') as Hheld.
    { intros h'. unfold held_back, mm_get, s2. cbn. rewrite lookup_delete. by repeat case_decide. }
    split_and!.
    + split; try done.
      * by apply (sections_ok_ext s1).
      * intros h' e. unfold s2. cbn. rewrite lookup_delete. case_decide; [done|]. apply Hx.
      * intros n h'. rewrite Hheld. unfold s2. cbn. rewrite elem_of_mm_remove_all, elem_of_elements, Hd.
        case_decide; [subst h'|naive_solver]. unfold held_back, mm_get. rewrite HX. set_solver.
      * unfold s2. cbn. by apply mm_remove_all_compact.
      * intros h'. unfold s2. cbn. rewrite lookup_delete. case_decide; [done|apply C3].
      * intros n h'. rewrite Hheld. case_decide; [set_solver|apply Hh].
    + split; [by rewrite Hr2, Hready, decide_True|]. unfold s2. cbn. by rewrite lookup_delete_eq.
    + intros h' Hne. rewrite Hr2, Hready, decide_False by done. split; [done|].
      unfold s2. cbn. by rewrite lookup_delete_ne, E.
  - split_and!; [done|split; [by rewrite Hready, decide_True|done]|].
    intros h' Hne. by rewrite Hready, decide_False, E.
Qed.
End primitives.

Section provisions.
Implicit Types (s : MempoolState) (h : Hash).

Lemma on_provision_verified_inv h s : mp_inv s -> mp_inv (on_provision_verified h s).
Proof.
  intros [Hs Hx Hr Hd C1 C2 C3 Hp Hh Hk]. unfold on_provision_verified.
  destruct (mp_ready_others s !! h) as [e|] eqn:He; [|by split].
  destruct (so_others _ Hs _ _ He) as (E1 & E2 & Hnr & _).
  set (s' := upd _ _).
  assert (forall h', ready_of s' h' = if decide (h' = h) then Some (mk_ready_entry (re_tx e) true)
                                      else ready_of s h') as Hready.
  { intros h'. unfold ready_of, s'. cbn. rewrite lookup_insert, lookup_delete.
    repeat case_decide; subst; try done. by rewrite E1. }
  assert (ready_of s h = Some e) as Heh by (unfold ready_of; by rewrite E1, E2).
  split; try done.
  - destruct Hs as [H1 H2 H3]. unfold s'. split; cbn; intros h' e';
      rewrite ?lookup_insert, ?lookup_delete; repeat case_decide; subst; naive_solver.
  - intros h' e'. rewrite Hready. case_decide; [subst; intros _; by eapply Hx|apply Hx].
  - intros n h'. rewrite Hready. change (mp_ready_txs_by_node s') with (mp_ready_txs_by_node s).
    rewrite Hr. case_decide; [subst; rewrite Heh|done]. naive_solver.
  - intros h' e'. rewrite Hready. case_decide; [|apply Hp]. intros [= <-]. subst h'. by apply (Hp _ _ Heh).
Qed.
End provisions.

Section locks.
Context `{HashIter}.
Implicit Types (s : MempoolState) (h : Hash) (n node : NodeId) (tx : RoutableTransaction).

(** ** Locking a node *)

Notation other_rows node := (fun n => n <> node).

Lemma block_transaction_core node s h : sections_ok s -> same_core s (block_transaction node s h).
Proof.
  intros Hs. unfold block_transaction. pose proof (take_ready_spec h s Hs) as Ht.
  destruct (take_ready h s) as [[e|] s1]; by destruct Ht as (_ & _ & Hc & _).
Qed.

Lemma block_transaction_inv node s h :
  tracking_inv (other_rows node) every_row s -> node ∈ mp_locked_nodes_cache s ->
  (forall e, ready_of s h = Some e -> node ∈ all_declared_nodes (re_tx e)) ->
  let s' := block_transaction node s h in
  tracking_inv (other_rows node) every_row s' /\
  mp_locked_nodes_cache s' = mp_locked_nodes_cache s /\
  (forall h', ready_of s' h' = if decide (h' = h) then None else ready_of s h').
Proof.
  intros [Hs Hx Hr Hd C1 C2 C3 Hp Hh Hk] Hnode Hdecl. unfold block_transaction.
  pose proof (take_ready_spec h s Hs) as Ht. destruct (take_ready h s) as [o s1].
  cbn zeta in *. cbn [fst snd] in Ht.
  destruct Ht as (-> & Hs1 & Hcore & Hready & E1 & E2 & E3 & E4).
  pose proof (same_core_pool _ _ Hcore) as Hpool.
  destruct (ready_of s h) as [e|] eqn:He.
  - set (s2 := upd _ _).
    assert (forall h', ready_of s2 h' = ready_of s1 h') as Hr2 by done.
    assert (mp_deferred_by_nodes s !! h = None) as Hnone by by eapply Hx.
    assert (forall n h', n ∈ held_back s2 h' <-> (h' = h /\ n = node) \/ n ∈ held_back s h') as Hheld.
    { intros n h'. unfold held_back, s2. cbn. by rewrite elem_of_mm_insert, E1. }
    split_and!; [|done|by intros; rewrite Hr2, Hready].
    split.
    + by apply (sections_ok_ext s1).
    + intros h' e'. rewrite Hr2, Hready. case_decide; [done|]. intros He'. unfold s2. cbn. unfold mm_insert.
      rewrite lookup_insert_ne, E1 by done. by eapply Hx.
    + intros n h'. rewrite Hr2, Hready. unfold s2. cbn.
      rewrite elem_of_mm_remove_all, list_elem_of_filter, E3, Hr.
      case_decide; [subst h'; rewrite He|]; naive_solver.
    + intros n h'. rewrite Hheld. unfold s2. cbn. rewrite elem_of_mm_insert, E2, Hd. naive_solver.
    + unfold s2. cbn. apply mm_remove_all_compact. by rewrite E3.
    + unfold s2. cbn. apply mm_insert_compact. by rewrite E2.
    + unfold s2. cbn. apply mm_insert_compact. by rewrite E1.
    + intros h' e'. rewrite Hr2, Hready. change (mp_pool s2) with (mp_pool s1). rewrite Hpool.
      case_decide; [done|apply Hp].
    + intros n h'. rewrite Hheld. change (mp_pool s2) with (mp_pool s1). rewrite Hpool.
      change (mp_locked_nodes_cache s2) with (mp_locked_nodes_cache s1). rewrite E4.
      intros [[-> ->]|Hn]; [|by apply Hh]. split; [|by left].
      destruct (Hp _ _ He) as (pe & Hpe & Htx). exists pe. rewrite Htx. split; [done|by apply Hdecl].
    + change (mp_pool s2) with (mp_pool s1). rewrite Hpool. apply Hk.
  - split_and!; [|done|done].
    assert (forall h', ready_of s1 h' = ready_of s h') as Hr1.
    { intros h'. rewrite Hready. case_decide; [by subst|done]. }
    split; unfold held_back; rewrite ?E1, ?E2, ?E3, ?E4, ?Hpool; try done.
    + intros h' e'. rewrite Hr1. apply Hx.
    + intros n h'. rewrite Hr1. apply Hr.
    + intros h' e'. rewrite Hr1. apply Hp.
Qed.

Lemma block_transaction_untracked node s h h' :
  sections_ok s -> untracked s h' -> untracked (block_transaction node s h) h'.
Proof.
  intros Hs [Hu1 Hu2]. unfold block_transaction. pose proof (take_ready_spec h s Hs) as Ht.
  destruct (take_ready h s) as [o s1]. cbn zeta in Ht. cbn [fst snd] in Ht.
  destruct Ht as (-> & _ & _ & Hready & E1 & _).
  assert (ready_of s1 h' = None) as Hr by (rewrite Hready; by case_decide).
  destruct (ready_of s h) as [e|] eqn:He; [|split; [done|by rewrite E1]].
  split; [exact Hr|]. cbn. unfold mm_insert. rewrite lookup_insert_ne, E1; [done|]. congruence.
Qed.

(** Every transaction of the row is blocked. *)
Lemma block_loop_inv node hs s :
  tracking_inv (other_rows node) every_row s -> node ∈ mp_locked_nodes_cache s -> NoDup hs ->
  (forall h e, ready_of s h = Some e -> node ∈ all_declared_nodes (re_tx e) <-> h ∈ hs) ->
  let s' := foldl (block_transaction node) s hs in
  tracking_inv every_row every_row s' /\ mp_locked_nodes_cache s' = mp_locked_nodes_cache s /\
  same_core s s' /\ (forall h, untracked s h -> untracked s' h) /\
  (forall h, ready_of s' h = if decide (h ∈ hs) then None else ready_of s h).
Proof.
  intros Hinv Hlock Hnd. revert s Hinv Hlock. induction Hnd as [|h hs Hni Hnd IH];
    intros s Hinv Hlock Hrow; cbn [foldl].
  - destruct Hinv as [Hs Hx Hr Hd C1 C2 C3 Hp Hh Hk].
    split_and!; [|done|apply same_core_refl|done|
      intros h; by rewrite decide_False by apply not_elem_of_nil].
    split; try done. intros n h. rewrite Hr. split; [naive_solver|].
    intros (_ & e & He & Hn). split; [|by exists e]. intros ->. apply (Hrow _ _ He) in Hn.
    by apply not_elem_of_nil in Hn.
  - pose proof (block_transaction_core node s h (ti_sections _ _ _ Hinv)) as Hcore.
    destruct (block_transaction_inv node s h Hinv Hlock) as (Hinv1 & Hl1 & Hr1).
    { intros e He. apply (Hrow _ _ He). by left. }
    destruct (IH _ Hinv1) as (Hinv2 & Hl2 & Hc2 & Hu2 & Hr2).
    + by rewrite Hl1.
    + intros h' e. rewrite Hr1. case_decide as Hd; [done|]. intros He. rewrite (Hrow _ _ He).
      rewrite elem_of_cons. split; [by intros [?|?]|by right].
    + split_and!; [done|by rewrite Hl2|by eapply same_core_trans| |].
      { intros h' Hun. apply Hu2, block_transaction_untracked; [apply Hinv|done]. }
      intros h'. rewrite Hr2, Hr1. destruct (decide (h' ∈ hs)) as [Hin|Hin].
      { by rewrite decide_True by by right. }
      destruct (decide (h' = h)) as [->|Hne]; [by rewrite decide_True by left|].
      rewrite decide_False; [done|]. by intros [?|?]%elem_of_cons.
Qed.

Lemma lock_node_inv s node :
  mp_inv s ->
  let s' := lock_node s node in
  mp_inv s' /\ same_core s s' /\ mp_locked_nodes_cache s' = {[node]} ∪ mp_locked_nodes_cache s /\
  (forall h, ready_of s' h = ready_of s h \/ ready_of s' h = None) /\
  (forall h, untracked s h -> untracked s' h) /\
  (forall h e, ready_of s' h = Some e -> node ∉ all_declared_nodes (re_tx e) \/ node ∈ mp_locked_nodes_cache s).
Proof.
  intros Hinv. unfold lock_node. case_bool_decide as Hl.
  { split_and!; [done|apply same_core_refl|set_solver|by left|done|by right]. }
  unfold block_transactions_for_node. cbn.
  set (s1 := upd (union {[node]}) s).
  assert (mp_inv s1) as Hinv1.
  { destruct Hinv as [Hs Hx Hr Hd C1 C2 C3 Hp Hh Hk]. split; try done.
    - by apply (sections_ok_ext s).
    - intros n h Hn. destruct (Hh n h Hn) as [Hpe [?|?]]; split; [done|left; set_solver|done|by right]. }
  change (mp_ready_txs_by_node s !! node) with (mp_ready_txs_by_node s1 !! node).
  destruct (mp_ready_txs_by_node s1 !! node) as [row|] eqn:Hrow.
  - assert (mm_get (mp_ready_txs_by_node s1) node = row) as Hget by (unfold mm_get; by rewrite Hrow).
    set (s2 := upd (delete node) s1).
    destruct (block_loop_inv node (hs_iter row) s2) as (Hinv2 & Hl2 & Hc2 & Hu2 & Hr2).
    + destruct Hinv1 as [Hs Hx Hr Hd C1 C2 C3 Hp Hh Hk]. split; try done.
      * by apply (sections_ok_ext s1).
      * intros n h. change (ready_of s2 h) with (ready_of s1 h). unfold s2, mm_get. cbn.
        rewrite lookup_delete. case_decide; [subst; set_solver|]. specialize (Hr n h). unfold mm_get in Hr. naive_solver.
      * intros n. unfold s2. cbn. rewrite lookup_delete. case_decide; [done|apply C1].
    + unfold s2, s1. cbn. set_solver.
    + apply NoDup_hs_iter.
    + intros h e. change (ready_of s2 h) with (ready_of s1 h). intros He.
      rewrite elem_of_hs_iter, <- Hget, (ti_ready _ _ _ Hinv1). naive_solver.
    + split_and!; [done|by eapply same_core_trans; [|exact Hc2]|by rewrite Hl2| |exact Hu2|].
      * intros h. rewrite Hr2. case_decide; [by right|by left].
      * intros h e. rewrite Hr2. case_decide as Hd; [done|]. intros He. left. intros Hn. apply Hd.
        rewrite elem_of_hs_iter, <- Hget, (ti_ready _ _ _ Hinv1). split; [done|by exists e].
  - split_and!; [done|by split_and!|done|by left|done|].
    intros h e He. left. intros Hn.
    assert (h ∈ mm_get (mp_ready_txs_by_node s1) node) as Hin.
    { apply (ti_ready _ _ _ Hinv1). split; [done|by exists e]. }
    unfold mm_get in Hin. rewrite Hrow in Hin. set_solver.
Qed.

(** ** Unlocking a node *)

(** Collected for promotion: pending, in the pool, and tracked nowhere. *)
Definition promotable s (ht : Hash * RoutableTransaction) : Prop :=
  untracked s ht.1 /\
  exists pe, mp_pool s !! ht.1 = Some pe /\ pe_tx pe = ht.2 /\ pe_status pe = Pending.

Lemma unblock_inv node s acc h :
  tracking_inv every_row (other_rows node) s -> node ∈ held_back s h ->
  let '(s', acc') := unblock node (s, acc) h in
  tracking_inv every_row (other_rows node) s' /\ same_core s s' /\
  mp_locked_nodes_cache s' = mp_locked_nodes_cache s /\
  (forall h', ready_of s' h' = ready_of s h') /\
  (forall h', held_back s' h' = if decide (h' = h) then held_back s h ∖ {[node]} else held_back s h') /\
  (acc' = acc \/ exists tx, acc' = acc ++ [(h, tx)] /\ promotable s' (h, tx)) /\
  (forall h', h' <> h -> mp_deferred_by_nodes s' !! h' = mp_deferred_by_nodes s !! h').
Proof.
  intros [Hs Hx Hr Hd C1 C2 C3 Hp Hh Hk] Hnode. unfold unblock.
  unfold held_back, mm_get in Hnode. destruct (mp_deferred_by_nodes s !! h) as [X|] eqn:HX; [|set_solver].
  cbn in Hnode.
  assert (ready_of s h = None) as Hnr.
  { destruct (ready_of s h) as [e|] eqn:He; [|done]. by rewrite (Hx _ _ He) in HX. }
  assert (held_back s h = X) as HhX by (unfold held_back, mm_get; by rewrite HX).
  assert (forall s', same_core s s' -> mp_locked_nodes_cache s' = mp_locked_nodes_cache s ->
    mp_ready_retries s' = mp_ready_retries s -> mp_ready_priority s' = mp_ready_priority s ->
    mp_ready_others s' = mp_ready_others s -> mp_ready_txs_by_node s' = mp_ready_txs_by_node s ->
    mp_txs_deferred_by_node s' = mp_txs_deferred_by_node s ->
    (forall h', mp_deferred_by_nodes s' !! h' =
       if decide (h' = h) then (if bool_decide (X ∖ {[node]} = ∅) then None else Some (X ∖ {[node]}))
       else mp_deferred_by_nodes s !! h') ->
    tracking_inv every_row (other_rows node) s' /\ (forall h', ready_of s' h' = ready_of s h') /\
    (forall h', held_back s' h' = if decide (h' = h) then held_back s h ∖ {[node]} else held_back s h'))
    as Hgen.
  { intros s' Hcore El E1 E2 E3 E4 E5 E6. pose proof (same_core_pool _ _ Hcore) as Hpool.
    assert (forall h', ready_of s' h' = ready_of s h') as Hready.
    { intros h'. unfold ready_of. by rewrite E1, E2, E3. }
    assert (forall h', held_back s' h' = if decide (h' = h) then X ∖ {[node]} else held_back s h') as Hheld.
    { intros h'. unfold held_back, mm_get. rewrite E6. by repeat case_decide. }
    rewrite HhX. split_and!; [|done|done]. split.
    - by apply (sections_ok_ext s).
    - intros h' e. rewrite Hready, E6. intros He. destruct (decide (h' = h)); [subst; congruence|by eapply Hx].
    - intros n h'. by rewrite E4, Hr, Hready.
    - intros n h'. rewrite E5, Hd, Hheld. destruct (decide (h' = h)) as [->|]; [rewrite HhX|done].
      rewrite elem_of_difference, elem_of_singleton. tauto.
    - by rewrite E4.
    - by rewrite E5.
    - intros h'. rewrite E6. destruct (decide (h' = h)); [|apply C3].
      by case_bool_decide as Hb; [|intros [= ?]].
    - intros h' e. rewrite Hready, Hpool. apply Hp.
    - intros n h'. rewrite Hheld, Hpool, El. destruct (decide (h' = h)) as [->|]; [|apply Hh].
      intros [Hn _]%elem_of_difference. apply Hh. by rewrite HhX.
    - rewrite Hpool. apply Hk. }
  destruct (bool_decide (X ∖ {[node]} = ∅)) eqn:Hb.
  - set (s1 := upd (delete h) s).
    destruct (Hgen s1) as (Hinv & Hready & Hheld); [by split_and!|done..| |].
    { intros h'. unfold s1. cbn. rewrite lookup_delete. by repeat case_decide. }
    split_and!; [done|by split_and!|done|done|done| |].
    + destruct (mp_pool s !! h) as [pe|] eqn:Hpe; [|by left].
      destruct (bool_decide (pe_status pe = Pending)) eqn:Hst; [|by left].
      apply bool_decide_eq_true in Hst. right. exists (pe_tx pe). split; [done|]. split.
      * split; [by rewrite Hready|]. unfold s1. cbn. by rewrite lookup_delete_eq.
      * by exists pe.
    + intros h' Hne. unfold s1. cbn. by rewrite lookup_delete_ne.
  - set (s1 := upd (insert h (X ∖ {[node]})) s).
    destruct (Hgen s1) as (Hinv & Hready & Hheld); [by split_and!|done..| |].
    { intros h'. unfold s1. cbn. rewrite lookup_insert. by repeat case_decide. }
    split_and!; [done|by split_and!|done|done|done|by left|].
    intros h' Hne. unfold s1. cbn. by rewrite lookup_insert_ne.
Qed.

Lemma unblock_loop_inv node hs s acc :
  tracking_inv every_row (other_rows node) s -> NoDup hs ->
  (forall h, node ∈ held_back s h <-> h ∈ hs) -> NoDup acc.*1 -> Forall (promotable s) acc ->
  (forall h, h ∈ acc.*1 -> h ∉ hs) ->
  let '(s', acc') := foldl (unblock node) (s, acc) hs in
  mp_inv s' /\ same_core s s' /\ mp_locked_nodes_cache s' = mp_locked_nodes_cache s /\
  (forall h', ready_of s' h' = ready_of s h') /\
  (forall h', mp_deferred_by_nodes s !! h' = None -> mp_deferred_by_nodes s' !! h' = None) /\
  (forall h', h' ∈ acc'.*1 -> h' ∈ acc.*1 \/ h' ∈ hs) /\
  NoDup acc'.*1 /\ Forall (promotable s') acc'.
Proof.
  intros Hinv Hnd. revert s acc Hinv. induction Hnd as [|h hs Hni Hnd IH];
    intros s acc Hinv Hrow Hna Hacc Hdis; cbn [foldl].
  - split_and!; try done; [|by left].
    destruct Hinv as [Hs Hx Hr Hd C1 C2 C3 Hp Hh Hk]. split; try done.
    + intros n h. rewrite Hd. split; [naive_solver|]. intros [_ Hn]. split; [|done]. intros ->.
      apply Hrow in Hn. by apply not_elem_of_nil in Hn.
    + intros n h Hn. destruct (Hh n h Hn) as [Hpe [?|Hx']]; split; try done; [by left|].
      exfalso. apply Hx'. intros ->. apply Hrow in Hn. by apply not_elem_of_nil in Hn.
  - assert (node ∈ held_back s h) as Hn by (apply Hrow; by left).
    pose proof (unblock_inv node s acc h Hinv Hn) as Hu.
    destruct (unblock node (s, acc) h) as [s1 acc1].
    destruct Hu as (Hinv1 & Hcore & Hl & Hready & Hheld & Hacc1 & Hdef).
    assert (Forall (promotable s1) acc) as Hp1.
    { apply Forall_forall. intros [h' tx] Hin. rewrite Forall_forall in Hacc.
      destruct (Hacc _ Hin) as [[Hu1 Hu2] Hpe]. cbn [fst] in *.
      assert (h' <> h) as Hne.
      { intros ->. apply (Hdis h); [by apply (list_elem_of_fmap_2 fst _ (h, tx))|left]. }
      split; [split; [by rewrite Hready|by rewrite Hdef]|]. by rewrite (same_core_pool _ _ Hcore). }
    assert (h ∉ acc.*1) as Hnh by (intros Hin; apply (Hdis _ Hin); left).
    assert (NoDup acc1.*1 /\ Forall (promotable s1) acc1 /\ (forall h', h' ∈ acc1.*1 -> h' ∉ hs))
      as (Hna1 & Hacc1' & Hdis1).
    { destruct Hacc1 as [->|(tx & -> & Hpr)].
      - split_and!; [done|done|]. intros h' Hh' Hin. apply (Hdis _ Hh'). by right.
      - rewrite fmap_app. cbn. split_and!.
        + apply NoDup_app. split_and!; [done| |apply NoDup_singleton].
          by intros x Hx ->%list_elem_of_singleton.
        + apply Forall_app. by split; [|constructor].
        + intros h' [Hh'| ->%list_elem_of_singleton]%elem_of_app; [|done].
          intros Hin. apply (Hdis _ Hh'). by right. }
    pose proof (IH s1 acc1 Hinv1) as IH'.
    destruct (foldl (unblock node) (s1, acc1) hs) as [s2 acc2].
    destruct IH' as (? & ? & Hl2 & Hr2 & Hd2 & Hin2 & ? & ?); [|done..|].
    + intros h'. rewrite Hheld. case_decide; [subst h'|].
      * split; [set_solver|done].
      * rewrite Hrow, elem_of_cons. split; [by intros [?|?]|by right].
    + split_and!; [done|by eapply same_core_trans|by rewrite Hl2|by intros; rewrite Hr2| | |done|done].
      * intros h' Hh'. apply Hd2. destruct (decide (h' = h)) as [->|]; [|by rewrite Hdef].
        unfold held_back, mm_get in Hn. rewrite Hh' in Hn. set_solver.
      * intros h' [Hh'|Hh']%Hin2; [|by right; right].
        destruct Hacc1 as [->|(tx & -> & _)]; [by left|].
        rewrite fmap_app in Hh'. apply elem_of_app in Hh' as [?| ->%list_elem_of_singleton];
          [by left|right; left].
Qed.

(** Promoting the collected transactions. *)
Lemma promote_all_inv acc s :
  mp_inv s -> NoDup acc.*1 -> Forall (promotable s) acc ->
  let s' := foldl (fun s '(hash, tx) => add_to_ready_set hash tx s) s acc in
  mp_inv s' /\ same_core s s' /\ mp_locked_nodes_cache s' = mp_locked_nodes_cache s /\
  mp_deferred_by_nodes s' = mp_deferred_by_nodes s /\
  (forall h', ready_of s' h' = ready_of s h' \/
     exists tx, (h', tx) ∈ acc /\ ready_of s' h' = Some (mk_ready_entry tx false)).
Proof.
  intros Hinv Hnd Hacc. revert s Hinv Hacc. induction acc as [|[h tx] acc IH]; intros s Hinv Hacc.
  - split_and!; [done|apply same_core_refl|done|done|by left].
  - cbn [foldl]. rewrite fmap_cons in Hnd. apply NoDup_cons in Hnd as [Hni Hnd].
    apply Forall_cons in Hacc as [[Hun (pe & Hpe & Htx & Hst)] Hacc]. cbn [fst snd] in *.
    assert (mp_inv (add_to_ready_set h tx s)) as Hinv1 by by eapply add_to_ready_set_inv.
    pose proof (add_to_ready_set_core h tx s) as Hcore.
    assert (mp_deferred_by_nodes (add_to_ready_set h tx s) = mp_deferred_by_nodes s /\
            mp_locked_nodes_cache (add_to_ready_set h tx s) = mp_locked_nodes_cache s) as [Ed El].
    { unfold add_to_ready_set. by case_match. }
    destruct (IH Hnd _ Hinv1) as (? & ? & Hl & Hd & Hr).
    { apply Forall_forall. intros [h' tx'] Hin. rewrite Forall_forall in Hacc.
      destruct (Hacc _ Hin) as [[Hu1 Hu2] Hp']. cbn [fst] in *.
      assert (h' <> h) as Hne.
      { intros ->. apply Hni. by apply (list_elem_of_fmap_2 fst _ (h, tx')). }
      split; [split|by rewrite (same_core_pool _ _ Hcore)].
      - cbn. by rewrite add_to_ready_set_ready, decide_False by (done || apply Hun).
      - cbn. by rewrite Ed. }
    split_and!; [done|by eapply same_core_trans|by rewrite Hl|by rewrite Hd|].
    intros h'. destruct (Hr h') as [->|(tx' & Hin & ->)].
    + rewrite add_to_ready_set_ready by apply Hun. case_decide; [subst h'|by left].
      right. exists tx. split; [left|done].
    + right. exists tx'. by split; [right|].
Qed.

Lemma unlock_node_inv s node :
  mp_inv s ->
  let s' := unlock_node s node in
  mp_inv s' /\ same_core s s' /\ mp_locked_nodes_cache s' = mp_locked_nodes_cache s ∖ {[node]} /\
  (forall h, ready_of s' h = ready_of s h \/
     exists pe, mp_pool s !! h = Some pe /\ pe_status pe = Pending /\
       ready_of s' h = Some (mk_ready_entry (pe_tx pe) false)) /\
  (forall h, untracked s h -> untracked s' h).
Proof.
  intros Hinv. unfold unlock_node. case_bool_decide as Hl.
  2: { split_and!; [done|apply same_core_refl|set_solver|by left|done]. }
  unfold promote_transactions_for_node. cbn.
  set (s1 := upd (fun X => X ∖ {[node]}) s).
  change (mp_txs_deferred_by_node s !! node) with (mp_txs_deferred_by_node s1 !! node).
  assert (mm_get (mp_txs_deferred_by_node s1) node = default ∅ (mp_txs_deferred_by_node s1 !! node)) as Hget
    by done.
  destruct (mp_txs_deferred_by_node s1 !! node) as [row|] eqn:Hrow; cbn in Hget.
  - set (s2 := upd (delete node) s1).
    pose proof (unblock_loop_inv node (hs_iter row) s2 []) as Hloop.
    destruct (foldl (unblock node) (s2, []) (hs_iter row)) as [s3 acc].
    destruct Hloop as (Hinv3 & Hc3 & Hl3 & Hr3 & Hd3 & Hin3 & Hnd & Hacc).
    + destruct Hinv as [Hs Hx Hr Hd C1 C2 C3 Hp Hh Hk]. split; try done.
      * by apply (sections_ok_ext s).
      * intros n h. change (held_back s2 h) with (held_back s h). unfold s2, s1, mm_get. cbn.
        rewrite lookup_delete. specialize (Hd n h). unfold mm_get in Hd.
        case_decide; [subst; set_solver|]. naive_solver.
      * intros n. unfold s2, s1. cbn. rewrite lookup_delete. case_decide; [done|apply C2].
      * intros n h. change (held_back s2 h) with (held_back s h). intros Hn.
        destruct (Hh n h Hn) as [Hpe [Hlk|?]]; [|done]. split; [done|].
        destruct (decide (n = node)); [right; tauto|left]. unfold s2, s1. cbn. set_solver.
    + apply NoDup_hs_iter.
    + intros h. change (held_back s2 h) with (held_back s h). rewrite elem_of_hs_iter, <- Hget.
      change (mp_txs_deferred_by_node s1) with (mp_txs_deferred_by_node s).
      rewrite (ti_deferred _ _ _ Hinv). naive_solver.
    + constructor.
    + constructor.
    + by intros h ?%not_elem_of_nil.
    + destruct (promote_all_inv acc s3 Hinv3 Hnd Hacc) as (Hinv4 & Hc4 & Hl4 & Hd4 & Hr4).
      assert (same_core s s3) as Hcs by (eapply same_core_trans; [|exact Hc3]; by split_and!).
      split_and!; [done|by eapply same_core_trans|by rewrite Hl4, Hl3| |].
      * intros h. destruct (Hr4 h) as [->|(tx & Hin & ->)]; [by left; rewrite Hr3|].
        right. rewrite Forall_forall in Hacc. destruct (Hacc _ Hin) as [_ (pe & Hpe & Htx & Hst)].
        cbn in *. exists pe. rewrite <- (same_core_pool _ _ Hcs), Htx. done.
      * intros h [Hu1 Hu2]. split; [|rewrite Hd4; by apply Hd3].
        destruct (Hr4 h) as [->|(tx & Hin & _)]; [by rewrite Hr3|]. exfalso.
        apply (list_elem_of_fmap_2 fst) in Hin. cbn in Hin.
        apply Hin3 in Hin as [?%not_elem_of_nil|Hin%elem_of_hs_iter]; [done|].
        rewrite <- Hget in Hin. apply (ti_deferred _ _ _ Hinv) in Hin as [_ Hin].
        unfold held_back, mm_get in Hin. rewrite Hu2 in Hin. set_solver.
  - split_and!; [|by split_and!|done|by left|done].
    destruct Hinv as [Hs Hx Hr Hd C1 C2 C3 Hp Hh Hk]. split; try done; [by apply (sections_ok_ext s)|].
    intros n h. change (held_back s1 h) with (held_back s h). intros Hn.
    destruct (Hh n h Hn) as [Hpe [Hlk|?]]; [|done]. split; [done|]. left. unfold s1. cbn.
    apply elem_of_difference. split; [done|]. intros ->%elem_of_singleton.
    assert (h ∈ mm_get (mp_txs_deferred_by_node s) node) as Hin by (apply Hd; done).
    rewrite Hget in Hin. set_solver.
Qed.
End locks.
