(* ===== verification/MempoolRuns.v ===== *)
(** * Runs of the mempool

    The handlers of [Mempool] keep the invariant of [MempoolInv], so it holds in
    every run.  Runs in which execution results arrive for transactions in
    flight only also keep the locks and the counters exact. *)

From stdpp Require Import base gmap list numbers sorting.
From Stdlib Require Import NArith Lia.
From S2P Require Import Prelude Bitfield Types Encoding Topology Transactions VoteSet Core.
From S2P Require Import Mempool MempoolInv.

(** ** The tracking invariant *)

Section tracking.
Context `{HashIter}.
Implicit Types (s : MempoolState) (h : Hash) (n : NodeId) (tx : RoutableTransaction).

(** The invariant speaks of these fields only. *)
Lemma mp_inv_ext s s' :
  mp_pool s' = mp_pool s -> mp_locked_nodes_cache s' = mp_locked_nodes_cache s ->
  mp_ready_retries s' = mp_ready_retries s -> mp_ready_priority s' = mp_ready_priority s ->
  mp_ready_others s' = mp_ready_others s -> mp_deferred_by_nodes s' = mp_deferred_by_nodes s ->
  mp_txs_deferred_by_node s' = mp_txs_deferred_by_node s ->
  mp_ready_txs_by_node s' = mp_ready_txs_by_node s -> mp_inv s -> mp_inv s'.
Proof.
  intros E1 E2 E3 E4 E5 E6 E7 E8 [Hs Hx Hr Hd C1 C2 C3 Hp Hh Hk].
  assert (forall h, ready_of s' h = ready_of s h) as Hready.
  { intros h. unfold ready_of. by rewrite E3, E4, E5. }
  split; unfold held_back in *; rewrite ?E1, ?E2, ?E6, ?E7, ?E8; try done.
  - by apply (sections_ok_ext s).
  - intros h e. rewrite Hready. apply Hx.
  - intros n h. rewrite Hready. apply Hr.
  - intros h e. rewrite Hready. apply Hp.
Qed.

(** A pool entry may change everything but its transaction. *)
Lemma set_entry_inv s h e e' :
  mp_inv s -> mp_pool s !! h = Some e -> pe_tx e' = pe_tx e ->
  mp_inv (s <| mp_pool ::= <[h := e']> |>).
Proof.
  intros [Hs Hx Hr Hd C1 C2 C3 Hp Hh Hk] He Htx.
  assert (forall h' pe, mp_pool s !! h' = Some pe ->
    exists pe', <[h := e']> (mp_pool s) !! h' = Some pe' /\ pe_tx pe' = pe_tx pe) as Hlk.
  { intros h' pe Hpe. rewrite lookup_insert. case_decide; [subst|by exists pe].
    exists e'. split; [done|congruence]. }
  split; try done.
  - by apply (sections_ok_ext s).
  - intros h' e0 He0. destruct (Hp h' e0 He0) as (pe & Hpe & Heq).
    destruct (Hlk _ _ Hpe) as (pe' & Hpe' & Heq'). exists pe'. split; [exact Hpe'|congruence].
  - intros n h' Hn. destruct (Hh n h' Hn) as [(pe & Hpe & Hin) Hl]. split; [|exact Hl].
    destruct (Hlk _ _ Hpe) as (pe' & Hpe' & Heq'). exists pe'. split; [exact Hpe'|by rewrite Heq'].
  - intros h' pe. cbn. rewrite lookup_insert_Some. intros [[<- <-]|[_ Hpe]]; [|by apply Hk].
    rewrite Htx. by apply Hk.
Qed.

Lemma untracked_not_in_pool s h : mp_inv s -> mp_pool s !! h = None -> untracked s h.
Proof.
  intros Hinv Hn. split.
  - destruct (ready_of s h) as [e|] eqn:He; [|done].
    destruct (ti_pool _ _ _ Hinv _ _ He) as (pe & Hpe & _). congruence.
  - apply mm_get_None; [apply Hinv|]. apply set_eq. intros n. split; [|set_solver]. intros Hin.
    destruct (ti_held _ _ _ Hinv n h Hin) as [(pe & Hpe & _) _]. congruence.
Qed.

(** A transaction that is not tracked may leave the pool, a new one may enter. *)
Lemma delete_entry_inv s h :
  mp_inv s -> untracked s h -> mp_inv (s <| mp_pool ::= delete h |>).
Proof.
  intros [Hs Hx Hr Hd C1 C2 C3 Hp Hh Hk] [Hu1 Hu2]. split; try done.
  - by apply (sections_ok_ext s).
  - intros h' e He. cbn. rewrite lookup_delete_ne; [by apply Hp|]. intros ->.
    change (ready_of s h' = Some e) in He. congruence.
  - intros n h' Hn. change (n ∈ held_back s h') in Hn. cbn. rewrite lookup_delete_ne; [by apply Hh|].
    intros ->. unfold held_back, mm_get in Hn. rewrite Hu2 in Hn. set_solver.
  - intros h' pe. cbn. rewrite lookup_delete_Some. intros [_ Hpe]. by apply Hk.
Qed.

Lemma new_entry_inv s e :
  mp_inv s -> mp_pool s !! rt_hash (pe_tx e) = None ->
  let s' := s <| mp_pool ::= <[rt_hash (pe_tx e) := e]> |> in
  mp_inv s' /\ untracked s' (rt_hash (pe_tx e)).
Proof.
  intros Hinv Hn s'. pose proof (untracked_not_in_pool _ _ Hinv Hn) as Hun. split; [|done].
  destruct Hinv as [Hs Hx Hr Hd C1 C2 C3 Hp Hh Hk]. split; try done.
  - by apply (sections_ok_ext s).
  - intros h' e' He. unfold s'. cbn. destruct (Hp h' e' He) as (pe & Hpe & Heq). exists pe.
    rewrite lookup_insert_ne by congruence. done.
  - intros n h' Hin. unfold s'. cbn. destruct (Hh n h' Hin) as [(pe & Hpe & Hdn) Hl].
    split; [|done]. exists pe. rewrite lookup_insert_ne by congruence. done.
  - intros h' pe. unfold s'. cbn. rewrite lookup_insert_Some. intros [[<- <-]|[_ Hpe]]; [done|by apply Hk].
Qed.

Lemma add_locked_nodes_inv tx s :
  mp_inv s ->
  let s' := add_locked_nodes tx s in
  mp_inv s' /\ same_core s s' /\
  (forall n, n ∈ mp_locked_nodes_cache s' <-> n ∈ all_declared_nodes tx \/ n ∈ mp_locked_nodes_cache s) /\
  (forall h, untracked s h -> untracked s' h).
Proof.
  unfold add_locked_nodes. generalize (all_declared_nodes tx) as ns. intros ns. revert s.
  induction ns as [|n ns IH]; intros s Hinv; cbn [foldl].
  - split_and!; [done|apply same_core_refl| |done]. intros n. set_solver.
  - destruct (lock_node_inv s n Hinv) as (Hi & Hc & Hl & _ & Hu & _).
    destruct (IH _ Hi) as (Hi' & Hc' & Hl' & Hu').
    split_and!; [done|by eapply same_core_trans| |auto]. intros m. rewrite Hl', Hl. set_solver.
Qed.

Lemma remove_locked_nodes_inv tx s :
  mp_inv s ->
  let s' := remove_locked_nodes tx s in
  mp_inv s' /\ same_core s s' /\
  (forall n, n ∈ mp_locked_nodes_cache s' <-> n ∈ mp_locked_nodes_cache s /\ n ∉ all_declared_nodes tx) /\
  (forall h, untracked s h -> untracked s' h).
Proof.
  unfold remove_locked_nodes. generalize (all_declared_nodes tx) as ns. intros ns. revert s.
  induction ns as [|n ns IH]; intros s Hinv; cbn [foldl].
  - split_and!; [done|apply same_core_refl| |done]. intros n. set_solver.
  - destruct (unlock_node_inv s n Hinv) as (Hi & Hc & Hl & _ & Hu).
    destruct (IH _ Hi) as (Hi' & Hc' & Hl' & Hu').
    split_and!; [done|by eapply same_core_trans| |auto]. intros m. rewrite Hl', Hl. set_solver.
Qed.

Lemma uncount_inv st s : mp_inv s -> mp_inv (uncount st s).
Proof. unfold uncount. by destruct st; apply mp_inv_ext. Qed.

(** Release what a transaction holds, if it holds anything. *)
Definition release (entry : PoolEntry) s : MempoolState :=
  if Status.holds_state_lock (pe_status entry)
  then uncount (pe_status entry) (remove_locked_nodes (pe_tx entry) s) else s.

Lemma release_inv e s : mp_inv s -> mp_inv (release e s).
Proof.
  intros Hinv. unfold release. case_match; [|done]. by apply uncount_inv, remove_locked_nodes_inv.
Qed.

Lemma release_pool e s : mp_inv s -> mp_pool (release e s) = mp_pool s.
Proof.
  intros Hinv. unfold release. case_match; [|done].
  destruct (remove_locked_nodes_inv (pe_tx e) s Hinv) as (_ & Hc & _).
  transitivity (mp_pool (remove_locked_nodes (pe_tx e) s)); [|by apply same_core_pool].
  unfold uncount. by case_match.
Qed.

Lemma evict_terminal_eq h s :
  evict_terminal h s =
  let s := match mp_pool s !! h with Some e => release e s | None => s end in
  let s := remove_from_ready_tracking h s in
  let s := match mp_pool s !! h with
           | Some e => s <| mp_pool ::= delete h |>
                         <| mp_recently_evicted ::= <[h := (pe_tx e, mp_current_height s)]> |>
           | None => s
           end in
  s <| mp_tombstones ::= <[h := mp_current_height s]> |>.
Proof. done. Qed.

Lemma evict_terminal_inv h s :
  mp_inv s -> mp_inv (evict_terminal h s) /\ mp_pool (evict_terminal h s) = delete h (mp_pool s).
Proof.
  intros Hinv. rewrite evict_terminal_eq. cbn zeta.
  set (s1 := match mp_pool s !! h with Some e => release e s | None => s end).
  assert (mp_inv s1 /\ mp_pool s1 = mp_pool s) as [Hi1 Hp1].
  { unfold s1. case_match; [|done]. split; [by apply release_inv|by apply release_pool]. }
  destruct (remove_from_ready_tracking_inv h s1 Hi1) as (Hi2 & Hu2 & _).
  pose proof (remove_from_ready_tracking_core h s1) as Hc2. apply same_core_pool in Hc2.
  rewrite Hp1 in Hc2. revert Hi2 Hu2 Hc2. generalize (remove_from_ready_tracking h s1) as s2.
  intros s2 Hi2 Hu2 Hp2. rewrite Hp2. destruct (mp_pool s !! h) as [e|] eqn:He; cbn.
  - split; [|by rewrite Hp2]. eapply mp_inv_ext; [..|apply (delete_entry_inv s2 h)]; done.
  - split; [by apply (mp_inv_ext s2)|]. by rewrite Hp2, delete_id.
Qed.
End tracking.

(** ** Handlers, for any property closed under the primitives *)

(** The fields the invariants speak of. *)
Definition same_tracking (s s' : MempoolState) : Prop :=
  mp_pool s' = mp_pool s /\ mp_locked_nodes_cache s' = mp_locked_nodes_cache s /\
  mp_ready_retries s' = mp_ready_retries s /\ mp_ready_priority s' = mp_ready_priority s /\
  mp_ready_others s' = mp_ready_others s /\ mp_deferred_by_nodes s' = mp_deferred_by_nodes s /\
  mp_txs_deferred_by_node s' = mp_txs_deferred_by_node s /\
  mp_ready_txs_by_node s' = mp_ready_txs_by_node s /\
  mp_committed_count s' = mp_committed_count s /\ mp_executed_count s' = mp_executed_count s.

Section handlers.
Context `{Crypto} `{T : Topology} `{HashIter}.
Implicit Types (s : MempoolState) (h : Hash) (tx : RoutableTransaction).

Record closed (I : MempoolState -> Prop) : Prop := {
  cl_frame s s' : same_tracking s s' -> I s -> I s';
  cl_insert tx local s : I s -> mp_pool s !! rt_hash tx = None -> I (insert_pending tx local s);
  cl_add tx local s : I s -> mp_pool s !! rt_hash tx = None ->
    I (add_to_ready_tracking (rt_hash tx) tx (insert_pending tx local s));
  cl_evict h s : I s -> I (evict_terminal h s);
  cl_provision h s : I s -> I (on_provision_verified h s);
  cl_defer h e winner s : I s -> mp_pool s !! h = Some e ->
    Status.can_transition_to (pe_status e) (Deferred winner) = true ->
    I (release e (remove_from_ready_tracking h
         (s <| mp_pool ::= <[h := e <| pe_status := Deferred winner |>]> |>)))
}.

Context (I : MempoolState -> Prop) (HI : closed I).

Ltac frame := first [assumption | eapply (cl_frame _ HI); [|eassumption]; by split_and!].

Lemma frame_upd f : (forall s, same_tracking s (f s)) -> forall s, I s -> I (f s).
Proof. intros Hf s. apply (cl_frame _ HI), Hf. Qed.

Lemma retire_loser_keeps l r : keeps I (retire_loser l r).
Proof. intros s Hs. unfold retire_loser. case_match; [|done]. by apply (cl_evict _ HI). Qed.

Lemma add_retry_keeps tx : keeps I (add_retry tx).
Proof.
  intros s Hs. unfold add_retry. case_match eqn:Hc; [|done]. bool_to_prop.
  by apply (cl_add _ HI).
Qed.

Lemma create_retry_for_transaction_keeps tx l w h : keeps I (create_retry_for_transaction tx l w h).
Proof. apply keeps_seq; [apply retire_loser_keeps|apply add_retry_keeps]. Qed.

Lemma for_losers_keeps w f : (forall l, keeps I (f l)) -> keeps I (for_losers w f).
Proof.
  intros Hf s Hs. unfold for_losers. apply keeps_for_each; [done|].
  by eapply (cl_frame _ HI); [|exact Hs]; split_and!.
Qed.

Lemma retry_on_certificate_keeps height l : keeps I (retry_on_certificate height l).
Proof.
  intros s Hs. unfold retry_on_certificate. destruct (mp_deferred_by s !! l) as [[[tx w] ?]|].
  - apply create_retry_for_transaction_keeps. frame.
  - destruct (mp_pending_deferrals s !! l) as [[w ?]|]; [|done]. cbn. frame.
Qed.

Lemma retry_deferred_keeps w height l : keeps I (retry_deferred w height l).
Proof.
  intros s Hs. unfold retry_deferred. destruct (mp_deferred_by s !! l) as [[[tx w'] ?]|]; [|done].
  apply create_retry_for_transaction_keeps. frame.
Qed.

Lemma on_certificate_committed_keeps h d height : keeps I (on_certificate_committed h d height).
Proof.
  apply keeps_seq; [|apply keeps_seq].
  - intros s Hs. cbv beta. case_match; [|done]. by apply (cl_evict _ HI).
  - apply keeps_upd, frame_upd. intros s. by split_and!.
  - apply for_losers_keeps, retry_on_certificate_keeps.
Qed.

Lemma on_winner_aborted_keeps w height : keeps I (on_winner_aborted w height).
Proof. apply for_losers_keeps, retry_deferred_keeps. Qed.

Lemma process_abort_keeps height a : keeps I (process_abort height a).
Proof.
  apply keeps_seq; [|apply on_winner_aborted_keeps].
  intros s Hs. cbv beta. case_match; [|done]. by apply (cl_evict _ HI).
Qed.

Lemma ensure_in_pool_keeps tx : keeps I (ensure_in_pool tx).
Proof.
  intros s Hs. unfold ensure_in_pool. destruct (contains_key (mp_pool s) (rt_hash tx)) eqn:Hc; [done|].
  apply contains_key_false in Hc. pose proof (cl_insert _ HI tx false s Hs Hc) as Hi.
  destruct (mp_pending_retries _ !! _) as [[w ch]|]; [|done].
  apply create_retry_for_transaction_keeps. frame.
Qed.

Lemma on_deferral_committed_keeps h reason height : keeps I (on_deferral_committed h reason height).
Proof.
  intros s Hs. unfold on_deferral_committed. destruct reason as [w].
  destruct (mp_completed_winners s !! w) as [ch|].
  - destruct (mp_pool s !! h) as [e|]; [by apply create_retry_for_transaction_keeps|]. cbn. frame.
  - destruct (mp_pool s !! h) as [e|] eqn:He; [|cbn; frame].
    destruct (Status.can_transition_to _ _) eqn:Ht; [|done].
    pose proof (cl_defer _ HI h e w s Hs He Ht) as Hd. unfold release in Hd. cbn [fst].
    eapply (cl_frame _ HI); [|exact Hd]. by split_and!.
Qed.

Lemma submit_keeps tx : keeps I (on_submit_transaction tx).
Proof.
  intros s Hs. unfold on_submit_transaction. destruct (mp_pool s !! rt_hash tx) eqn:Hp; [done|].
  case_match; [done|]. by apply (cl_add _ HI).
Qed.

Lemma gossip_keeps tx : keeps I (on_transaction_gossip tx).
Proof.
  intros s Hs. unfold on_transaction_gossip. case_match eqn:Hc; [done|]. bool_to_prop.
  by apply (cl_add _ HI).
Qed.

Lemma mark_completed_keeps h d : keeps I (mark_completed h d).
Proof. intros s Hs. unfold mark_completed. case_match; [|done]. by apply (cl_evict _ HI). Qed.

Lemma cleanup_keeps ch r s : I s -> I (cleanup_old_tombstones ch r s).1.
Proof.
  intros Hs. unfold cleanup_old_tombstones. cbn [fst]. apply (foldl_keeps I); [frame|].
  clear Hs. intros s' l _ Hs'. unfold forget_deferred. destruct (mp_deferred_by s' !! l) as [[[? ?] ?]|]; [|done].
  frame.
Qed.

(** A block, given that committing its transactions keeps the property. *)
Lemma block_keeps b s :
  I s ->
  (forall s1, I s1 ->
     s1 = (for_each ensure_in_pool (all_transactions b)
             (prune_recently_evicted (s <| mp_current_height := bh_height (bl_header b) |>))).1 ->
     I (for_each (mark_committed (bh_height (bl_header b))) (all_transactions b) s1).1) ->
  I (on_block_committed_full b s).1.
Proof.
  intros Hs Hmark. unfold on_block_committed_full.
  set (s0 := prune_recently_evicted _) in Hmark.
  assert (I s0) as Hs0 by (eapply (cl_frame _ HI); [|exact Hs]; by split_and!).
  assert (forall (f g : mempool) st, (forall t, t = (f st).1 -> I (g t).1) -> I ((f ;> g) st).1) as Hseq.
  { intros f g st Hg. unfold hseq. destruct (f st) as [st1 a1]. specialize (Hg st1 eq_refl).
    by destruct (g st1). }
  apply Hseq. intros t0 ->. apply Hseq. intros t1 ->. cbn [hupd fst].
  fold s0.
  assert (I (for_each ensure_in_pool (all_transactions b) s0).1) as H1.
  { apply keeps_for_each; [apply ensure_in_pool_keeps|done]. }
  apply Hseq. intros t2 ->. specialize (Hmark _ H1 eq_refl).
  apply keeps_seq; [|apply keeps_seq|exact Hmark]; apply keeps_for_each.
  - intros d. apply on_deferral_committed_keeps.
  - intros c. apply on_certificate_committed_keeps.
  - apply process_abort_keeps.
Qed.
End handlers.

(** ** The tracking invariant of the handlers *)

(** A call of the mempool. *)
Inductive mempool_event :=
  | SubmitTx (tx : RoutableTransaction)
  | GossipTx (tx : RoutableTransaction)
  | CommitBlock (block : Block)
  | ExecutedTx (tx_hash : Hash) (accepted : bool)
  | ChangeStatus (tx_hash : Hash) (status : TransactionStatus)
  | MarkCompleted (tx_hash : Hash) (decision : TransactionDecision)
  | ProvisionVerified (tx_hash : Hash)
  | SetTime (now : Duration)
  | CleanupTombstones (current_height : BlockHeight) (retention_blocks : u64)
  | LegacyCommit (tx_hashes : list Hash) (height : BlockHeight).

Section runs.
Context `{Crypto} `{T : Topology} `{HashIter}.
Implicit Types (s : MempoolState) (h : Hash) (tx : RoutableTransaction).

Definition mempool_apply (e : mempool_event) : mempool :=
  match e with
  | SubmitTx tx => on_submit_transaction tx
  | GossipTx tx => on_transaction_gossip tx
  | CommitBlock block => on_block_committed_full block
  | ExecutedTx h accepted => on_transaction_executed h accepted
  | ChangeStatus h status => update_status h status
  | MarkCompleted h decision => mark_completed h decision
  | ProvisionVerified h => hupd (on_provision_verified h)
  | SetTime now => hupd (mempool_set_time now)
  | CleanupTombstones ch r => hupd (fun s => (cleanup_old_tombstones ch r s).1)
  | LegacyCommit hs height => hupd (mempool_on_block_committed hs height)
  end.

Definition mempool_run (es : list mempool_event) (s : MempoolState) : MempoolState :=
  foldl (fun s e => (mempool_apply e s).1) s es.

Lemma mp_inv_closed : closed mp_inv.
Proof.
  split.
  - intros s s' (?&?&?&?&?&?&?&?&_) Hs. by apply (mp_inv_ext s).
  - intros tx local s Hs Hn. by apply (new_entry_inv s (pending_entry tx local s)).
  - intros tx local s Hs Hn.
    destruct (new_entry_inv s (pending_entry tx local s) Hs Hn) as [Hi Hu].
    eapply add_to_ready_tracking_inv; [exact Hi|exact Hu| |].
    + cbn. apply lookup_insert_eq.
    + done.
  - intros h s Hs. by apply evict_terminal_inv.
  - intros h s Hs. by apply on_provision_verified_inv.
  - intros h e w s Hs He _. apply release_inv, remove_from_ready_tracking_inv.
    by eapply set_entry_inv.
Qed.

Lemma mark_committed_inv height tx : keeps mp_inv (mark_committed height tx).
Proof.
  intros s Hs. unfold mark_committed. destruct (mp_pool s !! rt_hash tx) as [e|] eqn:He; [|done].
  case_bool_decide; [|done]. cbn [fst].
  assert (mp_inv (s <| mp_pool ::= <[rt_hash tx := e <| pe_status := Committed height |>]> |>)) as Hi1
    by by eapply set_entry_inv.
  destruct (remove_from_ready_tracking_inv (rt_hash tx) _ Hi1) as (Hi2 & _).
  destruct (add_locked_nodes_inv tx _ Hi2) as (Hi3 & _).
  by eapply mp_inv_ext; [..|exact Hi3].
Qed.

Lemma set_executed_inv h accepted : keeps mp_inv (set_executed h accepted).
Proof.
  intros s Hs. unfold set_executed. destruct (mp_pool s !! h) as [e|] eqn:He; [|done]. cbn zeta.
  destruct (pe_status e) eqn:Hst; cbn [fst]; try by eapply set_entry_inv.
  eapply set_entry_inv; [|exact He|done]. by eapply mp_inv_ext; [..|exact Hs].
Qed.

Lemma on_transaction_executed_keeps (I : MempoolState -> Prop) h accepted :
  closed I -> keeps I (set_executed h accepted) -> keeps I (on_transaction_executed h accepted).
Proof.
  intros HI Hset. apply keeps_seq; [exact Hset|]. intros s Hs.
  apply (for_losers_keeps _ HI); [|done]. apply (retry_deferred_keeps _ HI).
Qed.

Lemma update_status_inv h st : keeps mp_inv (update_status h st).
Proof.
  intros s Hs. unfold update_status. destruct (mp_pool s !! h) as [e|] eqn:He; [|done].
  case_bool_decide; [done|]. destruct (Status.can_transition_to _ _); [|done]. cbn [fst].
  set (s1 := if _ && _ then add_locked_nodes (pe_tx e) s else s).
  assert (mp_inv s1 /\ mp_pool s1 = mp_pool s) as [Hi1 P1].
  { unfold s1. case_match; [|done]. destruct (add_locked_nodes_inv (pe_tx e) s Hs) as (? & Hc & _).
    by apply same_core_pool in Hc. }
  set (s2 := if _ && _ then remove_locked_nodes (pe_tx e) s1 else s1).
  assert (mp_inv s2 /\ mp_pool s2 = mp_pool s) as [Hi2 P2].
  { unfold s2. case_match; [|done]. destruct (remove_locked_nodes_inv (pe_tx e) s1 Hi1) as (? & Hc & _).
    apply same_core_pool in Hc. by rewrite Hc. }
  eapply set_entry_inv; [|cbn; by rewrite P2|done]. by eapply mp_inv_ext; [..|exact Hi2].
Qed.

Lemma legacy_commit_inv height s h : mp_inv s -> mp_inv (legacy_commit height s h).
Proof.
  intros Hs. unfold legacy_commit. destruct (mp_pool s !! h) as [e|] eqn:He; [|done]. cbn zeta.
  destruct (negb _); [|by eapply set_entry_inv].
  destruct (add_locked_nodes_inv (pe_tx e) s Hs) as (Hi1 & Hc & _). apply same_core_pool in Hc.
  eapply set_entry_inv; [|cbn; by rewrite Hc|done]. by eapply mp_inv_ext; [..|exact Hi1].
Qed.

Lemma mempool_apply_inv e : keeps mp_inv (mempool_apply e).
Proof.
  pose proof mp_inv_closed as HC. destruct e; cbn [mempool_apply].
  - by apply submit_keeps.
  - by apply gossip_keeps.
  - intros s Hs. apply block_keeps; [done|done|]. intros s1 Hi1 _.
    apply keeps_for_each; [|done]. intros tx. apply mark_committed_inv.
  - apply on_transaction_executed_keeps; [done|apply set_executed_inv].
  - apply update_status_inv.
  - by apply mark_completed_keeps.
  - apply keeps_upd. intros s. apply on_provision_verified_inv.
  - apply keeps_upd. intros s Hs. by eapply mp_inv_ext; [..|exact Hs].
  - apply keeps_upd. intros s. by apply cleanup_keeps.
  - apply keeps_upd. intros s Hs. apply (foldl_keeps mp_inv); [done|].
    intros s' h _. apply legacy_commit_inv.
Qed.

Lemma initial_inv config : mp_inv (mempool_with_config config).
Proof.
  split; try done.
  - unfold mm_get, ready_of. cbn. set_solver.
  - unfold held_back, mm_get. cbn. set_solver.
Qed.

Lemma mempool_run_inv config es : mp_inv (mempool_run es (mempool_with_config config)).
Proof.
  apply (foldl_keeps mp_inv); [apply initial_inv|]. intros s e _. apply mempool_apply_inv.
Qed.

End runs.
