(* ===== verification/MempoolLocks.v ===== *)
(** * Locks and counters of the mempool

    In the runs in which execution results arrive only for transactions in
    flight, and a block's transactions declare the same nodes as the pool's
    copies, the counters that limit the load are exact, only pending transactions
    are ready, and every locked node belongs to a transaction in flight.  The
    last part has the two ways in which the locks fail to exclude conflicting
    transactions. *)

From stdpp Require Import base gmap list numbers sorting.
From Stdlib Require Import NArith Lia.
From S2P Require Import Prelude Bitfield Types Encoding Topology Transactions VoteSet Core.
From S2P Require Import Mempool MempoolInv MempoolRuns.

(** ** Counting pool entries *)

Definition status_count (f : TransactionStatus -> bool) (m : gmap Hash PoolEntry) : nat :=
  size (filter (fun kv => f (pe_status kv.2) = true) m).

Definition one_if (b : bool) : nat := if b then 1%nat else 0%nat.

Section counting.
Context (f : TransactionStatus -> bool).
Implicit Types (m : gmap Hash PoolEntry) (e : PoolEntry).

Lemma count_new m h e :
  m !! h = None -> status_count f (<[h := e]> m) = (one_if (f (pe_status e)) + status_count f m)%nat.
Proof.
  intros Hn. unfold status_count. destruct (f (pe_status e)) eqn:Hf.
  - rewrite map_filter_insert_True by done. rewrite map_size_insert_None; [done|].
    by apply map_lookup_filter_None; left.
  - rewrite map_filter_insert_False by (cbn; by rewrite Hf). by rewrite delete_id.
Qed.

Lemma count_delete m h e :
  m !! h = Some e -> (one_if (f (pe_status e)) + status_count f (delete h m))%nat = status_count f m.
Proof.
  intros Hm. rewrite <- (insert_delete_id m h e Hm) at 2. by rewrite count_new by apply lookup_delete_eq.
Qed.

Lemma count_update m h e e' :
  m !! h = Some e ->
  (one_if (f (pe_status e)) + status_count f (<[h := e']> m))%nat
  = (one_if (f (pe_status e')) + status_count f m)%nat.
Proof.
  intros Hm. rewrite <- (count_delete m h e Hm). rewrite <- insert_delete_eq, count_new
    by apply lookup_delete_eq. lia.
Qed.
End counting.

(** Two statuses that exclude each other. *)
Lemma count_split f g k (m : gmap Hash PoolEntry) :
  (forall st, k st = f st || g st) -> (forall st, f st = true -> g st = false) ->
  (status_count f m + status_count g m)%nat = status_count k m.
Proof.
  intros Hk Hx. induction m as [|h e m Hn IH] using map_ind; [done|].
  rewrite !count_new by done. rewrite Hk. specialize (Hx (pe_status e)).
  destruct (f (pe_status e)); cbn; [rewrite Hx by done; cbn|]; lia.
Qed.

Record status_inv (s : MempoolState) : Prop := {
  si_tracked h pe : mp_pool s !! h = Some pe -> ~ untracked s h -> pe_status pe = Pending;
  si_locks n : n ∈ mp_locked_nodes_cache s ->
    exists h pe, mp_pool s !! h = Some pe /\ Status.holds_state_lock (pe_status pe) = true /\
      n ∈ all_declared_nodes (pe_tx pe);
  si_committed : mp_committed_count s = status_count Status.is_committed (mp_pool s);
  si_executed : mp_executed_count s = status_count Status.is_executed (mp_pool s)
}.

Definition full_inv (s : MempoolState) : Prop := mp_inv s /\ status_inv s.

Lemma holds_split st :
  Status.holds_state_lock st = Status.is_committed st || Status.is_executed st.
Proof. by destruct st. Qed.

Section status.
Context `{HashIter}.
Implicit Types (s : MempoolState) (h : Hash) (tx : RoutableTransaction).

(** What is known of a state that differs in the tracking only. *)
Lemma status_inv_frame s s' :
  mp_pool s' = mp_pool s -> mp_committed_count s' = mp_committed_count s ->
  mp_executed_count s' = mp_executed_count s ->
  (forall n, n ∈ mp_locked_nodes_cache s' -> n ∈ mp_locked_nodes_cache s) ->
  (forall h, untracked s h -> untracked s' h) -> status_inv s -> status_inv s'.
Proof.
  intros E1 E2 E3 Hl Hu [Ht Hk Hc He]. split; rewrite ?E1, ?E2, ?E3; auto.
  intros h pe Hpe Hn. apply (Ht h pe Hpe). intros Hun. by apply Hn, Hu.
Qed.

(** Releasing. *)
Lemma release_spec e s :
  mp_inv s ->
  let s' := release e s in
  (forall n, n ∈ mp_locked_nodes_cache s' <-> n ∈ mp_locked_nodes_cache s /\
     ~ (Status.holds_state_lock (pe_status e) = true /\ n ∈ all_declared_nodes (pe_tx e))) /\
  (forall h, untracked s h -> untracked s' h) /\
  mp_committed_count s' = (mp_committed_count s - one_if (Status.is_committed (pe_status e)))%nat /\
  mp_executed_count s' = (mp_executed_count s - one_if (Status.is_executed (pe_status e)))%nat.
Proof.
  intros Hinv. unfold release. destruct (Status.holds_state_lock (pe_status e)) eqn:Hh.
  - destruct (remove_locked_nodes_inv (pe_tx e) s Hinv) as (_ & Hc & Hl & Hu).
    destruct Hc as (_&_&_&_&_&_&_&_& Ec & Ee & _).
    unfold uncount. destruct (pe_status e); try done; cbn -[remove_locked_nodes];
      (split_and!; [intros n; rewrite Hl; naive_solver|exact Hu|rewrite Ec; lia|rewrite Ee; lia]).
  - rewrite holds_split in Hh. bool_to_prop. rewrite H0, H1. cbn.
    split_and!; [naive_solver|done|lia|lia].
Qed.

End status.

Section guarded.
Context `{Crypto} `{T : Topology} `{HashIter}.
Implicit Types (s : MempoolState) (h : Hash) (tx : RoutableTransaction).

(** ** The invariant is closed under the primitives *)

Lemma same_tracking_untracked s s' h : same_tracking s s' -> untracked s h -> untracked s' h.
Proof.
  intros (_ & _ & E1 & E2 & E3 & E4 & _) [Hu1 Hu2]. unfold untracked, ready_of in *.
  by rewrite E1, E2, E3, E4.
Qed.

Lemma insert_pending_full tx local s :
  full_inv s -> mp_pool s !! rt_hash tx = None -> full_inv (insert_pending tx local s).
Proof.
  intros [Hinv [Ht Hk Hc He]] Hn.
  destruct (new_entry_inv s (pending_entry tx local s) Hinv Hn) as [Hi Hu].
  change (mp_inv (insert_pending tx local s)) in Hi. split; [done|].
  unfold insert_pending. split; cbn.
  - intros h pe. rewrite lookup_insert_Some. intros [[<- <-]|[Hne Hpe]]; [done|]. apply (Ht h pe Hpe).
  - intros n Hl. destruct (Hk n Hl) as (h & pe & Hpe & Hx). exists h, pe.
    rewrite lookup_insert_ne by congruence. done.
  - rewrite count_new by done. exact Hc.
  - rewrite count_new by done. exact He.
Qed.

Lemma add_to_ready_tracking_untracked h tx s h' :
  ready_of s h = None -> h' <> h -> untracked s h' -> untracked (add_to_ready_tracking h tx s) h'.
Proof.
  intros Hn Hne [Hu1 Hu2]. unfold add_to_ready_tracking. case_bool_decide.
  - split; [done|]. cbn. by rewrite lookup_insert_ne.
  - split; [by rewrite add_to_ready_set_ready, decide_False|]. unfold add_to_ready_set. by case_match.
Qed.

Lemma add_to_ready_tracking_locked h tx s :
  mp_locked_nodes_cache (add_to_ready_tracking h tx s) = mp_locked_nodes_cache s.
Proof. unfold add_to_ready_tracking, add_to_ready_set. by repeat case_match. Qed.

Lemma add_full tx local s :
  full_inv s -> mp_pool s !! rt_hash tx = None ->
  full_inv (add_to_ready_tracking (rt_hash tx) tx (insert_pending tx local s)).
Proof.
  intros Hs Hn. pose proof (cl_add _ mp_inv_closed tx local s (proj1 Hs) Hn) as Hi.
  destruct (insert_pending_full tx local s Hs Hn) as [Hi1 [Ht Hk Hc He]]. split; [done|].
  destruct (new_entry_inv s (pending_entry tx local s) (proj1 Hs) Hn) as [_ Hu].
  change (untracked (insert_pending tx local s) (rt_hash tx)) in Hu.
  pose proof (add_to_ready_tracking_core (rt_hash tx) tx (insert_pending tx local s)) as
    (E1&_&_&_&_&_&_&_&E2&E3&_).
  split; rewrite ?E1, ?E2, ?E3; [|rewrite add_to_ready_tracking_locked; exact Hk|exact Hc|exact He].
  intros h pe Hpe Hnu. destruct (decide (h = rt_hash tx)) as [->|Hne].
  - cbn in Hpe. rewrite lookup_insert_eq in Hpe. by injection Hpe as <-.
  - apply (Ht h pe Hpe). intros Hx. apply Hnu. by apply add_to_ready_tracking_untracked; [apply Hu|..].
Qed.

Lemma evict_full h s : full_inv s -> full_inv (evict_terminal h s).
Proof.
  intros [Hinv Hst]. destruct (evict_terminal_inv h s Hinv) as [Hi Hp]. split; [done|].
  rewrite evict_terminal_eq in *. cbn zeta in *.
  destruct (mp_pool s !! h) as [e|] eqn:He.
  - pose proof (release_inv e s Hinv) as Hr.
    destruct (release_spec e s Hinv) as (Hl & Hu & _ & _).
    destruct (remove_from_ready_tracking_inv h _ Hr) as (Hi2 & Hu2 & Hoth).
    pose proof (remove_from_ready_tracking_core h (release e s)) as Hc2.
    pose proof (same_core_pool _ _ Hc2) as Hp2. rewrite (release_pool e s Hinv) in Hp2.
    rewrite Hp2, He in Hp |- *. cbn in Hp |- *.
    (* the entry is deleted after the release; the release comes first *)
    destruct Hst as [Ht Hk Hcc Hce]. destruct (release_spec e s Hinv) as (_ & _ & Ec & Ee).
    destruct Hc2 as (_&_&_&_&_&_&_&_& C1 & C2 & _).
    split; cbn; rewrite ?Hp2.
    + intros h' pe. rewrite lookup_delete_Some. intros [Hne Hpe] Hn. apply (Ht h' pe Hpe).
      intros Hx. apply Hn. apply Hu in Hx as [Hx1 Hx2].
      destruct (Hoth h') as [Hy1 Hy2]; [done|].
      split; [change (ready_of (remove_from_ready_tracking h (release e s)) h' = None); by rewrite Hy1|].
      cbn. by rewrite Hy2.
    + intros n. rewrite remove_from_ready_tracking_locked, Hl. intros [Hn Hnot].
      destruct (Hk n Hn) as (h' & pe & Hpe & Hhold & Hd). exists h', pe.
      rewrite lookup_delete_ne; [done|]. intros <-. apply Hnot. assert (pe = e) as -> by congruence. done.
    + rewrite C1, Ec, Hcc. pose proof (count_delete Status.is_committed _ _ _ He). lia.
    + rewrite C2, Ee, Hce. pose proof (count_delete Status.is_executed _ _ _ He). lia.
  - destruct (remove_from_ready_tracking_inv h s Hinv) as (Hi2 & Hu2 & Hoth).
    pose proof (remove_from_ready_tracking_core h s) as Hc2.
    pose proof (same_core_pool _ _ Hc2) as Hp2. rewrite Hp2, He in Hp |- *.
    destruct Hc2 as (_&_&_&_&_&_&_&_& C1 & C2 & _).
    eapply status_inv_frame; [..|exact Hst]; cbn; [done|done|done|by rewrite remove_from_ready_tracking_locked|].
    intros h' [Hx1 Hx2]. destruct (decide (h' = h)) as [->|Hne]; [exact Hu2|].
    destruct (Hoth h' Hne) as [Hy1 Hy2].
    split; [change (ready_of (remove_from_ready_tracking h s) h' = None); by rewrite Hy1|].
    cbn. by rewrite Hy2.
Qed.

Lemma full_inv_closed : closed full_inv.
Proof.
  split.
  - intros s s' Hsame [Hinv Hst]. split; [by apply (cl_frame _ mp_inv_closed s)|].
    pose proof Hsame as (E1 & El & _ & _ & _ & _ & _ & _ & E2 & E3).
    eapply (status_inv_frame s); try done; [by rewrite El|].
    intros h. by apply same_tracking_untracked.
  - apply insert_pending_full.
  - apply add_full.
  - apply evict_full.
  - intros h s [Hinv Hst]. split; [by apply on_provision_verified_inv|].
    unfold on_provision_verified. destruct (mp_ready_others s !! h) as [e|] eqn:He; [|done].
    destruct (so_others _ (ti_sections _ _ _ Hinv) _ _ He) as (E1 & E2 & _).
    eapply (status_inv_frame s); try done. intros h' [Hu1 Hu2]. split; [|done].
    unfold ready_of in *. cbn. destruct (decide (h' = h)) as [->|Hne].
    + by rewrite E1, E2, He in Hu1.
    + by rewrite lookup_insert_ne, lookup_delete_ne by done.
  - intros h e w s [Hinv Hst] He Htr. split; [by apply (cl_defer _ mp_inv_closed)|].
    set (e' := e <| pe_status := Deferred w |>).
    assert (mp_inv (s <| mp_pool ::= <[h := e']> |>)) as Hi0 by by eapply set_entry_inv.
    destruct (remove_from_ready_tracking_inv h _ Hi0) as (Hi1 & Hu1 & Hoth).
    pose proof (remove_from_ready_tracking_core h (s <| mp_pool ::= <[h := e']> |>)) as Hc.
    (* releasing commutes with the change of the entry *)
    destruct (release_spec e _ Hi1) as (Hl & Hu & Ec & Ee).
    pose proof (release_pool e _ Hi1) as Hp. rewrite (same_core_pool _ _ Hc) in Hp. cbn in Hp.
    destruct Hc as (_&_&_&_&_&_&_&_& C1 & C2 & _). cbn in C1, C2.
    destruct Hst as [Ht Hk Hcc Hce]. rewrite C1 in Ec. rewrite C2 in Ee.
    rewrite remove_from_ready_tracking_locked in Hl. cbn in Hl.
    split; rewrite ?Hp.
    + intros h' pe. rewrite lookup_insert_Some. intros [[<- <-]|[Hne Hpe]] Hn.
      * destruct Hn. by apply Hu.
      * apply (Ht h' pe Hpe). intros [Hx1 Hx2]. apply Hn, Hu.
        destruct (Hoth h' (not_eq_sym Hne)) as [Hy1 Hy2]. split; [by rewrite Hy1|by rewrite Hy2].
    + intros n [Hn Hnot]%Hl. destruct (Hk n Hn) as (h' & pe & Hpe & Hhold & Hd). exists h', pe.
      rewrite lookup_insert_ne; [done|]. intros <-. apply Hnot.
      assert (pe = e) as -> by congruence. done.
    + rewrite Ec, Hcc. pose proof (count_update Status.is_committed _ _ _ e' He) as Hx. cbn in Hx. lia.
    + rewrite Ee, Hce. pose proof (count_update Status.is_executed _ _ _ e' He) as Hx. cbn in Hx. lia.
Qed.

(** ** Entering flight *)

(** The pool's copy of a transaction declares the same nodes. *)
Definition agrees s tx : Prop := forall pe,
  mp_pool s !! rt_hash tx = Some pe -> all_declared_nodes (pe_tx pe) = all_declared_nodes tx.

Definition same_txs s s' : Prop := forall h, pe_tx <$> mp_pool s' !! h = pe_tx <$> mp_pool s !! h.

Lemma agrees_same_txs s s' tx : same_txs s s' -> agrees s tx -> agrees s' tx.
Proof.
  intros Hs Ha pe Hpe. specialize (Hs (rt_hash tx)). rewrite Hpe in Hs. cbn in Hs.
  destruct (mp_pool s !! rt_hash tx) as [pe0|] eqn:E; [|done]. injection Hs as ->. by apply Ha.
Qed.

Lemma mark_committed_full height tx s :
  full_inv s -> agrees s tx ->
  full_inv (mark_committed height tx s).1 /\ same_txs s (mark_committed height tx s).1.
Proof.
  intros [Hinv Hst] Hag. pose proof (mark_committed_inv height tx s Hinv) as Hi. revert Hi.
  unfold mark_committed. destruct (mp_pool s !! rt_hash tx) as [e|] eqn:He; [|done].
  case_bool_decide as Hpend; [|done]. cbn [fst]. intros Hi.
  set (h := rt_hash tx) in *. set (e' := e <| pe_status := Committed height |>) in *.
  assert (mp_inv (s <| mp_pool ::= <[h := e']> |>)) as Hi0 by by eapply set_entry_inv.
  destruct (remove_from_ready_tracking_inv h _ Hi0) as (Hi1 & Hu1 & Hoth).
  pose proof (remove_from_ready_tracking_core h (s <| mp_pool ::= <[h := e']> |>)) as Hc1.
  destruct (add_locked_nodes_inv tx _ Hi1) as (Hi2 & Hc2 & Hl2 & Hu2).
  pose proof (same_core_trans _ _ _ Hc1 Hc2) as Hc. pose proof (same_core_pool _ _ Hc) as Hp.
  destruct Hc as (_&_&_&_&_&_&_&_& C1 & C2 & _). cbn -[add_locked_nodes remove_from_ready_tracking] in Hp, C1, C2.
  destruct Hst as [Ht Hk Hcc Hce]. split; [split; [exact Hi|]|].
  - split; cbn -[add_locked_nodes remove_from_ready_tracking]; rewrite ?Hp, ?C1, ?C2.
    + intros h' pe. rewrite lookup_insert_Some. intros [[<- <-]|[Hne Hpe]] Hn.
      * destruct Hn. by apply (Hu2 h).
      * apply (Ht h' pe Hpe). intros [Hx1 Hx2]. apply Hn. apply (Hu2 h').
        destruct (Hoth h' (not_eq_sym Hne)) as [Hy1 Hy2]. split; [by rewrite Hy1|by rewrite Hy2].
    + intros n. rewrite Hl2, remove_from_ready_tracking_locked. intros [Hn|Hn].
      * exists h, e'. rewrite lookup_insert_eq. split_and!; [done|done|]. cbn. by rewrite (Hag e He).
      * destruct (Hk n Hn) as (h' & pe & Hpe & Hhold & Hd). exists h', pe.
        rewrite lookup_insert_ne; [done|]. intros <-. assert (pe = e) as -> by congruence.
        by rewrite Hpend in Hhold.
    + rewrite Hcc. pose proof (count_update Status.is_committed _ _ _ e' He) as Hx.
      rewrite Hpend in Hx. cbn in Hx. lia.
    + rewrite Hce. pose proof (count_update Status.is_executed _ _ _ e' He) as Hx.
      rewrite Hpend in Hx. cbn in Hx. lia.
  - intros h'. cbn -[add_locked_nodes remove_from_ready_tracking]. rewrite Hp, lookup_insert.
    case_decide; [subst h'; by rewrite He|done].
Qed.

Lemma mark_all_committed_full height txs s :
  full_inv s -> Forall (agrees s) txs -> full_inv (for_each (mark_committed height) txs s).1.
Proof.
  revert s. induction txs as [|tx txs IH]; intros s Hs Hag; [done|]. cbn [for_each].
  apply Forall_cons in Hag as [Hag Hags]. unfold hseq.
  destruct (mark_committed_full height tx s Hs Hag) as [Hs1 Hsame].
  destruct (mark_committed height tx s) as [s1 a1]. cbn [fst] in *.
  specialize (IH s1 Hs1). destruct (for_each (mark_committed height) txs s1). apply IH.
  eapply Forall_impl; [exact Hags|]. intros tx'. by apply agrees_same_txs.
Qed.

(** A transaction in flight changes its status. *)
Lemma set_executed_full h accepted s :
  full_inv s ->
  (forall pe, mp_pool s !! h = Some pe -> Status.holds_state_lock (pe_status pe) = true) ->
  full_inv (set_executed h accepted s).1.
Proof.
  intros [Hinv [Ht Hk Hcc Hce]] Hg. split; [by apply set_executed_inv|].
  unfold set_executed. destruct (mp_pool s !! h) as [e|] eqn:He; [|by split].
  specialize (Hg e eq_refl). cbn zeta.
  set (d := if accepted then Accept else Reject).
  assert (forall st s', mp_pool s' = <[h := e <| pe_status := st |>]> (mp_pool s) ->
    Status.holds_state_lock st = true -> mp_locked_nodes_cache s' = mp_locked_nodes_cache s ->
    (forall h', untracked s h' -> untracked s' h') ->
    mp_committed_count s' = status_count Status.is_committed (mp_pool s') ->
    mp_executed_count s' = status_count Status.is_executed (mp_pool s') -> status_inv s') as Hgen.
  { intros st s' Hp Hst El Hu Ec Ee. split; [| |done|done].
    - intros h' pe. rewrite Hp, lookup_insert_Some. intros [[<- <-]|[Hne Hpe]] Hn.
      + exfalso. assert (pe_status e = Pending) as Hx; [|by rewrite Hx in Hg].
        apply (Ht h e He). intros Hx. by apply Hn, Hu.
      + apply (Ht h' pe Hpe). intros Hx. by apply Hn, Hu.
    - intros n. rewrite El. intros Hn. destruct (Hk n Hn) as (h' & pe & Hpe & Hhold & Hd).
      rewrite Hp. destruct (decide (h' = h)) as [->|Hne].
      + exists h, (e <| pe_status := st |>). rewrite lookup_insert_eq. split_and!; [done|done|].
        assert (pe = e) as -> by congruence. done.
      + exists h', pe. by rewrite lookup_insert_ne. }
  destruct (pe_status e) as [|hh|d' c| | | |] eqn:Hst; try done; cbn [fst].
  - apply (Hgen (Executed d hh)); try done; cbn.
    + rewrite Hcc. pose proof (count_update Status.is_committed _ _ _ (e <| pe_status := Executed d hh |>) He) as Hx.
      rewrite Hst in Hx. cbn in Hx. lia.
    + rewrite Hce. pose proof (count_update Status.is_executed _ _ _ (e <| pe_status := Executed d hh |>) He) as Hx.
      rewrite Hst in Hx. cbn in Hx. lia.
  - apply (Hgen (Executed d c)); try done; cbn.
    + rewrite Hcc. pose proof (count_update Status.is_committed _ _ _ (e <| pe_status := Executed d c |>) He) as Hx.
      rewrite Hst in Hx. cbn in Hx. lia.
    + rewrite Hce. pose proof (count_update Status.is_executed _ _ _ (e <| pe_status := Executed d c |>) He) as Hx.
      rewrite Hst in Hx. cbn in Hx. lia.
Qed.

(** ** Guarded runs *)

(** The state in which a block's transactions are marked as committed. *)
Definition before_marking (b : Block) s : MempoolState :=
  (for_each ensure_in_pool (all_transactions b)
     (prune_recently_evicted (s <| mp_current_height := bh_height (bl_header b) |>))).1.

(** A block's transactions declare what the pool's copies declare; execution
    results come for transactions in flight. The two calls that nothing in the
    code base makes, [update_status] and the deprecated [on_block_committed],
    do not occur. *)
Definition call_ok s (e : mempool_event) : Prop :=
  match e with
  | CommitBlock b => Forall (agrees (before_marking b s)) (all_transactions b)
  | ExecutedTx h _ =>
      forall pe, mp_pool s !! h = Some pe -> Status.holds_state_lock (pe_status pe) = true
  | ChangeStatus _ _ | LegacyCommit _ _ => False
  | _ => True
  end.

Fixpoint calls_ok (es : list mempool_event) s : Prop :=
  match es with
  | [] => True
  | e :: es' => call_ok s e /\ calls_ok es' (mempool_apply e s).1
  end.

Lemma mempool_apply_full e s : full_inv s -> call_ok s e -> full_inv (mempool_apply e s).1.
Proof.
  pose proof full_inv_closed as HC. intros Hs Hok. destruct e; cbn [mempool_apply call_ok] in *; try done.
  - by apply (submit_keeps _ HC).
  - by apply (gossip_keeps _ HC).
  - apply (block_keeps _ HC); [done|]. intros s1 Hs1 ->. by apply mark_all_committed_full.
  - unfold on_transaction_executed, hseq.
    pose proof (set_executed_full tx_hash accepted s Hs Hok) as H1'.
    destruct (set_executed tx_hash accepted s) as [s1 a1]. cbn [fst] in H1'.
    pose proof (for_losers_keeps _ HC tx_hash (retry_deferred None (mp_current_height s1))
                  (retry_deferred_keeps _ HC None _) s1 H1') as H2'.
    by destruct (for_losers _ _ s1).
  - by apply (mark_completed_keeps _ HC).
  - by apply (cl_provision _ HC).
  - by apply (cl_frame _ HC s); [split_and!|].
  - by apply (cleanup_keeps _ HC).
Qed.

Lemma mempool_run_full config es :
  calls_ok es (mempool_with_config config) -> full_inv (mempool_run es (mempool_with_config config)).
Proof.
  unfold mempool_run. assert (full_inv (mempool_with_config config)) as Hs.
  { split; [apply initial_inv|]. by split. }
  revert Hs. generalize (mempool_with_config config) as s.
  induction es as [|e es IH]; intros s Hs Hok; [done|]. cbn [foldl]. destruct Hok as [Hok Hoks].
  apply IH; [by apply mempool_apply_full|done].
Qed.

(** C9: Locks and load counters are exact. In every run in which execution
    results arrive for transactions in flight and blocks declare what the pool
    declares: the number of transactions in flight that limits the load is the
    number of committed and executed transactions in the pool; only pending
    transactions are ready or held back; every locked node is declared by some
    transaction in flight, so no lock outlives its holders; and nothing is locked
    when nothing is in flight. *)
Theorem mempool_locks_and_load config es :
  calls_ok es (mempool_with_config config) ->
  let s := mempool_run es (mempool_with_config config) in
  in_flight s = status_count Status.holds_state_lock (mp_pool s) /\
  (forall h pe, mp_pool s !! h = Some pe -> ~ untracked s h -> pe_status pe = Pending) /\
  (forall n, n ∈ mp_locked_nodes_cache s ->
     exists h pe, mp_pool s !! h = Some pe /\ Status.holds_state_lock (pe_status pe) = true /\
       n ∈ all_declared_nodes (pe_tx pe)) /\
  (in_flight s = 0%nat -> mp_locked_nodes_cache s = ∅).
Proof.
  intros Hok s. destruct (mempool_run_full config es Hok) as [_ [Ht Hk Hc He]]. fold s in Ht, Hk, Hc, He.
  assert (in_flight s = status_count Status.holds_state_lock (mp_pool s)) as Hin.
  { unfold in_flight. rewrite Hc, He. apply count_split; [apply holds_split|by intros []]. }
  split_and!; [done|done|done|]. intros Hz. apply set_eq. intros n. split; [|set_solver].
  intros Hn. destruct (Hk n Hn) as (h & pe & Hpe & Hhold & _). exfalso.
  rewrite Hin in Hz. pose proof (count_delete Status.holds_state_lock _ _ _ Hpe) as Hx.
  rewrite Hhold in Hx. cbn in Hx. lia.
Qed.
End guarded.
