(* ===== verification/MempoolReady.v ===== *)
(** * What a proposer gets from the mempool

    [ready_transactions] and [get_timed_out_transactions] in the states that
    runs reach; and two runs in which the locks do not keep conflicting
    transactions apart. *)

From stdpp Require Import base gmap list numbers sorting.
From Stdlib Require Import NArith Lia.
From S2P Require Import Prelude Bitfield Types Encoding Topology Transactions VoteSet Core.
From S2P Require Import Mempool MempoolInv MempoolRuns MempoolLocks.

(** ** Sections *)

Section take.
Implicit Types (m : gmap Hash ReadyEntry).

(** Entries are stored under their transaction's hash. *)
Definition keyed m : Prop := forall h e, m !! h = Some e -> rt_hash (re_tx e) = h.

Lemma keyed_hashes m : keyed m -> rt_hash <$> (re_tx <$> btree_values m) = (btree_iter m).*1.
Proof.
  intros Hk. unfold btree_values. rewrite <- !list_fmap_compose. apply list_fmap_ext.
  intros i [h e] Hi. cbn. apply Hk, elem_of_btree_iter. by apply list_elem_of_lookup_2 in Hi.
Qed.

Lemma StronglySorted_take {A} (R : A -> A -> Prop) n (l : list A) :
  StronglySorted R l -> StronglySorted R (take n l).
Proof.
  intros Hs. revert n. induction Hs as [|x l Hl IH Hx]; intros [|n]; cbn; [constructor..|].
  constructor; [done|]. by apply Forall_take.
Qed.

Lemma take_values_sorted n m : keyed m -> StronglySorted N.lt (rt_hash <$> (take_values n m).1).
Proof.
  intros Hk. unfold take_values. cbn [fst]. rewrite fmap_take, keyed_hashes by done.
  apply StronglySorted_take, btree_iter_sorted.
Qed.

Lemma take_values_elem n m tx :
  tx ∈ (take_values n m).1 -> exists h e, m !! h = Some e /\ re_tx e = tx.
Proof.
  unfold take_values. cbn [fst]. intros Hin.
  assert (tx ∈ (re_tx <$> btree_values m)) as (e & -> & He)%list_elem_of_fmap.
  { rewrite <- (take_drop n (re_tx <$> btree_values m)). apply elem_of_app. by left. }
  apply elem_of_btree_values in He as [h He]. by exists h, e.
Qed.

Lemma take_values_length n m : length (take_values n m).1 = Nat.min n (size m).
Proof. unfold take_values. cbn [fst]. by rewrite length_take, length_fmap, btree_values_length. Qed.

Lemma take_values_rest n m : (take_values n m).2 = (n - Nat.min n (size m))%nat.
Proof.
  unfold take_values. cbn [snd]. by rewrite length_take, length_fmap, btree_values_length.
Qed.
End take.

Definition ready_total (r : ReadyTransactions) : nat :=
  (length (ready_retries r) + length (ready_priority r) + length (ready_others r))%nat.

(** The load a proposer counts: in flight, plus what is about to be committed. *)
Definition effective_load (s : MempoolState) (pending_txs pending_certs : usize) : nat :=
  (in_flight s + pending_txs - pending_certs)%nat.

Section ready.
Context `{Crypto} `{T : Topology} `{HashIter}.
Implicit Types (s : MempoolState).

Lemma sections_keyed s :
  mp_inv s -> keyed (mp_ready_retries s) /\ keyed (mp_ready_priority s) /\ keyed (mp_ready_others s).
Proof.
  intros Hinv. pose proof (ti_sections _ _ _ Hinv) as [Hs1 Hs2 Hs3].
  assert (forall h e, ready_of s h = Some e -> rt_hash (re_tx e) = h) as Hk.
  { intros h e He. destruct (ti_pool _ _ _ Hinv _ _ He) as (pe & Hpe & <-). by apply (ti_hash _ _ _ Hinv). }
  split_and!; intros h e He; apply Hk; unfold ready_of.
  - by rewrite He.
  - destruct (Hs2 _ _ He) as (-> & _). by rewrite He.
  - destruct (Hs3 _ _ He) as (-> & -> & _). done.
Qed.

(** C37: What the proposer is offered, in every reachable state. Each section is
    sorted by hash without duplicates, and retries are in the retry section only.
    The total respects the caller's bound, and together with the load it respects
    the hard limit; at the hard limit nothing is offered, and no ordinary
    transaction at the soft limit. Below the hard limit the sections are served in
    order of priority as far as the room goes: first retries, then transactions
    with provisions, then the others. *)
Theorem ready_transactions_spec config es max_count pending_txs pending_certs :
  let s := mempool_run es (mempool_with_config config) in
  let r := ready_transactions s max_count pending_txs pending_certs in
  let load := effective_load s pending_txs pending_certs in
  let hard := max_in_flight_hard_limit (mp_config s) in
  let room := Nat.min max_count (hard - load) in
  let rest := (room - length (ready_retries r))%nat in
  (StronglySorted N.lt (rt_hash <$> ready_retries r) /\
   StronglySorted N.lt (rt_hash <$> ready_priority r) /\
   StronglySorted N.lt (rt_hash <$> ready_others r)) /\
  Forall (fun tx => is_retry tx = true) (ready_retries r) /\
  Forall (fun tx => is_retry tx = false) (ready_priority r ++ ready_others r) /\
  (ready_total r <= max_count)%nat /\ (ready_total r = 0 \/ load + ready_total r <= hard)%nat /\
  length (ready_retries r) = Nat.min room (size (mp_ready_retries s)) /\
  length (ready_priority r) = Nat.min rest (size (mp_ready_priority s)) /\
  length (ready_others r)
  = (if Nat.leb (max_in_flight (mp_config s)) load then 0
     else Nat.min (rest - length (ready_priority r)) (size (mp_ready_others s)))%nat.
Proof.
  cbv zeta. set (s := mempool_run es (mempool_with_config config)).
  pose proof (mempool_run_inv config es) as Hinv. fold s in Hinv.
  destruct (sections_keyed s Hinv) as (K1 & K2 & K3).
  pose proof (ti_sections _ _ _ Hinv) as [Hs1 Hs2 Hs3].
  unfold ready_transactions, ready_total, effective_load.
  set (load := (in_flight s + pending_txs - pending_certs)%nat).
  destruct (Nat.leb_spec (max_in_flight_hard_limit (mp_config s)) load) as [Hhard|Hhard].
  - cbn. replace (Nat.min max_count (max_in_flight_hard_limit (mp_config s) - load)) with 0%nat by lia.
    split_and!; try lia; try constructor. by destruct (Nat.leb _ _).
  - set (n := Nat.min max_count _).
    pose proof (take_values_length n (mp_ready_retries s)) as L1.
    pose proof (take_values_rest n (mp_ready_retries s)) as R1.
    pose proof (take_values_sorted n _ K1) as S1.
    pose proof (take_values_elem n (mp_ready_retries s)) as E1.
    destruct (take_values n (mp_ready_retries s)) as [retries rem1]. cbn [fst snd] in *.
    pose proof (take_values_length rem1 (mp_ready_priority s)) as L2.
    pose proof (take_values_rest rem1 (mp_ready_priority s)) as R2.
    pose proof (take_values_sorted rem1 _ K2) as S2.
    pose proof (take_values_elem rem1 (mp_ready_priority s)) as E2.
    destruct (take_values rem1 (mp_ready_priority s)) as [priority rem2]. cbn [fst snd] in *.
    pose proof (take_values_length rem2 (mp_ready_others s)) as L3.
    pose proof (take_values_sorted rem2 _ K3) as S3.
    pose proof (take_values_elem rem2 (mp_ready_others s)) as E3.
    cbn [ready_retries ready_priority ready_others].
    assert (Forall (fun tx => is_retry tx = true) retries) as F1.
    { apply Forall_forall. intros tx (h & e & He & <-)%E1. by apply (Hs1 _ _ He). }
    assert (Forall (fun tx => is_retry tx = false) priority) as F2.
    { apply Forall_forall. intros tx (h & e & He & <-)%E2. by apply (Hs2 _ _ He). }
    assert (Forall (fun tx => is_retry tx = false) (take_values rem2 (mp_ready_others s)).1) as F3.
    { apply Forall_forall. intros tx (h & e & He & <-)%E3. by apply (Hs3 _ _ He). }
    destruct (Nat.leb (max_in_flight (mp_config s)) load); cbn [length fmap list_fmap].
    + rewrite app_nil_r. split_and!; try done; try lia. constructor.
    + split_and!; try done; try lia. by apply Forall_app.
Qed.
End ready.

(** ** Where the locks fail *)

(** A transaction that writes the given nodes, and a block at a height with
    transactions and certificates. *)
Definition writing (payload : N) (nodes : list NodeId) : RoutableTransaction :=
  @new_transaction sample_crypto [payload] [] nodes.

Definition sample_commit (height : BlockHeight) (txs : list RoutableTransaction)
    (certs : list TransactionCertificate) : Block :=
  let b := genesis_block QC.genesis in
  mk_block (mk_block_header height (bh_parent_hash (bl_header b)) (bh_parent_qc (bl_header b))
              0 0 0 false 0 0 0) [] [] txs certs [] [] ∅.

Definition sample_mempool (es : list mempool_event) : MempoolState :=
  @mempool_run sample_crypto (sample_topology 0) canonical_iter es mempool_new.

Definition offered (s : MempoolState) : list RoutableTransaction :=
  ready_others (ready_transactions s 100 0 0).

Definition accepted_cert (tx : RoutableTransaction) : TransactionCertificate :=
  mk_transaction_certificate (rt_hash tx) Accept ∅.

(** A transaction that needs two nodes, one for each of the nodes alone, and
    three that need the same node. *)
Definition both_nodes : RoutableTransaction := writing 1 [11; 12].
Definition first_node : RoutableTransaction := writing 2 [11].
Definition second_node : RoutableTransaction := writing 3 [12].
Definition same_node (k : N) : RoutableTransaction := writing (10 + k) [7].

(** A transaction can become ready while one of its nodes is locked. A
    transaction that is held back by one node is not recorded under the other
    nodes that get locked meanwhile, so it is promoted as soon as the first node
    is free. Here a block commits the owners of both nodes, the first one's
    certificate is committed, and the transaction that needs both nodes is offered
    for the next block although the second node is still held. *)
Theorem promoted_while_locked :
  let s := sample_mempool
    [GossipTx both_nodes; GossipTx first_node; GossipTx second_node;
     CommitBlock (sample_commit 1 [first_node; second_node] []);
     CommitBlock (sample_commit 2 [] [accepted_cert first_node])] in
  offered s = [both_nodes] /\ 12 ∈ all_declared_nodes both_nodes /\
  12 ∈ mp_locked_nodes_cache s /\
  mempool_status s (rt_hash second_node) = Some (Committed 1) /\
  12 ∈ all_declared_nodes second_node.
Proof.
  cbv zeta. split_and!.
  - vm_compute. reflexivity.
  - apply (bool_decide_unpack _). vm_compute. reflexivity.
  - apply (bool_decide_unpack _). vm_compute. reflexivity.
  - vm_compute. reflexivity.
  - apply (bool_decide_unpack _). vm_compute. reflexivity.
Qed.

(** Locks do not exclude conflicting transactions. The ready sets leave out
    transactions that conflict with locked nodes, but not those that conflict with
    each other: three transactions that write one node are offered together. When
    a block commits two of them and the first one completes, the node is unlocked
    although the second is still in flight, and the third is offered. *)
Theorem conflicting_transactions_admitted :
  let gossip := [GossipTx (same_node 1); GossipTx (same_node 2); GossipTx (same_node 3)] in
  let s := sample_mempool
    (gossip ++ [CommitBlock (sample_commit 1 [same_node 1; same_node 2] []);
                CommitBlock (sample_commit 2 [] [accepted_cert (same_node 1)])]) in
  (forall k, k ∈ [1; 2; 3] -> same_node k ∈ offered (sample_mempool gossip)) /\
  mempool_status s (rt_hash (same_node 2)) = Some (Committed 1) /\
  (7 ∉ mp_locked_nodes_cache s) /\ offered s = [same_node 3].
Proof.
  cbv zeta. split_and!.
  - assert (offered (sample_mempool [GossipTx (same_node 1); GossipTx (same_node 2); GossipTx (same_node 3)])
            ≡ₚ same_node <$> [1; 2; 3]) as Hp.
    { vm_compute. reflexivity. }
    intros k Hk. rewrite Hp. by apply list_elem_of_fmap_2.
  - vm_compute. reflexivity.
  - apply (bool_decide_unpack _). vm_compute. reflexivity.
  - vm_compute. reflexivity.
Qed.

(** One transaction from gossip to execution. *)
Definition sample_calls : list mempool_event :=
  [GossipTx first_node; CommitBlock (sample_commit 1 [first_node] []);
   ExecutedTx (rt_hash first_node) true].

Lemma mempool_locks_and_load_witness :
  in_flight (sample_mempool sample_calls) = 1%nat /\
  in_flight (sample_mempool sample_calls)
  = status_count Status.holds_state_lock (mp_pool (sample_mempool sample_calls)).
Proof.
  split; [vm_compute; reflexivity|].
  assert (@calls_ok sample_crypto (sample_topology 0) canonical_iter sample_calls mempool_new) as Hok.
  { split; [exact I|]. split; [|split; [|exact I]].
    - apply Forall_cons. split; [|apply Forall_nil; exact I].
      intros pe Hpe. vm_compute in Hpe. injection Hpe as <-. reflexivity.
    - intros pe Hpe. vm_compute in Hpe. injection Hpe as <-. reflexivity. }
  exact (proj1 (@mempool_locks_and_load sample_crypto (sample_topology 0) canonical_iter
                  default_mempool_config sample_calls Hok)).
Defined.
