(* ===== verification/Trackers.v ===== *)
(** * Vote and certificate trackers (crates/execution/src/trackers)

    For each transaction, a [VoteTracker] buffers the execution votes of the
    local shard until their power could reach a quorum, and counts the verified
    ones per state root; a [CertificateTracker] collects one state certificate
    per participating shard and combines them into a transaction certificate. *)

From stdpp Require Import base gmap list numbers sorting.
From Stdlib Require Import NArith Lia.
From S2P Require Import Prelude Bitfield Types Topology.

(** ** Votes (vote.rs) *)

Notation BufferedVote := (StateVoteBlock * Bls12381G1PublicKey * u64)%type (only parsing).

Record VoteTracker := mk_vote_tracker {
  vt_tx_hash : Hash;
  vt_participating_shards : list ShardGroupId;
  vt_read_nodes : list NodeId;
  vt_quorum : u64;
  vt_votes_by_root : gmap Hash (list StateVoteBlock);
  vt_power_by_root : gmap Hash u64;
  vt_unverified_votes : list (StateVoteBlock * Bls12381G1PublicKey * u64);
  vt_unverified_power : u64;
  vt_seen_validators : gset ValidatorId;
  vt_pending_verification : bool
}.

#[export] Instance VoteTracker_eta : Eta VoteTracker := fun t =>
  mk_vote_tracker (vt_tx_hash t) (vt_participating_shards t) (vt_read_nodes t) (vt_quorum t)
    (vt_votes_by_root t) (vt_power_by_root t) (vt_unverified_votes t) (vt_unverified_power t)
    (vt_seen_validators t) (vt_pending_verification t).

Definition vote_tracker_new (tx_hash : Hash) (participating_shards : list ShardGroupId)
    (read_nodes : list NodeId) (quorum : u64) : VoteTracker :=
  mk_vote_tracker tx_hash participating_shards read_nodes quorum ∅ ∅ [] 0 ∅ false.

Definition has_seen_validator (t : VoteTracker) (validator_id : ValidatorId) : bool :=
  bool_decide (validator_id ∈ vt_seen_validators t).

Definition buffer_unverified_state_vote (vote : StateVoteBlock) (public_key : Bls12381G1PublicKey)
    (voting_power : u64) (t : VoteTracker) : VoteTracker * bool :=
  let validator_id := sv_validator vote in
  if bool_decide (validator_id ∈ vt_seen_validators t) then (t, false)
  else (t <| vt_seen_validators ::= union {[validator_id]} |>
          <| vt_unverified_votes ::= fun l => l ++ [(vote, public_key, voting_power)] |>
          <| vt_unverified_power ::= fun p => p +w voting_power |>, true).

(** [power_by_root.values().max().copied().unwrap_or(0)]. *)
Definition best_verified_power (t : VoteTracker) : u64 :=
  foldr N.max 0 (btree_values (vt_power_by_root t)).

Definition should_trigger_state_verification (t : VoteTracker) : bool :=
  if Nat.eqb (length (vt_unverified_votes t)) 0 || vt_pending_verification t then false
  else vt_quorum t <=? best_verified_power t +w vt_unverified_power t.

Definition take_unverified_state_votes (t : VoteTracker)
    : VoteTracker * list (StateVoteBlock * Bls12381G1PublicKey * u64) :=
  (t <| vt_pending_verification := true |>
     <| vt_unverified_power := 0 |>
     <| vt_unverified_votes := [] |>, vt_unverified_votes t).

Definition on_verification_complete (t : VoteTracker) : VoteTracker :=
  t <| vt_pending_verification := false |>.

Definition votes_at (t : VoteTracker) (root : Hash) : list StateVoteBlock :=
  default [] (vt_votes_by_root t !! root).
Definition power_at (t : VoteTracker) (root : Hash) : u64 :=
  default 0 (vt_power_by_root t !! root).

Definition add_verified_vote (vote : StateVoteBlock) (power : u64) (t : VoteTracker)
    : VoteTracker :=
  let state_root := sv_state_root vote in
  t <| vt_votes_by_root ::= <[state_root := votes_at t state_root ++ [vote]]> |>
    <| vt_power_by_root ::= <[state_root := power_at t state_root +w power]> |>.

(** The first root, in the order of the roots, whose power reaches the quorum. *)
Definition check_quorum (t : VoteTracker) : option (Hash * u64) :=
  snd <$> list_find (fun kv => vt_quorum t <= kv.2) (btree_iter (vt_power_by_root t)).

Definition take_votes_for_root (root : Hash) (t : VoteTracker)
    : VoteTracker * list StateVoteBlock :=
  (t <| vt_votes_by_root ::= delete root |>, votes_at t root).

(** ** Certificates (certificate.rs) *)

Record CertificateTracker := mk_certificate_tracker {
  ct_tx_hash : Hash;
  ct_expected_shards : list ShardGroupId;
  ct_certificates : gmap ShardGroupId StateCertificate
}.

#[export] Instance CertificateTracker_eta : Eta CertificateTracker := fun t =>
  mk_certificate_tracker (ct_tx_hash t) (ct_expected_shards t) (ct_certificates t).

Definition certificate_tracker_new (tx_hash : Hash) (expected_shards : list ShardGroupId)
    : CertificateTracker := mk_certificate_tracker tx_hash expected_shards ∅.

Definition certificate_count (t : CertificateTracker) : usize := size (ct_certificates t).
Definition expected_count (t : CertificateTracker) : usize := length (ct_expected_shards t).

Definition tracker_is_complete (t : CertificateTracker) : bool :=
  Nat.eqb (certificate_count t) (expected_count t).

Definition add_certificate (cert : StateCertificate) (t : CertificateTracker)
    : CertificateTracker * bool :=
  let shard := sc_shard_group_id cert in
  if negb (bool_decide (shard ∈ ct_expected_shards t)) then (t, false)
  else if contains_key (ct_certificates t) shard then (t, tracker_is_complete t)
  else let t := t <| ct_certificates ::= <[shard := cert]> |> in (t, tracker_is_complete t).

Definition create_tx_certificate (t : CertificateTracker)
    : CertificateTracker * option TransactionCertificate :=
  if negb (tracker_is_complete t) then (t, None)
  else
    match sc_outputs_merkle_root <$> btree_values (ct_certificates t) with
    | [] => (t, None)
    | first_root :: roots =>
        if negb (forallb (N.eqb first_root) roots) then (t, None)
        else
          let all_succeeded := forallb sc_success (btree_values (ct_certificates t)) in
          let decision := if all_succeeded then Accept else Reject in
          (t <| ct_certificates := ∅ |>,
           Some (mk_transaction_certificate (ct_tx_hash t) decision (ct_certificates t)))
    end.
