(* ===== verification/Execution.v ===== *)
(** * The execution state machine (crates/execution/src/state.rs)

    After a block commits, its transactions are executed: single-shard ones at
    once (or before the commit, speculatively), cross-shard ones when the state
    of the other shards has arrived.  The validators of a shard vote on the
    result; a quorum of votes becomes a state certificate, and the certificates
    of all participating shards become the transaction certificate. *)

From stdpp Require Import base gmap list numbers sorting.
From Stdlib Require Import NArith Lia.
From S2P Require Import Prelude Bitfield Types Encoding Topology Transactions VoteSet Core.
From S2P Require Import Runner Trackers.

Definition EXECUTED_TX_RETENTION_BLOCKS : u64 := 100.
Definition EARLY_ARRIVAL_RETENTION_BLOCKS : u64 := 1000.
Definition VERIFIED_VOTE_RETENTION_BLOCKS : u64 := 200.
Definition DEFAULT_SPECULATIVE_MAX_TXS : usize := 500.
Definition DEFAULT_VIEW_CHANGE_COOLDOWN_ROUNDS : u64 := 3.

(** ** Data *)

Inductive PendingVerificationKey := CertificateKey (shard : ShardGroupId).

#[export] Instance PendingVerificationKey_eq_dec : EqDecision PendingVerificationKey.
Proof. solve_decision. Defined.
#[export] Instance PendingVerificationKey_countable : Countable PendingVerificationKey.
Proof. apply (inj_countable' (fun '(CertificateKey s) => s) CertificateKey). by intros []. Defined.

Record SpeculativeResult := mk_speculative_result {
  spr_read_set : gset NodeId;
  spr_created_at : Duration
}.

Record PendingProvisionBroadcast := mk_pending_provision_broadcast {
  ppb_block_height : BlockHeight;
  ppb_block_timestamp : u64;
  ppb_target_shards : list ShardGroupId
}.

Record PendingFetchedCertificateVerification := mk_pending_fetched {
  pfc_certificate : TransactionCertificate;
  pfc_block_hash : Hash;
  pfc_pending_shards : gset ShardGroupId;
  pfc_has_failed : bool
}.

#[export] Instance PendingFetched_eta : Eta PendingFetchedCertificateVerification := fun p =>
  mk_pending_fetched (pfc_certificate p) (pfc_block_hash p) (pfc_pending_shards p)
    (pfc_has_failed p).

(** [PendingCertificateVerification] and [PendingCertificateAggregation] have
    one field each: the certificate, the participating shards. *)
Record ExecutionState := mk_execution_state {
  ex_signing_key : Bls12381G1PrivateKey;
  ex_now : Duration;
  ex_executed_txs : gmap Hash u64;
  ex_finalized_certificates : gmap Hash TransactionCertificate;
  ex_committed_height : u64;
  ex_pending_provisioning : gmap Hash (RoutableTransaction * u64);
  ex_pending_provision_fetches : gmap Hash PendingProvisionBroadcast;
  ex_vote_trackers : gmap Hash VoteTracker;
  ex_state_certificates : gmap Hash StateCertificate;
  ex_pending_cert_aggregations : gmap Hash (list ShardGroupId);
  ex_certificate_trackers : gmap Hash CertificateTracker;
  ex_early_provisioning_complete : gmap Hash (list StateProvision * u64);
  ex_early_votes : gmap Hash (gset StateVoteBlock * u64);
  ex_early_certificates : gmap Hash (list StateCertificate * u64);
  ex_pending_cert_verifications : gmap (Hash * ShardGroupId) StateCertificate;
  ex_pending_fetched_cert_verifications : gmap Hash PendingFetchedCertificateVerification;
  ex_pending_verifications_by_tx : gmap Hash (gset PendingVerificationKey);
  ex_verified_state_votes : gmap (Hash * ValidatorId) u64;
  ex_verified_votes_by_tx : gmap Hash (gset ValidatorId);
  ex_speculative_results : gmap Hash SpeculativeResult;
  ex_speculative_in_flight_txs : gset Hash;
  ex_speculative_reads_index : gmap NodeId (gset Hash);
  ex_pending_speculative_executions : gmap Hash (list RoutableTransaction);
  ex_speculative_max_txs : usize;
  ex_view_change_cooldown_rounds : u64;
  ex_last_view_change_height : u64;
  ex_speculative_started_count : u64;
  ex_speculative_cache_hit_count : u64;
  ex_speculative_late_hit_count : u64;
  ex_speculative_cache_miss_count : u64;
  ex_speculative_invalidated_count : u64
}.

#[export] Instance ExecutionState_eta : Eta ExecutionState := fun s =>
  mk_execution_state (ex_signing_key s) (ex_now s) (ex_executed_txs s)
    (ex_finalized_certificates s) (ex_committed_height s) (ex_pending_provisioning s)
    (ex_pending_provision_fetches s) (ex_vote_trackers s) (ex_state_certificates s)
    (ex_pending_cert_aggregations s) (ex_certificate_trackers s)
    (ex_early_provisioning_complete s) (ex_early_votes s) (ex_early_certificates s)
    (ex_pending_cert_verifications s) (ex_pending_fetched_cert_verifications s)
    (ex_pending_verifications_by_tx s) (ex_verified_state_votes s) (ex_verified_votes_by_tx s)
    (ex_speculative_results s) (ex_speculative_in_flight_txs s) (ex_speculative_reads_index s)
    (ex_pending_speculative_executions s) (ex_speculative_max_txs s)
    (ex_view_change_cooldown_rounds s) (ex_last_view_change_height s)
    (ex_speculative_started_count s) (ex_speculative_cache_hit_count s)
    (ex_speculative_late_hit_count s) (ex_speculative_cache_miss_count s)
    (ex_speculative_invalidated_count s).

Definition execution := handler ExecutionState Action.

Definition with_speculative_config (signing_key : Bls12381G1PrivateKey)
    (speculative_max_txs : usize) (view_change_cooldown_rounds : u64) : ExecutionState :=
  mk_execution_state signing_key 0 ∅ ∅ 0 ∅ ∅ ∅ ∅ ∅ ∅ ∅ ∅ ∅ ∅ ∅ ∅ ∅ ∅ ∅ ∅ ∅ ∅
    speculative_max_txs view_change_cooldown_rounds 0 0 0 0 0 0.

Definition execution_new (signing_key : Bls12381G1PrivateKey) : ExecutionState :=
  with_speculative_config signing_key DEFAULT_SPECULATIVE_MAX_TXS
    DEFAULT_VIEW_CHANGE_COOLDOWN_ROUNDS.

Definition execution_set_time (now : Duration) (s : ExecutionState) : ExecutionState :=
  s <| ex_now := now |>.

(** ** Queries *)

Definition is_tx_executed (s : ExecutionState) (tx_hash : Hash) : bool :=
  contains_key (ex_executed_txs s) tx_hash.
Definition is_finalized (s : ExecutionState) (tx_hash : Hash) : bool :=
  contains_key (ex_finalized_certificates s) tx_hash.
Definition is_awaiting_provisioning (s : ExecutionState) (tx_hash : Hash) : bool :=
  contains_key (ex_pending_provisioning s) tx_hash.
Definition is_tracking_votes (s : ExecutionState) (tx_hash : Hash) : bool :=
  contains_key (ex_vote_trackers s) tx_hash.
Definition has_state_certificate (s : ExecutionState) (tx_hash : Hash) : bool :=
  contains_key (ex_state_certificates s) tx_hash.
Definition has_speculative_result (s : ExecutionState) (tx_hash : Hash) : bool :=
  contains_key (ex_speculative_results s) tx_hash.
Definition is_speculative_in_flight_for_tx (s : ExecutionState) (tx_hash : Hash) : bool :=
  bool_decide (tx_hash ∈ ex_speculative_in_flight_txs s).
Definition get_finalized_certificates (s : ExecutionState) : list TransactionCertificate :=
  btree_values (ex_finalized_certificates s).
Definition finalized_certificates_by_hash (s : ExecutionState) : gmap Hash TransactionCertificate :=
  ex_finalized_certificates s.
Definition get_finalized_certificate (s : ExecutionState) (tx_hash : Hash)
    : option TransactionCertificate := ex_finalized_certificates s !! tx_hash.
Definition speculative_cache_size (s : ExecutionState) : usize := size (ex_speculative_results s).
Definition speculative_in_flight_count (s : ExecutionState) : usize :=
  size (ex_speculative_in_flight_txs s).

Definition cross_shard_pending_count (s : ExecutionState) : usize :=
  size (dom (ex_pending_provisioning s)
        ∪ dom (hm_retain (fun _ t => Nat.ltb 1 (expected_count t)) (ex_certificate_trackers s))
        : gset Hash).

(** ** Pruning *)

Definition prune_executed_txs (s : ExecutionState) : ExecutionState :=
  let cutoff := ex_committed_height s - EXECUTED_TX_RETENTION_BLOCKS in
  s <| ex_executed_txs ::= hm_retain (fun _ height => cutoff <? height) |>.

Definition prune_early_arrivals (s : ExecutionState) : ExecutionState :=
  let cutoff := ex_committed_height s - EARLY_ARRIVAL_RETENTION_BLOCKS in
  s <| ex_early_provisioning_complete ::= hm_retain (fun _ p => cutoff <? p.2) |>
    <| ex_early_votes ::= hm_retain (fun _ p => cutoff <? p.2) |>
    <| ex_early_certificates ::= hm_retain (fun _ p => cutoff <? p.2) |>.

(** The order in which the old votes leave the index makes no difference. *)
Definition prune_verified_votes (s : ExecutionState) : ExecutionState :=
  let cutoff := ex_committed_height s - VERIFIED_VOTE_RETENTION_BLOCKS in
  let old := hm_retain (fun _ height => height <=? cutoff) (ex_verified_state_votes s) in
  s <| ex_verified_state_votes ::= hm_retain (fun _ height => negb (height <=? cutoff)) |>
    <| ex_verified_votes_by_tx ::= fun m =>
         hm_retain (fun _ validators => negb (bool_decide (validators = ∅)))
           (foldl (fun m kv => mm_discard kv.1.1 kv.1.2 m) m (map_to_list old)) |>.

(** ** Cleanup *)

(** The two caches that are found through a reverse index. *)
Definition forget_verifications (tx_hash : Hash) (s : ExecutionState) : ExecutionState :=
  s <| ex_pending_verifications_by_tx ::= delete tx_hash |>
    <| ex_pending_cert_verifications ::= fun m =>
         foldl (fun m '(CertificateKey shard) => delete (tx_hash, shard) m) m
           (elements (mm_get (ex_pending_verifications_by_tx s) tx_hash)) |>.

Definition forget_verified_votes (tx_hash : Hash) (s : ExecutionState) : ExecutionState :=
  s <| ex_verified_votes_by_tx ::= delete tx_hash |>
    <| ex_verified_state_votes ::= fun m =>
         foldl (fun m vid => delete (tx_hash, vid) m) m
           (elements (mm_get (ex_verified_votes_by_tx s) tx_hash)) |>.

Definition remove_finalized_certificate (tx_hash : Hash) (s : ExecutionState) : ExecutionState :=
  let s := forget_verified_votes tx_hash s in
  let s := s <| ex_finalized_certificates ::= delete tx_hash |>
             <| ex_pending_provisioning ::= delete tx_hash |>
             <| ex_pending_provision_fetches ::= delete tx_hash |>
             <| ex_vote_trackers ::= delete tx_hash |>
             <| ex_state_certificates ::= delete tx_hash |>
             <| ex_certificate_trackers ::= delete tx_hash |>
             <| ex_early_provisioning_complete ::= delete tx_hash |>
             <| ex_early_votes ::= delete tx_hash |>
             <| ex_early_certificates ::= delete tx_hash |> in
  let s := forget_verifications tx_hash s in
  s <| ex_pending_fetched_cert_verifications ::= delete tx_hash |>
    <| ex_pending_cert_aggregations ::= delete tx_hash |>.

Definition cleanup_transaction (tx_hash : Hash) (s : ExecutionState) : ExecutionState :=
  if contains_key (ex_finalized_certificates s) tx_hash then s
  else
    let s := s <| ex_executed_txs ::= delete tx_hash |>
               <| ex_pending_provisioning ::= delete tx_hash |>
               <| ex_pending_provision_fetches ::= delete tx_hash |>
               <| ex_vote_trackers ::= delete tx_hash |>
               <| ex_state_certificates ::= delete tx_hash |>
               <| ex_certificate_trackers ::= delete tx_hash |>
               <| ex_early_provisioning_complete ::= delete tx_hash |>
               <| ex_early_votes ::= delete tx_hash |>
               <| ex_early_certificates ::= delete tx_hash |> in
    forget_verified_votes tx_hash (forget_verifications tx_hash s).

Definition cancel_certificate_building (tx_hash : Hash) (s : ExecutionState) : ExecutionState :=
  let s := s <| ex_certificate_trackers ::= delete tx_hash |>
             <| ex_early_certificates ::= delete tx_hash |>
             <| ex_vote_trackers ::= delete tx_hash |>
             <| ex_pending_cert_aggregations ::= delete tx_hash |>
             <| ex_early_votes ::= delete tx_hash |>
             <| ex_state_certificates ::= delete tx_hash |>
             <| ex_pending_fetched_cert_verifications ::= delete tx_hash |> in
  forget_verified_votes tx_hash (forget_verifications tx_hash s).

Definition add_verified_certificate (certificate : TransactionCertificate) (s : ExecutionState)
    : ExecutionState :=
  let tx_hash := tc_transaction_hash certificate in
  if contains_key (ex_finalized_certificates s) tx_hash then s
  else s <| ex_finalized_certificates ::= <[tx_hash := certificate]> |>.

(** ** Speculation *)

Definition on_view_change (height : u64) (s : ExecutionState) : ExecutionState :=
  s <| ex_last_view_change_height := height |>
    <| ex_speculative_in_flight_txs := ∅ |>
    <| ex_pending_speculative_executions := ∅ |>.

Definition should_speculative_execute (s : ExecutionState) (height : u64) : bool :=
  if height <=? ex_last_view_change_height s +w ex_view_change_cooldown_rounds s then false
  else Nat.ltb (size (ex_speculative_results s) + size (ex_speculative_in_flight_txs s))
         (ex_speculative_max_txs s).

(** The loop over the read set; its order makes no difference. *)
Definition unindex_reads (tx_hash : Hash) (read_set : gset NodeId)
    (m : gmap NodeId (gset Hash)) : gmap NodeId (gset Hash) :=
  foldl (fun m node_id => mm_remove node_id tx_hash m) m (elements read_set).

Definition remove_speculative_result (tx_hash : Hash) (s : ExecutionState) : ExecutionState :=
  match ex_speculative_results s !! tx_hash with
  | Some spec =>
      s <| ex_speculative_results ::= delete tx_hash |>
        <| ex_speculative_reads_index ::= unindex_reads tx_hash (spr_read_set spec) |>
  | None => s
  end.

Definition take_speculative_result (tx_hash : Hash) (s : ExecutionState)
    : ExecutionState * option unit :=
  match ex_speculative_results s !! tx_hash with
  | Some spec =>
      (s <| ex_speculative_results ::= delete tx_hash |>
         <| ex_speculative_reads_index ::= unindex_reads tx_hash (spr_read_set spec) |>
         <| ex_speculative_cache_hit_count ::= fun n => n +w 1 |>, Some tt)
  | None => (s, None)
  end.

Definition record_speculative_cache_miss (s : ExecutionState) : ExecutionState :=
  s <| ex_speculative_cache_miss_count ::= fun n => n +w 1 |>.

(** One transaction of [on_speculative_execution_complete]. *)
Definition cache_speculation (transactions : list RoutableTransaction) (s : ExecutionState)
    (tx_hash : Hash) : ExecutionState :=
  let s := s <| ex_speculative_in_flight_txs ::= fun X => X ∖ {[tx_hash]} |> in
  if contains_key (ex_executed_txs s) tx_hash then s
  else
    let tx_map : gmap Hash RoutableTransaction :=
      list_to_map (rev ((fun tx => (rt_hash tx, tx)) <$> transactions)) in
    let read_set : gset NodeId :=
      match tx_map !! tx_hash with
      | Some tx => list_to_set (rt_declared_reads tx)
      | None => ∅
      end in
    s <| ex_speculative_reads_index ::= fun m =>
           foldl (fun m node_id => mm_insert node_id tx_hash m) m (elements read_set) |>
      <| ex_speculative_results ::= <[tx_hash := mk_speculative_result read_set (ex_now s)]> |>.

Definition on_speculative_execution_complete (block_hash : Hash) (tx_hashes : list Hash)
    : execution := hupd (fun s =>
  let transactions := default [] (ex_pending_speculative_executions s !! block_hash) in
  foldl (cache_speculation transactions)
    (s <| ex_pending_speculative_executions ::= delete block_hash |>) tx_hashes).

Definition invalidate_one (s : ExecutionState) (tx_hash : Hash) : ExecutionState :=
  if contains_key (ex_speculative_results s) tx_hash then
    remove_speculative_result tx_hash s <| ex_speculative_invalidated_count ::= fun n => n +w 1 |>
  else s.

Definition written_nodes (certificate : TransactionCertificate) : gset NodeId :=
  list_to_set (flat_map (fun cert => sw_node_id <$> sc_state_writes cert)
                 (btree_values (tc_shard_proofs certificate))).

Section execution.
Context `{Crypto} `{T : Topology} `{HashIter}.

Definition invalidate_speculative_on_commit (certificate : TransactionCertificate)
    (s : ExecutionState) : ExecutionState :=
  let to_invalidate :=
    flat_map (fun node_id => hs_iter (mm_get (ex_speculative_reads_index s) node_id))
      (hs_iter (written_nodes certificate)) in
  foldl invalidate_one s to_invalidate.

Definition cleanup_stale_speculative (max_age : Duration) (s : ExecutionState) : ExecutionState :=
  let stale := hm_retain (fun _ spec => max_age <? ex_now s - spr_created_at spec)
                 (ex_speculative_results s) in
  foldl (fun s kv => remove_speculative_result kv.1 s) s (hm_iter stale).

Definition trigger_speculative_execution (block_hash : Hash) (height : u64)
    (transactions : list RoutableTransaction) : execution := fun s =>
  if negb (should_speculative_execute s height) then (s, [])
  else
    let single_shard_txs := filter (fun tx =>
      is_single_shard_transaction tx
      && negb (contains_key (ex_speculative_results s) (rt_hash tx))
      && negb (bool_decide (rt_hash tx ∈ ex_speculative_in_flight_txs s))
      && negb (contains_key (ex_executed_txs s) (rt_hash tx)) = true) transactions in
    match single_shard_txs with
    | [] => (s, [])
    | _ :: _ =>
        (s <| ex_speculative_in_flight_txs ::=
                union (list_to_set (rt_hash <$> single_shard_txs)) |>
           <| ex_pending_speculative_executions ::= <[block_hash := single_shard_txs]> |>
           <| ex_speculative_started_count ::= fun n =>
                n +w as_u64 (N.of_nat (length single_shard_txs)) |>,
         [SpeculativeExecute block_hash single_shard_txs])
    end.

Definition take_speculative_metrics (s : ExecutionState)
    : ExecutionState * (u64 * u64 * u64 * u64 * u64) :=
  (s <| ex_speculative_started_count := 0 |> <| ex_speculative_cache_hit_count := 0 |>
     <| ex_speculative_late_hit_count := 0 |> <| ex_speculative_cache_miss_count := 0 |>
     <| ex_speculative_invalidated_count := 0 |>,
   (ex_speculative_started_count s, ex_speculative_cache_hit_count s,
    ex_speculative_late_hit_count s, ex_speculative_cache_miss_count s,
    ex_speculative_invalidated_count s)).

(** ** Topology accessors *)

Definition all_shards_for_tx (tx : RoutableTransaction) : list ShardGroupId :=
  btree_set (all_shards_for_transaction tx).

Definition provisioning_quorum_for_shard (shard : ShardGroupId) : usize :=
  let committee_size := committee_size_for_shard shard in
  if Nat.eqb committee_size 0 then 1%nat else ((2 * committee_size + 1) / 3)%nat.

(** The keys of a shard's committee, when every member has one. *)
Definition committee_public_keys (shard : ShardGroupId) : option (list Bls12381G1PublicKey) :=
  let committee := committee_for_shard shard in
  let public_keys := filter_map public_key committee in
  if Nat.eqb (length public_keys) (length committee) then Some public_keys else None.

(** ** Certificates: finalization *)

Definition handle_certificate_internal (cert : StateCertificate) : execution := fun s =>
  let tx_hash := sc_transaction_hash cert in
  match ex_certificate_trackers s !! tx_hash with
  | None => (s, [])
  | Some tracker =>
      let '(tracker, complete) := add_certificate cert tracker in
      if complete then
        let '(tracker, tx_cert) := create_tx_certificate tracker in
        let s := s <| ex_certificate_trackers ::= delete tx_hash |> in
        match tx_cert with
        | Some tx_cert =>
            let accepted := match tc_decision tx_cert with Accept => true | Reject => false end in
            (s <| ex_finalized_certificates ::= <[tx_hash := tx_cert]> |>,
             [PersistTransactionCertificate tx_cert;
              EnqueueInternal (TransactionExecuted tx_hash accepted)])
        | None => (s, [])
        end
      else (s <| ex_certificate_trackers ::= <[tx_hash := tracker]> |>, [])
  end.

Definition on_certificate (cert : StateCertificate) : execution := fun s =>
  let tx_hash := sc_transaction_hash cert in
  let shard := sc_shard_group_id cert in
  if negb (contains_key (ex_certificate_trackers s) tx_hash) then
    if contains_key (ex_finalized_certificates s) tx_hash then (s, [])
    else
      (s <| ex_early_certificates ::= fun m =>
              let '(certs, height) := default ([], ex_committed_height s) (m !! tx_hash) in
              <[tx_hash := (certs ++ [cert], height)]> m |>, [])
  else
    match committee_public_keys shard with
    | None => (s, [])
    | Some public_keys =>
        (s <| ex_pending_cert_verifications ::= <[(tx_hash, shard) := cert]> |>
           <| ex_pending_verifications_by_tx ::= mm_insert tx_hash (CertificateKey shard) |>,
         [VerifyStateCertificateSignature cert public_keys])
    end.

Definition handle_fetched_cert_verified (tx_hash : Hash) (shard : ShardGroupId) (valid : bool)
    : execution := fun s =>
  match ex_pending_fetched_cert_verifications s !! tx_hash with
  | None => (s, [])
  | Some pending =>
      let pending := pending <| pfc_pending_shards ::= fun X => X ∖ {[shard]} |> in
      let pending := if valid then pending else pending <| pfc_has_failed := true |> in
      if negb (bool_decide (pfc_pending_shards pending = ∅)) then
        (s <| ex_pending_fetched_cert_verifications ::= <[tx_hash := pending]> |>, [])
      else
        (s <| ex_pending_fetched_cert_verifications ::= delete tx_hash |>,
         if pfc_has_failed pending then []
         else [EnqueueInternal (FetchedCertificateVerified (pfc_block_hash pending)
                                  (pfc_certificate pending))])
  end.

Definition on_certificate_verified (certificate : StateCertificate) (valid : bool) : execution :=
  fun s =>
  let tx_hash := sc_transaction_hash certificate in
  let shard := sc_shard_group_id certificate in
  if contains_key (ex_pending_fetched_cert_verifications s) tx_hash then
    handle_fetched_cert_verified tx_hash shard valid s
  else
    let s := s <| ex_pending_cert_verifications ::= delete (tx_hash, shard) |>
               <| ex_pending_verifications_by_tx ::= mm_discard tx_hash (CertificateKey shard) |> in
    if negb valid then (s, []) else handle_certificate_internal certificate s.

(** The loop of [verify_fetched_certificate] over one shard's proof. *)
Definition verify_fetched_proof (tx_hash : Hash) (proof : ShardGroupId * StateCertificate)
    : execution := fun s =>
  match committee_public_keys proof.1 with
  | Some public_keys => (s, [VerifyStateCertificateSignature proof.2 public_keys])
  | None =>
      (s <| ex_pending_fetched_cert_verifications ::=
              alter (fun pending => pending <| pfc_has_failed := true |>
                                            <| pfc_pending_shards ::= fun X => X ∖ {[proof.1]} |>)
                tx_hash |>, [])
  end.

Definition verify_fetched_certificate (block_hash : Hash) (certificate : TransactionCertificate)
    : execution := fun s =>
  let tx_hash := tc_transaction_hash certificate in
  let pending_shards := dom (tc_shard_proofs certificate) in
  if bool_decide (pending_shards = ∅) then
    (s, [EnqueueInternal (FetchedCertificateVerified block_hash certificate)])
  else
    for_each (verify_fetched_proof tx_hash) (btree_iter (tc_shard_proofs certificate))
      (s <| ex_pending_fetched_cert_verifications ::=
              <[tx_hash := mk_pending_fetched certificate block_hash pending_shards false]> |>).

(** ** Votes *)

Definition check_vote_quorum (tx_hash : Hash) : execution := fun s =>
  match ex_vote_trackers s !! tx_hash with
  | None => (s, [])
  | Some tracker =>
      match check_quorum tracker with
      | None => (s, [])
      | Some (merkle_root, total_power) =>
          let '(_, votes) := take_votes_for_root merkle_root tracker in
          (s <| ex_pending_cert_aggregations ::= <[tx_hash := vt_participating_shards tracker]> |>
             <| ex_vote_trackers ::= delete tx_hash |>,
           [AggregateStateCertificate tx_hash local_shard merkle_root votes
              (vt_read_nodes tracker) total_power (length local_committee)])
      end
  end.

Definition cache_verified_vote (tx_hash : Hash) (validator_id : ValidatorId) (s : ExecutionState)
    : ExecutionState :=
  s <| ex_verified_state_votes ::= <[(tx_hash, validator_id) := 0]> |>
    <| ex_verified_votes_by_tx ::= mm_insert tx_hash validator_id |>.

Definition handle_verified_vote (vote : StateVoteBlock) : execution := fun s =>
  let tx_hash := sv_transaction_hash vote in
  let voting_power := power_of (sv_validator vote) in
  match ex_vote_trackers s !! tx_hash with
  | None => (s, [])
  | Some tracker =>
      let s := if has_seen_validator tracker (sv_validator vote) then s
               else cache_verified_vote tx_hash (sv_validator vote) s in
      check_vote_quorum tx_hash
        (s <| ex_vote_trackers ::= <[tx_hash := add_verified_vote vote voting_power tracker]> |>)
  end.

Definition maybe_trigger_state_vote_verification (tx_hash : Hash) : execution := fun s =>
  match ex_vote_trackers s !! tx_hash with
  | None => (s, [])
  | Some tracker =>
      if negb (should_trigger_state_verification tracker) then (s, [])
      else
        let '(tracker, votes) := take_unverified_state_votes tracker in
        (s <| ex_vote_trackers ::= <[tx_hash := tracker]> |>,
         match votes with
         | [] => []
         | _ :: _ => [VerifyAndAggregateStateVotes tx_hash votes]
         end)
  end.

Definition on_vote (vote : StateVoteBlock) : execution := fun s =>
  let tx_hash := sv_transaction_hash vote in
  let validator_id := sv_validator vote in
  match ex_vote_trackers s !! tx_hash with
  | None =>
      if contains_key (ex_state_certificates s) tx_hash then (s, [])
      else
        (s <| ex_early_votes ::= fun m =>
                let '(votes, height) := default (∅, ex_committed_height s) (m !! tx_hash) in
                <[tx_hash := ({[vote]} ∪ votes, height)]> m |>, [])
  | Some tracker =>
      if validator_id =? local_validator_id then handle_verified_vote vote s
      else if contains_key (ex_verified_state_votes s) (tx_hash, validator_id) then
        handle_verified_vote vote s
      else
        match public_key validator_id with
        | None => (s, [])
        | Some pk =>
            let voting_power := power_of validator_id in
            if has_seen_validator tracker validator_id then (s, [])
            else
              let '(tracker, _) := buffer_unverified_state_vote vote pk voting_power tracker in
              maybe_trigger_state_vote_verification tx_hash
                (s <| ex_vote_trackers ::= <[tx_hash := tracker]> |>)
        end
  end.

(** One vote of a verified batch. *)
Definition add_batch_vote (tx_hash : Hash) (s : ExecutionState) (vp : StateVoteBlock * u64)
    : ExecutionState :=
  cache_verified_vote tx_hash (sv_validator vp.1) s
    <| ex_vote_trackers ::= alter (add_verified_vote vp.1 vp.2) tx_hash |>.

Definition on_state_votes_verified (tx_hash : Hash) (verified_votes : list (StateVoteBlock * u64))
    : execution := fun s =>
  match ex_vote_trackers s !! tx_hash with
  | None => (s, [])
  | Some tracker =>
      let s := s <| ex_vote_trackers ::= <[tx_hash := on_verification_complete tracker]> |> in
      match verified_votes with
      | [] => maybe_trigger_state_vote_verification tx_hash s
      | _ :: _ =>
          (check_vote_quorum tx_hash ;> maybe_trigger_state_vote_verification tx_hash)
            (foldl (add_batch_vote tx_hash) s verified_votes)
      end
  end.

Definition on_state_certificate_aggregated (tx_hash : Hash) (certificate : StateCertificate)
    : execution := fun s =>
  match ex_pending_cert_aggregations s !! tx_hash with
  | None => (s, [])
  | Some participating_shards =>
      (hemit ((fun shard => BroadcastStateCertificate shard certificate) <$> participating_shards) ;>
       handle_certificate_internal certificate)
        (s <| ex_pending_cert_aggregations ::= delete tx_hash |>
           <| ex_state_certificates ::= <[tx_hash := certificate]> |>)
  end.

(** ** Starting execution *)

Definition replay_early_votes (tx_hash : Hash) : execution := fun s =>
  match ex_early_votes s !! tx_hash with
  | None => (s, [])
  | Some (early_votes, _) =>
      for_each on_vote (hs_iter early_votes) (s <| ex_early_votes ::= delete tx_hash |>)
  end.

Definition replay_early_certificates (tx_hash : Hash) : execution := fun s =>
  match ex_early_certificates s !! tx_hash with
  | None => (s, [])
  | Some (early_certs, _) =>
      for_each on_certificate early_certs (s <| ex_early_certificates ::= delete tx_hash |>)
  end.

Definition start_tracking (tx : RoutableTransaction) (shards : list ShardGroupId) : execution :=
  hupd (fun s =>
    s <| ex_vote_trackers ::= <[rt_hash tx :=
           vote_tracker_new (rt_hash tx) shards (rt_declared_reads tx) local_quorum_threshold]> |>
      <| ex_certificate_trackers ::= <[rt_hash tx :=
           certificate_tracker_new (rt_hash tx) shards]> |>) ;>
  replay_early_votes (rt_hash tx) ;>
  replay_early_certificates (rt_hash tx).

Definition start_single_shard_execution (tx : RoutableTransaction) : execution :=
  start_tracking tx [local_shard].

Definition on_provisioning_complete (tx_hash : Hash) (provisions : list StateProvision)
    : execution := fun s =>
  match ex_pending_provisioning s !! tx_hash with
  | None =>
      (s <| ex_early_provisioning_complete ::=
              <[tx_hash := (provisions, ex_committed_height s)]> |>, [])
  | Some (tx, _) =>
      (s <| ex_pending_provisioning ::= delete tx_hash |>,
       [ExecuteCrossShardTransaction tx_hash tx provisions])
  end.

Definition owned_nodes (tx : RoutableTransaction) : list NodeId :=
  btree_set (filter (fun node_id => shard_for_node_id node_id = local_shard)
               (rt_declared_reads tx ++ rt_declared_writes tx)).

Definition remote_shards (tx : RoutableTransaction) : list ShardGroupId :=
  filter (fun s => s <> local_shard) (all_shards_for_tx tx).

Definition initiate_provision_broadcast (tx : RoutableTransaction) (block_height : BlockHeight)
    (block_timestamp : u64) : execution := fun s =>
  let nodes := owned_nodes tx in
  let target_shards := remote_shards tx in
  if Nat.eqb (length nodes) 0 then (s, [])
  else if Nat.eqb (length target_shards) 0 then (s, [])
  else
    (s <| ex_pending_provision_fetches ::= <[rt_hash tx :=
            mk_pending_provision_broadcast block_height block_timestamp target_shards]> |>,
     [FetchStateEntries (rt_hash tx) nodes]).

(** Phase 2: register with the coordinator, and use provisions that came early. *)
Definition start_provisioning (tx : RoutableTransaction) (height : u64) : execution := fun s =>
  let tx_hash := rt_hash tx in
  let shards := remote_shards tx in
  if Nat.eqb (length shards) 0 then (s, [])
  else
    let quorum_thresholds : gmap ShardGroupId usize :=
      list_to_map ((fun shard => (shard, provisioning_quorum_for_shard shard)) <$> shards) in
    let s := s <| ex_pending_provisioning ::= <[tx_hash := (tx, height)]> |> in
    (hemit [EnqueueInternal (CrossShardTxRegistered tx_hash shards quorum_thresholds height)] ;>
     match ex_early_provisioning_complete s !! tx_hash with
     | Some (provisions, _) =>
         hupd (fun s => s <| ex_early_provisioning_complete ::= delete tx_hash |>) ;>
         on_provisioning_complete tx_hash provisions
     | None => hskip
     end) s.

Definition start_cross_shard_execution (tx : RoutableTransaction) (height block_timestamp : u64)
    : execution :=
  initiate_provision_broadcast tx height block_timestamp ;>
  start_provisioning tx height ;>
  start_tracking tx (all_shards_for_tx tx).

(** One single-shard transaction of a committed block: its votes are out, or
    will be, when it was executed speculatively; the others are collected. *)
Definition use_speculation
    (acc : ExecutionState * list Action * list RoutableTransaction) (tx : RoutableTransaction)
    : ExecutionState * list Action * list RoutableTransaction :=
  let '(s, actions, txs_needing_execution) := acc in
  let tx_hash := rt_hash tx in
  match take_speculative_result tx_hash s with
  | (s, Some _) =>
      let s := s <| ex_speculative_in_flight_txs ::= fun X => X ∖ {[tx_hash]} |> in
      let '(s, acts) := start_single_shard_execution tx s in
      (s, actions ++ acts, txs_needing_execution)
  | (s, None) =>
      if bool_decide (tx_hash ∈ ex_speculative_in_flight_txs s) then
        let s := s <| ex_speculative_cache_hit_count ::= fun n => n +w 1 |> in
        let '(s, acts) := start_single_shard_execution tx s in
        (s, actions ++ acts, txs_needing_execution)
      else
        (record_speculative_cache_miss s, actions, txs_needing_execution ++ [tx])
  end.

Definition mark_executed (height : u64) (new_txs : list RoutableTransaction) (s : ExecutionState)
    : ExecutionState :=
  let s := s <| ex_committed_height ::= N.max height |> in
  let s := s <| ex_executed_txs ::= fun m =>
                  foldl (fun m tx => <[rt_hash tx := height]> m) m new_txs |> in
  prune_verified_votes (prune_early_arrivals (prune_executed_txs s)).

Definition execution_on_block_committed (block_hash : Hash) (height block_timestamp : u64)
    (transactions : list RoutableTransaction) : execution := fun s =>
  let new_txs := filter (fun tx => contains_key (ex_executed_txs s) (rt_hash tx) = false)
                   transactions in
  match new_txs with
  | [] => (s, [])
  | _ :: _ =>
      let s := mark_executed height new_txs s in
      let single_shard := filter (fun tx => is_single_shard_transaction tx = true) new_txs in
      let cross_shard := filter (fun tx => is_single_shard_transaction tx = false) new_txs in
      let '(s, actions, txs_needing_execution) := foldl use_speculation (s, [], []) single_shard in
      (hemit actions ;>
       for_each start_single_shard_execution txs_needing_execution ;>
       hemit match txs_needing_execution with
             | [] => []
             | _ :: _ => [ExecuteTransactions block_hash txs_needing_execution (blake3 (replicate 32 0))]
             end ;>
       for_each (fun tx => start_cross_shard_execution tx height block_timestamp) cross_shard) s
  end.

(** ** Provisions for the other shards *)

Definition sign_provision (s : ExecutionState) (tx_hash : Hash)
    (target_shard source_shard : ShardGroupId) (block_height : BlockHeight) (block_timestamp : u64)
    (entries : list StateEntry) : Bls12381G2Signature :=
  sign_v1 (ex_signing_key s)
    (state_provision_message tx_hash target_shard source_shard block_height block_timestamp
       (entry_hash <$> entries)).

Definition on_state_entries_fetched (tx_hash : Hash) (entries : list StateEntry) : execution :=
  fun s =>
  match ex_pending_provision_fetches s !! tx_hash with
  | None => (s, [])
  | Some pending =>
      (s <| ex_pending_provision_fetches ::= delete tx_hash |>,
       (fun target_shard =>
          BroadcastStateProvision target_shard
            (mk_state_provision tx_hash target_shard local_shard (ppb_block_height pending)
               (ppb_block_timestamp pending) entries local_validator_id
               (sign_provision s tx_hash target_shard local_shard (ppb_block_height pending)
                  (ppb_block_timestamp pending) entries))) <$> ppb_target_shards pending)
  end.
End execution.
