(* ===== verification/ExecutionRunner.v ===== *)
(** * The runner's part of execution (crates/production/src/runner.rs, types/src/crypto.rs)

    Executing and signing, verifying a batch of votes of several transactions,
    aggregating a state certificate and verifying batches of certificates.  The
    radix engine and blst's randomised batch check come from other crates: they
    are the operations of the class [Engine]. *)

From stdpp Require Import base gmap list numbers sorting.
From Stdlib Require Import NArith Lia.
From S2P Require Import Prelude Bitfield Types Encoding Topology Transactions VoteSet Core.
From S2P Require Import Runner Trackers Execution.

(** The result of one transaction (engine/src/result.rs). *)
Record SingleTxResult := mk_single_tx_result {
  str_tx_hash : Hash;
  str_success : bool;
  str_outputs_merkle_root : Hash;
  str_state_writes : list SubstateWrite;
  str_error : option bytes
}.

(** [execute_single_shard] and [execute_cross_shard] on the storage of this
    validator for one transaction ([None] is [Err]), and
    [Signature::verify_multiple_aggregate_signatures] with fresh scalars. *)
Class Engine := {
  execute_single_shard : RoutableTransaction -> option (list SingleTxResult);
  execute_cross_shard : RoutableTransaction -> list StateProvision -> option (list SingleTxResult);
  verify_multiple_aggregate_signatures :
    list bytes -> list Bls12381G1PublicKey -> list Bls12381G2Signature -> bool
}.

Section runner.
Context `{Crypto} `{T : Topology} `{Engine} `{HashIter}.

(** ** Batches over different messages (crypto.rs) *)

Definition batch_verify_bls_different_messages_all_or_nothing (messages : list bytes)
    (signatures : list Bls12381G2Signature) (pubkeys : list Bls12381G1PublicKey) : bool :=
  if negb (Nat.eqb (length messages) (length signatures))
     || negb (Nat.eqb (length signatures) (length pubkeys)) then false
  else if Nat.eqb (length messages) 0 then true
  else verify_multiple_aggregate_signatures messages pubkeys signatures.

Definition batch_verify_bls_different_messages (messages : list bytes)
    (signatures : list Bls12381G2Signature) (pubkeys : list Bls12381G1PublicKey) : list bool :=
  if negb (Nat.eqb (length messages) (length signatures))
     || negb (Nat.eqb (length signatures) (length pubkeys))
  then replicate (Nat.max (Nat.max (length signatures) (length messages)) (length pubkeys)) false
  else if Nat.eqb (length messages) 0 then []
  else if batch_verify_bls_different_messages_all_or_nothing messages signatures pubkeys
  then replicate (length signatures) true
  else (fun '(msg, sig, pk) => verify_bls12381_v1 msg pk sig)
         <$> zip (zip messages signatures) pubkeys.

(** ** Executing and signing *)

(** The vote for a result: the first of the engine's results, or a failure. *)
Definition sign_result (signing_key : Bls12381G1PrivateKey) (tx_hash : Hash)
    (output : option (list SingleTxResult)) : StateVoteBlock :=
  let '(tx_hash, success, state_root, state_writes) :=
    match output with
    | Some (r :: _) =>
        (str_tx_hash r, str_success r, str_outputs_merkle_root r, str_state_writes r)
    | Some [] | None => (tx_hash, false, ZERO, [])
    end in
  mk_state_vote tx_hash local_shard state_root success state_writes local_validator_id
    (sign_v1 signing_key (exec_vote_message tx_hash state_root local_shard success)).

(** [ExecuteTransactions] and [SpeculativeExecute]: the votes, each broadcast to
    the shard and handed to the state machine. *)
Definition execute_transactions (signing_key : Bls12381G1PrivateKey)
    (transactions : list RoutableTransaction) : list StateVoteBlock :=
  (fun tx => sign_result signing_key (rt_hash tx) (execute_single_shard tx)) <$> transactions.

Definition speculative_execute (signing_key : Bls12381G1PrivateKey)
    (transactions : list RoutableTransaction) : list StateVoteBlock * list Hash :=
  let votes := execute_transactions signing_key transactions in
  (votes, sv_transaction_hash <$> votes).

(** [dispatch_cross_shard_executions]. *)
Definition execute_cross_shard_requests (signing_key : Bls12381G1PrivateKey)
    (requests : list (Hash * RoutableTransaction * list StateProvision)) : list StateVoteBlock :=
  (fun '(tx_hash, tx, provisions) =>
     sign_result signing_key tx_hash (execute_cross_shard tx provisions)) <$> requests.

(** ** AggregateStateCertificate *)

(** [filter(|vote| seen_validators.insert(vote.validator))]. *)
Fixpoint unique_votes_from (seen : gset ValidatorId) (votes : list StateVoteBlock)
    : list StateVoteBlock :=
  match votes with
  | [] => []
  | vote :: votes =>
      if bool_decide (sv_validator vote ∈ seen) then unique_votes_from seen votes
      else vote :: unique_votes_from ({[sv_validator vote]} ∪ seen) votes
  end.

Definition unique_votes (votes : list StateVoteBlock) : list StateVoteBlock :=
  unique_votes_from ∅ votes.

(** [None] is the panic of [SignerBitfield::set]. *)
Definition aggregate_state_certificate (tx_hash : Hash) (shard : ShardGroupId)
    (merkle_root : Hash) (votes : list StateVoteBlock) (read_nodes : list NodeId)
    (voting_power : u64) (committee_size : usize) : option StateCertificate :=
  let uvs := unique_votes votes in
  let aggregated_signature :=
    default zero_bls_signature (aggregate_signatures (sv_signature <$> uvs)) in
  let aggregated_signature :=
    match uvs with [] => zero_bls_signature | _ :: _ => aggregated_signature end in
  signers ← SignerBitfieldOps.set_all (SignerBitfieldOps.new committee_size)
              (filter_map (fun v => committee_index_for_shard shard (sv_validator v)) uvs);
  Some {|
    sc_transaction_hash := tx_hash;
    sc_shard_group_id := shard;
    sc_read_nodes := read_nodes;
    sc_state_writes := match votes with v :: _ => sv_state_writes v | [] => [] end;
    sc_outputs_merkle_root := merkle_root;
    sc_success := match votes with v :: _ => sv_success v | [] => false end;
    sc_aggregated_signature := aggregated_signature;
    sc_signers := signers;
    sc_voting_power := voting_power
  |}.

(** ** dispatch_state_vote_verifications *)

(** The votes of a batch over several transactions that verify, in order. *)
Definition verified_state_votes
    (batched_votes : list (Hash * list (StateVoteBlock * Bls12381G1PublicKey * u64)))
    : list (Hash * (StateVoteBlock * u64)) :=
  let all_votes := flat_map (fun '(tx_hash, votes) =>
    (fun '(vote, pk, power) => (tx_hash, vote, pk, power)) <$> votes) batched_votes in
  let results := batch_verify_bls_different_messages
    ((fun '(_, vote, _, _) => state_vote_signing_message vote) <$> all_votes)
    ((fun '(_, vote, _, _) => sv_signature vote) <$> all_votes)
    ((fun '(_, _, pk, _) => pk) <$> all_votes) in
  (fun '((tx_hash, vote, _, power), _) => (tx_hash, (vote, power)))
    <$> filter (fun '(_, valid) => valid = true) (zip all_votes results).

(** [verified_by_tx]: one event per transaction with a verified vote. *)
Definition group_by_tx (l : list (Hash * (StateVoteBlock * u64)))
    : gmap Hash (list (StateVoteBlock * u64)) :=
  foldl (fun m '(tx_hash, vp) => <[tx_hash := default [] (m !! tx_hash) ++ [vp]]> m) ∅ l.

Definition dispatch_state_vote_verifications
    (batched_votes : list (Hash * list (StateVoteBlock * Bls12381G1PublicKey * u64)))
    : list Event :=
  (fun '(tx_hash, vs) => StateVotesVerifiedAndAggregated tx_hash vs)
    <$> hm_iter (group_by_tx (verified_state_votes batched_votes)).

(** ** dispatch_state_cert_verifications *)

Definition certificate_signer_keys (cert : StateCertificate)
    (public_keys : list Bls12381G1PublicKey) : list Bls12381G1PublicKey :=
  snd <$> filter (fun '(i, _) => SignerBitfieldOps.is_set (sc_signers cert) i = true)
            (zip (seq 0 (length public_keys)) public_keys).

Definition certificate_key (cert : StateCertificate) (public_keys : list Bls12381G1PublicKey)
    : option Bls12381G1PublicKey :=
  match certificate_signer_keys cert public_keys with
  | [] => None
  | signer_keys => aggregate_public_keys signer_keys
  end.

Definition dispatch_state_cert_verifications
    (certs : list (StateCertificate * list Bls12381G1PublicKey)) : list Event :=
  let prepared := (fun '(cert, keys) => (cert, certificate_key cert keys)) <$> certs in
  let verifiable := filter_map (fun '(cert, key) => pair cert <$> key) prepared in
  let no_key := fst <$> filter (fun '(_, key) => key = None) prepared in
  let zero_sig := filter (fun c => sc_aggregated_signature c = zero_bls_signature) no_key in
  let failed := filter (fun c => sc_aggregated_signature c <> zero_bls_signature) no_key in
  let results := batch_verify_bls_different_messages
    ((fun '(cert, _) => state_certificate_signing_message cert) <$> verifiable)
    ((fun '(cert, _) => sc_aggregated_signature cert) <$> verifiable) verifiable.*2 in
  ((fun '((cert, _), valid) => StateCertificateSignatureVerified cert valid)
     <$> zip verifiable results)
  ++ ((fun c => StateCertificateSignatureVerified c true) <$> zero_sig)
  ++ ((fun c => StateCertificateSignatureVerified c false) <$> failed).
End runner.
