(* ===== verification/ExecutionInv.v ===== *)
(** * What the execution state keeps

    The invariant of [ExecutionState] under every handler: the two caches agree
    with their reverse indexes, the read index covers the speculative results,
    and trackers and finalized certificates are well formed. *)

From stdpp Require Import base gmap list numbers sorting.
From Stdlib Require Import NArith Lia.
From S2P Require Import Prelude Bitfield Types Encoding Topology Transactions VoteSet Core.
From S2P Require Import Runner Trackers Execution.

(** ** The indexes *)

Definition votes_indexed (s : ExecutionState) : Prop := forall tx v,
  is_Some (ex_verified_state_votes s !! (tx, v)) <-> v ∈ mm_get (ex_verified_votes_by_tx s) tx.

Definition certs_indexed (s : ExecutionState) : Prop := forall tx sh,
  is_Some (ex_pending_cert_verifications s !! (tx, sh))
  <-> CertificateKey sh ∈ mm_get (ex_pending_verifications_by_tx s) tx.

Definition reads_indexed (s : ExecutionState) : Prop := forall tx spec n,
  ex_speculative_results s !! tx = Some spec -> n ∈ spr_read_set spec ->
  tx ∈ mm_get (ex_speculative_reads_index s) n.

Section lookups.
Context `{Countable K} `{Countable V}.

Lemma mm_get_delete (m : gmap K (gset V)) k k' :
  mm_get (delete k m) k' = if decide (k' = k) then ∅ else mm_get m k'.
Proof.
  unfold mm_get. case_decide as Hd; [subst; by rewrite lookup_delete_eq|].
  by rewrite lookup_delete_ne.
Qed.

Lemma mm_get_retain (m : gmap K (gset V)) k :
  mm_get (hm_retain (fun _ X => negb (bool_decide (X = ∅))) m) k = mm_get m k.
Proof.
  unfold mm_get. destruct (hm_retain _ m !! k) as [X|] eqn:E.
  - by apply hm_retain_Some in E as [-> _].
  - destruct (m !! k) as [X|] eqn:E2; [|done]. simpl.
    destruct (decide (X = ∅)) as [->|Hne]; [done|].
    assert (hm_retain (fun _ X => negb (bool_decide (X = ∅))) m !! k = Some X) as Hx.
    { apply hm_retain_Some. by rewrite bool_decide_false. }
    congruence.
Qed.

(** Deleting the keys [(k, f v)] for the values [v] of a list. *)
Lemma lookup_delete_pairs {A U} (f : U -> V) (m : gmap (K * V) A) k l k' v' :
  foldl (fun m u => delete (k, f u) m) m l !! (k', v')
  = if decide (k' = k /\ v' ∈ f <$> l) then None else m !! (k', v').
Proof.
  revert m. induction l as [|u l IH]; intros m; cbn [foldl].
  - rewrite decide_False; [done|]. set_solver.
  - rewrite IH. rewrite fmap_cons. destruct (decide (k' = k /\ v' ∈ f <$> l)) as [Hd|Hd].
    + rewrite decide_True; [done|]. set_solver.
    + destruct (decide (k' = k /\ v' = f u)) as [[-> ->]|Hne].
      * rewrite lookup_delete_eq, decide_True; [done|]. set_solver.
      * rewrite lookup_delete_ne by naive_solver. rewrite decide_False; [done|]. set_solver.
Qed.

(** Old entries leave the index with the cache. *)
Lemma elem_of_discard_pairs {A} (l : list (K * V * A)) (m : gmap K (gset V)) k v :
  v ∈ mm_get (foldl (fun m kv => mm_discard kv.1.1 kv.1.2 m) m l) k
  <-> v ∈ mm_get m k /\ (k, v) ∉ l.*1.
Proof.
  revert m. induction l as [|[[k0 v0] a] l IH]; intros m; cbn [foldl].
  - set_solver.
  - rewrite IH, elem_of_mm_discard, fmap_cons. simpl. set_solver.
Qed.
End lookups.

(** ** The caches *)

Section caches.
Implicit Types (s : ExecutionState) (tx : Hash).

Lemma forget_verified_votes_spec tx s tx' v :
  votes_indexed s ->
  ex_verified_state_votes (forget_verified_votes tx s) !! (tx', v)
  = if decide (tx' = tx) then None else ex_verified_state_votes s !! (tx', v).
Proof.
  intros Hv. cbn. rewrite (lookup_delete_pairs id). rewrite list_fmap_id.
  destruct (decide (tx' = tx)) as [->|Hne].
  - case_decide as Hd; [done|]. apply eq_None_not_Some. rewrite (Hv tx v). set_solver.
  - by rewrite decide_False by naive_solver.
Qed.

Lemma forget_verifications_spec tx s tx' sh :
  certs_indexed s ->
  ex_pending_cert_verifications (forget_verifications tx s) !! (tx', sh)
  = if decide (tx' = tx) then None else ex_pending_cert_verifications s !! (tx', sh).
Proof.
  intros Hc. cbn.
  transitivity (foldl (fun m k => delete (tx, (let '(CertificateKey sh) := k in sh)) m)
    (ex_pending_cert_verifications s)
    (elements (mm_get (ex_pending_verifications_by_tx s) tx)) !! (tx', sh)).
  { f_equal. generalize (elements (mm_get (ex_pending_verifications_by_tx s) tx)) as l.
    generalize (ex_pending_cert_verifications s) as m. intros m l. revert m.
    induction l as [|[x] l IH]; intros m; [done|]. apply IH. }
  rewrite (lookup_delete_pairs (fun k => let '(CertificateKey sh) := k in sh)).
  destruct (decide (tx' = tx)) as [->|Hne].
  - case_decide as Hd; [done|]. apply eq_None_not_Some. rewrite (Hc tx sh). intros Hin.
    apply Hd. split; [done|]. apply list_elem_of_fmap. exists (CertificateKey sh). set_solver.
  - by rewrite decide_False by naive_solver.
Qed.

Lemma forget_verified_votes_indexed tx s :
  votes_indexed s -> votes_indexed (forget_verified_votes tx s).
Proof.
  intros Hv tx' v. rewrite (forget_verified_votes_spec _ _ _ _ Hv). cbn. rewrite mm_get_delete.
  case_decide; [|apply Hv]. split; [by intros []|set_solver].
Qed.

Lemma forget_verifications_indexed tx s :
  certs_indexed s -> certs_indexed (forget_verifications tx s).
Proof.
  intros Hc tx' sh. rewrite (forget_verifications_spec _ _ _ _ Hc). cbn. rewrite mm_get_delete.
  case_decide; [|apply Hc]. split; [by intros []|set_solver].
Qed.

Lemma cache_verified_vote_indexed tx v s :
  votes_indexed s -> votes_indexed (cache_verified_vote tx v s).
Proof.
  intros Hv tx' v'. cbn. rewrite elem_of_mm_insert, <- (Hv tx' v'), lookup_insert.
  case_decide as Hd; [simplify_eq; naive_solver|]. split; [by right|].
  intros [[-> ->]|Hs]; [done|exact Hs].
Qed.

Lemma prune_verified_votes_indexed s : votes_indexed s -> votes_indexed (prune_verified_votes s).
Proof.
  intros Hv tx v. unfold prune_verified_votes.
  set (cutoff := ex_committed_height s - VERIFIED_VOTE_RETENTION_BLOCKS). cbn.
  rewrite mm_get_retain, elem_of_discard_pairs, <- (Hv tx v). split.
  - intros [x [Hx Hc]%hm_retain_Some]. split; [by exists x|].
    intros ([k y] & Hk & Hin%elem_of_map_to_list)%list_elem_of_fmap. cbn in Hk. subst k.
    apply hm_retain_Some in Hin as [Hy Hold]. replace y with x in * by congruence.
    by rewrite Hold in Hc.
  - intros [[x Hx] Hni]. exists x. apply hm_retain_Some. split; [done|].
    apply negb_true_iff. destruct (x <=? cutoff) eqn:E; [|done]. destruct Hni.
    apply list_elem_of_fmap. exists ((tx, v), x). split; [done|].
    apply elem_of_map_to_list, hm_retain_Some. done.
Qed.
End caches.

(** ** Speculative results *)

Section speculation.
Implicit Types (s : ExecutionState) (tx : Hash).

Lemma remove_speculative_result_lookup tx s tx' :
  ex_speculative_results (remove_speculative_result tx s) !! tx'
  = if decide (tx' = tx) then None else ex_speculative_results s !! tx'.
Proof.
  unfold remove_speculative_result. destruct (ex_speculative_results s !! tx) eqn:E; cbn;
    case_decide; subst; by rewrite ?lookup_delete_eq, ?lookup_delete_ne.
Qed.

Lemma unindex_reads_indexed tx spec s :
  ex_speculative_results s !! tx = Some spec -> reads_indexed s ->
  reads_indexed (s <| ex_speculative_results ::= delete tx |>
                   <| ex_speculative_reads_index ::= unindex_reads tx (spr_read_set spec) |>).
Proof.
  intros Htx Hr tx' spec' n Hs' Hn. cbn in *. apply lookup_delete_Some in Hs' as [Hne Hs'].
  unfold unindex_reads. apply elem_of_mm_remove_all. split; [by eapply Hr|]. by intros [_ ->].
Qed.

Lemma remove_speculative_result_indexed tx s :
  reads_indexed s -> reads_indexed (remove_speculative_result tx s).
Proof.
  unfold remove_speculative_result. destruct (ex_speculative_results s !! tx) eqn:E; [|done].
  by apply unindex_reads_indexed.
Qed.

Lemma cache_speculation_indexed txs tx s :
  reads_indexed s -> reads_indexed (cache_speculation txs s tx).
Proof.
  unfold cache_speculation. intros Hr. case_match; [done|].
  set (R := match _ with Some _ => _ | None => _ end). intros tx' spec n Hs' Hn. cbn in *.
  apply elem_of_mm_insert_all. apply lookup_insert_Some in Hs' as [[<- <-]|[Hne Hs']].
  - left. split; [by apply elem_of_elements|done].
  - right. by eapply Hr.
Qed.

Lemma invalidate_one_indexed s tx : reads_indexed s -> reads_indexed (invalidate_one s tx).
Proof.
  unfold invalidate_one. case_match; [|done]. apply remove_speculative_result_indexed.
Qed.

Lemma invalidate_lookup l s tx :
  ex_speculative_results (foldl invalidate_one s l) !! tx
  = if decide (tx ∈ l) then None else ex_speculative_results s !! tx.
Proof.
  revert s. induction l as [|t l IH]; intros s; cbn [foldl]; [by rewrite decide_False by set_solver|].
  rewrite IH. assert (ex_speculative_results (invalidate_one s t) !! tx
    = if decide (tx = t) then None else ex_speculative_results s !! tx) as ->.
  { unfold invalidate_one. destruct (contains_key (ex_speculative_results s) t) eqn:E.
    - exact (remove_speculative_result_lookup t s tx).
    - bool_to_prop. destruct (decide (tx = t)) as [->|]; [exact E|done]. }
  destruct (decide (tx ∈ l)), (decide (tx = t)); subst;
    by rewrite ?decide_True, ?decide_False by set_solver.
Qed.

Lemma elem_of_to_invalidate `{HashIter} s c tx :
  tx ∈ flat_map (fun n => hs_iter (mm_get (ex_speculative_reads_index s) n)) (hs_iter (written_nodes c))
  <-> exists n, n ∈ written_nodes c /\ tx ∈ mm_get (ex_speculative_reads_index s) n.
Proof.
  rewrite list_elem_of_In, in_flat_map. setoid_rewrite <- list_elem_of_In.
  split; intros (n & Hn & Htx); exists n; by rewrite !elem_of_hs_iter in *.
Qed.
End speculation.

(** ** Trackers and finalized certificates *)

Section trackers.
Context `{T : Topology}.
Implicit Types (s : ExecutionState) (tx : RoutableTransaction) (h : Hash).

(** The shards whose certificates a transaction needs. *)
Definition tx_shards tx : list ShardGroupId :=
  if is_single_shard_transaction tx then [local_shard] else all_shards_for_tx tx.

(** [Vouched] holds of the state certificates that were aggregated here or
    verified, and [External] of the transaction certificates that came verified
    from another validator. *)
Context (Vouched : StateCertificate -> Prop) (External : TransactionCertificate -> Prop).

Definition proof_ok h (sh : ShardGroupId) (c : StateCertificate) : Prop :=
  sc_shard_group_id c = sh /\ sc_transaction_hash c = h /\ Vouched c.

Definition tracker_ok h (t : CertificateTracker) : Prop :=
  ct_tx_hash t = h /\
  (exists tx, rt_hash tx = h /\ ct_expected_shards t = tx_shards tx) /\
  (forall sh c, ct_certificates t !! sh = Some c ->
    sh ∈ ct_expected_shards t /\ proof_ok h sh c) /\
  tracker_is_complete t = false.

(** A transaction certificate with one vouched proof per shard, all for the
    same outputs, that accepts exactly when every shard succeeded. *)
Definition built (c : TransactionCertificate) : Prop := exists tx root,
  rt_hash tx = tc_transaction_hash c /\
  (forall sh, is_Some (tc_shard_proofs c !! sh) <-> sh ∈ tx_shards tx) /\
  (forall sh p, tc_shard_proofs c !! sh = Some p ->
    proof_ok (tc_transaction_hash c) sh p /\ sc_outputs_merkle_root p = root) /\
  (tc_decision c = Accept <->
   forall sh p, tc_shard_proofs c !! sh = Some p -> sc_success p = true).

Definition trackers_ok s : Prop :=
  forall h t, ex_certificate_trackers s !! h = Some t -> tracker_ok h t.

Definition finalized_ok s : Prop :=
  forall h c, ex_finalized_certificates s !! h = Some c ->
    tc_transaction_hash c = h /\ (External c \/ built c).

Lemma NoDup_btree_set l : NoDup (btree_set l).
Proof. unfold btree_set. rewrite merge_sort_Permutation. apply NoDup_elements. Qed.

Lemma NoDup_tx_shards tx : NoDup (tx_shards tx).
Proof.
  unfold tx_shards. case_match; [apply NoDup_singleton|]. apply NoDup_btree_set.
Qed.

Lemma tx_shards_nonempty tx : tx_shards tx <> [].
Proof.
  unfold tx_shards. case_match eqn:E; [done|]. unfold is_single_shard_transaction in E.
  apply Nat.leb_gt in E. destruct (consensus_shards tx) as [|sh l] eqn:Ec; [cbn in E; lia|].
  intros Hnil. assert (sh ∈ all_shards_for_tx tx) as Hin.
  { unfold all_shards_for_tx, all_shards_for_transaction. rewrite !elem_of_btree_set, Ec. by left. }
  rewrite Hnil in Hin. by apply not_elem_of_nil in Hin.
Qed.

Lemma tracker_new_ok tx :
  tracker_ok (rt_hash tx) (certificate_tracker_new (rt_hash tx) (tx_shards tx)).
Proof.
  split_and!; [done|by exists tx|done|]. unfold tracker_is_complete, certificate_count. cbn.
  rewrite map_size_empty. unfold expected_count. cbn. pose proof (tx_shards_nonempty tx).
  by destruct (tx_shards tx).
Qed.

(** A tracker is complete when it holds a certificate of every expected shard. *)
Lemma complete_covers t :
  NoDup (ct_expected_shards t) ->
  (forall sh c, ct_certificates t !! sh = Some c -> sh ∈ ct_expected_shards t) ->
  tracker_is_complete t = true ->
  forall sh, is_Some (ct_certificates t !! sh) <-> sh ∈ ct_expected_shards t.
Proof.
  intros Hnd Hsub Hc. unfold tracker_is_complete, certificate_count, expected_count in Hc.
  apply Nat.eqb_eq in Hc. set (D := dom (ct_certificates t) : gset N).
  set (E := list_to_set (ct_expected_shards t) : gset N).
  assert (D ⊆ E) as HDE.
  { intros sh [c Hsh]%elem_of_dom. apply elem_of_list_to_set. by eapply Hsub. }
  assert (D = E) as HD.
  { apply set_subseteq_size_eq; [done|]. unfold D, E.
    rewrite size_dom, Hc, size_list_to_set by done. done. }
  intros sh. rewrite <- elem_of_dom. fold D. rewrite HD. unfold E. by rewrite elem_of_list_to_set.
Qed.

Lemma forallb_values {A} (f : A -> bool) (m : gmap N A) :
  forallb f (btree_values m) = true <-> forall k x, m !! k = Some x -> f x = true.
Proof.
  rewrite forallb_forall. setoid_rewrite <- list_elem_of_In. setoid_rewrite elem_of_btree_values.
  naive_solver.
Qed.

Lemma create_tx_certificate_built h t t' c :
  ct_tx_hash t = h ->
  (exists tx, rt_hash tx = h /\ ct_expected_shards t = tx_shards tx) ->
  (forall sh p, ct_certificates t !! sh = Some p ->
    sh ∈ ct_expected_shards t /\ proof_ok h sh p) ->
  create_tx_certificate t = (t', Some c) ->
  tc_transaction_hash c = h /\ built c.
Proof.
  intros Hh (tx & Htx & Hex) Hcs. unfold create_tx_certificate.
  destruct (tracker_is_complete t) eqn:Hcomp; [|done]. cbn [negb].
  destruct (sc_outputs_merkle_root <$> _) as [|root roots] eqn:Er; [done|].
  destruct (forallb (N.eqb root) roots) eqn:Hall; [|done]. cbn [negb]. intros [= <- <-].
  split; [done|]. exists tx, root. cbn. split_and!; [congruence| | |].
  - rewrite <- Hex. apply complete_covers; [rewrite Hex; apply NoDup_tx_shards| |done].
    intros sh p Hp. by apply (Hcs sh p).
  - intros sh p Hp. rewrite Hh. split; [by apply (Hcs sh p)|].
    assert (sc_outputs_merkle_root p ∈ root :: roots) as Hin.
    { rewrite <- Er. apply list_elem_of_fmap. exists p. split; [done|].
      apply elem_of_btree_values. by exists sh. }
    apply elem_of_cons in Hin as [->|Hin]; [done|]. rewrite forallb_forall in Hall.
    symmetry. apply N.eqb_eq, Hall. by apply list_elem_of_In.
  - rewrite <- (forallb_values sc_success). by case_match.
Qed.

Lemma add_certificate_ok h t c :
  tracker_ok h t -> sc_transaction_hash c = h -> Vouched c ->
  let '(t', complete) := add_certificate c t in
  complete = tracker_is_complete t' /\ ct_tx_hash t' = h /\
  (exists tx, rt_hash tx = h /\ ct_expected_shards t' = tx_shards tx) /\
  (forall sh p, ct_certificates t' !! sh = Some p ->
    sh ∈ ct_expected_shards t' /\ proof_ok h sh p).
Proof.
  intros (Hh & Hex & Hcs & Hinc) Hc Hv. unfold add_certificate.
  destruct (negb _) eqn:E1; [by split_and!|].
  destruct (contains_key _ _) eqn:E2; [by split_and!|].
  bool_to_prop. split_and!; [done|done|done|]. intros sh p. cbn. rewrite lookup_insert_Some.
  intros [[<- <-]|[_ Hp]]; [|by apply Hcs]. by split.
Qed.
End trackers.
