(* ===== verification/ExecutionRuns.v ===== *)
(** * Runs of the execution state machine

    Every handler keeps the invariant of [ExecutionInv], so it holds in every
    run.  From it: what a finalized certificate stands for, that a removed
    transaction leaves nothing behind, and that no speculative result survives
    the commit of a write it depends on. *)

From stdpp Require Import base gmap list numbers sorting.
From Stdlib Require Import NArith Lia.
From S2P Require Import Prelude Bitfield Types Encoding Topology Transactions VoteSet Core.
From S2P Require Import Runner Trackers Execution ExecutionInv.

Section runs.
Context `{Crypto} `{T : Topology} `{HashIter}.
Context (Vouched : StateCertificate -> Prop) (External : TransactionCertificate -> Prop).
Implicit Types (s : ExecutionState) (tx : RoutableTransaction) (h : Hash).

Record exec_inv s : Prop := {
  ei_votes : votes_indexed s;
  ei_certs : certs_indexed s;
  ei_reads : reads_indexed s;
  ei_trackers : trackers_ok Vouched s;
  ei_finalized : finalized_ok Vouched External s
}.

(** The invariant reads these fields only. *)
Lemma exec_inv_ext s s' :
  ex_verified_state_votes s' = ex_verified_state_votes s ->
  ex_verified_votes_by_tx s' = ex_verified_votes_by_tx s ->
  ex_pending_cert_verifications s' = ex_pending_cert_verifications s ->
  ex_pending_verifications_by_tx s' = ex_pending_verifications_by_tx s ->
  ex_speculative_results s' = ex_speculative_results s ->
  ex_speculative_reads_index s' = ex_speculative_reads_index s ->
  ex_certificate_trackers s' = ex_certificate_trackers s ->
  ex_finalized_certificates s' = ex_finalized_certificates s ->
  exec_inv s -> exec_inv s'.
Proof.
  intros E1 E2 E3 E4 E5 E6 E7 E8 []. split;
    unfold votes_indexed, certs_indexed, reads_indexed, trackers_ok, finalized_ok in *;
    by rewrite ?E1, ?E2, ?E3, ?E4, ?E5, ?E6, ?E7, ?E8.
Qed.

Ltac frame :=
  match goal with
  | Hs : exec_inv ?s |- exec_inv ?s' => apply (exec_inv_ext s s'); [cbn; reflexivity..|exact Hs]
  end.

(** ** Certificates *)

Lemma delete_trackers_ok s h :
  trackers_ok Vouched s ->
  trackers_ok Vouched (s <| ex_certificate_trackers ::= delete h |>).
Proof. intros Ht h' t Hl. cbn in Hl. apply lookup_delete_Some in Hl as [_ Hl]. by apply Ht. Qed.

Lemma hci_keeps c : Vouched c -> keeps exec_inv (handle_certificate_internal c).
Proof.
  intros Hv s Hs. unfold handle_certificate_internal.
  destruct (ex_certificate_trackers s !! _) as [t|] eqn:Et; [|done].
  pose proof (add_certificate_ok _ _ t c (ei_trackers _ Hs _ _ Et) eq_refl Hv) as Ha.
  destruct (add_certificate c t) as [t' complete].
  destruct Ha as (-> & Hh & Hex & Hcs). destruct (tracker_is_complete t') eqn:Ec.
  - destruct (create_tx_certificate t') as [t2 [txc|]] eqn:Ecr; cbn [fst].
    + destruct (create_tx_certificate_built _ _ _ _ _ Hh Hex Hcs Ecr) as [Hth Hb].
      destruct Hs. split; [done|done|done|by apply delete_trackers_ok|].
      intros h' c'. cbn. rewrite lookup_insert_Some. intros [[<- <-]|[_ Hl]]; [|by apply ei_finalized0].
      split; [done|by right].
    + destruct Hs. split; [done|done|done|by apply delete_trackers_ok|done].
  - destruct Hs. split; [done|done|done| |done].
    intros h' t0. cbn. rewrite lookup_insert_Some. intros [[<- <-]|[_ Hl]]; [|by apply ei_trackers0].
    by split_and!.
Qed.

Lemma on_certificate_keeps c : keeps exec_inv (on_certificate c).
Proof.
  intros s Hs. unfold on_certificate. case_match eqn:E1.
  { case_match; [done|]. cbn [fst]. frame. }
  destruct (committee_public_keys _) as [pks|]; [|done]. cbn [fst].
  destruct Hs. split; [done| |done..]. intros tx sh. cbn.
  rewrite lookup_insert, elem_of_mm_insert, <- (ei_certs0 tx sh).
  case_decide as Hd; [simplify_eq; naive_solver|]. split; [by right|].
  intros [[-> [= ->]]|Hx]; [done|exact Hx].
Qed.

Lemma on_certificate_verified_keeps c valid :
  (valid = true -> Vouched c) -> keeps exec_inv (on_certificate_verified c valid).
Proof.
  intros Hv s Hs. unfold on_certificate_verified, handle_fetched_cert_verified. case_match eqn:E1.
  { destruct (ex_pending_fetched_cert_verifications s !! _); [|done]. case_match; cbn [fst]; frame. }
  set (s1 := s <| ex_pending_cert_verifications ::= _ |> <| ex_pending_verifications_by_tx ::= _ |>).
  assert (exec_inv s1) as Hs1.
  { destruct Hs. split; [done| |done..]. intros tx sh. unfold s1. cbn.
    rewrite elem_of_mm_discard, <- (ei_certs0 tx sh), lookup_delete.
    case_decide as Hd; [simplify_eq; naive_solver|]. split; [|by intros []].
    intros Hx. split; [done|]. intros [-> [= ->]]. done. }
  destruct valid; [|done]. by apply hci_keeps; [apply Hv|].
Qed.

Lemma verify_fetched_keeps bh c : keeps exec_inv (verify_fetched_certificate bh c).
Proof.
  intros s Hs. unfold verify_fetched_certificate. case_match; [done|].
  apply keeps_for_each; [|frame]. intros p s' Hs'. unfold verify_fetched_proof.
  destruct (committee_public_keys _); [done|]. cbn [fst]. frame.
Qed.

Lemma aggregated_keeps h c : Vouched c -> keeps exec_inv (on_state_certificate_aggregated h c).
Proof.
  intros Hv s Hs. unfold on_state_certificate_aggregated.
  destruct (ex_pending_cert_aggregations s !! h); [|done].
  apply keeps_seq; [apply keeps_emit|by apply hci_keeps|frame].
Qed.

(** ** Votes *)

Lemma check_vote_quorum_keeps h : keeps exec_inv (check_vote_quorum h).
Proof.
  intros s Hs. unfold check_vote_quorum. destruct (ex_vote_trackers s !! h); [|done].
  destruct (check_quorum _) as [[root power]|]; [|done]. cbn. frame.
Qed.

Lemma maybe_trigger_keeps h : keeps exec_inv (maybe_trigger_state_vote_verification h).
Proof.
  intros s Hs. unfold maybe_trigger_state_vote_verification.
  destruct (ex_vote_trackers s !! h); [|done]. case_match; [done|]. cbn. frame.
Qed.

Lemma cache_verified_vote_keeps h v s : exec_inv s -> exec_inv (cache_verified_vote h v s).
Proof. intros []. split; [by apply cache_verified_vote_indexed|done..]. Qed.

Lemma handle_verified_vote_keeps v : keeps exec_inv (handle_verified_vote v).
Proof.
  intros s Hs. unfold handle_verified_vote. destruct (ex_vote_trackers s !! _) as [t|]; [|done].
  apply check_vote_quorum_keeps.
  assert (exec_inv (if has_seen_validator t (sv_validator v) then s
                    else cache_verified_vote (sv_transaction_hash v) (sv_validator v) s)) as Hs'.
  { case_match; [done|by apply cache_verified_vote_keeps]. }
  frame.
Qed.

Lemma on_vote_keeps v : keeps exec_inv (on_vote v).
Proof.
  intros s Hs. unfold on_vote. destruct (ex_vote_trackers s !! _) as [t|].
  - case_match; [by apply handle_verified_vote_keeps|].
    case_match; [by apply handle_verified_vote_keeps|].
    destruct (public_key _); [|done]. case_match; [done|].
    destruct (buffer_unverified_state_vote _ _ _ _). apply maybe_trigger_keeps. frame.
  - case_match; [done|]. cbn [fst]. frame.
Qed.

Lemma add_batch_vote_keeps h s vp : exec_inv s -> exec_inv (add_batch_vote h s vp).
Proof.
  intros Hs. unfold add_batch_vote.
  apply (cache_verified_vote_keeps h (sv_validator vp.1)) in Hs. frame.
Qed.

Lemma votes_verified_keeps h vs : keeps exec_inv (on_state_votes_verified h vs).
Proof.
  intros s Hs. unfold on_state_votes_verified. destruct (ex_vote_trackers s !! h) as [t|]; [|done].
  set (s1 := s <| ex_vote_trackers ::= _ |>). assert (exec_inv s1) as Hs1 by frame.
  destruct vs as [|vp vs]; [by apply maybe_trigger_keeps|].
  apply keeps_seq; [apply check_vote_quorum_keeps|apply maybe_trigger_keeps|].
  apply (foldl_keeps exec_inv); [done|]. intros s' x _. apply add_batch_vote_keeps.
Qed.

(** ** Starting execution *)

Lemma start_tracking_keeps tx : keeps exec_inv (start_tracking tx (tx_shards tx)).
Proof.
  apply keeps_seq; [|apply keeps_seq].
  - apply keeps_upd. intros s []. split; [done..| |done].
    intros h t. cbn. rewrite lookup_insert_Some. intros [[<- <-]|[_ Hl]]; [|by apply ei_trackers0].
    apply tracker_new_ok.
  - intros s Hs. unfold replay_early_votes. destruct (ex_early_votes s !! _) as [[vs ?]|]; [|done].
    apply keeps_for_each; [apply on_vote_keeps|frame].
  - intros s Hs. unfold replay_early_certificates.
    destruct (ex_early_certificates s !! _) as [[cs ?]|]; [|done].
    apply keeps_for_each; [apply on_certificate_keeps|frame].
Qed.

Lemma start_single_keeps tx :
  is_single_shard_transaction tx = true -> keeps exec_inv (start_single_shard_execution tx).
Proof.
  intros Ht. unfold start_single_shard_execution.
  replace [local_shard] with (tx_shards tx) by (unfold tx_shards; by rewrite Ht).
  apply start_tracking_keeps.
Qed.

Lemma provisioning_complete_keeps h ps : keeps exec_inv (on_provisioning_complete h ps).
Proof.
  intros s Hs. unfold on_provisioning_complete.
  destruct (ex_pending_provisioning s !! h) as [[tx ?]|]; cbn [fst]; frame.
Qed.

Lemma start_cross_keeps tx height ts :
  is_single_shard_transaction tx = false -> keeps exec_inv (start_cross_shard_execution tx height ts).
Proof.
  intros Ht. unfold start_cross_shard_execution.
  replace (all_shards_for_tx tx) with (tx_shards tx) by (unfold tx_shards; by rewrite Ht).
  apply keeps_seq; [|apply keeps_seq; [|apply start_tracking_keeps]]; intros s Hs.
  - unfold initiate_provision_broadcast. do 2 (case_match; [done|]). cbn [fst]. frame.
  - unfold start_provisioning. case_match; [done|].
    apply keeps_seq; [apply keeps_emit| |frame].
    destruct (ex_early_provisioning_complete _ !! _) as [[ps ?]|]; [|apply keeps_skip].
    apply keeps_seq; [|apply provisioning_complete_keeps]. apply keeps_upd. intros s' Hs'. frame.
Qed.

Lemma take_speculative_result_keeps h s :
  exec_inv s -> exec_inv (take_speculative_result h s).1.
Proof.
  intros []. unfold take_speculative_result.
  destruct (ex_speculative_results s !! h) as [spec|] eqn:E; [|done]. cbn [fst].
  split; [done|done| |done..]. exact (unindex_reads_indexed h spec s E ei_reads0).
Qed.

Lemma use_speculation_keeps s acts txs tx :
  exec_inv s -> is_single_shard_transaction tx = true ->
  Forall (fun t => is_single_shard_transaction t = true) txs ->
  let acc := use_speculation (s, acts, txs) tx in
  exec_inv acc.1.1 /\ Forall (fun t => is_single_shard_transaction t = true) acc.2.
Proof.
  intros Hs Ht Htxs. unfold use_speculation.
  pose proof (take_speculative_result_keeps (rt_hash tx) s Hs) as Hs1.
  destruct (take_speculative_result (rt_hash tx) s) as [s1 [[]|]]; cbn [fst] in Hs1.
  - set (s2 := s1 <| ex_speculative_in_flight_txs ::= _ |>).
    assert (exec_inv s2) as Hs2 by frame. pose proof (start_single_keeps tx Ht s2 Hs2) as Hs3.
    by destruct (start_single_shard_execution tx s2) as [s3 a].
  - case_match.
    + set (s2 := s1 <| ex_speculative_cache_hit_count ::= _ |>).
      assert (exec_inv s2) as Hs2 by frame. pose proof (start_single_keeps tx Ht s2 Hs2) as Hs3.
      by destruct (start_single_shard_execution tx s2) as [s3 a].
    + cbn. split; [frame|]. apply Forall_app. by split; [|apply Forall_singleton].
Qed.

Lemma mark_executed_keeps height txs s : exec_inv s -> exec_inv (mark_executed height txs s).
Proof.
  intros Hs. unfold mark_executed, prune_early_arrivals, prune_executed_txs. destruct Hs.
  split; [|done..]. by apply prune_verified_votes_indexed.
Qed.

Lemma block_committed_keeps bh height ts txs :
  keeps exec_inv (execution_on_block_committed bh height ts txs).
Proof.
  intros s Hs. unfold execution_on_block_committed.
  destruct (filter _ txs) as [|tx0 txs'] eqn:Enew; [done|].
  set (new_txs := tx0 :: txs') in *.
  pose proof (mark_executed_keeps height new_txs s Hs) as Hs1.
  set (singles := filter (fun tx => is_single_shard_transaction tx = true) new_txs).
  assert (let acc := foldl use_speculation (mark_executed height new_txs s, [], []) singles in
    exec_inv acc.1.1 /\ Forall (fun t => is_single_shard_transaction t = true) acc.2) as Hacc.
  { apply (foldl_keeps (fun acc => exec_inv acc.1.1 /\
      Forall (fun t => is_single_shard_transaction t = true) acc.2)); [by split|].
    intros [[s' acts] need] tx [Htx _]%list_elem_of_filter [Hi Hn].
    by apply use_speculation_keeps. }
  destruct (foldl use_speculation _ singles) as [[s2 acts] need]. destruct Hacc as [Hs2 Hneed].
  apply keeps_seq; [apply keeps_emit| |done]. apply keeps_seq; [|apply keeps_seq; [apply keeps_emit|]];
    apply keeps_for_each_in; intros tx Htx.
  - apply start_single_keeps. exact (Forall_elem _ _ _ Hneed Htx).
  - apply start_cross_keeps. by apply list_elem_of_filter in Htx as [? _].
Qed.

(** ** Removing transactions *)

Lemma forget_verified_votes_keeps h s : exec_inv s -> exec_inv (forget_verified_votes h s).
Proof. intros []. split; [by apply forget_verified_votes_indexed|done..]. Qed.

Lemma forget_verifications_keeps h s : exec_inv s -> exec_inv (forget_verifications h s).
Proof. intros []. split; [done|by apply forget_verifications_indexed|done..]. Qed.

Lemma remove_finalized_keeps h s : exec_inv s -> exec_inv (remove_finalized_certificate h s).
Proof.
  intros Hs%(forget_verified_votes_keeps h). unfold remove_finalized_certificate.
  set (s1 := forget_verified_votes h s) in *.
  match goal with |- exec_inv (forget_verifications h ?x <| _ ::= _ |> <| _ ::= _ |>) =>
    assert (exec_inv x) as Hx end.
  { destruct Hs. split; [done..|by apply delete_trackers_ok|]. intros h' c Hl. cbn in Hl.
    apply lookup_delete_Some in Hl as [_ Hl]. by apply ei_finalized0. }
  apply (forget_verifications_keeps h) in Hx. frame.
Qed.

Lemma cleanup_transaction_keeps h s : exec_inv s -> exec_inv (cleanup_transaction h s).
Proof.
  intros Hs. unfold cleanup_transaction. case_match; [done|].
  apply forget_verified_votes_keeps, forget_verifications_keeps. destruct Hs.
  split; [done..|by apply delete_trackers_ok|done].
Qed.

Lemma cancel_building_keeps h s : exec_inv s -> exec_inv (cancel_certificate_building h s).
Proof.
  intros []. apply forget_verified_votes_keeps, forget_verifications_keeps.
  split; [done..|by apply delete_trackers_ok|done].
Qed.

Lemma add_verified_keeps c s : External c -> exec_inv s -> exec_inv (add_verified_certificate c s).
Proof.
  intros He []. unfold add_verified_certificate. case_match; [done|]. split; [done..|].
  intros h c'. cbn. rewrite lookup_insert_Some. intros [[<- <-]|[_ Hl]]; [by split; [|left]|].
  by apply ei_finalized0.
Qed.

(** ** Runs *)

(** What the node and the runner may do next.  An answer "valid" is given for
    vouched certificates only, and certificates from elsewhere are external. *)
Inductive exec_step : ExecutionState -> ExecutionState -> Prop :=
  | es_block s bh height ts txs :
      exec_step s (execution_on_block_committed bh height ts txs s).1
  | es_provisioned s h ps : exec_step s (on_provisioning_complete h ps s).1
  | es_vote s v : exec_step s (on_vote v s).1
  | es_votes s h vs : exec_step s (on_state_votes_verified h vs s).1
  | es_aggregated s h c : Vouched c -> exec_step s (on_state_certificate_aggregated h c s).1
  | es_certificate s c : exec_step s (on_certificate c s).1
  | es_verified s c valid :
      (valid = true -> Vouched c) -> exec_step s (on_certificate_verified c valid s).1
  | es_fetched s bh c : exec_step s (verify_fetched_certificate bh c s).1
  | es_entries s h es : exec_step s (on_state_entries_fetched h es s).1
  | es_remove s h : exec_step s (remove_finalized_certificate h s)
  | es_cleanup s h : exec_step s (cleanup_transaction h s)
  | es_cancel s h : exec_step s (cancel_certificate_building h s)
  | es_add s c : External c -> exec_step s (add_verified_certificate c s)
  | es_view s height : exec_step s (on_view_change height s)
  | es_speculate s bh height txs :
      exec_step s (trigger_speculative_execution bh height txs s).1
  | es_speculated s bh hs : exec_step s (on_speculative_execution_complete bh hs s).1
  | es_invalidate s c : exec_step s (invalidate_speculative_on_commit c s)
  | es_stale s age : exec_step s (cleanup_stale_speculative age s)
  | es_time s now : exec_step s (execution_set_time now s)
  | es_metrics s : exec_step s (take_speculative_metrics s).1.

Inductive exec_run (key : Bls12381G1PrivateKey) : ExecutionState -> Prop :=
  | er_new n cooldown : exec_run key (with_speculative_config key n cooldown)
  | er_step s s' : exec_run key s -> exec_step s s' -> exec_run key s'.

Lemma exec_step_keeps s s' : exec_step s s' -> exec_inv s -> exec_inv s'.
Proof.
  intros Hst Hs. destruct Hst.
  - by apply block_committed_keeps.
  - by apply provisioning_complete_keeps.
  - by apply on_vote_keeps.
  - by apply votes_verified_keeps.
  - by apply aggregated_keeps.
  - by apply on_certificate_keeps.
  - by apply on_certificate_verified_keeps.
  - by apply verify_fetched_keeps.
  - unfold on_state_entries_fetched. destruct (ex_pending_provision_fetches s !! h); [|done].
    cbn [fst]. frame.
  - by apply remove_finalized_keeps.
  - by apply cleanup_transaction_keeps.
  - by apply cancel_building_keeps.
  - by apply add_verified_keeps.
  - unfold on_view_change. frame.
  - unfold trigger_speculative_execution. case_match; [done|].
    destruct (filter _ txs); [done|]. cbn [fst]. frame.
  - apply (foldl_keeps exec_inv); [frame|]. intros s' x _ [].
    split; [| |by apply cache_speculation_indexed| |]; unfold cache_speculation; by case_match.
  - apply (foldl_keeps exec_inv); [done|]. intros s' x _ [].
    split; [| |by apply invalidate_one_indexed| |];
      unfold invalidate_one, remove_speculative_result; (case_match; [|done]); by case_match.
  - apply (foldl_keeps exec_inv); [done|]. intros s' x _ [].
    split; [| |by apply remove_speculative_result_indexed| |];
      unfold remove_speculative_result; by case_match.
  - frame.
  - cbn [fst take_speculative_metrics]. frame.
Qed.

Lemma exec_run_inv key s : exec_run key s -> exec_inv s.
Proof.
  induction 1 as [n cd|s s' _ IH Hst]; [|by apply (exec_step_keeps s)].
  split.
  - intros tx v. cbn. rewrite lookup_empty. unfold mm_get. rewrite lookup_empty. simpl.
    split; [by intros []|set_solver].
  - intros tx sh. cbn. rewrite lookup_empty. unfold mm_get. rewrite lookup_empty. simpl.
    split; [by intros []|set_solver].
  - intros tx spec n'. cbn. by rewrite lookup_empty.
  - intros h t. cbn. by rewrite lookup_empty.
  - intros h c. cbn. by rewrite lookup_empty.
Qed.
End runs.

(** ** What is left of a transaction *)

(** Everything the state holds under a transaction's hash, save that it was
    executed and its speculative result. *)
Definition trace (s : ExecutionState) (h : Hash) :=
  (ex_finalized_certificates s !! h, ex_pending_provisioning s !! h,
   ex_pending_provision_fetches s !! h, ex_vote_trackers s !! h, ex_state_certificates s !! h,
   ex_certificate_trackers s !! h, ex_early_provisioning_complete s !! h, ex_early_votes s !! h,
   ex_early_certificates s !! h).

Definition in_progress (s : ExecutionState) (h : Hash) :=
  (ex_pending_fetched_cert_verifications s !! h, ex_pending_cert_aggregations s !! h).

Definition cached (s : ExecutionState) (h : Hash) (id : N) :=
  (ex_pending_cert_verifications s !! (h, id), ex_verified_state_votes s !! (h, id)).

Section theorems.
Context `{Crypto} `{T : Topology} `{HashIter}.
Context (Vouched : StateCertificate -> Prop) (External : TransactionCertificate -> Prop).
Implicit Types (s : ExecutionState) (tx : RoutableTransaction) (h : Hash).

Lemma forget_both s h s' h' id :
  votes_indexed s -> certs_indexed s ->
  ex_verified_state_votes s' = ex_verified_state_votes (forget_verified_votes h s) ->
  ex_pending_cert_verifications s' = ex_pending_cert_verifications (forget_verifications h s) ->
  cached s' h' id = if decide (h' = h) then (None, None) else cached s h' id.
Proof.
  intros Hv Hc E1 E2. unfold cached. rewrite E1, E2.
  rewrite (forget_verified_votes_spec _ _ _ _ Hv), (forget_verifications_spec _ _ _ _ Hc).
  by case_decide.
Qed.

(** Removing a transaction leaves nothing of it behind, and nothing else
    changes. In every reachable state, after [remove_finalized_certificate] no
    map has an entry for the transaction, including the two caches that are
    cleared through their reverse indexes. [cleanup_transaction], on a transaction
    that is not finalized, also forgets that it was executed, but keeps an
    aggregation or the verification of a fetched certificate in progress. *)
Theorem removed_without_trace key s h :
  exec_run Vouched External key s ->
  let removed := remove_finalized_certificate h s in
  let cleaned := cleanup_transaction h s in
  trace removed h = (None, None, None, None, None, None, None, None, None) /\
  in_progress removed h = (None, None) /\
  (forall id, cached removed h id = (None, None)) /\
  (forall h' id, h' <> h -> trace removed h' = trace s h' /\
    in_progress removed h' = in_progress s h' /\ cached removed h' id = cached s h' id) /\
  (is_finalized s h = true -> cleaned = s) /\
  (is_finalized s h = false ->
    trace cleaned h = (None, None, None, None, None, None, None, None, None) /\
    is_tx_executed cleaned h = false /\
    in_progress cleaned h = in_progress s h /\
    (forall id, cached cleaned h id = (None, None)) /\
    (forall h' id, h' <> h -> trace cleaned h' = trace s h' /\
      is_tx_executed cleaned h' = is_tx_executed s h' /\
      in_progress cleaned h' = in_progress s h' /\ cached cleaned h' id = cached s h' id)).
Proof.
  intros [Hv Hc _ _ _]%exec_run_inv removed cleaned.
  assert (forall h' id, cached removed h' id
    = if decide (h' = h) then (None, None) else cached s h' id) as Hrem.
  { intros h' id. by apply (forget_both s h). }
  split_and!.
  - unfold removed, trace. cbn. by rewrite !lookup_delete_eq.
  - unfold removed, in_progress. cbn. by rewrite !lookup_delete_eq.
  - intros id. by rewrite Hrem, decide_True.
  - intros h' id Hne. split_and!; [| |by rewrite Hrem, decide_False].
    + unfold removed, trace. cbn. by rewrite !lookup_delete_ne.
    + unfold removed, in_progress. cbn. by rewrite !lookup_delete_ne.
  - unfold is_finalized, cleaned, cleanup_transaction. by intros ->.
  - unfold is_finalized, is_tx_executed, cleaned, cleanup_transaction. intros Hf. rewrite Hf.
    set (s' := forget_verified_votes h _).
    assert (forall h' id, cached s' h' id
      = if decide (h' = h) then (None, None) else cached s h' id) as Hcl.
    { intros h' id. by apply (forget_both s h). }
    apply contains_key_false in Hf. split_and!.
    + unfold s', trace. cbn. by rewrite Hf, !lookup_delete_eq.
    + apply contains_key_false. unfold s'. cbn. apply lookup_delete_eq.
    + done.
    + intros id. by rewrite Hcl, decide_True.
    + intros h' id Hne. split_and!; [| |done|by rewrite Hcl, decide_False].
      * unfold s', trace. cbn. by rewrite !lookup_delete_ne.
      * unfold s', contains_key. cbn. by rewrite lookup_delete_ne.
Qed.

(** C7: A transaction certificate that this validator finalized itself stands
    for the agreement of all shards. In every reachable state it carries exactly
    one state certificate per shard of some transaction with its hash, each for
    that transaction and shard and each vouched for (aggregated here, or with a
    verified signature); all of them commit to the same outputs, and the decision
    is Accept exactly when every shard succeeded. *)
Theorem finalized_certificate_sound key s h c :
  exec_run Vouched External key s ->
  get_finalized_certificate s h = Some c -> ~ External c ->
  tc_transaction_hash c = h /\
  exists tx root, rt_hash tx = h /\
    (forall sh, is_Some (tc_shard_proofs c !! sh) <-> sh ∈ tx_shards tx) /\
    (forall sh p, tc_shard_proofs c !! sh = Some p ->
      sc_shard_group_id p = sh /\ sc_transaction_hash p = h /\ Vouched p /\
      sc_outputs_merkle_root p = root) /\
    (tc_decision c = Accept <->
     forall sh p, tc_shard_proofs c !! sh = Some p -> sc_success p = true).
Proof.
  intros Hrun Hc Hne.
  destruct (ei_finalized _ _ _ (exec_run_inv _ _ _ _ Hrun) _ _ Hc) as
    [Hh [|(tx & root & Htx & Hdom & Hps & Hdec)]]; [done|].
  split; [done|]. exists tx, root. rewrite Hh in *. split_and!; [done|done| |done].
  intros sh p Hp. destruct (Hps sh p Hp) as [(? & ? & ?) ?]. done.
Qed.

(** Committing a certificate drops exactly the speculative results that the
    read index lists under a written node, and the index misses none: in every
    reachable state, no result that is left has a written node in its read set. *)
Theorem commit_invalidates_speculation key s c h spec :
  exec_run Vouched External key s ->
  let s' := invalidate_speculative_on_commit c s in
  (ex_speculative_results s' !! h = Some spec <->
   ex_speculative_results s !! h = Some spec /\
   forall n, n ∈ written_nodes c -> h ∉ mm_get (ex_speculative_reads_index s) n) /\
  (ex_speculative_results s' !! h = Some spec -> spr_read_set spec ## written_nodes c).
Proof.
  intros Hrun s'. pose proof (ei_reads _ _ _ (exec_run_inv _ _ _ _ Hrun)) as Hr.
  assert (ex_speculative_results s' !! h = Some spec <->
    ex_speculative_results s !! h = Some spec /\
    forall n, n ∈ written_nodes c -> h ∉ mm_get (ex_speculative_reads_index s) n) as Hiff.
  { unfold s', invalidate_speculative_on_commit. rewrite invalidate_lookup.
    case_decide as Hd; rewrite elem_of_to_invalidate in Hd; naive_solver. }
  split; [done|]. intros Hs n Hn Hw. apply Hiff in Hs as [Hs Hni].
  by eapply Hni, Hr.
Qed.
End theorems.
