(* ===== verification/ExecutionVotes.v ===== *)
(** * State certificates need a quorum of distinct voters

    A run of one transaction's votes: votes are delivered, batches of buffered
    votes are verified, and other work goes on in between.  When every validator
    is delivered once, a certificate is aggregated only from votes of distinct
    validators, all for one state root, whose powers reach the quorum; hence two
    validators of a shard never certify different results. *)

From stdpp Require Import base gmap list numbers sorting.
From Stdlib Require Import NArith Lia.
From S2P Require Import Prelude Bitfield Types Encoding Topology Transactions VoteSet Core.
From S2P Require Import Runner Trackers Execution.

(** ** The tracker *)

Section tracker.
Context `{T : Topology}.
Implicit Types (t : VoteTracker) (v : StateVoteBlock) (D : gset ValidatorId).
Implicit Types (pend : list (StateVoteBlock * u64)).

(** The votes a tracker counted, and the votes [pend] on their way to it: no
    root counts a validator twice, nor one of [pend], and the power of a root is
    the sum of its voters' powers. *)
Record tv_ok (h : Hash) t pend D : Prop := {
  tv_quorum : vt_quorum t = local_quorum_threshold;
  tv_nodup r : NoDup (sv_validator <$> (votes_at t r ++ pend.*1));
  tv_votes r v : v ∈ votes_at t r ->
    sv_state_root v = r /\ sv_transaction_hash v = h /\ sv_validator v ∈ D;
  tv_power r : power_at t r = wsum (power_of <$> (sv_validator <$> votes_at t r));
  tv_pending v p : (v, p) ∈ pend ->
    p = power_of (sv_validator v) /\ sv_transaction_hash v = h /\ sv_validator v ∈ D
}.

Lemma tv_ok_perm h t pend pend' D : pend ≡ₚ pend' -> tv_ok h t pend D -> tv_ok h t pend' D.
Proof.
  intros Hp [? Hn ? ? Hpe]. split; try done.
  - intros r. rewrite <- Hp. apply Hn.
  - intros v p Hv. apply Hpe. by rewrite Hp.
Qed.

Lemma tv_ok_sub h t pend pend' D : pend' `sublist_of` pend -> tv_ok h t pend D -> tv_ok h t pend' D.
Proof.
  intros Hp [? Hn ? ? Hpe]. split; try done.
  - intros r. eapply sublist_NoDup; [apply (Hn r)|].
    apply fmap_sublist, sublist_app; [done|by apply fmap_sublist].
  - intros v p Hv. apply Hpe. eapply sublist_subseteq; [exact Hp|done].
Qed.

(** A vote of a validator that was not delivered before. *)
Lemma tv_ok_deliver h t pend D v :
  tv_ok h t pend D -> sv_transaction_hash v = h -> sv_validator v ∉ D ->
  tv_ok h t ((v, power_of (sv_validator v)) :: pend) ({[sv_validator v]} ∪ D).
Proof.
  intros [? Hn Hv ? Hpe] Hh HD. split; try done.
  - intros r. rewrite fmap_cons. cbn [fst]. rewrite <- Permutation_middle, fmap_cons.
    apply NoDup_cons. split; [|apply Hn].
    rewrite fmap_app, elem_of_app, !list_elem_of_fmap.
    intros [(w & Heq & Hw)|(w & Heq & ([w' p] & -> & Hw)%list_elem_of_fmap)].
    + apply Hv in Hw as (_ & _ & Hw). by rewrite <- Heq in Hw.
    + apply Hpe in Hw as (_ & _ & Hw). cbn in Heq. by rewrite <- Heq in Hw.
  - intros r w Hw. destruct (Hv r w Hw) as (? & ? & ?). set_solver.
  - intros w p [[= -> ->]|Hw]%elem_of_cons; [set_solver|].
    destruct (Hpe w p Hw) as (? & ? & ?). set_solver.
Qed.

Lemma votes_at_add v p t r :
  votes_at (add_verified_vote v p t) r
  = if decide (r = sv_state_root v) then votes_at t r ++ [v] else votes_at t r.
Proof.
  unfold votes_at at 1, add_verified_vote. cbn. rewrite lookup_insert.
  case_decide as Hd; [subst|]; case_decide; by simplify_eq.
Qed.

Lemma power_at_add v p t r :
  power_at (add_verified_vote v p t) r
  = if decide (r = sv_state_root v) then power_at t r +w p else power_at t r.
Proof.
  unfold power_at at 1, add_verified_vote. cbn. rewrite lookup_insert.
  case_decide as Hd; [subst|]; case_decide; by simplify_eq.
Qed.

(** A pending vote is counted. *)
Lemma tv_ok_count h t pend D v p :
  tv_ok h t ((v, p) :: pend) D -> tv_ok h (add_verified_vote v p t) pend D.
Proof.
  intros [Hq Hn Hv Hp Hpe].
  destruct (Hpe v p (list_elem_of_here _ _)) as (Hpw & Hh & HD). split; [done|..].
  - intros r. rewrite votes_at_add. specialize (Hn r). rewrite fmap_cons in Hn. cbn [fst] in Hn.
    case_decide.
    + by rewrite <- app_assoc.
    + rewrite <- Permutation_middle in Hn. by apply NoDup_cons in Hn as [_ Hn].
  - intros r w. rewrite votes_at_add. case_decide as Hd; [|apply Hv].
    rewrite elem_of_app, list_elem_of_singleton. intros [Hw| ->]; [by apply Hv|]. by subst r.
  - intros r. rewrite votes_at_add, power_at_add. case_decide; [|apply Hp].
    rewrite !fmap_app. change (power_of <$> (sv_validator <$> [v])) with [power_of (sv_validator v)].
    by rewrite wsum_snoc, Hp, Hpw.
  - intros w q Hw. apply Hpe. by right.
Qed.

Lemma tv_ok_count_all h t vs pend D :
  tv_ok h t (vs ++ pend) D -> tv_ok h (foldl (fun t vp => add_verified_vote vp.1 vp.2 t) t vs) pend D.
Proof.
  revert t. induction vs as [|[v p] vs IH]; intros t Ht; [done|]. cbn [foldl]. apply IH.
  by apply tv_ok_count.
Qed.

Lemma check_quorum_Some t r p : check_quorum t = Some (r, p) -> power_at t r = p /\ vt_quorum t <= p.
Proof.
  unfold check_quorum. destruct (list_find _ _) as [[i [r' p']]|] eqn:E; [|done].
  intros [= -> ->]. apply list_find_Some in E as (Hl & Hq & _). split; [|done].
  apply list_elem_of_lookup_2, elem_of_btree_iter in Hl. unfold power_at. by rewrite Hl.
Qed.

(** The tracker reads only these fields in [tv_ok]. *)
Lemma tv_ok_ext h t t' pend D :
  vt_quorum t' = vt_quorum t -> vt_votes_by_root t' = vt_votes_by_root t ->
  vt_power_by_root t' = vt_power_by_root t -> tv_ok h t pend D -> tv_ok h t' pend D.
Proof.
  intros E1 E2 E3 []. split; unfold votes_at, power_at in *; by rewrite ?E1, ?E2, ?E3.
Qed.
End tracker.

(** ** Runs *)

Section flow.
Context `{T : Topology} (h : Hash).
Implicit Types (s : ExecutionState) (t : VoteTracker) (v : StateVoteBlock) (D : gset ValidatorId).

(** The state, the buffered votes handed to the runner and not answered yet,
    and the validators whose votes were delivered. *)
Record vflow := mk_vflow {
  vf_state : ExecutionState;
  vf_inflight : list (StateVoteBlock * Bls12381G1PublicKey * u64);
  vf_delivered : gset ValidatorId
}.

Definition unkey (b : StateVoteBlock * Bls12381G1PublicKey * u64) : StateVoteBlock * u64 :=
  (b.1.1, b.2).

Definition batches (acts : list Action) : list (StateVoteBlock * Bls12381G1PublicKey * u64) :=
  flat_map (fun a => match a with VerifyAndAggregateStateVotes _ votes => votes | _ => [] end) acts.

(** One step and its actions: a vote of a new validator arrives, the runner
    answers a part [b] of the votes in flight with those that verify, or
    anything else happens that leaves the transaction's vote tracker alone. *)
Inductive vflow_step : vflow -> list Action -> vflow -> Prop :=
  | vs_deliver s fl D v :
      sv_transaction_hash v = h -> sv_validator v ∉ D ->
      vflow_step (mk_vflow s fl D) (on_vote v s).2
        (mk_vflow (on_vote v s).1 (batches (on_vote v s).2 ++ fl) ({[sv_validator v]} ∪ D))
  | vs_answer s fl D b rest vs :
      fl ≡ₚ b ++ rest -> vs `sublist_of` (unkey <$> b) ->
      vflow_step (mk_vflow s fl D) (on_state_votes_verified h vs s).2
        (mk_vflow (on_state_votes_verified h vs s).1
           (batches (on_state_votes_verified h vs s).2 ++ rest) D)
  | vs_other s s' fl D :
      ex_vote_trackers s' !! h = ex_vote_trackers s !! h ->
      vflow_step (mk_vflow s fl D) [] (mk_vflow s' fl D).

Inductive vflow_run : vflow -> Prop :=
  | vr_start s shards reads :
      ex_vote_trackers s !! h = Some (vote_tracker_new h shards reads local_quorum_threshold) ->
      vflow_run (mk_vflow s [] ∅)
  | vr_step f acts f' : vflow_run f -> vflow_step f acts f' -> vflow_run f'.

Definition vflow_inv (f : vflow) : Prop := forall t,
  ex_vote_trackers (vf_state f) !! h = Some t ->
  tv_ok h t (unkey <$> (vt_unverified_votes t ++ vf_inflight f)) (vf_delivered f).

(** The votes of an aggregation: distinct delivered voters for one root, whose
    powers reach the quorum. *)
Definition certified D (root : Hash) (votes : list StateVoteBlock) (power : u64) : Prop :=
  NoDup (sv_validator <$> votes) /\
  Forall (fun v => sv_state_root v = root /\ sv_transaction_hash v = h /\ sv_validator v ∈ D) votes /\
  power = wsum (power_of <$> (sv_validator <$> votes)) /\
  local_quorum_threshold <= power.

Definition aggregates_ok D (acts : list Action) : Prop :=
  forall h' sh root votes reads power n,
    AggregateStateCertificate h' sh root votes reads power n ∈ acts ->
    h' = h /\ sh = local_shard /\ certified D root votes power.

Lemma check_vote_quorum_flow s t pend D :
  ex_vote_trackers s !! h = Some t -> tv_ok h t pend D ->
  let r := check_vote_quorum h s in
  (r = (s, []) \/ ex_vote_trackers r.1 !! h = None) /\
  aggregates_ok D r.2 /\ batches r.2 = [].
Proof.
  intros Ht Hok. unfold check_vote_quorum. rewrite Ht.
  destruct (check_quorum t) as [[root power]|] eqn:E.
  2: { split_and!; [by left| |done]. intros ??????? Hin. by apply not_elem_of_nil in Hin. }
  apply check_quorum_Some in E as [Hp Hq]. cbn. split_and!; [|..|done].
  - right. apply lookup_delete_eq.
  - intros ??????? Hin. apply list_elem_of_singleton in Hin as [= -> -> -> -> _ -> _].
    split_and!; [done|done|]. destruct Hok as [Hqu Hn Hv Hpw _]. split_and!.
    + specialize (Hn root). rewrite fmap_app in Hn. by apply NoDup_app in Hn as [Hn _].
    + apply Forall_forall. apply Hv.
    + by rewrite <- Hpw, Hp.
    + by rewrite <- Hqu.
Qed.

Lemma maybe_trigger_flow s t fl D :
  ex_vote_trackers s !! h = Some t ->
  tv_ok h t (unkey <$> (vt_unverified_votes t ++ fl)) D ->
  let r := maybe_trigger_state_vote_verification h s in
  vflow_inv (mk_vflow r.1 (batches r.2 ++ fl) D) /\ aggregates_ok D r.2.
Proof.
  intros Ht Hok. unfold maybe_trigger_state_vote_verification. rewrite Ht.
  destruct (should_trigger_state_verification t); cbn [negb]; cbv zeta; cbn [fst snd].
  - split.
    + intros t' Ht'. cbn in Ht'. rewrite lookup_insert_eq in Ht'. injection Ht' as <-.
      apply (tv_ok_ext h t); [done..|]. cbn.
      by destruct (vt_unverified_votes t); cbn; rewrite ?app_nil_r.
    + intros ??????? Hin. cbn in Hin. destruct (vt_unverified_votes t); set_solver.
  - split; [|by intros ??????? Hin%not_elem_of_nil]. intros t' Ht'. cbn in *. by simplify_eq.
Qed.

Lemma aggregates_ok_nil D : aggregates_ok D [].
Proof. by intros ??????? Hin%not_elem_of_nil. Qed.

(** A handler that leaves no tracker, or leaves it as it was. *)
Lemma vflow_inv_none s fl D : ex_vote_trackers s !! h = None -> vflow_inv (mk_vflow s fl D).
Proof. intros Hn t Ht. cbn in Ht. congruence. Qed.

(** Counting a vote that was just delivered. *)
Lemma handle_verified_vote_flow s t fl D v :
  ex_vote_trackers s !! h = Some t -> sv_transaction_hash v = h ->
  tv_ok h t ((v, power_of (sv_validator v)) :: (unkey <$> (vt_unverified_votes t ++ fl))) D ->
  let r := handle_verified_vote v s in
  vflow_inv (mk_vflow r.1 (batches r.2 ++ fl) D) /\ aggregates_ok D r.2.
Proof.
  intros Ht Hh Hok%tv_ok_count. unfold handle_verified_vote. rewrite Hh, Ht. cbv zeta.
  set (t' := add_verified_vote v _ t) in *.
  match goal with |- context [check_vote_quorum h ?x] => set (s' := x) end.
  assert (ex_vote_trackers s' !! h = Some t') as Ht'.
  { unfold s'. destruct (has_seen_validator t (sv_validator v)); cbn; apply lookup_insert_eq. }
  destruct (check_vote_quorum_flow s' t' _ _ Ht' Hok) as (Hr & Hagg & Hb).
  split; [|done]. rewrite Hb. destruct Hr as [->|Hn]; [|by apply vflow_inv_none].
  intros t2 Ht2. cbn [vf_state fst] in Ht2. replace t2 with t' by congruence. exact Hok.
Qed.

Lemma on_vote_flow s fl D v :
  vflow_inv (mk_vflow s fl D) -> sv_transaction_hash v = h -> sv_validator v ∉ D ->
  let D' := {[sv_validator v]} ∪ D in
  vflow_inv (mk_vflow (on_vote v s).1 (batches (on_vote v s).2 ++ fl) D') /\
  aggregates_ok D' (on_vote v s).2.
Proof.
  intros Hinv Hh HD D'. unfold on_vote. rewrite Hh.
  destruct (ex_vote_trackers s !! h) as [t|] eqn:Ht.
  2: { case_match; (split; [by apply vflow_inv_none|apply aggregates_ok_nil]). }
  pose proof (tv_ok_deliver _ _ _ _ _ (Hinv t Ht) Hh HD) as Hok. fold D' in Hok.
  case_match; [by apply (handle_verified_vote_flow s t)|].
  case_match; [by apply (handle_verified_vote_flow s t)|].
  assert (vflow_inv (mk_vflow s fl D')) as Hsame.
  { intros t' Ht'. cbn [vf_state vf_inflight vf_delivered] in *. replace t' with t by congruence.
    eapply tv_ok_sub; [|exact Hok]. by apply sublist_cons. }
  destruct (public_key _) as [pk|]; [|by split; [|apply aggregates_ok_nil]].
  destruct (has_seen_validator t (sv_validator v)) eqn:Eseen; [by split; [|apply aggregates_ok_nil]|].
  unfold buffer_unverified_state_vote, has_seen_validator in *. rewrite Eseen.
  eapply maybe_trigger_flow; [cbn; apply lookup_insert_eq|].
  apply (tv_ok_ext h t); [done..|]. cbn. eapply tv_ok_perm; [|exact Hok].
  rewrite <- app_assoc, !fmap_app. apply Permutation_middle.
Qed.

Lemma trackers_after_batch s t vs :
  ex_vote_trackers s !! h = Some t ->
  ex_vote_trackers (foldl (add_batch_vote h) s vs) !! h
  = Some (foldl (fun t vp => add_verified_vote vp.1 vp.2 t) t vs).
Proof.
  revert s t. induction vs as [|vp vs IH]; intros s t Ht; [done|]. cbn [foldl]. apply IH.
  cbn. by rewrite lookup_alter_eq, Ht.
Qed.

Lemma fold_add_unverified t vs :
  vt_unverified_votes (foldl (fun t vp => add_verified_vote vp.1 vp.2 t) t vs)
  = vt_unverified_votes t.
Proof. revert t. induction vs as [|vp vs IH]; intros t; [done|]. cbn [foldl]. by rewrite IH. Qed.

Lemma on_state_votes_verified_flow s fl D b rest vs :
  vflow_inv (mk_vflow s fl D) -> fl ≡ₚ b ++ rest -> vs `sublist_of` (unkey <$> b) ->
  let r := on_state_votes_verified h vs s in
  vflow_inv (mk_vflow r.1 (batches r.2 ++ rest) D) /\ aggregates_ok D r.2.
Proof.
  intros Hinv Hfl Hvs. unfold on_state_votes_verified.
  destruct (ex_vote_trackers s !! h) as [t|] eqn:Ht.
  2: { split; [by apply vflow_inv_none|apply aggregates_ok_nil]. }
  set (t1 := on_verification_complete t). set (s1 := s <| ex_vote_trackers ::= _ |>).
  assert (ex_vote_trackers s1 !! h = Some t1) as Ht1 by apply lookup_insert_eq.
  assert (tv_ok h t1 (vs ++ (unkey <$> (vt_unverified_votes t1 ++ rest))) D) as Hok.
  { apply (tv_ok_ext h t); [done..|]. change (vt_unverified_votes t1) with (vt_unverified_votes t).
    eapply tv_ok_sub; [apply sublist_app; [exact Hvs|reflexivity]|].
    eapply tv_ok_perm; [|exact (Hinv t Ht)]. cbn [vf_inflight].
    by rewrite <- fmap_app, Hfl, Permutation_app_swap_app. }
  destruct vs as [|vp vs']; [by apply (maybe_trigger_flow s1 t1)|].
  set (vs := vp :: vs') in *. set (s2 := foldl (add_batch_vote h) s1 vs).
  pose proof (trackers_after_batch s1 t1 vs Ht1) as Ht2. fold s2 in Ht2.
  pose proof (tv_ok_count_all _ _ _ _ _ Hok) as Hok2.
  set (t2 := foldl _ t1 vs) in *.
  assert (vt_unverified_votes t2 = vt_unverified_votes t1) as Hunv by apply fold_add_unverified.
  destruct (check_vote_quorum_flow s2 t2 _ _ Ht2 Hok2) as (Hr & Hagg & Hb).
  unfold hseq. destruct (check_vote_quorum h s2) as [s3 a3]. cbn [fst snd] in *.
  destruct Hr as [[= -> ->]|Hn].
  - destruct (maybe_trigger_flow s2 t2 rest D Ht2) as [Hi Ha]; [by rewrite Hunv|].
    by destruct (maybe_trigger_state_vote_verification h s2).
  - assert (maybe_trigger_state_vote_verification h s3 = (s3, [])) as ->.
    { unfold maybe_trigger_state_vote_verification. by rewrite Hn. }
    cbn [fst snd]. rewrite app_nil_r. split; [by apply vflow_inv_none|done].
Qed.

Lemma vflow_step_inv f acts f' :
  vflow_inv f -> vflow_step f acts f' -> vflow_inv f' /\ aggregates_ok (vf_delivered f') acts.
Proof.
  intros Hinv Hst. destruct Hst.
  - by apply on_vote_flow.
  - by eapply on_state_votes_verified_flow.
  - split; [|apply aggregates_ok_nil]. intros t Ht. apply Hinv. cbn in *. congruence.
Qed.

Lemma vflow_run_inv f : vflow_run f -> vflow_inv f.
Proof.
  induction 1 as [s shards reads Ht|f acts f' _ IH Hst].
  - intros t Ht'. cbn in *. replace t with (vote_tracker_new h shards reads local_quorum_threshold)
      by congruence. set (t0 := vote_tracker_new _ _ _ _).
    assert (forall r, votes_at t0 r = []) as Hv0 by (intros r; unfold votes_at; cbn; by rewrite lookup_empty).
    assert (forall r, power_at t0 r = 0) as Hp0 by (intros r; unfold power_at; cbn; by rewrite lookup_empty).
    split; [done|..]; intros r; rewrite ?Hv0, ?Hp0; [apply NoDup_nil_2|set_solver|done|set_solver].
  - by eapply vflow_step_inv.
Qed.
End flow.

(** ** Agreement *)

Section power.
Context `{T : Topology} `{!TopologyLaws T}.

(** Distinct committee members that reach the threshold are a quorum. *)
Lemma voters_are_quorum shard vs :
  power_bounded shard -> NoDup vs -> Forall (fun v => v ∈ committee_for_shard shard) vs ->
  quorum_threshold_for_shard shard <= wsum (power_of <$> vs) ->
  has_quorum_for_shard shard (power_in shard (list_to_set vs)) = true.
Proof.
  intros Hb Hnd Hin Hq.
  assert (vs ≡ₚ filter (fun v => v ∈ (list_to_set vs : gset N)) (committee_for_shard shard)) as Hp.
  { apply NoDup_Permutation; [done|apply list.NoDup_filter, committee_NoDup|].
    intros v. rewrite list_elem_of_filter, elem_of_list_to_set. split; [|by intros []].
    intros Hv. split; [done|]. exact (Forall_elem _ _ _ Hin Hv). }
  assert (sum_N (power_of <$> vs) = power_in shard (list_to_set vs)) as Hsum.
  { unfold power_in. apply sum_N_perm. by rewrite <- Hp. }
  apply quorum_threshold_exact; [done|]. rewrite <- Hsum, <- wsum_small; [done|].
  rewrite Hsum. pose proof (power_in_le shard (list_to_set vs)). unfold power_bounded in Hb. lia.
Qed.

Lemma aggregate_quorum h f acts f' sh root votes reads power n :
  power_bounded local_shard -> vflow_run h f -> vflow_step h f acts f' ->
  AggregateStateCertificate h sh root votes reads power n ∈ acts ->
  (forall v, v ∈ vf_delivered f' -> v ∈ committee_for_shard local_shard) ->
  has_quorum_for_shard local_shard
    (power_in local_shard (list_to_set (sv_validator <$> votes))) = true /\
  forall v, v ∈ votes -> sv_state_root v = root.
Proof.
  intros Hb Hr Hs Ha HD.
  destruct (proj2 (vflow_step_inv _ _ _ _ (vflow_run_inv _ _ Hr) Hs) _ _ _ _ _ _ _ Ha)
    as (_ & _ & Hnd & Hv & -> & Hq). rewrite Forall_forall in Hv. split.
  - apply voters_are_quorum; [done..| |done]. apply Forall_fmap, Forall_forall.
    intros v Hin. by apply HD, Hv.
  - intros v Hin. by apply Hv.
Qed.
End power.

(** Two views of the same shard. *)
Definition same_shard (T1 T2 : Topology) : Prop :=
  @local_shard T2 = @local_shard T1 /\
  (forall sh, @committee_for_shard T2 sh = @committee_for_shard T1 sh) /\
  (forall sh, @voting_power_for_shard T2 sh = @voting_power_for_shard T1 sh) /\
  (forall v, @voting_power T2 v = @voting_power T1 v).

