(* ===== verification/ExecutionCert.v ===== *)
(** * A state certificate that was aggregated verifies

    [aggregate_state_certificate] on the validators of one shard and
    [dispatch_state_cert_verifications] on the validators of the others: a
    certificate built from valid votes for one result passes the check, in
    whatever batch it is verified. *)

From stdpp Require Import base gmap list numbers sorting.
From Stdlib Require Import NArith Lia.
From S2P Require Import Prelude Bitfield Types Encoding Topology Transactions VoteSet Core.
From S2P Require Import Runner QcTheory QcRoundtrip Trackers Execution ExecutionRunner.

Section batches.
Context `{Crypto} `{Engine}.

(** Whatever the randomised check of the whole batch answers, a member that
    verifies on its own is reported valid. *)
Lemma batch_verify_valid msgs sigs pks i msg sig pk :
  length msgs = length sigs -> length sigs = length pks ->
  msgs !! i = Some msg -> sigs !! i = Some sig -> pks !! i = Some pk ->
  verify_bls12381_v1 msg pk sig = true ->
  batch_verify_bls_different_messages msgs sigs pks !! i = Some true.
Proof.
  intros E1 E2 Hm Hs Hp Hv. unfold batch_verify_bls_different_messages.
  rewrite E1, E2, !Nat.eqb_refl. cbn [negb orb].
  destruct (Nat.eqb_spec (length pks) 0) as [Hz|_].
  { apply length_zero_iff_nil in Hz as ->. done. }
  case_match.
  - apply lookup_replicate. apply lookup_lt_Some in Hs. split; [done|lia].
  - rewrite list_lookup_fmap, lookup_zip_with, lookup_zip_with, Hm, Hs. cbn. rewrite Hp. cbn.
    by rewrite Hv.
Qed.

(** The verdict a certificate gets on its own. *)
Definition certificate_valid (cert : StateCertificate) (pks : list Bls12381G1PublicKey) : bool :=
  match certificate_key cert pks with
  | Some pk => verify_bls12381_v1 (state_certificate_signing_message cert) pk
                 (sc_aggregated_signature cert)
  | None => false
  end.

Lemma dispatch_reports_valid certs cert pks :
  (cert, pks) ∈ certs -> certificate_valid cert pks = true ->
  StateCertificateSignatureVerified cert true ∈ dispatch_state_cert_verifications certs.
Proof.
  intros Hin Hv. unfold certificate_valid in Hv.
  destruct (certificate_key cert pks) as [pk|] eqn:Ek; [|done].
  unfold dispatch_state_cert_verifications. cbv zeta. apply elem_of_app. left.
  set (verifiable := omap _ _).
  assert ((cert, pk) ∈ verifiable) as Hver.
  { apply list_elem_of_omap. exists (cert, Some pk). split; [|done].
    apply list_elem_of_fmap. exists (cert, pks). by rewrite Ek. }
  apply list_elem_of_lookup in Hver as [i Hi].
  apply list_elem_of_fmap. exists ((cert, pk), true). split; [done|].
  apply list_elem_of_lookup. exists i. rewrite lookup_zip_with, Hi. cbn.
  rewrite (batch_verify_valid _ _ _ i (state_certificate_signing_message cert)
             (sc_aggregated_signature cert) pk);
    rewrite ?length_fmap, ?list_lookup_fmap, ?Hi; done.
Qed.
End batches.

(** ** Distinct voters *)

Lemma unique_votes_from_spec seen votes :
  unique_votes_from seen votes `sublist_of` votes /\
  NoDup (sv_validator <$> unique_votes_from seen votes) /\
  (forall v, v ∈ sv_validator <$> unique_votes_from seen votes <->
    v ∈ sv_validator <$> votes /\ v ∉ seen).
Proof.
  revert seen. induction votes as [|v votes IH]; intros seen; cbn [unique_votes_from].
  { split_and!; [done|apply NoDup_nil_2|set_solver]. }
  case_bool_decide as Hs.
  - destruct (IH seen) as (Hsub & Hnd & Hel). split_and!; [by apply sublist_cons|done|].
    intros w. rewrite Hel, fmap_cons. set_solver.
  - destruct (IH ({[sv_validator v]} ∪ seen)) as (Hsub & Hnd & Hel). rewrite !fmap_cons. split_and!.
    + by apply sublist_skip.
    + apply NoDup_cons. split; [|done]. rewrite Hel. set_solver.
    + intros w. rewrite !elem_of_cons, Hel. destruct (decide (w = sv_validator v)) as [->|]; set_solver.
Qed.

Lemma unique_votes_spec votes :
  unique_votes votes `sublist_of` votes /\ NoDup (sv_validator <$> unique_votes votes) /\
  (forall v, v ∈ sv_validator <$> unique_votes votes <-> v ∈ sv_validator <$> votes).
Proof.
  destruct (unique_votes_from_spec ∅ votes) as (? & ? & Hel). split_and!; [done..|].
  intros v. unfold unique_votes. rewrite Hel. set_solver.
Qed.

Lemma unique_votes_nonempty votes : votes <> [] -> unique_votes votes <> [].
Proof.
  destruct votes as [|v votes]; [done|]. unfold unique_votes. cbn [unique_votes_from].
  by rewrite bool_decide_false by set_solver.
Qed.

Lemma omap_full {A B} (f : A -> option B) l i x :
  length (omap f l) = length l -> l !! i = Some x -> omap f l !! i = f x.
Proof.
  assert (forall l : list A, length (omap f l) <= length l)%nat as Hle.
  { intros l0. induction l0 as [|y l0 IH]; cbn; [lia|]. destruct (f y); cbn; unfold omap in *; lia. }
  revert i. induction l as [|y l IH]; intros i Hlen Hi; [done|]. cbn in *.
  specialize (Hle l). unfold omap in *. destruct (f y) as [b|] eqn:Ef; cbn in *; [|lia].
  destruct i as [|i]; cbn in *; [by simplify_eq|]. apply IH; [lia|done].
Qed.

Section roundtrip.
Context `{Crypto} `{T : Topology} `{Engine}.
Implicit Types (v : StateVoteBlock).

(** A vote of a committee member for one result of one transaction, with a
    signature that verifies under the member's key. *)
Definition vote_for (tx : Hash) (shard : ShardGroupId) (root : Hash) (success : bool) v : Prop :=
  sv_transaction_hash v = tx /\ sv_shard_group_id v = shard /\ sv_state_root v = root /\
  sv_success v = success /\ sv_validator v ∈ committee_for_shard shard /\
  exists pk, public_key (sv_validator v) = Some pk /\
    verify_bls12381_v1 (state_vote_signing_message v) pk (sv_signature v) = true.

Lemma committee_index_Some shard (v : ValidatorId) :
  v ∈ committee_for_shard shard ->
  exists i, committee_index_for_shard shard v = Some i /\ committee_for_shard shard !! i = Some v.
Proof.
  intros Hv. unfold committee_index_for_shard.
  destruct (list_find_elem_of (fun w => w = v) _ v Hv eq_refl) as [[i w] Hf].
  rewrite Hf. apply list_find_Some in Hf as (Hi & -> & _). by exists i.
Qed.

Lemma committee_keys_lookup shard pks i (v : ValidatorId) :
  committee_public_keys shard = Some pks -> committee_for_shard shard !! i = Some v ->
  pks !! i = public_key v.
Proof.
  unfold committee_public_keys. case_match eqn:E; [|done]. intros [= <-] Hi.
  apply Nat.eqb_eq in E. by apply omap_full.
Qed.

Lemma committee_keys_length shard pks :
  committee_public_keys shard = Some pks -> length pks = committee_size_for_shard shard.
Proof.
  unfold committee_public_keys. case_match eqn:E; [|done]. intros [= <-]. by apply Nat.eqb_eq in E.
Qed.

(** The committee positions and the keys of a list of voters. *)
Lemma voter_positions shard pks vs :
  committee_public_keys shard = Some pks ->
  Forall (fun v => sv_validator v ∈ committee_for_shard shard /\
                   is_Some (public_key (sv_validator v))) vs ->
  NoDup (sv_validator <$> vs) ->
  let idxs := omap (fun v => committee_index_for_shard shard (sv_validator v)) vs in
  NoDup idxs /\ Forall (fun i => i < committee_size_for_shard shard)%nat idxs /\
  omap (fun i => pks !! i) idxs = omap (fun v => public_key (sv_validator v)) vs /\
  length idxs = length vs.
Proof.
  intros Hp Hvs Hnd idxs.
  unfold idxs. clear idxs. induction Hvs as [|v vs [Hc [pk Hk]] Hvs IH].
  { split_and!; [apply NoDup_nil_2|constructor|done..]. }
  destruct (committee_index_Some _ _ Hc) as (i & Hi & Hl). cbn [omap list_omap] in *. rewrite Hi in *.
  rewrite fmap_cons in Hnd. apply NoDup_cons in Hnd as [Hni Hnd].
  destruct IH as (IH1 & IH2 & IH3 & IH4); [done|].
  split_and!.
  - apply NoDup_cons. split; [|done]. intros (w & Hw & Hwi)%list_elem_of_omap. apply Hni.
    pose proof (Forall_elem _ _ _ Hvs Hw) as [Hwc _].
    destruct (committee_index_Some _ _ Hwc) as (j & Hj & Hlj).
    rewrite Hwi in Hj. injection Hj as <-. rewrite Hl in Hlj. injection Hlj as Heq. rewrite Heq.
    by apply list_elem_of_fmap_2.
  - constructor; [by apply lookup_lt_Some in Hl|done].
  - cbn [omap list_omap]. rewrite (committee_keys_lookup _ _ _ _ Hp Hl), Hk. unfold omap in *. by rewrite IH3.
  - cbn [length]. unfold omap in *. by rewrite IH4.
Qed.

(** The signatures of valid votes for one result aggregate to a valid group. *)
Lemma voters_group (L : BlsLaws) tx shard root b vs :
  vs <> [] -> Forall (vote_for tx shard root b) vs ->
  valid_group (exec_vote_message tx root shard b)
    (omap (fun v => public_key (sv_validator v)) vs) (sv_signature <$> vs).
Proof.
  intros Hne Hvs.
  induction Hvs as [|v vs (E1 & E2 & E3 & E4 & _ & pk & Hk & Hv) Hvs IH]; [done|].
  unfold state_vote_signing_message in Hv. rewrite E1, E2, E3, E4 in Hv.
  cbn [omap list_omap]. rewrite Hk, fmap_cons.
  destruct vs as [|w vs]; [by apply (bls_single L)|].
  by apply (bls_join L _ [pk] [sv_signature v]); [apply (bls_single L)|apply IH].
Qed.

Lemma certificate_valid_perm (L : BlsLaws) cert pks ks apk :
  certificate_signer_keys cert pks ≡ₚ ks -> ks <> [] -> aggregate_public_keys ks = Some apk ->
  verify_bls12381_v1 (state_certificate_signing_message cert) apk (sc_aggregated_signature cert)
    = true ->
  certificate_valid cert pks = true.
Proof.
  intros Hperm Hne Hagg Hv. unfold certificate_valid, certificate_key.
  rewrite <- (bls_perm L _ _ Hperm) in Hagg.
  destruct (certificate_signer_keys cert pks) as [|k l]; [|by rewrite Hagg].
  by apply Permutation_nil_l in Hperm.
Qed.

End roundtrip.
