(* ===== verification/ExecutionFinal.v ===== *)
(** * From a committed block to a finalized transaction

    The whole path of a single-shard transaction through the state machine and
    the runner, when enough validators of the shard vote for one result; and the
    two orders in which a cross-shard transaction's block and provisions may
    come. *)

From stdpp Require Import base gmap list numbers sorting.
From Stdlib Require Import NArith Lia.
From S2P Require Import Prelude Bitfield Types Encoding Topology Transactions VoteSet Core.
From S2P Require Import Runner QcRoundtrip Trackers Execution ExecutionRunner ExecutionVotes.
From S2P Require Import ExecutionCert.

Section final.
Context `{Crypto} `{T : Topology} `{Engine} `{HashIter}.
Implicit Types (s : ExecutionState) (v : StateVoteBlock) (votes : list StateVoteBlock).

Definition voter_key v : Bls12381G1PublicKey := default 0 (public_key (sv_validator v)).
Definition voter_power v : u64 := power_of (sv_validator v).
Definition buffered v : StateVoteBlock * Bls12381G1PublicKey * u64 :=
  (v, voter_key v, voter_power v).
Definition total_power_of votes : N := sum_N (voter_power <$> votes).

(** A tracker that has buffered [votes] and counted none. *)
Definition buffering (h : Hash) (shards : list ShardGroupId) (reads : list NodeId) votes
    : VoteTracker :=
  mk_vote_tracker h shards reads local_quorum_threshold ∅ ∅ (buffered <$> votes)
    (wsum (voter_power <$> votes)) (list_to_set (sv_validator <$> votes)) false.

Definition with_tracker (h : Hash) (t : VoteTracker) s : ExecutionState :=
  s <| ex_vote_trackers ::= <[h := t]> |>.

Lemma with_tracker_twice h t t' s : with_tracker h t' (with_tracker h t s) = with_tracker h t' s.
Proof. unfold with_tracker, upd. cbn. by rewrite insert_insert_eq. Qed.

Lemma with_tracker_lookup h t s : ex_vote_trackers (with_tracker h t s) !! h = Some t.
Proof. apply lookup_insert_eq. Qed.

Lemma with_tracker_id h t s : ex_vote_trackers s !! h = Some t -> with_tracker h t s = s.
Proof. intros Ht. unfold with_tracker, upd. rewrite insert_id by done. by destruct s. Qed.

(** A vote that is buffered: of a known validator, other than this one, whose
    vote for the transaction was not verified before. *)
Definition fresh_vote (h : Hash) s v : Prop :=
  sv_transaction_hash v = h /\ sv_validator v <> local_validator_id /\
  is_Some (public_key (sv_validator v)) /\
  ex_verified_state_votes s !! (h, sv_validator v) = None.

Lemma buffering_snoc h shards reads votes v :
  sv_validator v ∉ sv_validator <$> votes ->
  (buffer_unverified_state_vote v (voter_key v) (voter_power v) (buffering h shards reads votes)).1
  = buffering h shards reads (votes ++ [v]).
Proof.
  intros Hni. unfold buffer_unverified_state_vote. cbn.
  rewrite bool_decide_false by (by rewrite elem_of_list_to_set). unfold buffering, upd. cbn.
  f_equal; [by rewrite fmap_app|by rewrite fmap_app; unfold wsum; rewrite foldl_app|].
  rewrite fmap_app, list_to_set_app_L. cbn. set_solver.
Qed.

Lemma best_power_buffering h shards reads votes :
  best_verified_power (buffering h shards reads votes) = 0.
Proof. unfold best_verified_power, buffering, btree_values, btree_iter. cbn. by rewrite map_to_list_empty. Qed.

Lemma should_trigger_buffering h shards reads votes :
  votes <> [] -> total_power_of votes < u64_modulus ->
  should_trigger_state_verification (buffering h shards reads votes)
  = (local_quorum_threshold <=? total_power_of votes).
Proof.
  intros Hne Hb. unfold should_trigger_state_verification. rewrite best_power_buffering.
  cbn [buffering vt_unverified_votes vt_pending_verification vt_quorum vt_unverified_power].
  rewrite length_fmap. destruct votes as [|v votes]; [done|]. cbn [length Nat.eqb orb].
  rewrite wsum_small by done. unfold wadd. rewrite N.add_0_l. by rewrite as_u64_small.
Qed.

Lemma maybe_trigger_with h t s :
  maybe_trigger_state_vote_verification h (with_tracker h t s)
  = if should_trigger_state_verification t
    then (with_tracker h (take_unverified_state_votes t).1 s,
          match vt_unverified_votes t with
          | [] => []
          | _ :: _ => [VerifyAndAggregateStateVotes h (vt_unverified_votes t)]
          end)
    else (with_tracker h t s, []).
Proof.
  unfold maybe_trigger_state_vote_verification. rewrite with_tracker_lookup.
  destruct (should_trigger_state_verification t); cbn [negb]; [|done].
  cbn [take_unverified_state_votes]. f_equal. apply with_tracker_twice.
Qed.

Lemma on_vote_buffers h shards reads votes v s :
  ex_vote_trackers s !! h = Some (buffering h shards reads votes) -> fresh_vote h s v ->
  sv_validator v ∉ sv_validator <$> votes -> total_power_of (votes ++ [v]) < u64_modulus ->
  on_vote v s
  = let t := buffering h shards reads (votes ++ [v]) in
    if local_quorum_threshold <=? total_power_of (votes ++ [v])
    then (with_tracker h (take_unverified_state_votes t).1 s,
          [VerifyAndAggregateStateVotes h (buffered <$> (votes ++ [v]))])
    else (with_tracker h t s, []).
Proof.
  intros Ht (Hh & Hne & [pk Hk] & Hc) Hni Hb. unfold on_vote. rewrite Hh, Ht.
  rewrite (proj2 (N.eqb_neq _ _) Hne). unfold contains_key. rewrite Hc, Hk.
  unfold has_seen_validator. cbn [vt_seen_validators buffering].
  rewrite bool_decide_false by (by rewrite elem_of_list_to_set).
  pose proof (buffering_snoc h shards reads votes v Hni) as Hbuf.
  replace (voter_key v) with pk in Hbuf by (unfold voter_key; by rewrite Hk).
  fold (voter_power v). destruct (buffer_unverified_state_vote _ _ _ _) as [t' x].
  cbn [fst] in Hbuf. subst t'. cbv zeta.
  etrans; [exact (maybe_trigger_with h (buffering h shards reads (votes ++ [v])) s)|].
  rewrite should_trigger_buffering by (done || by destruct votes).
  destruct (_ <=? _); [|done]. by destruct votes.
Qed.

(** ** Delivering the votes *)

Lemma for_each_app {A} (f : A -> execution) l1 l2 s :
  for_each f (l1 ++ l2) s = (for_each f l1 ;> for_each f l2) s.
Proof.
  revert s. induction l1 as [|x l1 IH]; intros s.
  - unfold hseq. cbn. by destruct (for_each f l2 s).
  - cbn [app for_each]. unfold hseq at 1. destruct (f x s) as [s1 a1] eqn:E. rewrite IH.
    unfold hseq. rewrite E. destruct (for_each f l1 s1) as [s2 a2].
    destruct (for_each f l2 s2) as [s3 a3]. by rewrite app_assoc.
Qed.

Lemma total_power_app l1 l2 : total_power_of (l1 ++ l2) = total_power_of l1 + total_power_of l2.
Proof. unfold total_power_of. by rewrite fmap_app, sum_N_app. Qed.

(** Below the quorum, votes are buffered and nothing is asked. *)
Lemma deliver_below h shards reads done rest s :
  ex_vote_trackers s !! h = Some (buffering h shards reads done) ->
  Forall (fresh_vote h s) rest -> NoDup (sv_validator <$> (done ++ rest)) ->
  total_power_of (done ++ rest) < local_quorum_threshold -> local_quorum_threshold < u64_modulus ->
  for_each on_vote rest s = (with_tracker h (buffering h shards reads (done ++ rest)) s, []).
Proof.
  revert done s. induction rest as [|v rest IH]; intros done s Ht Hf Hnd Hlt Hq.
  { rewrite app_nil_r. cbn. unfold hskip. by rewrite with_tracker_id. }
  inversion_clear Hf as [|? ? Hv Hrest].
  rewrite cons_middle, app_assoc in Hnd, Hlt. rewrite (cons_middle v done rest), app_assoc.
  pose proof Hlt as Hlt'. rewrite total_power_app in Hlt'. cbn [for_each]. unfold hseq.
  rewrite (on_vote_buffers h shards reads done v s Ht Hv).
  - cbv zeta. rewrite (proj2 (N.leb_gt _ _)) by lia.
    rewrite (IH (done ++ [v])); [by rewrite with_tracker_twice|apply with_tracker_lookup|done..].
  - rewrite !fmap_app in Hnd. apply NoDup_app in Hnd as [Hnd _].
    apply NoDup_app in Hnd as (_ & Hnd & _). intros Hin. apply (Hnd _ Hin). by left.
  - lia.
Qed.

(** The vote that completes a quorum sends the whole batch to the runner. *)
Lemma deliver_quorum h shards reads init v s :
  ex_vote_trackers s !! h = Some (buffering h shards reads []) ->
  Forall (fresh_vote h s) (init ++ [v]) -> NoDup (sv_validator <$> (init ++ [v])) ->
  total_power_of init < local_quorum_threshold <= total_power_of (init ++ [v]) ->
  local_quorum_threshold < u64_modulus -> total_power_of (init ++ [v]) < u64_modulus ->
  for_each on_vote (init ++ [v]) s
  = (with_tracker h (take_unverified_state_votes (buffering h shards reads (init ++ [v]))).1 s,
     [VerifyAndAggregateStateVotes h (buffered <$> (init ++ [v]))]).
Proof.
  intros Ht Hf Hnd [Hlt Hge] Hq Hb. apply Forall_app in Hf as [Hf Hv].
  inversion_clear Hv as [|? ? Hv' _]. rewrite for_each_app. unfold hseq.
  pose proof Hnd as Hnd'. rewrite fmap_app in Hnd'. apply NoDup_app in Hnd' as (Hnd1 & Hnd2 & _).
  rewrite (deliver_below h shards reads [] init s) by done. cbn [app for_each]. unfold hseq.
  rewrite (on_vote_buffers h shards reads init v); [|apply with_tracker_lookup|done| |done].
  2: { intros Hin. apply (Hnd2 _ Hin). by left. }
  cbv zeta. rewrite (proj2 (N.leb_le _ _)) by lia. unfold hskip. by rewrite with_tracker_twice.
Qed.

(** ** The answer of the runner *)

Lemma batch_verify_all msgs sigs pks :
  length msgs = length sigs -> length sigs = length pks ->
  Forall (fun '(msg, sig, pk) => verify_bls12381_v1 msg pk sig = true) (zip (zip msgs sigs) pks) ->
  batch_verify_bls_different_messages msgs sigs pks = replicate (length sigs) true.
Proof.
  intros E1 E2 Hall. unfold batch_verify_bls_different_messages.
  rewrite E1, E2, !Nat.eqb_refl. cbn [negb orb].
  destruct (Nat.eqb_spec (length pks) 0) as [->|_]; [done|]. case_match; [done|].
  assert (length (zip (zip msgs sigs) pks) = length pks) as Hlen.
  { rewrite !length_zip_with. lia. }
  rewrite <- Hlen. symmetry. apply replicate_as_elem_of.
  split; [by rewrite length_fmap|].
  intros b. rewrite list_elem_of_fmap. intros ([[m sg] k] & -> & Hin).
  exact (Forall_elem _ _ _ Hall Hin).
Qed.

Lemma zip_replicate_true {A} (l : list A) n :
  length l = n -> (filter (fun '(_, valid) => valid = true) (zip l (replicate n true))).*1 = l.
Proof.
  intros <-. induction l as [|x l IH]; [done|]. cbn [length replicate zip zip_with].
  rewrite list.filter_cons, decide_True by done. rewrite fmap_cons. by rewrite IH.
Qed.

Lemma group_same h (vps : list (StateVoteBlock * u64)) :
  vps <> [] -> group_by_tx ((fun vp => (h, vp)) <$> vps) = {[h := vps]}.
Proof.
  intros Hne. unfold group_by_tx. induction vps as [|vp vps IH] using rev_ind; [done|].
  rewrite fmap_app, foldl_app. destruct vps as [|w vps].
  - cbn. by rewrite lookup_empty, insert_empty.
  - rewrite IH by done. cbn [fmap list_fmap foldl]. rewrite lookup_singleton_eq.
    apply insert_singleton_eq.
Qed.

(** A signature that verifies under the voter's key. *)
Definition signed_vote v : Prop :=
  verify_bls12381_v1 (state_vote_signing_message v) (voter_key v) (sv_signature v) = true.

(** The runner confirms a batch of valid votes. *)
Lemma dispatch_all_valid h votes :
  votes <> [] -> Forall signed_vote votes ->
  dispatch_state_vote_verifications [(h, buffered <$> votes)]
  = [StateVotesVerifiedAndAggregated h ((fun v => (v, voter_power v)) <$> votes)].
Proof.
  intros Hne Hall. unfold dispatch_state_vote_verifications.
  assert (verified_state_votes [(h, buffered <$> votes)]
    = (fun vp => (h, vp)) <$> ((fun v => (v, voter_power v)) <$> votes)) as ->.
  { unfold verified_state_votes. cbn [flat_map]. rewrite app_nil_r, <- !list_fmap_compose.
    rewrite batch_verify_all; rewrite ?length_fmap; [|done|done|].
    2: { clear Hne. induction Hall as [|v votes Hv Hall IH]; [constructor|]. by constructor. }
    transitivity ((fun '(tx_hash, vote, _, power) => (tx_hash, (vote, power)))
      <$> ((fun '(vote, pk, power) => (h, vote, pk, power)) ∘ buffered <$> votes)).
    2: { by rewrite <- list_fmap_compose. }
    rewrite <- (zip_replicate_true (_ <$> votes) (length votes)) at 2 by apply length_fmap.
    rewrite <- list_fmap_compose. apply list_fmap_ext. by intros _ [[[[? ?] ?] ?] ?] _. }
  rewrite group_same by (by destruct votes).
  assert (hm_iter {[h := (fun v => (v, voter_power v)) <$> votes]}
    = [(h, (fun v => (v, voter_power v)) <$> votes)]) as ->; [|done].
  apply Permutation_singleton_r. by rewrite hm_iter_perm, map_to_list_singleton.
Qed.

(** ** Counting *)

Lemma count_same_root t r votes :
  votes <> [] -> Forall (fun v => sv_state_root v = r) votes ->
  vt_votes_by_root t = ∅ -> vt_power_by_root t = ∅ ->
  let t' := foldl (fun t vp => add_verified_vote vp.1 vp.2 t) t
              ((fun v => (v, voter_power v)) <$> votes) in
  vt_votes_by_root t' = {[r := votes]} /\
  vt_power_by_root t' = {[r := wsum (voter_power <$> votes)]} /\
  vt_quorum t' = vt_quorum t /\ vt_participating_shards t' = vt_participating_shards t /\
  vt_read_nodes t' = vt_read_nodes t.
Proof.
  intros Hne Hall E1 E2. induction votes as [|v votes IH] using rev_ind; [done|].
  apply Forall_app in Hall as [Hall Hv]. rewrite Forall_singleton in Hv. subst r.
  rewrite fmap_app, foldl_app. cbn [fmap list_fmap foldl fst snd].
  rewrite (fmap_app voter_power), (wsum_snoc _ (voter_power v)).
  destruct (decide (votes = [])) as [->|Hv].
  - cbn. unfold votes_at, power_at. by rewrite E1, E2, !lookup_empty, !insert_empty.
  - destruct (IH Hv Hall) as (IH1 & IH2 & IH3 & IH4 & IH5).
    set (t1 := foldl _ t _) in *. clearbody t1. unfold add_verified_vote, votes_at, power_at. cbn.
    by rewrite IH1, IH2, !lookup_singleton_eq, !insert_singleton_eq.
Qed.

Lemma check_quorum_single t r p :
  vt_power_by_root t = {[r := p]} -> vt_quorum t <= p -> check_quorum t = Some (r, p).
Proof.
  intros Hp Hq. unfold check_quorum, btree_iter. rewrite Hp, map_to_list_singleton. cbn.
  by rewrite decide_True.
Qed.

Lemma batch_votes_frame h vps s :
  ex_certificate_trackers (foldl (add_batch_vote h) s vps) = ex_certificate_trackers s.
Proof. revert s. induction vps as [|vp vps IH]; intros s; [done|]. cbn [foldl]. by rewrite IH. Qed.

(** The verified batch is a quorum: the certificate is asked for. *)
Lemma answer_certifies h shards reads r votes s t :
  votes <> [] -> Forall (fun v => sv_state_root v = r) votes ->
  ex_vote_trackers s !! h = Some t -> vt_votes_by_root t = ∅ -> vt_power_by_root t = ∅ ->
  vt_participating_shards t = shards -> vt_read_nodes t = reads ->
  vt_quorum t <= wsum (voter_power <$> votes) ->
  exists s', on_state_votes_verified h ((fun v => (v, voter_power v)) <$> votes) s
    = (s', [AggregateStateCertificate h local_shard r votes reads (wsum (voter_power <$> votes))
              (length local_committee)]) /\
    ex_pending_cert_aggregations s' !! h = Some shards /\
    ex_certificate_trackers s' = ex_certificate_trackers s.
Proof.
  intros Hne Hall Ht E1 E2 <- <- Hq. unfold on_state_votes_verified. rewrite Ht.
  set (t1 := on_verification_complete t). set (s1 := s <| ex_vote_trackers ::= _ |>).
  set (vps := (fun v => (v, voter_power v)) <$> votes).
  pose proof (trackers_after_batch h s1 t1 vps (lookup_insert_eq _ _ _)) as Ht2.
  destruct (count_same_root t1 r votes Hne Hall E1 E2) as (F1 & F2 & F3 & F4 & F5).
  fold vps in F1, F2, F3, F4, F5. set (t2 := foldl _ t1 vps) in *.
  pose proof (batch_votes_frame h vps s1) as Hframe.
  destruct vps as [|vp vps'] eqn:Evps; [by destruct votes|]. rewrite <- Evps in *.
  set (s2 := foldl (add_batch_vote h) s1 vps) in *.
  unfold hseq. unfold check_vote_quorum. rewrite Ht2.
  rewrite (check_quorum_single t2 r _ F2) by (by rewrite F3).
  cbn [take_votes_for_root]. unfold votes_at. rewrite F1, F4, F5, lookup_singleton_eq. cbn [default].
  unfold maybe_trigger_state_vote_verification. cbn [ex_vote_trackers upd].
  rewrite lookup_delete_eq. eexists. split; [reflexivity|]. split; [|exact Hframe].
  apply lookup_insert_eq.
Qed.

(** The certificate of the only shard finalizes the transaction. *)
Lemma single_certificate_internal h cert s :
  ex_certificate_trackers s !! h = Some (certificate_tracker_new h [local_shard]) ->
  sc_transaction_hash cert = h -> sc_shard_group_id cert = local_shard ->
  let decision := if sc_success cert then Accept else Reject in
  let tx_cert := mk_transaction_certificate h decision {[local_shard := cert]} in
  exists s', handle_certificate_internal cert s
    = (s', [PersistTransactionCertificate tx_cert;
            EnqueueInternal (TransactionExecuted h (sc_success cert))]) /\
    get_finalized_certificate s' h = Some tx_cert.
Proof.
  intros Ht Hh Hs decision tx_cert. unfold handle_certificate_internal. rewrite Hh, Ht.
  assert (add_certificate cert (certificate_tracker_new h [local_shard])
    = (mk_certificate_tracker h [local_shard] {[local_shard := cert]}, true)) as ->.
  { unfold add_certificate. rewrite Hs. rewrite bool_decide_true by (by left). cbn [negb].
    unfold contains_key, certificate_tracker_new, upd. cbn [ct_certificates].
    rewrite lookup_empty, insert_empty. unfold tracker_is_complete, certificate_count. cbn.
    by rewrite map_size_singleton. }
  assert (create_tx_certificate (mk_certificate_tracker h [local_shard] {[local_shard := cert]})
    = (mk_certificate_tracker h [local_shard] ∅, Some tx_cert)) as ->.
  { unfold create_tx_certificate, tracker_is_complete, certificate_count. cbn.
    rewrite map_size_singleton. cbn. unfold btree_values, btree_iter.
    rewrite map_to_list_singleton. cbn. rewrite andb_true_r. done. }
  unfold tx_cert, decision. destruct (sc_success cert); eexists;
    (split; [reflexivity|apply lookup_insert_eq]).
Qed.

Lemma single_certificate_finalizes h cert s :
  ex_pending_cert_aggregations s !! h = Some [local_shard] ->
  ex_certificate_trackers s !! h = Some (certificate_tracker_new h [local_shard]) ->
  sc_transaction_hash cert = h -> sc_shard_group_id cert = local_shard ->
  let decision := if sc_success cert then Accept else Reject in
  let tx_cert := mk_transaction_certificate h decision {[local_shard := cert]} in
  exists s', on_state_certificate_aggregated h cert s
    = (s', [BroadcastStateCertificate local_shard cert; PersistTransactionCertificate tx_cert;
            EnqueueInternal (TransactionExecuted h (sc_success cert))]) /\
    get_finalized_certificate s' h = Some tx_cert.
Proof.
  intros Hp Ht Hh Hs decision tx_cert. unfold on_state_certificate_aggregated. rewrite Hp.
  unfold hseq, hemit. set (s1 := s <| ex_pending_cert_aggregations ::= _ |>
    <| ex_state_certificates ::= _ |>).
  destruct (single_certificate_internal h cert s1 Ht Hh Hs) as (s' & -> & Hf). by exists s'.
Qed.

(** ** The block *)

(** Nothing of the transaction was seen before its block. *)
Definition unseen (h : Hash) s : Prop :=
  ex_executed_txs s !! h = None /\ ex_speculative_results s !! h = None /\
  (h ∉ ex_speculative_in_flight_txs s) /\ ex_early_votes s !! h = None /\
  ex_early_certificates s !! h = None /\ (forall id, ex_verified_state_votes s !! (h, id) = None).

Lemma mark_executed_unseen height txs h s :
  unseen h s ->
  let s' := mark_executed height txs s in
  ex_speculative_results s' !! h = None /\ (h ∉ ex_speculative_in_flight_txs s') /\
  ex_early_votes s' !! h = None /\ ex_early_certificates s' !! h = None /\
  (forall id, ex_verified_state_votes s' !! (h, id) = None).
Proof.
  intros (_ & H2 & H3 & H4 & H5 & H6). cbv zeta.
  split_and!; [done|done|by apply hm_retain_None|by apply hm_retain_None|].
  intros v. by apply hm_retain_None.
Qed.

Lemma start_tracking_quiet tx shards s :
  ex_early_votes s !! rt_hash tx = None -> ex_early_certificates s !! rt_hash tx = None ->
  start_tracking tx shards s
  = (s <| ex_vote_trackers ::= <[rt_hash tx :=
            vote_tracker_new (rt_hash tx) shards (rt_declared_reads tx) local_quorum_threshold]> |>
       <| ex_certificate_trackers ::= <[rt_hash tx :=
            certificate_tracker_new (rt_hash tx) shards]> |>, []).
Proof.
  intros Hv Hc. unfold start_tracking. set (f := fun s : ExecutionState => _).
  unfold hseq, hupd, replay_early_votes. change (ex_early_votes (f s)) with (ex_early_votes s).
  rewrite Hv. unfold replay_early_certificates.
  change (ex_early_certificates (f s)) with (ex_early_certificates s). by rewrite Hc.
Qed.

Lemma use_speculation_miss s acts txs tx :
  ex_speculative_results s !! rt_hash tx = None -> rt_hash tx ∉ ex_speculative_in_flight_txs s ->
  use_speculation (s, acts, txs) tx = (record_speculative_cache_miss s, acts, txs ++ [tx]).
Proof.
  intros Hr Hi. unfold use_speculation, take_speculative_result.
  by rewrite Hr, bool_decide_false.
Qed.

Lemma commit_single bh height ts tx s :
  is_single_shard_transaction tx = true -> unseen (rt_hash tx) s ->
  exists s', execution_on_block_committed bh height ts [tx] s
    = (s', [ExecuteTransactions bh [tx] (blake3 (replicate 32 0))]) /\
    ex_vote_trackers s' !! rt_hash tx
      = Some (buffering (rt_hash tx) [local_shard] (rt_declared_reads tx) []) /\
    ex_certificate_trackers s' !! rt_hash tx
      = Some (certificate_tracker_new (rt_hash tx) [local_shard]) /\
    (forall id, ex_verified_state_votes s' !! (rt_hash tx, id) = None).
Proof.
  intros Hs Hu. pose proof (mark_executed_unseen height [tx] _ _ Hu) as Hm.
  destruct Hu as (Hx & _). unfold execution_on_block_committed.
  rewrite list.filter_cons, decide_True by (by apply contains_key_false). rewrite list.filter_nil.
  cbv zeta in Hm. set (s1 := mark_executed height [tx] s) in *.
  destruct Hm as (Hr & Hi & Hv & Hc & Hvv).
  rewrite (list.filter_cons _ tx []), decide_True by done.
  rewrite (list.filter_cons _ tx []), decide_False by (by rewrite Hs).
  rewrite !list.filter_nil. cbn [foldl]. rewrite use_speculation_miss by done.
  unfold start_single_shard_execution. cbn [for_each app]. unfold hseq, hemit, hskip.
  rewrite start_tracking_quiet by done. eexists. split; [reflexivity|].
  cbn. rewrite !lookup_insert_eq. done.
Qed.

Lemma aggregate_exists tx shard root votes reads power :
  exists cert,
    aggregate_state_certificate tx shard root votes reads power (committee_size_for_shard shard)
      = Some cert /\
    sc_transaction_hash cert = tx /\ sc_shard_group_id cert = shard /\
    sc_success cert = match votes with v :: _ => sv_success v | [] => false end.
Proof.
  unfold aggregate_state_certificate. set (idxs := omap _ _).
  destruct (SignerBitfieldOps.set_all_spec idxs
    (SignerBitfieldOps.new (committee_size_for_shard shard)) (SignerBitfieldOps.new_wf _))
    as (bf & -> & _); [|by eexists].
  apply Forall_forall. intros i (v & _ & Hi)%list_elem_of_omap.
  unfold committee_index_for_shard in Hi. destruct (list_find _ _) as [[j w]|] eqn:E; [|done].
  injection Hi as ->. apply list_find_Some in E as (Hl & _). by apply lookup_lt_Some in Hl.
Qed.

End final.
