(* ===== verification/ExecutionOrder.v ===== *)
(** * Block first or provisions first

    The state of the other shards may be complete before or after the block of
    a cross-shard transaction commits.  Both orders end in the same state and
    ask for the same work. *)

From stdpp Require Import base gmap list numbers sorting.
From Stdlib Require Import NArith Lia.
From S2P Require Import Prelude Bitfield Types Encoding Topology Transactions VoteSet Core.
From S2P Require Import Runner Trackers Execution.

Section order.
Context `{Crypto} `{T : Topology} `{HashIter}.
Implicit Types (s : ExecutionState) (tx : RoutableTransaction).

(** A handler that neither reads nor writes the transactions awaiting provisions. *)
Definition provision_free (f : execution) : Prop := forall s m,
  f (s <| ex_pending_provisioning := m |>) = ((f s).1 <| ex_pending_provisioning := m |>, (f s).2).

Lemma free_seq f g : provision_free f -> provision_free g -> provision_free (f ;> g).
Proof.
  intros Hf Hg s m. unfold hseq. rewrite Hf. destruct (f s) as [s1 a1]. cbn [fst snd].
  rewrite Hg. by destruct (g s1).
Qed.

Lemma free_for_each {A} (f : A -> execution) xs :
  (forall x, provision_free (f x)) -> provision_free (for_each f xs).
Proof. intros Hf. induction xs as [|x xs IH]; [done|]. by apply free_seq. Qed.

Lemma free_check_vote_quorum h : provision_free (check_vote_quorum h).
Proof.
  intros s m. unfold check_vote_quorum. cbn [ex_vote_trackers upd].
  change (ex_vote_trackers (s <| ex_pending_provisioning := m |>)) with (ex_vote_trackers s).
  destruct (ex_vote_trackers s !! h) as [t|]; [|done]. by destruct (check_quorum t) as [[]|].
Qed.

Lemma free_maybe_trigger h : provision_free (maybe_trigger_state_vote_verification h).
Proof.
  intros s m. unfold maybe_trigger_state_vote_verification.
  change (ex_vote_trackers (s <| ex_pending_provisioning := m |>)) with (ex_vote_trackers s).
  destruct (ex_vote_trackers s !! h) as [t|]; [|done]. by case_match.
Qed.

Lemma free_handle_verified_vote v : provision_free (handle_verified_vote v).
Proof.
  intros s m. unfold handle_verified_vote.
  change (ex_vote_trackers (s <| ex_pending_provisioning := m |>)) with (ex_vote_trackers s).
  destruct (ex_vote_trackers s !! _) as [t|]; [|done]. cbv zeta.
  destruct (has_seen_validator t (sv_validator v)).
  - exact (free_check_vote_quorum _ (s <| ex_vote_trackers ::= _ |>) m).
  - exact (free_check_vote_quorum _ (cache_verified_vote _ _ s <| ex_vote_trackers ::= _ |>) m).
Qed.

Lemma free_on_vote v : provision_free (on_vote v).
Proof.
  intros s m. unfold on_vote.
  change (ex_vote_trackers (s <| ex_pending_provisioning := m |>)) with (ex_vote_trackers s).
  change (ex_verified_state_votes (s <| ex_pending_provisioning := m |>))
    with (ex_verified_state_votes s).
  change (ex_state_certificates (s <| ex_pending_provisioning := m |>))
    with (ex_state_certificates s).
  destruct (ex_vote_trackers s !! _) as [t|].
  - do 2 (case_match; [apply free_handle_verified_vote|]). destruct (public_key _); [|done].
    case_match; [done|]. destruct (buffer_unverified_state_vote _ _ _ _) as [t' ?].
    exact (free_maybe_trigger _ (s <| ex_vote_trackers ::= _ |>) m).
  - by case_match.
Qed.

Lemma free_on_certificate c : provision_free (on_certificate c).
Proof.
  intros s m. unfold on_certificate.
  change (ex_certificate_trackers (s <| ex_pending_provisioning := m |>))
    with (ex_certificate_trackers s).
  change (ex_finalized_certificates (s <| ex_pending_provisioning := m |>))
    with (ex_finalized_certificates s).
  case_match; [by case_match|]. by destruct (committee_public_keys _).
Qed.

Lemma free_start_tracking tx shards : provision_free (start_tracking tx shards).
Proof.
  apply free_seq; [done|apply free_seq]; intros s m.
  - unfold replay_early_votes.
    change (ex_early_votes (s <| ex_pending_provisioning := m |>)) with (ex_early_votes s).
    destruct (ex_early_votes s !! _) as [[vs ?]|]; [|done].
    exact (free_for_each on_vote _ free_on_vote (s <| ex_early_votes ::= _ |>) m).
  - unfold replay_early_certificates.
    change (ex_early_certificates (s <| ex_pending_provisioning := m |>))
      with (ex_early_certificates s).
    destruct (ex_early_certificates s !! _) as [[cs ?]|]; [|done].
    exact (free_for_each on_certificate _ free_on_certificate (s <| ex_early_certificates ::= _ |>) m).
Qed.

(** ** One cross-shard transaction *)

Lemma commit_cross bh height ts tx s :
  is_single_shard_transaction tx = false -> ex_executed_txs s !! rt_hash tx = None ->
  execution_on_block_committed bh height ts [tx] s
  = start_cross_shard_execution tx height ts (mark_executed height [tx] s).
Proof.
  intros Hs Hx. unfold execution_on_block_committed.
  rewrite list.filter_cons, decide_True by (by apply contains_key_false). rewrite list.filter_nil.
  rewrite (list.filter_cons _ tx []), decide_False by (by rewrite Hs).
  rewrite (list.filter_cons _ tx []), decide_True by done. rewrite !list.filter_nil.
  cbn [foldl for_each]. unfold hseq at 1 2 3 4, hemit, hskip.
  destruct (start_cross_shard_execution tx height ts _) as [s1 a1]. cbn [app]. by rewrite app_nil_r.
Qed.

(** A cross-shard transaction has a shard other than this one. *)
Lemma remote_shards_nonempty tx : is_single_shard_transaction tx = false -> remote_shards tx <> [].
Proof.
  intros Hs. unfold is_single_shard_transaction in Hs. apply Nat.leb_gt in Hs.
  assert (exists sh, sh ∈ consensus_shards tx /\ sh <> local_shard) as (sh & Hin & Hne).
  { assert (NoDup (consensus_shards tx)) as Hnd.
    { unfold consensus_shards, btree_set. rewrite merge_sort_Permutation. apply NoDup_elements. }
    destruct (consensus_shards tx) as [|a [|b l]]; cbn in Hs; [lia|lia|].
    destruct (decide (a = local_shard)) as [->|]; [|exists a; set_solver].
    exists b. split; [set_solver|]. intros ->. apply NoDup_cons in Hnd as [Hni _]. set_solver. }
  intros Hnil. assert (sh ∈ remote_shards tx) as Hr; [|rewrite Hnil in Hr; set_solver].
  unfold remote_shards, all_shards_for_tx, all_shards_for_transaction.
  rewrite list_elem_of_filter, !elem_of_btree_set. set_solver.
Qed.

Definition registration tx (height : u64) : Action :=
  let shards := remote_shards tx in
  EnqueueInternal (CrossShardTxRegistered (rt_hash tx) shards
    (list_to_map ((fun shard => (shard, provisioning_quorum_for_shard shard)) <$> shards)) height).

Lemma start_provisioning_waits tx height s :
  remote_shards tx <> [] -> ex_early_provisioning_complete s !! rt_hash tx = None ->
  start_provisioning tx height s
  = (s <| ex_pending_provisioning := <[rt_hash tx := (tx, height)]> (ex_pending_provisioning s) |>,
     [registration tx height]).
Proof.
  intros Hr He. unfold start_provisioning, registration.
  destruct (remote_shards tx) as [|sh l] eqn:E; [done|]. cbn [length Nat.eqb]. cbv zeta.
  change (ex_early_provisioning_complete (s <| ex_pending_provisioning ::= _ |>))
    with (ex_early_provisioning_complete s). by rewrite He.
Qed.

Lemma start_provisioning_ready tx height s ps n :
  remote_shards tx <> [] -> ex_early_provisioning_complete s !! rt_hash tx = Some (ps, n) ->
  start_provisioning tx height s
  = (s <| ex_early_provisioning_complete ::= delete (rt_hash tx) |>
       <| ex_pending_provisioning :=
            delete (rt_hash tx) (<[rt_hash tx := (tx, height)]> (ex_pending_provisioning s)) |>,
     [registration tx height; ExecuteCrossShardTransaction (rt_hash tx) tx ps]).
Proof.
  intros Hr He. unfold start_provisioning, registration.
  destruct (remote_shards tx) as [|sh l] eqn:E; [done|]. cbn [length Nat.eqb]. cbv zeta.
  change (ex_early_provisioning_complete (s <| ex_pending_provisioning ::= _ |>))
    with (ex_early_provisioning_complete s). rewrite He.
  unfold hseq, hemit, hupd, on_provisioning_complete. cbn. by rewrite lookup_insert_eq.
Qed.

(** ** Actions *)

Definition is_cross_execution (a : Action) : bool :=
  match a with ExecuteCrossShardTransaction _ _ _ => true | _ => false end.

Definition silent (f : execution) : Prop := forall s,
  Forall (fun a => is_cross_execution a = false) (f s).2.

Lemma silent_seq f g : silent f -> silent g -> silent (f ;> g).
Proof.
  intros Hf Hg s. unfold hseq. specialize (Hf s). destruct (f s) as [s1 a1].
  specialize (Hg s1). destruct (g s1). by apply Forall_app.
Qed.

Lemma silent_for_each {A} (f : A -> execution) xs :
  (forall x, silent (f x)) -> silent (for_each f xs).
Proof. intros Hf. induction xs as [|x xs IH]; [by intros s; constructor|]. by apply silent_seq. Qed.

Lemma silent_check_vote_quorum h : silent (check_vote_quorum h).
Proof. intros s. unfold check_vote_quorum. repeat case_match; repeat constructor. Qed.

Lemma silent_maybe_trigger h : silent (maybe_trigger_state_vote_verification h).
Proof.
  intros s. unfold maybe_trigger_state_vote_verification, take_unverified_state_votes.
  repeat case_match; simplify_eq; repeat constructor.
Qed.

Lemma silent_handle_verified_vote v : silent (handle_verified_vote v).
Proof. intros s. unfold handle_verified_vote. case_match; [apply silent_check_vote_quorum|constructor]. Qed.

Lemma silent_on_vote v : silent (on_vote v).
Proof.
  intros s. unfold on_vote. destruct (ex_vote_trackers s !! _); [|case_match; constructor].
  do 2 (case_match; [apply silent_handle_verified_vote|]). destruct (public_key _); [|constructor].
  case_match; [constructor|]. case_match. apply silent_maybe_trigger.
Qed.

Lemma silent_on_certificate c : silent (on_certificate c).
Proof. intros s. unfold on_certificate. repeat case_match; repeat constructor. Qed.

Lemma silent_start_tracking tx shards : silent (start_tracking tx shards).
Proof.
  apply silent_seq; [by intros s; constructor|apply silent_seq]; intros s.
  - unfold replay_early_votes. case_match; [|constructor]. case_match.
    apply silent_for_each, silent_on_vote.
  - unfold replay_early_certificates. case_match; [|constructor]. case_match.
    apply silent_for_each, silent_on_certificate.
Qed.

(** ** Both orders *)

(** What the provision broadcast does, to any state. *)
Lemma initiate_uniform tx height ts : exists F acts,
  Forall (fun a => is_cross_execution a = false) acts /\
  forall s, initiate_provision_broadcast tx height ts s
            = (s <| ex_pending_provision_fetches ::= F |>, acts).
Proof.
  unfold initiate_provision_broadcast. cbv zeta.
  destruct (Nat.eqb (length (owned_nodes tx)) 0).
  { exists id, []. split; [constructor|]. by intros []. }
  destruct (Nat.eqb (length (remote_shards tx)) 0).
  { exists id, []. split; [constructor|]. by intros []. }
  eexists _, _. split; [|intros s; reflexivity]. by repeat constructor.
Qed.

Lemma set_early_same s :
  s <| ex_early_provisioning_complete := ex_early_provisioning_complete s |> = s.
Proof. by destruct s. Qed.

(** Waiting provisions that are not pruned, taken out again. *)
Lemma retain_insert_delete {A} (f : Hash -> A -> bool) (m : gmap Hash A) h x :
  m !! h = None -> f h x = true -> hm_retain f (<[h := x]> m) !! h = Some x /\
  delete h (hm_retain f (<[h := x]> m)) = hm_retain f m.
Proof.
  intros Hm Hf. split.
  - apply hm_retain_Some. by rewrite lookup_insert_eq.
  - unfold hm_retain. rewrite map_filter_insert_True by done. apply delete_insert_id.
    apply eq_None_not_Some. intros [y Hy%map_lookup_filter_Some]. naive_solver.
Qed.

End order.
