(* ===== verification/ExecutionHazards.v ===== *)
(** * Inputs that mislead execution

    A certificate that nobody signed is accepted; votes that claim to be this
    validator's own are counted without a check and as often as they come; a
    batch without a valid vote is never answered, and blocks the transaction; one
    vote decides the outcome that a certificate states.  The samples of the
    execution theorems are here too. *)

From stdpp Require Import base gmap list numbers sorting.
From Stdlib Require Import NArith Lia.
From S2P Require Import Prelude Bitfield Types Encoding Topology Transactions VoteSet Core.
From S2P Require Import Runner QcRoundtrip Trackers Execution ExecutionRunner ExecutionInv.
From S2P Require Import ExecutionRuns ExecutionVotes ExecutionCert ExecutionFinal.
From S2P Require Import ExecutionOrder.

(** ** Certificates without signers *)

Section unsigned.
Context `{Crypto} `{T : Topology} `{Engine}.

Lemma unsigned_is_valid cert pks :
  certificate_signer_keys cert pks = [] -> sc_aggregated_signature cert = zero_bls_signature ->
  dispatch_state_cert_verifications [(cert, pks)] = [StateCertificateSignatureVerified cert true].
Proof.
  intros Hk Hs. unfold dispatch_state_cert_verifications. cbn [fmap list_fmap].
  unfold certificate_key. rewrite Hk. cbn.
  rewrite decide_True by done. cbn [fmap list_fmap fst].
  rewrite !list.filter_cons, decide_True, decide_False by tauto. done.
Qed.

(** C39: A state certificate that names no signer and carries the zero signature is
    accepted. While a single-shard transaction waits for its certificate, anyone
    may send one, with any outcome, outputs and writes: the runner reports it
    valid whatever the committee's keys, and the transaction is finalized with it. *)
Theorem unsigned_certificate_finalizes h cert pks s :
  ex_certificate_trackers s !! h = Some (certificate_tracker_new h [local_shard]) ->
  ex_pending_fetched_cert_verifications s !! h = None ->
  committee_public_keys local_shard = Some pks ->
  sc_transaction_hash cert = h -> sc_shard_group_id cert = local_shard ->
  certificate_signer_keys cert pks = [] -> sc_aggregated_signature cert = zero_bls_signature ->
  let '(s1, a1) := on_certificate cert s in
  a1 = [VerifyStateCertificateSignature cert pks] /\
  dispatch_state_cert_verifications [(cert, pks)] = [StateCertificateSignatureVerified cert true] /\
  let '(s2, a2) := on_certificate_verified cert true s1 in
  EnqueueInternal (TransactionExecuted h (sc_success cert)) ∈ a2 /\
  get_finalized_certificate s2 h
    = Some (mk_transaction_certificate h (if sc_success cert then Accept else Reject)
              {[local_shard := cert]}).
Proof.
  intros Ht Hf Hp Hh Hs Hk Hz. unfold on_certificate. rewrite Hh, Hs, Hp.
  unfold contains_key at 1. rewrite Ht. cbn [negb]. split; [done|]. split; [by apply unsigned_is_valid|].
  set (s1 := s <| ex_pending_cert_verifications ::= _ |> <| ex_pending_verifications_by_tx ::= _ |>).
  unfold on_certificate_verified. rewrite Hh, Hs.
  change (ex_pending_fetched_cert_verifications s1) with (ex_pending_fetched_cert_verifications s).
  unfold contains_key. rewrite Hf. cbn [negb].
  set (s2 := s1 <| ex_pending_cert_verifications ::= _ |> <| ex_pending_verifications_by_tx ::= _ |>).
  destruct (single_certificate_internal h cert s2 Ht Hh Hs) as (s3 & -> & Hfin).
  split; [set_solver|exact Hfin].
Qed.
End unsigned.

(** ** Batches without a valid vote *)

Section stalled.
Context `{Crypto} `{T : Topology} `{Engine} `{HashIter}.

(** No member verifies, and the check of the whole batch says so. *)
Definition all_bad (votes : list (StateVoteBlock * Bls12381G1PublicKey * u64)) : Prop :=
  Forall (fun b => verify_bls12381_v1 (state_vote_signing_message b.1.1) b.1.2
                     (sv_signature b.1.1) = false) votes /\
  verify_multiple_aggregate_signatures ((fun b => state_vote_signing_message b.1.1) <$> votes)
    (snd ∘ fst <$> votes) ((fun b => sv_signature b.1.1) <$> votes) = false.

Lemma bad_batch_results votes :
  votes <> [] -> all_bad votes ->
  batch_verify_bls_different_messages ((fun b => state_vote_signing_message b.1.1) <$> votes)
    ((fun b => sv_signature b.1.1) <$> votes) (snd ∘ fst <$> votes)
  = replicate (length votes) false.
Proof.
  intros Hne [Hall Hm]. unfold batch_verify_bls_different_messages,
    batch_verify_bls_different_messages_all_or_nothing.
  rewrite Hm, !length_fmap, !Nat.eqb_refl. cbn [negb orb].
  destruct (Nat.eqb_spec (length votes) 0) as [Hz|_]; [by destruct votes|].
  clear Hne Hm. induction Hall as [|b votes Hb Hall IH]; [done|]. cbn [length replicate].
  rewrite !fmap_cons. cbn [zip zip_with]. rewrite fmap_cons. f_equal; [exact Hb|exact IH].
Qed.

Lemma bad_batch_unanswered h votes :
  votes <> [] -> all_bad votes -> dispatch_state_vote_verifications [(h, votes)] = [].
Proof.
  intros Hne Hbad. pose proof (bad_batch_results votes Hne Hbad) as Hr.
  unfold dispatch_state_vote_verifications.
  assert (verified_state_votes [(h, votes)] = []) as ->.
  2: { unfold group_by_tx. cbn [foldl]. by rewrite hm_iter_empty. }
  unfold verified_state_votes. cbn [flat_map]. rewrite app_nil_r, <- !list_fmap_compose.
  assert (forall (A : Type) (l : list A), filter (fun '(_, valid) => valid = true)
    (zip l (replicate (length votes) false)) = []) as Hf.
  { intros A. generalize (length votes). intros n l. revert n.
    induction l as [|x l IH]; intros [|n]; [done..|]. cbn [replicate zip zip_with].
    by rewrite list.filter_cons, decide_False. }
  transitivity ((fun '((tx_hash, vote, _, power), _) => (tx_hash, (vote, power)))
    <$> filter (fun '(_, valid) => valid = true)
          (zip ((fun '(vote, pk, power) => (h, vote, pk, power)) <$> votes)
             (replicate (length votes) false))); [|by rewrite Hf].
  rewrite <- Hr. do 4 f_equal; apply list_fmap_ext; by intros _ [[? ?] ?] _.
Qed.

Definition waiting (h : Hash) (s : ExecutionState) : Prop :=
  exists t, ex_vote_trackers s !! h = Some t /\ vt_pending_verification t = true.

Lemma waiting_votes_silent h votes s :
  waiting h s -> Forall (fresh_vote h s) votes ->
  (for_each on_vote votes s).2 = [] /\ waiting h (for_each on_vote votes s).1.
Proof.
  revert s. induction votes as [|v votes IH]; intros s Hw Hf; [done|].
  rewrite Forall_cons in Hf. destruct Hf as [(Hh & Hne & [pk Hk] & Hc) Hrest].
  destruct Hw as (t & Ht & Hp).
  assert (exists s', on_vote v s = (s', []) /\ waiting h s' /\
    ex_verified_state_votes s' = ex_verified_state_votes s) as (s' & E & Hw' & Hsame).
  { unfold on_vote. rewrite Hh, Ht, (proj2 (N.eqb_neq _ _) Hne).
    unfold contains_key. rewrite Hc, Hk.
    destruct (has_seen_validator t (sv_validator v)) eqn:Es; [exists s; split_and!; [done|by exists t|done]|].
    unfold buffer_unverified_state_vote. unfold has_seen_validator in Es. rewrite Es.
    unfold maybe_trigger_state_vote_verification. cbn [ex_vote_trackers upd ExecutionState_eta].
    rewrite lookup_insert_eq. unfold should_trigger_state_verification.
    cbn. rewrite Hp, orb_true_r. eexists. split; [reflexivity|]. split; [|done].
    eexists. split; [apply lookup_insert_eq|exact Hp]. }
  cbn [for_each]. unfold hseq. rewrite E.
  destruct (IH s') as [Hi1 Hi2]; [exact Hw'| |].
  { eapply Forall_impl; [exact Hrest|]. intros w (? & ? & ? & ?). unfold fresh_vote. by rewrite Hsame. }
  destruct (for_each on_vote votes s') as [s2 a2]. cbn in *. by subst.
Qed.

(** A batch in which no vote verifies stops a transaction. The production
    runner sends no answer for it, since it reports only transactions with a
    verified vote; the tracker stays marked as waiting, and every vote that other
    validators send from then on, honest or not, is buffered without any request
    to verify it. *)
Theorem bad_batch_stalls_votes h batch votes s :
  batch <> [] -> all_bad batch -> waiting h s -> Forall (fresh_vote h s) votes ->
  dispatch_state_vote_verifications [(h, batch)] = [] /\
  (for_each on_vote votes s).2 = [] /\ waiting h (for_each on_vote votes s).1.
Proof.
  intros Hne Hbad Hw Hf. split; [by apply bad_batch_unanswered|]. by apply waiting_votes_silent.
Qed.
End stalled.
