(* ===== verification/ExecutionSamples.v ===== *)
(** * Concrete runs of execution

    One single-shard transaction on four validators, from its block to its
    certificate, and one cross-shard transaction on two shards: the inputs at
    which the execution theorems are applied.  Then two runs in which votes
    mislead a validator. *)

From stdpp Require Import base gmap list numbers sorting.
From Stdlib Require Import NArith Lia.
From S2P Require Import Prelude Bitfield Types Encoding Topology Transactions VoteSet Core.
From S2P Require Import Runner QcRoundtrip Trackers Execution ExecutionRunner ExecutionInv.
From S2P Require Import ExecutionRuns ExecutionVotes ExecutionCert ExecutionFinal.
From S2P Require Import ExecutionOrder ExecutionHazards.

(** An engine that executes nothing, and a batch check that never saves the
    individual ones. *)
Definition sample_engine : Engine :=
  {| execute_single_shard := fun _ => None;
     execute_cross_shard := fun _ _ => None;
     verify_multiple_aggregate_signatures := fun _ _ _ => false |}.

#[local] Existing Instances sample_crypto sample_engine canonical_iter.

Definition transfer_hash : Hash := rt_hash sample_transfer.

(** The vote of a validator, signed with the key of [signer]. *)
Definition forged_exec_vote (signer id : ValidatorId) (root : Hash) (success : bool)
    : StateVoteBlock :=
  mk_state_vote transfer_hash 0 root success [] id
    (sign_v1 (signer + 1) (exec_vote_message transfer_hash root 0 success)).
Definition exec_vote (id : ValidatorId) (root : Hash) (success : bool) : StateVoteBlock :=
  forged_exec_vote id id root success.

(** ** From the block to the certificate *)

Definition votes_for_77 : list StateVoteBlock :=
  [exec_vote 1 77 true; exec_vote 2 77 true; exec_vote 3 77 true].

(** The states of validator [id] after the block, after some votes, after the
    answer for all of them, and after the aggregation of a certificate. *)
Definition after_block (id : ValidatorId) : ExecutionState :=
  (@execution_on_block_committed _ (sample_topology id) _ 9 5 0 [sample_transfer]
     (execution_new (id + 1))).1.
Definition after_votes (id : ValidatorId) (votes : list StateVoteBlock) : ExecutionState :=
  foldl (fun s v => (@on_vote (sample_topology id) v s).1) (after_block id) votes.
Definition after_batch (id : ValidatorId) (votes : list StateVoteBlock) : ExecutionState :=
  (@on_state_votes_verified (sample_topology id) transfer_hash ((fun v => (v, 1)) <$> votes)
     (after_votes id votes)).1.

Definition certificate_of (votes : list StateVoteBlock) : StateCertificate :=
  default (mk_state_certificate 0 0 [] [] 0 false 0 (SignerBitfieldOps.new 0) 0)
    (@aggregate_state_certificate _ (sample_topology 0) transfer_hash 0 77 votes [1] 3 4).
Definition after_certificate (votes : list StateVoteBlock) : ExecutionState :=
  (on_state_certificate_aggregated transfer_hash (certificate_of votes) (after_batch 0 votes)).1.

(** What vouches for a certificate: it verifies under the committee's keys. *)
Definition sample_vouched (c : StateCertificate) : Prop :=
  certificate_valid c [1; 2; 3; 4] = true.

Notation sample_run := (@exec_run _ (sample_topology 0) _ sample_vouched (fun _ => False))
  (only parsing).

Lemma after_certificate_run : sample_run 1 (after_certificate votes_for_77).
Proof.
  eapply er_step; [|unfold after_certificate; apply es_aggregated; vm_compute; reflexivity].
  eapply er_step; [|unfold after_batch; apply es_votes].
  unfold after_votes, votes_for_77. cbn [foldl].
  do 3 (eapply er_step; [|apply es_vote]). eapply er_step; [|unfold after_block; apply es_block].
  apply er_new.
Qed.

(** The finalized transaction leaves no trace once its certificate is committed. *)
Lemma removed_without_trace_witness :
  get_finalized_certificate (after_certificate votes_for_77) transfer_hash <> None /\
  trace (remove_finalized_certificate transfer_hash (after_certificate votes_for_77)) transfer_hash
  = (None, None, None, None, None, None, None, None, None).
Proof.
  split; [vm_compute; discriminate|].
  destruct (@removed_without_trace _ (sample_topology 0) _ sample_vouched (fun _ => False) 1
              (after_certificate votes_for_77) transfer_hash after_certificate_run) as (Ht & _).
  exact Ht.
Defined.

(** Its certificate carries the one proof of shard 0 and accepts it. *)
Lemma finalized_certificate_sound_witness :
  exists c root, get_finalized_certificate (after_certificate votes_for_77) transfer_hash = Some c /\
    forall sh p, tc_shard_proofs c !! sh = Some p ->
      sample_vouched p /\ sc_outputs_merkle_root p = root.
Proof.
  destruct (get_finalized_certificate (after_certificate votes_for_77) transfer_hash) as [c|] eqn:E.
  2: { exfalso. revert E. vm_compute. discriminate. }
  destruct (@finalized_certificate_sound _ (sample_topology 0) _ sample_vouched (fun _ => False) 1
              (after_certificate votes_for_77) transfer_hash c after_certificate_run E
              (fun f => f)) as (_ & tx & root & _ & _ & Hp & _).
  exists c, root. split; [reflexivity|]. intros sh p Hsh.
  destruct (Hp sh p Hsh) as (_ & _ & Hv & Hr). split; [exact Hv|exact Hr].
Defined.

Lemma votes_for_77_ok :
  Forall (@vote_for _ (sample_topology 0) transfer_hash 0 77 true) (exec_vote 2 77 true :: votes_for_77).
Proof.
  repeat (apply Forall_cons; split; [repeat (split; [vm_compute; reflexivity|]);
    (split; [apply (bool_decide_unpack _); vm_compute; reflexivity|]);
    eexists; split; vm_compute; reflexivity|]). apply Forall_nil_2.
Qed.



(** Speculation on the transaction before its block; then a certificate that
    writes the node it reads, and one that does not. *)
Definition speculated : ExecutionState :=
  (on_speculative_execution_complete 9 [transfer_hash]
     (@trigger_speculative_execution (sample_topology 0) 9 5 [sample_transfer] (execution_new 1)).1).1.

Definition writing (n : NodeId) : TransactionCertificate :=
  mk_transaction_certificate 60 Accept
    {[0 := mk_state_certificate 60 0 [] [mk_substate_write n 0 [] []] 0 true 0
             (SignerBitfieldOps.new 4) 3]}.

Lemma commit_invalidates_speculation_witness :
  has_speculative_result speculated transfer_hash = true /\
  has_speculative_result (invalidate_speculative_on_commit (writing 1) speculated) transfer_hash
  = false /\
  forall spec,
    ex_speculative_results (invalidate_speculative_on_commit (writing 2) speculated) !! transfer_hash
    = Some spec -> spr_read_set spec ## written_nodes (writing 2).
Proof.
  split; [vm_compute; reflexivity|]. split; [vm_compute; reflexivity|]. intros spec.
  destruct (@commit_invalidates_speculation _ (sample_topology 0) _ sample_vouched (fun _ => False) 1
              speculated (writing 2) transfer_hash spec) as [_ Hd]; [|exact Hd].
  eapply er_step; [|unfold speculated; apply es_speculated].
  eapply er_step; [|apply es_speculate]. apply er_new.
Defined.

(** A transaction that writes a node of either shard, its provisions and its
    block, in both orders. *)
Definition spanning_transfer : RoutableTransaction :=
  @new_transaction sample_crypto [4; 5; 6] [2] [2; N.shiftl 2 120].


(** ** Two validators of the shard *)

Definition deliver (id : ValidatorId) (f : vflow) (v : StateVoteBlock) : vflow :=
  let r := @on_vote (sample_topology id) v (vf_state f) in
  mk_vflow r.1 (batches r.2 ++ vf_inflight f) ({[sv_validator v]} ∪ vf_delivered f).

Definition delivered (id : ValidatorId) (votes : list StateVoteBlock) : vflow :=
  foldl (deliver id) (mk_vflow (after_block id) [] ∅) votes.

Lemma deliver_run id h f v :
  sv_transaction_hash v = h -> sv_validator v ∉ vf_delivered f ->
  @vflow_run (sample_topology id) h f -> @vflow_run (sample_topology id) h (deliver id f v).
Proof. intros Hv Hn Hf. eapply vr_step; [exact Hf|]. destruct f. by apply vs_deliver. Qed.

(** Validator 0 hears of 1, 2 and 3; validator 1 of 3, 0 and 2. *)
Definition flow_0 : vflow := delivered 0 votes_for_77.
Definition flow_1 : vflow :=
  delivered 1 [exec_vote 3 77 true; exec_vote 0 77 true; exec_vote 2 77 true].

Ltac sample_delivery :=
  unfold flow_0, flow_1, delivered, votes_for_77; cbn [foldl];
  do 3 (apply deliver_run; [reflexivity|apply (bool_decide_unpack _); vm_compute; reflexivity|]);
  eapply vr_start; vm_compute; reflexivity.

Lemma flow_0_run : @vflow_run (sample_topology 0) transfer_hash flow_0.
Proof. sample_delivery. Qed.
Lemma flow_1_run : @vflow_run (sample_topology 1) transfer_hash flow_1.
Proof. sample_delivery. Qed.

Definition answer_of (id : ValidatorId) (f : vflow) : ExecutionState * list Action :=
  @on_state_votes_verified (sample_topology id) transfer_hash (unkey <$> vf_inflight f) (vf_state f).

Lemma answer_step id f :
  @vflow_step (sample_topology id) transfer_hash f (answer_of id f).2
    (mk_vflow (answer_of id f).1 (batches (answer_of id f).2) (vf_delivered f)).
Proof.
  destruct f as [s fl D]. unfold answer_of. cbn [vf_state vf_inflight vf_delivered].
  rewrite <- (app_nil_r (batches _)). apply vs_answer with fl; [by rewrite app_nil_r|done].
Qed.

(** The root and the votes of the certificate that a list of actions asks for. *)
Definition asked (acts : list Action) : list (Hash * list StateVoteBlock) :=
  filter_map (fun a => match a with
                       | AggregateStateCertificate _ _ root votes _ _ _ => Some (root, votes)
                       | _ => None
                       end) acts.

Lemma both_delivered (D1 D2 : gset ValidatorId) (C : list ValidatorId) :
  D1 ∪ D2 ⊆ list_to_set C -> forall v, v ∈ D1 \/ v ∈ D2 -> v ∈ C.
Proof. set_solver. Qed.

Lemma all_77 votes1 votes2 :
  forallb (fun v => sv_state_root v =? 77) (votes1 ++ votes2) = true ->
  forall v1 v2, v1 ∈ votes1 -> v2 ∈ votes2 -> sv_state_root v1 = sv_state_root v2.
Proof.
  rewrite forallb_forall. intros Hf v1 v2 Hv1 Hv2.
  transitivity 77; [|symmetry]; apply N.eqb_eq, Hf, list_elem_of_In; set_solver.
Qed.


(** ** Unsigned certificates and bad batches *)

Lemma unsigned_certificate_finalizes_witness :
  let cert := mk_state_certificate transfer_hash 0 [] [] 666 true 0 (SignerBitfieldOps.new 4) 0 in
  exists s2 a2, on_certificate_verified cert true
      (@on_certificate (sample_topology 0) cert (after_block 0)).1 = (s2, a2) /\
    EnqueueInternal (TransactionExecuted transfer_hash true) ∈ a2.
Proof.
  cbv zeta. set (cert := mk_state_certificate _ _ _ _ _ _ _ _ _).
  pose proof (@unsigned_certificate_finalizes _ (sample_topology 0) _ transfer_hash cert [1; 2; 3; 4]
                (after_block 0)) as Hu.
  destruct (@on_certificate (sample_topology 0) cert (after_block 0)) as [s1 a1].
  destruct Hu as (_ & _ & Hu); [vm_compute; reflexivity..|]. cbn [fst].
  destruct (on_certificate_verified cert true s1) as [s2 a2].
  exists s2, a2. split; [reflexivity|]. exact (proj1 Hu).
Defined.

(** Somebody signs for validators 1, 2 and 3 with a key of their own; then the
    correct votes of the three arrive again. *)
Lemma bad_batch_stalls_votes_witness :
  let bad := (fun id => (forged_exec_vote 8 id 66 true, id + 1, 1)) <$> [1; 2; 3] in
  dispatch_state_vote_verifications [(transfer_hash, bad)] = [] /\
  (for_each (@on_vote (sample_topology 0)) votes_for_77 (after_votes 0 bad.*1.*1)).2 = [].
Proof.
  cbv zeta. set (bad := _ <$> _).
  destruct (@bad_batch_stalls_votes _ (sample_topology 0) _ _ transfer_hash bad votes_for_77
              (after_votes 0 bad.*1.*1)) as (Hd & Hv & _); [..|exact (conj Hd Hv)].
  - discriminate.
  - split; [apply (bool_decide_unpack _); vm_compute; reflexivity|reflexivity].
  - eexists. split; vm_compute; reflexivity.
  - repeat (apply Forall_cons; split; [repeat (split; [vm_compute; first [reflexivity | discriminate
      | eexists; reflexivity]|]); vm_compute; reflexivity|]). apply Forall_nil_2.
Defined.

(** ** Votes that mislead *)

(** Votes in a validator's own name are neither verified nor counted once.
    Somebody sends validator 0 the same vote three times, in the name of
    validator 0, with a signature of another key: each delivery adds validator
    0's power again, the third one makes the validator ask for a certificate, and
    the transaction is finalized for a root that no member of the committee
    voted for, with a certificate that no other validator accepts. *)
Theorem own_vote_replays :
  let vote := forged_exec_vote 8 0 77 true in
  let s := (for_each (@on_vote (sample_topology 0)) [vote; vote] (after_block 0)).1 in
  exists s3 acts tx_cert,
    @on_vote (sample_topology 0) vote s
      = (s3, AggregateStateCertificate transfer_hash 0 77 [vote; vote; vote] [1] 3 4 :: acts) /\
    get_finalized_certificate
      (on_state_certificate_aggregated transfer_hash (certificate_of [vote; vote; vote]) s3).1
      transfer_hash = Some tx_cert /\ tc_decision tx_cert = Accept /\
    dispatch_state_cert_verifications [(certificate_of [vote; vote; vote], [1; 2; 3; 4])]
      = [StateCertificateSignatureVerified (certificate_of [vote; vote; vote]) false].
Proof. cbv zeta. eexists _, _, _. split_and!; [vm_compute; reflexivity..]. Qed.

(** One vote decides the outcome. Votes are counted by the root only, and the
    certificate takes the outcome and the writes of the first of them. Validators
    1 and 2 vote that the transaction succeeded; validator 3 votes for the same
    root that it failed, and its vote comes first. All three signatures are good:
    the quorum is reached, the validator finalizes the transaction as rejected,
    and the certificate it broadcasts is refused by every other shard. *)
Theorem one_vote_flips_outcome :
  let votes := [exec_vote 3 77 false; exec_vote 1 77 true; exec_vote 2 77 true] in
  exists s1 s2 batch tx_cert,
    for_each (@on_vote (sample_topology 0)) votes (after_block 0)
      = (s1, [VerifyAndAggregateStateVotes transfer_hash batch]) /\
    dispatch_state_vote_verifications [(transfer_hash, batch)]
      = [StateVotesVerifiedAndAggregated transfer_hash (unkey <$> batch)] /\
    @on_state_votes_verified (sample_topology 0) transfer_hash (unkey <$> batch) s1
      = (s2, [AggregateStateCertificate transfer_hash 0 77 votes [1] 3 4]) /\
    get_finalized_certificate
      (on_state_certificate_aggregated transfer_hash (certificate_of votes) s2).1 transfer_hash
      = Some tx_cert /\ tc_decision tx_cert = Reject /\
    dispatch_state_cert_verifications [(certificate_of votes, [1; 2; 3; 4])]
      = [StateCertificateSignatureVerified (certificate_of votes) false].
Proof. cbv zeta. eexists _, _, _, _. split_and!; [vm_compute; reflexivity..]. Qed.
