(* ===== verification/Node.v ===== *)
(** * The node state machine (crates/node/src/state.rs)

    A node is one instance of every component: consensus, execution, mempool,
    provisions and livelock detection.  [handle] dispatches an event to them;
    several events involve more than one, above all the commit of a block.
    The events of the global consensus and of epoch changes, which the source
    only logs, are not constructors of [Event]. *)

From stdpp Require Import base gmap list numbers sorting.
From Stdlib Require Import NArith Lia.
From S2P Require Import Prelude Bitfield Types Topology Transactions Core PendingBlock BftState.
From S2P Require Import BftVote BftCommit BftPropose Livelock Provisions Mempool Execution.

Record NodeState := mk_node_state {
  n_bft : BftState;
  n_execution : ExecutionState;
  n_mempool : MempoolState;
  n_provisions : ProvisionCoordinator;
  n_livelock : LivelockState;
  n_last_committed_state : u64 * u64 * Hash;
  n_now : Duration
}.

#[export] Instance NodeState_eta : Eta NodeState := fun s =>
  mk_node_state (n_bft s) (n_execution s) (n_mempool s) (n_provisions s) (n_livelock s)
    (n_last_committed_state s) (n_now s).

Abbreviation node := (handler NodeState Action) (only parsing).

(** ** Delegation to one component *)

Definition in_bft (f : handler BftState Action) : node := fun s =>
  let '(c, acts) := f (n_bft s) in (s <| n_bft := c |>, acts).
Definition in_execution (f : handler ExecutionState Action) : node := fun s =>
  let '(c, acts) := f (n_execution s) in (s <| n_execution := c |>, acts).
Definition in_mempool (f : handler MempoolState Action) : node := fun s =>
  let '(c, acts) := f (n_mempool s) in (s <| n_mempool := c |>, acts).
Definition in_provisions (f : handler ProvisionCoordinator Action) : node := fun s =>
  let '(c, acts) := f (n_provisions s) in (s <| n_provisions := c |>, acts).
Definition in_livelock (f : LivelockState -> LivelockState) : node :=
  hupd (fun s => s <| n_livelock ::= f |>).

(** ** Constants *)

Definition TOMBSTONE_RETENTION_BLOCKS : u64 := 1000.
Definition SPECULATIVE_MAX_AGE : Duration := from_secs 30.
Definition execution_timeout_blocks : u64 := 30.
Definition max_retries : N := 3.

Section node.
Context `{Crypto} `{T : Topology} `{HashIter}.

Definition node_with_speculative_config (signing_key : Bls12381G1PrivateKey) (bft_config : BftConfig)
    (recovered : RecoveredState) (speculative_max_txs : usize) (view_change_cooldown_rounds : u64)
    (mempool_config : MempoolConfig) : NodeState :=
  let '(jmt_version, jmt_root) := default (0, ZERO) (rec_jmt_state recovered) in
  {| n_bft := bft_new signing_key bft_config recovered;
     n_execution := with_speculative_config signing_key speculative_max_txs
                      view_change_cooldown_rounds;
     n_mempool := mempool_with_config mempool_config;
     n_provisions := provision_coordinator_new;
     n_livelock := livelock_new local_shard;
     n_last_committed_state := (rec_committed_height recovered, jmt_version, jmt_root);
     n_now := 0 |}.

Definition node_new (signing_key : Bls12381G1PrivateKey) (bft_config : BftConfig)
    (recovered : RecoveredState) : NodeState :=
  node_with_speculative_config signing_key bft_config recovered DEFAULT_SPECULATIVE_MAX_TXS
    DEFAULT_VIEW_CHANGE_COOLDOWN_ROUNDS default_mempool_config.

Definition node_initialize_genesis (genesis : Block) : node := in_bft (initialize_genesis genesis).

(** ** Timers and proposals *)

Definition on_cleanup_timer : node := fun s =>
  (hemit [SetTimer CleanupTimer (cfg_cleanup_interval (s_config (n_bft s)))] ;>
   in_livelock livelock_cleanup ;>
   in_bft (fun b => (b, check_pending_block_fetches b)) ;>
   in_bft check_sync_health ;>
   (fun s => in_mempool (hupd (fun m =>
      (cleanup_old_tombstones (s_committed_height (n_bft s)) TOMBSTONE_RETENTION_BLOCKS m).1)) s) ;>
   in_execution (hupd (cleanup_stale_speculative SPECULATIVE_MAX_AGE))) s.

(** [None] is the panic of [build_commitment_proof]. *)
Fixpoint commitment_proofs_of (p : ProvisionCoordinator) (txs : list RoutableTransaction)
    (proofs : gmap Hash CommitmentProof) : option (gmap Hash CommitmentProof) :=
  match txs with
  | [] => Some proofs
  | tx :: txs =>
      proof ← build_commitment_proof p (rt_hash tx);
      commitment_proofs_of p txs
        (match proof with Some proof => <[rt_hash tx := proof]> proofs | None => proofs end)
  end.

Definition build_commitment_proofs (ready_txs : ReadyTransactions) (s : NodeState)
    : option (gmap Hash CommitmentProof) :=
  commitment_proofs_of (n_provisions s) (ready_priority ready_txs) ∅.

Definition timed_out (s : NodeState) : list TransactionAbort :=
  get_timed_out_transactions (n_mempool s) (s_committed_height (n_bft s) +w 1)
    execution_timeout_blocks max_retries.

Definition on_proposal_timer_fired (s : NodeState) : option (NodeState * list Action) :=
  match check_round_timeout (n_bft s) with
  | Some (b, acts) =>
      let s := s <| n_bft := b |> in
      Some (s <| n_execution ::= on_view_change (s_committed_height b +w 1) |>, acts)
  | None =>
      let '(pending_txs, pending_certs) := pending_block_tx_cert_counts (n_bft s) in
      let certificates := get_finalized_certificates (n_execution s) in
      let ready_txs :=
        ready_transactions (n_mempool s) (cfg_max_transactions_per_block (s_config (n_bft s)))
          pending_txs (pending_certs + length certificates) in
      commitment_proofs ← build_commitment_proofs ready_txs s;
      Some (in_bft (on_proposal_timer ready_txs (ll_pending_deferrals (n_livelock s)) (timed_out s)
                      certificates commitment_proofs) s)
  end.

Definition on_qc_formed_event (block_hash : Hash) (qc : QuorumCertificate) (s : NodeState)
    : option (NodeState * list Action) :=
  let '(pending_tx_count, pending_cert_count) := pending_commit_counts (n_bft s) qc in
  let ready_txs :=
    ready_transactions (n_mempool s) (cfg_max_transactions_per_block (s_config (n_bft s)))
      pending_tx_count pending_cert_count in
  commitment_proofs ← build_commitment_proofs ready_txs s;
  Some (in_bft (on_qc_formed block_hash qc ready_txs (ll_pending_deferrals (n_livelock s))
                  (timed_out s) (get_finalized_certificates (n_execution s)) commitment_proofs) s).

(** ** Headers *)

(** The checks on the load, made for the next block only. *)
Definition exceeds_in_flight_limits (g : BlockHeaderGossip) (s : NodeState) : bool :=
  let total_tx_count :=
    (length (bg_retry_hashes g) + length (bg_priority_hashes g)
     + length (bg_transaction_hashes g))%nat in
  if bh_height (bg_header g) =? s_committed_height (n_bft s) +w 1 then
    let current_in_flight := in_flight (n_mempool s) in
    let new_in_flight :=
      (current_in_flight + total_tx_count - length (bg_certificate_hashes g))%nat in
    (Nat.ltb (max_in_flight_hard_limit (mp_config (n_mempool s))) new_in_flight
     && Nat.ltb current_in_flight new_in_flight)
    || (Nat.leb (max_in_flight (mp_config (n_mempool s))) current_in_flight
        && negb (Nat.eqb (length (bg_transaction_hashes g)) 0))
  else false.

Definition on_header_received (g : BlockHeaderGossip) : node := fun s =>
  if exceeds_in_flight_limits g s then (s, [])
  else
    let mempool_txs := transactions_by_hash (n_mempool s) in
    let local_certs := finalized_certificates_by_hash (n_execution s) in
    let transactions :=
      filter_map (fun h => mempool_txs !! h)
        (bg_retry_hashes g ++ bg_priority_hashes g ++ bg_transaction_hashes g) in
    let '(s, spec_actions) :=
      in_execution (trigger_speculative_execution (header_hash (bg_header g))
                      (bh_height (bg_header g)) transactions) s in
    let '(s, actions) :=
      in_bft (on_block_header (bg_header g) (bg_retry_hashes g) (bg_priority_hashes g)
                (bg_transaction_hashes g) (bg_certificate_hashes g) (bg_deferred g) (bg_aborted g)
                (bg_commitment_proofs g) mempool_txs local_certs) s in
    (s, actions ++ spec_actions).

(** ** Commits *)

(** [CrossShardTxRegistered], handed to the coordinator. *)
Definition register_transaction (a : Action) : node :=
  match a with
  | EnqueueInternal (CrossShardTxRegistered tx_hash required_shards quorum_thresholds height) =>
      in_provisions (on_tx_registered tx_hash
        (mk_tx_registration required_shards quorum_thresholds height ∅))
  | _ => hskip
  end.

Definition track_cross_shard (height : BlockHeight) (tx : RoutableTransaction) : node := fun s =>
  if is_cross_shard (n_livelock s) tx
  then in_livelock (on_cross_shard_committed tx height) s
  else (s, []).

Definition on_block_committed_event (block_hash : Hash) (height : u64) (block : Block) : node :=
  for_each (track_cross_shard height) (all_transactions block) ;>
  in_livelock (livelock_on_block_committed block) ;>
  for_each (fun d => in_execution (hupd (cleanup_transaction (td_tx_hash d)))) (bl_deferred block) ;>
  for_each (fun a => in_execution (hupd (cleanup_transaction (ta_tx_hash a)))) (bl_aborted block) ;>
  for_each (fun c => in_execution (hupd (fun e =>
              invalidate_speculative_on_commit c
                (remove_finalized_certificate (tc_transaction_hash c) e))))
    (bl_certificates block) ;>
  (fun s =>
     let '(s, exec_actions) :=
       in_execution (execution_on_block_committed block_hash height
                       (bh_timestamp (bl_header block)) (all_transactions block)) s in
     (for_each register_transaction exec_actions ;> hemit exec_actions) s) ;>
  in_mempool (on_block_committed_full block) ;>
  in_provisions (provisions_on_block_committed block).

(** ** Other events that concern several components *)

Definition on_state_commit_complete_event (height state_version : u64) (state_root : Hash) : node :=
  hupd (fun s =>
    let '(prev_height, prev_version, _) := n_last_committed_state s in
    if (prev_height <? height) || ((height =? 0) && (prev_version <? state_version))
    then s <| n_last_committed_state := (height, state_version, state_root) |> else s) ;>
  in_bft (on_state_commit_complete state_version state_root).

Definition on_transaction_executed_event (tx_hash : Hash) (accepted : bool) : node :=
  in_mempool (on_transaction_executed tx_hash accepted) ;>
  (fun s => in_bft (check_pending_blocks_for_certificate tx_hash
                      (finalized_certificates_by_hash (n_execution s))) s).

Definition on_transaction_gossip_event (tx : RoutableTransaction) : node :=
  if negb (involves_local_shard tx) then hskip
  else
    in_mempool (on_transaction_gossip tx) ;>
    (fun s => in_bft (check_pending_blocks_for_transaction (rt_hash tx)
                        (transactions_by_hash (n_mempool s))) s).

Definition on_gossiped_certificate (certificate : TransactionCertificate) : node :=
  in_execution (hupd (cancel_certificate_building (tc_transaction_hash certificate))) ;>
  in_execution (hupd (add_verified_certificate certificate)) ;>
  hemit [EnqueueInternal (TransactionExecuted (tc_transaction_hash certificate)
                            (bool_decide (tc_decision certificate = Accept)))].

(** ** The dispatch *)

(** The events whose handlers do not build commitment proofs. *)
Definition dispatch (event : Event) : node :=
  match event with
  | CleanupTimerFired => on_cleanup_timer
  | BlockHeaderReceived g => on_header_received g
  | BlockVoteReceived vote => in_bft (on_block_vote vote)
  | BlockReadyToCommit block_hash qc => in_bft (on_block_ready_to_commit block_hash qc)
  | QuorumCertificateResult block_hash qc votes => in_bft (on_qc_result block_hash qc votes)
  | QcSignatureVerified block_hash valid => in_bft (on_qc_signature_verified block_hash valid)
  | CycleProofVerified block_hash i valid => in_bft (on_cycle_proof_verified block_hash i valid)
  | StateRootVerified block_hash valid => in_bft (on_state_root_verified block_hash valid)
  | TransactionRootVerified block_hash valid =>
      in_bft (on_transaction_root_verified block_hash valid)
  | ProposalBuilt height round block block_hash =>
      in_bft (on_proposal_built height round block block_hash)
  | StateCommitComplete height version root => on_state_commit_complete_event height version root
  | BlockCommitted block_hash height block => on_block_committed_event block_hash height block
  | StateProvisionReceived provision => in_provisions (on_provision_received provision)
  | ProvisionsVerifiedAndAggregated tx_hash source_shard verified proof =>
      in_mempool (hupd (on_provision_verified tx_hash)) ;>
      in_provisions (on_provisions_verified_and_aggregated tx_hash source_shard verified proof)
  | CrossShardTxRegistered _ _ _ _ => register_transaction (EnqueueInternal event)
  | CrossShardTxCompleted tx_hash => in_provisions (on_tx_completed tx_hash)
  | CrossShardTxAborted tx_hash => in_provisions (on_tx_aborted tx_hash)
  | ProvisionQuorumReached tx_hash source_shard proof =>
      in_livelock (on_provision_quorum_reached tx_hash source_shard proof)
  | ProvisioningComplete tx_hash provisions =>
      in_execution (on_provisioning_complete tx_hash provisions)
  | StateVoteReceived vote => in_execution (on_vote vote)
  | StateCertificateReceived cert => in_execution (on_certificate cert)
  | StateVotesVerifiedAndAggregated tx_hash votes =>
      in_execution (on_state_votes_verified tx_hash votes)
  | StateCertificateSignatureVerified certificate valid =>
      in_execution (on_certificate_verified certificate valid)
  | StateCertificateAggregated tx_hash certificate =>
      in_execution (on_state_certificate_aggregated tx_hash certificate)
  | SpeculativeExecutionComplete block_hash tx_hashes =>
      in_execution (on_speculative_execution_complete block_hash tx_hashes)
  | SubmitTransaction tx =>
      if involves_local_shard tx then in_mempool (on_submit_transaction tx) else hskip
  | TransactionExecuted tx_hash accepted => on_transaction_executed_event tx_hash accepted
  | TransactionGossipReceived tx => on_transaction_gossip_event tx
  | StateEntriesFetched tx_hash entries => in_execution (on_state_entries_fetched tx_hash entries)
  | SyncBlockReadyToApply block qc => in_bft (on_sync_block_ready_to_apply block qc)
  | SyncComplete _ =>
      in_bft on_sync_complete ;>
      (fun s => hemit [SetTimer CleanupTimer (cfg_cleanup_interval (s_config (n_bft s)))] s)
  | ChainMetadataFetched height hash qc => in_bft (on_chain_metadata_fetched height hash qc)
  | TransactionStatusChanged tx_hash status => in_mempool (update_status tx_hash status)
  | TransactionReceived block_hash transactions =>
      in_bft (on_transaction_fetch_received block_hash transactions)
  | CertificateReceived block_hash certificates =>
      for_each (fun c => in_execution (verify_fetched_certificate block_hash c)) certificates
  | FetchedCertificateVerified block_hash certificate =>
      in_execution (hupd (cancel_certificate_building (tc_transaction_hash certificate))) ;>
      in_bft (on_certificate_fetch_received block_hash [certificate])
  | GossipedCertificateVerified certificate => on_gossiped_certificate certificate
  | TransactionsExecuted _ _ | CrossShardTransactionsExecuted _ | MerkleRootComputed _ _
  | BlockFetched _ _ | SyncBlockReceived _ _ | TransactionCertificateReceived _
  | GossipedCertificateSignatureVerified _ _ _ => hskip
  | ProposalTimerFired | QuorumCertificateFormed _ _ => hskip
  end.

(** [StateMachine::handle]; [None] is a panic. *)
Definition handle (event : Event) (s : NodeState) : option (NodeState * list Action) :=
  match event with
  | ProposalTimerFired => on_proposal_timer_fired s
  | QuorumCertificateFormed block_hash qc => on_qc_formed_event block_hash qc s
  | _ => Some (dispatch event s)
  end.

Definition node_set_time (now : Duration) (s : NodeState) : NodeState :=
  s <| n_now := now |>
    <| n_bft ::= set_time now |>
    <| n_execution ::= execution_set_time now |>
    <| n_mempool ::= mempool_set_time now |>
    <| n_provisions ::= provisions_set_time now |>
    <| n_livelock ::= livelock_set_time now |>.
End node.
