(* ===== verification/NodeEvents.v ===== *)
(** * The internal events of a node

    Which [EnqueueInternal] events each component emits, and that handling an
    internal event emits only internal events of a smaller rank: in whatever
    order a runner takes them, the internal events that one event sets off
    run out. *)

From stdpp Require Import base gmap list numbers sorting.
From Stdlib Require Import NArith Lia Relation_Operators Lexicographic_Product Wf_nat Inclusion Inverse_Image.
From S2P Require Import Prelude Bitfield Types Topology Transactions Core VoteSet PendingBlock.
From S2P Require Import BftState BftVote BftCommit BftPropose Livelock Provisions Mempool.
From S2P Require Import Trackers Execution Node.

(** ** Handlers all of whose actions satisfy a predicate *)

Section emits.
Context {St : Type} (P : Action -> Prop).
Implicit Types (f g : handler St Action).

Definition emits f : Prop := forall s, Forall P (f s).2.

Lemma emits_skip : emits hskip.
Proof. intros s. apply Forall_nil_2. Qed.
Lemma emits_upd u : emits (hupd u).
Proof. intros s. apply Forall_nil_2. Qed.
Lemma emits_emit acts : Forall P acts -> emits (hemit acts).
Proof. by intros Ha s. Qed.

Lemma emits_seq_at f g s :
  Forall P (f s).2 -> Forall P (g (f s).1).2 -> Forall P ((f ;> g) s).2.
Proof.
  unfold hseq. destruct (f s) as [s1 a1]. cbn [fst snd]. intros Hf Hg.
  destruct (g s1) as [s2 a2]. by apply Forall_app_2.
Qed.

Lemma emits_seq f g : emits f -> emits g -> emits (f ;> g).
Proof. intros Hf Hg s. by apply emits_seq_at. Qed.

Lemma emits_for_each {A} (f : A -> handler St Action) xs :
  (forall x, emits (f x)) -> emits (for_each f xs).
Proof. intros Hf. induction xs as [|x xs IH]; [apply emits_skip|by apply emits_seq]. Qed.
End emits.

Create HintDb emits.

(** Split a handler into its branches; the lemmas on what it calls are in the
    hint database. *)
Ltac emits_step :=
  match goal with
  | |- Forall _ [] => apply Forall_nil_2
  | |- Forall _ (_ :: _) => apply Forall_cons_2; [exact I|]
  | |- Forall _ (_ ++ _) => apply Forall_app_2
  | |- Forall _ (hskip _).2 => apply Forall_nil_2
  | |- Forall _ (hupd _ _).2 => apply Forall_nil_2
  | |- Forall _ (hemit _ _).2 => unfold hemit; cbn [snd]
  | |- Forall _ ((_ ;> _) _).2 => apply emits_seq_at
  | |- Forall _ (for_each _ _ _).2 => apply emits_for_each; intros ? ?
  | |- Forall _ (_, _).2 => cbn [snd]
  | |- Forall _ (snd (let _ := _ in _)) => cbv zeta
  | |- Forall _ (let _ := _ in _) => cbv zeta
  | |- Forall ?P (snd (match ?x with (_, _) => _ end)) =>
      let Hx := fresh "Hx" in
      assert (Forall P x.2) as Hx by eauto with emits nocore; destruct x; cbn [snd] in Hx
  | |- Forall _ (snd (match ?x with _ => _ end)) => destruct x eqn:?
  | |- Forall _ (snd ((match ?x with _ => _ end) _)) => destruct x eqn:?
  | |- Forall _ (match ?x with _ => _ end) => destruct x eqn:?
  | |- Forall _ (_ <$> _) => apply Forall_fmap, Forall_true; intros; exact I
  | |- Forall _ _ => solve [eauto with emits nocore]
  end.
Ltac emits_solve := intros; repeat emits_step.

(** ** Consensus *)

(** No internal event but commits. *)
Definition only_commits (a : Action) : Prop :=
  match a with
  | EnqueueInternal (BlockCommitted _ _ _) => True
  | EnqueueInternal _ => False
  | _ => True
  end.

Section consensus.
Context `{Crypto} `{T : Topology} `{HashIter}.
Implicit Types (s : BftState).

Lemma emits_trigger_votes hash s : Forall only_commits (maybe_trigger_vote_verification hash s).2.
Proof. unfold maybe_trigger_vote_verification. emits_solve. Qed.
#[local] Hint Resolve emits_trigger_votes : emits.

Lemma emits_block_vote vote s : Forall only_commits (on_block_vote_internal vote s).2.
Proof. unfold on_block_vote_internal. emits_solve. Qed.
#[local] Hint Resolve emits_block_vote : emits.

Lemma emits_create_vote hash height round s : Forall only_commits (create_vote hash height round s).2.
Proof. unfold create_vote. emits_solve. Qed.
#[local] Hint Resolve emits_create_vote : emits.

Lemma emits_verifications hash block s : Forall only_commits (initiate_verifications hash block s).2.
Proof.
  unfold initiate_verifications, when, initiate_cycle_proof_verification,
    initiate_state_root_verification, initiate_transaction_root_verification.
  emits_solve. apply Forall_forall. intros a Ha.
  by apply elem_of_lookup_imap in Ha as (i & d & -> & _).
Qed.
#[local] Hint Resolve emits_verifications : emits.

Lemma emits_try_vote hash height round s :
  Forall only_commits (try_vote_on_block hash height round s).2.
Proof. unfold try_vote_on_block. emits_solve. Qed.
#[local] Hint Resolve emits_try_vote : emits.

Lemma emits_trigger_or_vote hash s : Forall only_commits (trigger_qc_verification_or_vote hash s).2.
Proof. unfold trigger_qc_verification_or_vote. emits_solve. Qed.
#[local] Hint Resolve emits_trigger_or_vote : emits.

(** *** The commit cycle *)

Lemma emits_cancel l : Forall only_commits (CancelFetch <$> l).
Proof. apply Forall_fmap. by apply Forall_true. Qed.
#[local] Hint Resolve emits_cancel : emits.

Lemma emits_commit_loop fuel hash s : Forall only_commits (commit_loop fuel hash s).2.
Proof.
  revert hash s. induction fuel as [|fuel IH]; intros; cbn [commit_loop]; unfold commit_one; emits_solve.
Qed.
#[local] Hint Resolve emits_commit_loop : emits.

Section open_cycle.
Context (commit : Hash -> handler BftState Action).
Hypothesis commit_emits : forall hash s, Forall only_commits (commit hash s).2.
#[local] Hint Resolve commit_emits : emits.

Lemma emits_ready_with hash qc s :
  Forall only_commits (on_block_ready_to_commit_with commit hash qc s).2.
Proof. unfold on_block_ready_to_commit_with. emits_solve. Qed.
#[local] Hint Resolve emits_ready_with : emits.

Lemma emits_drain_commits fuel s :
  Forall only_commits (drain_pending_commits_loop commit fuel s).2.
Proof.
  revert s. induction fuel as [|fuel IH]; intros; cbn [drain_pending_commits_loop]; emits_solve.
Qed.
#[local] Hint Resolve emits_drain_commits : emits.

Lemma emits_apply_synced_with block qc s :
  Forall only_commits (apply_synced_block_with commit block qc s).2.
Proof. unfold apply_synced_block_with, drain_pending_commits_with. emits_solve. Qed.
#[local] Hint Resolve emits_apply_synced_with : emits.

Lemma emits_drain_synced slots height s :
  Forall only_commits (drain_synced_loop commit slots height s).2.
Proof.
  revert height s. induction slots as [|slots IH]; intros; cbn [drain_synced_loop];
    unfold submit_synced_block_for_verification_with; emits_solve.
Qed.
#[local] Hint Resolve emits_drain_synced : emits.

Lemma emits_commit_with hash s :
  Forall only_commits (commit_block_and_buffered_with commit hash s).2.
Proof.
  unfold commit_block_and_buffered_with, try_drain_buffered_synced_blocks_with. emits_solve.
Qed.
End open_cycle.

Lemma emits_commit hash s : Forall only_commits (commit_block_and_buffered hash s).2.
Proof.
  unfold commit_block_and_buffered. generalize (S (size (s_buffered_synced_blocks s))) as depth.
  intros depth. revert hash s. induction depth as [|depth IH]; intros hash s; [apply Forall_nil_2|].
  by apply emits_commit_with.
Qed.

Lemma emits_ready hash qc s : Forall only_commits (on_block_ready_to_commit hash qc s).2.
Proof. apply emits_ready_with, emits_commit. Qed.
#[local] Hint Resolve emits_ready : emits.

(** *** Pending blocks, proposals *)

Lemma emits_completed hash s : Forall only_commits (block_completed hash s).2.
Proof. unfold block_completed, try_commit_pending_data. emits_solve. Qed.
#[local] Hint Resolve emits_completed : emits.

Lemma emits_certificate_fetch hash certs s :
  Forall only_commits (on_certificate_fetch_received hash certs s).2.
Proof. unfold on_certificate_fetch_received, after_fetch, refetch. emits_solve. Qed.

Lemma emits_check_certificate hash certs s :
  Forall only_commits (check_pending_blocks_for_certificate hash certs s).2.
Proof.
  unfold check_pending_blocks_for_certificate, fill_pending_block. emits_solve.
Qed.

Lemma emits_proposal ready deferred aborted certs proofs s :
  Forall only_commits (on_proposal_timer ready deferred aborted certs proofs s).2.
Proof.
  unfold on_proposal_timer, build_and_broadcast_sync_block, build_and_broadcast_empty_block.
  emits_solve.
Qed.

(** *** The other handlers *)

Lemma emits_vote_if_verified hash s : Forall only_commits (vote_if_verified hash s).2.
Proof. unfold vote_if_verified. emits_solve. Qed.
#[local] Hint Resolve emits_vote_if_verified : emits.

Lemma emits_start_sync height hash s : Forall only_commits (start_sync height hash s).2.
Proof. unfold start_sync. emits_solve. Qed.
#[local] Hint Resolve emits_start_sync : emits.

Lemma emits_parent_qc header s : Forall only_commits (note_parent_qc header s).2.
Proof.
  unfold note_parent_qc. destruct (QC.is_genesis _); [apply Forall_nil_2|].
  destruct (has_complete_block_at_height _ _); [apply Forall_nil_2|].
  pose proof (emits_start_sync (qc_height (bh_parent_qc header)) (qc_block_hash (bh_parent_qc header)) s).
  by destruct (start_sync _ _ s).
Qed.
#[local] Hint Resolve emits_parent_qc : emits.

Lemma emits_header h rs ps ts cs ds abs proofs mempool certs s :
  Forall only_commits (on_block_header h rs ps ts cs ds abs proofs mempool certs s).2.
Proof. unfold on_block_header. emits_solve. Qed.

Lemma emits_apply_verified fuel s : Forall only_commits (apply_verified_loop fuel s).2.
Proof.
  revert s. induction fuel as [|fuel IH]; intros; cbn [apply_verified_loop]; [emits_solve|].
  repeat case_match; try apply Forall_nil_2.
  apply emits_seq_at; [apply emits_apply_synced_with, emits_commit|apply IH].
Qed.
#[local] Hint Resolve emits_apply_verified : emits.

Lemma emits_drain_buffered s : Forall only_commits (try_drain_buffered_synced_blocks s).2.
Proof.
  unfold try_drain_buffered_synced_blocks, try_drain_buffered_synced_blocks_with.
  emits_solve. apply emits_drain_synced, emits_commit.
Qed.
#[local] Hint Resolve emits_drain_buffered : emits.

Lemma emits_qc_verified hash valid s : Forall only_commits (on_qc_signature_verified hash valid s).2.
Proof. unfold on_qc_signature_verified, try_apply_verified_synced_blocks. emits_solve. Qed.

Lemma emits_sync_block block qc s : Forall only_commits (on_sync_block_ready_to_apply block qc s).2.
Proof.
  unfold on_sync_block_ready_to_apply, on_synced_block_ready, submit_synced_block_for_verification,
    submit_synced_block_for_verification_with. emits_solve.
  apply emits_apply_synced_with, emits_commit.
Qed.

Lemma emits_round_timeout s s' acts :
  check_round_timeout s = Some (s', acts) -> Forall only_commits acts.
Proof.
  unfold check_round_timeout. case_match; [done|]. intros [= E].
  match type of E with ?f ?x = _ => assert (Forall only_commits (f x).2) as Hf; [|by rewrite E in Hf] end.
  clear E. unfold advance_round, build_and_broadcast_fallback_block, build_and_broadcast_empty_block,
    repropose_locked_block. emits_solve.
Qed.

Lemma emits_cycle_verified hash i valid s :
  Forall only_commits (on_cycle_proof_verified hash i valid s).2.
Proof. unfold on_cycle_proof_verified. emits_solve. Qed.
Lemma emits_state_root_verified hash valid s :
  Forall only_commits (on_state_root_verified hash valid s).2.
Proof. unfold on_state_root_verified. emits_solve. Qed.
Lemma emits_transaction_root_verified hash valid s :
  Forall only_commits (on_transaction_root_verified hash valid s).2.
Proof. unfold on_transaction_root_verified. emits_solve. Qed.
Lemma emits_proposal_built height round block hash s :
  Forall only_commits (on_proposal_built height round block hash s).2.
Proof. unfold on_proposal_built. emits_solve. Qed.
Lemma emits_transaction_fetch hash txs s :
  Forall only_commits (on_transaction_fetch_received hash txs s).2.
Proof. unfold on_transaction_fetch_received, after_fetch, refetch. emits_solve. Qed.
Lemma emits_metadata height hash qc s :
  Forall only_commits (on_chain_metadata_fetched height hash qc s).2.
Proof. unfold on_chain_metadata_fetched, start_timers. repeat case_match; emits_solve. Qed.
Lemma emits_state_commit version root s :
  Forall only_commits (on_state_commit_complete version root s).2.
Proof. unfold on_state_commit_complete, start_queued_verification. emits_solve. Qed.

Lemma emits_fetches s : Forall only_commits (check_pending_block_fetches s).
Proof.
  unfold check_pending_block_fetches. case_match; [apply Forall_nil_2|].
  apply Forall_forall. intros a Ha. apply list_elem_of_In, in_flat_map in Ha as ([h p] & _ & Ha).
  apply list_elem_of_In in Ha. revert a Ha. apply Forall_forall. unfold fetches_for. emits_solve.
Qed.
#[local] Hint Resolve emits_fetches : emits.
End consensus.

(** ** Execution *)

(** No internal event but registrations. *)
Definition only_registers (a : Action) : Prop :=
  match a with
  | EnqueueInternal (CrossShardTxRegistered _ _ _ _) => True
  | EnqueueInternal _ => False
  | _ => True
  end.

(** No internal event but outcomes and fetched certificates. *)
Definition only_outcomes (a : Action) : Prop :=
  match a with
  | EnqueueInternal (TransactionExecuted _ _) | EnqueueInternal (FetchedCertificateVerified _ _) => True
  | EnqueueInternal _ => False
  | _ => True
  end.

Definition no_internal (a : Action) : Prop :=
  match a with EnqueueInternal _ => False | _ => True end.

Lemma no_internal_impl (P : Action -> Prop) acts :
  (forall a, no_internal a -> P a) -> Forall no_internal acts -> Forall P acts.
Proof. intros Hi Ha. by eapply Forall_impl. Qed.

Section execution.
Context `{Crypto} `{T : Topology} `{HashIter}.
Implicit Types (s : ExecutionState).

Lemma emits_check_vote_quorum h s : Forall no_internal (check_vote_quorum h s).2.
Proof. unfold check_vote_quorum. emits_solve. Qed.
#[local] Hint Resolve emits_check_vote_quorum : emits.

Lemma emits_trigger_state_votes h s :
  Forall no_internal (maybe_trigger_state_vote_verification h s).2.
Proof. unfold maybe_trigger_state_vote_verification. emits_solve. Qed.
#[local] Hint Resolve emits_trigger_state_votes : emits.

Lemma emits_on_vote v s : Forall no_internal (on_vote v s).2.
Proof. unfold on_vote, handle_verified_vote. emits_solve. Qed.

Lemma emits_on_certificate c s : Forall no_internal (on_certificate c s).2.
Proof. unfold on_certificate. emits_solve. Qed.

Lemma emits_state_votes h vs s : Forall no_internal (on_state_votes_verified h vs s).2.
Proof. unfold on_state_votes_verified. emits_solve. Qed.

#[local] Hint Resolve emits_on_vote emits_on_certificate : emits.

Lemma emits_start_tracking tx shards s : Forall no_internal (start_tracking tx shards s).2.
Proof. unfold start_tracking, replay_early_votes, replay_early_certificates. emits_solve. Qed.

Lemma emits_provisioning h ps s : Forall no_internal (on_provisioning_complete h ps s).2.
Proof. unfold on_provisioning_complete. emits_solve. Qed.

#[local] Hint Resolve emits_start_tracking emits_provisioning : emits.

Lemma emits_start_single tx s : Forall no_internal (start_single_shard_execution tx s).2.
Proof. apply emits_start_tracking. Qed.

Lemma emits_start_cross tx height ts s :
  Forall only_registers (start_cross_shard_execution tx height ts s).2.
Proof.
  unfold start_cross_shard_execution, initiate_provision_broadcast, start_provisioning. emits_solve.
  all: eapply no_internal_impl; [by intros []|]; emits_solve.
Qed.

Lemma emits_use_speculation txs acc :
  Forall no_internal acc.1.2 -> Forall no_internal (foldl use_speculation acc txs).1.2.
Proof.
  intros Ha. apply (foldl_keeps (fun acc => Forall no_internal acc.1.2)); [done|].
  clear acc Ha. intros [[s acts] need] tx _ Ha. unfold use_speculation.
  destruct (take_speculative_result _ s) as [s1 [|]]; [|case_match; [|done]].
  all: match goal with |- context [start_single_shard_execution ?t ?s] =>
         pose proof (emits_start_single t s); destruct (start_single_shard_execution t s) end.
  all: by apply Forall_app_2.
Qed.

Lemma emits_exec_block hash height ts txs s :
  Forall only_registers (execution_on_block_committed hash height ts txs s).2.
Proof.
  unfold execution_on_block_committed. destruct (filter _ txs); [apply Forall_nil_2|].
  match goal with |- context [foldl use_speculation ?a ?l] =>
    pose proof (emits_use_speculation l a) as Hu; destruct (foldl use_speculation a l) as [[s1 a1] need] end.
  specialize (Hu (Forall_nil_2 _)). cbn [fst snd] in Hu.
  emits_solve; [by eapply no_internal_impl; [by intros []|]|..].
  - eapply no_internal_impl; [by intros []|]. apply emits_start_single.
  - apply emits_start_cross.
Qed.

Lemma emits_certificate_internal c s :
  Forall only_outcomes (handle_certificate_internal c s).2.
Proof. unfold handle_certificate_internal. repeat case_match; simplify_eq; emits_solve. Qed.
#[local] Hint Resolve emits_certificate_internal : emits.

Lemma emits_certificate_verified c valid s :
  Forall only_outcomes (on_certificate_verified c valid s).2.
Proof. unfold on_certificate_verified, handle_fetched_cert_verified. emits_solve. Qed.

Lemma emits_aggregated h c s : Forall only_outcomes (on_state_certificate_aggregated h c s).2.
Proof. unfold on_state_certificate_aggregated. emits_solve. Qed.

Lemma emits_fetched h c s : Forall only_outcomes (verify_fetched_certificate h c s).2.
Proof.
  unfold verify_fetched_certificate, verify_fetched_proof. emits_solve.
Qed.

Lemma emits_speculate h height txs s :
  Forall no_internal (trigger_speculative_execution h height txs s).2.
Proof. unfold trigger_speculative_execution. emits_solve. Qed.

Lemma emits_entries h es s : Forall no_internal (on_state_entries_fetched h es s).2.
Proof.
  unfold on_state_entries_fetched. emits_solve.
Qed.
End execution.

(** ** Mempool, provisions *)

(** No internal event but quorums of provisions. *)
Definition only_quorums (a : Action) : Prop :=
  match a with
  | EnqueueInternal (ProvisionQuorumReached _ _ _) | EnqueueInternal (ProvisioningComplete _ _) => True
  | EnqueueInternal _ => False
  | _ => True
  end.

Section pools.
Context `{Crypto} `{T : Topology} `{HashIter}.

Lemma emits_broadcast tx : Forall no_internal (broadcast_to_transaction_shards tx).
Proof. unfold broadcast_to_transaction_shards. emits_solve. Qed.
#[local] Hint Resolve emits_broadcast : emits.

Lemma emits_create_retry tx loser winner height s :
  Forall no_internal (create_retry_for_transaction tx loser winner height s).2.
Proof. unfold create_retry_for_transaction, retire_loser, add_retry. emits_solve. Qed.
#[local] Hint Resolve emits_create_retry : emits.

Lemma emits_for_losers winner f s :
  (forall h s, Forall no_internal (f h s).2) -> Forall no_internal (for_losers winner f s).2.
Proof. intros Hf. unfold for_losers. by apply emits_for_each. Qed.

#[local] Hint Resolve emits_for_losers : emits.

Lemma emits_retry_deferred winner height loser s :
  Forall no_internal (retry_deferred winner height loser s).2.
Proof. unfold retry_deferred. emits_solve. Qed.
#[local] Hint Resolve emits_retry_deferred : emits.

Lemma emits_executed h accepted s : Forall no_internal (on_transaction_executed h accepted s).2.
Proof. unfold on_transaction_executed, set_executed. emits_solve. Qed.

Lemma emits_mempool_block block s : Forall no_internal (on_block_committed_full block s).2.
Proof.
  unfold on_block_committed_full, ensure_in_pool, mark_committed, process_abort, on_winner_aborted,
    on_certificate_committed, on_deferral_committed. emits_solve.
  apply emits_for_losers. intros h s'. unfold retry_on_certificate. emits_solve.
Qed.

Lemma emits_submit tx s : Forall no_internal (on_submit_transaction tx s).2.
Proof. unfold on_submit_transaction. emits_solve. Qed.
Lemma emits_gossip tx s : Forall no_internal (on_transaction_gossip tx s).2.
Proof. unfold on_transaction_gossip. emits_solve. Qed.
Lemma emits_update_status h st s : Forall no_internal (update_status h st s).2.
Proof. unfold update_status. emits_solve. Qed.

Lemma emits_trigger_provisions tx sh s :
  Forall no_internal (maybe_trigger_verification tx sh s).2.
Proof. unfold maybe_trigger_verification. emits_solve. Qed.
#[local] Hint Resolve emits_trigger_provisions : emits.

Lemma emits_provision p s : Forall no_internal (on_provision_received p s).2.
Proof. unfold on_provision_received. emits_solve. Qed.

Lemma emits_provisions_verified tx sh vs proof s :
  Forall only_quorums (on_provisions_verified_and_aggregated tx sh vs proof s).2.
Proof.
  unfold on_provisions_verified_and_aggregated, record_shard_quorum, complete_provisioning.
  emits_solve. eapply no_internal_impl; [by intros []|]. apply emits_trigger_provisions.
Qed.
End pools.

(** ** The rank of an event *)

(** Internal events have the ranks 0 to 3, all others 4. *)
Definition rank (e : Event) : nat :=
  match e with
  | QuorumCertificateFormed _ _ => 3
  | BlockReadyToCommit _ _ | TransactionExecuted _ _ | FetchedCertificateVerified _ _ => 2
  | BlockCommitted _ _ _ => 1
  | CrossShardTxRegistered _ _ _ _ | ProvisionQuorumReached _ _ _ | ProvisioningComplete _ _ => 0
  | _ => 4
  end.

Definition lower (r : nat) (a : Action) : Prop :=
  match a with EnqueueInternal e => (rank e < r)%nat | _ => True end.

Lemma lower_from (P : Action -> Prop) r acts :
  (forall e, P (EnqueueInternal e) -> (rank e < r)%nat) -> Forall P acts -> Forall (lower r) acts.
Proof. intros Hr Ha. eapply Forall_impl; [exact Ha|]. intros []; try done. apply Hr. Qed.

Lemma commits_lower r acts : (1 < r)%nat -> Forall only_commits acts -> Forall (lower r) acts.
Proof. intros Hr. apply lower_from. by intros [] ?. Qed.
Lemma registers_lower r acts : (0 < r)%nat -> Forall only_registers acts -> Forall (lower r) acts.
Proof. intros Hr. apply lower_from. by intros [] ?. Qed.
Lemma quorums_lower r acts : (0 < r)%nat -> Forall only_quorums acts -> Forall (lower r) acts.
Proof. intros Hr. apply lower_from. by intros [] ?. Qed.
Lemma outcomes_lower r acts : (2 < r)%nat -> Forall only_outcomes acts -> Forall (lower r) acts.
Proof. intros Hr. apply lower_from. by intros [] ?. Qed.
Lemma none_lower r acts : Forall no_internal acts -> Forall (lower r) acts.
Proof. by apply lower_from. Qed.

Section dispatch.
Context `{Crypto} `{T : Topology} `{HashIter}.
Implicit Types (s : NodeState).

Lemma in_bft_emits P f s : Forall P (f (n_bft s)).2 -> Forall P (in_bft f s).2.
Proof. unfold in_bft. by destruct (f (n_bft s)). Qed.
Lemma in_execution_emits P f s : Forall P (f (n_execution s)).2 -> Forall P (in_execution f s).2.
Proof. unfold in_execution. by destruct (f (n_execution s)). Qed.
Lemma in_mempool_emits P f s : Forall P (f (n_mempool s)).2 -> Forall P (in_mempool f s).2.
Proof. unfold in_mempool. by destruct (f (n_mempool s)). Qed.
Lemma in_provisions_emits P f s : Forall P (f (n_provisions s)).2 -> Forall P (in_provisions f s).2.
Proof. unfold in_provisions. by destruct (f (n_provisions s)). Qed.

Lemma register_lower r a s : Forall (lower r) (register_transaction a s).2.
Proof. unfold register_transaction. repeat case_match; apply Forall_nil_2. Qed.
#[local] Hint Resolve register_lower : emits.

Lemma exec_block_lower hash height ts txs s :
  Forall (lower 1) (in_execution (execution_on_block_committed hash height ts txs) s).2.
Proof. apply in_execution_emits, registers_lower; [lia|]. apply emits_exec_block. Qed.
#[local] Hint Resolve exec_block_lower : emits.

Lemma block_committed_lower hash height block s :
  Forall (lower 1) (on_block_committed_event hash height block s).2.
Proof.
  unfold on_block_committed_event, track_cross_shard. emits_solve; try apply Forall_nil_2.
  apply in_mempool_emits, none_lower, emits_mempool_block.
Qed.

Lemma executed_lower h accepted s : Forall (lower 2) (on_transaction_executed_event h accepted s).2.
Proof.
  unfold on_transaction_executed_event. emits_solve.
  - apply in_mempool_emits, none_lower, emits_executed.
  - apply in_bft_emits, commits_lower; [lia|]. apply emits_check_certificate.
Qed.

Lemma qc_formed_lower hash qc s s' acts :
  on_qc_formed_event hash qc s = Some (s', acts) -> Forall (lower 3) acts.
Proof.
  unfold on_qc_formed_event. destruct (pending_commit_counts _ _) as [n m].
  destruct (build_commitment_proofs _ _) as [proofs|]; [|done]. cbn [mbind option_bind].
  intros [= E].
  match type of E with ?x = _ => assert (Forall (lower 3) x.2) as Hx; [|by rewrite E in Hx] end.
  clear E. apply in_bft_emits. unfold on_qc_formed, two_chain_commit.
  apply emits_seq_at; [unfold hemit; cbn [snd]; apply Forall_app_2|].
  - repeat case_match; repeat constructor.
  - repeat case_match; repeat constructor.
  - case_match; [|apply Forall_nil_2]. apply commits_lower; [lia|]. apply emits_proposal.
Qed.

Lemma cleanup_lower s : Forall (lower 4) (on_cleanup_timer s).2.
Proof.
  unfold on_cleanup_timer. emits_solve; try apply Forall_nil_2.
  - apply in_bft_emits, commits_lower; [lia|]. apply emits_fetches.
  - apply in_bft_emits. unfold check_sync_health, start_sync. emits_solve.
Qed.

Lemma header_lower g s : Forall (lower 4) (on_header_received g s).2.
Proof.
  unfold on_header_received. case_match; [apply Forall_nil_2|].
  pose proof (in_execution_emits (lower 4) (trigger_speculative_execution (header_hash (bg_header g))
    (bh_height (bg_header g)) (filter_map (fun h => transactions_by_hash (n_mempool s) !! h)
      (bg_retry_hashes g ++ bg_priority_hashes g ++ bg_transaction_hashes g))) s) as Hs.
  destruct (in_execution _ s) as [s1 a1]. specialize (Hs (none_lower _ _ (emits_speculate _ _ _ _))).
  match goal with |- context [in_bft ?f s1] => pose proof (in_bft_emits (lower 4) f s1) as Hb end.
  destruct (in_bft _ s1) as [s2 a2]. apply Forall_app_2; [|exact Hs].
  apply Hb, commits_lower; [lia|]. apply emits_header.
Qed.

Lemma gossip_lower tx s : Forall (lower 4) (on_transaction_gossip_event tx s).2.
Proof.
  unfold on_transaction_gossip_event. emits_solve.
  - apply in_mempool_emits, none_lower, emits_gossip.
  - apply in_bft_emits, commits_lower; [lia|].
    unfold check_pending_blocks_for_transaction, fill_pending_block. emits_solve. apply emits_completed.
Qed.

Lemma proposal_timer_lower s s' acts :
  on_proposal_timer_fired s = Some (s', acts) -> Forall (lower 4) acts.
Proof.
  unfold on_proposal_timer_fired. destruct (check_round_timeout (n_bft s)) as [[b a]|] eqn:Et.
  - intros [= _ <-]. apply commits_lower; [lia|]. by eapply emits_round_timeout.
  - destruct (pending_block_tx_cert_counts _) as [n m].
    destruct (build_commitment_proofs _ _) as [proofs|]; [|done]. cbn [mbind option_bind].
    intros [= E].
    match type of E with ?x = _ => assert (Forall (lower 4) x.2) as Hx; [|by rewrite E in Hx] end.
    apply in_bft_emits, commits_lower; [lia|]. apply emits_proposal.
Qed.

Lemma qc_result_lower hash qc votes (s : BftState) : Forall (lower 4) (on_qc_result hash qc votes s).2.
Proof.
  unfold on_qc_result. destruct qc as [qc|]; [repeat constructor|].
  apply commits_lower; [lia|]. repeat case_match; try apply Forall_nil_2. apply emits_trigger_votes.
Qed.

Lemma provisions_verified_lower tx sh vs proof s :
  Forall (lower 4) (dispatch (ProvisionsVerifiedAndAggregated tx sh vs proof) s).2.
Proof.
  cbn [dispatch]. apply emits_seq_at; [apply Forall_nil_2|].
  apply in_provisions_emits, quorums_lower; [lia|]. apply emits_provisions_verified.
Qed.

Lemma sync_complete_lower height s : Forall (lower 4) (dispatch (SyncComplete height) s).2.
Proof.
  cbn [dispatch]. emits_solve. apply in_bft_emits, commits_lower; [lia|]. apply emits_fetches.
Qed.

Lemma state_commit_lower height version root s :
  Forall (lower 4) (on_state_commit_complete_event height version root s).2.
Proof.
  unfold on_state_commit_complete_event. apply emits_seq_at; [apply Forall_nil_2|].
  apply in_bft_emits, commits_lower; [lia|]. apply emits_state_commit.
Qed.

Lemma fetched_lower hash c s : Forall (lower 2) (dispatch (FetchedCertificateVerified hash c) s).2.
Proof.
  cbn [dispatch]. apply emits_seq_at; [apply Forall_nil_2|].
  apply in_bft_emits, commits_lower; [lia|]. apply emits_certificate_fetch.
Qed.

Lemma certificates_lower hash certs s : Forall (lower 4) (dispatch (CertificateReceived hash certs) s).2.
Proof.
  cbn [dispatch]. apply emits_for_each. intros c s'.
  apply in_execution_emits, outcomes_lower; [lia|]. apply emits_fetched.
Qed.

Lemma dispatch_lower e s : Forall (lower (rank e)) (dispatch e s).2.
Proof.
  destruct e; try apply Forall_nil_2;
    try solve [apply block_committed_lower | apply executed_lower | apply gossip_lower
    | apply header_lower | apply cleanup_lower | apply register_lower | apply sync_complete_lower
    | apply state_commit_lower | apply fetched_lower | apply certificates_lower
    | apply provisions_verified_lower | apply in_bft_emits, qc_result_lower].
  all: cbn [rank dispatch]; repeat case_match; try apply Forall_nil_2.
  all: try solve [apply in_bft_emits, commits_lower; [lia|];
    first [apply emits_ready | apply emits_block_vote | apply emits_qc_verified | apply emits_sync_block
    | apply emits_cycle_verified | apply emits_state_root_verified | apply emits_transaction_root_verified
    | apply emits_proposal_built | apply emits_transaction_fetch | apply emits_metadata]].
  all: try solve [apply in_execution_emits, none_lower; first [apply emits_on_vote
    | apply emits_on_certificate | apply emits_provisioning | apply emits_state_votes
    | apply emits_entries]].
  all: try solve [apply in_execution_emits, outcomes_lower; [lia|];
    first [apply emits_certificate_verified | apply emits_aggregated]].
  all: try solve [apply in_mempool_emits, none_lower; first [apply emits_submit
    | apply emits_update_status]].
  - apply in_provisions_emits, none_lower, emits_provision.
  - unfold on_gossiped_certificate. repeat (apply emits_seq_at; [apply Forall_nil_2|]).
    repeat constructor.
Qed.

(** Handling an event emits internal events of smaller rank only. *)
Lemma handle_lower e s s' acts : handle e s = Some (s', acts) -> Forall (lower (rank e)) acts.
Proof.
  pose proof (dispatch_lower e s) as Hd.
  destruct e; cbn [handle]; try (intros E%(inj Some); by rewrite E in Hd).
  - apply proposal_timer_lower.
  - apply qc_formed_lower.
Qed.
End dispatch.

(** ** Cascades of internal events *)

Definition internal_events (acts : list Action) : list Event :=
  filter_map (fun a => match a with EnqueueInternal e => Some e | _ => None end) acts.

Section cascade.
Context `{Crypto} `{T : Topology} `{HashIter}.

(** A node with events waiting: any of them is handled next, and the internal
    events it causes wait with the others. *)
Inductive internal_step : NodeState * list Event -> NodeState * list Event -> Prop :=
  | take_event s before e after s' acts :
      handle e s = Some (s', acts) ->
      internal_step (s, before ++ e :: after) (s', before ++ after ++ internal_events acts).

Definition of_rank (r : nat) (l : list Event) : nat := length (filter (fun e => rank e = r) l).

Definition ranks (l : list Event) : nat * (nat * (nat * (nat * nat))) :=
  (of_rank 4 l, (of_rank 3 l, (of_rank 2 l, (of_rank 1 l, of_rank 0 l)))).

Definition ranks_lt : relation (nat * (nat * (nat * (nat * nat)))) :=
  slexprod _ _ lt (slexprod _ _ lt (slexprod _ _ lt (slexprod _ _ lt lt))).

Lemma ranks_lt_wf : well_founded ranks_lt.
Proof. repeat apply wf_slexprod; apply lt_wf. Qed.

Lemma of_rank_app r l1 l2 : of_rank r (l1 ++ l2) = (of_rank r l1 + of_rank r l2)%nat.
Proof. unfold of_rank. by rewrite filter_app, length_app. Qed.

Lemma of_rank_cons r e l : of_rank r (e :: l) = ((if Nat.eqb (rank e) r then 1 else 0) + of_rank r l)%nat.
Proof.
  unfold of_rank. rewrite list.filter_cons. destruct (Nat.eqb_spec (rank e) r); by case_decide.
Qed.

Lemma of_rank_lower r k acts :
  Forall (lower r) acts -> (r <= k)%nat -> of_rank k (internal_events acts) = 0%nat.
Proof.
  intros Ha Hk. induction Ha as [|a acts Ha _ IH]; [done|].
  destruct a; try exact IH. change (of_rank k (event :: internal_events acts) = 0%nat).
  rewrite of_rank_cons, IH. destruct (Nat.eqb_spec (rank event) k); [cbn in Ha; lia|done].
Qed.

Lemma slex_same (R : relation nat) {B} (S : relation B) x x' y y' :
  x = x' -> S y y' -> slexprod nat B R S (x, y) (x', y').
Proof. intros -> HS. by apply right_slex. Qed.

Lemma internal_step_lt x y : internal_step x y -> ranks_lt (ranks y.2) (ranks x.2).
Proof.
  intros [s before e after s' acts Hh]. pose proof (handle_lower _ _ _ _ Hh) as Hl. cbn [snd].
  assert (forall k, (rank e <= k)%nat -> of_rank k (internal_events acts) = 0%nat) as Hz
    by (intros k; by apply of_rank_lower).
  unfold ranks, ranks_lt. rewrite !of_rank_app, !of_rank_cons.
  assert (rank e < 5)%nat as Hr by (destruct e; cbn; lia).
  pose proof (Hz 4%nat); pose proof (Hz 3%nat); pose proof (Hz 2%nat); pose proof (Hz 1%nat);
    pose proof (Hz 0%nat).
  destruct (rank e) as [|[|[|[|[|]]]]]; [..|lia];
    repeat first [apply left_slex; cbn; lia | apply slex_same; [cbn; lia|]]; cbn; lia.
Qed.

(** C16: Handling an event of the node never starts an endless cascade of
    internal events: from any state and any collection of waiting events,
    whichever waiting event is taken next, the events queued by
    [Action::EnqueueInternal] run out after finitely many calls of [handle].
    A quorum certificate leads to a commit, a commit to executions and
    registrations, an execution to a finalization, and nothing leads back. *)
Theorem internal_cascade_terminates : well_founded (fun y x => internal_step x y).
Proof.
  eapply wf_incl; [|apply (wf_inverse_image _ _ ranks_lt (fun x => ranks x.2)), ranks_lt_wf].
  intros y x Hxy. by apply internal_step_lt.
Qed.

End cascade.
