(* ===== verification/NodeRuns.v ===== *)
(** * Runs of a node

    Every event a node handles is a sequence of calls of its components, each
    one a step of that component's own model.  So the invariants proved for
    the components one by one hold together in every run of a node, and the
    blocks a node commits are those its consensus component commits. *)

From stdpp Require Import base gmap list numbers sorting relations.
From Stdlib Require Import NArith Lia.
From S2P Require Import Prelude Bitfield Types Topology Transactions Core VoteSet PendingBlock.
From S2P Require Import BftState BftVote BftCommit BftPropose BftChain BftReach Livelock Provisions.
From S2P Require Import Mempool MempoolInv MempoolRuns MempoolLocks Trackers Execution ExecutionInv.
From S2P Require Import ExecutionRuns Node NodeEvents.

(** ** Actions that commit nothing *)

Definition no_commit (a : Action) : Prop :=
  match a with EnqueueInternal (BlockCommitted _ _ _) => False | _ => True end.

Lemma no_commit_trace acts : Forall no_commit acts -> commit_trace acts = [].
Proof.
  induction 1 as [|a acts Ha _ IH]; [done|]. destruct a; try exact IH.
  destruct event; done || exact IH.
Qed.

Lemma registers_no_commit acts : Forall only_registers acts -> Forall no_commit acts.
Proof. intros Ha. eapply Forall_impl; [exact Ha|]. intros []; try done. by destruct event. Qed.
Lemma outcomes_no_commit acts : Forall only_outcomes acts -> Forall no_commit acts.
Proof. intros Ha. eapply Forall_impl; [exact Ha|]. intros []; try done. by destruct event. Qed.
Lemma quorums_no_commit acts : Forall only_quorums acts -> Forall no_commit acts.
Proof. intros Ha. eapply Forall_impl; [exact Ha|]. intros []; try done. by destruct event. Qed.
Lemma none_no_commit acts : Forall no_internal acts -> Forall no_commit acts.
Proof. intros Ha. eapply Forall_impl; [exact Ha|]. by intros []. Qed.

(** ** Calls of the components *)

Section calls.
Context `{Crypto} `{T : Topology} `{HashIter}.
Context (declared : Hash -> list NodeId * list NodeId).

Definition mempool_call (m m' : MempoolState) : Prop := exists e, m' = (mempool_apply e m).1.

Definition livelock_call (l l' : LivelockState) : Prop :=
  exists e, livelock_event_ok declared e /\ l' = livelock_handle e l.

Inductive provision_call : ProvisionCoordinator -> ProvisionCoordinator -> Prop :=
  | pc_time now p : provision_call p (provisions_set_time now p)
  | pc_register tx registration p : provision_call p (on_tx_registered tx registration p).1
  | pc_completed tx p : provision_call p (on_tx_completed tx p).1
  | pc_aborted tx p : provision_call p (on_tx_aborted tx p).1
  | pc_received provision p : provision_call p (on_provision_received provision p).1
  | pc_verified tx sh vs proof p :
      provision_call p (on_provisions_verified_and_aggregated tx sh vs proof p).1
  | pc_block block p : provision_call p (provisions_on_block_committed block p).1.

Lemma mempool_calls_run m m' : rtc mempool_call m m' -> exists es, m' = mempool_run es m.
Proof.
  induction 1 as [m|m m1 m' [e ->] _ [es ->]]; [by exists []|]. by exists (e :: es).
Qed.

Lemma livelock_calls_run l l' :
  rtc livelock_call l l' -> exists es, Forall (livelock_event_ok declared) es /\ l' = livelock_run l es.
Proof.
  induction 1 as [l|l l1 l' (e & He & ->) _ (es & Hes & ->)]; [by exists []|].
  exists (e :: es). by split; [constructor|].
Qed.

Lemma bft_run_app s1 es1 s2 acts1 es2 s3 acts2 :
  bft_run s1 es1 s2 acts1 -> bft_run s2 es2 s3 acts2 ->
  bft_run s1 (es1 ++ es2) s3 (acts1 ++ acts2).
Proof.
  induction 1 as [|s e es s' acts He Hr _ IH]; intros Hrun; [done|].
  rewrite <-app_assoc. constructor; auto.
Qed.
End calls.

(** ** One event *)

Section simulation.
Context `{Crypto} `{T : Topology} `{HashIter}.
Context (declared : Hash -> list NodeId * list NodeId).
Context (Vouched : StateCertificate -> Prop) (External : TransactionCertificate -> Prop).
Implicit Types (s : NodeState).

(** A node's step seen from each component; all commits are of consensus. *)
Record simulated (s : NodeState) (r : NodeState * list Action) : Prop := {
  sim_bft : exists events acts,
    bft_run (n_bft s) events (n_bft r.1) acts /\ commit_trace r.2 = commit_trace acts;
  sim_execution : rtc (exec_step Vouched External) (n_execution s) (n_execution r.1);
  sim_mempool : rtc mempool_call (n_mempool s) (n_mempool r.1);
  sim_livelock : rtc (livelock_call declared) (n_livelock s) (n_livelock r.1);
  sim_provisions : rtc provision_call (n_provisions s) (n_provisions r.1)
}.

Lemma sim_stay s s' acts :
  n_bft s' = n_bft s -> n_execution s' = n_execution s -> n_mempool s' = n_mempool s ->
  n_livelock s' = n_livelock s -> n_provisions s' = n_provisions s -> Forall no_commit acts ->
  simulated s (s', acts).
Proof.
  intros E1 E2 E3 E4 E5 Ha. split; cbn [fst snd]; rewrite ?E1, ?E2, ?E3, ?E4, ?E5; try done.
  exists [], []. split; [constructor|by apply no_commit_trace].
Qed.

Lemma sim_emit s acts : Forall no_commit acts -> simulated s (hemit acts s).
Proof. by apply sim_stay. Qed.
Lemma sim_skip s : simulated s (hskip s).
Proof. by apply sim_stay. Qed.

Lemma sim_trans s s1 a1 s2 a2 :
  simulated s (s1, a1) -> simulated s1 (s2, a2) -> simulated s (s2, a1 ++ a2).
Proof.
  intros [(es1 & x1 & Hr1 & Ht1) He1 Hm1 Hl1 Hp1] [(es2 & x2 & Hr2 & Ht2) He2 Hm2 Hl2 Hp2].
  cbn [fst snd] in *. split; cbn [fst snd]; try by etrans.
  exists (es1 ++ es2), (x1 ++ x2). split; [by eapply bft_run_app|].
  by rewrite !commit_trace_app, Ht1, Ht2.
Qed.

Lemma sim_actions s s' acts acts' :
  simulated s (s', acts) -> commit_trace acts' = commit_trace acts -> simulated s (s', acts').
Proof. intros [(es & x & Hr & Ht)] E. split; try done. exists es, x. by rewrite <-Ht. Qed.

Lemma sim_seq_at f g s : simulated s (f s) -> simulated (f s).1 (g (f s).1) -> simulated s ((f ;> g) s).
Proof.
  unfold hseq. destruct (f s) as [s1 a1]. cbn [fst]. intros H1 H2.
  destruct (g s1) as [s2 a2]. by eapply sim_trans.
Qed.

Lemma sim_for_each {A} (f : A -> handler NodeState Action) xs :
  (forall x, x ∈ xs -> forall s, simulated s (f x s)) -> forall s, simulated s (for_each f xs s).
Proof.
  induction xs as [|x xs IH]; intros Hf s; [apply sim_skip|].
  apply sim_seq_at; [apply Hf; left|]. apply IH. intros y Hy. apply Hf. by right.
Qed.

(** *** Calls of one component *)

Lemma sim_in_bft e s :
  event_ok e -> room_for_next (n_bft s) -> simulated s (in_bft (bft_handle e) s).
Proof.
  intros He Hr. unfold in_bft. destruct (bft_handle e (n_bft s)) as [b acts] eqn:E.
  split; cbn; try done. exists [e], (acts ++ []). rewrite app_nil_r. split; [|done].
  replace b with (bft_handle e (n_bft s)).1 by by rewrite E.
  replace acts with ((bft_handle e (n_bft s)).2 ++ []) by (rewrite E; apply app_nil_r).
  constructor; [done..|constructor].
Qed.

Lemma sim_in_execution (f : handler ExecutionState Action) s :
  exec_step Vouched External (n_execution s) (f (n_execution s)).1 ->
  Forall no_commit (f (n_execution s)).2 -> simulated s (in_execution f s).
Proof.
  unfold in_execution. destruct (f (n_execution s)) as [c acts]. cbn [fst snd]. intros Hf Ha.
  split; cbn; try done; [|by apply rtc_once].
  exists [], []. split; [constructor|by apply no_commit_trace].
Qed.

Lemma sim_upd_execution u s :
  exec_step Vouched External (n_execution s) (u (n_execution s)) ->
  simulated s (in_execution (hupd u) s).
Proof. intros Hu. by apply sim_in_execution. Qed.

Lemma sim_in_mempool e s :
  Forall no_commit (mempool_apply e (n_mempool s)).2 -> simulated s (in_mempool (mempool_apply e) s).
Proof.
  unfold in_mempool. destruct (mempool_apply e (n_mempool s)) as [c acts] eqn:E. cbn [snd]. intros Ha.
  split; cbn; try done; [|apply rtc_once; exists e; by rewrite E].
  exists [], []. split; [constructor|by apply no_commit_trace].
Qed.

Lemma sim_in_provisions (f : handler ProvisionCoordinator Action) s :
  provision_call (n_provisions s) (f (n_provisions s)).1 ->
  Forall no_commit (f (n_provisions s)).2 -> simulated s (in_provisions f s).
Proof.
  unfold in_provisions. destruct (f (n_provisions s)) as [c acts]. cbn [fst snd]. intros Hf Ha.
  split; cbn; try done; [|by apply rtc_once].
  exists [], []. split; [constructor|by apply no_commit_trace].
Qed.

Lemma sim_in_livelock e s :
  livelock_event_ok declared e -> simulated s (in_livelock (livelock_handle e) s).
Proof.
  intros He. split; cbn; try done; [|apply rtc_once; by exists e].
  exists [], []. by split; [constructor|].
Qed.

(** *** The events *)

(** What the senders of an event guarantee: the conditions of the components
    ([event_ok], [exec_step], [livelock_event_ok]).  Chain metadata arrives
    while the node starts, before any run. *)
Definition node_event_ok (e : Event) : Prop :=
  match e with
  | BlockHeaderReceived g => bh_height (bg_header g) < u64_modulus
  | ProposalBuilt _ _ block hash => block_ok hash block
  | QuorumCertificateFormed _ qc => qc_height qc < u64_max
  | SyncBlockReadyToApply block _ => bh_height (bl_header block) < u64_modulus
  | ChainMetadataFetched _ _ _ => False
  | StateCertificateAggregated _ c => Vouched c
  | StateCertificateSignatureVerified c valid => valid = true -> Vouched c
  | GossipedCertificateVerified c => External c
  | BlockCommitted _ _ block =>
      Forall (fun tx => (rt_declared_reads tx, rt_declared_writes tx) = declared (rt_hash tx))
        (all_transactions block)
  | ProvisionQuorumReached tx_hash _ proof => cp_tx_hash proof = tx_hash
  | _ => True
  end.

Lemma sim_cleanup s : room_for_next (n_bft s) -> simulated s (on_cleanup_timer s).
Proof.
  intros Hr. unfold on_cleanup_timer.
  apply sim_seq_at; [apply sim_emit; by repeat constructor|].
  apply sim_seq_at; [by apply (sim_in_livelock LlCleanup)|].
  apply sim_seq_at; [by apply (sim_in_bft CheckPendingBlockFetches)|].
  apply sim_seq_at; [by apply (sim_in_bft CheckSyncHealth)|].
  apply sim_seq_at; [|apply sim_upd_execution; constructor].
  by apply (sim_in_mempool (CleanupTombstones _ _)).
Qed.

Lemma sim_header g s :
  bh_height (bg_header g) < u64_modulus -> room_for_next (n_bft s) ->
  simulated s (on_header_received g s).
Proof.
  intros Hg Hr. unfold on_header_received. destruct (exceeds_in_flight_limits g s); [apply sim_skip|].
  cbv zeta.
  match goal with |- context [in_execution ?f s] =>
    pose proof (sim_in_execution f s (es_speculate _ _ _ _ _ _) (none_no_commit _ (emits_speculate _ _ _ _))) as Hs;
    assert (n_bft (in_execution f s).1 = n_bft s) as Eb
      by (unfold in_execution; by destruct (f (n_execution s)));
    pose proof (in_execution_emits _ f s (none_no_commit _ (emits_speculate _ _ _ _))) as Ha end.
  destruct (in_execution _ s) as [s1 a1]. cbn [fst snd] in Eb, Ha.
  rewrite <-Eb in Hr.
  pose proof (sim_in_bft (OnBlockHeader g (transactions_by_hash (n_mempool s))
    (finalized_certificates_by_hash (n_execution s))) s1 Hg Hr) as Hb. cbn [bft_handle] in Hb.
  destruct (in_bft _ s1) as [s2 a2]. eapply sim_actions; [by eapply sim_trans|].
  rewrite !commit_trace_app. rewrite (no_commit_trace a1); [by rewrite app_nil_r|].
  exact Ha.
Qed.

Lemma sim_register a s : simulated s (register_transaction a s).
Proof.
  destruct a; try apply sim_skip. destruct event; try apply sim_skip.
  apply sim_in_provisions; [apply pc_register|constructor].
Qed.

Lemma sim_track height tx s :
  (rt_declared_reads tx, rt_declared_writes tx) = declared (rt_hash tx) ->
  simulated s (track_cross_shard height tx s).
Proof.
  intros Ht. unfold track_cross_shard. case_match; [|apply sim_skip].
  by apply (sim_in_livelock (LlCommitted tx height)).
Qed.

Lemma sim_execute hash height block s :
  simulated s
    (let '(s, exec_actions) :=
       in_execution (execution_on_block_committed hash height
                       (bh_timestamp (bl_header block)) (all_transactions block)) s in
     (for_each register_transaction exec_actions ;> hemit exec_actions) s).
Proof.
  match goal with |- context [in_execution ?f s] =>
    pose proof (sim_in_execution f s (es_block _ _ _ _ _ _ _)
      (registers_no_commit _ (emits_exec_block _ _ _ _ _))) as He;
    pose proof (in_execution_emits _ f s (registers_no_commit _ (emits_exec_block _ _ _ _ _))) as Ha end.
  destruct (in_execution _ s) as [s1 acts]. cbn [snd] in Ha.
  pose proof (sim_seq_at (for_each register_transaction acts) (hemit acts) s1) as Hs.
  specialize (Hs (sim_for_each _ _ (fun a _ => sim_register a) s1) (sim_emit _ _ Ha)).
  destruct ((for_each register_transaction acts ;> hemit acts) s1) as [s2 a2].
  eapply sim_actions; [by eapply sim_trans|].
  by rewrite commit_trace_app, (no_commit_trace acts Ha).
Qed.

Lemma sim_block_committed hash height block s :
  node_event_ok (BlockCommitted hash height block) ->
  simulated s (on_block_committed_event hash height block s).
Proof.
  intros Hd. cbn in Hd. unfold on_block_committed_event.
  apply sim_seq_at.
  { apply sim_for_each. intros tx Htx s'. apply sim_track. by eapply Forall_elem in Hd. }
  apply sim_seq_at; [by apply (sim_in_livelock (LlBlock block))|].
  apply sim_seq_at; [apply sim_for_each; intros; apply sim_upd_execution; constructor|].
  apply sim_seq_at; [apply sim_for_each; intros; apply sim_upd_execution; constructor|].
  apply sim_seq_at.
  { apply sim_for_each. intros c _ s'. split; cbn; try done.
    - exists [], []. by split; [constructor|].
    - eapply rtc_l; [apply es_remove|]. apply rtc_once, es_invalidate. }
  apply sim_seq_at; [apply sim_execute|].
  apply sim_seq_at; [apply (sim_in_mempool (CommitBlock block)), none_no_commit, emits_mempool_block|].
  apply sim_in_provisions; [constructor|]. apply Forall_nil_2.
Qed.

Lemma sim_executed h accepted s :
  room_for_next (n_bft s) -> simulated s (on_transaction_executed_event h accepted s).
Proof.
  intros Hr. unfold on_transaction_executed_event. apply sim_seq_at.
  - apply (sim_in_mempool (ExecutedTx h accepted)), none_no_commit, emits_executed.
  - apply (sim_in_bft (CheckPendingBlocksForCertificate h _)); [done|].
    unfold in_mempool. by destruct (on_transaction_executed _ _ _).
Qed.

Lemma sim_gossip tx s : room_for_next (n_bft s) -> simulated s (on_transaction_gossip_event tx s).
Proof.
  intros Hr. unfold on_transaction_gossip_event. case_match; [apply sim_skip|]. apply sim_seq_at.
  - apply (sim_in_mempool (GossipTx tx)), none_no_commit, emits_gossip.
  - apply (sim_in_bft (CheckPendingBlocksForTransaction (rt_hash tx) _)); [done|].
    unfold in_mempool. by destruct (on_transaction_gossip _ _).
Qed.

Lemma sim_state_commit height version root s :
  room_for_next (n_bft s) -> simulated s (on_state_commit_complete_event height version root s).
Proof.
  intros Hr. unfold on_state_commit_complete_event. apply sim_seq_at.
  - unfold hupd. destruct (n_last_committed_state s) as [[h v] ?]. by apply sim_stay; [case_match..|].
  - apply (sim_in_bft (OnStateCommitComplete version root)); [done|].
    unfold hupd. destruct (n_last_committed_state s) as [[h v] ?]. by case_match.
Qed.

Lemma sim_sync_complete height s :
  room_for_next (n_bft s) -> simulated s (dispatch (SyncComplete height) s).
Proof.
  intros Hr. cbn [dispatch]. apply sim_seq_at; [by apply (sim_in_bft OnSyncComplete)|].
  apply sim_emit. by repeat constructor.
Qed.

Lemma sim_provisions_verified tx sh vs proof s :
  simulated s (dispatch (ProvisionsVerifiedAndAggregated tx sh vs proof) s).
Proof.
  cbn [dispatch]. apply sim_seq_at; [by apply (sim_in_mempool (ProvisionVerified tx))|].
  apply sim_in_provisions; [constructor|]. apply quorums_no_commit, emits_provisions_verified.
Qed.

Lemma sim_fetched hash c s :
  room_for_next (n_bft s) -> simulated s (dispatch (FetchedCertificateVerified hash c) s).
Proof.
  intros Hr. cbn [dispatch]. apply sim_seq_at; [apply sim_upd_execution, es_cancel|].
  by apply (sim_in_bft (OnCertificateFetchReceived hash [c])).
Qed.

Lemma sim_gossiped c s : External c -> simulated s (on_gossiped_certificate c s).
Proof.
  intros Hc. unfold on_gossiped_certificate.
  apply sim_seq_at; [apply sim_upd_execution, es_cancel|].
  apply sim_seq_at; [by apply sim_upd_execution, es_add|].
  apply sim_emit. by repeat constructor.
Qed.

(** The component call of an event, by the handler it reaches. *)
Ltac sim_bft_call :=
  lazymatch goal with
  | |- simulated _ (in_bft ?f _) =>
      lazymatch f with
      | on_block_vote ?v => apply (sim_in_bft (OnBlockVote v))
      | on_block_ready_to_commit ?h ?q => apply (sim_in_bft (OnBlockReadyToCommit h q))
      | on_qc_result ?h ?q ?v => apply (sim_in_bft (OnQcResult h q v))
      | on_qc_signature_verified ?h ?v => apply (sim_in_bft (OnQcSignatureVerified h v))
      | on_cycle_proof_verified ?h ?i ?v => apply (sim_in_bft (OnCycleProofVerified h i v))
      | on_state_root_verified ?h ?v => apply (sim_in_bft (OnStateRootVerified h v))
      | on_transaction_root_verified ?h ?v => apply (sim_in_bft (OnTransactionRootVerified h v))
      | on_proposal_built ?a ?b ?c ?d => apply (sim_in_bft (OnProposalBuilt a b c d))
      | on_sync_block_ready_to_apply ?b ?q => apply (sim_in_bft (OnSyncBlockReadyToApply b q))
      | on_transaction_fetch_received ?h ?t => apply (sim_in_bft (OnTransactionFetchReceived h t))
      end
  end.

Ltac sim_execution_call :=
  lazymatch goal with
  | |- simulated _ (in_execution _ _) => apply sim_in_execution; [by constructor|]
  end.

Lemma dispatch_simulated e s :
  node_event_ok e -> room_for_next (n_bft s) -> simulated s (dispatch e s).
Proof.
  intros He Hr. destruct e; try (exact (sim_skip s)); cbn [node_event_ok] in He;
    lazymatch goal with
    | |- simulated _ (dispatch CleanupTimerFired _) => by apply sim_cleanup
    | |- simulated _ (dispatch (BlockHeaderReceived _) _) => by apply sim_header
    | |- simulated _ (dispatch (BlockCommitted _ _ _) _) => by apply sim_block_committed
    | |- simulated _ (dispatch (TransactionExecuted _ _) _) => by apply sim_executed
    | |- simulated _ (dispatch (TransactionGossipReceived _) _) => by apply sim_gossip
    | |- simulated _ (dispatch (StateCommitComplete _ _ _) _) => by apply sim_state_commit
    | |- simulated _ (dispatch (SyncComplete _) _) => by apply sim_sync_complete
    | |- simulated _ (dispatch (ProvisionsVerifiedAndAggregated _ _ _ _) _) =>
        apply sim_provisions_verified
    | |- simulated _ (dispatch (FetchedCertificateVerified _ _) _) => by apply sim_fetched
    | |- simulated _ (dispatch (GossipedCertificateVerified _) _) => by apply sim_gossiped
    | |- simulated _ (dispatch (CrossShardTxRegistered _ _ _ _) _) => apply sim_register
    | _ => cbn [dispatch]
    end; try (sim_bft_call; [exact He || exact I|exact Hr]).
  - apply sim_in_provisions; [apply pc_received|]. apply none_no_commit, emits_provision.
  - apply sim_in_execution; [apply es_vote|]. apply none_no_commit, emits_on_vote.
  - apply sim_in_execution; [apply es_certificate|]. apply none_no_commit, emits_on_certificate.
  - apply (sim_in_mempool (ChangeStatus _ _)), none_no_commit, emits_update_status.
  - apply sim_in_execution; [by apply es_aggregated|]. apply outcomes_no_commit, emits_aggregated.
  - apply sim_in_execution; [apply es_votes|]. apply none_no_commit, emits_state_votes.
  - apply sim_in_execution; [by apply es_verified|].
    apply outcomes_no_commit, emits_certificate_verified.
  - apply sim_in_execution; [apply es_speculated|]. apply Forall_nil_2.
  - by apply (sim_in_livelock (LlQuorum _ _ _)).
  - apply sim_in_execution; [apply es_provisioned|]. apply none_no_commit, emits_provisioning.
  - apply sim_in_provisions; [apply pc_completed|]. apply Forall_nil_2.
  - apply sim_in_provisions; [apply pc_aborted|]. apply Forall_nil_2.
  - apply sim_in_execution; [apply es_entries|]. apply none_no_commit, emits_entries.
  - destruct He.
  - destruct (involves_local_shard tx); [|apply sim_skip].
    apply (sim_in_mempool (SubmitTx tx)), none_no_commit, emits_submit.
  - apply sim_for_each. intros c _ s'.
    apply sim_in_execution; [apply es_fetched|]. apply outcomes_no_commit, emits_fetched.
Qed.

Lemma sim_proposal_timer s r :
  room_for_next (n_bft s) -> on_proposal_timer_fired s = Some r -> simulated s r.
Proof.
  intros Hr. unfold on_proposal_timer_fired.
  destruct (check_round_timeout (n_bft s)) as [[b acts]|] eqn:Et.
  - intros <-%(inj Some).
    assert (in_bft (bft_handle CheckRoundTimeout) s = (s <| n_bft := b |>, acts)) as Eb
      by (unfold in_bft; cbn; by rewrite Et).
    pose proof (sim_in_bft CheckRoundTimeout s I Hr) as Hb. rewrite Eb in Hb.
    replace acts with (acts ++ []) by apply app_nil_r. eapply sim_trans; [exact Hb|].
    apply (sim_upd_execution (on_view_change (s_committed_height b +w 1))), es_view.
  - destruct (pending_block_tx_cert_counts _) as [n m]. cbv zeta.
    destruct (build_commitment_proofs _ _) as [proofs|]; [|done]. cbn [mbind option_bind].
    intros <-%(inj Some). by apply (sim_in_bft (OnProposalTimer _ _ _ _ _)).
Qed.

Lemma sim_qc_formed hash qc s r :
  qc_height qc < u64_max -> room_for_next (n_bft s) ->
  on_qc_formed_event hash qc s = Some r -> simulated s r.
Proof.
  intros Hq Hr. unfold on_qc_formed_event. destruct (pending_commit_counts _ _) as [n m]. cbv zeta.
  destruct (build_commitment_proofs _ _) as [proofs|]; [|done]. cbn [mbind option_bind].
  intros <-%(inj Some). by apply (sim_in_bft (OnQcFormed _ _ _ _ _ _ _)).
Qed.

Lemma handle_simulated e s r :
  node_event_ok e -> room_for_next (n_bft s) -> handle e s = Some r -> simulated s r.
Proof.
  intros He Hr. pose proof (dispatch_simulated e s He Hr) as Hd.
  destruct e; cbn [handle]; try (intros E%(inj Some); by rewrite E in Hd).
  - by apply sim_proposal_timer.
  - by apply sim_qc_formed.
Qed.

Lemma sim_set_time now s : room_for_next (n_bft s) -> simulated s (node_set_time now s, []).
Proof.
  intros Hr. split; cbn.
  - exists [BftReach.SetTime now], []. split; [|done].
    exact (run_step (n_bft s) (BftReach.SetTime now) [] _ [] I Hr (run_done _)).
  - apply rtc_once, es_time.
  - apply rtc_once. by exists (MempoolRuns.SetTime now).
  - apply rtc_once. by exists (LlSetTime now).
  - apply rtc_once, pc_time.
Qed.

(** ** Runs *)

(** Events and clock readings, with the final state and all actions. *)
Inductive node_run : NodeState -> NodeState -> list Action -> Prop :=
  | nr_done s : node_run s s []
  | nr_event s e s1 acts1 s2 acts2 :
      node_event_ok e -> room_for_next (n_bft s) -> handle e s = Some (s1, acts1) ->
      node_run s1 s2 acts2 -> node_run s s2 (acts1 ++ acts2)
  | nr_time s now s2 acts :
      room_for_next (n_bft s) -> node_run (node_set_time now s) s2 acts -> node_run s s2 acts.

Lemma run_simulated s s' acts : node_run s s' acts -> simulated s (s', acts).
Proof.
  induction 1 as [s|s e s1 a1 s2 a2 He Hr Hh _ IH|s now s2 acts Hr _ IH].
  - apply sim_skip.
  - eapply sim_trans; [by eapply handle_simulated|done].
  - exact (sim_trans _ _ _ _ _ (sim_set_time now s Hr) IH).
Qed.

(** A node at the start of its runs: at genesis, or with the chain metadata
    of its storage. *)
Inductive node_started : NodeState -> Prop :=
  | started_genesis key config n cooldown mempool_config genesis :
      node_started (node_initialize_genesis genesis
        (node_with_speculative_config key config (mk_recovered_state ∅ 0 None None None)
           n cooldown mempool_config)).1
  | started_recovered key config recovered n cooldown mempool_config height hash qc s acts :
      rec_committed_height recovered < u64_modulus -> height < u64_modulus ->
      handle (ChainMetadataFetched height hash qc)
        (node_with_speculative_config key config recovered n cooldown mempool_config) = Some (s, acts) ->
      node_started s.

Definition node_inv s : Prop :=
  chain_inv (n_bft s) /\ exec_inv Vouched External (n_execution s) /\ mp_inv (n_mempool s) /\
  livelock_inv declared (n_livelock s).

Lemma livelock_new_inv shard config : livelock_inv declared (livelock_with_config shard config).
Proof. apply (livelock_run_inv declared []); [|constructor]. split; simpl; [apply tracker_inv_new|done|done|constructor|constructor]. Qed.

Lemma started_inv s : node_started s -> node_inv s.
Proof.
  destruct 1 as [key config n cd mc g|key config rec n cd mc height hash qc s acts Hrec Hh Hs].
  - split_and!.
    + exact (start_fresh_inv key config g).
    + exact (exec_run_inv Vouched External key _ (er_new _ _ _ n cd)).
    + apply initial_inv.
    + apply livelock_new_inv.
  - apply (inj Some) in Hs. cbn [dispatch] in Hs. unfold in_bft in Hs.
    destruct (on_chain_metadata_fetched height hash qc _) as [b a] eqn:Eb.
    injection Hs as <- <-. unfold node_inv.
    pose proof (start_recovered_inv key config rec height hash qc Hrec Hh) as Hb.
    unfold start_recovered in Hb.
    unfold node_with_speculative_config in *. destruct (default (0, ZERO) (rec_jmt_state rec)) as [v r].
    cbn in *. rewrite Eb in Hb. split_and!; [exact Hb|..].
    + exact (exec_run_inv Vouched External key _ (er_new _ _ _ n cd)).
    + apply initial_inv.
    + apply livelock_new_inv.
Qed.

Lemma node_run_inv s s' acts :
  no_zero_hash -> node_inv s -> node_run s s' acts -> node_inv s'.
Proof.
  intros Hz (Hb & He & Hm & Hl) Hr.
  destruct (run_simulated s s' acts Hr) as [(es & x & Hrun & _) Se Sm Sl _]. cbn [fst snd] in *.
  destruct (mempool_calls_run _ _ Sm) as [ms Em].
  destruct (livelock_calls_run _ _ _ Sl) as (ls & Hls & El). split_and!.
  - by destruct (bft_run_ok _ _ _ _ Hz Hb Hrun).
  - clear -Se He. induction Se as [|e1 e2 e3 Hst _ IH]; [done|]. apply IH. by eapply exec_step_keeps.
  - rewrite Em. apply (foldl_keeps mp_inv); [done|]. intros m e _. apply mempool_apply_inv.
  - rewrite El. by apply livelock_run_inv.
Qed.
End simulation.

Section theorems.
Context `{Crypto} `{T : Topology} `{HashIter}.
Context (declared : Hash -> list NodeId * list NodeId).
Context (Vouched : StateCertificate -> Prop) (External : TransactionCertificate -> Prop).


(** C14: The invariants of the components hold together in every state a node
    reaches from its start: the stored blocks of consensus, the indexes and
    certificates of execution, the ready-set bookkeeping of the mempool and
    the cycle tracking of livelock detection; and its commits are
    consecutive. *)
Theorem node_invariants_hold s0 s acts :
  no_zero_hash -> node_started s0 -> node_run declared Vouched External s0 s acts ->
  node_inv declared Vouched External s /\
  chain_steps (tip (n_bft s0)) (commit_trace acts) (tip (n_bft s)).
Proof.
  intros Hz Hs Hr. pose proof (started_inv declared Vouched External s0 Hs) as Hi. split.
  - by eapply node_run_inv.
  - destruct (run_simulated declared Vouched External s0 s acts Hr) as [(es & x & Hrun & Ht) _ _ _ _].
    cbn [fst snd] in *. rewrite Ht. by destruct (bft_run_ok _ _ _ _ Hz (proj1 Hi) Hrun).
Qed.
End theorems.
