(* ===== verification/NodeLoop.v ===== *)
(** * The event loop around a node

    A node's [EnqueueInternal] actions come back to it through two queues of
    the runner (crates/production/src/runner.rs): outcomes of transactions
    through the status channel, all other internal events through the
    callback channel.  Between them any event may arrive from outside.  The
    blocks that consensus commits reach execution, mempool, livelock and
    provisions in the order of the chain, each exactly once. *)

From stdpp Require Import base gmap list numbers sorting relations.
From Stdlib Require Import NArith Lia.
From S2P Require Import Prelude Bitfield Types Topology Transactions Core VoteSet PendingBlock.
From S2P Require Import BftState BftVote BftCommit BftPropose BftChain BftReach Livelock Provisions.
From S2P Require Import Mempool MempoolInv MempoolRuns MempoolLocks Trackers Execution ExecutionInv.
From S2P Require Import ExecutionRuns Node NodeEvents NodeRuns.

(** ** The height of the mempool *)

Section height.
Context `{Crypto} `{T : Topology} `{HashIter}.
Implicit Types (s : MempoolState) (h : Hash) (tx : RoutableTransaction) (k : u64).

Definition at_height k s : Prop := mp_current_height s = k.

Create HintDb height.

Lemma lock_node_height k s n : at_height k s -> at_height k (lock_node s n).
Proof.
  unfold lock_node, block_transactions_for_node. intros Hs. case_match; [done|].
  destruct (mp_ready_txs_by_node _ !! n); [|done]. apply (foldl_keeps (at_height k)); [done|]. intros s' h _ Hs'.
  unfold block_transaction, take_ready. by repeat case_match; simplify_eq.
Qed.

Lemma promote_all_height k l s :
  at_height k s -> at_height k (foldl (fun s '(hash, tx) => add_to_ready_set hash tx s) s l).
Proof.
  intros Hs. apply (foldl_keeps (at_height k)); [done|]. intros s' [h tx] _ Hs'.
  unfold add_to_ready_set. by case_match.
Qed.

Lemma unlock_node_height k s n : at_height k s -> at_height k (unlock_node s n).
Proof.
  unfold unlock_node, promote_transactions_for_node. intros Hs. case_match; [|done].
  destruct (mp_txs_deferred_by_node _ !! n) as [hs|]; [|done].
  match goal with |- context [foldl (unblock n) ?a ?l] =>
    assert (at_height k (foldl (unblock n) a l).1) as Ha; [|destruct (foldl (unblock n) a l)] end.
  - apply (foldl_keeps (fun acc => at_height k acc.1)); [done|]. intros [s' l] h _ Hs'.
    unfold unblock. by repeat case_match; simplify_eq.
  - by apply promote_all_height.
Qed.

Lemma add_locks_height k tx s : at_height k s -> at_height k (add_locked_nodes tx s).
Proof. intros Hs. apply (foldl_keeps (at_height k)); [done|]. intros. by apply lock_node_height. Qed.

Lemma remove_locks_height k tx s : at_height k s -> at_height k (remove_locked_nodes tx s).
Proof. intros Hs. apply (foldl_keeps (at_height k)); [done|]. intros. by apply unlock_node_height. Qed.

Lemma untrack_height k h s : at_height k s -> at_height k (remove_from_ready_tracking h s).
Proof. unfold remove_from_ready_tracking. intros Hs. by repeat case_match. Qed.

Lemma track_height k h tx s : at_height k s -> at_height k (add_to_ready_tracking h tx s).
Proof. unfold add_to_ready_tracking, add_to_ready_set. intros Hs. by repeat case_match. Qed.

Lemma release_height k e s : at_height k s -> at_height k (release e s).
Proof.
  intros Hs. unfold release. case_match; [|done]. apply (remove_locks_height _ (pe_tx e)) in Hs.
  unfold uncount. by case_match.
Qed.

Lemma evict_height k h s : at_height k s -> at_height k (evict_terminal h s).
Proof.
  intros Hs. rewrite evict_terminal_eq. cbv zeta.
  match goal with |- context [remove_from_ready_tracking h ?x] => assert (at_height k x) as Hx end.
  { case_match; [by apply release_height|done]. }
  apply (untrack_height _ h) in Hx.
  match type of Hx with at_height k ?x => revert Hx; generalize x; intros s' Hx end. by case_match.
Qed.

#[local] Hint Resolve add_locks_height remove_locks_height untrack_height track_height evict_height
  : height.

(** *** Handlers *)

Lemma create_retry_height k tx l w c : keeps (at_height k) (create_retry_for_transaction tx l w c).
Proof.
  apply keeps_seq; intros s Hs; [unfold retire_loser|unfold add_retry]; case_match; try done; cbn [fst].
  - by apply evict_height.
  - by apply track_height.
Qed.

Lemma for_losers_height k w f :
  (forall l, keeps (at_height k) (f l)) -> keeps (at_height k) (for_losers w f).
Proof. intros Hf s Hs. unfold for_losers. by apply keeps_for_each. Qed.

Lemma retry_deferred_height k w c l : keeps (at_height k) (retry_deferred w c l).
Proof.
  intros s Hs. unfold retry_deferred. destruct (mp_deferred_by s !! l) as [[[tx w'] ?]|]; [|done].
  by apply create_retry_height.
Qed.

Lemma certificate_height k h d c : keeps (at_height k) (on_certificate_committed h d c).
Proof.
  apply keeps_seq; [|apply keeps_seq].
  - intros s Hs. cbv beta. case_match; [|done]. by apply evict_height.
  - by apply keeps_upd.
  - apply for_losers_height. intros l s Hs. unfold retry_on_certificate.
    destruct (mp_deferred_by s !! l) as [[[tx w] ?]|]; [by apply create_retry_height|].
    by destruct (mp_pending_deferrals s !! l) as [[w ?]|].
Qed.

Lemma abort_height k c a : keeps (at_height k) (process_abort c a).
Proof.
  apply keeps_seq; [|apply for_losers_height, retry_deferred_height].
  intros s Hs. cbv beta. case_match; [|done]. by apply evict_height.
Qed.

Lemma deferral_height k h r c : keeps (at_height k) (on_deferral_committed h r c).
Proof.
  intros s Hs. unfold on_deferral_committed. destruct r as [w].
  destruct (mp_completed_winners s !! w) as [ch|]; (destruct (mp_pool s !! h) as [e|]; [|done]).
  - by apply create_retry_height.
  - destruct (Status.can_transition_to _ _); [|done]. cbn [fst].
    match goal with |- context [remove_from_ready_tracking h ?x] =>
      pose proof (release_height k e _ (untrack_height k h x Hs)) as Hd end.
    unfold release in Hd. by case_match.
Qed.

Lemma ensure_height k tx : keeps (at_height k) (ensure_in_pool tx).
Proof.
  intros s Hs. unfold ensure_in_pool. case_match; [done|].
  destruct (mp_pending_retries _ !! _) as [[w c]|]; [|done]. by apply create_retry_height.
Qed.

Lemma mark_height k c tx : keeps (at_height k) (mark_committed c tx).
Proof.
  intros s Hs. unfold mark_committed. destruct (mp_pool s !! _); [|done]. case_match; [|done]. cbn [fst].
  match goal with |- context [remove_from_ready_tracking ?h ?x] =>
    exact (add_locks_height k tx _ (untrack_height k h x Hs)) end.
Qed.

Lemma set_executed_height k h b : keeps (at_height k) (set_executed h b).
Proof. intros s Hs. unfold set_executed. by repeat case_match; simplify_eq. Qed.

Lemma update_status_height k h st : keeps (at_height k) (update_status h st).
Proof.
  intros s Hs. unfold update_status. destruct (mp_pool s !! h) as [e|]; [|done].
  case_match; [done|]. case_match; [|done]. cbn [fst].
  set (s1 := if negb _ && _ then add_locked_nodes _ s else s).
  assert (at_height k s1) as Hx by (unfold s1; case_match; [by apply add_locks_height|done]).
  clearbody s1. case_match; [exact (remove_locks_height k (pe_tx e) _ Hx)|exact Hx].
Qed.

Lemma cleanup_height k c r s : at_height k s -> at_height k (cleanup_old_tombstones c r s).1.
Proof.
  intros Hs. unfold cleanup_old_tombstones. cbn [fst]. apply (foldl_keeps (at_height k)); [done|].
  intros s' l _ Hs'. unfold forget_deferred. by destruct (mp_deferred_by s' !! l) as [[[? ?] ?]|].
Qed.

Lemma executed_height k h b : keeps (at_height k) (on_transaction_executed h b).
Proof.
  apply keeps_seq; [apply set_executed_height|]. intros s Hs.
  by apply for_losers_height; [apply retry_deferred_height|].
Qed.

Lemma submit_height k tx : keeps (at_height k) (on_submit_transaction tx).
Proof.
  intros s Hs. unfold on_submit_transaction. destruct (mp_pool s !! _); [done|]. case_match; [done|].
  by apply track_height.
Qed.

Lemma gossip_height k tx : keeps (at_height k) (on_transaction_gossip tx).
Proof. intros s Hs. unfold on_transaction_gossip. case_match; [done|]. by apply track_height. Qed.

Lemma provision_height k h s : at_height k s -> at_height k (on_provision_verified h s).
Proof. unfold on_provision_verified. by case_match. Qed.

(** A committed block sets the height, all other calls keep it. *)
Lemma block_height block s :
  mp_current_height (on_block_committed_full block s).1 = bh_height (bl_header block).
Proof.
  unfold on_block_committed_full. cbv zeta. set (k := bh_height (bl_header block)).
  set (s0 := prune_recently_evicted (s <| mp_current_height := k |>)).
  assert (at_height k s0) as Hs0 by done.
  assert (forall f g : mempool, f s = (s0, []) -> keeps (at_height k) g -> at_height k ((f ;> g) s).1) as Hseq.
  { intros f g Ef Hg. unfold hseq. rewrite Ef. specialize (Hg s0 Hs0). by destruct (g s0). }
  apply Hseq; [done|]. repeat apply keeps_seq; apply keeps_for_each; intros.
  - apply ensure_height.
  - apply mark_height.
  - apply deferral_height.
  - apply certificate_height.
  - apply abort_height.
Qed.

(** *** The events of a node *)

Definition node_at_height k (s : NodeState) : Prop := at_height k (n_mempool s).

Lemma in_mempool_height k f :
  keeps (at_height k) f -> keeps (node_at_height k) (in_mempool f).
Proof. intros Hf s Hs. unfold in_mempool. specialize (Hf _ Hs). by destruct (f (n_mempool s)). Qed.
Lemma in_bft_height k f : keeps (node_at_height k) (in_bft f).
Proof. intros s Hs. unfold in_bft. by destruct (f (n_bft s)). Qed.
Lemma in_execution_height k f : keeps (node_at_height k) (in_execution f).
Proof. intros s Hs. unfold in_execution. by destruct (f (n_execution s)). Qed.
Lemma in_provisions_height k f : keeps (node_at_height k) (in_provisions f).
Proof. intros s Hs. unfold in_provisions. by destruct (f (n_provisions s)). Qed.
Lemma in_livelock_height k f : keeps (node_at_height k) (in_livelock f).
Proof. by intros s Hs. Qed.

#[local] Hint Resolve in_bft_height in_execution_height in_provisions_height in_livelock_height
  : height.

Lemma cleanup_timer_height k : keeps (node_at_height k) on_cleanup_timer.
Proof.
  intros s Hs. unfold on_cleanup_timer.
  do 4 (apply keeps_seq; [eauto with height||apply keeps_emit| |done]; clear s Hs; intros s Hs).
  apply keeps_seq; [|auto with height|done]. clear s Hs. intros s Hs.
  apply in_mempool_height; [|done]. apply keeps_upd. apply cleanup_height.
Qed.

Lemma header_height k g : keeps (node_at_height k) (on_header_received g).
Proof.
  intros s Hs. unfold on_header_received. case_match; [done|]. cbv zeta.
  match goal with |- context [in_execution ?f s] => pose proof (in_execution_height k f s Hs) as K1;
    destruct (in_execution f s) as [s1 a1] end.
  match goal with |- context [in_bft ?f s1] => pose proof (in_bft_height k f s1 K1) as K2;
    destruct (in_bft f s1) as [s2 a2] end. done.
Qed.

Lemma register_height k a : keeps (node_at_height k) (register_transaction a).
Proof.
  destruct a; try apply keeps_skip. destruct event; try apply keeps_skip. apply in_provisions_height.
Qed.

(** All events but commits keep the height of the mempool. *)
Lemma dispatch_height k e (s : NodeState) :
  (forall hash height block, e <> BlockCommitted hash height block) ->
  node_at_height k s -> node_at_height k (dispatch e s).1.
Proof.
  intros He Hs. destruct e; try exact Hs; cbn [dispatch];
    try solve [by apply in_bft_height | by apply in_execution_height | by apply in_provisions_height
      | by apply in_livelock_height].
  - by apply cleanup_timer_height.
  - by apply header_height.
  - unfold on_transaction_gossip_event. case_match; [done|].
    apply keeps_seq; [apply in_mempool_height, gossip_height| |done]. intros s1 Hs1.
    by apply in_bft_height.
  - by destruct (He block_hash height block).
  - unfold on_transaction_executed_event.
    apply keeps_seq; [apply in_mempool_height, executed_height| |done]. intros s1 Hs1.
    by apply in_bft_height.
  - by apply in_mempool_height; [apply update_status_height|].
  - apply keeps_seq; [apply in_mempool_height, keeps_upd, provision_height| |done].
    apply in_provisions_height.
  - unfold on_state_commit_complete_event. apply keeps_seq; [|apply in_bft_height|done].
    apply keeps_upd. intros s1 Hs1. destruct (n_last_committed_state s1) as [[? ?] ?]. by case_match.
  - case_match; [|done]. by apply in_mempool_height; [apply submit_height|].
  - apply keeps_for_each; [|done]. intros c. apply in_execution_height.
  - apply keeps_seq; [apply in_execution_height|apply in_bft_height|done].
Qed.

Lemma handle_height k e (s s' : NodeState) acts :
  (forall hash height block, e <> BlockCommitted hash height block) ->
  handle e s = Some (s', acts) -> node_at_height k s -> node_at_height k s'.
Proof.
  intros He Hh Hs. pose proof (dispatch_height k e s He Hs) as Hd.
  destruct e; cbn [handle] in Hh; try (apply (inj Some) in Hh; by rewrite Hh in Hd).
  - unfold on_proposal_timer_fired in Hh. destruct (check_round_timeout (n_bft s)) as [[b a]|].
    { by simplify_eq. }
    destruct (pending_block_tx_cert_counts _) as [n m]. cbv zeta in Hh.
    destruct (build_commitment_proofs _ _) as [proofs|]; [|done]. cbn [mbind option_bind] in Hh.
    apply (inj Some) in Hh. match type of Hh with in_bft ?f s = _ =>
      pose proof (in_bft_height k f s Hs) as Hx end. by rewrite Hh in Hx.
  - unfold on_qc_formed_event in Hh. destruct (pending_commit_counts _ _) as [n m]. cbv zeta in Hh.
    destruct (build_commitment_proofs _ _) as [proofs|]; [|done]. cbn [mbind option_bind] in Hh.
    apply (inj Some) in Hh. match type of Hh with in_bft ?f s = _ =>
      pose proof (in_bft_height k f s Hs) as Hx end. by rewrite Hh in Hx.
Qed.

Lemma commit_event_height hash height block (s : NodeState) :
  node_at_height (bh_height (bl_header block)) (on_block_committed_event hash height block s).1.
Proof.
  unfold on_block_committed_event.
  assert (forall (f g : handler NodeState Action) k (s : NodeState),
    (forall s1 : NodeState, node_at_height k (g s1).1) -> node_at_height k ((f ;> g) s).1) as Hlast.
  { intros f g k s1 Hg. unfold hseq. destruct (f s1) as [s2 a2]. specialize (Hg s2). by destruct (g s2). }
  do 6 (apply Hlast; clear s; intros s). 
  unfold hseq, in_mempool. pose proof (block_height block (n_mempool s)) as Hb.
  destruct (on_block_committed_full block (n_mempool s)) as [m acts]. cbn [fst] in Hb.
  match goal with |- context [in_provisions ?f ?x] =>
    pose proof (in_provisions_height (bh_height (bl_header block)) f x Hb) as Hp;
    by destruct (in_provisions f x) end.
Qed.
End height.

(** ** The queues *)

(** The routing of [Action::EnqueueInternal] in the runner. *)
Definition is_status_event (e : Event) : bool :=
  match e with TransactionStatusChanged _ _ | TransactionExecuted _ _ => true | _ => false end.

Definition to_callback (acts : list Action) : list Event :=
  filter (fun e => is_status_event e = false) (internal_events acts).
Definition to_status (acts : list Action) : list Event :=
  filter (fun e => is_status_event e = true) (internal_events acts).

(** The commits among events. *)
Definition commits (events : list Event) : list (Hash * u64 * Block) :=
  omap (fun e => match e with
                 | BlockCommitted hash height block => Some (hash, height, block)
                 | _ => None
                 end) events.

Lemma commits_app l1 l2 : commits (l1 ++ l2) = commits l1 ++ commits l2.
Proof. apply omap_app. Qed.

Lemma commits_callback acts : commits (to_callback acts) = commit_trace acts.
Proof.
  unfold to_callback. induction acts as [|a acts IH]; [done|]. destruct a; try exact IH.
  change (internal_events (EnqueueInternal event :: acts)) with (event :: internal_events acts).
  rewrite list.filter_cons. destruct event; try (by case_decide).
  rewrite decide_True by done.
  change (commits (BlockCommitted block_hash height block
    :: filter (fun e => is_status_event e = false) (internal_events acts)))
    with ((block_hash, height, block) :: commits (filter (fun e => is_status_event e = false) (internal_events acts))).
  by rewrite IH.
Qed.

Lemma status_commits acts : commits (to_status acts) = [].
Proof.
  unfold to_status. induction (internal_events acts) as [|e l IH]; [done|].
  rewrite list.filter_cons. case_decide as Hd; [|done]. by destruct e.
Qed.

Section loop.
Context `{Crypto} `{T : Topology} `{HashIter}.
Context (declared : Hash -> list NodeId * list NodeId).
Context (Vouched : StateCertificate -> Prop) (External : TransactionCertificate -> Prop).
Implicit Types (s : NodeState).

Abbreviation node_event_ok := (node_event_ok declared Vouched External).

(** Commits come from consensus only. *)
Definition from_outside (e : Event) : Prop := commits [e] = [].

(** A node [s0] after some events and clock readings: its state, the events
    waiting in the callback channel and in the status channel, and the
    commits handled so far. *)
Inductive node_loop s0 : NodeState -> list Event -> list Event -> list (Hash * u64 * Block) -> Prop :=
  | loop_start : node_loop s0 s0 [] [] []
  | loop_outside s callback status seen e s' acts :
      node_loop s0 s callback status seen -> from_outside e -> node_event_ok e ->
      room_for_next (n_bft s) -> handle e s = Some (s', acts) ->
      node_loop s0 s' (callback ++ to_callback acts) (status ++ to_status acts) seen
  | loop_callback s e callback status seen s' acts :
      node_loop s0 s (e :: callback) status seen -> node_event_ok e ->
      room_for_next (n_bft s) -> handle e s = Some (s', acts) ->
      node_loop s0 s' (callback ++ to_callback acts) (status ++ to_status acts) (seen ++ commits [e])
  | loop_status s callback e status seen s' acts :
      node_loop s0 s callback (e :: status) seen -> node_event_ok e ->
      room_for_next (n_bft s) -> handle e s = Some (s', acts) ->
      node_loop s0 s' (callback ++ to_callback acts) (status ++ to_status acts) seen
  | loop_time s callback status seen now :
      node_loop s0 s callback status seen -> room_for_next (n_bft s) ->
      node_loop s0 (node_set_time now s) callback status seen.

(** The chain up to the commits handled, and from there to the commits of
    consensus; the mempool is at the height of the last commit handled. *)
Record in_step s0 s (callback status : list Event) (seen : list (Hash * u64 * Block))
    (handled : u64 * Hash) : Prop := {
  is_inv : chain_inv (n_bft s);
  is_status : commits status = [];
  is_seen : chain_steps (tip (n_bft s0)) seen handled;
  is_waiting : chain_steps handled (commits callback) (tip (n_bft s));
  is_height : mp_current_height (n_mempool s)
              = match seen with [] => mp_current_height (n_mempool s0) | _ => handled.1 end
}.

Lemma handle_chain e s s' acts :
  no_zero_hash -> chain_inv (n_bft s) -> node_event_ok e -> room_for_next (n_bft s) ->
  handle e s = Some (s', acts) ->
  chain_inv (n_bft s') /\ chain_steps (tip (n_bft s)) (commits (to_callback acts)) (tip (n_bft s')).
Proof.
  intros Hz Hi He Hr Hh. rewrite commits_callback.
  destruct (handle_simulated _ _ _ e s _ He Hr Hh) as [(es & x & Hrun & Ht) _ _ _ _].
  cbn [fst snd] in *. rewrite Ht. by destruct (bft_run_ok _ _ _ _ Hz Hi Hrun).
Qed.

Lemma not_commit e : commits [e] = [] -> forall hash height block, e <> BlockCommitted hash height block.
Proof. intros Hc hash height block ->. done. Qed.

(** An event that is not a commit adds its own commits to those waiting. *)
Lemma in_step_event s0 s callback status seen handled e s' acts :
  no_zero_hash -> in_step s0 s callback status seen handled -> commits [e] = [] ->
  node_event_ok e -> room_for_next (n_bft s) -> handle e s = Some (s', acts) ->
  in_step s0 s' (callback ++ to_callback acts) (status ++ to_status acts) seen handled.
Proof.
  intros Hz [Hi Hs Hseen Hw Hh] Hc He Hr Hx.
  destruct (handle_chain e s s' acts Hz Hi He Hr Hx) as [Hi' Hsteps]. split; [done| |done|..].
  - rewrite commits_app, Hs. apply status_commits.
  - rewrite commits_app. by eapply chain_steps_app.
  - rewrite <-Hh. by apply (handle_height _ e s s' acts (not_commit e Hc) Hx).
Qed.

(** A commit that is handled is the next one of the chain. *)
Lemma in_step_commit s0 s hash height block callback status seen handled s' acts :
  no_zero_hash -> in_step s0 s (BlockCommitted hash height block :: callback) status seen handled ->
  node_event_ok (BlockCommitted hash height block) -> room_for_next (n_bft s) ->
  handle (BlockCommitted hash height block) s = Some (s', acts) ->
  in_step s0 s' (callback ++ to_callback acts) (status ++ to_status acts)
    (seen ++ [(hash, height, block)]) (height, hash).
Proof.
  intros Hz [Hi Hs Hseen Hw Hh] He Hr Hx.
  destruct (handle_chain _ s s' acts Hz Hi He Hr Hx) as [Hi' Hsteps].
  change (commits (BlockCommitted hash height block :: callback))
    with ((hash, height, block) :: commits callback) in Hw.
  inversion Hw as [|h0 hash0 block0 tip0 trace0 Hb Hbh Hrest old Hold]; subst. split; [done|..].
  - rewrite commits_app, Hs. apply status_commits.
  - eapply chain_steps_app; [done|]. constructor; [done..|constructor].
  - rewrite commits_app. by eapply chain_steps_app.
  - cbn [handle dispatch] in Hx. apply (inj Some) in Hx.
    pose proof (commit_event_height (block_hash block) (h0 + 1) block s) as Hm. rewrite Hx in Hm.
    unfold node_at_height, at_height in Hm. cbn [fst] in *. rewrite Hm, Hb. by destruct seen.
Qed.

Lemma in_step_time s0 s callback status seen handled now :
  in_step s0 s callback status seen handled ->
  in_step s0 (node_set_time now s) callback status seen handled.
Proof. intros []. split; try done. by apply (chain_inv_view (n_bft s)). Qed.

Lemma loop_in_step s0 s callback status seen :
  no_zero_hash -> chain_inv (n_bft s0) -> node_loop s0 s callback status seen ->
  exists handled, in_step s0 s callback status seen handled.
Proof.
  intros Hz H0' Hl. induction Hl as [|s cb st seen e s' acts _ [t IH] Ho He Hr Hx
    |s e cb st seen s' acts _ [t IH] He Hr Hx|s cb e st seen s' acts _ [t IH] He Hr Hx
    |s cb st seen now _ [t IH] Hr].
  - exists (tip (n_bft s0)). split; try done; constructor.
  - exists t. by eapply in_step_event.
  - destruct (commits [e]) as [|c l] eqn:Ec.
    + exists t. rewrite app_nil_r. eapply in_step_event; [done| |done..].
      destruct IH as [? ? ? Hw ?]. split; try done.
      change (e :: cb) with ([e] ++ cb) in Hw. by rewrite commits_app, Ec in Hw.
    + destruct e; try discriminate Ec. injection Ec as <- <-.
      exists (height, block_hash). by eapply in_step_commit.
  - exists t. assert (commits [e] = [] /\ commits st = []) as [Ec Es].
    { destruct IH as [_ Hs _ _ _]. change (e :: st) with ([e] ++ st) in Hs.
      rewrite commits_app in Hs. by apply app_eq_nil in Hs. }
    eapply in_step_event; [done| |done..]. destruct IH. by split.
  - exists t. by apply in_step_time.
Qed.

End loop.
