(* ===== verification/NodeLoad.v ===== *)
(** * The limits on transactions in flight

    A proposer asks its mempool for transactions within the limits; a replica
    checks a header against its own mempool before it hands the header to
    consensus.  Here the two are compared in one state: what a proposer with
    that state puts into the next block, and whether a replica with the same
    state lets it through. *)

From stdpp Require Import base gmap list numbers sorting.
From Stdlib Require Import NArith Lia.
From S2P Require Import Prelude Bitfield Types Encoding Topology Transactions Core PendingBlock BftState.
From S2P Require Import BftChain BftReach Livelock Provisions Mempool MempoolRuns MempoolReady Execution Node.

Section load.
Implicit Types (m : MempoolState) (s : NodeState).

(** The total offered is within the hard limit, and nothing ordinary is
    offered at the soft limit. *)
Lemma ready_within_limits m max_count pending_txs pending_certs :
  let r := ready_transactions m max_count pending_txs pending_certs in
  let load := effective_load m pending_txs pending_certs in
  (ready_total r = 0 \/ load + ready_total r <= max_in_flight_hard_limit (mp_config m))%nat /\
  (max_in_flight (mp_config m) <= load -> ready_others r = [])%nat.
Proof.
  cbv zeta. unfold ready_transactions, ready_total, effective_load.
  set (load := (in_flight m + pending_txs - pending_certs)%nat).
  destruct (Nat.leb_spec (max_in_flight_hard_limit (mp_config m)) load) as [Hhard|Hhard].
  { split; [by left|done]. }
  set (n := Nat.min max_count _).
  pose proof (take_values_length n (mp_ready_retries m)) as L1.
  pose proof (take_values_rest n (mp_ready_retries m)) as R1.
  destruct (take_values n (mp_ready_retries m)) as [retries rem1]. cbn [fst snd] in *.
  pose proof (take_values_length rem1 (mp_ready_priority m)) as L2.
  pose proof (take_values_rest rem1 (mp_ready_priority m)) as R2.
  destruct (take_values rem1 (mp_ready_priority m)) as [priority rem2]. cbn [fst snd] in *.
  pose proof (take_values_length rem2 (mp_ready_others m)) as L3.
  cbn [ready_retries ready_priority ready_others].
  destruct (Nat.leb_spec (max_in_flight (mp_config m)) load) as [Hsoft|Hsoft]; cbn [length];
    (split; [right; lia|]); [done|lia].
Qed.

(** A header that carries the transactions offered and [certs] certificates. *)
Record carries (g : BlockHeaderGossip) (r : ReadyTransactions) (certs : nat) : Prop := {
  ca_retries : bg_retry_hashes g = rt_hash <$> ready_retries r;
  ca_priority : bg_priority_hashes g = rt_hash <$> ready_priority r;
  ca_others : bg_transaction_hashes g = rt_hash <$> ready_others r;
  ca_certs : length (bg_certificate_hashes g) = certs
}.

(** The load checks of proposer and replica agree on the hard limit and not
    on the soft one.  Take the transactions that the mempool offers a proposer
    of the next block who will include [certs] certificates.  A replica in the
    same state never turns the header down for the hard limit.  It turns it
    down for the soft limit exactly when the number in flight is at that limit
    and the block has an ordinary transaction: the proposer subtracts the
    certificates of its own block before it compares with the soft limit, the
    replica does not.  In particular a block without certificates passes. *)
Theorem proposal_load_check g s max_count pending_txs certs :
  let m := n_mempool s in
  let r := ready_transactions m max_count pending_txs certs in
  bh_height (bg_header g) = s_committed_height (n_bft s) +w 1 -> carries g r certs ->
  (exceeds_in_flight_limits g s = true <->
   (max_in_flight (mp_config m) <= in_flight m)%nat /\ ready_others r <> []) /\
  (certs = 0%nat -> exceeds_in_flight_limits g s = false).
Proof.
  cbv zeta. intros Hh [Er Ep Eo Ec]. set (m := n_mempool s) in *.
  destruct (ready_within_limits m max_count pending_txs certs) as [Htot Hsoft].
  revert Er Ep Eo Htot Hsoft. generalize (ready_transactions m max_count pending_txs certs) as r.
  intros r Er Ep Eo Htot Hsoft. unfold effective_load, ready_total in *.
  assert (exceeds_in_flight_limits g s
    = Nat.leb (max_in_flight (mp_config m)) (in_flight m) && negb (Nat.eqb (length (ready_others r)) 0))
    as E.
  { unfold exceeds_in_flight_limits. rewrite Hh, N.eqb_refl, Er, Ep, Eo, !length_fmap, Ec. fold m.
    destruct (Nat.ltb_spec (max_in_flight_hard_limit (mp_config m))
      (in_flight m + (length (ready_retries r) + length (ready_priority r)
       + length (ready_others r)) - certs)%nat); [|done].
    destruct (Nat.ltb_spec (in_flight m) (in_flight m + (length (ready_retries r)
      + length (ready_priority r) + length (ready_others r)) - certs)%nat); [lia|done]. }
  rewrite E. split.
  - rewrite andb_true_iff, negb_true_iff, Nat.leb_le, Nat.eqb_neq.
    destruct (ready_others r); naive_solver.
  - intros ->. apply andb_false_iff. destruct (Nat.leb_spec (max_in_flight (mp_config m)) (in_flight m)).
    + right. rewrite Hsoft by lia. done.
    + by left.
Qed.
End load.

(** ** A proposal that its own state rejects *)

(** The soft limit is one; one transaction is in flight and its certificate
    is ready, another one waits. *)
Definition tight_config : MempoolConfig := mk_mempool_config 1 4 10.
Definition loaded_mempool : MempoolState :=
  @mempool_run sample_crypto (sample_topology 0) canonical_iter
    [GossipTx first_node; GossipTx second_node; CommitBlock (sample_commit 1 [first_node] [])]
    (mempool_with_config tight_config).

Definition loaded_node : NodeState :=
  (@node_with_speculative_config sample_crypto (sample_topology 0) 1 default_config
     (mk_recovered_state ∅ 0 None None None) 10 3 tight_config)
    <| n_mempool := loaded_mempool |>.

Definition loaded_ready : ReadyTransactions := ready_transactions loaded_mempool 100 0 1.

Definition loaded_header : BlockHeaderGossip :=
  mk_block_header_gossip (bl_header (sample_commit 1 [] []))
    (rt_hash <$> ready_retries loaded_ready) (rt_hash <$> ready_priority loaded_ready)
    (rt_hash <$> ready_others loaded_ready) [rt_hash first_node] [] [] ∅.

Lemma proposal_load_check_witness :
  ready_others loaded_ready = [second_node] /\
  exceeds_in_flight_limits loaded_header loaded_node = true.
Proof.
  split; [vm_compute; reflexivity|].
  destruct (proposal_load_check loaded_header loaded_node 100 0 1) as [Hiff _].
  - vm_compute. reflexivity.
  - split; vm_compute; reflexivity.
  - apply Hiff. split; [apply Nat.leb_le; vm_compute; reflexivity|].
    vm_compute. discriminate.
Defined.
