(* ===== verification/NodeSamples.v ===== *)
(** * Concrete runs of a node

    A node at genesis receives two headers, learns that both blocks are ready
    to commit, the second one first, and is handed the first of the two
    commits.  The run instantiates the theorems on nodes. *)

From stdpp Require Import base gmap list numbers sorting relations.
From Stdlib Require Import NArith Lia.
From S2P Require Import Prelude Bitfield Types Encoding Topology Transactions Core VoteSet PendingBlock.
From S2P Require Import BftState BftVote BftCommit BftPropose BftChain BftReach Livelock Provisions.
From S2P Require Import Mempool MempoolInv MempoolRuns Execution ExecutionRuns Node NodeEvents.
From S2P Require Import NodeRuns NodeLoop.

#[local] Existing Instances sample_crypto canonical_iter.
#[local] Instance sample_topology_0 : Topology := sample_topology 0.

(** No certificate comes from elsewhere in this run. *)
Definition nothing_declared (h : Hash) : list NodeId * list NodeId := ([], []).
Definition no_state_certificate (c : StateCertificate) : Prop := False.
Definition no_certificate (c : TransactionCertificate) : Prop := False.

Definition genesis_node : NodeState :=
  (node_initialize_genesis sample_genesis
     (node_new 1 default_config (mk_recovered_state ∅ 0 None None None))).1.

Definition handled (e : Event) (s : NodeState) : NodeState * list Action :=
  default (s, []) (handle e s).

Definition first_commit (acts : list Action) : Event :=
  match to_callback acts with e :: _ => e | [] => CleanupTimerFired end.

Definition header_1_event : Event := BlockHeaderReceived (sample_gossip sample_header_1).
Definition header_2_event : Event := BlockHeaderReceived (sample_gossip sample_header_2).

Definition run_1 := handled header_1_event genesis_node.
Definition run_2 := handled header_2_event run_1.1.
Definition run_3 := handled (BlockReadyToCommit sample_hash_2 sample_qc_1) run_2.1.
Definition run_4 := handled (BlockReadyToCommit sample_hash_1 sample_qc_1) run_3.1.
Definition run_5 := handled (first_commit run_4.2) run_4.1.

Definition roomy (s : NodeState) : bool :=
  (s_committed_height (n_bft s) <? u64_max)
  && is_none_or (s_latest_qc (n_bft s)) (fun qc => qc_height qc <? u64_max).

Lemma roomy_ok s : roomy s = true -> room_for_next (n_bft s).
Proof.
  unfold roomy. intros [Hh%N.ltb_lt Hq]%andb_true_iff. split; [done|].
  intros qc Hqc. rewrite Hqc in Hq. by apply N.ltb_lt.
Qed.

(** One event of a run, all conditions checked by evaluation. *)
Definition step_checked (e : Event) (s : NodeState) : bool :=
  roomy s && match handle e s with Some _ => true | None => false end.

Lemma handled_eq e s :
  step_checked e s = true ->
  room_for_next (n_bft s) /\ handle e s = Some ((handled e s).1, (handled e s).2).
Proof.
  unfold step_checked, handled. intros [Hr Hh]%andb_true_iff. split; [by apply roomy_ok|].
  by destruct (handle e s) as [[s' acts]|].
Qed.

Abbreviation sample_run := (node_run nothing_declared no_state_certificate no_certificate).
Abbreviation sample_loop := (node_loop nothing_declared no_state_certificate no_certificate genesis_node).

#[local] Strategy opaque [sample_hash handled].

Lemma genesis_started : node_started genesis_node.
Proof. exact (started_genesis 1 default_config _ _ _ sample_genesis). Qed.

Lemma first_commit_ok :
  node_event_ok nothing_declared no_state_certificate no_certificate (first_commit run_4.2).
Proof. vm_compute. constructor. Qed.

Lemma run_event e s r s' acts :
  r = handled e s -> node_event_ok nothing_declared no_state_certificate no_certificate e ->
  step_checked e s = true -> sample_run r.1 s' acts -> sample_run s s' (r.2 ++ acts).
Proof. intros -> He Hs Hr. destruct (handled_eq e s Hs). by eapply nr_event. Qed.

Lemma sample_run_exists :
  sample_run genesis_node run_5.1 (run_1.2 ++ run_2.2 ++ run_3.2 ++ run_4.2 ++ run_5.2 ++ []).
Proof.
  apply (run_event _ _ run_1 _ _ eq_refl); [vm_compute; reflexivity..|].
  apply (run_event _ _ run_2 _ _ eq_refl); [vm_compute; reflexivity..|].
  apply (run_event _ _ run_3 _ _ eq_refl); [exact I|vm_compute; reflexivity|].
  apply (run_event _ _ run_4 _ _ eq_refl); [exact I|vm_compute; reflexivity|].
  apply (run_event _ _ run_5 _ _ eq_refl); [exact first_commit_ok|vm_compute; reflexivity|].
  apply nr_done.
Qed.

Lemma outside_event e s r callback seen :
  r = handled e s -> commits [e] = [] ->
  node_event_ok nothing_declared no_state_certificate no_certificate e ->
  step_checked e s = true -> to_status r.2 = [] -> sample_loop s callback [] seen ->
  sample_loop r.1 (callback ++ to_callback r.2) [] seen.
Proof.
  intros -> Hc He Hs Hst Hl. destruct (handled_eq e s Hs).
  assert (sample_loop (handled e s).1 (callback ++ to_callback (handled e s).2)
    ([] ++ to_status (handled e s).2) seen) as Hx by by eapply loop_outside.
  by rewrite Hst in Hx.
Qed.

Lemma callback_event e s r callback seen :
  r = handled e s -> node_event_ok nothing_declared no_state_certificate no_certificate e ->
  step_checked e s = true -> to_status r.2 = [] -> sample_loop s (e :: callback) [] seen ->
  sample_loop r.1 (callback ++ to_callback r.2) [] (seen ++ commits [e]).
Proof.
  intros -> He Hs Hst Hl. destruct (handled_eq e s Hs).
  assert (sample_loop (handled e s).1 (callback ++ to_callback (handled e s).2)
    ([] ++ to_status (handled e s).2) (seen ++ commits [e])) as Hx by by eapply loop_callback.
  by rewrite Hst in Hx.
Qed.

Lemma run_4_callback :
  (([] ++ to_callback run_1.2) ++ to_callback run_2.2) ++ to_callback run_3.2 = [] /\
  to_callback run_4.2 = first_commit run_4.2 :: drop 1 (to_callback run_4.2).
Proof. split; vm_compute; reflexivity. Qed.

Lemma sample_loop_exists :
  sample_loop run_5.1 (drop 1 (to_callback run_4.2) ++ to_callback run_5.2) []
    ([] ++ commits [first_commit run_4.2]).
Proof.
  eapply (callback_event _ _ run_5 _ _ eq_refl); [exact first_commit_ok|vm_compute; reflexivity..|].
  destruct run_4_callback as [E1 E2]. rewrite <-E2.
  change (to_callback run_4.2) with ([] ++ to_callback run_4.2). rewrite <-E1.
  apply (outside_event _ _ run_4 _ _ eq_refl); [reflexivity|exact I|vm_compute; reflexivity..|].
  apply (outside_event _ _ run_3 _ _ eq_refl); [reflexivity|exact I|vm_compute; reflexivity..|].
  apply (outside_event _ _ run_2 _ _ eq_refl); [reflexivity|vm_compute; reflexivity..|].
  apply (outside_event _ _ run_1 _ _ eq_refl); [reflexivity|vm_compute; reflexivity..|].
  apply loop_start.
Qed.

(** ** The theorems at this run *)


Lemma node_invariants_hold_witness :
  node_inv nothing_declared no_state_certificate no_certificate run_5.1.
Proof.
  exact (proj1 (node_invariants_hold nothing_declared no_state_certificate no_certificate
    genesis_node run_5.1 _ sample_no_zero genesis_started sample_run_exists)).
Defined.

