(* ===== verification/SyncManager.v ===== *)
(** * The sync manager (crates/production/src/sync.rs, sync_error.rs)

    Fetches the blocks between the committed height and a target.  Heights
    wait in a min-heap, are fetched by background tasks and are delivered to
    consensus when the response passes the checks.  The tasks and the network
    behind them are outside: a task is an action that is answered by a result
    in the channel. *)

From stdpp Require Import base gmap list numbers sorting fin_maps.
From Stdlib Require Import NArith Lia.
From S2P Require Import Prelude Bitfield Types Topology Core.

(** ** Errors (sync_error.rs) *)

Inductive SyncResponseError :=
  | NoRequestPending
  | PeerMismatch
  | RequestIdMismatch (expected actual : u64)
  | StateMismatch (height current : u64)
  | NetworkError
  | EmptyResponse (height : u64)
  | Backpressure
  | QcBlockHashMismatch (height : u64)
  | QcHeightMismatch (block_height qc_height : u64)
  | QcSignatureInvalid (height : u64)
  | QcInsufficientQuorum (height voting_power required : u64)
  | BlockHashMismatch (height : u64)
  | BlockParentMismatch (height : u64).

Definition is_malicious (e : SyncResponseError) : bool :=
  match e with
  | QcBlockHashMismatch _ | QcHeightMismatch _ _ | QcSignatureInvalid _
  | QcInsufficientQuorum _ _ _ | BlockHashMismatch _ | BlockParentMismatch _ => true
  | _ => false
  end.

Definition is_empty_response (e : SyncResponseError) : bool :=
  match e with EmptyResponse _ => true | _ => false end.

Definition is_backpressure (e : SyncResponseError) : bool :=
  match e with Backpressure => true | _ => false end.

(** ** Configuration and state *)

Record SyncConfig := mk_sync_config {
  max_spawned_fetches : usize;
  base_ban_duration : Duration;
  max_ban_duration : Duration;
  sync_window_size : u64
}.

Definition default_sync_config : SyncConfig :=
  mk_sync_config 32 (from_secs 600) (from_secs 86400) 64.

Abbreviation PeerId := N (only parsing).
Abbreviation Instant := N (only parsing).

Record PeerBanState := mk_peer_ban_state {
  banned_until : option Instant;
  ban_count : N
}.

#[export] Instance PeerBanState_eta : Eta PeerBanState := fun b =>
  mk_peer_ban_state (banned_until b) (ban_count b).

Inductive SyncStateKind := SyncIdle | SyncSyncing.

Record SyncStatus := mk_sync_status {
  ss_state : SyncStateKind;
  ss_current_height : u64;
  ss_target_height : option u64;
  ss_blocks_behind : u64;
  ss_sync_peers : usize;
  ss_pending_fetches : usize;
  ss_queued_heights : usize
}.

(** The bytes of a response stay abstract. *)
Inductive SyncFetchResult (Bytes : Type) :=
  | FetchSuccess (height : u64) (response_bytes : Bytes)
  | FetchFailed (height : u64).
Arguments FetchSuccess {Bytes}.
Arguments FetchFailed {Bytes}.

(** The heap is a sorted list; [sm_results] is the channel of the tasks. *)
Record SyncManager (Bytes : Type) := mk_sync_manager {
  sm_config : SyncConfig;
  sm_sync_target : option (u64 * Hash);
  sm_heights_to_fetch : list u64;
  sm_heights_queued : gset u64;
  sm_heights_in_flight : gset u64;
  sm_committed_height : u64;
  sm_results : list (SyncFetchResult Bytes);
  sm_peer_bans : gmap PeerId PeerBanState
}.
Arguments mk_sync_manager {Bytes}.
Arguments sm_config {Bytes}.
Arguments sm_sync_target {Bytes}.
Arguments sm_heights_to_fetch {Bytes}.
Arguments sm_heights_queued {Bytes}.
Arguments sm_heights_in_flight {Bytes}.
Arguments sm_committed_height {Bytes}.
Arguments sm_results {Bytes}.
Arguments sm_peer_bans {Bytes}.

#[export] Instance SyncManager_eta Bytes : Eta (SyncManager Bytes) := fun s =>
  mk_sync_manager (sm_config s) (sm_sync_target s) (sm_heights_to_fetch s) (sm_heights_queued s)
    (sm_heights_in_flight s) (sm_committed_height s) (sm_results s) (sm_peer_bans s).

(** A fetch task that is started, a block handed to the state machine. *)
Inductive SyncAction :=
  | SpawnFetch (height : u64) (peers : list PeerId)
  | DeliverBlock (block : Block) (qc : QuorumCertificate).

(** [first..=last] *)
Definition heights_between (first last : u64) : list u64 :=
  (fun i => first + N.of_nat i) <$> seq 0 (N.to_nat (last + 1 - first)).

(** ** The heap *)

Fixpoint heap_push (height : u64) (heap : list u64) : list u64 :=
  match heap with
  | [] => [height]
  | x :: heap' => if height <=? x then height :: heap else x :: heap_push height heap'
  end.

Section sync.
Context `{Crypto} `{T : Topology}.
Context {Bytes : Type}.
(** [sbor::basic_decode] of a response; the outer [None] is a decoding error. *)
Context (basic_decode : Bytes -> option (option (Block * QuorumCertificate))).
(** [compute_peer_id_for_validator], the libp2p identity of a key. *)
Context (compute_peer_id_for_validator : Bls12381G1PublicKey -> PeerId).

Abbreviation sync := (handler (SyncManager Bytes) SyncAction) (only parsing).
Implicit Types (s : SyncManager Bytes).

Definition sync_manager_new (config : SyncConfig) : SyncManager Bytes :=
  mk_sync_manager config None [] ∅ ∅ 0 [] ∅.

(** ** Height queue *)

Definition queue_height (height : u64) (s : SyncManager Bytes) : SyncManager Bytes :=
  if bool_decide (height ∉ sm_heights_in_flight s) && bool_decide (height ∉ sm_heights_queued s)
  then s <| sm_heights_queued ::= union {[height]} |>
         <| sm_heights_to_fetch ::= heap_push height |>
  else s.

Fixpoint pop_loop (heap : list u64) (s : SyncManager Bytes) : option u64 * SyncManager Bytes :=
  match heap with
  | [] => (None, s <| sm_heights_to_fetch := [] |>)
  | height :: heap' =>
      let queued := bool_decide (height ∈ sm_heights_queued s) in
      let s := s <| sm_heights_queued ::= fun X => X ∖ {[height]} |> in
      if queued && bool_decide (height ∉ sm_heights_in_flight s)
      then (Some height, s <| sm_heights_to_fetch := heap' |>)
      else pop_loop heap' s
  end.

Definition pop_next_height (s : SyncManager Bytes) : option u64 * SyncManager Bytes :=
  pop_loop (sm_heights_to_fetch s) s.

Definition clear_height_queue (s : SyncManager Bytes) : SyncManager Bytes :=
  s <| sm_heights_to_fetch := [] |> <| sm_heights_queued := ∅ |>.

Definition remove_heights_at_or_below (threshold : u64) (s : SyncManager Bytes) : SyncManager Bytes :=
  s <| sm_heights_queued ::= filter (fun h => threshold < h) |>
    <| sm_heights_in_flight ::= filter (fun h => threshold < h) |>.

(** ** Peers *)

Definition is_peer_banned (s : SyncManager Bytes) (peer : PeerId) (now : Instant) : bool :=
  match sm_peer_bans s !! peer ≫= banned_until with
  | Some until => now <? until
  | None => false
  end.

Definition get_sync_peers (now : Instant) (s : SyncManager Bytes) : list PeerId :=
  filter_map (fun v =>
      pk ← public_key v;
      let peer_id := compute_peer_id_for_validator pk in
      if is_peer_banned s peer_id now then None else Some peer_id)
    (filter (fun v => v <> local_validator_id) (committee_for_shard local_shard)).

Definition sync_peer_count (now : Instant) (s : SyncManager Bytes) : usize :=
  length (get_sync_peers now s).

(** [2u32.saturating_pow(min(ban_count, 10))] does not saturate. *)
Definition ban_duration (config : SyncConfig) (count : N) : Duration :=
  N.min (base_ban_duration config * 2 ^ N.min count 10) (max_ban_duration config).

Definition ban_peer (now : Instant) (peer : PeerId) (s : SyncManager Bytes) : SyncManager Bytes :=
  let state := default (mk_peer_ban_state None 0) (sm_peer_bans s !! peer) in
  s <| sm_peer_bans ::= <[peer := mk_peer_ban_state
         (Some (now + ban_duration (sm_config s) (ban_count state)))
         ((ban_count state + 1) mod 2 ^ 32)]> |>.

(** ** Queries *)

Definition is_syncing (s : SyncManager Bytes) : bool :=
  match sm_sync_target s with Some _ => true | None => false end.

Definition sync_target_height (s : SyncManager Bytes) : option u64 := fst <$> sm_sync_target s.

Definition blocks_behind (s : SyncManager Bytes) : u64 :=
  match sm_sync_target s with Some (target, _) => target - sm_committed_height s | None => 0 end.

Definition state_kind (s : SyncManager Bytes) : SyncStateKind :=
  if is_syncing s then SyncSyncing else SyncIdle.

Definition sync_status (now : Instant) (s : SyncManager Bytes) : SyncStatus := {|
  ss_state := state_kind s;
  ss_current_height := sm_committed_height s;
  ss_target_height := sync_target_height s;
  ss_blocks_behind := blocks_behind s;
  ss_sync_peers := sync_peer_count now s;
  ss_pending_fetches := size (sm_heights_in_flight s);
  ss_queued_heights := length (sm_heights_to_fetch s)
|}.

(** ** Responses *)

Definition validate_sync_response (requested_height : u64) (block : Block) (qc : QuorumCertificate)
    : option SyncResponseError :=
  if negb (bh_height (bl_header block) =? requested_height)
  then Some (StateMismatch (bh_height (bl_header block)) requested_height)
  else if negb (qc_block_hash qc =? block_hash block)
  then Some (QcBlockHashMismatch requested_height)
  else if negb (qc_height qc =? requested_height)
  then Some (QcHeightMismatch requested_height (qc_height qc))
  else None.

Definition validate_block (block : Block) (qc : QuorumCertificate) : bool :=
  if negb (qc_block_hash qc =? block_hash block) then false
  else if negb (qc_height qc =? bh_height (bl_header block)) then false
  else true.

Definition on_block_received (height : u64) (block : Block) (qc : QuorumCertificate) : sync :=
  if negb (validate_block block qc) then hupd (queue_height height)
  else hemit [DeliverBlock block qc].

Definition handle_block_response (height : u64) (response_bytes : Bytes) : sync :=
  match basic_decode response_bytes with
  | Some (Some (block, qc)) =>
      match validate_sync_response height block qc with
      | None => on_block_received height block qc
      | Some _ => hupd (queue_height height)
      end
  | Some None | None => hupd (queue_height height)
  end.

Definition process_fetch_result (result : SyncFetchResult Bytes) : sync :=
  match result with
  | FetchSuccess height response_bytes =>
      hupd (fun s => s <| sm_heights_in_flight ::= fun X => X ∖ {[height]} |>) ;>
      handle_block_response height response_bytes
  | FetchFailed height =>
      hupd (fun s => queue_height height (s <| sm_heights_in_flight ::= fun X => X ∖ {[height]} |>))
  end.

Definition process_fetch_results : sync := fun s =>
  for_each process_fetch_result (sm_results s) (s <| sm_results := [] |>).

(** ** Fetching *)

(** The loop runs while there is a free slot; each pass takes one. *)
Fixpoint spawn_loop (fuel : nat) (peers : list PeerId) (s : SyncManager Bytes)
    : SyncManager Bytes * list SyncAction :=
  match fuel with
  | O => (s, [])
  | S fuel =>
      if Nat.ltb (size (sm_heights_in_flight s)) (max_spawned_fetches (sm_config s)) then
        match pop_next_height s with
        | (Some height, s) =>
            let s := s <| sm_heights_in_flight ::= union {[height]} |> in
            let '(s, acts) := spawn_loop fuel peers s in
            (s, SpawnFetch height peers :: acts)
        | (None, s) => (s, [])
        end
      else (s, [])
  end.

Definition spawn_pending_fetches (now : Instant) : sync := fun s =>
  let peers := get_sync_peers now s in
  match peers with
  | [] => (s, [])
  | _ => spawn_loop (max_spawned_fetches (sm_config s) - size (sm_heights_in_flight s)) peers s
  end.

Definition queue_heights_in_window (s : SyncManager Bytes) : SyncManager Bytes :=
  match sm_sync_target s with
  | None => s
  | Some (target_height, _) =>
      let first_height := sm_committed_height s +w 1 in
      let window_end :=
        if sync_window_size (sm_config s) =? 0 then target_height
        else N.min (sm_committed_height s +w sync_window_size (sm_config s)) target_height in
      foldl (fun s height =>
          if bool_decide (height ∉ sm_heights_in_flight s) then queue_height height s else s)
        s (heights_between first_height window_end)
  end.

Definition set_committed_height (height : u64) (s : SyncManager Bytes)
    : SyncManager Bytes * option u64 :=
  let s := remove_heights_at_or_below height (s <| sm_committed_height := height |>) in
  match sm_sync_target s with
  | Some (target, _) =>
      if target <=? height then (clear_height_queue (s <| sm_sync_target := None |>), Some target)
      else (queue_heights_in_window s, None)
  | None => (s, None)
  end.

Definition start_sync (now : Instant) (target_height : u64) (target_hash : Hash) : sync := fun s =>
  if match sm_sync_target s with Some (t, _) => target_height <=? t | None => false end then (s, [])
  else
    spawn_pending_fetches now
      (queue_heights_in_window (s <| sm_sync_target := Some (target_height, target_hash) |>)).

Definition cancel_sync (s : SyncManager Bytes) : SyncManager Bytes :=
  (clear_height_queue (s <| sm_sync_target := None |>)) <| sm_heights_in_flight := ∅ |>.

Definition tick (now : Instant) : sync :=
  process_fetch_results ;>
  (fun s => if is_syncing s then spawn_pending_fetches now s else (s, [])).

(** A task puts its result into the channel. *)
Definition result_arrives (result : SyncFetchResult Bytes) (s : SyncManager Bytes) : SyncManager Bytes :=
  s <| sm_results ::= fun rs => rs ++ [result] |>.
End sync.
