(* ===== verification/SyncRuns.v ===== *)
(** * Runs of the sync manager

    The invariant of the height queue, that no height of the window is lost,
    that honest answers complete a sync, and what a rejected block does to
    it. *)

From stdpp Require Import base gmap list numbers sorting fin_maps fin_sets.
From Stdlib Require Import NArith Lia.
From S2P Require Import Prelude Bitfield Types Encoding Topology Core SyncManager.

Lemma elem_of_heights first last k : k ∈ heights_between first last <-> first <= k <= last.
Proof.
  unfold heights_between. rewrite list_elem_of_fmap. split.
  - intros (i & -> & Hi%elem_of_seq). lia.
  - intros [H1 H2]. exists (N.to_nat (k - first)). split; [lia|]. apply elem_of_seq. lia.
Qed.

Lemma elem_of_heap_push h heap k : k ∈ heap_push h heap <-> k = h \/ k ∈ heap.
Proof.
  induction heap as [|x heap IH]; cbn [heap_push]; [set_solver|].
  destruct (h <=? x); set_solver.
Qed.

Lemma heap_push_sorted h heap :
  StronglySorted N.le heap -> StronglySorted N.le (heap_push h heap).
Proof.
  induction 1 as [|x heap Hs IH Hx]; cbn [heap_push]; [repeat constructor|].
  destruct (N.leb_spec h x).
  - constructor; [by constructor|]. constructor; [done|].
    eapply Forall_impl; [exact Hx|]. cbn. lia.
  - constructor; [done|]. apply Forall_forall. intros k [->|Hk]%elem_of_heap_push; [lia|].
    by eapply Forall_forall in Hx.
Qed.

Section queue.
Context `{Crypto} `{T : Topology}.
Context {Bytes : Type}.
Context (basic_decode : Bytes -> option (option (Block * QuorumCertificate))).
Context (peer_of : Bls12381G1PublicKey -> N).
Implicit Types (s : SyncManager Bytes) (k h : u64).

(** The heap is ordered and has every queued height; a height is not queued
    and fetched at once; the tasks are within the limit. *)
Record sync_inv s : Prop := {
  sy_sorted : StronglySorted N.le (sm_heights_to_fetch s);
  sy_heap k : k ∈ sm_heights_queued s -> k ∈ sm_heights_to_fetch s;
  sy_disjoint : sm_heights_queued s ## sm_heights_in_flight s;
  sy_limit : (size (sm_heights_in_flight s) <= max_spawned_fetches (sm_config s))%nat
}.

(** Queued or being fetched. *)
Definition covered s k : Prop := k ∈ sm_heights_queued s \/ k ∈ sm_heights_in_flight s.

(** What queuing and spawning leave alone. *)
Definition same_sync s s' : Prop :=
  sm_config s' = sm_config s /\ sm_sync_target s' = sm_sync_target s /\
  sm_committed_height s' = sm_committed_height s /\ sm_results s' = sm_results s /\
  sm_peer_bans s' = sm_peer_bans s.

Lemma same_sync_refl s : same_sync s s.
Proof. by split_and!. Qed.
Lemma same_sync_trans s1 s2 s3 : same_sync s1 s2 -> same_sync s2 s3 -> same_sync s1 s3.
Proof. unfold same_sync. intros. destruct_and!. split_and!; congruence. Qed.

(** ** Queuing *)

Lemma queue_height_spec h s :
  let s' := queue_height h s in
  same_sync s s' /\ sm_heights_in_flight s' = sm_heights_in_flight s /\
  (forall k, k ∈ sm_heights_queued s' <->
     k ∈ sm_heights_queued s \/ k = h /\ (h ∉ sm_heights_in_flight s)).
Proof.
  cbv zeta. unfold queue_height. do 2 case_bool_decide; cbn; split_and!; try by split_and!.
  all: set_solver.
Qed.

Lemma queue_height_inv h s : sync_inv s -> sync_inv (queue_height h s).
Proof.
  intros [Hs Hh Hd Hl]. unfold queue_height. do 2 case_bool_decide; cbn; [|by split..].
  split; cbn; [by apply heap_push_sorted|intros k; rewrite elem_of_heap_push; set_solver|set_solver|done].
Qed.

(** ** Taking the next height *)

(** The lowest queued height, and nothing else changes. *)
Lemma pop_loop_spec heap s :
  StronglySorted N.le heap -> (forall k, k ∈ sm_heights_queued s -> k ∈ heap) ->
  sm_heights_queued s ## sm_heights_in_flight s ->
  let r := pop_loop heap s in
  same_sync s r.2 /\ sm_heights_in_flight r.2 = sm_heights_in_flight s /\
  StronglySorted N.le (sm_heights_to_fetch r.2) /\
  (forall k, k ∈ sm_heights_queued r.2 -> k ∈ sm_heights_to_fetch r.2) /\
  match r.1 with
  | Some h => h ∈ sm_heights_queued s /\ (forall k, k ∈ sm_heights_queued s -> h <= k) /\
      sm_heights_queued r.2 = sm_heights_queued s ∖ {[h]}
  | None => sm_heights_queued s = ∅ /\ sm_heights_queued r.2 = ∅
  end.
Proof.
  revert s. induction heap as [|x heap IH]; intros s Hsort Hin Hd; cbn [pop_loop].
  - assert (sm_heights_queued s = ∅) as E by (apply set_eq; set_solver).
    cbn. rewrite E. split_and!; first [done|constructor|set_solver].
  - apply StronglySorted_inv in Hsort as [Hsort Hx]. case_bool_decide as Hq; cbn [andb].
    + case_bool_decide as Hf; cbn in Hf; [|set_solver]. cbn. split_and!; try done.
      * intros k Hk. apply elem_of_difference in Hk as [Hk Hne].
        apply Hin, elem_of_cons in Hk as [->|Hk]; [set_solver|done].
      * intros k [->|Hk]%Hin%elem_of_cons; [done|]. by eapply Forall_forall in Hx.
    + specialize (IH (s <| sm_heights_queued ::= fun X => X ∖ {[x]} |>)). cbn in IH.
      assert (sm_heights_queued s ∖ {[x]} = sm_heights_queued s) as E by (apply set_eq; set_solver).
      rewrite E in IH. apply IH; [done| |done].
      intros k Hk. pose proof (Hin k Hk) as [->|]%elem_of_cons; done.
Qed.

Lemma pop_next_spec s :
  sync_inv s ->
  let r := pop_next_height s in
  same_sync s r.2 /\ sync_inv r.2 /\ sm_heights_in_flight r.2 = sm_heights_in_flight s /\
  match r.1 with
  | Some h => h ∈ sm_heights_queued s /\ (forall k, k ∈ sm_heights_queued s -> h <= k) /\
      sm_heights_queued r.2 = sm_heights_queued s ∖ {[h]}
  | None => sm_heights_queued s = ∅ /\ sm_heights_queued r.2 = ∅
  end.
Proof.
  intros [Hs Hh Hd Hl]. cbv zeta. unfold pop_next_height.
  destruct (pop_loop_spec (sm_heights_to_fetch s) s Hs Hh Hd) as (Hc & Hf & Hs' & Hh' & Hr).
  split_and!; [done| |done|done]. destruct Hc as (Ec & _).
  split; [done|done| |by rewrite Hf, Ec].
  rewrite Hf. destruct (pop_loop _ s).1; destruct_and!; [|set_solver].
  match goal with E : _ = _ ∖ _ |- _ => rewrite E end. set_solver.
Qed.

(** ** Starting tasks *)

(** The lowest queued heights get the free slots, each one task, until the
    slots or the queue run out. *)
Record spawned (peers : list N) s (r : SyncManager Bytes * list SyncAction) : Prop := {
  sp_same : same_sync s r.1;
  sp_inv : sync_inv r.1;
  sp_covered k : covered r.1 k <-> covered s k;
  sp_grows : sm_heights_in_flight s ⊆ sm_heights_in_flight r.1;
  sp_acts : exists hs, r.2 = (fun h => SpawnFetch h peers) <$> hs /\
    (forall k, k ∈ hs <-> k ∈ sm_heights_in_flight r.1 /\ (k ∉ sm_heights_in_flight s)) /\
    (forall h k, h ∈ hs -> k ∈ sm_heights_queued r.1 -> h <= k);
  sp_full : (size (sm_heights_in_flight r.1) = max_spawned_fetches (sm_config s))%nat
            \/ sm_heights_queued r.1 = ∅
}.

Lemma spawn_loop_spec fuel peers s :
  sync_inv s -> fuel = (max_spawned_fetches (sm_config s) - size (sm_heights_in_flight s))%nat ->
  spawned peers s (spawn_loop fuel peers s).
Proof.
  revert s. induction fuel as [|fuel IH]; intros s Hi Hf; cbn [spawn_loop].
  - pose proof (sy_limit s Hi). split; cbn; try done; [|left; lia].
    exists []. split_and!; [done|set_solver..].
  - destruct (Nat.ltb_spec (size (sm_heights_in_flight s)) (max_spawned_fetches (sm_config s))); [|lia].
    destruct (pop_next_spec s Hi) as (Hsame & Hi1 & Hf1 & Hr).
    destruct (pop_next_height s) as [[h|] s1]; cbn [fst snd] in *.
    + destruct Hr as (Hq & Hmin & Hq1). pose proof (sy_disjoint s Hi) as Hd.
      destruct Hsame as (Ec & Et & Ek & Er & Eb).
      set (s2 := s1 <| sm_heights_in_flight ::= union {[h]} |>).
      assert (size (sm_heights_in_flight s2) = S (size (sm_heights_in_flight s))) as Hsz.
      { unfold s2. cbn. rewrite Hf1, size_union, size_singleton; [done|set_solver]. }
      assert (sync_inv s2) as Hi2.
      { destruct Hi1. split; [done|done| |].
        - unfold s2. cbn. rewrite Hf1, Hq1. set_solver.
        - rewrite Hsz. unfold s2. cbn. rewrite Ec. lia. }
      assert (max_spawned_fetches (sm_config s2) = max_spawned_fetches (sm_config s)) as Em
        by (unfold s2; cbn; by rewrite Ec).
      destruct (IH s2 Hi2) as [Hs3 Hi3 Hc3 Hg3 (hs & Ea & Hhs & Hlow) Hfull3]; [rewrite Em, Hsz; lia|].
      destruct (spawn_loop fuel peers s2) as [s3 acts]. cbn [fst snd] in *. split; cbn [fst snd].
      * eapply same_sync_trans; [|exact Hs3]. by split_and!.
      * done.
      * intros k. rewrite Hc3. unfold covered, s2. cbn. rewrite Hf1, Hq1.
        destruct (decide (k = h)); set_solver.
      * unfold s2 in Hg3. cbn in Hg3. set_solver.
      * exists (h :: hs). split_and!; [by rewrite Ea|..].
        -- intros k. rewrite elem_of_cons, Hhs. unfold s2 in *. cbn in *. rewrite Hf1 in *.
           destruct (decide (k = h)); set_solver.
        -- intros h' k [->|Hh']%elem_of_cons Hk; [|by eapply Hlow]. apply Hmin.
           assert (covered s3 k) as Hck%Hc3 by by left. unfold covered, s2 in Hck. cbn in Hck.
           destruct Hck as [Hck|Hck]; [set_solver|].
           pose proof (sy_disjoint s3 Hi3). unfold s2 in Hg3. cbn in Hg3. set_solver.
      * by rewrite <-Em.
    + destruct Hr as [E1 E2]. split; cbn [fst snd]; try done.
      * intros k. unfold covered. rewrite Hf1, E1, E2. done.
      * by rewrite Hf1.
      * exists []. rewrite Hf1. split_and!; [done|set_solver..].
      * by right.
Qed.

Lemma spawn_pending_spec now s :
  sync_inv s -> get_sync_peers peer_of now s <> [] ->
  spawned (get_sync_peers peer_of now s) s (spawn_pending_fetches peer_of now s).
Proof.
  intros Hi Hp. unfold spawn_pending_fetches. destruct (get_sync_peers peer_of now s) eqn:E; [done|].
  by apply spawn_loop_spec.
Qed.

Lemma spawn_pending_nobody now s :
  get_sync_peers peer_of now s = [] -> spawn_pending_fetches peer_of now s = (s, []).
Proof. intros E. unfold spawn_pending_fetches. by rewrite E. Qed.

(** ** The window *)

Definition window_end s (target : u64) : u64 :=
  if sync_window_size (sm_config s) =? 0 then target
  else N.min (sm_committed_height s +w sync_window_size (sm_config s)) target.

Definition in_window s k : Prop :=
  exists target hash, sm_sync_target s = Some (target, hash) /\
    sm_committed_height s +w 1 <= k <= window_end s target.

Lemma queue_all_spec hs s :
  let s' := foldl (fun s height =>
    if bool_decide (height ∉ sm_heights_in_flight s) then queue_height height s else s) s hs in
  same_sync s s' /\ sm_heights_in_flight s' = sm_heights_in_flight s /\
  (sync_inv s -> sync_inv s') /\ (forall k, covered s' k <-> covered s k \/ k ∈ hs).
Proof.
  cbv zeta. revert s. induction hs as [|h hs IH]; intros s; cbn [foldl].
  { split_and!; try done. set_solver. }
  set (s1 := if bool_decide _ then _ else s).
  assert (same_sync s s1 /\ sm_heights_in_flight s1 = sm_heights_in_flight s /\
    (sync_inv s -> sync_inv s1) /\ (forall k, covered s1 k <-> covered s k \/ k = h))
    as (Hs1 & Hf1 & Hi1 & Hc1).
  { unfold s1. destruct (queue_height_spec h s) as (Hq1 & Hq2 & Hq3). case_bool_decide.
    - split_and!; [done|done|apply queue_height_inv|]. intros k. unfold covered.
      rewrite Hq2, Hq3. set_solver.
    - split_and!; [done..|]. intros k. unfold covered.
      destruct (decide (k = h)) as [->|]; [|naive_solver].
      assert (h ∈ sm_heights_in_flight s) by by destruct (decide (h ∈ sm_heights_in_flight s)). naive_solver. }
  destruct (IH s1) as (Hs2 & Hf2 & Hi2 & Hc2). split_and!.
  - by eapply same_sync_trans.
  - by rewrite Hf2.
  - auto.
  - intros k. rewrite Hc2, Hc1. set_solver.
Qed.

Lemma queue_window_spec s :
  let s' := queue_heights_in_window s in
  same_sync s s' /\ sm_heights_in_flight s' = sm_heights_in_flight s /\
  (sync_inv s -> sync_inv s') /\ (forall k, covered s' k <-> covered s k \/ in_window s k).
Proof.
  cbv zeta. unfold queue_heights_in_window. destruct (sm_sync_target s) as [[target hash]|] eqn:Et.
  - destruct (queue_all_spec (heights_between (sm_committed_height s +w 1) (window_end s target)) s)
      as (Hs & Hf & Hi & Hc).
    split_and!; [exact Hs|exact Hf|exact Hi|]. intros k. etrans; [exact (Hc k)|].
    rewrite elem_of_heights. unfold in_window. naive_solver.
  - split_and!; try done. intros k. unfold in_window. naive_solver.
Qed.

(** ** Results *)

Definition result_height (r : SyncFetchResult Bytes) : u64 :=
  match r with FetchSuccess h _ | FetchFailed h => h end.

Definition delivered_heights (acts : list SyncAction) : list u64 :=
  omap (fun a => match a with DeliverBlock b _ => Some (bh_height (bl_header b)) | _ => None end) acts.

Definition spawned_heights (acts : list SyncAction) : list u64 :=
  omap (fun a => match a with SpawnFetch h _ => Some h | _ => None end) acts.

(** The certificate names the block and its height. *)
Definition block_checked (block : Block) (qc : QuorumCertificate) : Prop :=
  qc_block_hash qc = block_hash block /\ qc_height qc = bh_height (bl_header block).

Record answered (hs : list u64) s (r : SyncManager Bytes * list SyncAction) : Prop := {
  an_same : same_sync s r.1;
  an_flight : sm_heights_in_flight r.1 = sm_heights_in_flight s ∖ list_to_set hs;
  an_inv : sync_inv s -> sync_inv r.1;
  an_spawned : spawned_heights r.2 = [];
  an_checked b q : DeliverBlock b q ∈ r.2 -> block_checked b q /\ bh_height (bl_header b) ∈ hs;
  an_kept k : k ∈ hs -> k ∈ sm_heights_queued r.1 \/ k ∈ delivered_heights r.2;
  an_mono k : k ∈ sm_heights_queued s -> k ∈ sm_heights_queued r.1;
  an_only k : k ∈ sm_heights_queued r.1 -> k ∈ sm_heights_queued s \/ k ∈ hs
}.

Lemma land_inv h s : sync_inv s -> sync_inv (s <| sm_heights_in_flight ::= fun X => X ∖ {[h]} |>).
Proof.
  intros [Hs Hh Hd Hl]. split; cbn; [done|done|set_solver|].
  etrans; [|exact Hl]. apply subseteq_size. set_solver.
Qed.

Lemma requeued h s :
  answered [h] s (hupd (queue_height h) (s <| sm_heights_in_flight ::= fun X => X ∖ {[h]} |>)).
Proof.
  set (s1 := s <| sm_heights_in_flight ::= _ |>).
  destruct (queue_height_spec h s1) as (Hs & Hf & Hq). split; cbn [fst snd hupd].
  - by eapply same_sync_trans; [|exact Hs].
  - rewrite Hf. unfold s1. cbn. set_solver.
  - intros Hi. by apply queue_height_inv, land_inv.
  - done.
  - set_solver.
  - intros k ->%list_elem_of_singleton. left. apply Hq. unfold s1. cbn. set_solver.
  - intros k Hk. apply Hq. by left.
  - intros k [Hk|[-> _]]%Hq; [by left|right]. set_solver.
Qed.

Lemma process_result_spec result s :
  answered [result_height result] s (process_fetch_result basic_decode result s).
Proof.
  destruct result as [h bytes|h]; [|exact (requeued h s)].
  unfold process_fetch_result, hseq, hupd at 1.
  pose proof (requeued h s) as Hre. set (s1 := s <| sm_heights_in_flight ::= _ |>) in *.
  assert (answered [h] s (handle_block_response basic_decode h bytes s1)) as Ha.
  { unfold handle_block_response. destruct (basic_decode bytes) as [[[block qc]|]|]; [|exact Hre..].
    unfold validate_sync_response. destruct (N.eqb_spec (bh_height (bl_header block)) h); [|exact Hre].
    destruct (N.eqb_spec (qc_block_hash qc) (block_hash block)); [|exact Hre].
    destruct (N.eqb_spec (qc_height qc) h); [|exact Hre]. cbn [negb].
    unfold on_block_received. case_match; [exact Hre|]. split; cbn.
    - by split_and!.
    - set_solver.
    - by apply land_inv.
    - done.
    - intros b q Hb%list_elem_of_singleton. injection Hb as -> ->. split; [|set_solver].
      split; [done|congruence].
    - intros k ->%list_elem_of_singleton. right. set_solver.
    - done.
    - by left. }
  destruct (handle_block_response basic_decode h bytes s1) as [s2 a2]. exact Ha.
Qed.

Lemma answered_app hs1 hs2 s s1 a1 s2 a2 :
  answered hs1 s (s1, a1) -> answered hs2 s1 (s2, a2) -> answered (hs1 ++ hs2) s (s2, a1 ++ a2).
Proof.
  intros [A1 A2 A3 A4 A5 A6 A7 A8] [B1 B2 B3 B4 B5 B6 B7 B8]. cbn [fst snd] in *. split; cbn [fst snd].
  - by eapply same_sync_trans.
  - rewrite B2, A2, list_to_set_app_L. set_solver.
  - auto.
  - unfold spawned_heights in *. by rewrite omap_app, A4, B4.
  - intros b q [Hb|Hb]%elem_of_app; [destruct (A5 b q Hb)|destruct (B5 b q Hb)]; set_solver.
  - intros k Hk. unfold delivered_heights in *. rewrite omap_app, elem_of_app.
    apply elem_of_app in Hk as [Hk|Hk].
    + destruct (A6 k Hk); [left; auto|auto].
    + destruct (B6 k Hk); auto.
  - auto.
  - intros k Hk. destruct (B8 k Hk) as [Hk'|]; [|set_solver]. destruct (A8 k Hk'); set_solver.
Qed.

Lemma answered_none s : answered [] s (s, []).
Proof. split; cbn; first [done|set_solver|by split_and!]. Qed.

Lemma process_results_loop rs s :
  answered (result_height <$> rs) s (for_each (process_fetch_result basic_decode) rs s).
Proof.
  revert s. induction rs as [|r rs IH]; intros s; [apply answered_none|].
  cbn [for_each fmap list_fmap]. unfold hseq.
  pose proof (process_result_spec r s) as Hr. destruct (process_fetch_result basic_decode r s) as [s1 a1].
  pose proof (IH s1) as Hrs. destruct (for_each _ rs s1) as [s2 a2].
  exact (answered_app [result_height r] _ _ _ _ _ _ Hr Hrs).
Qed.

(** ** Runs *)

(** The manager, the tasks that run, and the heights delivered so far. *)
Record sync_world := mk_sync_world {
  w_sync : SyncManager Bytes;
  w_tasks : list u64;
  w_delivered : gset u64
}.

Inductive sync_step : sync_world -> list SyncAction -> sync_world -> Prop :=
  | ss_start now target hash s tasks del :
      let r := start_sync peer_of now target hash s in
      sync_step (mk_sync_world s tasks del) r.2
        (mk_sync_world r.1 (tasks ++ spawned_heights r.2) del)
  | ss_commit h s tasks del :
      sync_step (mk_sync_world s tasks del) [] (mk_sync_world (set_committed_height h s).1 tasks del)
  | ss_tick now s tasks del :
      let r := tick basic_decode peer_of now s in
      sync_step (mk_sync_world s tasks del) r.2
        (mk_sync_world r.1 (tasks ++ spawned_heights r.2)
           (list_to_set (delivered_heights r.2) ∪ del))
  | ss_result result s tasks rest del :
      tasks ≡ₚ result_height result :: rest ->
      sync_step (mk_sync_world s tasks del) [] (mk_sync_world (result_arrives result s) rest del)
  | ss_cancel s tasks del :
      sync_step (mk_sync_world s tasks del) [] (mk_sync_world (cancel_sync s) tasks del)
  | ss_ban now peer s tasks del :
      sync_step (mk_sync_world s tasks del) [] (mk_sync_world (ban_peer now peer s) tasks del).

Inductive sync_run (config : SyncConfig) : sync_world -> list SyncAction -> Prop :=
  | sync_run_new : sync_run config (mk_sync_world (sync_manager_new config) [] ∅) []
  | sync_run_step w acts acts' w' :
      sync_run config w acts -> sync_step w acts' w' -> sync_run config w' (acts ++ acts').

(** A task or its result for a height. *)
Definition attended (w : sync_world) k : Prop :=
  k ∈ w_tasks w \/ k ∈ (result_height <$> sm_results (w_sync w)).

Record world_inv (w : sync_world) : Prop := {
  wi_sync : sync_inv (w_sync w);
  wi_flight k : k ∈ sm_heights_in_flight (w_sync w) -> attended w k;
  wi_window k : in_window (w_sync w) k -> covered (w_sync w) k \/ k ∈ w_delivered w
}.

Lemma in_window_same s s' k : same_sync s s' -> in_window s' k <-> in_window s k.
Proof. unfold in_window, window_end. intros (-> & -> & -> & _). done. Qed.

Lemma spawned_acts peers hs : spawned_heights ((fun h => SpawnFetch h peers) <$> hs) = hs.
Proof. induction hs as [|h hs IH]; [done|]. cbn. by f_equal. Qed.

(** Starting tasks keeps the invariant. *)
Lemma spawn_world now s tasks del :
  world_inv (mk_sync_world s tasks del) ->
  let r := spawn_pending_fetches peer_of now s in
  world_inv (mk_sync_world r.1 (tasks ++ spawned_heights r.2) del) /\ delivered_heights r.2 = [] /\
  (forall b q, DeliverBlock b q ∉ r.2).
Proof.
  intros [Hi Hf Hw]. cbv zeta. cbn in *. destruct (decide (get_sync_peers peer_of now s = [])) as [E|Hp].
  { rewrite spawn_pending_nobody by done. cbn. rewrite app_nil_r. split_and!; [by split|done|set_solver]. }
  destruct (spawn_pending_spec now s Hi Hp) as [Hs Hi' Hc Hg (hs & Ea & Hhs & _) _].
  destruct (spawn_pending_fetches peer_of now s) as [s' acts]. cbn [fst snd] in *. subst acts.
  rewrite spawned_acts. split_and!.
  - split; cbn; [done|..].
    + intros k Hk. unfold attended. cbn. destruct Hs as (_ & _ & _ & -> & _). rewrite elem_of_app.
      destruct (decide (k ∈ sm_heights_in_flight s)) as [Hk'|Hk'].
      * destruct (Hf k Hk') as [|]; cbn in *; auto.
      * left. right. by apply Hhs.
    + intros k Hk. rewrite Hc. apply Hw. by apply (in_window_same s s').
  - clear. by induction hs.
  - intros b q (h & ? & _)%list_elem_of_fmap. done.
Qed.

Lemma window_world s tasks del :
  sync_inv s -> (forall k, k ∈ sm_heights_in_flight s -> attended (mk_sync_world s tasks del) k) ->
  world_inv (mk_sync_world (queue_heights_in_window s) tasks del).
Proof.
  intros Hi Hf. destruct (queue_window_spec s) as (Hs & Hfl & Hi' & Hc). split; cbn.
  - auto.
  - intros k. rewrite Hfl. intros Hk%Hf. unfold attended in *. cbn in *.
    by destruct Hs as (_ & _ & _ & -> & _).
  - intros k Hk. left. apply Hc. right. by apply (in_window_same _ _ k Hs).
Qed.

Lemma process_world s tasks del :
  world_inv (mk_sync_world s tasks del) ->
  let r := process_fetch_results basic_decode s in
  world_inv (mk_sync_world r.1 tasks (list_to_set (delivered_heights r.2) ∪ del)) /\
  spawned_heights r.2 = [] /\ (forall b q, DeliverBlock b q ∈ r.2 -> block_checked b q).
Proof.
  intros [Hi Hf Hw]. cbv zeta. cbn in *. unfold process_fetch_results.
  destruct (process_results_loop (sm_results s) (s <| sm_results := [] |>))
    as [Hs Hfl Hi' Hsp Hch Hk Hm _].
  destruct (for_each _ _ _) as [s' acts]. cbn [fst snd] in *. split_and!; [split; cbn|done|].
  - apply Hi'. by destruct Hi.
  - intros k. rewrite Hfl. cbn. intros [Hk1 Hk2]%elem_of_difference. unfold attended. cbn.
    destruct (Hf k Hk1) as [|Hr]; [by left|]. cbn in Hr. set_solver.
  - intros k Hk1. destruct (decide (k ∈ (result_height <$> sm_results s))) as [Hr|Hr].
    + destruct (Hk k Hr); [by left; left|right; set_solver].
    + apply (in_window_same _ _ k Hs) in Hk1. pose proof (Hw k Hk1) as Hk2.
      destruct Hk2 as [[Hq|Hq]|]; [left; left; by apply Hm| |right; set_solver].
      left. right. rewrite Hfl. set_solver.
  - intros b q Hb. by apply Hch in Hb as [].
Qed.

Lemma tick_world now s tasks del :
  world_inv (mk_sync_world s tasks del) ->
  let r := tick basic_decode peer_of now s in
  world_inv (mk_sync_world r.1 (tasks ++ spawned_heights r.2)
    (list_to_set (delivered_heights r.2) ∪ del)) /\
  (forall b q, DeliverBlock b q ∈ r.2 -> block_checked b q).
Proof.
  intros Hw. cbv zeta. unfold tick, hseq.
  destruct (process_world s tasks del Hw) as (Hw1 & Hsp1 & Hch1).
  destruct (process_fetch_results basic_decode s) as [s1 a1]. cbn [fst snd] in *.
  destruct (is_syncing s1).
  - destruct (spawn_world now s1 tasks _ Hw1) as (Hw2 & Hd2 & Hn2).
    destruct (spawn_pending_fetches peer_of now s1) as [s2 a2]. cbn [fst snd] in *.
    unfold spawned_heights, delivered_heights in *. rewrite !omap_app, Hsp1, Hd2, app_nil_r.
    split; [done|]. intros b q [Hb|Hb]%elem_of_app; [by apply Hch1|by destruct (Hn2 b q)].
  - cbn [fst snd]. rewrite !app_nil_r, Hsp1, app_nil_r. by split.
Qed.

Lemma start_world now target hash s tasks del :
  world_inv (mk_sync_world s tasks del) ->
  let r := start_sync peer_of now target hash s in
  world_inv (mk_sync_world r.1 (tasks ++ spawned_heights r.2) del) /\
  (forall b q, DeliverBlock b q ∉ r.2).
Proof.
  intros Hw. cbv zeta. unfold start_sync. case_match.
  { cbn. rewrite app_nil_r. split; [done|set_solver]. }
  destruct Hw as [Hi Hf Hw]. cbn in *.
  destruct (spawn_world now (queue_heights_in_window (s <| sm_sync_target := Some (target, hash) |>))
    tasks del) as (Hw2 & _ & Hn2); [|by split]. apply window_world; [|done]. by destruct Hi.
Qed.

Lemma retain_inv h s :
  sync_inv s -> sync_inv (remove_heights_at_or_below h (s <| sm_committed_height := h |>)).
Proof.
  intros [Hs Hh Hd Hl]. split; cbn; [done|set_solver..|].
  etrans; [|exact Hl]. apply subseteq_size. set_solver.
Qed.

Lemma commit_world h s tasks del :
  world_inv (mk_sync_world s tasks del) ->
  world_inv (mk_sync_world (set_committed_height h s).1 tasks del).
Proof.
  intros [Hi Hf Hw]. cbn in *. unfold set_committed_height. apply (retain_inv h) in Hi.
  set (s1 := remove_heights_at_or_below h _) in *.
  assert (forall k, k ∈ sm_heights_in_flight s1 -> attended (mk_sync_world s1 tasks del) k) as Hf1.
  { intros k [_ Hk]%elem_of_filter. exact (Hf k Hk). }
  destruct (sm_sync_target s1) as [[target hash]|] eqn:Et.
  - case_match; [|by apply window_world]. cbn [fst]. split; cbn; [|done|].
    + destruct Hi. split; cbn; [constructor|set_solver..|done].
    + intros k (? & ? & Hx & _). done.
  - cbn [fst]. split; cbn; [done|done|]. intros k (? & ? & Hx & _). congruence.
Qed.

Lemma step_world w acts w' :
  sync_step w acts w' -> world_inv w ->
  world_inv w' /\ (forall b q, DeliverBlock b q ∈ acts -> block_checked b q).
Proof.
  intros Hst Hw.
  destruct Hst as [now target hash s tasks del r|h s tasks del|now s tasks del r
    |result s tasks rest del Hp|s tasks del|now peer s tasks del].
  - destruct (start_world now target hash s tasks del Hw) as [Hw' Hn]. split; [done|].
    intros b q Hb. by destruct (Hn b q).
  - split; [by apply commit_world|set_solver].
  - by apply tick_world.
  - split; [|set_solver]. destruct Hw as [Hi Hf Hw]. cbn in *. split; cbn; [by destruct Hi| |done].
    intros k Hk. destruct (Hf k Hk) as [Ht|Hr]; unfold attended; cbn; rewrite fmap_app, elem_of_app; cbn in *.
    + rewrite Hp in Ht. set_solver.
    + auto.
  - split; [|set_solver]. destruct Hw as [Hi Hf Hw]. cbn in *. split; cbn.
    + destruct Hi. split; cbn; [constructor|set_solver..|].
      etrans; [|exact sy_limit0]. apply subseteq_size. set_solver.
    + set_solver.
    + intros k (? & ? & Hx & _). done.
  - split; [|set_solver]. destruct Hw as [Hi Hf Hw]. split; [by destruct Hi|done|done].
Qed.

Lemma run_world config w acts :
  sync_run config w acts ->
  world_inv w /\ (forall b q, DeliverBlock b q ∈ acts -> block_checked b q).
Proof.
  induction 1 as [|w acts acts' w' _ [IH1 IH2] Hst].
  - split; [|set_solver]. split; cbn; [|set_solver|].
    + split; cbn; [constructor|set_solver..|]. rewrite size_empty. lia.
    + intros k (? & ? & Hx & _). done.
  - destruct (step_world w acts' w' Hst IH1) as [Hw Hch]. split; [done|].
    intros b q [Hb|Hb]%elem_of_app; auto.
Qed.

(** No height of a sync is lost.  In every run of the sync manager, with
    any answers of the network and any commits in between, each height of the
    window (above the committed height, up to the target) is queued, or is
    being fetched by a task that runs or whose result waits, or has been
    delivered; the tasks for distinct heights stay within the limit; and every
    block delivered comes with a certificate that names its hash and height. *)
Theorem no_height_lost config w acts :
  sync_run config w acts ->
  (forall k, in_window (w_sync w) k ->
     k ∈ sm_heights_queued (w_sync w) \/
     (k ∈ sm_heights_in_flight (w_sync w) /\ attended w k) \/ k ∈ w_delivered w) /\
  (size (sm_heights_in_flight (w_sync w)) <= max_spawned_fetches (sm_config (w_sync w)))%nat /\
  (forall b q, DeliverBlock b q ∈ acts -> block_checked b q).
Proof.
  intros Hr. destruct (run_world config w acts Hr) as [[Hi Hf Hw] Hch]. split_and!; [|apply Hi|done].
  intros k Hk. destruct (Hw k Hk) as [[|]|]; auto.
Qed.

(** ** A delivered block that consensus rejects *)

(** Nothing that commits a block or raises the target. *)
Inductive waiting_step : sync_world -> list SyncAction -> sync_world -> Prop :=
  | wa_tick now s tasks del :
      let r := tick basic_decode peer_of now s in
      waiting_step (mk_sync_world s tasks del) r.2
        (mk_sync_world r.1 (tasks ++ spawned_heights r.2)
           (list_to_set (delivered_heights r.2) ∪ del))
  | wa_start now target hash current old s tasks del :
      sm_sync_target s = Some (current, old) -> target <= current ->
      let r := start_sync peer_of now target hash s in
      waiting_step (mk_sync_world s tasks del) r.2
        (mk_sync_world r.1 (tasks ++ spawned_heights r.2) del)
  | wa_result result s tasks rest del :
      tasks ≡ₚ result_height result :: rest ->
      waiting_step (mk_sync_world s tasks del) [] (mk_sync_world (result_arrives result s) rest del)
  | wa_ban now peer s tasks del :
      waiting_step (mk_sync_world s tasks del) [] (mk_sync_world (ban_peer now peer s) tasks del).

Inductive waiting_run : sync_world -> list SyncAction -> sync_world -> Prop :=
  | waiting_done w : waiting_run w [] w
  | waiting_next w acts w1 acts' w2 :
      waiting_step w acts w1 -> waiting_run w1 acts' w2 -> waiting_run w (acts ++ acts') w2.

(** The height is neither queued nor fetched. *)
Definition given_up (w : sync_world) k : Prop := ~ covered (w_sync w) k /\ ~ attended w k.

Lemma spawned_app a b : spawned_heights (a ++ b) = spawned_heights a ++ spawned_heights b.
Proof. apply omap_app. Qed.

Lemma tick_given_up now s tasks del k :
  world_inv (mk_sync_world s tasks del) -> given_up (mk_sync_world s tasks del) k ->
  let r := tick basic_decode peer_of now s in
  ~ covered r.1 k /\ sm_results r.1 = [] /\ (k ∉ spawned_heights r.2) /\
  sm_sync_target r.1 = sm_sync_target s.
Proof.
  intros Hw [Hc Ha]. unfold covered, attended in Hc, Ha. cbn in Hc, Ha. cbv zeta. unfold tick, hseq.
  destruct (process_world s tasks del Hw) as ([Hi1 _ _] & Hsp1 & _). revert Hi1 Hsp1.
  unfold process_fetch_results.
  destruct (process_results_loop (sm_results s) (s <| sm_results := [] |>))
    as [(_ & Et & _ & Er & _) Hfl _ _ _ _ _ Ho].
  destruct (for_each _ _ _) as [s1 a1]. cbn [fst snd w_sync] in *. intros Hi1 Hsp1.
  assert (~ covered s1 k) as Hc1.
  { unfold covered. rewrite Hfl. cbn. intros [Hq|Hq]; [destruct (Ho k Hq)|]; cbn in *; set_solver. }
  destruct (is_syncing s1).
  2: { cbn [fst snd]. rewrite app_nil_r, Hsp1. split_and!; [done|done|set_solver|done]. }
  destruct (decide (get_sync_peers peer_of now s1 = [])) as [E|Hp].
  { rewrite spawn_pending_nobody by done. cbn [fst snd]. rewrite app_nil_r, Hsp1.
    split_and!; [done|done|set_solver|done]. }
  destruct (spawn_pending_spec now s1 Hi1 Hp) as [(_ & Et2 & _ & Er2 & _) _ Hc2 _ (hs & Ea & Hhs & _) _].
  destruct (spawn_pending_fetches peer_of now s1) as [s2 a2]. cbn [fst snd] in *. subst a2.
  rewrite spawned_app, Hsp1, spawned_acts, Er2, Et2, Hc2. split_and!; [done|done| |done].
  intros Hk. apply Hc1, Hc2. right. by apply Hhs.
Qed.

Lemma waiting_step_given_up w acts w' k :
  waiting_step w acts w' -> world_inv w -> given_up w k ->
  world_inv w' /\ given_up w' k /\ (k ∉ spawned_heights acts) /\
  sm_sync_target (w_sync w') = sm_sync_target (w_sync w).
Proof.
  intros Hst Hw Hg. destruct Hst as [now s tasks del r|now target hash current old s tasks del Et Hle r
    |result s tasks rest del Hp|now peer s tasks del].
  - destruct (tick_given_up now s tasks del k Hw Hg) as (Hc & Hr & Hk & Et).
    split_and!; [by destruct (tick_world now s tasks del Hw)| |done|done].
    destruct Hg as [_ Ha]. split; [done|]. unfold attended in *. cbn [w_sync w_tasks] in *. fold r in Hr, Hk.
    rewrite Hr, elem_of_app. cbn. intros [[|]|]; [by apply Ha; left|done|set_solver].
  - assert (r = (s, [])) as Er.
    { unfold r, start_sync. rewrite Et. by destruct (N.leb_spec target current); [|lia]. }
    rewrite Er. cbn. rewrite app_nil_r. split_and!; [done|done|set_solver|done].
  - split_and!; [by destruct (step_world _ _ _ (ss_result result s tasks rest del Hp) Hw)| |set_solver|done].
    destruct Hg as [Hc Ha]. split; [done|]. unfold attended in *. cbn in *.
    rewrite fmap_app, elem_of_app. rewrite Hp in Ha. set_solver.
  - split_and!; [by destruct (step_world _ _ _ (ss_ban now peer s tasks del) Hw)|done|set_solver|done].
Qed.

(** A delivered block that consensus rejects is not fetched again.  When
    a height has been delivered and is neither queued nor being fetched, then
    as long as nothing is committed and the target is not raised, no tick, no
    result, no repeated request to sync and no ban starts a fetch for it.  For
    the height after the committed one this is a standstill: nothing can be
    committed without its block. *)
Theorem rejected_block_not_refetched config w acts0 acts w' k :
  sync_run config w acts0 -> given_up w k -> waiting_run w acts w' ->
  (k ∉ spawned_heights acts) /\ given_up w' k /\ sm_sync_target (w_sync w') = sm_sync_target (w_sync w).
Proof.
  intros Hr Hg Hrun. destruct (run_world config w acts0 Hr) as [Hw _]. clear Hr.
  induction Hrun as [w|w a1 w1 a2 w2 Hst _ IH]; [split_and!; [set_solver|done..]|].
  destruct (waiting_step_given_up w a1 w1 k Hst Hw Hg) as (Hw1 & Hg1 & Hk1 & Et1).
  destruct (IH Hg1 Hw1) as (Hk2 & Hg2 & Et2). rewrite spawned_app, elem_of_app.
  split_and!; [by intros []|done|by rewrite Et2].
Qed.

(** ** Honest answers *)

Section honest.
Context (honest : u64 -> Bytes).
(** What an honest peer sends for a height: its block and certificate. *)
Hypothesis honest_block : forall k, exists b q,
  basic_decode (honest k) = Some (Some (b, q)) /\ bh_height (bl_header b) = k /\ block_checked b q.

(** Every task gets the block it asked for. *)
Definition answer_all (s : SyncManager Bytes) : SyncManager Bytes :=
  s <| sm_results := (fun k => FetchSuccess k (honest k)) <$> elements (sm_heights_in_flight s) |>.

(** Two ticks, the tasks answered before each; then the next block is
    committed. *)
Definition honest_round (now : N) (s : SyncManager Bytes)
    : SyncManager Bytes * option u64 * list SyncAction :=
  let '(s, a1) := tick basic_decode peer_of now (answer_all s) in
  let '(s, a2) := tick basic_decode peer_of now (answer_all s) in
  (set_committed_height (sm_committed_height s + 1) s, a1 ++ a2).

(** While a sync goes well: there are peers and slots, and nothing at or
    below the committed height is asked for. *)
Record going now (target : u64) s : Prop := {
  go_inv : sync_inv s;
  go_target : fst <$> sm_sync_target s = Some target;
  go_peers : get_sync_peers peer_of now s <> [];
  go_slots : (0 < max_spawned_fetches (sm_config s))%nat;
  go_above k : covered s k -> sm_committed_height s < k
}.

Lemma answered_success k s :
  process_fetch_result basic_decode (FetchSuccess k (honest k)) s
  = (s <| sm_heights_in_flight ::= fun X => X ∖ {[k]} |>,
     match basic_decode (honest k) with Some (Some (b, q)) => [DeliverBlock b q] | _ => [] end).
Proof.
  destruct (honest_block k) as (b & q & E & Hh & Hb & Hq).
  unfold process_fetch_result, hseq, hupd, handle_block_response. rewrite E.
  unfold validate_sync_response, on_block_received, validate_block.
  rewrite Hh, Hb, Hq, Hh, !N.eqb_refl. done.
Qed.

(** All answers are delivered and nothing is queued again. *)
Lemma process_honest ks s :
  let r := for_each (process_fetch_result basic_decode)
             ((fun k => FetchSuccess k (honest k)) <$> ks) s in
  sm_heights_queued r.1 = sm_heights_queued s /\ delivered_heights r.2 = ks.
Proof.
  cbv zeta. revert s. induction ks as [|k ks IH]; intros s; cbn [fmap list_fmap for_each]; [done|].
  unfold hseq. rewrite answered_success. destruct (honest_block k) as (b & q & -> & Hh & _).
  match goal with |- context [for_each _ _ ?x] => destruct (IH x) as [E1 E2]; destruct (for_each _ _ x) end.
  cbn [fst snd] in *. split; [done|]. unfold delivered_heights in *. rewrite omap_app, E2. cbn.
  by rewrite Hh.
Qed.

Lemma spawn_lowest now s h :
  sync_inv s -> get_sync_peers peer_of now s <> [] -> (0 < max_spawned_fetches (sm_config s))%nat ->
  sm_heights_in_flight s = ∅ -> h ∈ sm_heights_queued s ->
  (forall k, k ∈ sm_heights_queued s -> h <= k) ->
  h ∈ sm_heights_in_flight (spawn_pending_fetches peer_of now s).1.
Proof.
  intros Hi Hp Hsl He Hh Hmin.
  destruct (spawn_pending_spec now s Hi Hp) as [_ Hi' Hc _ (hs & _ & Hhs & Hlow) Hfull].
  set (r := spawn_pending_fetches peer_of now s) in *.
  destruct (Hc h) as [_ [Hq|]]; [by left| |done]. exfalso.
  assert (forall k, k ∉ sm_heights_in_flight r.1) as Hnone.
  { intros k Hk. assert (k ∈ hs) as Hk' by (apply Hhs; rewrite He; set_solver).
    pose proof (Hlow k h Hk' Hq). assert (covered r.1 k) as [Hk2|]%Hc by by right.
    - pose proof (Hmin k Hk2). assert (k = h) as -> by lia. pose proof (sy_disjoint _ Hi'). set_solver.
    - rewrite He in *. set_solver. }
  destruct Hfull as [Hfull|Hfull]; [|set_solver].
  assert (sm_heights_in_flight r.1 = ∅) as Ee by (apply set_eq; set_solver).
  rewrite Ee, size_empty in Hfull. lia.
Qed.

(** One tick after honest answers: the heights that were in flight are
    delivered, and the lowest queued ones take their place. *)
Lemma honest_tick now target s :
  going now target s ->
  let r := tick basic_decode peer_of now (answer_all s) in
  let next := sm_committed_height s + 1 in
  same_sync (s <| sm_results := [] |>) r.1 /\ going now target r.1 /\
  (forall k, k ∈ sm_heights_in_flight s -> k ∈ delivered_heights r.2) /\
  (next ∈ sm_heights_queued s -> next ∈ sm_heights_in_flight r.1).
Proof.
  intros [Hi Ht Hp Hsl Hab]. cbv zeta. unfold tick, hseq, process_fetch_results.
  set (ks := elements (sm_heights_in_flight s)).
  set (s0 := answer_all s <| sm_results := [] |>).
  assert (sync_inv s0) as Hi0 by by destruct Hi.
  destruct (process_honest ks s0) as [Eq Ed].
  pose proof (process_results_loop (sm_results (answer_all s)) s0) as [Hs Hf Hinv Hsp _ _ _ _].
  change (sm_results (answer_all s)) with ((fun k => FetchSuccess k (honest k)) <$> ks) in *.
  destruct (for_each _ _ s0) as [s1 a1]. cbn [fst snd] in *. specialize (Hinv Hi0).
  assert (sm_heights_in_flight s1 = ∅) as Ef.
  { rewrite Hf. change (sm_heights_in_flight s0) with (sm_heights_in_flight s).
    apply set_eq. intros k. rewrite elem_of_difference, elem_of_list_to_set, <-list_fmap_compose.
    unfold compose. cbn. rewrite list_fmap_id. unfold ks. set_solver. }
  destruct Hs as (Ec & Et & Ek & Er & Eb).
  assert (is_syncing s1 = true) as Esy.
  { unfold is_syncing. rewrite Et. unfold s0. cbn. by destruct (sm_sync_target s). }
  rewrite Esy.
  assert (get_sync_peers peer_of now s1 = get_sync_peers peer_of now s) as Ep.
  { unfold get_sync_peers, is_peer_banned. by rewrite Eb. }
  assert (get_sync_peers peer_of now s1 <> []) as Hp1 by by rewrite Ep.
  pose proof (spawn_pending_spec now s1 Hinv Hp1) as [Hs2 Hi2 Hc2 _ (hs & Ea & _) _].
  pose proof (spawn_lowest now s1 (sm_committed_height s + 1) Hinv Hp1) as Hlow.
  destruct (spawn_pending_fetches peer_of now s1) as [s2 a2]. cbn [fst snd] in *.
  destruct Hs2 as (Ec2 & Et2 & Ek2 & Er2 & Eb2).
  assert (forall k, covered s2 k -> covered s k) as Hsub.
  { intros k [Hk|Hk]%Hc2; [left; by rewrite Eq in Hk|rewrite Ef in Hk; set_solver]. }
  split_and!.
  - split_and!; [by rewrite Ec2, Ec|by rewrite Et2, Et|by rewrite Ek2, Ek|by rewrite Er2, Er|by rewrite Eb2, Eb].
  - split; [done|by rewrite Et2, Et| |by rewrite Ec2, Ec|].
    + unfold get_sync_peers, is_peer_banned in *. by rewrite Eb2.
    + intros k Hk%Hsub. rewrite Ek2, Ek. by apply Hab.
  - intros k Hk. unfold delivered_heights. rewrite omap_app, elem_of_app. left.
    fold (delivered_heights a1). rewrite Ed. unfold ks. set_solver.
  - intros Hq. apply Hlow; [by rewrite Ec|done|by rewrite Eq|].
    intros k Hk. rewrite Eq in Hk. assert (sm_committed_height s < k) by (apply Hab; by left). lia.
Qed.

Lemma window_next s target :
  fst <$> sm_sync_target s = Some target -> sm_committed_height s < target ->
  target + sync_window_size (sm_config s) < u64_max ->
  in_window s (sm_committed_height s + 1) /\
  (forall k, in_window s k -> sm_committed_height s < k).
Proof.
  intros Ht Hlt Hro. assert (sm_committed_height s +w 1 = sm_committed_height s + 1) as E1
    by (apply wadd_small; unfold u64_max, u64_modulus in *; lia).
  assert (sm_committed_height s +w sync_window_size (sm_config s)
    = sm_committed_height s + sync_window_size (sm_config s)) as E2
    by (apply wadd_small; unfold u64_max, u64_modulus in *; lia).
  destruct (sm_sync_target s) as [[t hash]|] eqn:Et; [|done]. injection Ht as ->. split.
  - exists target, hash. split; [done|]. rewrite E1. unfold window_end. rewrite E2.
    destruct (N.eqb_spec (sync_window_size (sm_config s)) 0); lia.
  - intros k (t & h & _ & Hk & _). lia.
Qed.

(** A round delivers the next block and moves the committed height to it. *)
Lemma honest_round_spec now target s :
  going now target s -> covered s (sm_committed_height s + 1) -> sm_committed_height s < target ->
  target + sync_window_size (sm_config s) < u64_max ->
  let r := honest_round now s in
  let next := sm_committed_height s + 1 in
  next ∈ delivered_heights r.2 /\ sm_committed_height r.1.1 = next /\ sm_config r.1.1 = sm_config s /\
  (next = target -> r.1.2 = Some target /\ sm_sync_target r.1.1 = None) /\
  (next <> target -> going now target r.1.1 /\ covered r.1.1 (next + 1)).
Proof.
  intros Hg Hn Hlt Hro. cbv zeta. unfold honest_round.
  destruct (honest_tick now target s Hg) as ((Ec & _ & Ek & _) & Hg1 & Hd1 & Hq1).
  destruct (tick basic_decode peer_of now (answer_all s)) as [s1 a1]. cbn [fst snd] in *.
  destruct (honest_tick now target s1 Hg1) as ((Ec2 & _ & Ek2 & _) & Hg2 & Hd2 & _).
  destruct (tick basic_decode peer_of now (answer_all s1)) as [s2 a2]. cbn [fst snd] in *.
  change (sm_committed_height (s <| sm_results := [] |>)) with (sm_committed_height s) in Ek.
  change (sm_committed_height (s1 <| sm_results := [] |>)) with (sm_committed_height s1) in Ek2.
  change (sm_config (s <| sm_results := [] |>)) with (sm_config s) in Ec.
  change (sm_config (s1 <| sm_results := [] |>)) with (sm_config s1) in Ec2.
  rewrite Ek2, Ek. set (next := sm_committed_height s + 1) in *.
  assert (next ∈ delivered_heights (a1 ++ a2)) as Hdel.
  { unfold delivered_heights. rewrite omap_app, elem_of_app.
    destruct Hn as [Hq|Hf]; [right|left]; [by apply Hd2, Hq1|by apply Hd1]. }
  split; [exact Hdel|]. destruct Hg2 as [Hi2 Ht2 Hp2 Hsl2 _]. unfold set_committed_height.
  pose proof (retain_inv next s2 Hi2) as Hi3. set (s3 := remove_heights_at_or_below next _) in *.
  assert (sm_sync_target s3 = sm_sync_target s2) as Et3 by done.
  assert (sm_committed_height s3 = next /\ sm_config s3 = sm_config s) as [Ek3 Ec3]
    by (split; [done|]; cbn; by rewrite Ec2, Ec).
  rewrite Et3. destruct (sm_sync_target s2) as [[t hash]|] eqn:Et2; [|done]. injection Ht2 as ->.
  destruct (N.leb_spec target next) as [Hle|Hle].
  { cbn. split_and!; [done|by rewrite Ec2, Ec|done|]. subst next. intros. lia. }
  destruct (queue_window_spec s3) as ((Ec4 & Et4 & Ek4 & _ & Eb4) & _ & Hi4 & Hc4).
  destruct (window_next s3 target) as [Hw1 Hw2]; [by rewrite Et3|rewrite Ek3; lia|by rewrite Ec3|].
  cbn [fst snd]. rewrite Ek4, Ec4, Ek3, Ec3. split_and!; [done|done|intros; lia|].
  intros _. split; [|apply Hc4; right; by rewrite <-Ek3]. split.
  - auto.
  - by rewrite Et4, Et3.
  - unfold get_sync_peers, is_peer_banned in *. by rewrite Eb4.
  - by rewrite Ec4.
  - intros k [[Hk|Hk]|Hk]%Hc4; rewrite Ek4; [..|by apply Hw2];
      rewrite Ek3; cbn in Hk; by apply elem_of_filter in Hk as [? _].
Qed.

Definition rounds now (n : nat) (s : SyncManager Bytes) : SyncManager Bytes :=
  Nat.iter n (fun s => (honest_round now s).1.1) s.

Lemma rounds_going now target s n :
  going now target s -> covered s (sm_committed_height s + 1) ->
  target + sync_window_size (sm_config s) < u64_max ->
  sm_committed_height s + N.of_nat n < target ->
  let s' := rounds now n s in
  going now target s' /\ covered s' (sm_committed_height s' + 1) /\
  sm_committed_height s' = sm_committed_height s + N.of_nat n /\ sm_config s' = sm_config s.
Proof.
  intros Hg Hn Hro. induction n as [|n IH]; intros Hlt; [cbn; split_and!; [done|done|lia|done]|].
  destruct IH as (Hg1 & Hn1 & Ek1 & Ec1); [lia|]. cbv zeta.
  change (rounds now (S n) s) with (honest_round now (rounds now n s)).1.1. set (s1 := rounds now n s) in *.
  destruct (honest_round_spec now target s1 Hg1 Hn1) as (_ & Ek2 & Ec2 & _ & Hnext); [lia|by rewrite Ec1|].
  destruct Hnext as [Hg2 Hn2]; [lia|]. rewrite Ek2. split_and!; [done|done|lia|by rewrite Ec2].
Qed.

(** A manager that is not syncing and waits for nothing. *)
Record idle s : Prop := {
  id_inv : sync_inv s;
  id_target : sm_sync_target s = None;
  id_none k : ~ covered s k
}.

Lemma start_going now target hash s :
  idle s -> get_sync_peers peer_of now s <> [] -> (0 < max_spawned_fetches (sm_config s))%nat ->
  sm_committed_height s < target -> target + sync_window_size (sm_config s) < u64_max ->
  let s' := (start_sync peer_of now target hash s).1 in
  going now target s' /\ covered s' (sm_committed_height s' + 1) /\
  sm_committed_height s' = sm_committed_height s /\ sm_config s' = sm_config s.
Proof.
  intros [Hi Et Hnone] Hp Hsl Hlt Hro. cbv zeta. unfold start_sync. rewrite Et.
  set (s1 := s <| sm_sync_target := Some (target, hash) |>).
  destruct (queue_window_spec s1) as ((Ec & Et2 & Ek & _ & Eb) & _ & Hi2 & Hc2).
  destruct (window_next s1 target) as [Hw1 Hw2]; [done..|].
  assert (sync_inv (queue_heights_in_window s1)) as Hi3 by (apply Hi2; by destruct Hi).
  assert (get_sync_peers peer_of now (queue_heights_in_window s1) <> []) as Hp3
    by (unfold get_sync_peers, is_peer_banned in *; by rewrite Eb).
  destruct (spawn_pending_spec now _ Hi3 Hp3) as [(Ec4 & Et4 & Ek4 & _ & Eb4) Hi4 Hc4 _ _ _].
  split_and!; [split|..].
  - done.
  - by rewrite Et4, Et2.
  - unfold get_sync_peers, is_peer_banned in *. by rewrite Eb4.
  - by rewrite Ec4, Ec.
  - intros k Hk%Hc4%Hc2. rewrite Ek4, Ek. destruct Hk as [Hk|Hk]; [by destruct (Hnone k)|by apply Hw2].
  - apply Hc4, Hc2. right. by rewrite Ek4, Ek.
  - by rewrite Ek4, Ek.
  - by rewrite Ec4, Ec.
Qed.

(** C28: A sync with honest answers completes.  Start an idle manager, with
    some peer to ask and a free slot, towards a target above the committed
    height, and let the peers answer every task with the block asked for.
    Then each round of two ticks delivers the block after the committed one,
    whatever else the window has in flight, so it can be committed; the round
    for the target reports the target as reached and the manager is no longer
    syncing. *)
Theorem honest_sync_completes now target hash s :
  idle s -> get_sync_peers peer_of now s <> [] -> (0 < max_spawned_fetches (sm_config s))%nat ->
  sm_committed_height s < target -> target + sync_window_size (sm_config s) < u64_max ->
  let c := sm_committed_height s in
  let s0 := (start_sync peer_of now target hash s).1 in
  let n := N.to_nat (target - c) in
  (forall i, (i < n)%nat ->
     c + N.of_nat i + 1 ∈ delivered_heights (honest_round now (rounds now i s0)).2 /\
     sm_committed_height (rounds now i s0) = c + N.of_nat i) /\
  (honest_round now (rounds now (n - 1) s0)).1.2 = Some target /\
  sm_committed_height (rounds now n s0) = target /\ sm_sync_target (rounds now n s0) = None.
Proof.
  intros Hid Hp Hsl Hlt Hro. cbv zeta.
  destruct (start_going now target hash s Hid Hp Hsl Hlt Hro) as (Hg & Hn & Ek & Ec).
  set (s0 := (start_sync peer_of now target hash s).1) in *. rewrite <-Ec in Hro. rewrite <-Ek in *.
  set (n := N.to_nat (target - sm_committed_height s0)).
  assert (forall i, (i < n)%nat -> let s' := rounds now i s0 in
    going now target s' /\ covered s' (sm_committed_height s' + 1) /\
    sm_committed_height s' = sm_committed_height s0 + N.of_nat i /\ sm_config s' = sm_config s0) as Hgo.
  { intros i Hi. apply rounds_going; [done..|lia]. }
  split.
  - intros i Hi. destruct (Hgo i Hi) as (Hg1 & Hn1 & Ek1 & Ec1).
    destruct (honest_round_spec now target _ Hg1 Hn1) as (Hd & _); [lia|by rewrite Ec1|].
    rewrite Ek1 in Hd. by split.
  - destruct (Hgo (n - 1)%nat) as (Hg1 & Hn1 & Ek1 & Ec1); [lia|].
    destruct (honest_round_spec now target _ Hg1 Hn1) as (_ & Ek2 & _ & Hend & _); [lia|by rewrite Ec1|].
    destruct Hend as [He1 He2]; [lia|]. split; [done|].
    replace n with (S (n - 1)) by lia.
    change (rounds now (S (n - 1)) s0) with (honest_round now (rounds now (n - 1) s0)).1.1.
    split; [lia|done].
Qed.
End honest.
End queue.

(** ** Concrete runs *)

(** Responses are decoded blocks already; validator keys are peer names. *)
Definition sample_bytes : Type := option (option (Block * QuorumCertificate)).
Definition sample_decode (bytes : sample_bytes) : option (option (Block * QuorumCertificate)) := bytes.
Definition sample_peer (key : Bls12381G1PublicKey) : N := key.

Definition sync_block (height : u64) : Block :=
  let b := genesis_block QC.genesis in
  mk_block (mk_block_header height 0 QC.genesis 0 0 0 false 0 0 0) [] [] [] [] [] [] ∅.

Definition sync_certificate (height : u64) : QuorumCertificate := {|
  qc_block_hash := @block_hash sample_crypto (sync_block height);
  qc_height := height;
  qc_parent_block_hash := 0;
  qc_round := 0;
  qc_signers := SignerBitfieldOps.empty;
  qc_aggregated_signature := zero_bls_signature;
  qc_voting_power := 3;
  qc_weighted_timestamp_ms := 0
|}.

Definition sample_answer (height : u64) : sample_bytes :=
  Some (Some (sync_block height, sync_certificate height)).

Definition sample_sync : SyncManager sample_bytes :=
  sync_manager_new (mk_sync_config 2 (from_secs 600) (from_secs 86400) 3).

#[local] Existing Instances sample_crypto.
#[local] Instance sync_topology : Topology := sample_topology 0.

Definition sync_started : SyncManager sample_bytes * list SyncAction :=
  start_sync sample_peer 0 3 7 sample_sync.

Lemma sync_answers_honest k : exists b q,
  sample_decode (sample_answer k) = Some (Some (b, q)) /\ bh_height (bl_header b) = k /\ block_checked b q.
Proof. by exists (sync_block k), (sync_certificate k). Qed.

Lemma sample_idle : idle sample_sync.
Proof.
  split; [|done|].
  - split; cbn; [constructor|set_solver..|]. rewrite size_empty. lia.
  - unfold covered. cbn. set_solver.
Qed.

Lemma honest_sync_completes_witness :
  sm_committed_height (rounds sample_decode sample_peer sample_answer 0 3 sync_started.1) = 3 /\
  sm_sync_target (rounds sample_decode sample_peer sample_answer 0 3 sync_started.1) = None.
Proof.
  destruct (honest_sync_completes sample_decode sample_peer sample_answer sync_answers_honest 0 3 7 sample_sync)
    as (_ & _ & Hend).
  - exact sample_idle.
  - vm_compute. discriminate.
  - cbn. lia.
  - reflexivity.
  - reflexivity.
  - exact Hend.
Defined.

(** The first block is fetched and delivered; then the manager waits. *)
Definition world_0 : sync_world := mk_sync_world sample_sync [] ∅.
Definition world_1 : sync_world :=
  mk_sync_world sync_started.1 ([] ++ spawned_heights sync_started.2) ∅.
Definition world_2 : sync_world :=
  mk_sync_world (result_arrives (FetchSuccess 1 (sample_answer 1)) sync_started.1) [2] ∅.
Definition ticked : SyncManager sample_bytes * list SyncAction :=
  tick sample_decode sample_peer 0 (w_sync world_2).
Definition world_3 : sync_world :=
  mk_sync_world ticked.1 ([2] ++ spawned_heights ticked.2)
    (list_to_set (delivered_heights ticked.2) ∪ ∅).
Definition later : SyncManager sample_bytes * list SyncAction :=
  tick sample_decode sample_peer 1 (w_sync world_3).
Definition world_4 : sync_world :=
  mk_sync_world later.1 (w_tasks world_3 ++ spawned_heights later.2)
    (list_to_set (delivered_heights later.2) ∪ w_delivered world_3).

Abbreviation sample_sync_run := (sync_run sample_decode sample_peer (sm_config sample_sync)).

Lemma world_3_run : sample_sync_run world_3 ((([] ++ sync_started.2) ++ []) ++ ticked.2).
Proof.
  apply sync_run_step with (w := world_2).
  - apply sync_run_step with (w := world_1).
    + apply sync_run_step with (w := world_0); [apply sync_run_new|].
      exact (ss_start sample_decode sample_peer 0 3 7 sample_sync [] ∅).
    + apply ss_result. reflexivity.
  - exact (ss_tick sample_decode sample_peer 0 (w_sync world_2) [2] ∅).
Qed.

Lemma window_has_1 : in_window (w_sync world_3) 1.
Proof.
  exists 3, 7. split; [vm_compute; reflexivity|]. split; vm_compute; discriminate.
Qed.

Lemma no_height_lost_witness :
  in_window (w_sync world_3) 1 /\ 1 ∈ w_delivered world_3.
Proof.
  split; [exact window_has_1|].
  destruct (no_height_lost sample_decode sample_peer (sm_config sample_sync) world_3 _ world_3_run)
    as (Hk & _ & _).
  destruct (Hk 1) as [Hq|[[Hf _]|Hd]]; [exact window_has_1|..|exact Hd].
  - exfalso. revert Hq. apply (bool_decide_unpack _). vm_compute. reflexivity.
  - exfalso. revert Hf. apply (bool_decide_unpack _). vm_compute. reflexivity.
Defined.

Lemma rejected_block_not_refetched_witness :
  (1 ∉ spawned_heights later.2) /\ sm_committed_height (w_sync world_4) = 0 /\
  is_syncing (w_sync world_4) = true.
Proof.
  destruct (rejected_block_not_refetched sample_decode sample_peer (sm_config sample_sync)
    world_3 _ (later.2 ++ []) world_4 1 world_3_run) as [Hk _].
  - split; unfold covered, attended; (intros [Hx|Hx]; revert Hx); apply (bool_decide_unpack _);
      vm_compute; reflexivity.
  - eapply waiting_next; [|apply waiting_done]. exact (wa_tick sample_decode sample_peer 1 _ _ _).
  - rewrite app_nil_r in Hk. split; [exact Hk|]. split; vm_compute; reflexivity.
Defined.
