(* ===== verification/FetchManager.v ===== *)
(** * The fetch manager (crates/production/src/fetch.rs)

    Fetches the transactions and certificates that pending blocks miss.  The
    hashes of a block are split into chunks, each chunk is asked for by a
    background task, and the answers are delivered to consensus.  Tasks and
    network are outside: a task is an action that is answered by a result in
    the channel. *)

From stdpp Require Import base gmap list numbers.
From Stdlib Require Import NArith Lia.
From S2P Require Import Prelude Bitfield Types Core.

Record FetchConfig := mk_fetch_config {
  max_concurrent_per_block : usize;
  max_hashes_per_request : usize;
  parallel_fetches : usize
}.

Definition default_fetch_config : FetchConfig := mk_fetch_config 8 50 4.

Inductive FetchKind := FetchTransaction | FetchCertificate.

#[export] Instance FetchKind_eq_dec : EqDecision FetchKind.
Proof. solve_decision. Defined.

Inductive FetchResult :=
  | TransactionsReceived (block_hash : Hash) (transactions : list RoutableTransaction)
  | CertificatesReceived (block_hash : Hash) (certificates : list TransactionCertificate)
  | FetchFailedResult (block_hash : Hash) (kind : FetchKind) (hashes : list Hash).

(** ** The fetch of one block *)

Record BlockFetchState := mk_block_fetch_state {
  bf_block_hash : Hash;
  bf_kind : FetchKind;
  bf_proposer : ValidatorId;
  bf_missing : gset Hash;
  bf_in_flight : gset Hash;
  bf_received : gset Hash;
  bf_in_flight_count : usize
}.

#[export] Instance BlockFetchState_eta : Eta BlockFetchState := fun b =>
  mk_block_fetch_state (bf_block_hash b) (bf_kind b) (bf_proposer b) (bf_missing b)
    (bf_in_flight b) (bf_received b) (bf_in_flight_count b).

Definition block_fetch_state_new (block_hash : Hash) (kind : FetchKind) (proposer : ValidatorId)
    (hashes : list Hash) : BlockFetchState :=
  mk_block_fetch_state block_hash kind proposer (list_to_set hashes) ∅ ∅ 0.

Definition is_complete (b : BlockFetchState) : bool :=
  bool_decide (bf_missing b = ∅) && bool_decide (bf_in_flight b = ∅).

Definition mark_in_flight (hashes : list Hash) (b : BlockFetchState) : BlockFetchState :=
  b <| bf_in_flight ::= union (list_to_set hashes) |> <| bf_in_flight_count ::= S |>.

Definition mark_received (hashes : list Hash) (b : BlockFetchState) : BlockFetchState :=
  b <| bf_missing ::= fun X => X ∖ list_to_set hashes |>
    <| bf_in_flight ::= fun X => X ∖ list_to_set hashes |>
    <| bf_received ::= union (list_to_set hashes) |>.

Definition was_received (b : BlockFetchState) (hash : Hash) : bool :=
  bool_decide (hash ∈ bf_received b).

Definition mark_fetch_failed (hashes : list Hash) (b : BlockFetchState) : BlockFetchState :=
  b <| bf_in_flight ::= fun X => X ∖ list_to_set hashes |>
    <| bf_in_flight_count ::= fun c => (c - 1)%nat |>.

Definition mark_fetch_complete (b : BlockFetchState) : BlockFetchState :=
  b <| bf_in_flight_count ::= fun c => (c - 1)%nat |>.

(** A repeated request adds the hashes neither received nor in flight. *)
Definition add_missing (hashes : list Hash) (b : BlockFetchState) : BlockFetchState :=
  foldl (fun b hash =>
      if negb (was_received b hash) && negb (bool_decide (hash ∈ bf_in_flight b))
      then b <| bf_missing ::= union {[hash]} |> else b)
    b hashes.

(** [slice::chunks]; the source panics for the size zero. *)
Fixpoint chunks_loop (fuel : nat) (size : nat) (l : list Hash) : list (list Hash) :=
  match fuel, l with
  | _, [] => []
  | O, _ => []
  | S fuel, _ => take size l :: chunks_loop fuel size (drop size l)
  end.

Definition chunks (size : nat) (l : list Hash) : list (list Hash) := chunks_loop (length l) size l.

(** ** The manager *)

Record FetchManager := mk_fetch_manager {
  fm_config : FetchConfig;
  fm_tx_fetches : gmap Hash BlockFetchState;
  fm_cert_fetches : gmap Hash BlockFetchState;
  fm_committee_peers : gmap ValidatorId N;
  fm_results : list FetchResult
}.

#[export] Instance FetchManager_eta : Eta FetchManager := fun s =>
  mk_fetch_manager (fm_config s) (fm_tx_fetches s) (fm_cert_fetches s) (fm_committee_peers s)
    (fm_results s).

Record FetchStatus := mk_fetch_status {
  fs_pending_tx_blocks : usize;
  fs_pending_cert_blocks : usize;
  fs_in_flight_operations : usize
}.

(** A task that is started, data for the state machine, data for storage. *)
Inductive FetchAction :=
  | SpawnBlockFetch (block_hash : Hash) (kind : FetchKind) (hashes : list Hash)
      (preferred_peer : option N) (peers : list N)
  | DeliverTransactions (block_hash : Hash) (transactions : list RoutableTransaction)
  | DeliverCertificates (block_hash : Hash) (certificates : list TransactionCertificate)
  | PersistCertificates (certificates : list TransactionCertificate).

Definition fetch_manager_new (config : FetchConfig) : FetchManager :=
  mk_fetch_manager config ∅ ∅ ∅ [].

Abbreviation fetching := (handler FetchManager FetchAction) (only parsing).

(** The map of a kind. *)
Definition fetches_of (kind : FetchKind) (s : FetchManager) : gmap Hash BlockFetchState :=
  match kind with FetchTransaction => fm_tx_fetches s | FetchCertificate => fm_cert_fetches s end.

Definition set_fetches (kind : FetchKind) (m : gmap Hash BlockFetchState) (s : FetchManager)
    : FetchManager :=
  match kind with
  | FetchTransaction => s <| fm_tx_fetches := m |>
  | FetchCertificate => s <| fm_cert_fetches := m |>
  end.

Definition register_committee_member (validator_id : ValidatorId) (peer_id : N) (s : FetchManager)
    : FetchManager :=
  s <| fm_committee_peers ::= <[validator_id := peer_id]> |>.

Definition request_kind (kind : FetchKind) (block_hash : Hash) (proposer : ValidatorId)
    (hashes : list Hash) (s : FetchManager) : FetchManager :=
  match hashes with
  | [] => s
  | _ =>
      match fetches_of kind s !! block_hash with
      | Some b => set_fetches kind (<[block_hash := add_missing hashes b]> (fetches_of kind s)) s
      | None =>
          set_fetches kind
            (<[block_hash := block_fetch_state_new block_hash kind proposer hashes]>
               (fetches_of kind s)) s
      end
  end.

Definition request_transactions := request_kind FetchTransaction.
Definition request_certificates := request_kind FetchCertificate.

Definition cancel_fetch (block_hash : Hash) (kind : FetchKind) (s : FetchManager) : FetchManager :=
  set_fetches kind (delete block_hash (fetches_of kind s)) s.

Definition cancel_all (s : FetchManager) : FetchManager :=
  s <| fm_tx_fetches := ∅ |> <| fm_cert_fetches := ∅ |>.

(** ** Results *)

(** A fetch with received hashes; it is removed when it is complete. *)
Definition settle (kind : FetchKind) (block_hash : Hash) (received : list Hash) (b : BlockFetchState)
    (s : FetchManager) : FetchManager :=
  let b := mark_received received (mark_fetch_complete b) in
  if is_complete b then set_fetches kind (delete block_hash (fetches_of kind s)) s
  else set_fetches kind (<[block_hash := b]> (fetches_of kind s)) s.

Definition handle_transactions_received (block_hash : Hash) (transactions : list RoutableTransaction)
    : fetching := fun s =>
  match fm_tx_fetches s !! block_hash with
  | None => (s, [])
  | Some b =>
      (settle FetchTransaction block_hash (rt_hash <$> transactions) b s,
       match transactions with [] => [] | _ => [DeliverTransactions block_hash transactions] end)
  end.

Definition handle_certificates_received (block_hash : Hash)
    (certificates : list TransactionCertificate) : fetching := fun s =>
  match fm_cert_fetches s !! block_hash with
  | None => (s, [])
  | Some b =>
      (settle FetchCertificate block_hash (tc_transaction_hash <$> certificates) b s,
       match certificates with
       | [] => []
       | _ => [PersistCertificates certificates; DeliverCertificates block_hash certificates]
       end)
  end.

Definition handle_fetch_failed (block_hash : Hash) (kind : FetchKind) (hashes : list Hash)
    : fetching := fun s =>
  match fetches_of kind s !! block_hash with
  | Some b =>
      (set_fetches kind (<[block_hash := mark_fetch_failed hashes b]> (fetches_of kind s)) s, [])
  | None => (s, [])
  end.

Definition process_result (result : FetchResult) : fetching :=
  match result with
  | TransactionsReceived block_hash transactions =>
      handle_transactions_received block_hash transactions
  | CertificatesReceived block_hash certificates =>
      handle_certificates_received block_hash certificates
  | FetchFailedResult block_hash kind hashes => handle_fetch_failed block_hash kind hashes
  end.

Definition process_results : fetching := fun s =>
  for_each process_result (fm_results s) (s <| fm_results := [] |>).

(** ** Starting tasks *)

Section spawning.
Context `{HashIter}.

Definition hashes_to_fetch (b : BlockFetchState) : list Hash :=
  hs_iter (bf_missing b ∖ bf_in_flight b).

Definition get_peers (s : FetchManager) : list N := (hm_iter (fm_committee_peers s)).*2.

(** The chunks to ask for now: one free slot each. *)
Definition chunks_to_spawn (config : FetchConfig) (b : BlockFetchState) : list (list Hash) :=
  if Nat.leb (max_concurrent_per_block config) (bf_in_flight_count b) then []
  else
    take (Nat.min (max_concurrent_per_block config - bf_in_flight_count b) (parallel_fetches config))
      (chunks (max_hashes_per_request config) (hashes_to_fetch b)).

Definition spawn_for_block (config : FetchConfig) (b : BlockFetchState) : BlockFetchState :=
  foldl (fun b chunk => mark_in_flight chunk b) b (chunks_to_spawn config b).

Definition spawn_actions (kind : FetchKind) (s : FetchManager) (peers : list N)
    (entry : Hash * BlockFetchState) : list FetchAction :=
  (fun chunk => SpawnBlockFetch entry.1 kind chunk
                  (fm_committee_peers s !! bf_proposer entry.2) peers)
  <$> chunks_to_spawn (fm_config s) entry.2.

Definition spawn_pending_fetches : fetching := fun s =>
  let peers := get_peers s in
  match peers with
  | [] => (s, [])
  | _ =>
      (s <| fm_tx_fetches ::= fmap (spawn_for_block (fm_config s)) |>
         <| fm_cert_fetches ::= fmap (spawn_for_block (fm_config s)) |>,
       flat_map (spawn_actions FetchTransaction s peers) (hm_iter (fm_tx_fetches s))
       ++ flat_map (spawn_actions FetchCertificate s peers) (hm_iter (fm_cert_fetches s)))
  end.

Definition fetch_tick : fetching := process_results ;> spawn_pending_fetches.

Definition fetch_status (s : FetchManager) : FetchStatus :=
  mk_fetch_status (size (fm_tx_fetches s)) (size (fm_cert_fetches s))
    (sum_list_with bf_in_flight_count
       ((hm_iter (fm_tx_fetches s)).*2 ++ (hm_iter (fm_cert_fetches s)).*2)).
End spawning.

(** A task puts its result into the channel. *)
Definition fetch_result_arrives (result : FetchResult) (s : FetchManager) : FetchManager :=
  s <| fm_results ::= fun rs => rs ++ [result] |>.
