(* ===== verification/FetchRuns.v ===== *)
(** * Runs of the fetch manager

    The bookkeeping of each block's fetch, that no hash is lost when tasks are
    answered in full, that honest answers complete a fetch, and what becomes
    of a hash that an answer leaves out. *)

From stdpp Require Import base gmap list numbers fin_sets.
From Stdlib Require Import NArith Lia.
From S2P Require Import Prelude Bitfield Types Encoding Core FetchManager.

(** ** Chunks *)

Lemma chunks_loop_elem fuel n l c h : c ∈ chunks_loop fuel n l -> h ∈ c -> h ∈ l.
Proof.
  revert l. induction fuel as [|fuel IH]; intros l Hc Hh; [destruct l; set_solver|].
  destruct l as [|x l]; [set_solver|]. cbn [chunks_loop] in Hc.
  rewrite <-(take_drop n (x :: l)). apply elem_of_app. apply elem_of_cons in Hc as [->|Hc]; eauto.
Qed.

Lemma chunks_elem n l c h : c ∈ chunks n l -> h ∈ c -> h ∈ l.
Proof. apply chunks_loop_elem. Qed.

(** The first chunk is not empty. *)
Lemma chunks_first n l :
  (0 < n)%nat -> l <> [] -> exists h c cs, chunks n l = (h :: c) :: cs /\ h ∈ l.
Proof.
  intros Hn Hl. destruct l as [|x l]; [done|]. destruct n as [|n]; [lia|].
  unfold chunks. cbn. exists x, (take n l), (chunks_loop (length l) (S n) (drop n l)). set_solver.
Qed.

(** ** One entry at a time *)

(** What a result does to the fetch of a kind and block. *)
Definition settle_entry (received : list Hash) (b : BlockFetchState) : option BlockFetchState :=
  let b := mark_received received (mark_fetch_complete b) in
  if is_complete b then None else Some b.

Definition result_kind (r : FetchResult) : FetchKind :=
  match r with
  | TransactionsReceived _ _ => FetchTransaction
  | CertificatesReceived _ _ => FetchCertificate
  | FetchFailedResult _ kind _ => kind
  end.

Definition result_block (r : FetchResult) : Hash :=
  match r with
  | TransactionsReceived b _ | CertificatesReceived b _ | FetchFailedResult b _ _ => b
  end.

(** The hashes a result speaks of: received, or failed. *)
Definition result_hashes (r : FetchResult) : list Hash :=
  match r with
  | TransactionsReceived _ txs => rt_hash <$> txs
  | CertificatesReceived _ certs => tc_transaction_hash <$> certs
  | FetchFailedResult _ _ hashes => hashes
  end.

Definition is_failure (r : FetchResult) : bool :=
  match r with FetchFailedResult _ _ _ => true | _ => false end.

Definition entry_step (kind : FetchKind) (block : Hash) (ob : option BlockFetchState) (r : FetchResult)
    : option BlockFetchState :=
  if decide (result_kind r = kind /\ result_block r = block) then
    if is_failure r then mark_fetch_failed (result_hashes r) <$> ob
    else ob ≫= settle_entry (result_hashes r)
  else ob.

Lemma fetches_set kind kind' m s :
  fetches_of kind (set_fetches kind' m s) = if decide (kind = kind') then m else fetches_of kind s.
Proof. by destruct kind, kind'. Qed.

Lemma settle_entry_eq kind block kind' block' received b s :
  fetches_of kind' s !! block' = Some b ->
  fetches_of kind (settle kind' block' received b s) !! block
  = if decide (kind' = kind /\ block' = block) then settle_entry received b
    else fetches_of kind s !! block.
Proof.
  intros Hb. unfold settle, settle_entry. destruct (is_complete _); rewrite fetches_set;
    destruct (decide (kind = kind')) as [->|]; destruct (decide (block' = block)) as [->|];
    rewrite ?lookup_delete_eq, ?lookup_insert_eq, ?lookup_delete_ne, ?lookup_insert_ne by done;
    case_decide; naive_solver.
Qed.

Lemma process_result_entry kind block r s :
  fetches_of kind (process_result r s).1 !! block
  = entry_step kind block (fetches_of kind s !! block) r.
Proof.
  unfold entry_step. destruct r as [bh txs|bh certs|bh k hs]; cbn.
  - unfold handle_transactions_received. change (fm_tx_fetches s) with (fetches_of FetchTransaction s).
    destruct (fetches_of FetchTransaction s !! bh) as [b|] eqn:E; cbn [fst].
    + rewrite (settle_entry_eq _ _ _ _ _ _ _ E). case_decide as Hd; [|done].
      destruct Hd as [<- <-]. by rewrite E.
    + case_decide as Hd; [|done]. destruct Hd as [<- <-]. by rewrite E.
  - unfold handle_certificates_received.
    change (fm_cert_fetches s) with (fetches_of FetchCertificate s).
    destruct (fetches_of FetchCertificate s !! bh) as [b|] eqn:E; cbn [fst].
    + rewrite (settle_entry_eq _ _ _ _ _ _ _ E). case_decide as Hd; [|done].
      destruct Hd as [<- <-]. by rewrite E.
    + case_decide as Hd; [|done]. destruct Hd as [<- <-]. by rewrite E.
  - unfold handle_fetch_failed. destruct (fetches_of k s !! bh) as [b|] eqn:E; cbn [fst].
    + rewrite fetches_set. destruct (decide (kind = k)) as [->|].
      * destruct (decide (bh = block)) as [->|].
        -- rewrite lookup_insert_eq, decide_True, E by done. done.
        -- rewrite lookup_insert_ne, decide_False by naive_solver. done.
      * rewrite decide_False by naive_solver. done.
    + case_decide as Hd; [|done]. destruct Hd as [<- <-]. by rewrite E.
Qed.

Lemma process_results_entry kind block rs s :
  fetches_of kind (for_each process_result rs s).1 !! block
  = foldl (entry_step kind block) (fetches_of kind s !! block) rs.
Proof.
  revert s. induction rs as [|r rs IH]; intros s; [done|]. cbn [for_each foldl]. unfold hseq.
  rewrite <-process_result_entry. destruct (process_result r s) as [s1 a1]. cbn [fst].
  rewrite <-IH. by destruct (for_each process_result rs s1).
Qed.

(** The bookkeeping of one fetch. *)
Record fetch_ok (config : FetchConfig) (b : BlockFetchState) : Prop := {
  fo_flight : bf_in_flight b ⊆ bf_missing b;
  fo_received : bf_missing b ## bf_received b;
  fo_count : (bf_in_flight_count b <= max_concurrent_per_block config)%nat
}.

Definition concerns (kind : FetchKind) (block : Hash) (h : Hash) (r : FetchResult) : Prop :=
  result_kind r = kind /\ result_block r = block /\ h ∈ result_hashes r.

Lemma entry_step_some config kind block ob r b' :
  entry_step kind block ob r = Some b' ->
  exists b, ob = Some b /\ (fetch_ok config b -> fetch_ok config b') /\
    (forall h, h ∈ bf_in_flight b' <-> h ∈ bf_in_flight b /\ ~ concerns kind block h r) /\
    (forall h, h ∈ bf_missing b' <->
       h ∈ bf_missing b /\ (~ concerns kind block h r \/ is_failure r = true)).
Proof.
  unfold entry_step, concerns. destruct ob as [b|]; [|by repeat case_match].
  intros E. exists b. split; [done|]. case_decide as Hd.
  - destruct Hd as [-> ->]. destruct (is_failure r) eqn:Ef.
    + injection E as <-. split_and!; cbn; [|set_solver..].
      intros []. split; cbn; [set_solver|done|lia].
    + cbn in E. unfold settle_entry in E. case_match; [done|]. injection E as <-.
      split_and!; cbn; [|set_solver..]. intros []. split; cbn; [set_solver..|lia].
  - injection E as <-. naive_solver.
Qed.

Lemma entry_steps_some config kind block rs ob b' :
  foldl (entry_step kind block) ob rs = Some b' ->
  exists b, ob = Some b /\ (fetch_ok config b -> fetch_ok config b') /\
    (forall h, h ∈ bf_in_flight b' <->
       h ∈ bf_in_flight b /\ forall r, r ∈ rs -> ~ concerns kind block h r) /\
    (forall h, h ∈ bf_missing b' <->
       h ∈ bf_missing b /\ forall r, r ∈ rs -> ~ concerns kind block h r \/ is_failure r = true).
Proof.
  revert ob. induction rs as [|r rs IH]; intros ob E; cbn [foldl] in E.
  - exists b'. split_and!; [done|done|set_solver..].
  - destruct (IH _ E) as (b1 & E1 & Hok1 & Hf1 & Hm1).
    destruct (entry_step_some config _ _ _ _ _ E1) as (b & -> & Hok & Hf & Hm).
    exists b. split_and!; [done|auto|..]; intros h; [rewrite Hf1, Hf|rewrite Hm1, Hm];
      setoid_rewrite elem_of_cons; naive_solver.
Qed.

(** A fetch that is absent stays absent. *)
Lemma entry_steps_none kind block rs : foldl (entry_step kind block) None rs = None.
Proof. induction rs as [|r rs IH]; [done|]. cbn. unfold entry_step. by repeat case_match. Qed.

(** *** Requests *)

Lemma add_missing_spec config hs b :
  let b' := add_missing hs b in
  bf_in_flight b' = bf_in_flight b /\ bf_in_flight_count b' = bf_in_flight_count b /\
  bf_received b' = bf_received b /\ (fetch_ok config b -> fetch_ok config b') /\
  (forall h, h ∈ bf_missing b' <->
     h ∈ bf_missing b \/ h ∈ hs /\ (h ∉ bf_received b) /\ (h ∉ bf_in_flight b)).
Proof.
  cbv zeta. unfold add_missing. revert b. induction hs as [|x hs IH]; intros b; cbn [foldl].
  { split_and!; try done. set_solver. }
  set (b1 := if _ && _ then _ else b).
  assert (bf_in_flight b1 = bf_in_flight b /\ bf_in_flight_count b1 = bf_in_flight_count b /\
    bf_received b1 = bf_received b /\ (fetch_ok config b -> fetch_ok config b1) /\
    (forall h, h ∈ bf_missing b1 <->
       h ∈ bf_missing b \/ h = x /\ (h ∉ bf_received b) /\ (h ∉ bf_in_flight b)))
    as (F1 & C1 & R1 & O1 & M1).
  { clear IH. unfold b1, was_received. do 2 case_bool_decide; cbn; split_and!; try done; try set_solver.
    intros []. split; cbn; [set_solver..|done]. }
  destruct (IH b1) as (F2 & C2 & R2 & O2 & M2). rewrite F1, R1 in M2.
  split_and!; [congruence..|auto|]. intros h. rewrite M2, M1. clear IH. set_solver.
Qed.

(** *** Starting tasks *)

Section spawn.
Context `{HashIter}.

Lemma mark_all_spec cs b :
  let b' := foldl (fun b chunk => mark_in_flight chunk b) b cs in
  bf_missing b' = bf_missing b /\ bf_received b' = bf_received b /\
  bf_in_flight_count b' = (bf_in_flight_count b + length cs)%nat /\
  (forall h, h ∈ bf_in_flight b' <-> h ∈ bf_in_flight b \/ exists c, c ∈ cs /\ h ∈ c).
Proof.
  cbv zeta. revert b. induction cs as [|c cs IH]; intros b; cbn [foldl].
  { split_and!; first [done|cbn; lia|set_solver]. }
  destruct (IH (mark_in_flight c b)) as (M & R & C & F). cbn in M, R, C.
  split_and!; [done|done|cbn; lia|]. intros h. rewrite F. cbn. clear. set_solver.
Qed.

Lemma chunks_to_spawn_spec config b :
  let cs := chunks_to_spawn config b in
  (bf_in_flight_count b <= max_concurrent_per_block config ->
   bf_in_flight_count b + length cs <= max_concurrent_per_block config)%nat /\
  (forall c h, c ∈ cs -> h ∈ c -> h ∈ bf_missing b /\ (h ∉ bf_in_flight b)).
Proof.
  cbv zeta. unfold chunks_to_spawn. destruct (Nat.leb_spec (max_concurrent_per_block config) (bf_in_flight_count b)).
  { split; [cbn; lia|set_solver]. }
  split; [rewrite length_take; lia|]. intros c h Hc Hh.
  assert (c ∈ chunks (max_hashes_per_request config) (hashes_to_fetch b)) as Hc'.
  { rewrite <-(take_drop (Nat.min (max_concurrent_per_block config - bf_in_flight_count b)
      (parallel_fetches config))). apply elem_of_app. by left. }
  pose proof (chunks_elem _ _ _ _ Hc' Hh) as Hx. apply elem_of_hs_iter in Hx. set_solver.
Qed.

Lemma spawn_for_block_spec config b :
  let b' := spawn_for_block config b in
  bf_missing b' = bf_missing b /\ (fetch_ok config b -> fetch_ok config b') /\
  (forall h, h ∈ bf_in_flight b' <->
     h ∈ bf_in_flight b \/ exists c, c ∈ chunks_to_spawn config b /\ h ∈ c).
Proof.
  cbv zeta. unfold spawn_for_block. destruct (mark_all_spec (chunks_to_spawn config b) b) as (M & R & C & F).
  destruct (chunks_to_spawn_spec config b) as [Hl Hc]. split_and!; [done| |done].
  intros []. split; [|by rewrite M, R|rewrite C; auto].
  intros h. rewrite F, M. intros [|(c & Hc1 & Hc2)]; [set_solver|]. by apply (Hc c h).
Qed.
End spawn.

(** ** Runs *)

(** A task: what it asks for. *)
Definition task : Type := FetchKind * Hash * list Hash.

Definition spawned_tasks (acts : list FetchAction) : list task :=
  omap (fun a => match a with SpawnBlockFetch b k hs _ _ => Some (k, b, hs) | _ => None end) acts.

Record fetch_world := mk_fetch_world { fw_state : FetchManager; fw_tasks : list task }.

(** A result for a task: of its kind and block.  In full when it speaks of
    every hash asked for, as a failure does. *)
Definition answers (t : task) (r : FetchResult) : Prop :=
  result_kind r = t.1.1 /\ result_block r = t.1.2 /\
  (is_failure r = true -> result_hashes r = t.2).
Definition answers_in_full (t : task) (r : FetchResult) : Prop :=
  answers t r /\ forall h, h ∈ t.2 -> h ∈ result_hashes r.

Section runs.
Context `{HashIter}.
Context (answer : task -> FetchResult -> Prop).

Inductive fetch_step : fetch_world -> list FetchAction -> fetch_world -> Prop :=
  | fs_request kind block proposer hashes s tasks :
      fetch_step (mk_fetch_world s tasks) []
        (mk_fetch_world (request_kind kind block proposer hashes s) tasks)
  | fs_cancel kind block s tasks :
      fetch_step (mk_fetch_world s tasks) [] (mk_fetch_world (cancel_fetch block kind s) tasks)
  | fs_cancel_all s tasks :
      fetch_step (mk_fetch_world s tasks) [] (mk_fetch_world (cancel_all s) tasks)
  | fs_register v p s tasks :
      fetch_step (mk_fetch_world s tasks) [] (mk_fetch_world (register_committee_member v p s) tasks)
  | fs_result t r s tasks rest :
      tasks ≡ₚ t :: rest -> answer t r ->
      fetch_step (mk_fetch_world s tasks) [] (mk_fetch_world (fetch_result_arrives r s) rest)
  | fs_tick s tasks :
      let r := fetch_tick s in
      fetch_step (mk_fetch_world s tasks) r.2 (mk_fetch_world r.1 (tasks ++ spawned_tasks r.2)).

Inductive fetch_run (config : FetchConfig) : fetch_world -> Prop :=
  | fetch_run_new : fetch_run config (mk_fetch_world (fetch_manager_new config) [])
  | fetch_run_step w acts w' : fetch_run config w -> fetch_step w acts w' -> fetch_run config w'.

(** A task that runs or a result that waits speaks of the hash. *)
Definition pursued (w : fetch_world) (kind : FetchKind) (block h : Hash) : Prop :=
  (exists hs, (kind, block, hs) ∈ fw_tasks w /\ h ∈ hs) \/
  (exists r, r ∈ fm_results (fw_state w) /\ concerns kind block h r).

(** *** The parts of a tick *)

Lemma spawned_tasks_of kind s peers entries t :
  t ∈ spawned_tasks (flat_map (spawn_actions kind s peers) entries) <->
  exists block b c, (block, b) ∈ entries /\ c ∈ chunks_to_spawn (fm_config s) b /\ t = (kind, block, c).
Proof.
  unfold spawned_tasks. rewrite list_elem_of_omap. split.
  - intros (a & Ha%list_elem_of_In & Ht). apply in_flat_map in Ha as ([block b] & Hin & Ha).
    apply list_elem_of_In, list_elem_of_fmap in Ha as (c & -> & Hc). injection Ht as <-.
    exists block, b, c. split; [by apply list_elem_of_In|done].
  - intros (block & b & c & Hin & Hc & ->).
    exists (SpawnBlockFetch block kind c (fm_committee_peers s !! bf_proposer b) peers).
    split; [|done]. apply list_elem_of_In, in_flat_map. exists (block, b).
    split; [by apply list_elem_of_In|]. apply list_elem_of_In, list_elem_of_fmap. by exists c.
Qed.

Lemma spawn_tasks s kind block hs :
  get_peers s <> [] ->
  (kind, block, hs) ∈ spawned_tasks (spawn_pending_fetches s).2 <->
  exists b, fetches_of kind s !! block = Some b /\ hs ∈ chunks_to_spawn (fm_config s) b.
Proof.
  intros Hp. unfold spawn_pending_fetches. destruct (get_peers s) as [|p ps] eqn:Ep; [done|]. cbn [snd].
  unfold spawned_tasks. rewrite omap_app, elem_of_app. fold (spawned_tasks).
  etrans; [apply or_iff_compat_r, spawned_tasks_of|]. etrans; [apply or_iff_compat_l, spawned_tasks_of|].
  setoid_rewrite elem_of_hm_iter. destruct kind; cbn; naive_solver.
Qed.

Lemma spawn_entry s kind block :
  fetches_of kind (spawn_pending_fetches s).1 !! block
  = (if decide (get_peers s = []) then fetches_of kind s !! block
     else spawn_for_block (fm_config s) <$> fetches_of kind s !! block) /\
  fm_results (spawn_pending_fetches s).1 = fm_results s /\
  fm_config (spawn_pending_fetches s).1 = fm_config s.
Proof.
  unfold spawn_pending_fetches. destruct (get_peers s) as [|p ps] eqn:Ep; [done|].
  case_decide; [done|]. cbn [fst]. destruct kind; cbn; by rewrite lookup_fmap.
Qed.

Lemma process_frame rs s :
  fm_results (for_each process_result rs s).1 = fm_results s /\
  fm_config (for_each process_result rs s).1 = fm_config s /\
  fm_committee_peers (for_each process_result rs s).1 = fm_committee_peers s /\
  spawned_tasks (for_each process_result rs s).2 = [].
Proof.
  revert s. induction rs as [|r rs IH]; intros s; [done|]. cbn [for_each]. unfold hseq.
  assert (fm_results (process_result r s).1 = fm_results s /\
    fm_config (process_result r s).1 = fm_config s /\
    fm_committee_peers (process_result r s).1 = fm_committee_peers s /\
    spawned_tasks (process_result r s).2 = []) as (E1 & E2 & E3 & E4).
  { destruct r as [bh txs|bh certs|bh [] hs]; cbn;
      unfold handle_transactions_received, handle_certificates_received, handle_fetch_failed, settle;
      repeat case_match; done. }
  destruct (process_result r s) as [s1 a1]. cbn [fst snd] in *. destruct (IH s1) as (F1 & F2 & F3 & F4).
  destruct (for_each process_result rs s1) as [s2 a2]. cbn [fst snd] in *.
  unfold spawned_tasks in *. rewrite omap_app, E4, F4. split_and!; [congruence..|done].
Qed.

Definition after_results (s : FetchManager) (kind : FetchKind) (block : Hash) : option BlockFetchState :=
  foldl (entry_step kind block) (fetches_of kind s !! block) (fm_results s).

Lemma tick_entry s kind block :
  fetches_of kind (fetch_tick s).1 !! block
  = (if decide (get_peers s = []) then after_results s kind block
     else spawn_for_block (fm_config s) <$> after_results s kind block) /\
  fm_results (fetch_tick s).1 = [] /\ fm_config (fetch_tick s).1 = fm_config s /\
  (forall hs, (kind, block, hs) ∈ spawned_tasks (fetch_tick s).2 <->
     get_peers s <> [] /\
     exists b, after_results s kind block = Some b /\ hs ∈ chunks_to_spawn (fm_config s) b).
Proof.
  unfold fetch_tick, hseq, process_results, after_results.
  pose proof (process_results_entry kind block (fm_results s) (s <| fm_results := [] |>)) as Ee.
  destruct (process_frame (fm_results s) (s <| fm_results := [] |>)) as (Er & Ec & Ep & Et).
  destruct (for_each process_result _ _) as [s1 a1]. cbn [fst snd] in *.
  assert (fetches_of kind (s <| fm_results := [] |>) = fetches_of kind s) as Ex by (by destruct kind).
  rewrite Ex in Ee.
  assert (get_peers s1 = get_peers s) as Eg by (unfold get_peers; by rewrite Ep).
  destruct (spawn_entry s1 kind block) as (E1 & E2 & E3). pose proof (spawn_tasks s1 kind block) as Hs.
  rewrite Eg, Ee, Ec in *. cbn [fm_config] in *.
  assert (get_peers s = [] -> spawned_tasks (spawn_pending_fetches s1).2 = []) as Hnone.
  { intros E. unfold spawn_pending_fetches. by rewrite Eg, E. }
  destruct (spawn_pending_fetches s1) as [s2 a2]. cbn [fst snd] in *. split_and!.
  - done.
  - by rewrite E2, Er.
  - done.
  - intros hs. unfold spawned_tasks in *. rewrite omap_app, Et. cbn [app]. split.
    + intros Hin. destruct (decide (get_peers s = [])) as [E|Hne].
      * rewrite Hnone in Hin by done. set_solver.
      * split; [done|]. by apply Hs.
    + intros [Hne Hb]. by apply Hs.
Qed.

(** ** Full answers *)

Definition all_pursued config (w : fetch_world) : Prop :=
  fm_config (fw_state w) = config /\
  forall kind block b, fetches_of kind (fw_state w) !! block = Some b ->
    fetch_ok config b /\ forall h, h ∈ bf_in_flight b -> pursued w kind block h.

Lemma request_entry kind block proposer hs s kind' block' b' :
  fetches_of kind' (request_kind kind block proposer hs s) !! block' = Some b' ->
  fetches_of kind' s !! block' = Some b' \/
  (exists b, fetches_of kind' s !! block' = Some b /\ b' = add_missing hs b) \/
  b' = block_fetch_state_new block kind proposer hs.
Proof.
  unfold request_kind. destruct hs as [|h hs]; [by left|].
  destruct (fetches_of kind s !! block) as [b|] eqn:Eb; rewrite fetches_set;
    (destruct (decide (kind' = kind)) as [->|]; [|by left]);
    rewrite lookup_insert; case_decide; intros E; [subst|by left|subst|by left];
    injection E as <-; eauto.
Qed.

Lemma request_frame kind block proposer hs s :
  fm_results (request_kind kind block proposer hs s) = fm_results s /\
  fm_config (request_kind kind block proposer hs s) = fm_config s.
Proof. unfold request_kind. repeat case_match; by destruct kind. Qed.

Lemma new_fetch_ok config block kind proposer hs :
  fetch_ok config (block_fetch_state_new block kind proposer hs).
Proof. split; cbn; [set_solver|set_solver|lia]. Qed.

Lemma pursued_weaken w w' kind block h :
  (forall t, t ∈ fw_tasks w -> t ∈ fw_tasks w') ->
  (forall r, r ∈ fm_results (fw_state w) -> r ∈ fm_results (fw_state w')) ->
  pursued w kind block h -> pursued w' kind block h.
Proof. intros Ht Hr [(hs & Hin & Hh)|(r & Hin & Hc)]; [left|right]; eauto. Qed.

Lemma tick_pursued config s tasks :
  all_pursued config (mk_fetch_world s tasks) ->
  let r := fetch_tick s in
  all_pursued config (mk_fetch_world r.1 (tasks ++ spawned_tasks r.2)).
Proof.
  intros [Hc Hw]. cbv zeta. cbn in *. split; [cbn; by destruct (tick_entry s FetchTransaction 0) as (_ & _ & -> & _)|].
  intros kind block b'. cbn. destruct (tick_entry s kind block) as (Ee & Er & _ & Hs). rewrite Ee.
  assert (forall b, after_results s kind block = Some b ->
    fetch_ok config b /\ forall h, h ∈ bf_in_flight b -> exists hs, (kind, block, hs) ∈ tasks /\ h ∈ hs) as Hafter.
  { intros b Hb. destruct (entry_steps_some config _ _ _ _ _ Hb) as (b0 & E0 & Hok & Hf & _).
    destruct (Hw kind block b0 E0) as [Hok0 Hp0]. split; [auto|]. intros h [Hh Hn]%Hf.
    destruct (Hp0 h Hh) as [|(r & Hr & Hcr)]; [done|]. by destruct (Hn r Hr). }
  destruct (decide (get_peers s = [])) as [|Hp].
  - intros Hb. destruct (Hafter b' Hb) as [Hok Hx]. split; [done|]. intros h Hh.
    destruct (Hx h Hh) as (hs & Hin & Hhs). left. exists hs. cbn. set_solver.
  - destruct (after_results s kind block) as [b|] eqn:Eb; [|done]. intros [= <-].
    destruct (Hafter b eq_refl) as [Hok Hx]. rewrite Hc.
    destruct (spawn_for_block_spec config b) as (_ & Hok' & Hf). split; [auto|].
    intros h [Hh|(c & Hcs & Hh)]%Hf; left; cbn.
    + destruct (Hx h Hh) as (hs & Hin & Hhs). exists hs. set_solver.
    + exists c. rewrite elem_of_app. split; [right|done]. apply Hs. split; [done|].
      exists b. by rewrite Hc.
Qed.
End runs.

Section full.
Context `{HashIter}.

Lemma step_pursued config w acts w' :
  fetch_step answers_in_full w acts w' -> all_pursued config w -> all_pursued config w'.
Proof.
  intros Hst Hw. destruct Hst as [kind block proposer hs s tasks|kind block s tasks|s tasks|v p s tasks
    |t r s tasks rest Hp Ha|s tasks r].
  - destruct Hw as [Hc Hw]. destruct (request_frame kind block proposer hs s) as [Er Ec].
    split; [cbn in *; by rewrite Ec|]. intros kind' block' b' Hb'. cbn in Hb'.
    destruct (request_entry _ _ _ _ _ _ _ _ Hb') as [Hb|[(b & Hb & ->)| ->]].
    + destruct (Hw kind' block' b' Hb) as [Hok Hx]. split; [done|]. intros h Hh.
      eapply pursued_weaken; [| |by apply Hx]; cbn; [done|by rewrite Er].
    + destruct (Hw kind' block' b Hb) as [Hok Hx].
      destruct (add_missing_spec config hs b) as (Ef & _ & _ & Hok' & _). split; [auto|].
      intros h. rewrite Ef. intros Hh. eapply pursued_weaken; [| |by apply Hx]; cbn; [done|by rewrite Er].
    + split; [apply new_fetch_ok|]. cbn. set_solver.
  - destruct Hw as [Hc Hw]. split; [by destruct kind|]. intros kind' block' b'. cbn. unfold cancel_fetch.
    rewrite fetches_set. intros Hb.
    assert (fetches_of kind' s !! block' = Some b') as Hb'.
    { destruct (decide (kind' = kind)) as [->|]; [|done]. by apply lookup_delete_Some in Hb as [_ ?]. }
    destruct (Hw kind' block' b' Hb') as [Hok Hx]. split; [done|]. intros h Hh.
    eapply pursued_weaken; [| |by apply Hx]; [done|by destruct kind].
  - destruct Hw as [Hc Hw]. split; [done|]. intros kind' block' b' Hb. by destruct kind'.
  - destruct Hw as [Hc Hw]. split; [done|]. intros kind' block' b' Hb. apply Hw. by destruct kind'.
  - destruct Hw as [Hc Hw]. split; [done|]. intros kind block b Hb.
    destruct (Hw kind block b) as [Hok Hx]; [by destruct kind|]. split; [done|]. intros h Hh.
    destruct (Hx h Hh) as [(hs & Hin & Hhs)|(r' & Hr' & Hc')]; cbn in *.
    + rewrite Hp in Hin. apply elem_of_cons in Hin as [<-|Hin]; [|left; by exists hs].
      right. exists r. cbn. split; [set_solver|]. destruct Ha as [(Hk & Hbl & _) Hall].
      split_and!; [done|done|by apply Hall].
    + right. exists r'. cbn. split; [set_solver|done].
  - by apply tick_pursued.
Qed.

Lemma run_pursued config w : fetch_run answers_in_full config w -> all_pursued config w.
Proof.
  induction 1 as [|w acts w' _ IH Hst]; [|by eapply step_pursued].
  split; [done|]. intros kind block b. by destruct kind.
Qed.

(** C29: No hash is lost when answers are in full.  In every run in which each
    task is answered with everything it asked for or with a failure, with any
    requests, cancellations and interleaving: the hashes of a block in flight
    are missing ones, no received hash is missing, the operations counted are
    within the limit per block, and every missing hash is free to be asked for
    by the next tick or is asked for by a task that runs or whose answer
    waits. *)
Theorem no_hash_lost config w kind block b :
  fetch_run answers_in_full config w -> fetches_of kind (fw_state w) !! block = Some b ->
  fetch_ok config b /\
  forall h, h ∈ bf_missing b -> h ∈ hashes_to_fetch b \/ pursued w kind block h.
Proof.
  intros Hr Hb. destruct (run_pursued config w Hr) as [_ Hw]. destruct (Hw kind block b Hb) as [Hok Hx].
  split; [done|]. intros h Hh. destruct (decide (h ∈ bf_in_flight b)) as [Hf|Hf]; [right; auto|left].
  apply elem_of_hs_iter. set_solver.
Qed.
End full.

(** ** Partial answers *)

Section partial.
Context `{HashIter}.

(** An answer may leave hashes out and brings nothing that was not asked for. *)
Definition answers_in_part (t : task) (r : FetchResult) : Prop :=
  answers t r /\ forall h, h ∈ result_hashes r -> h ∈ t.2.

(** All steps but the cancellation of a fetch. *)
Inductive keeping_step : fetch_world -> list FetchAction -> fetch_world -> Prop :=
  | ks_request kind block proposer hashes s tasks :
      keeping_step (mk_fetch_world s tasks) []
        (mk_fetch_world (request_kind kind block proposer hashes s) tasks)
  | ks_register v p s tasks :
      keeping_step (mk_fetch_world s tasks) [] (mk_fetch_world (register_committee_member v p s) tasks)
  | ks_result t r s tasks rest :
      tasks ≡ₚ t :: rest -> answers_in_part t r ->
      keeping_step (mk_fetch_world s tasks) [] (mk_fetch_world (fetch_result_arrives r s) rest)
  | ks_tick s tasks :
      let r := fetch_tick s in
      keeping_step (mk_fetch_world s tasks) r.2 (mk_fetch_world r.1 (tasks ++ spawned_tasks r.2)).

Inductive keeping_run : fetch_world -> list FetchAction -> fetch_world -> Prop :=
  | keeping_done w : keeping_run w [] w
  | keeping_next w acts w1 acts' w2 :
      keeping_step w acts w1 -> keeping_run w1 acts' w2 -> keeping_run w (acts ++ acts') w2.

(** The hash counts as being fetched and nobody fetches it. *)
Definition abandoned (w : fetch_world) (kind : FetchKind) (block h : Hash) : Prop :=
  (exists b, fetches_of kind (fw_state w) !! block = Some b /\ h ∈ bf_in_flight b) /\
  ~ pursued w kind block h.

Lemma entry_step_keeps kind block b r h :
  h ∈ bf_in_flight b -> ~ concerns kind block h r ->
  exists b', entry_step kind block (Some b) r = Some b' /\ h ∈ bf_in_flight b'.
Proof.
  unfold entry_step, concerns. intros Hh Hn. case_decide as Hd; [|by exists b].
  assert (h ∉ result_hashes r) as Hr by naive_solver.
  destruct (is_failure r); cbn; [eexists; split; [done|]; cbn; set_solver|].
  unfold settle_entry, is_complete. cbn.
  rewrite (bool_decide_false (bf_in_flight b ∖ _ = ∅)) by set_solver.
  rewrite andb_false_r. eexists. split; [done|]. cbn. set_solver.
Qed.

Lemma entry_steps_keep kind block rs b h :
  h ∈ bf_in_flight b -> (forall r, r ∈ rs -> ~ concerns kind block h r) ->
  exists b', foldl (entry_step kind block) (Some b) rs = Some b' /\ h ∈ bf_in_flight b'.
Proof.
  revert b. induction rs as [|r rs IH]; intros b Hh Hn; [by exists b|]. cbn [foldl].
  destruct (entry_step_keeps kind block b r h Hh) as (b1 & -> & Hh1); [apply Hn; set_solver|].
  apply IH; [done|]. intros r' Hr'. apply Hn. set_solver.
Qed.

Lemma tick_abandoned s tasks kind block h :
  abandoned (mk_fetch_world s tasks) kind block h ->
  let r := fetch_tick s in
  abandoned (mk_fetch_world r.1 (tasks ++ spawned_tasks r.2)) kind block h /\
  (forall hs, (kind, block, hs) ∈ spawned_tasks r.2 -> h ∉ hs).
Proof.
  intros [(b & Hb & Hh) Hn]. cbv zeta. cbn in Hb.
  destruct (tick_entry s kind block) as (Ee & Er & _ & Hs).
  destruct (entry_steps_keep kind block (fm_results s) b h Hh) as (b1 & Eb1 & Hh1).
  { intros r Hr Hc. apply Hn. right. by exists r. }
  assert (after_results s kind block = Some b1) as Ea by (unfold after_results; by rewrite Hb).
  assert (forall hs, (kind, block, hs) ∈ spawned_tasks (fetch_tick s).2 -> h ∉ hs) as Hnot.
  { intros hs (_ & b2 & Eb2 & Hin)%Hs Hhs. rewrite Ea in Eb2. injection Eb2 as <-.
    by destruct (chunks_to_spawn_spec (fm_config s) b1) as [_ Hc]; destruct (Hc hs h Hin Hhs). }
  split; [|done]. split.
  - cbn. rewrite Ee, Ea. destruct (decide (get_peers s = [])); [by exists b1|].
    exists (spawn_for_block (fm_config s) b1). split; [done|].
    destruct (spawn_for_block_spec (fm_config s) b1) as (_ & _ & Hf). apply Hf. by left.
  - intros [(hs & Hin & Hhs)|(r & Hin & _)]; cbn in *; [|rewrite Er in Hin; set_solver].
    apply elem_of_app in Hin as [Hin|Hin]; [apply Hn; left; by exists hs|by apply (Hnot hs Hin)].
Qed.

Lemma keeping_abandoned w acts w' kind block h :
  keeping_step w acts w' -> abandoned w kind block h ->
  abandoned w' kind block h /\ (forall hs, (kind, block, hs) ∈ spawned_tasks acts -> h ∉ hs).
Proof.
  intros Hst Ha. destruct Hst as [kind' block' proposer hs s tasks|v p s tasks|t r s tasks rest Hp Hans|s tasks r].
  - split; [|cbn; set_solver]. destruct Ha as [(b & Hb & Hh) Hn]. cbn in Hb.
    destruct (request_frame kind' block' proposer hs s) as [Er _]. split; cbn.
    + unfold request_kind. destruct hs as [|x hs]; [by exists b|].
      destruct (fetches_of kind' s !! block') as [b0|] eqn:E0; rewrite fetches_set;
        (destruct (decide (kind = kind')) as [->|]; [|by exists b]); rewrite lookup_insert;
        (case_decide; [subst block'|by exists b]).
      * exists (add_missing (x :: hs) b0). split; [done|]. assert (b0 = b) as -> by congruence.
        by destruct (add_missing_spec default_fetch_config (x :: hs) b) as (-> & _).
      * congruence.
    + intros [Hx|(r & Hin & Hc)]; cbn in *; [apply Hn; by left|]. apply Hn. right. cbn.
      rewrite Er in Hin. by exists r.
  - split; [|cbn; set_solver]. destruct Ha as [(b & Hb & Hh) Hn]. split; [|exact Hn].
    exists b. split; [by destruct kind|done].
  - split; [|cbn; set_solver]. destruct Ha as [(b & Hb & Hh) Hn]. split.
    + exists b. split; [by destruct kind|done].
    + intros [(hs & Hin & Hhs)|(r' & Hin & Hc)]; cbn in *.
      * apply Hn. left. exists hs. cbn. rewrite Hp. set_solver.
      * apply elem_of_app in Hin as [Hin|Hin]; [apply Hn; right; by exists r'|].
        apply list_elem_of_singleton in Hin as ->. destruct Hans as [(Hk & Hbl & _) Hsub].
        destruct Hc as (Hk' & Hbl' & Hh'). apply Hn. left. exists t.2. cbn. rewrite Hp.
        split; [|by apply Hsub]. destruct t as [[k bl] hs]. cbn in *. subst. apply elem_of_cons. by left.
  - by apply tick_abandoned.
Qed.

(** A hash that an answer leaves out is never asked for again.  Honest
    peers send the transactions they have, so an answer may lack some of the
    hashes asked for; those stay marked as in flight although no task fetches
    them.  From then on, until the fetch of the block is cancelled, no tick
    asks for the hash, whatever other answers arrive and however often
    consensus repeats its request; the fetch never becomes complete. *)
Theorem partial_answer_stalls_fetch w acts w' kind block h :
  abandoned w kind block h -> keeping_run w acts w' ->
  (forall hs, (kind, block, hs) ∈ spawned_tasks acts -> h ∉ hs) /\
  exists b, fetches_of kind (fw_state w') !! block = Some b /\ h ∈ bf_in_flight b /\
    is_complete b = false.
Proof.
  intros Ha Hr. induction Hr as [w|w a1 w1 a2 w2 Hst _ IH].
  - split; [cbn; set_solver|]. destruct Ha as [(b & Hb & Hh) _]. exists b. split_and!; [done|done|].
    unfold is_complete. rewrite (bool_decide_false (bf_in_flight b = ∅)) by set_solver. apply andb_false_r.
  - destruct (keeping_abandoned _ _ _ _ _ _ Hst Ha) as [Ha1 Hn1]. destruct (IH Ha1) as [Hn2 Hb].
    split; [|done]. intros hs. unfold spawned_tasks in *. rewrite omap_app, elem_of_app. naive_solver.
Qed.
End partial.

(** ** A fetch of two transactions of which a peer has one *)

#[local] Existing Instance canonical_iter.

Definition fetched_tx (h : Hash) : RoutableTransaction := mk_routable_transaction [] [] [] None h.

Definition fetch_0 : fetch_world := mk_fetch_world (fetch_manager_new default_fetch_config) [].
Definition fetch_1 : fetch_world := mk_fetch_world (register_committee_member 2 9 (fw_state fetch_0)) [].
Definition fetch_2 : fetch_world :=
  mk_fetch_world (request_transactions 50 2 [7; 8] (fw_state fetch_1)) [].
Definition first_tick := fetch_tick (fw_state fetch_2).
Definition fetch_3 : fetch_world := mk_fetch_world first_tick.1 ([] ++ spawned_tasks first_tick.2).
Definition fetch_4 : fetch_world :=
  mk_fetch_world (fetch_result_arrives (TransactionsReceived 50 [fetched_tx 7]) (fw_state fetch_3)) [].
Definition second_tick := fetch_tick (fw_state fetch_4).
Definition fetch_5 : fetch_world := mk_fetch_world second_tick.1 ([] ++ spawned_tasks second_tick.2).
Definition fetch_6 : fetch_world :=
  mk_fetch_world (request_transactions 50 2 [8] (fw_state fetch_5)) (fw_tasks fetch_5).
Definition third_tick := fetch_tick (fw_state fetch_6).
Definition fetch_7 : fetch_world :=
  mk_fetch_world third_tick.1 (fw_tasks fetch_6 ++ spawned_tasks third_tick.2).

Lemma fetch_3_run : fetch_run answers_in_full default_fetch_config fetch_3.
Proof.
  eapply fetch_run_step; [|exact (fs_tick _ (fw_state fetch_2) [])].
  eapply fetch_run_step; [|exact (fs_request _ FetchTransaction 50 2 [7; 8] (fw_state fetch_1) [])].
  eapply fetch_run_step; [|exact (fs_register _ 2 9 (fw_state fetch_0) [])].
  apply fetch_run_new.
Qed.

Lemma no_hash_lost_witness : pursued fetch_3 FetchTransaction 50 8.
Proof.
  destruct (fm_tx_fetches (fw_state fetch_3) !! 50) as [b|] eqn:Eb; [|vm_compute in Eb; discriminate].
  destruct (no_hash_lost default_fetch_config fetch_3 FetchTransaction 50 b fetch_3_run Eb) as [_ Hh].
  vm_compute in Eb. injection Eb as <-.
  destruct (Hh 8) as [Hf|Hp]; [|exfalso|exact Hp].
  - apply (bool_decide_unpack _). vm_compute. reflexivity.
  - revert Hf. apply (bool_decide_unpack _). vm_compute. reflexivity.
Defined.

Lemma fetch_5_abandoned : abandoned fetch_5 FetchTransaction 50 8.
Proof.
  split.
  - eexists. split; [vm_compute; reflexivity|]. apply (bool_decide_unpack _). vm_compute. reflexivity.
  - intros [(hs & Hin & _)|(r & Hin & _)]; revert Hin; vm_compute; intros Hin; inversion Hin.
Qed.

Lemma partial_answer_stalls_fetch_witness :
  exists b, fetches_of FetchTransaction (fw_state fetch_7) !! 50 = Some b /\ is_complete b = false.
Proof.
  destruct (partial_answer_stalls_fetch fetch_5 ([] ++ third_tick.2 ++ []) fetch_7 FetchTransaction 50 8)
    as [_ (b & Hb & _ & Hc)].
  - exact fetch_5_abandoned.
  - eapply keeping_next; [exact (ks_request FetchTransaction 50 2 [8] (fw_state fetch_5) (fw_tasks fetch_5))|].
    eapply keeping_next; [exact (ks_tick (fw_state fetch_6) (fw_tasks fetch_6))|apply keeping_done].
  - exists b. split; [exact Hb|exact Hc].
Defined.
