(* ===== verification/Epoch.v ===== *)
(** * Epochs (crates/types/src/epoch.rs) and DynamicTopology (topology.rs)

    The configuration of an epoch, the validator ratings, the hash ranges of
    the shards, and the topology that changes from epoch to epoch. *)

From stdpp Require Import base gmap list numbers fin_maps.
From Stdlib Require Import NArith Lia.
From S2P Require Import Prelude Bitfield Types Encoding Topology.

(** ** Identifiers, states, ratings *)

Abbreviation EpochId := N (only parsing).

Definition GENESIS : EpochId := 0.
Definition epoch_next (e : EpochId) : EpochId := e +w 1.
Definition epoch_prev (e : EpochId) : option EpochId := if 0 <? e then Some (e - 1) else None.

Definition DEFAULT_EPOCH_LENGTH : u64 := 14400.

Inductive ValidatorShardState := VActive | VWaiting | VShufflingOut | VLeaving.

#[export] Instance ValidatorShardState_eq_dec : EqDecision ValidatorShardState.
Proof. solve_decision. Defined.

Record ValidatorRating := mk_validator_rating {
  vr_score : u64;
  vr_blocks_proposed : u64;
  vr_blocks_missed : u64
}.

#[export] Instance ValidatorRating_eta : Eta ValidatorRating := fun r =>
  mk_validator_rating (vr_score r) (vr_blocks_proposed r) (vr_blocks_missed r).

Definition default_rating : ValidatorRating := mk_validator_rating 50 0 0.

Definition update_with_epoch_performance (epoch_performance : u64) (r : ValidatorRating)
    : ValidatorRating :=
  r <| vr_score := N.min (((vr_score r *w 9) +w epoch_performance) / 10) 100 |>.

Definition apply_equivocation_penalty (r : ValidatorRating) : ValidatorRating :=
  r <| vr_score ::= fun s => s - 50 |>.
Definition apply_missed_proposal_penalty (r : ValidatorRating) : ValidatorRating :=
  r <| vr_score ::= fun s => s - 10 |>.
Definition apply_sync_failure_penalty (r : ValidatorRating) : ValidatorRating :=
  r <| vr_score ::= fun s => s - 10 |>.

Record GlobalValidatorInfo := mk_global_validator_info {
  gv_validator_id : ValidatorId;
  gv_public_key : Bls12381G1PublicKey;
  gv_voting_power : u64;
  gv_rating : ValidatorRating;
  gv_current_shard : ShardGroupId;
  gv_state : ValidatorShardState;
  gv_epochs_in_shard : u64
}.

Definition global_validator_new (id : ValidatorId) (key : Bls12381G1PublicKey) (power : u64)
    (shard : ShardGroupId) : GlobalValidatorInfo :=
  mk_global_validator_info id key power default_rating shard VActive 0.

Definition can_participate (v : GlobalValidatorInfo) : bool := bool_decide (gv_state v = VActive).

Definition is_shuffle_eligible (v : GlobalValidatorInfo) (min_epochs : u64) : bool :=
  bool_decide (gv_state v = VActive) && (min_epochs <=? gv_epochs_in_shard v).

(** ** Committees and hash ranges *)

Record ShardCommitteeConfig := mk_shard_committee_config {
  scc_active_validators : list ValidatorId;
  scc_total_voting_power : u64;
  scc_target_size : usize
}.

Definition shard_committee_config_new (validators : list ValidatorId)
    (voting_powers : gmap ValidatorId u64) : ShardCommitteeConfig :=
  mk_shard_committee_config validators
    (wsum (filter_map (fun v => voting_powers !! v) validators)) 100.

Definition has_minimum_validators (c : ShardCommitteeConfig) (min : usize) : bool :=
  Nat.leb min (length (scc_active_validators c)).

Record ShardHashRange := mk_shard_hash_range {
  hr_shard_id : ShardGroupId;
  hr_start : u64;
  hr_end : u64
}.

Definition range_contains (r : ShardHashRange) (hash_value : u64) : bool :=
  (hr_start r <=? hash_value) && (hash_value <? hr_end r).

Definition range_split (r : ShardHashRange) (new_shard_id : ShardGroupId)
    : ShardHashRange * ShardHashRange :=
  let midpoint := hr_start r + (hr_end r - hr_start r) / 2 in
  (mk_shard_hash_range (hr_shard_id r) (hr_start r) midpoint,
   mk_shard_hash_range new_shard_id midpoint (hr_end r)).

(** ** Epoch configurations *)

Record EpochConfig := mk_epoch_config {
  ec_epoch_id : EpochId;
  ec_num_shards : u64;
  ec_shard_committees : gmap ShardGroupId ShardCommitteeConfig;
  ec_waiting_validators : gmap ShardGroupId (list ValidatorId);
  ec_validator_set : list ValidatorInfo;
  ec_randomness_seed : Hash;
  ec_start_heights : gmap ShardGroupId BlockHeight;
  ec_expected_end_heights : gmap ShardGroupId BlockHeight;
  ec_shard_ranges : list ShardHashRange
}.

(** [0..num_shards] *)
Definition shard_ids (num_shards : u64) : list ShardGroupId :=
  N.of_nat <$> seq 0 (N.to_nat num_shards).

Definition genesis_voting_powers (vs : list ValidatorInfo) : gmap ValidatorId u64 :=
  foldl (fun m v => <[vi_validator_id v := vi_voting_power v]> m) ∅ vs.

Definition genesis_range (num_shards shard_id : u64) : ShardHashRange :=
  let range_size := u64_max / num_shards in
  mk_shard_hash_range shard_id (shard_id * range_size)
    (if shard_id =? num_shards - 1 then u64_max else (shard_id + 1) * range_size).

(** [num_shards] is positive: the source divides by it. *)
Definition epoch_genesis (num_shards : u64) (vs : list ValidatorInfo) : EpochConfig :=
  let shard_validators shard :=
    vi_validator_id <$> filter (fun v => vi_validator_id v mod num_shards = shard) vs in
  let per_shard {A} (f : ShardGroupId -> A) : gmap ShardGroupId A :=
    foldl (fun m shard => <[shard := f shard]> m) ∅ (shard_ids num_shards) in
  {|
    ec_epoch_id := GENESIS;
    ec_num_shards := num_shards;
    ec_shard_committees := per_shard (fun shard =>
      shard_committee_config_new (shard_validators shard) (genesis_voting_powers vs));
    ec_waiting_validators := ∅;
    ec_validator_set := vs;
    ec_randomness_seed := ZERO;
    ec_start_heights := per_shard (fun _ => 0);
    ec_expected_end_heights := per_shard (fun _ => DEFAULT_EPOCH_LENGTH);
    ec_shard_ranges := genesis_range num_shards <$> shard_ids num_shards
  |}.

Definition is_validator_waiting (e : EpochConfig) (id : ValidatorId) (shard : ShardGroupId) : bool :=
  match ec_waiting_validators e !! shard with
  | Some waiting => bool_decide (id ∈ waiting)
  | None => false
  end.

Definition epoch_committee_for_shard (e : EpochConfig) (shard : ShardGroupId)
    : option ShardCommitteeConfig := ec_shard_committees e !! shard.

Definition hash_range_for_shard (e : EpochConfig) (shard : ShardGroupId) : option ShardHashRange :=
  snd <$> list_find (fun r => hr_shard_id r = shard) (ec_shard_ranges e).

(** The first range that contains the value, or else the remainder. *)
Definition shard_of_hash (e : EpochConfig) (hash_value : u64) : ShardGroupId :=
  match list_find (fun r => range_contains r hash_value = true) (ec_shard_ranges e) with
  | Some (_, r) => hr_shard_id r
  | None => hash_value mod ec_num_shards e
  end.

Definition epoch_shard_for_node_id `{Crypto} (e : EpochConfig) (node_id : NodeId) : ShardGroupId :=
  shard_of_hash e (node_hash_value node_id).

Section lookup.
Context `{HashIter}.

Definition find_validator_shard (e : EpochConfig) (id : ValidatorId) : option ShardGroupId :=
  match list_find (fun kv => id ∈ scc_active_validators kv.2) (hm_iter (ec_shard_committees e)) with
  | Some (_, (shard, _)) => Some shard
  | None =>
      match list_find (fun kv => id ∈ kv.2) (hm_iter (ec_waiting_validators e)) with
      | Some (_, (shard, _)) => Some shard
      | None => None
      end
  end.
End lookup.

Record GlobalConsensusConfig := mk_global_consensus_config {
  gc_epoch_length : u64;
  gc_shuffle_percentage : u64;
  gc_min_validators_per_shard : usize;
  gc_max_validators_per_shard : usize;
  gc_min_epochs_before_shuffle : u64
}.

Definition default_global_consensus_config : GlobalConsensusConfig :=
  mk_global_consensus_config DEFAULT_EPOCH_LENGTH 20 4 400 1.

Definition shuffle_count (c : GlobalConsensusConfig) (committee_size : usize) : usize :=
  Nat.max (committee_size * N.to_nat (gc_shuffle_percentage c) / 100) 1.

(** ** DynamicTopology *)

Record DynamicTopology := mk_dynamic_topology {
  dt_local_validator_id : ValidatorId;
  dt_current : EpochConfig;
  dt_next : option EpochConfig;
  dt_local_shard : ShardGroupId;
  dt_local_state : ValidatorShardState;
  dt_validator_info : gmap ValidatorId ValidatorInfo;
  dt_splitting_shards : gset ShardGroupId
}.

#[export] Instance DynamicTopology_eta : Eta DynamicTopology := fun t =>
  mk_dynamic_topology (dt_local_validator_id t) (dt_current t) (dt_next t) (dt_local_shard t)
    (dt_local_state t) (dt_validator_info t) (dt_splitting_shards t).

Inductive DynamicTopologyError := NoNextEpoch | ValidatorNotInEpoch (id : ValidatorId).

Module DynamicTopologyOps.
Section ops.
Context `{HashIter}.

Definition state_in (e : EpochConfig) (id : ValidatorId) (shard : ShardGroupId)
    : ValidatorShardState :=
  if is_validator_waiting e id shard then VWaiting else VActive.

Definition from_epoch_config (id : ValidatorId) (e : EpochConfig)
    : DynamicTopologyError + DynamicTopology :=
  match find_validator_shard e id with
  | None => inl (ValidatorNotInEpoch id)
  | Some shard =>
      inr (mk_dynamic_topology id e None shard (state_in e id shard)
             (StaticTopologyOps.collect_validator_info (ec_validator_set e)) ∅)
  end.

Definition set_next_epoch (next : EpochConfig) (t : DynamicTopology) : DynamicTopology :=
  t <| dt_next := Some next |>.

(** [take] empties the pending epoch before the lookup that may fail. *)
Definition transition_to_next_epoch (t : DynamicTopology)
    : DynamicTopology * option DynamicTopologyError :=
  match dt_next t with
  | None => (t, Some NoNextEpoch)
  | Some next =>
      let t := t <| dt_next := None |> in
      match find_validator_shard next (dt_local_validator_id t) with
      | None => (t, Some (ValidatorNotInEpoch (dt_local_validator_id t)))
      | Some new_shard =>
          (t <| dt_validator_info :=
                  StaticTopologyOps.collect_validator_info (ec_validator_set next) |>
             <| dt_local_shard := new_shard |>
             <| dt_local_state := state_in next (dt_local_validator_id t) new_shard |>
             <| dt_current := next |>
             <| dt_splitting_shards := ∅ |>, None)
      end
  end.
End ops.

Definition mark_shard_splitting (shard : ShardGroupId) (t : DynamicTopology) : DynamicTopology :=
  t <| dt_splitting_shards ::= union {[shard]} |>.
Definition clear_shard_splitting (shard : ShardGroupId) (t : DynamicTopology) : DynamicTopology :=
  t <| dt_splitting_shards ::= fun X => X ∖ {[shard]} |>.
Definition epoch_id (t : DynamicTopology) : EpochId := ec_epoch_id (dt_current t).
Definition local_validator_state (t : DynamicTopology) : ValidatorShardState := dt_local_state t.
Definition has_next_epoch (t : DynamicTopology) : bool := bool_decide (is_Some (dt_next t)).

Definition topology `{Crypto} (t : DynamicTopology) : Topology := {|
  local_validator_id := dt_local_validator_id t;
  local_shard := dt_local_shard t;
  num_shards := ec_num_shards (dt_current t);
  committee_for_shard shard :=
    match ec_shard_committees (dt_current t) !! shard with
    | Some c => scc_active_validators c
    | None => []
    end;
  voting_power_for_shard shard :=
    match ec_shard_committees (dt_current t) !! shard with
    | Some c => scc_total_voting_power c
    | None => 0
    end;
  voting_power id := vi_voting_power <$> dt_validator_info t !! id;
  public_key id := vi_public_key <$> dt_validator_info t !! id;
  global_validator_set := ec_validator_set (dt_current t);
  shard_for_node_id := epoch_shard_for_node_id (dt_current t)
|}.

(** The least end height of all shards. *)
Definition epoch_end_height (t : DynamicTopology) : BlockHeight :=
  match (map_to_list (ec_expected_end_heights (dt_current t))).*2 with
  | [] => u64_max
  | h :: hs => foldl N.min h hs
  end.

Definition can_participate_in_consensus (t : DynamicTopology) : bool :=
  bool_decide (dt_local_state t = VActive).
Definition is_shard_splitting (t : DynamicTopology) (shard : ShardGroupId) : bool :=
  bool_decide (shard ∈ dt_splitting_shards t).
Definition is_node_in_splitting_shard `{Crypto} (t : DynamicTopology) (node_id : NodeId) : bool :=
  is_shard_splitting t (epoch_shard_for_node_id (dt_current t) node_id).
End DynamicTopologyOps.

(** ** Hash ranges *)

Lemma elem_of_shard_ids n s : s ∈ shard_ids n <-> s < n.
Proof.
  unfold shard_ids. rewrite list_elem_of_fmap. split.
  - intros (k & -> & Hk%elem_of_seq). lia.
  - intros Hs. exists (N.to_nat s). rewrite elem_of_seq. lia.
Qed.

(** The range of a value below the largest, and no other, contains it. *)
Lemma genesis_range_contains n s v :
  0 < n -> n <= u64_max -> s < n -> v < u64_max ->
  range_contains (genesis_range n s) v = true <-> s = N.min (v / (u64_max / n)) (n - 1).
Proof.
  intros Hn Hmax Hs Hv. unfold range_contains, genesis_range. cbn [hr_start hr_end].
  set (size := u64_max / n).
  assert (0 < size) as Hsize by (by apply N.div_str_pos).
  assert (n * size <= u64_max) as Hprod by (unfold size; apply N.Div0.mul_div_le).
  rewrite andb_true_iff, N.leb_le, N.ltb_lt. pose proof (N.div_mod v size ltac:(lia)) as Hdm.
  pose proof (N.mod_lt v size ltac:(lia)) as Hml. set (q := v / size) in *.
  set (r := v mod size) in *. assert (v = q * size + r) as Hv' by lia.
  destruct (N.eqb_spec s (n - 1)) as [->|Hne].
  - split; [intros [H1 _]|intros Heq].
    + assert (n - 1 <= q); [|lia]. apply N.div_le_lower_bound; lia.
    + split; [|lia]. pose proof (N.mul_le_mono_r (n - 1) q size ltac:(lia)). lia.
  - split.
    + intros [H1 H2]. assert (q = s); [|lia].
      symmetry. apply (N.div_unique v size s (v - s * size)); nia.
    + intros Heq. assert (q = s) by lia. subst s. nia.
Qed.

Lemma genesis_range_top n s : range_contains (genesis_range n s) u64_max = true ->
  s <> n - 1 /\ u64_max < (s + 1) * (u64_max / n).
Proof.
  unfold range_contains, genesis_range. cbn [hr_start hr_end].
  rewrite andb_true_iff, N.leb_le, N.ltb_lt. destruct (N.eqb_spec s (n - 1)); intros [_ Hx]; [lia|done].
Qed.

(** The hash ranges of the genesis epoch assign every value but one.  With
    [n] shards each value below the largest [u64] lies in exactly one range,
    that of the shard it falls to when the space is divided evenly, the last
    shard taking the remainder; so shards and ranges agree.  The largest value
    lies in no range, because the ends are exclusive, and is assigned by the
    remainder that the source calls impossible. *)
Theorem genesis_ranges_partition n vs v :
  0 < n -> n <= u64_max -> v <= u64_max ->
  let e := epoch_genesis n vs in
  shard_of_hash e v < n /\
  (v < u64_max ->
     shard_of_hash e v = N.min (v / (u64_max / n)) (n - 1) /\
     forall r, r ∈ ec_shard_ranges e -> range_contains r v = true -> hr_shard_id r = shard_of_hash e v) /\
  (v = u64_max ->
     Forall (fun r => range_contains r v = false) (ec_shard_ranges e) /\
     shard_of_hash e v = u64_max mod n).
Proof.
  intros Hn Hmax Hv. cbv zeta.
  assert (forall r, r ∈ ec_shard_ranges (epoch_genesis n vs) -> exists s, s < n /\ r = genesis_range n s) as Hr.
  { intros r (s & -> & Hs%elem_of_shard_ids)%list_elem_of_fmap. by exists s. }
  assert (v < u64_max -> shard_of_hash (epoch_genesis n vs) v = N.min (v / (u64_max / n)) (n - 1)) as Hlow.
  { intros Hlt. unfold shard_of_hash.
    destruct (list_find _ _) as [[i r]|] eqn:Ef.
    - apply list_find_Some in Ef as (Hi & Hc & _).
      destruct (Hr r) as (s & Hs & ->); [by eapply list_elem_of_lookup_2|].
      by apply genesis_range_contains in Hc.
    - apply list_find_None in Ef. exfalso. set (s := N.min (v / (u64_max / n)) (n - 1)) in *.
      assert (s < n) as Hs by lia.
      rewrite Forall_forall in Ef. apply (Ef (genesis_range n s)).
      + apply list_elem_of_fmap. exists s. split; [done|]. by apply elem_of_shard_ids.
      + by apply genesis_range_contains. }
  assert (v = u64_max -> Forall (fun r => range_contains r v = false) (ec_shard_ranges (epoch_genesis n vs)))
    as Htop.
  { intros ->. apply Forall_forall. intros r (s & Hs & ->)%Hr. apply not_true_is_false.
    intros [Hne Hx]%genesis_range_top. pose proof (N.Div0.mul_div_le u64_max n). nia. }
  assert (v = u64_max -> shard_of_hash (epoch_genesis n vs) v = u64_max mod n) as Hrem.
  { intros E. specialize (Htop E). unfold shard_of_hash.
    destruct (list_find _ _) as [[i r]|] eqn:Ef; [|by rewrite E].
    apply list_find_Some in Ef as (Hi & Hc & _). rewrite Forall_forall in Htop.
    rewrite Htop in Hc; [done|by eapply list_elem_of_lookup_2]. }
  split_and!.
  - destruct (decide (v = u64_max)) as [E|]; [rewrite (Hrem E); apply N.mod_lt; lia|rewrite Hlow; lia].
  - intros Hlt. split; [auto|]. intros r (s & Hs & ->)%Hr Hc. apply genesis_range_contains in Hc; [|done..].
    rewrite Hlow by done. by subst s.
  - auto.
Qed.

(** Splitting a range divides its values between the halves. *)
Lemma range_split_partition r id v :
  hr_start r <= hr_end r ->
  let '(low, high) := range_split r id in
  range_contains r v = range_contains low v || range_contains high v /\
  range_contains low v && range_contains high v = false.
Proof.
  intros Hr. unfold range_split, range_contains. cbn [hr_start hr_end].
  set (mid := hr_start r + (hr_end r - hr_start r) / 2).
  assert (hr_start r <= mid <= hr_end r) as Hm.
  { subst mid. pose proof (N.Div0.div_le_upper_bound (hr_end r - hr_start r) 2 (hr_end r - hr_start r)
      ltac:(lia)) as Hh.
    set (h := (hr_end r - hr_start r) / 2) in *. clearbody h. lia. }
  destruct (N.leb_spec (hr_start r) v), (N.ltb_spec v (hr_end r)), (N.leb_spec mid v), (N.ltb_spec v mid);
    cbn; split; (done || lia).
Qed.

Lemma genesis_ranges_partition_witness :
  0 < 3 /\ shard_of_hash (epoch_genesis 3 sample_validators) 18446744073709551614 = 2.
Proof.
  split; [lia|].
  destruct (genesis_ranges_partition 3 sample_validators 18446744073709551614) as (_ & Hlow & _);
    [lia|vm_compute; discriminate|vm_compute; discriminate|].
  destruct Hlow as [-> _]; vm_compute; reflexivity.
Defined.

(** ** The genesis epoch and the static topology *)

Section genesis.
Implicit Types (vs : list ValidatorInfo).

Lemma lookup_per_shard {A} (f : ShardGroupId -> A) n s :
  foldl (fun (m : gmap N A) shard => <[shard := f shard]> m) ∅ (shard_ids n) !! s
  = if decide (s < n) then Some (f s) else None.
Proof.
  assert (forall ks (m : gmap N A),
    foldl (fun m k => <[k := f k]> m) m ks !! s = if decide (s ∈ ks) then Some (f s) else m !! s) as Hgen.
  { induction ks as [|k ks IH]; intros m; [done|]. cbn [foldl]. rewrite IH.
    destruct (decide (s = k)) as [->|Hne].
    - rewrite lookup_insert_eq. by repeat case_decide; set_solver.
    - rewrite lookup_insert_ne by done. repeat case_decide; set_solver. }
  rewrite Hgen, lookup_empty. apply decide_ext, elem_of_shard_ids.
Qed.

Lemma genesis_powers_lookup vs v : NoDup (vi_validator_id <$> vs) -> v ∈ vs ->
  genesis_voting_powers vs !! vi_validator_id v = Some (vi_voting_power v).
Proof.
  unfold genesis_voting_powers. generalize (∅ : gmap N u64) as m.
  induction vs as [|w vs IH]; intros m Hnd Hv; [by apply not_elem_of_nil in Hv|].
  rewrite fmap_cons, NoDup_cons in Hnd. destruct Hnd as [Hni Hnd].
  cbn [foldl]. apply elem_of_cons in Hv as [->|Hv]; [|by apply IH].
  clear IH. assert (forall us (m' : gmap N u64), vi_validator_id w ∉ vi_validator_id <$> us ->
    foldl (fun m v => <[vi_validator_id v := vi_voting_power v]> m) m' us !! vi_validator_id w
    = m' !! vi_validator_id w) as Hskip.
  { induction us as [|u us IH]; intros m' Hu; [done|].
    rewrite fmap_cons, not_elem_of_cons in Hu. destruct Hu as [Hne Hu].
    cbn [foldl]. by rewrite IH, lookup_insert_ne. }
  by rewrite Hskip, lookup_insert_eq.
Qed.

Lemma genesis_committee n vs s : NoDup (vi_validator_id <$> vs) ->
  ec_shard_committees (epoch_genesis n vs) !! s
  = if decide (s < n)
    then let ms := members (fun v => vi_validator_id v mod n) s vs in
         Some (mk_shard_committee_config (vi_validator_id <$> ms) (wsum (vi_voting_power <$> ms)) 100)
    else None.
Proof.
  intros Hnd. unfold epoch_genesis. cbn [ec_shard_committees]. rewrite lookup_per_shard.
  case_decide; [|done]. cbv zeta. f_equal. unfold shard_committee_config_new, members. f_equal. f_equal.
  assert (forall us, us ⊆ vs ->
    filter_map (fun v => genesis_voting_powers vs !! v) (vi_validator_id <$> us) = vi_voting_power <$> us)
    as Hpow.
  { induction us as [|u us IH]; intros Hsub; [done|]. cbn. rewrite genesis_powers_lookup; [|done|set_solver].
    f_equal. apply IH. set_solver. }
  apply Hpow. intros v [_ Hv]%list_elem_of_filter. done.
Qed.
End genesis.

Section dynamic.
Context `{HI : HashIter} `{CR : Crypto}.
Implicit Types (e : EpochConfig) (t : DynamicTopology).

(** Where [find_validator_shard] finds a validator: in a committee, or else
    among the waiting. *)
Lemma find_validator_shard_Some e id s : find_validator_shard e id = Some s ->
  (exists c, ec_shard_committees e !! s = Some c /\ id ∈ scc_active_validators c) \/
  (exists w, ec_waiting_validators e !! s = Some w /\ id ∈ w).
Proof.
  unfold find_validator_shard. destruct (list_find _ (hm_iter (ec_shard_committees e))) as [[i [s' c]]|] eqn:Ef.
  - intros [= ->]. apply list_find_Some in Ef as (Hi & Hc & _). left. exists c. split; [|done].
    apply elem_of_hm_iter. by eapply list_elem_of_lookup_2.
  - destruct (list_find _ (hm_iter (ec_waiting_validators e))) as [[i [s' w]]|] eqn:Eg; [|done].
    intros [= ->]. apply list_find_Some in Eg as (Hi & Hw & _). right. exists w. split; [|done].
    apply elem_of_hm_iter. by eapply list_elem_of_lookup_2.
Qed.

Lemma find_validator_shard_None e id : find_validator_shard e id = None <->
  (forall s c, ec_shard_committees e !! s = Some c -> id ∉ scc_active_validators c) /\
  (forall s w, ec_waiting_validators e !! s = Some w -> id ∉ w).
Proof.
  split.
  - unfold find_validator_shard.
    destruct (list_find _ (hm_iter (ec_shard_committees e))) as [[? []]|] eqn:Ef; [done|].
    destruct (list_find _ (hm_iter (ec_waiting_validators e))) as [[? []]|] eqn:Eg; [done|].
    intros _. apply list_find_None in Ef. apply list_find_None in Eg. rewrite Forall_forall in Ef. rewrite Forall_forall in Eg.
    split; [intros s c Hc|intros s w Hw].
    + apply (Ef (s, c)). by apply elem_of_hm_iter.
    + apply (Eg (s, w)). by apply elem_of_hm_iter.
  - intros [Hc Hw]. destruct (find_validator_shard e id) as [s|] eqn:E; [|done].
    apply find_validator_shard_Some in E as [(c & E1 & E2)|(w & E1 & E2)];
      [by destruct (Hc s c)|by destruct (Hw s w)].
Qed.

Lemma genesis_shard_of n vs v : 0 < n -> NoDup (vi_validator_id <$> vs) -> v ∈ vs ->
  find_validator_shard (epoch_genesis n vs) (vi_validator_id v) = Some (vi_validator_id v mod n).
Proof.
  intros Hn Hnd Hv. pose proof (N.mod_lt (vi_validator_id v) n ltac:(lia)) as Hlt.
  destruct (find_validator_shard _ _) as [s|] eqn:E.
  - f_equal. apply find_validator_shard_Some in E as [(c & Hc & Hin)|(w & Hw & _)]; [|done].
    rewrite genesis_committee in Hc by done. case_decide; [|done]. injection Hc as <-.
    apply list_elem_of_fmap in Hin as (w & Hid & [Hw _]%list_elem_of_filter). by rewrite Hid.
  - apply find_validator_shard_None in E as [Hc _]. exfalso.
    eapply (Hc (vi_validator_id v mod n)).
    + rewrite genesis_committee by done. by rewrite decide_True by done.
    + apply list_elem_of_fmap. exists v. split; [done|]. by apply list_elem_of_filter.
Qed.

(** C36: At genesis the dynamic topology is the static one.  For distinct
    validators, one of which is the local one, [DynamicTopology] built from
    [EpochConfig::genesis] places the local validator in the shard
    [StaticTopology::new] gives it, as an active member, and has the same
    committees in the same order, the same total powers (their sums wrapping
    alike), the same powers and keys.  Only the assignment of nodes to shards
    differs: ranges of hash values here, the remainder there. *)
Theorem dynamic_genesis_is_static n vs id :
  0 < n -> NoDup (vi_validator_id <$> vs) -> id ∈ vi_validator_id <$> vs ->
  exists t, DynamicTopologyOps.from_epoch_config id (epoch_genesis n vs) = inr t /\
  DynamicTopologyOps.can_participate_in_consensus t = true /\
  let D := DynamicTopologyOps.topology t in
  let S := StaticTopologyOps.topology (StaticTopologyOps.new id n vs) in
  @local_shard D = @local_shard S /\ @num_shards D = @num_shards S /\
  (forall s, @committee_for_shard D s = @committee_for_shard S s /\
             @voting_power_for_shard D s = @voting_power_for_shard S s) /\
  (forall v, @voting_power D v = @voting_power S v /\ @public_key D v = @public_key S v) /\
  (forall node, @shard_for_node_id D node = shard_of_hash (epoch_genesis n vs) (node_hash_value node) /\
                @shard_for_node_id S node = node_hash_value node mod n).
Proof.
  intros Hn Hnd (v & -> & Hv)%list_elem_of_fmap. eexists.
  split; [unfold DynamicTopologyOps.from_epoch_config; by rewrite genesis_shard_of|].
  split; [done|]. cbv zeta. split_and!; try done.
  intros s. cbn [committee_for_shard voting_power_for_shard DynamicTopologyOps.topology
    StaticTopologyOps.topology dt_current].
  rewrite genesis_committee, static_new_committees by done. by case_decide.
Qed.
End dynamic.

Lemma dynamic_genesis_is_static_witness :
  NoDup (vi_validator_id <$> sample_validators) /\
  exists t, @DynamicTopologyOps.from_epoch_config canonical_iter 1 (epoch_genesis 2 sample_validators) = inr t /\
    dt_local_shard t = 1.
Proof.
  assert (NoDup (vi_validator_id <$> sample_validators)) as Hnd by (apply (bool_decide_unpack _); vm_compute; reflexivity).
  split; [exact Hnd|].
  destruct (dynamic_genesis_is_static (HI := canonical_iter) (CR := sample_crypto) 2 sample_validators 1)
    as (t & Ht & _ & Hl & _); [lia|exact Hnd|apply (bool_decide_unpack _); vm_compute; reflexivity|].
  exists t. split; [exact Ht|exact Hl].
Defined.

(** ** The run of a dynamic topology *)

Section dynamic_run.
Context `{HI : HashIter} `{CR : Crypto}.
Import DynamicTopologyOps.
Implicit Types (e : EpochConfig) (t : DynamicTopology).

(** The topologies the operations of [DynamicTopology] build for a validator. *)
Inductive dynamic_run (id : ValidatorId) : DynamicTopology -> Prop :=
  | dr_start e t : from_epoch_config id e = inr t -> dynamic_run id t
  | dr_next e t : dynamic_run id t -> dynamic_run id (set_next_epoch e t)
  | dr_transition t : dynamic_run id t -> dynamic_run id (transition_to_next_epoch t).1
  | dr_mark s t : dynamic_run id t -> dynamic_run id (mark_shard_splitting s t)
  | dr_clear s t : dynamic_run id t -> dynamic_run id (clear_shard_splitting s t).

(** The cached fields are those of the current epoch. *)
Definition dynamic_ok (id : ValidatorId) t : Prop :=
  dt_local_validator_id t = id /\
  find_validator_shard (dt_current t) id = Some (dt_local_shard t) /\
  dt_local_state t = state_in (dt_current t) id (dt_local_shard t) /\
  dt_validator_info t = StaticTopologyOps.collect_validator_info (ec_validator_set (dt_current t)).

Lemma transition_cases t :
  (dt_next t = None /\ transition_to_next_epoch t = (t, Some NoNextEpoch)) \/
  (exists e, dt_next t = Some e /\ find_validator_shard e (dt_local_validator_id t) = None /\
     transition_to_next_epoch t
     = (t <| dt_next := None |>, Some (ValidatorNotInEpoch (dt_local_validator_id t)))) \/
  (exists e s t', dt_next t = Some e /\ find_validator_shard e (dt_local_validator_id t) = Some s /\
     transition_to_next_epoch t = (t', None) /\ dt_current t' = e /\ dt_next t' = None /\
     dt_splitting_shards t' = ∅ /\ dt_local_shard t' = s /\
     dynamic_ok (dt_local_validator_id t) t').
Proof.
  unfold transition_to_next_epoch. destruct (dt_next t) as [e|]; [|by left].
  change (dt_local_validator_id (t <| dt_next := None |>)) with (dt_local_validator_id t).
  destruct (find_validator_shard e (dt_local_validator_id t)) as [s|] eqn:E; [|by right; left; eauto].
  right; right. do 3 eexists. do 3 (split; [done|]). by split_and!.
Qed.

Lemma dynamic_run_ok id t : dynamic_run id t -> dynamic_ok id t.
Proof.
  induction 1 as [e t E|e t _ IH|t _ IH|s t _ IH|s t _ IH]; [|done| |done..].
  - unfold from_epoch_config in E. destruct (find_validator_shard e id) as [s|] eqn:F; [|done].
    injection E as <-. by split_and!.
  - destruct (transition_cases t) as [[_ ->]|[(e & _ & _ & ->)|(e & s & t' & _ & _ & -> & _ & _ & _ & _ & Hok)]];
      [done..|]. by rewrite (proj1 IH) in Hok.
Qed.

(** A dynamic topology follows its epoch.  Whatever epochs are set,
    entered or refused and whatever shards are marked as splitting, the local
    shard is a shard of the current epoch in which the local validator is a
    committee member or waits, it may take part in consensus exactly when it
    does not wait there, and then it is a member of the local committee.
    Entering an epoch leaves no next epoch; if it succeeds the next epoch is
    the current one and no shard is splitting; if the validator is not part of
    it the next epoch is dropped and nothing else changes. *)
Theorem dynamic_topology_follows_epoch id t : dynamic_run id t ->
  let T := topology t in
  @local_validator_id T = id /\
  find_validator_shard (dt_current t) id = Some (@local_shard T) /\
  (can_participate_in_consensus t = negb (is_validator_waiting (dt_current t) id (@local_shard T))) /\
  (can_participate_in_consensus t = true -> @is_committee_member T id = true) /\
  (forall t' err, transition_to_next_epoch t = (t', err) ->
     has_next_epoch t' = false /\
     match err with
     | None => dt_next t = Some (dt_current t') /\ (forall s, is_shard_splitting t' s = false)
     | Some NoNextEpoch => t' = t
     | Some (ValidatorNotInEpoch v) =>
         v = id /\ (exists e, dt_next t = Some e /\ find_validator_shard e id = None) /\
         t' = t <| dt_next := None |>
     end).
Proof.
  intros Hrun. pose proof (dynamic_run_ok id t Hrun) as (Hid & Hf & Hst & Hinfo). cbv zeta.
  assert (can_participate_in_consensus t = negb (is_validator_waiting (dt_current t) id (dt_local_shard t)))
    as Hcan.
  { unfold can_participate_in_consensus. rewrite Hst. unfold state_in.
    by destruct (is_validator_waiting _ _ _). }
  split_and!; [done..| |].
  - rewrite Hcan. intros Hw. unfold is_committee_member.
    apply find_validator_shard_Some in Hf as [(c & Hc & Hin)|(w & Hw' & Hin)].
    + unfold local_committee_index, committee_index_for_shard.
      cbn [committee_for_shard local_shard topology]. rewrite Hc.
      by destruct (list_find_elem_of (fun w => w = id) _ id Hin eq_refl) as [[i w] ->].
    + unfold is_validator_waiting in Hw. rewrite Hw' in Hw. rewrite bool_decide_eq_true_2 in Hw; done.
  - intros t' err Ht. unfold has_next_epoch, is_shard_splitting.
    destruct (transition_cases t) as
      [[Hn E]|[(e & Hn & Hfe & E)|(e & s & t2 & Hn & _ & E & Hcur & Hn' & Hsp & _)]];
      rewrite E in Ht; injection Ht as <- <-.
    + by rewrite Hn.
    + rewrite Hid in *. split; [done|]. split_and!; eauto.
    + rewrite Hn', Hcur, Hsp. split_and!; [done..|]. intros s'. by apply bool_decide_eq_false_2.
Qed.
End dynamic_run.

Lemma dynamic_topology_follows_epoch_witness :
  exists t, @DynamicTopologyOps.from_epoch_config canonical_iter 1 (epoch_genesis 2 sample_validators) = inr t /\
    DynamicTopologyOps.has_next_epoch (@DynamicTopologyOps.transition_to_next_epoch canonical_iter
      (DynamicTopologyOps.set_next_epoch (epoch_genesis 3 sample_validators) t)).1 = false.
Proof.
  eexists. split; [vm_compute; reflexivity|].
  refine (proj1 (proj2 (proj2 (proj2 (proj2 (dynamic_topology_follows_epoch (HI := canonical_iter)
    (CR := sample_crypto) 1 _ (dr_next 1 (epoch_genesis 3 sample_validators) _ (dr_start 1
      (epoch_genesis 2 sample_validators) _ _)))))) _ _ _)); vm_compute; reflexivity.
Defined.

(** ** Ratings *)

(** The ratings the updates build, performances being percentages. *)
Inductive rating_run : ValidatorRating -> Prop :=
  | rr_default : rating_run default_rating
  | rr_update p r : p <= 100 -> rating_run r -> rating_run (update_with_epoch_performance p r)
  | rr_equivocation r : rating_run r -> rating_run (apply_equivocation_penalty r)
  | rr_missed r : rating_run r -> rating_run (apply_missed_proposal_penalty r)
  | rr_sync r : rating_run r -> rating_run (apply_sync_failure_penalty r).

(** The average rounds down, so that no rating rises above 91; a validator
    that always performs fully stays there. *)
Lemma rating_at_most_91 r : rating_run r -> vr_score r <= 91.
Proof.
  induction 1 as [|p r Hp _ IH| | |]; [done| |cbn; lia..].
  unfold update_with_epoch_performance. cbn.
  rewrite (wmul_small (vr_score r) 9) by (unfold u64_max, u64_modulus; lia).
  rewrite wadd_small by (unfold u64_max, u64_modulus; lia).
  assert ((vr_score r * 9 + p) / 10 < 92); [apply N.Div0.div_lt_upper_bound; lia|lia].
Qed.

Lemma rating_91_kept : update_with_epoch_performance 100 (mk_validator_rating 91 0 0)
  = mk_validator_rating 91 0 0.
Proof. reflexivity. Qed.
