(* ===== verification/Sbor.v ===== *)
(** * SBOR encoding

    The binary encoding of values on disk and on the wire comes from the
    [sbor] crate; it is the class [Sbor], one encoder and decoder for every
    type, with the law that decoding undoes encoding.  The rest of the file
    makes the stored types countable, which is how the class asks for types
    that can be encoded at all. *)

From stdpp Require Import base gmap list numbers countable.
From Stdlib Require Import NArith.
From S2P Require Import Prelude Bitfield Types.

(** [sbor::basic_encode] and [sbor::basic_decode].  Encoding the types of the
    repository does not fail; the source calls a failure a bug and stops. *)
Class Sbor := {
  basic_encode : forall {A : Type} `{Countable A}, A -> bytes;
  basic_decode : forall {A : Type} `{Countable A}, bytes -> option A;
  sbor_roundtrip : forall {A : Type} `{Countable A} (x : A), basic_decode (basic_encode x) = Some x
}.

(** An encoder to evaluate the definitions with: one digit per value. *)
Definition sample_decode_digit {A} `{Countable A} (b : bytes) : option A :=
  match b with [Npos p] => decode p | _ => None end.

Definition sample_sbor : Sbor := {|
  basic_encode A _ _ x := [Npos (encode x)];
  basic_decode A _ _ b := sample_decode_digit b;
  sbor_roundtrip A _ _ x := decode_encode x
|}.

Lemma basic_encode_inj `{Sbor} {A} `{Countable A} (x y : A) :
  basic_encode x = basic_encode y -> x = y.
Proof. intros E. apply (inj Some). by rewrite <- !sbor_roundtrip, E. Qed.

(** ** Countable types *)

#[export] Instance SignerBitfield_countable : Countable SignerBitfield.
Proof.
  apply (inj_countable' (fun b => (bf_bits b, bf_num_validators b)) (fun '(b, n) => mk_bitfield b n)).
  by intros [].
Defined.

#[export] Instance QuorumCertificate_countable : Countable QuorumCertificate.
Proof.
  apply (inj_countable'
    (fun q => (qc_block_hash q, qc_height q, qc_parent_block_hash q, qc_round q, qc_signers q,
               qc_aggregated_signature q, qc_voting_power q, qc_weighted_timestamp_ms q))
    (fun '(h, n, p, r, s, g, v, t) => mk_qc h n p r s g v t)). by intros [].
Defined.

#[export] Instance StateEntry_eq_dec : EqDecision StateEntry.
Proof. solve_decision. Defined.
#[export] Instance StateEntry_countable : Countable StateEntry.
Proof.
  apply (inj_countable' (fun e => (se_storage_key e, se_value e)) (fun '(k, v) => mk_state_entry k v)).
  by intros [].
Defined.

#[export] Instance StateCertificate_eq_dec : EqDecision StateCertificate.
Proof. solve_decision. Defined.
#[export] Instance StateCertificate_countable : Countable StateCertificate.
Proof.
  apply (inj_countable'
    (fun c => (sc_transaction_hash c, sc_shard_group_id c, sc_read_nodes c, sc_state_writes c,
               sc_outputs_merkle_root c, sc_success c, sc_aggregated_signature c, sc_signers c,
               sc_voting_power c))
    (fun '(h, s, r, w, m, b, g, f, p) => mk_state_certificate h s r w m b g f p)). by intros [].
Defined.

#[export] Instance CommitmentProof_eq_dec : EqDecision CommitmentProof.
Proof. solve_decision. Defined.
#[export] Instance CommitmentProof_countable : Countable CommitmentProof.
Proof.
  apply (inj_countable'
    (fun p => (cp_tx_hash p, cp_source_shard p, cp_signers p, cp_aggregated_signature p,
               cp_block_height p, cp_block_timestamp p, cp_entries p))
    (fun '(h, s, f, g, n, t, e) => mk_commitment_proof h s f g n t e)). by intros [].
Defined.

#[export] Instance CycleProof_eq_dec : EqDecision CycleProof.
Proof. solve_decision. Defined.
#[export] Instance CycleProof_countable : Countable CycleProof.
Proof.
  apply (inj_countable' (fun p => (cyp_winner_tx_hash p, cyp_winner_commitment p))
    (fun '(h, c) => mk_cycle_proof h c)). by intros [].
Defined.

#[export] Instance RetryDetails_eq_dec : EqDecision RetryDetails.
Proof. solve_decision. Defined.
#[export] Instance RetryDetails_countable : Countable RetryDetails.
Proof.
  apply (inj_countable'
    (fun d => (rd_original_tx_hash d, rd_retry_count d, rd_deferred_by d, rd_deferred_at d))
    (fun '(h, c, b, n) => mk_retry_details h c b n)). by intros [].
Defined.

#[export] Instance RoutableTransaction_eq_dec : EqDecision RoutableTransaction.
Proof. solve_decision. Defined.
#[export] Instance RoutableTransaction_countable : Countable RoutableTransaction.
Proof.
  apply (inj_countable'
    (fun t => (rt_serialized_bytes t, rt_declared_reads t, rt_declared_writes t, rt_retry_details t,
               rt_hash t))
    (fun '(b, r, w, d, h) => mk_routable_transaction b r w d h)). by intros [].
Defined.

#[export] Instance TransactionDecision_countable : Countable TransactionDecision.
Proof.
  apply (inj_countable' (fun d => match d with Accept => true | Reject => false end)
    (fun b : bool => if b then Accept else Reject)). by intros [].
Defined.

#[export] Instance TransactionCertificate_eq_dec : EqDecision TransactionCertificate.
Proof. solve_decision. Defined.
#[export] Instance TransactionCertificate_countable : Countable TransactionCertificate.
Proof.
  apply (inj_countable' (fun c => (tc_transaction_hash c, tc_decision c, tc_shard_proofs c))
    (fun '(h, d, p) => mk_transaction_certificate h d p)). by intros [].
Defined.

#[export] Instance TransactionDefer_eq_dec : EqDecision TransactionDefer.
Proof. assert (EqDecision DeferReason) by solve_decision. solve_decision. Defined.
#[export] Instance TransactionDefer_countable : Countable TransactionDefer.
Proof.
  apply (inj_countable' (fun d => (td_tx_hash d, winner_hash d, td_block_height d, td_proof d))
    (fun '(h, w, n, p) => mk_transaction_defer h (LivelockCycle w) n p)). by intros [? [] ? ?].
Defined.

#[export] Instance AbortReason_countable : Countable AbortReason.
Proof.
  apply (inj_countable'
    (fun r => match r with
              | ExecutionTimeout h => inl (inl h)
              | TooManyRetries c => inl (inr c)
              | ExecutionRejected b => inr b
              end)
    (fun r => match r with
              | inl (inl h) => ExecutionTimeout h
              | inl (inr c) => TooManyRetries c
              | inr b => ExecutionRejected b
              end)). by intros [].
Defined.

#[export] Instance TransactionAbort_eq_dec : EqDecision TransactionAbort.
Proof. solve_decision. Defined.
#[export] Instance TransactionAbort_countable : Countable TransactionAbort.
Proof.
  apply (inj_countable' (fun a => (ta_tx_hash a, ta_reason a, ta_block_height a))
    (fun '(h, r, n) => mk_transaction_abort h r n)). by intros [].
Defined.

#[export] Instance BlockHeader_countable : Countable BlockHeader.
Proof.
  apply (inj_countable'
    (fun h => (bh_height h, bh_parent_hash h, bh_parent_qc h, bh_proposer h, bh_timestamp h,
               bh_round h, bh_is_fallback h, bh_state_root h, bh_state_version h,
               bh_transaction_root h))
    (fun '(n, p, q, v, t, r, f, s, k, x) => mk_block_header n p q v t r f s k x)). by intros [].
Defined.

#[export] Instance Block_eq_dec : EqDecision Block.
Proof. solve_decision. Defined.
#[export] Instance Block_countable : Countable Block.
Proof.
  apply (inj_countable'
    (fun b => (bl_header b, bl_retry_transactions b, bl_priority_transactions b, bl_transactions b,
               bl_certificates b, bl_deferred b, bl_aborted b, bl_commitment_proofs b))
    (fun '(h, r, p, t, c, d, a, m) => mk_block h r p t c d a m)). by intros [].
Defined.
