(* ===== verification/Storage.v ===== *)
(** * Storage of the chain (crates/production/src/storage.rs)

    RocksDB is a map from keys to values in each column family, ordered by the
    bytes of the keys, with atomic batches of writes.  This file has blocks,
    transactions, certificates, own votes and the chain metadata, and what is
    loaded from them after a crash; the state tree is in StorageTree.v.  Reads
    and writes of the disk do not fail here; the source panics on the writes
    that matter and treats a failed read as a missing entry. *)

From stdpp Require Import base gmap list numbers sorting strings.
From Stdlib Require Import NArith Lia.
From S2P Require Import Prelude Bitfield Types Encoding Topology Transactions Sbor BftState.

(** ** Keys *)

Definition to_be_bytes (n : u64) : bytes := rev (to_le_bytes n).

(** [<[u8; 8]>::try_from] followed by [u64::from_be_bytes]. *)
Definition from_be_bytes (b : bytes) : option u64 :=
  if Nat.eqb (length b) 8 then Some (from_le_bytes (rev b)) else None.

Definition from_hash_bytes (b : bytes) : Hash := from_le_bytes (rev b).

(** The order of keys: byte by byte, a prefix first. *)
Fixpoint key_ltb (a b : bytes) : bool :=
  match a, b with
  | [], [] => false
  | [], _ :: _ => true
  | _ :: _, [] => false
  | x :: a', y :: b' => if x =? y then key_ltb a' b' else x <? y
  end.

Definition key_le {A} (x y : bytes * A) : Prop := key_ltb y.1 x.1 = false.

#[export] Instance key_le_dec {A} : RelDecision (@key_le A).
Proof. intros x y. unfold key_le. apply _. Defined.

(** ** The database *)

Inductive ColumnFamily :=
  | CfDefault | CfBlocks | CfTransactions | CfState | CfCertificates | CfVotes | CfJmtNodes
  | CfAssociatedValues | CfStaleParts.

#[export] Instance ColumnFamily_eq_dec : EqDecision ColumnFamily.
Proof. solve_decision. Defined.

Record Db := mk_db {
  db_default : gmap bytes bytes;
  db_blocks : gmap bytes bytes;
  db_transactions : gmap bytes bytes;
  db_state : gmap bytes bytes;
  db_certificates : gmap bytes bytes;
  db_votes : gmap bytes bytes;
  db_jmt_nodes : gmap bytes bytes;
  db_associated_values : gmap bytes bytes;
  db_stale_parts : gmap bytes bytes
}.

Definition empty_db : Db := mk_db ∅ ∅ ∅ ∅ ∅ ∅ ∅ ∅ ∅.

Definition cf (c : ColumnFamily) (d : Db) : gmap bytes bytes :=
  match c with
  | CfDefault => db_default d
  | CfBlocks => db_blocks d
  | CfTransactions => db_transactions d
  | CfState => db_state d
  | CfCertificates => db_certificates d
  | CfVotes => db_votes d
  | CfJmtNodes => db_jmt_nodes d
  | CfAssociatedValues => db_associated_values d
  | CfStaleParts => db_stale_parts d
  end.

Definition with_cf (c : ColumnFamily) (f : gmap bytes bytes -> gmap bytes bytes) (d : Db) : Db :=
  let on c' (m : gmap bytes bytes) := if decide (c = c') then f m else m in
  mk_db (on CfDefault (db_default d)) (on CfBlocks (db_blocks d))
    (on CfTransactions (db_transactions d)) (on CfState (db_state d))
    (on CfCertificates (db_certificates d)) (on CfVotes (db_votes d))
    (on CfJmtNodes (db_jmt_nodes d)) (on CfAssociatedValues (db_associated_values d))
    (on CfStaleParts (db_stale_parts d)).

(** [rocksdb::WriteBatch], written at once and in order. *)
Inductive BatchOp :=
  | PutCf (c : ColumnFamily) (key value : bytes)
  | DeleteCf (c : ColumnFamily) (key : bytes).

Abbreviation WriteBatch := (list BatchOp) (only parsing).

Definition write_op (d : Db) (op : BatchOp) : Db :=
  match op with
  | PutCf c key value => with_cf c <[key := value]> d
  | DeleteCf c key => with_cf c (delete key) d
  end.

Definition write (batch : WriteBatch) (d : Db) : Db := foldl write_op d batch.

Definition put (c : ColumnFamily) (key value : bytes) : Db -> Db := write [PutCf c key value].

(** The entries of a column family in the order of their keys. *)
Definition iterator_cf (c : ColumnFamily) (d : Db) : list (bytes * bytes) :=
  merge_sort key_le (map_to_list (cf c d)).

(** ** Block metadata (crates/types/src/block.rs) *)

Record BlockMetadata := mk_block_metadata {
  bm_header : BlockHeader;
  bm_retry_hashes : list Hash;
  bm_priority_hashes : list Hash;
  bm_tx_hashes : list Hash;
  bm_cert_hashes : list Hash;
  bm_deferred : list TransactionDefer;
  bm_aborted : list TransactionAbort;
  bm_commitment_proofs : gmap Hash CommitmentProof;
  bm_qc : QuorumCertificate
}.

#[export] Instance BlockMetadata_eq_dec : EqDecision BlockMetadata.
Proof. solve_decision. Defined.
#[export] Instance BlockMetadata_countable : Countable BlockMetadata.
Proof.
  apply (inj_countable'
    (fun b => (bm_header b, bm_retry_hashes b, bm_priority_hashes b, bm_tx_hashes b,
               bm_cert_hashes b, bm_deferred b, bm_aborted b, bm_commitment_proofs b, bm_qc b))
    (fun '(h, r, p, t, c, d, a, m, q) => mk_block_metadata h r p t c d a m q)). by intros [].
Defined.

Definition metadata_from_block (block : Block) (qc : QuorumCertificate) : BlockMetadata := {|
  bm_header := bl_header block;
  bm_retry_hashes := rt_hash <$> bl_retry_transactions block;
  bm_priority_hashes := rt_hash <$> bl_priority_transactions block;
  bm_tx_hashes := rt_hash <$> bl_transactions block;
  bm_cert_hashes := tc_transaction_hash <$> bl_certificates block;
  bm_deferred := bl_deferred block;
  bm_aborted := bl_aborted block;
  bm_commitment_proofs := bl_commitment_proofs block;
  bm_qc := qc
|}.

Definition metadata_transaction_count (m : BlockMetadata) : usize :=
  (length (bm_retry_hashes m) + length (bm_priority_hashes m) + length (bm_tx_hashes m))%nat.

Definition all_tx_hashes (m : BlockMetadata) : list Hash :=
  bm_retry_hashes m ++ bm_priority_hashes m ++ bm_tx_hashes m.

Section storage.
Context `{Sbor}.

(** ** Blocks as one value *)

Definition put_block (height : BlockHeight) (block : Block) (qc : QuorumCertificate) : Db -> Db :=
  put CfBlocks (to_be_bytes height) (basic_encode (block, qc)).

Definition get_block (d : Db) (height : BlockHeight) : option (Block * QuorumCertificate) :=
  cf CfBlocks d !! to_be_bytes height ≫= basic_decode.

(** [take_while] on the iterator from the first key on. *)
Fixpoint take_while {A} (f : A -> bool) (l : list A) : list A :=
  match l with
  | [] => []
  | x :: l' => if f x then x :: take_while f l' else []
  end.

Definition get_blocks_range (d : Db) (from to : BlockHeight) : list (Block * QuorumCertificate) :=
  filter_map (fun entry => basic_decode entry.2)
    (take_while (fun entry => key_ltb entry.1 (to_be_bytes to))
       (filter (fun entry => key_ltb entry.1 (to_be_bytes from) = false) (iterator_cf CfBlocks d))).

(** ** Transactions and certificates *)

Definition put_transaction (tx : RoutableTransaction) : Db -> Db :=
  put CfTransactions (as_bytes (rt_hash tx)) (basic_encode tx).

Definition get_transaction (d : Db) (hash : Hash) : option RoutableTransaction :=
  cf CfTransactions d !! as_bytes hash ≫= basic_decode.

Definition get_transactions_batch (d : Db) (hashes : list Hash) : list RoutableTransaction :=
  filter_map (get_transaction d) hashes.

Definition put_certificate (hash : Hash) (cert : TransactionCertificate) : Db -> Db :=
  put CfCertificates (as_bytes hash) (basic_encode cert).

Definition get_certificate (d : Db) (hash : Hash) : option TransactionCertificate :=
  cf CfCertificates d !! as_bytes hash ≫= basic_decode.

Definition get_certificates_batch (d : Db) (hashes : list Hash) : list TransactionCertificate :=
  filter_map (get_certificate d) hashes.

(** The entries found, in the order of the hashes. *)
Definition get_transactions_batch_ordered (d : Db) (hashes : list Hash) : list RoutableTransaction :=
  filter_map (get_transaction d) hashes.

Definition get_certificates_batch_ordered (d : Db) (hashes : list Hash)
    : list TransactionCertificate :=
  filter_map (get_certificate d) hashes.

(** ** Blocks in parts *)

Definition transaction_op (tx : RoutableTransaction) : BatchOp :=
  PutCf CfTransactions (as_bytes (rt_hash tx)) (basic_encode tx).
Definition certificate_op (cert : TransactionCertificate) : BatchOp :=
  PutCf CfCertificates (as_bytes (tc_transaction_hash cert)) (basic_encode cert).

Definition block_batch (block : Block) (qc : QuorumCertificate) : WriteBatch :=
  PutCf CfBlocks (to_be_bytes (bh_height (bl_header block)))
    (basic_encode (metadata_from_block block qc))
  :: (transaction_op <$> all_transactions block) ++ (certificate_op <$> bl_certificates block).

Definition put_block_denormalized (block : Block) (qc : QuorumCertificate) : Db -> Db :=
  write (block_batch block qc).

Definition get_block_metadata (d : Db) (height : BlockHeight) : option BlockMetadata :=
  cf CfBlocks d !! to_be_bytes height ≫= basic_decode.

(** The block of the metadata, if every part is found. *)
Definition reconstruct (d : Db) (metadata : BlockMetadata) : option (Block * QuorumCertificate) :=
  let retry_transactions := get_transactions_batch_ordered d (bm_retry_hashes metadata) in
  let priority_transactions := get_transactions_batch_ordered d (bm_priority_hashes metadata) in
  let transactions := get_transactions_batch_ordered d (bm_tx_hashes metadata) in
  let total_expected :=
    (length (bm_retry_hashes metadata) + length (bm_priority_hashes metadata)
     + length (bm_tx_hashes metadata))%nat in
  let total_found :=
    (length retry_transactions + length priority_transactions + length transactions)%nat in
  if negb (Nat.eqb total_found total_expected) then None
  else
    let certificates := get_certificates_batch_ordered d (bm_cert_hashes metadata) in
    if negb (Nat.eqb (length certificates) (length (bm_cert_hashes metadata))) then None
    else Some ({|
      bl_header := bm_header metadata;
      bl_retry_transactions := retry_transactions;
      bl_priority_transactions := priority_transactions;
      bl_transactions := transactions;
      bl_certificates := certificates;
      bl_deferred := bm_deferred metadata;
      bl_aborted := bm_aborted metadata;
      bl_commitment_proofs := bm_commitment_proofs metadata
    |}, bm_qc metadata).

Definition get_block_denormalized (d : Db) (height : BlockHeight)
    : option (Block * QuorumCertificate) :=
  get_block_metadata d height ≫= reconstruct d.

Definition get_block_for_sync (d : Db) (height : BlockHeight) : option (Block * QuorumCertificate) :=
  get_block_metadata d height ≫= reconstruct d.

(** ** Chain metadata *)

Definition COMMITTED_HEIGHT_KEY : bytes := byte_literal "chain:committed_height".
Definition COMMITTED_HASH_KEY : bytes := byte_literal "chain:committed_hash".
Definition COMMITTED_QC_KEY : bytes := byte_literal "chain:committed_qc".

(** Three writes, one after the other. *)
Definition set_chain_metadata (height : BlockHeight) (hash : option Hash)
    (qc : option QuorumCertificate) (d : Db) : Db :=
  let d := put CfDefault COMMITTED_HEIGHT_KEY (to_be_bytes height) d in
  let d := match hash with
           | Some h => put CfDefault COMMITTED_HASH_KEY (as_bytes h) d
           | None => d
           end in
  match qc with
  | Some qc => put CfDefault COMMITTED_QC_KEY (basic_encode qc) d
  | None => d
  end.

Definition get_chain_metadata (d : Db)
    : BlockHeight * option Hash * option QuorumCertificate :=
  (match cf CfDefault d !! COMMITTED_HEIGHT_KEY with
   | Some v => default 0 (from_be_bytes v)
   | None => 0
   end,
   from_hash_bytes <$> cf CfDefault d !! COMMITTED_HASH_KEY,
   cf CfDefault d !! COMMITTED_QC_KEY ≫= basic_decode).

(** ** Own votes *)

Definition put_own_vote (height round : u64) (block_hash : Hash) : Db -> Db :=
  put CfVotes (to_be_bytes height) (basic_encode (block_hash, round)).

Definition get_own_vote (d : Db) (height : u64) : option (Hash * u64) :=
  cf CfVotes d !! to_be_bytes height ≫= basic_decode.

Definition vote_of_entry (entry : bytes * bytes) : option (u64 * (Hash * u64)) :=
  height ← from_be_bytes entry.1;
  vote ← basic_decode entry.2;
  Some (height, vote).

(** [collect]: a later entry for a height replaces an earlier one. *)
Definition get_all_own_votes (d : Db) : gmap u64 (Hash * u64) :=
  foldl (fun m '(height, vote) => <[height := vote]> m) ∅
    (filter_map vote_of_entry (iterator_cf CfVotes d)).

Definition prune_own_votes (committed_height : u64) (d : Db) : Db :=
  write (DeleteCf CfVotes <$>
           filter_map (fun entry =>
             height ← from_be_bytes entry.1;
             if height <=? committed_height then Some entry.1 else None)
           (iterator_cf CfVotes d)) d.

(** ** Recovery *)

(** [jmt_root] is the hash of the root's bytes, as everywhere outside of
    storage. *)
Definition load_recovered_state (d : Db) (jmt_version : u64) (jmt_root : Hash) : RecoveredState :=
  let '(committed_height, committed_hash, latest_qc) := get_chain_metadata d in
  {|
    rec_voted_heights := get_all_own_votes d;
    rec_committed_height := committed_height;
    rec_committed_hash := committed_hash;
    rec_latest_qc := latest_qc;
    rec_jmt_state := Some (jmt_version, jmt_root)
  |}.
End storage.
