(* ===== verification/StorageChain.v ===== *)
(** * What storage keeps of the chain

    Reading back what was written: the order of the keys, own votes, and
    blocks that are stored in parts. *)

From stdpp Require Import base gmap list numbers sorting.
From Stdlib Require Import NArith Lia.
From S2P Require Import Prelude Bitfield Types Encoding Topology Transactions Sbor BftState Storage.

(** ** Column families *)

Lemma cf_with_cf c c' f d : cf c (with_cf c' f d) = if decide (c' = c) then f (cf c d) else cf c d.
Proof. by destruct c', c. Qed.

Lemma cf_put c c' k v d : cf c (put c' k v d) = if decide (c' = c) then <[k := v]> (cf c d) else cf c d.
Proof. apply cf_with_cf. Qed.

Lemma cf_put_ne c c' k v d : c' <> c -> cf c (put c' k v d) = cf c d.
Proof. intros Hne. by rewrite cf_put, decide_False. Qed.

Lemma cf_put_eq c k v d : cf c (put c k v d) = <[k := v]> (cf c d).
Proof. by rewrite cf_put, decide_True. Qed.

Lemma write_app b1 b2 d : write (b1 ++ b2) d = write b2 (write b1 d).
Proof. apply foldl_app. Qed.

(** A batch that does not write to a column family leaves it alone. *)
Definition op_cf (op : BatchOp) : ColumnFamily :=
  match op with PutCf c _ _ | DeleteCf c _ => c end.

Lemma cf_write_other c batch d : Forall (fun op => op_cf op <> c) batch -> cf c (write batch d) = cf c d.
Proof.
  intros Hb. revert d. induction Hb as [|op batch Hop _ IH]; intros d; [done|].
  cbn [write foldl]. fold (write batch (write_op d op)). rewrite IH.
  destruct op; cbn [write_op op_cf] in *; rewrite cf_with_cf; by rewrite decide_False by done.
Qed.

(** ** Bytes of numbers *)

Lemma from_le_bytes_le_bytes k n : n < 256 ^ N.of_nat k -> from_le_bytes (le_bytes k n) = n.
Proof.
  revert n. induction k as [|k IH]; intros n Hn.
  - change (256 ^ N.of_nat 0) with 1 in Hn. cbn. lia.
  - rewrite Nat2N.inj_succ, N.pow_succ_r' in Hn. cbn [le_bytes from_le_bytes].
    rewrite IH by (by apply N.Div0.div_lt_upper_bound).
    pose proof (N.div_mod n 256 ltac:(done)). lia.
Qed.

Lemma length_to_be_bytes n : length (to_be_bytes n) = 8%nat.
Proof. unfold to_be_bytes. by rewrite length_rev, length_to_le_bytes. Qed.

Lemma from_be_bytes_to_be_bytes n : is_u64 n -> from_be_bytes (to_be_bytes n) = Some n.
Proof.
  intros Hn. unfold from_be_bytes. rewrite length_to_be_bytes. cbn [Nat.eqb].
  unfold to_be_bytes. rewrite rev_involutive. f_equal. by apply (from_le_bytes_le_bytes 8).
Qed.

Lemma to_be_bytes_inj n m : is_u64 n -> is_u64 m -> to_be_bytes n = to_be_bytes m -> n = m.
Proof.
  intros Hn Hm E. apply (inj Some).
  by rewrite <- (from_be_bytes_to_be_bytes n), <- (from_be_bytes_to_be_bytes m), E.
Qed.

Lemma from_hash_bytes_as_bytes h : is_hash h -> from_hash_bytes (as_bytes h) = h.
Proof.
  intros Hh. unfold from_hash_bytes, as_bytes. rewrite rev_involutive. by apply (from_le_bytes_le_bytes 32).
Qed.

(** ** The order of keys *)

Lemma key_ltb_app a a' b b' : length a = length a' ->
  key_ltb (a ++ b) (a' ++ b') = if decide (a = a') then key_ltb b b' else key_ltb a a'.
Proof.
  revert a'. induction a as [|x a IH]; intros [|y a'] Hl; try done.
  cbn [app key_ltb]. injection Hl as Hl. rewrite IH by done.
  destruct (N.eqb_spec x y) as [->|Hne].
  - destruct (decide (a = a')) as [->|]; [by rewrite decide_True by done|].
    rewrite decide_False; [done|]. congruence.
  - rewrite decide_False; [done|]. congruence.
Qed.

(** Big-endian bytes are ordered as the numbers are. *)
Lemma key_ltb_be k n m : n < 256 ^ N.of_nat k -> m < 256 ^ N.of_nat k ->
  key_ltb (rev (le_bytes k n)) (rev (le_bytes k m)) = (n <? m).
Proof.
  revert n m. induction k as [|k IH]; intros n m Hn Hm.
  - change (256 ^ N.of_nat 0) with 1 in *. cbn. symmetry. apply N.ltb_ge. lia.
  - rewrite Nat2N.inj_succ, N.pow_succ_r' in Hn, Hm. cbn [le_bytes rev].
    assert (n / 256 < 256 ^ N.of_nat k) as Hn' by (by apply N.Div0.div_lt_upper_bound).
    assert (m / 256 < 256 ^ N.of_nat k) as Hm' by (by apply N.Div0.div_lt_upper_bound).
    rewrite key_ltb_app by (by rewrite !length_rev, !length_le_bytes).
    pose proof (N.div_mod n 256 ltac:(done)) as Dn. pose proof (N.div_mod m 256 ltac:(done)) as Dm.
    pose proof (N.mod_lt n 256 ltac:(done)) as Rn. pose proof (N.mod_lt m 256 ltac:(done)) as Rm.
    revert Hn' Hm' Dn Dm Rn Rm.
    generalize (n / 256) (m / 256) (n mod 256) (m mod 256). intros qn qm rn rm Hn' Hm' Dn Dm Rn Rm.
    case_decide as E.
    + apply (f_equal (@rev N)) in E. rewrite !rev_involutive in E. apply le_bytes_inj in E as ->; [|done..].
      cbn [key_ltb]. apply eq_true_iff_eq.
      destruct (N.eqb_spec rn rm); rewrite !N.ltb_lt; [split; [done|lia]|lia].
    + rewrite IH by done. apply eq_true_iff_eq. rewrite !N.ltb_lt.
      assert (qn <> qm) by congruence. lia.
Qed.

Lemma key_ltb_to_be_bytes n m : is_u64 n -> is_u64 m ->
  key_ltb (to_be_bytes n) (to_be_bytes m) = (n <? m).
Proof. apply (key_ltb_be 8). Qed.

(** ** Batches *)

Lemma elem_of_iterator_cf c d k v : (k, v) ∈ iterator_cf c d <-> cf c d !! k = Some v.
Proof. unfold iterator_cf. by rewrite merge_sort_Permutation, elem_of_map_to_list. Qed.

Lemma NoDup_iterator_cf c d : NoDup (iterator_cf c d).*1.
Proof. unfold iterator_cf. rewrite merge_sort_Permutation. apply NoDup_fst_map_to_list. Qed.

Lemma lookup_write_deletes c ks d k :
  cf c (write (DeleteCf c <$> ks) d) !! k = if decide (k ∈ ks) then None else cf c d !! k.
Proof.
  revert d. induction ks as [|k' ks IH]; intros d; [by rewrite decide_False by apply not_elem_of_nil|].
  cbn [fmap list_fmap write foldl write_op]. fold (write (DeleteCf c <$> ks) (with_cf c (delete k') d)).
  rewrite IH, cf_with_cf, (decide_True (P := c = c)) by done. destruct (decide (k = k')) as [->|Hne].
  - rewrite lookup_delete_eq. repeat case_decide; set_solver.
  - rewrite lookup_delete_ne by done. repeat case_decide; set_solver.
Qed.

Section puts.
Context {A : Type} (c : ColumnFamily) (key value : A -> bytes).
Implicit Types (l : list A).

Definition puts l : list BatchOp := (fun a => PutCf c (key a) (value a)) <$> l.

Lemma lookup_puts_other l d k : (forall a, a ∈ l -> key a <> k) -> cf c (write (puts l) d) !! k = cf c d !! k.
Proof.
  revert d. induction l as [|a l IH]; intros d Hk; [done|].
  cbn [puts fmap list_fmap write foldl write_op].
  fold (puts l). fold (write (puts l) (with_cf c <[key a := value a]> d)).
  rewrite IH by (intros; apply Hk; set_solver). rewrite cf_with_cf, decide_True by done.
  apply lookup_insert_ne. apply Hk. set_solver.
Qed.

(** The value of a key that is written, all its writes agreeing. *)
Lemma lookup_puts l d a : a ∈ l -> (forall a', a' ∈ l -> key a' = key a -> value a' = value a) ->
  cf c (write (puts l) d) !! key a = Some (value a).
Proof.
  revert a d. induction l as [|a' l IH]; intros a d Ha Hagree; [by apply not_elem_of_nil in Ha|].
  cbn [puts fmap list_fmap write foldl write_op].
  fold (puts l). fold (write (puts l) (with_cf c <[key a' := value a']> d)).
  destruct (decide (Exists (fun b => key b = key a) l)) as [(b & Hb & Hkb)%Exists_exists|Hno].
  - rewrite <- Hkb, <- (Hagree b) by set_solver. apply IH; [done|].
    intros a2 H2 E2. rewrite (Hagree a2), (Hagree b); [done|set_solver|done|set_solver|congruence].
  - rewrite lookup_puts_other.
    2:{ intros b Hb E. apply Hno, Exists_exists. by exists b. }
    rewrite cf_with_cf, decide_True by done. apply elem_of_cons in Ha as [->|Ha].
    + apply lookup_insert_eq.
    + exfalso. apply Hno, Exists_exists. by exists a.
Qed.

Lemma lookup_puts_inv l d k v : cf c (write (puts l) d) !! k = Some v ->
  (exists a, a ∈ l /\ key a = k /\ value a = v) \/ cf c d !! k = Some v.
Proof.
  revert d. induction l as [|a l IH]; intros d Hv; [by right|].
  cbn [puts fmap list_fmap write foldl write_op] in Hv.
  fold (puts l) in Hv. fold (write (puts l) (with_cf c <[key a := value a]> d)) in Hv.
  apply IH in Hv as [(a' & Ha & Hk)|Hv]; [left; exists a'; set_solver|].
  rewrite cf_with_cf, decide_True in Hv by done.
  apply lookup_insert_Some in Hv as [[Hk Hv]|[_ Hv]]; [left; exists a; set_solver|by right].
Qed.

Lemma puts_elsewhere c' l : c <> c' -> Forall (fun op => op_cf op <> c') (puts l).
Proof. intros Hne. by apply Forall_fmap, Forall_forall. Qed.
End puts.

(** ** Blocks in parts *)

Section blocks.
Context `{Sbor}.
Implicit Types (b : Block) (q : QuorumCertificate) (d : Db).

(** The operations on the chain. *)
Inductive ChainOp :=
  | StoreBlock (block : Block) (qc : QuorumCertificate)
  | StoreTransaction (tx : RoutableTransaction)
  | StoreCertificate (cert : TransactionCertificate)
  | StoreMetadata (height : BlockHeight) (hash : option Hash) (qc : option QuorumCertificate)
  | StoreVote (height round : u64) (block_hash : Hash)
  | PruneVotes (height : u64).

Definition apply_op (d : Db) (op : ChainOp) : Db :=
  match op with
  | StoreBlock block qc => put_block_denormalized block qc d
  | StoreTransaction tx => put_transaction tx d
  | StoreCertificate cert => put_certificate (tc_transaction_hash cert) cert d
  | StoreMetadata height hash qc => set_chain_metadata height hash qc d
  | StoreVote height round hash => put_own_vote height round hash d
  | PruneVotes height => prune_own_votes height d
  end.

(** The transactions and certificates an operation writes. *)
Definition op_transactions (op : ChainOp) : list RoutableTransaction :=
  match op with StoreBlock b _ => all_transactions b | StoreTransaction tx => [tx] | _ => [] end.
Definition op_certificates (op : ChainOp) : list TransactionCertificate :=
  match op with StoreBlock b _ => bl_certificates b | StoreCertificate cert => [cert] | _ => [] end.

(** Values that fit the machine types. *)
Definition op_fits (op : ChainOp) : Prop :=
  Forall (fun tx => is_hash (rt_hash tx)) (op_transactions op) /\
  Forall (fun c => is_hash (tc_transaction_hash c)) (op_certificates op) /\
  match op with StoreBlock b _ => is_u64 (bh_height (bl_header b)) | _ => True end.

(** An operation writes no other transaction, certificate or block where one
    of block [b] is. *)
Definition compatible b q (op : ChainOp) : Prop :=
  (forall tx tx', tx ∈ all_transactions b -> tx' ∈ op_transactions op -> rt_hash tx' = rt_hash tx -> tx' = tx) /\
  (forall c c', c ∈ bl_certificates b -> c' ∈ op_certificates op ->
     tc_transaction_hash c' = tc_transaction_hash c -> c' = c) /\
  match op with
  | StoreBlock b' q' => bh_height (bl_header b') = bh_height (bl_header b) -> b' = b /\ q' = q
  | _ => True
  end.

(** The parts of a block are stored. *)
Record stored b q d : Prop := {
  stored_metadata : get_block_metadata d (bh_height (bl_header b)) = Some (metadata_from_block b q);
  stored_transactions tx : tx ∈ all_transactions b -> get_transaction d (rt_hash tx) = Some tx;
  stored_certificates c : c ∈ bl_certificates b -> get_certificate d (tc_transaction_hash c) = Some c
}.

Lemma omap_fmap_id {A B} (f : B -> option A) (g : A -> B) (l : list A) :
  (forall x, x ∈ l -> f (g x) = Some x) -> omap f (g <$> l) = l.
Proof.
  induction l as [|x l IH]; intros Hfg; [done|]. cbn. rewrite Hfg by set_solver. f_equal.
  apply IH. intros y Hy. apply Hfg. set_solver.
Qed.

Lemma stored_reconstruct b q d : stored b q d ->
  get_block_for_sync d (bh_height (bl_header b)) = Some (b, q).
Proof.
  intros [Hm Ht Hc]. unfold get_block_for_sync. rewrite Hm. cbn [mbind option_bind].
  unfold reconstruct, metadata_from_block.
  cbn [bm_header bm_retry_hashes bm_priority_hashes bm_tx_hashes bm_cert_hashes bm_deferred bm_aborted
       bm_commitment_proofs bm_qc].
  unfold get_transactions_batch_ordered, get_certificates_batch_ordered.
  unfold all_transactions in Ht. rewrite !omap_fmap_id; [|intros x Hx; auto using elem_of_app; apply Ht; set_solver..].
  rewrite !length_fmap, !Nat.eqb_refl. cbn [negb]. by destruct b.
Qed.

(** *** What one operation leaves *)

Lemma block_batch_cf c b q d :
  cf c (put_block_denormalized b q d) =
  cf c (write (puts CfCertificates (fun k => as_bytes (tc_transaction_hash k)) basic_encode (bl_certificates b))
    (write (puts CfTransactions (fun t => as_bytes (rt_hash t)) basic_encode (all_transactions b))
      (put CfBlocks (to_be_bytes (bh_height (bl_header b))) (basic_encode (metadata_from_block b q)) d))).
Proof.
  unfold put_block_denormalized, block_batch. cbn [write foldl write_op].
  rewrite foldl_app. done.
Qed.

Lemma block_batch_blocks b q d : cf CfBlocks (put_block_denormalized b q d)
  = <[to_be_bytes (bh_height (bl_header b)) := basic_encode (metadata_from_block b q)]> (cf CfBlocks d).
Proof. rewrite block_batch_cf, !cf_write_other by (by apply puts_elsewhere). apply cf_put_eq. Qed.

(** The transactions of an operation, and no others, are written. *)
Lemma op_transactions_written op d tx : op_fits op -> tx ∈ op_transactions op ->
  (forall tx', tx' ∈ op_transactions op -> rt_hash tx' = rt_hash tx -> tx' = tx) ->
  get_transaction (apply_op d op) (rt_hash tx) = Some tx.
Proof.
  intros (Hfit & _ & _) Hin Hagree. unfold get_transaction. rewrite Forall_forall in Hfit.
  assert (cf CfTransactions (apply_op d op) !! as_bytes (rt_hash tx) = Some (basic_encode tx)) as ->;
    [|apply sbor_roundtrip].
  destruct op as [b q|t| | | |]; cbn [op_transactions apply_op] in *; try by apply not_elem_of_nil in Hin.
  - rewrite block_batch_cf, cf_write_other by (by apply puts_elsewhere).
    apply (lookup_puts CfTransactions (fun t => as_bytes (rt_hash t))); [done|].
    intros t Ht E. apply as_bytes_inj in E; [|auto..]. by rewrite (Hagree t).
  - apply list_elem_of_singleton in Hin as ->. unfold put_transaction. rewrite cf_put_eq. apply lookup_insert_eq.
Qed.

Lemma op_transactions_kept op d h : op_fits op -> is_hash h ->
  (forall tx, tx ∈ op_transactions op -> rt_hash tx <> h) ->
  get_transaction (apply_op d op) h = get_transaction d h.
Proof.
  intros (Hfit & _ & _) Hh Hne. unfold get_transaction. rewrite Forall_forall in Hfit. f_equal.
  destruct op as [b q|t|c|n hash qc|n r x|n]; cbn [op_transactions apply_op] in *.
  - rewrite block_batch_cf, cf_write_other by (by apply puts_elsewhere).
    rewrite (lookup_puts_other CfTransactions (fun t => as_bytes (rt_hash t))); [by rewrite cf_put_ne|].
    intros t Ht E. apply as_bytes_inj in E; [|auto..]. by apply (Hne t).
  - unfold put_transaction. rewrite cf_put_eq. apply lookup_insert_ne. intros E.
    apply as_bytes_inj in E; [|apply Hfit; set_solver|done]. apply (Hne t); [set_solver|done].
  - unfold put_transaction, put_certificate, put_own_vote. by rewrite (cf_put_ne CfTransactions).
  - unfold set_chain_metadata. repeat case_match; by rewrite ?cf_put_ne by done.
  - unfold put_transaction, put_certificate, put_own_vote. by rewrite (cf_put_ne CfTransactions).
  - unfold prune_own_votes. by rewrite cf_write_other by (by apply Forall_fmap, Forall_forall).
Qed.

(** The same for certificates. *)
Lemma op_certificates_written op d c : op_fits op -> c ∈ op_certificates op ->
  (forall c', c' ∈ op_certificates op -> tc_transaction_hash c' = tc_transaction_hash c -> c' = c) ->
  get_certificate (apply_op d op) (tc_transaction_hash c) = Some c.
Proof.
  intros (_ & Hfit & _) Hin Hagree. unfold get_certificate. rewrite Forall_forall in Hfit.
  assert (cf CfCertificates (apply_op d op) !! as_bytes (tc_transaction_hash c) = Some (basic_encode c)) as ->;
    [|apply sbor_roundtrip].
  destruct op as [b q| |k| | |]; cbn [op_certificates apply_op] in *; try by apply not_elem_of_nil in Hin.
  - rewrite block_batch_cf.
    apply (lookup_puts CfCertificates (fun k => as_bytes (tc_transaction_hash k))); [done|].
    intros k Hk E. apply as_bytes_inj in E; [|auto..]. by rewrite (Hagree k).
  - apply list_elem_of_singleton in Hin as ->. unfold put_certificate. rewrite cf_put_eq. apply lookup_insert_eq.
Qed.

Lemma op_certificates_kept op d h : op_fits op -> is_hash h ->
  (forall c, c ∈ op_certificates op -> tc_transaction_hash c <> h) ->
  get_certificate (apply_op d op) h = get_certificate d h.
Proof.
  intros (_ & Hfit & _) Hh Hne. unfold get_certificate. rewrite Forall_forall in Hfit. f_equal.
  destruct op as [b q|t|c|n hash qc|n r x|n]; cbn [op_certificates apply_op] in *.
  - rewrite block_batch_cf, (lookup_puts_other CfCertificates (fun k => as_bytes (tc_transaction_hash k))).
    + rewrite cf_write_other by (by apply puts_elsewhere). by rewrite cf_put_ne.
    + intros k Hk E. apply as_bytes_inj in E; [|auto..]. by apply (Hne k).
  - unfold put_transaction, put_certificate, put_own_vote. by rewrite (cf_put_ne CfCertificates).
  - unfold put_certificate. rewrite cf_put_eq. apply lookup_insert_ne. intros E.
    apply as_bytes_inj in E; [|apply Hfit; set_solver|done]. apply (Hne c); [set_solver|done].
  - unfold set_chain_metadata. repeat case_match; by rewrite ?cf_put_ne by done.
  - unfold put_transaction, put_certificate, put_own_vote. by rewrite (cf_put_ne CfCertificates).
  - unfold prune_own_votes. by rewrite cf_write_other by (by apply Forall_fmap, Forall_forall).
Qed.

Lemma op_metadata op d n : op_fits op -> is_u64 n ->
  get_block_metadata (apply_op d op) n =
  match op with
  | StoreBlock b q => if decide (bh_height (bl_header b) = n) then Some (metadata_from_block b q)
                      else get_block_metadata d n
  | _ => get_block_metadata d n
  end.
Proof.
  intros (_ & _ & Hfit) Hn. unfold get_block_metadata.
  destruct op as [b q|t|c|m hash qc|m r x|m]; cbn [apply_op] in *.
  - rewrite block_batch_blocks. case_decide as E.
    + subst n. rewrite lookup_insert_eq. apply sbor_roundtrip.
    + rewrite lookup_insert_ne; [done|]. intros E2. by apply to_be_bytes_inj in E2.
  - unfold put_transaction, put_certificate, put_own_vote. by rewrite (cf_put_ne CfBlocks).
  - unfold put_transaction, put_certificate, put_own_vote. by rewrite (cf_put_ne CfBlocks).
  - unfold set_chain_metadata. repeat case_match; by rewrite ?cf_put_ne by done.
  - unfold put_transaction, put_certificate, put_own_vote. by rewrite (cf_put_ne CfBlocks).
  - unfold prune_own_votes. by rewrite cf_write_other by (by apply Forall_fmap, Forall_forall).
Qed.

Lemma stored_now b q d : op_fits (StoreBlock b q) -> compatible b q (StoreBlock b q) ->
  stored b q (apply_op d (StoreBlock b q)).
Proof.
  intros Hfit (Ht & Hc & _). split.
  - rewrite op_metadata by (done || apply Hfit). by rewrite decide_True.
  - intros tx Htx. apply op_transactions_written; [done..|]. intros tx' Htx'. by apply Ht.
  - intros c Hcin. apply op_certificates_written; [done..|]. intros c' Hc'. by apply Hc.
Qed.

Lemma stored_kept b q d op : op_fits (StoreBlock b q) -> stored b q d -> op_fits op -> compatible b q op ->
  stored b q (apply_op d op).
Proof.
  intros (Fh & Fc & Fn) [Sm St Sc] Hfit (Ht & Hc & Hb). cbn [op_transactions op_certificates] in *.
  rewrite Forall_forall in Fh. rewrite Forall_forall in Fc. split.
  - rewrite op_metadata by done. destruct op as [b' q'| | | | |]; [|done..].
    case_decide as E; [|done]. by destruct (Hb E) as [-> ->].
  - intros tx Htx. destruct (decide (Exists (fun t => rt_hash t = rt_hash tx) (op_transactions op)))
      as [(t & Hin & E)%Exists_exists|Hno].
    + rewrite <- E, <- (Ht tx t) by done. apply op_transactions_written; [done..|].
      intros t' Ht' E'. rewrite (Ht tx t), (Ht tx t') by (done || congruence). done.
    + rewrite op_transactions_kept; [by apply St|done|by apply Fh|].
      intros t Hin E. apply Hno, Exists_exists. by exists t.
  - intros c Hcin. destruct (decide (Exists (fun k => tc_transaction_hash k = tc_transaction_hash c) (op_certificates op)))
      as [(k & Hin & E)%Exists_exists|Hno].
    + rewrite <- E, <- (Hc c k) by done. apply op_certificates_written; [done..|].
      intros k' Hk' E'. rewrite (Hc c k), (Hc c k') by (done || congruence). done.
    + rewrite op_certificates_kept; [by apply Sc|done|by apply Fc|].
      intros k Hin E. apply Hno, Exists_exists. by exists k.
Qed.

(** C31: A stored block is read back as it was.  After
    [put_block_denormalized] has stored the header and the hashes of a block
    under its height and its transactions and certificates under their hashes,
    [get_block_for_sync] reconstructs exactly that block and certificate,
    sections and order included, whatever is stored in between: other blocks
    that share transactions or certificates, single transactions and
    certificates, metadata, votes and their pruning.  The conditions say that
    no two transactions, and no two certificates, share a hash, and that no
    other block is stored at the height. *)
Theorem stored_block_roundtrip b q d ops :
  op_fits (StoreBlock b q) -> compatible b q (StoreBlock b q) ->
  Forall (fun op => op_fits op /\ compatible b q op) ops ->
  let d' := foldl apply_op d (StoreBlock b q :: ops) in
  get_block_for_sync d' (bh_height (bl_header b)) = Some (b, q) /\
  get_block_denormalized d' (bh_height (bl_header b)) = Some (b, q).
Proof.
  intros Hfit Hself Hops. cbv zeta. cbn [foldl].
  assert (stored b q (foldl apply_op (apply_op d (StoreBlock b q)) ops)) as Hst.
  { assert (stored b q (apply_op d (StoreBlock b q))) as H0 by (by apply stored_now).
    revert H0. generalize (apply_op d (StoreBlock b q)) as d0. clear d.
    induction Hops as [|op ops [Hop1 Hop2] _ IH]; intros d0 H0; [done|].
    cbn [foldl]. apply IH. by apply stored_kept. }
  split; by apply stored_reconstruct.
Qed.

(** *** What is served was stored *)

Lemma op_transactions_inv op d h tx : op_fits op -> is_hash h ->
  get_transaction (apply_op d op) h = Some tx ->
  (tx ∈ op_transactions op /\ rt_hash tx = h) \/ get_transaction d h = Some tx.
Proof.
  intros Hfit Hh Hg. pose proof Hfit as (Hf & _ & _). rewrite Forall_forall in Hf.
  destruct (decide (Exists (fun t => rt_hash t = h) (op_transactions op))) as [_|Hno].
  2:{ right. rewrite op_transactions_kept in Hg; [done..|]. intros t Ht E. apply Hno, Exists_exists. by exists t. }
  unfold get_transaction in *.
  destruct op as [b q|t|c|n hash qc|n r x|n]; cbn [op_transactions apply_op] in *.
  - rewrite block_batch_cf, cf_write_other in Hg by (by apply puts_elsewhere).
    destruct (cf CfTransactions _ !! as_bytes h) as [v|] eqn:E; [|done].
    apply lookup_puts_inv in E as [(a & Ha & Hk & <-)|E].
    + left. cbn in Hg. rewrite sbor_roundtrip in Hg. injection Hg as <-.
      apply as_bytes_inj in Hk; [|auto..]. done.
    + right. rewrite cf_put_ne in E by done. by rewrite E.
  - unfold put_transaction in Hg. rewrite cf_put_eq in Hg.
    destruct (decide (as_bytes (rt_hash t) = as_bytes h)) as [E|E].
    + left. rewrite E, lookup_insert_eq in Hg. cbn in Hg. rewrite sbor_roundtrip in Hg. injection Hg as <-.
      split; [set_solver|]. apply as_bytes_inj in E; [done|apply Hf; set_solver|done].
    + right. by rewrite lookup_insert_ne in Hg by done.
  - right. unfold put_certificate in Hg. by rewrite cf_put_ne in Hg.
  - right. unfold set_chain_metadata in Hg. revert Hg. repeat case_match; by rewrite ?cf_put_ne by done.
  - right. unfold put_own_vote in Hg. by rewrite cf_put_ne in Hg.
  - right. unfold prune_own_votes in Hg. by rewrite cf_write_other in Hg by (by apply Forall_fmap, Forall_forall).
Qed.

Lemma op_certificates_inv op d h c : op_fits op -> is_hash h ->
  get_certificate (apply_op d op) h = Some c ->
  (c ∈ op_certificates op /\ tc_transaction_hash c = h) \/ get_certificate d h = Some c.
Proof.
  intros Hfit Hh Hg. pose proof Hfit as (_ & Hf & _). rewrite Forall_forall in Hf.
  destruct (decide (Exists (fun k => tc_transaction_hash k = h) (op_certificates op))) as [_|Hno].
  2:{ right. rewrite op_certificates_kept in Hg; [done..|]. intros k Hk E. apply Hno, Exists_exists. by exists k. }
  unfold get_certificate in *.
  destruct op as [b q|t|k|n hash qc|n r x|n]; cbn [op_certificates apply_op] in *.
  - rewrite block_batch_cf in Hg.
    destruct (cf CfCertificates _ !! as_bytes h) as [v|] eqn:E; [|done].
    apply lookup_puts_inv in E as [(a & Ha & Hk & <-)|E].
    + left. cbn in Hg. rewrite sbor_roundtrip in Hg. injection Hg as <-.
      apply as_bytes_inj in Hk; [|auto..]. done.
    + right. rewrite cf_write_other in E by (by apply puts_elsewhere). rewrite cf_put_ne in E by done.
      by rewrite E.
  - right. unfold put_transaction in Hg. by rewrite cf_put_ne in Hg.
  - unfold put_certificate in Hg. rewrite cf_put_eq in Hg.
    destruct (decide (as_bytes (tc_transaction_hash k) = as_bytes h)) as [E|E].
    + left. rewrite E, lookup_insert_eq in Hg. cbn in Hg. rewrite sbor_roundtrip in Hg. injection Hg as <-.
      split; [set_solver|]. apply as_bytes_inj in E; [done|apply Hf; set_solver|done].
    + right. by rewrite lookup_insert_ne in Hg by done.
  - right. unfold set_chain_metadata in Hg. revert Hg. repeat case_match; by rewrite ?cf_put_ne by done.
  - right. unfold put_own_vote in Hg. by rewrite cf_put_ne in Hg.
  - right. unfold prune_own_votes in Hg. by rewrite cf_write_other in Hg by (by apply Forall_fmap, Forall_forall).
Qed.

(** Every entry is under its own hash, and the metadata is that of a block
    that was stored. *)
Record keyed (ops : list ChainOp) d : Prop := {
  keyed_transactions h tx : is_hash h -> get_transaction d h = Some tx -> rt_hash tx = h;
  keyed_certificates h c : is_hash h -> get_certificate d h = Some c -> tc_transaction_hash c = h;
  keyed_metadata n m : is_u64 n -> get_block_metadata d n = Some m ->
    exists b q, StoreBlock b q ∈ ops /\ bh_height (bl_header b) = n /\ m = metadata_from_block b q
}.

Lemma keyed_run ops d : Forall op_fits ops -> keyed [] d -> keyed ops (foldl apply_op d ops).
Proof.
  induction ops as [|op ops IH] using rev_ind; intros Hf H0; [done|].
  rewrite Forall_app, Forall_singleton in Hf. destruct Hf as [Hf Hop].
  rewrite foldl_app. cbn [foldl]. destruct (IH Hf H0) as [It Ic Im]. split.
  - intros h tx Hh [[_ ?]|?]%op_transactions_inv; eauto.
  - intros h c Hh [[_ ?]|?]%op_certificates_inv; eauto.
  - intros n m Hn Hm. rewrite op_metadata in Hm by done.
    assert (get_block_metadata (foldl apply_op d ops) n = Some m ->
      exists b q, StoreBlock b q ∈ ops ++ [op] /\ bh_height (bl_header b) = n /\ m = metadata_from_block b q) as Hold.
    { intros (b & q & Hin & Hrest)%Im; [|done]. exists b, q. split; [set_solver|done]. }
    destruct op as [b q| | | | |]; [|by apply Hold..]. case_decide; [|by apply Hold].
    injection Hm as <-. exists b, q. split; [set_solver|done].
Qed.

Lemma omap_keys {A} (f : Hash -> option A) (key : A -> Hash) (hs : list Hash) :
  (forall h x, h ∈ hs -> f h = Some x -> key x = h) -> length (omap f hs) = length hs ->
  key <$> omap f hs = hs.
Proof.
  induction hs as [|h hs IH]; intros Hf Hl; [done|]. cbn in *.
  assert (length (omap f hs) <= length hs)%nat as Hle.
  { clear. induction hs as [|h hs IH]; cbn; [lia|]. destruct (f h); cbn; lia. }
  destruct (f h) as [x|] eqn:E; cbn in *; [|lia].
  rewrite (Hf h x) by (done || set_solver). f_equal. apply IH; [|lia].
  intros h' x' Hin. apply Hf. set_solver.
Qed.

Lemma length_omap_le {A} (f : Hash -> option A) (hs : list Hash) : (length (omap f hs) <= length hs)%nat.
Proof. induction hs as [|h hs IH]; cbn; [lia|]. destruct (f h); cbn; lia. Qed.

(** A block that is served has the header, the hashes in their sections, the
    deferrals, aborts, proofs and certificate of a block stored at its height:
    a peer is never sent a block with a part missing or exchanged for one with
    another hash. *)
Theorem served_block_was_stored ops n b' q' :
  Forall op_fits ops -> is_u64 n -> get_block_for_sync (foldl apply_op empty_db ops) n = Some (b', q') ->
  exists b q, StoreBlock b q ∈ ops /\ bh_height (bl_header b) = n /\
    metadata_from_block b' q' = metadata_from_block b q.
Proof.
  intros Hf Hn Hg.
  assert (keyed ops (foldl apply_op empty_db ops)) as [Kt Kc Km].
  { apply keyed_run; [done|]. split; unfold get_transaction, get_certificate, get_block_metadata; cbn; done. }
  unfold get_block_for_sync in Hg. destruct (get_block_metadata _ n) as [m|] eqn:Em; [|done].
  cbn [mbind option_bind] in Hg. destruct (Km n m Hn Em) as (b & q & Hin & Hh & ->).
  exists b, q. split_and!; [done..|].
  assert (Forall is_hash (all_tx_hashes (metadata_from_block b q)) /\
          Forall is_hash (bm_cert_hashes (metadata_from_block b q))) as [Hth Hch].
  { rewrite Forall_forall in Hf. destruct (Hf _ Hin) as (Ht & Hc & _). unfold all_tx_hashes. cbn in *.
    rewrite <- !fmap_app. split; by rewrite Forall_fmap. }
  revert Hg. unfold reconstruct. set (d := foldl apply_op empty_db ops) in *. set (m := metadata_from_block b q) in *.
  clearbody d m.
  unfold get_transactions_batch_ordered, get_certificates_batch_ordered.
  pose proof (length_omap_le (get_transaction d) (bm_retry_hashes m)).
  pose proof (length_omap_le (get_transaction d) (bm_priority_hashes m)).
  pose proof (length_omap_le (get_transaction d) (bm_tx_hashes m)).
  destruct (Nat.eqb_spec (length (omap (get_transaction d) (bm_retry_hashes m))
    + length (omap (get_transaction d) (bm_priority_hashes m)) + length (omap (get_transaction d) (bm_tx_hashes m)))
    (length (bm_retry_hashes m) + length (bm_priority_hashes m) + length (bm_tx_hashes m))) as [El|]; [|done].
  destruct (Nat.eqb_spec (length (omap (get_certificate d) (bm_cert_hashes m))) (length (bm_cert_hashes m)))
    as [Ec|]; [|done].
  intros [= <- <-]. unfold all_tx_hashes in Hth. rewrite !Forall_app in Hth. destruct Hth as (Hr & Hp & Ht).
  rewrite Forall_forall in Hr. rewrite Forall_forall in Hp. rewrite Forall_forall in Ht. rewrite Forall_forall in Hch.
  assert (forall hs, (forall h, h ∈ hs -> is_hash h) -> length (omap (get_transaction d) hs) = length hs ->
    rt_hash <$> omap (get_transaction d) hs = hs) as Htx.
  { intros hs Hhs. apply omap_keys. intros h x Hin'. by apply Kt, Hhs. }
  unfold metadata_from_block at 1.
  cbn [negb bl_header bl_retry_transactions bl_priority_transactions bl_transactions bl_certificates bl_deferred
       bl_aborted bl_commitment_proofs].
  rewrite (Htx (bm_retry_hashes m)), (Htx (bm_priority_hashes m)), (Htx (bm_tx_hashes m)) by (done || lia).
  rewrite omap_keys; [by destruct m| |done].
  intros h x Hin'. by apply Kc, Hch.
Qed.
End blocks.

(** ** Own votes *)

Section votes.
Context `{Sbor}.
Implicit Types (d : Db) (h : u64).

Lemma lookup_collect_none {A} (l : list (u64 * A)) (m : gmap u64 A) h :
  (forall x, (h, x) ∉ l) -> foldl (fun m '(k, x) => <[k := x]> m) m l !! h = m !! h.
Proof.
  revert m. induction l as [|[k x] l IH]; intros m Hno; [done|]. cbn [foldl].
  rewrite IH by set_solver. apply lookup_insert_ne. intros ->. apply (Hno x). set_solver.
Qed.

Lemma lookup_collect_some {A} (l : list (u64 * A)) (m : gmap u64 A) h x :
  (forall y, (h, y) ∈ l -> y = x) -> (h, x) ∈ l -> foldl (fun m '(k, x) => <[k := x]> m) m l !! h = Some x.
Proof.
  revert m. induction l as [|[k y] l IH]; intros m Hfun Hin; [by apply not_elem_of_nil in Hin|].
  cbn [foldl]. destruct (decide (Exists (fun p => p.1 = h) l)) as [([k' z] & Hz & Ek)%Exists_exists|Hno].
  - cbn in Ek. subst k'. apply IH; [intros w Hw; apply Hfun; set_solver|].
    by rewrite <- (Hfun z) by set_solver.
  - rewrite lookup_collect_none.
    2:{ intros z Hz. apply Hno, Exists_exists. by exists (h, z). }
    apply elem_of_cons in Hin as [[= -> ->]|Hin]; [apply lookup_insert_eq|].
    exfalso. apply Hno, Exists_exists. by exists (h, x).
Qed.

(** The keys of the votes are heights. *)
Definition votes_wf d : Prop :=
  forall k v, cf CfVotes d !! k = Some v -> exists h, is_u64 h /\ k = to_be_bytes h.

Lemma all_own_votes_lookup d h : votes_wf d -> is_u64 h -> get_all_own_votes d !! h = get_own_vote d h.
Proof.
  intros Hwf Hh. unfold get_all_own_votes.
  assert (forall x, (h, x) ∈ omap vote_of_entry (iterator_cf CfVotes d) <-> get_own_vote d h = Some x) as Hin.
  { intros x. rewrite list_elem_of_omap. unfold get_own_vote. split.
    - intros ([k v] & Hkv%elem_of_iterator_cf & E). destruct (Hwf k v Hkv) as (h' & Hh' & ->).
      unfold vote_of_entry in E. cbn in E. rewrite from_be_bytes_to_be_bytes in E by done. cbn in E.
      destruct (basic_decode v) as [w|] eqn:Ew; [|done]. injection E as -> ->. by rewrite Hkv.
    - destruct (cf CfVotes d !! to_be_bytes h) as [v|] eqn:Ev; [|done]. cbn. intros Ex.
      exists (to_be_bytes h, v). rewrite elem_of_iterator_cf. split; [done|].
      unfold vote_of_entry. cbn. rewrite from_be_bytes_to_be_bytes by done. cbn. by rewrite Ex. }
  destruct (get_own_vote d h) as [x|].
  - apply lookup_collect_some; [|by apply Hin]. intros y Hy%Hin. congruence.
  - rewrite lookup_collect_none; [done|]. intros x Hx%Hin. done.
Qed.

Lemma get_own_vote_put d h r hash h' : is_u64 h -> is_u64 h' ->
  get_own_vote (put_own_vote h r hash d) h' = if decide (h = h') then Some (hash, r) else get_own_vote d h'.
Proof.
  intros Hh Hh'. unfold get_own_vote, put_own_vote. rewrite cf_put_eq. case_decide as E.
  - subst h'. rewrite lookup_insert_eq. apply sbor_roundtrip.
  - rewrite lookup_insert_ne; [done|]. intros E2. by apply to_be_bytes_inj in E2.
Qed.

Lemma get_own_vote_prune d c h : votes_wf d -> is_u64 h ->
  get_own_vote (prune_own_votes c d) h = if h <=? c then None else get_own_vote d h.
Proof.
  intros Hwf Hh. unfold get_own_vote, prune_own_votes. rewrite lookup_write_deletes.
  case_decide as Hin.
  - apply list_elem_of_omap in Hin as ([k v] & _ & E). cbn in E.
    destruct (from_be_bytes k) as [h'|] eqn:Ek; [|done]. cbn in E.
    destruct (N.leb_spec h' c); [|done]. injection E as ->.
    rewrite from_be_bytes_to_be_bytes in Ek by done. injection Ek as ->.
    by rewrite (proj2 (N.leb_le h' c)).
  - destruct (cf CfVotes d !! to_be_bytes h) as [v|] eqn:Ev; [|by destruct (h <=? c)].
    destruct (N.leb_spec h c); [|done]. exfalso. apply Hin, list_elem_of_omap.
    exists (to_be_bytes h, v). rewrite elem_of_iterator_cf. split; [done|]. cbn.
    rewrite from_be_bytes_to_be_bytes by done. cbn. by rewrite (proj2 (N.leb_le h c)).
Qed.

Lemma votes_wf_put d h r hash : is_u64 h -> votes_wf d -> votes_wf (put_own_vote h r hash d).
Proof.
  intros Hh Hwf k v. unfold put_own_vote. rewrite cf_put_eq.
  intros [[<- _]|[_ Hk]]%lookup_insert_Some; [by exists h|by apply (Hwf k v)].
Qed.

Lemma votes_wf_prune d c : votes_wf d -> votes_wf (prune_own_votes c d).
Proof.
  intros Hwf k v. unfold prune_own_votes. rewrite lookup_write_deletes. case_decide; [done|]. apply Hwf.
Qed.

Lemma get_own_vote_other d d' h : cf CfVotes d' = cf CfVotes d -> get_own_vote d' h = get_own_vote d h.
Proof. unfold get_own_vote. by intros ->. Qed.
End votes.

(** ** A concrete input *)

Definition kept_tx (h : Hash) : RoutableTransaction := mk_routable_transaction [] [] [] None h.

(** Two blocks that share transaction 7. *)
Definition kept_block (height : u64) (txs : list RoutableTransaction) : Block :=
  mk_block (mk_block_header height 0 QC.genesis 0 0 0 false 0 0 0) [] txs [] [] [] [] ∅.

Definition kept_first : Block := kept_block 1 [kept_tx 7; kept_tx 8].
Definition kept_second : Block := kept_block 2 [kept_tx 9; kept_tx 7].

Lemma stored_block_roundtrip_witness :
  let d := foldl (@apply_op sample_sbor) empty_db
             [StoreBlock kept_first QC.genesis; StoreBlock kept_second QC.genesis;
              StoreTransaction (kept_tx 8); StoreVote 1 0 5; PruneVotes 3] in
  @get_block_for_sync sample_sbor d 1 = Some (kept_first, QC.genesis) /\
  @get_block_denormalized sample_sbor d 1 = Some (kept_first, QC.genesis).
Proof.
  apply (@stored_block_roundtrip sample_sbor kept_first QC.genesis empty_db
           [StoreBlock kept_second QC.genesis; StoreTransaction (kept_tx 8); StoreVote 1 0 5; PruneVotes 3]).
  - repeat constructor; vm_compute; reflexivity.
  - split_and!; cbn; set_solver.
  - repeat constructor; first [vm_compute; reflexivity | cbn; set_solver].
Defined.
