(* ===== verification/Recovery.v ===== *)
(** * Restarting a validator (storage.rs and runner.rs of crates/production)

    The runner writes votes and certified blocks from tasks of a thread pool,
    so the steps of different tasks interleave.  This file has the tasks, the
    disk with its running tasks, crashes, and the consensus state that is
    started from what the disk holds. *)

From stdpp Require Import base gmap list numbers.
From Stdlib Require Import NArith Lia.
From S2P Require Import Prelude Bitfield Types Encoding Topology Transactions VoteSet Core PendingBlock.
From S2P Require Import BftState BftVote BftCommit BftPropose BftLoops BftChain BftReach BftVoting BftProposals BftHazards Sbor Storage StorageChain.

Section recovery.
Context `{CR : Crypto} `{T : Topology} `{SB : Sbor}.
Implicit Types (d : Db) (h r n : u64) (x : Hash) (b : Block) (q : QuorumCertificate).

(** ** Tasks *)

Inductive DiskStep :=
  | WriteVote (height round : u64) (block_hash : Hash)
  | SendVote (height round : u64) (block_hash : Hash)
  | WriteBlock (block : Block) (qc : QuorumCertificate)
  | WriteHeight (height : BlockHeight)
  | PruneTo (height : u64).

Definition run_disk_step (step : DiskStep) d : Db :=
  match step with
  | WriteVote height round hash => put_own_vote height round hash d
  | SendVote _ _ _ => d
  | WriteBlock block qc => put_block_denormalized block qc d
  | WriteHeight height => set_chain_metadata height None None d
  | PruneTo height => prune_own_votes height d
  end.

(** The task of [Action::PersistAndBroadcastVote]. *)
Definition vote_task (height round : u64) (block_hash : Hash) : list DiskStep :=
  [WriteVote height round block_hash; SendVote height round block_hash].

(** The task of [Action::PersistBlock]. *)
Definition block_task (block : Block) (qc : QuorumCertificate) : list DiskStep :=
  let height := bh_height (bl_header block) in
  [WriteBlock block qc; WriteHeight height; PruneTo height].

Definition task_of (a : Action) : option (list DiskStep) :=
  match a with
  | PersistAndBroadcastVote height round hash _ _ => Some (vote_task height round hash)
  | PersistBlock block qc => Some (block_task block qc)
  | _ => None
  end.

Record Disk := mk_disk {
  dk_db : Db;
  dk_tasks : list (list DiskStep);
  dk_sent : list (u64 * u64 * Hash)
}.

Definition sent_by (step : DiskStep) : list (u64 * u64 * Hash) :=
  match step with SendVote height round hash => [(height, round, hash)] | _ => [] end.

(** Heights are machine words. *)
Definition task_fits (task : list DiskStep) : Prop :=
  Forall (fun step => match step with
                      | WriteVote h _ _ | SendVote h _ _ | WriteHeight h | PruneTo h => is_u64 h
                      | WriteBlock b _ => is_u64 (bh_height (bl_header b))
                      end) task.

(** [allowed] restricts the steps the thread pool takes. *)
Inductive disk_run (allowed : Db -> DiskStep -> Prop) : Disk -> Disk -> Prop :=
  | dr_refl k : disk_run allowed k k
  | dr_spawn k k' acts :
      disk_run allowed k k' -> Forall task_fits (omap task_of acts) ->
      disk_run allowed k (mk_disk (dk_db k') (dk_tasks k' ++ omap task_of acts) (dk_sent k'))
  | dr_step k k' before step rest after :
      disk_run allowed k k' -> dk_tasks k' = before ++ (step :: rest) :: after ->
      allowed (dk_db k') step ->
      disk_run allowed k
        (mk_disk (run_disk_step step (dk_db k')) (before ++ rest :: after) (dk_sent k' ++ sent_by step))
  | dr_crash k k' : disk_run allowed k k' -> disk_run allowed k (mk_disk (dk_db k') [] (dk_sent k')).

Definition fresh_disk : Disk := mk_disk empty_db [] [].

(** The consensus state after a start from the disk. *)
Definition restarted (key : Bls12381G1PrivateKey) (config : BftConfig) (jmt_version : u64)
    (jmt_root : Hash) d : BftState :=
  bft_new key config (load_recovered_state d jmt_version jmt_root).

(** ** The metadata that is written *)

Definition disk_height d : u64 := (get_chain_metadata d).1.1.

Lemma disk_height_write_height h d : is_u64 h -> disk_height (set_chain_metadata h None None d) = h.
Proof.
  intros Hh. unfold disk_height, get_chain_metadata, set_chain_metadata. cbn [fst].
  rewrite cf_put_eq, lookup_insert_eq, from_be_bytes_to_be_bytes by done. done.
Qed.

Lemma chain_metadata_default d d' : cf CfDefault d' = cf CfDefault d -> get_chain_metadata d' = get_chain_metadata d.
Proof. unfold get_chain_metadata. by intros ->. Qed.

Lemma step_default step d : (forall h, step <> WriteHeight h) ->
  cf CfDefault (run_disk_step step d) = cf CfDefault d.
Proof.
  intros Hs. destruct step as [h r x|h r x|b q|h|h]; cbn [run_disk_step]; [by apply cf_put_ne|done| |by destruct (Hs h)|].
  - by rewrite block_batch_cf, !cf_write_other, cf_put_ne by (done || by apply puts_elsewhere).
  - unfold prune_own_votes. by rewrite cf_write_other by (by apply Forall_fmap, Forall_forall).
Qed.

Lemma disk_height_step step d : (forall h, step <> WriteHeight h) ->
  disk_height (run_disk_step step d) = disk_height d.
Proof. intros Hs. unfold disk_height. by rewrite (chain_metadata_default d) by (by apply step_default). Qed.

Lemma step_votes step d :
  match step with WriteVote _ _ _ | PruneTo _ => True | _ => cf CfVotes (run_disk_step step d) = cf CfVotes d end.
Proof.
  destruct step as [h r x|h r x|b q|h|h]; cbn [run_disk_step]; [done|done| |by apply cf_put_ne|done].
  by rewrite block_batch_cf, !cf_write_other, cf_put_ne by (done || by apply puts_elsewhere).
Qed.

(** ** Votes are remembered *)

(** A height at which no second vote is cast after a restart. *)
Definition remembered d h : Prop := h <= disk_height d \/ is_Some (get_own_vote d h).

(** The heights that are written do not decrease. *)
Definition in_order d (step : DiskStep) : Prop :=
  match step with WriteHeight h => disk_height d <= h | _ => True end.

(** What holds for the rest of a task. *)
Definition task_ok d (task : list DiskStep) : Prop :=
  task_fits task /\
  match task with
  | [] => True
  | [SendVote h _ _] => remembered d h
  | [PruneTo h] => h <= disk_height d
  | [WriteVote h r x; SendVote h' r' x'] => h = h'
  | [WriteHeight h; PruneTo h'] | [WriteBlock _ _; WriteHeight h; PruneTo h'] => h = h'
  | _ => False
  end.

Record disk_ok (k : Disk) : Prop := {
  disk_votes_wf : votes_wf (dk_db k);
  disk_sent v : v ∈ dk_sent k -> is_u64 v.1.1 /\ remembered (dk_db k) v.1.1;
  disk_tasks task : task ∈ dk_tasks k -> task_ok (dk_db k) task
}.

(** Steps of tasks in order forget nothing. *)
Lemma remembered_step step d h : votes_wf d -> is_u64 h -> in_order d step ->
  (forall n, step = WriteHeight n -> is_u64 n) -> (forall n r x, step = WriteVote n r x -> is_u64 n) ->
  (forall n, step = PruneTo n -> n <= disk_height d) ->
  remembered d h -> remembered (run_disk_step step d) h.
Proof.
  intros Hwf Hh Hord Hfit Hvfit Hprune Hrem. unfold remembered.
  destruct step as [n r x|n r x|b q|n|n].
  - rewrite disk_height_step by done. destruct Hrem as [|Hv]; [by left|]. right.
    cbn [run_disk_step]. rewrite get_own_vote_put by (done || by eapply Hvfit). case_decide; [by eexists|done].
  - done.
  - rewrite disk_height_step by done. destruct Hrem as [|Hv]; [by left|]. right.
    by rewrite (get_own_vote_other d) by (by apply (step_votes (WriteBlock b q))).
  - cbn [run_disk_step in_order] in *. rewrite disk_height_write_height by (by apply Hfit).
    destruct Hrem as [|Hv]; [left; lia|]. right.
    by rewrite (get_own_vote_other d) by (by apply (step_votes (WriteHeight n))).
  - rewrite disk_height_step by done. destruct Hrem as [|Hv]; [by left|].
    cbn [run_disk_step]. rewrite get_own_vote_prune by done. specialize (Hprune n eq_refl).
    destruct (N.leb_spec h n); [left; lia|by right].
Qed.

Lemma votes_wf_step step d : (forall n r x, step = WriteVote n r x -> is_u64 n) -> votes_wf d ->
  votes_wf (run_disk_step step d).
Proof.
  intros Hfit Hwf. pose proof (step_votes step d) as Hv. destruct step as [n r x|n r x|b q|n|n].
  - apply votes_wf_put; [by eapply Hfit|done].
  - done.
  - intros k v. rewrite Hv. apply Hwf.
  - intros k v. rewrite Hv. apply Hwf.
  - by apply votes_wf_prune.
Qed.

Lemma disk_height_grows step d : in_order d step -> (forall n, step = WriteHeight n -> is_u64 n) ->
  disk_height d <= disk_height (run_disk_step step d).
Proof.
  intros Hord Hfit. destruct step as [n r x|n r x|b q|n|n]; try by rewrite disk_height_step.
  cbn [run_disk_step in_order] in *. by rewrite disk_height_write_height by (by apply Hfit).
Qed.

(** The task whose first step is taken. *)
Lemma task_ok_advance step rest d : votes_wf d -> in_order d step -> task_ok d (step :: rest) ->
  task_ok (run_disk_step step d) rest.
Proof.
  intros Hwf Hord [Hfit Hok]. apply Forall_cons_1 in Hfit as [Hf Hfit]. split; [done|].
  destruct step as [n r x|n r x|b q|n|n], rest as [|s1 [|s2 [|s3 rest]]]; try done;
    try (by destruct s1); try (by destruct s1, s2).
  - destruct s1; try done. subst. right. cbn [run_disk_step]. rewrite get_own_vote_put by done.
    rewrite decide_True by done. by eexists.
  - destruct s1; try done. subst. cbn [run_disk_step]. by rewrite disk_height_write_height.
Qed.

Lemma task_ok_kept step d task : votes_wf d -> in_order d step ->
  (forall n, step = WriteHeight n -> is_u64 n) -> (forall n r x, step = WriteVote n r x -> is_u64 n) ->
  (forall n, step = PruneTo n -> n <= disk_height d) ->
  task_ok d task -> task_ok (run_disk_step step d) task.
Proof.
  intros Hwf Hord Hfit Hvfit Hprune [Htf Hok]. split; [done|].
  pose proof (disk_height_grows step d Hord Hfit) as Hgrow.
  destruct task as [|[] [|s1 [|s2 [|s3 rest]]]]; try done.
  - apply Forall_cons_1 in Htf as [Hf _]. cbn in Hf, Hok |- *. apply remembered_step; eauto.
  - lia.
Qed.

Lemma task_head_fits d step rest : task_ok d (step :: rest) ->
  (forall n, step = WriteHeight n -> is_u64 n) /\ (forall n r x, step = WriteVote n r x -> is_u64 n) /\
  (forall n, step = PruneTo n -> n <= disk_height d).
Proof.
  intros [Hfit Hok]. apply Forall_cons_1 in Hfit as [Hf _]. split_and!; intros; subst step; [done..|].
  by destruct rest.
Qed.

Lemma disk_run_ok k k' : disk_run in_order k k' -> disk_ok k -> disk_ok k'.
Proof.
  intros Hrun Hk. induction Hrun as [k|k k' acts _ IH Hfit|k k' before step rest after _ IH Htasks Hord|k k' _ IH];
    [done| | |]; specialize (IH Hk); destruct IH as [Hwf Hsent Hok].
  - split; [done|done|]. intros task [Ht|(a & Ha & E)%list_elem_of_omap]%elem_of_app; [by apply Hok|].
    rewrite Forall_forall in Hfit. split; [apply Hfit, list_elem_of_In, list_elem_of_omap; by exists a|].
    destruct a; try done; injection E as <-; done.
  - assert (task_ok (dk_db k') (step :: rest)) as Hstep by (apply Hok; rewrite Htasks; set_solver).
    destruct (task_head_fits _ _ _ Hstep) as (F1 & F2 & F3). cbn [dk_db dk_tasks dk_sent]. split; cbn [dk_db dk_tasks dk_sent].
    + by apply votes_wf_step.
    + intros v [Hv|Hv]%elem_of_app.
      * destruct (Hsent v Hv) as [Hu Hr]. split; [done|]. by apply remembered_step.
      * destruct step as [n r x|n r x|b q|n|n]; try by apply not_elem_of_nil in Hv.
        apply list_elem_of_singleton in Hv as ->. destruct Hstep as [Hf Ht]. apply Forall_cons_1 in Hf as [Hf _].
        split; [done|]. by destruct rest.
    + intros task Ht. assert (task = rest \/ task ∈ dk_tasks k') as [->|Hin] by (rewrite Htasks; set_solver).
      * by apply task_ok_advance.
      * apply task_ok_kept; auto.
  - split; [done|done|]. intros task Ht. by apply not_elem_of_nil in Ht.
Qed.

(** A restarted state has the remembered votes. *)
Lemma restarted_votes key config v root d h : votes_wf d -> is_u64 h -> remembered d h ->
  h <= s_committed_height (restarted key config v root d) \/
  is_Some (s_voted_heights (restarted key config v root d) !! h).
Proof.
  intros Hwf Hh Hrem. unfold restarted, load_recovered_state, remembered, disk_height in *.
  destruct (get_chain_metadata d) as [[c ch] cq]. cbn [bft_new s_committed_height s_voted_heights rec_committed_height
    rec_voted_heights fst] in *.
  destruct Hrem as [|[y Hy]]; [by left|]. destruct (N.leb_spec h c); [by left|]. right.
  exists y. apply hm_retain_Some. rewrite all_own_votes_lookup by done. split; [done|]. by apply N.ltb_lt.
Qed.


(** ** What is never written *)

(** The database has no committed hash and no certificate of it. *)
Definition no_tip d : Prop := (get_chain_metadata d).1.2 = None /\ (get_chain_metadata d).2 = None.

Lemma no_tip_step step d : no_tip d -> no_tip (run_disk_step step d).
Proof.
  intros Hd. unfold no_tip. destruct step as [n r x|n r x|b q|n|n];
    try (rewrite (chain_metadata_default d); [done|by apply step_default]).
  unfold no_tip, get_chain_metadata in *. cbn [run_disk_step set_chain_metadata fst snd] in *.
  rewrite !cf_put_eq, !lookup_insert_ne by discriminate. done.
Qed.

Lemma disk_run_no_tip allowed k k' : disk_run allowed k k' -> no_tip (dk_db k) -> no_tip (dk_db k').
Proof.
  intros Hrun Hk. induction Hrun as [k|k k' acts _ IH _|k k' before step rest after _ IH _ _|k k' _ IH];
    [done|by apply IH| |by apply IH].
  apply no_tip_step, IH, Hk.
Qed.

Lemma restarted_no_tip key config v root d : no_tip d ->
  s_committed_hash (restarted key config v root d) = blake3 (replicate 32 0) /\
  parent_of_proposal (restarted key config v root d) = (blake3 (replicate 32 0), QC.genesis).
Proof.
  intros [Hh Hq]. unfold restarted, load_recovered_state, parent_of_proposal.
  destruct (get_chain_metadata d) as [[] ?]. cbn in *. by subst.
Qed.

Lemma restarted_height key config v root d :
  s_committed_height (restarted key config v root d) = disk_height d.
Proof. unfold restarted, load_recovered_state, disk_height. by destruct (get_chain_metadata d) as [[] ?]. Qed.

Definition run_task (task : list DiskStep) d : Db := foldl (fun d step => run_disk_step step d) d task.

Lemma block_task_height b q d : is_u64 (bh_height (bl_header b)) ->
  disk_height (run_task (block_task b q) d) = bh_height (bl_header b).
Proof.
  intros Hfit. unfold run_task, block_task. cbn [foldl].
  rewrite (disk_height_step (PruneTo _)) by done. by apply disk_height_write_height.
Qed.

Lemma block_task_votes b q d : votes_wf d ->
  votes_wf (run_task (block_task b q) d) /\
  forall h, is_u64 h -> get_own_vote (run_task (block_task b q) d) h =
    if h <=? bh_height (bl_header b) then None else get_own_vote d h.
Proof.
  intros Hwf. unfold run_task, block_task. cbn [foldl]. set (height := bh_height (bl_header b)).
  assert (votes_wf (run_disk_step (WriteHeight height) (run_disk_step (WriteBlock b q) d))) as Hwf'
    by (do 2 (apply votes_wf_step; [done|]); done).
  split; [by apply votes_wf_step|]. intros h Hh. cbn [run_disk_step] in *. rewrite get_own_vote_prune by done.
  destruct (h <=? height); [done|].
  rewrite (get_own_vote_other (run_disk_step (WriteBlock b q) d)) by (by apply (step_votes (WriteHeight height))).
  apply get_own_vote_other. apply (step_votes (WriteBlock b q)).
Qed.

Lemma block_to_commit_adopt qc s hash :
  block_to_commit (adopt_qc qc (record_leader_activity s)) hash = block_to_commit s hash.
Proof.
  pose proof (adopt_qc_view qc (record_leader_activity s)) as Hv. unfold chain_view in Hv.
  injection Hv as _ Hp Hc _ _. unfold block_to_commit. by rewrite Hp, Hc.
Qed.

(** A block that is only certified comes back from a restart as the
    committed one, without its hash.  When a quorum certificate forms,
    [on_qc_formed] has the certified block stored although it asks to commit
    at most the parent.  The task that stores the block records its height as
    the committed height, and neither this task nor any other ever records a
    committed hash or a certificate.  So a node that restarts on this disk,
    whatever ran before, counts the certified block as committed, takes the
    hash of 32 zero bytes for the hash of its tip, has no certificate, and
    its next proposal names that hash as its parent and carries the genesis
    certificate. *)
Theorem certified_block_recovers_as_committed allowed k key config v root
    hash qc ready deferred aborted certs proofs s b :
  disk_run allowed fresh_disk k -> block_to_commit s hash = Some b -> is_u64 (bh_height (bl_header b)) ->
  qc_parent_block_hash qc <> hash ->
  let acts := (on_qc_formed hash qc ready deferred aborted certs proofs s).2 in
  let s' := restarted key config v root (run_task (block_task b qc) (dk_db k)) in
  PersistBlock b qc ∈ acts /\
  hash ∉ (commit_requests acts).*1 /\
  s_committed_height s' = bh_height (bl_header b) /\
  s_committed_hash s' = blake3 (replicate 32 0) /\
  parent_of_proposal s' = (blake3 (replicate 32 0), QC.genesis).
Proof.
  intros Hrun Hb Hfit Hne acts s'.
  assert (no_tip (run_task (block_task b qc) (dk_db k))) as Ht.
  { do 3 apply no_tip_step. by apply (disk_run_no_tip _ _ _ Hrun). }
  destruct (restarted_no_tip key config v root _ Ht) as [Hhash Hparent]. split_and!; [| | |done..].
  - unfold acts, on_qc_formed. rewrite block_to_commit_adopt, Hb. unfold hseq, hemit.
    match goal with |- context [let (_, _) := ?e in _] => destruct e end.
    cbn [snd]. rewrite !elem_of_app. left. left. by apply list_elem_of_singleton.
  - unfold acts. rewrite qc_formed_two_chain. destruct (_ && _); cbn [fmap list_fmap fst].
    + by intros ->%list_elem_of_singleton.
    + apply not_elem_of_nil.
  - unfold s'. rewrite restarted_height. by apply block_task_height.
Qed.

(** ** Tasks out of order *)

Lemma restarted_votes_none key config v root d h : votes_wf d -> get_own_vote d h = None -> is_u64 h ->
  s_voted_heights (restarted key config v root d) !! h = None /\
  s_pending_blocks (restarted key config v root d) = ∅.
Proof.
  intros Hwf Hnone Hh. unfold restarted, load_recovered_state. destruct (get_chain_metadata d) as [[] ?].
  split; [|done]. cbn. apply eq_None_not_Some. intros [y Hy]. apply hm_retain_Some in Hy as [Hy _].
  rewrite all_own_votes_lookup in Hy by done. congruence.
Qed.

Lemma disk_run_task allowed k k' before task after :
  disk_run allowed k k' -> dk_tasks k' = before ++ task :: after ->
  (forall d step, step ∈ task -> allowed d step) ->
  disk_run allowed k (mk_disk (run_task task (dk_db k')) (before ++ [] :: after)
                        (dk_sent k' ++ (task ≫= sent_by))).
Proof.
  revert k'. induction task as [|step rest IH]; intros k' Hrun Ht Hall.
  - cbn. rewrite app_nil_r. destruct k'; cbn in *. by subst.
  - specialize (IH (mk_disk (run_disk_step step (dk_db k')) (before ++ rest :: after) (dk_sent k' ++ sent_by step))).
    cbn [dk_db dk_tasks dk_sent] in IH. rewrite <- app_assoc in IH. apply IH; [|done|set_solver].
    apply dr_step with (before := before) (after := after); [done..|]. apply Hall. set_solver.
Qed.

Lemma create_vote_own hash h r s : (h, r, hash) ∈ own_votes (create_vote hash h r s).2.
Proof.
  unfold create_vote, hseq, hemit. destruct (on_block_vote_internal _ _). cbn [snd].
  rewrite own_votes_app. apply elem_of_app. left. by left.
Qed.

(** Nothing orders the tasks that store blocks, and when the task of a
    height runs after the task of the next one, a restart forgets a vote.
    For every vote [x] at the height of [b'], and any block [b] of the height
    before, there is a run without a crash in which the vote is sent and all
    tasks finish, and after which the restarted node has the height of [b] as
    its committed height and votes once more at the height of [b'], for
    whichever block it is asked about. *)
Theorem reordered_blocks_lose_vote key config v root b b' q q' r x shard (message : OutboundMessage) :
  bh_height (bl_header b') = bh_height (bl_header b) + 1 -> is_u64 (bh_height (bl_header b')) ->
  let h := bh_height (bl_header b') in
  let acts := [PersistAndBroadcastVote h r x shard message; PersistBlock b q; PersistBlock b' q'] in
  exists k, disk_run (fun _ _ => True) (mk_disk empty_db (omap task_of acts) []) k /\
    dk_tasks k = [[]; []; []] /\ (h, r, x) ∈ dk_sent k /\
    let s := restarted key config v root (dk_db k) in
    s_committed_height s = bh_height (bl_header b) /\
    forall r' x', (h, r', x') ∈ own_votes (try_vote_on_block x' h r' s).2.
Proof.
  intros Hnext Hfit h acts. assert (is_u64 (bh_height (bl_header b))) as Hfit' by (unfold is_u64 in *; lia).
  set (voted := run_task (vote_task h r x) empty_db). set (next := run_task (block_task b' q') voted).
  set (last := run_task (block_task b q) next). exists (mk_disk last [[]; []; []] [(h, r, x)]).
  cbn [dk_db dk_tasks dk_sent]. cbv zeta. split_and!; [|done|by left|..].
  - apply (disk_run_task _ _ (mk_disk next [[]; block_task b q; []] [(h, r, x)]) [[]] (block_task b q) [[]]); [|done..].
    apply (disk_run_task _ _ (mk_disk voted [[]; block_task b q; block_task b' q'] [(h, r, x)])
      [[]; block_task b q] (block_task b' q') []); [|done..].
    apply (disk_run_task _ _ (mk_disk empty_db (omap task_of acts) []) [] (vote_task h r x)); [|done..].
    apply dr_refl.
  - rewrite restarted_height. by apply block_task_height.
  - intros r' x'. unfold try_vote_on_block. assert (votes_wf voted) as Hv by (by apply votes_wf_put).
    assert (votes_wf next) as Hn by (by apply block_task_votes).
    destruct (restarted_votes_none key config v root last h) as [Hnone Hpend]; [| |done|].
    + by apply block_task_votes.
    + unfold last. rewrite (proj2 (block_task_votes b q next Hn)) by done. case_match; [done|].
      unfold next. rewrite (proj2 (block_task_votes b' q' voted Hv)) by done. unfold h. by rewrite N.leb_refl.
    + rewrite Hnone, Hpend, lookup_empty. apply create_vote_own.
Qed.
End recovery.

(** ** Concrete runs *)

Definition restart_vote : Action :=
  PersistAndBroadcastVote 1 0 7 0 (BlockVoteMessage (mk_block_vote 7 1 0 0 0 0)).

(** A vote at height 1 is written and sent, then the node crashes. *)
Definition crashed_disk : Disk :=
  mk_disk (@put_own_vote sample_sbor 1 0 7 empty_db) [] [(1, 0, 7)].

Lemma crashed_run (allowed : Db -> DiskStep -> Prop) :
  (forall d h r x, allowed d (WriteVote h r x) /\ allowed d (SendVote h r x)) ->
  @disk_run sample_sbor allowed fresh_disk crashed_disk.
Proof.
  intros Hall. apply (dr_crash _ _ (mk_disk (dk_db crashed_disk) [[]] [(1, 0, 7)])).
  apply (dr_step _ _ (mk_disk (dk_db crashed_disk) [[SendVote 1 0 7]] []) [] (SendVote 1 0 7) [] []);
    [|done|apply Hall].
  apply (dr_step _ _ (mk_disk empty_db [vote_task 1 0 7] []) [] (WriteVote 1 0 7) [SendVote 1 0 7] []);
    [|done|apply Hall].
  apply (dr_spawn _ _ fresh_disk [restart_vote]); [apply dr_refl|].
  repeat constructor; vm_compute; reflexivity.
Qed.


Definition stored_first : Block := kept_block 1 [].
Definition stored_second : Block := kept_block 2 [].

Lemma reordered_blocks_lose_vote_witness :
  let acts := [PersistAndBroadcastVote 2 0 7 0 (BlockVoteMessage (mk_block_vote 7 2 0 0 0 0));
               PersistBlock stored_first QC.genesis; PersistBlock stored_second QC.genesis] in
  exists k, @disk_run sample_sbor (fun _ _ => True) (mk_disk empty_db (omap task_of acts) []) k /\
    dk_tasks k = [[]; []; []] /\ (2, 0, 7) ∈ dk_sent k /\
    let s := @restarted sample_crypto (sample_topology 0) sample_sbor 1 default_config 0 0 (dk_db k) in
    s_committed_height s = 1 /\
    forall r' x', (2, r', x') ∈ own_votes (@try_vote_on_block sample_crypto (sample_topology 0) x' 2 r' s).2.
Proof.
  apply (@reordered_blocks_lose_vote sample_crypto (sample_topology 0) sample_sbor 1 default_config 0 0
           stored_first stored_second QC.genesis QC.genesis 0 7 0); vm_compute; reflexivity.
Defined.

(** The certificate of the second block, whose parent is the first. *)
Definition root_qc_2 : QuorumCertificate :=
  mk_qc root_hash_2 2 root_hash_1 0 SignerBitfieldOps.empty zero_bls_signature 3 0.

Lemma certified_block_recovers_as_committed_witness :
  let acts := (@on_qc_formed sample_crypto (sample_topology 0) root_hash_2 root_qc_2
                 (mk_ready_transactions [] [] []) [] [] [] ∅ root_state).2 in
  let s' := @restarted sample_crypto (sample_topology 0) sample_sbor 1 default_config 0 0
              (@run_task sample_sbor (block_task root_block_2 root_qc_2) (dk_db crashed_disk)) in
  PersistBlock root_block_2 root_qc_2 ∈ acts /\
  (root_hash_2 ∉ (commit_requests acts).*1) /\
  s_committed_height s' = 2 /\
  s_committed_hash s' = @blake3 sample_crypto (replicate 32 0) /\
  parent_of_proposal s' = (@blake3 sample_crypto (replicate 32 0), QC.genesis).
Proof.
  apply (@certified_block_recovers_as_committed sample_crypto (sample_topology 0) sample_sbor
           (fun _ _ => True) crashed_disk).
  - by apply crashed_run.
  - vm_compute; reflexivity.
  - vm_compute; reflexivity.
  - vm_compute; discriminate.
Defined.
