(* ===== verification/Substates.v ===== *)
(** * Substates (crates/engine: storage.rs, execution.rs, executor.rs)

    The keys of substates, the database the engine reads, its overlay with the
    state of other shards, the writes a transaction makes, and the executor.
    The engine itself, the key mapper and the validator of signatures are
    code of other crates: the operations of the class [Radix]. *)

From stdpp Require Import base gmap list numbers sorting strings.
From Stdlib Require Import NArith Lia.
From S2P Require Import Prelude Bitfield Types Encoding Topology Transactions ExecutionRunner Sbor BftState Storage.

(** ** Keys *)

Record DbPartitionKey := mk_partition_key {
  pk_node_key : bytes;
  pk_partition_num : N
}.

#[export] Instance DbPartitionKey_eq_dec : EqDecision DbPartitionKey.
Proof. solve_decision. Defined.

Abbreviation DbSortKey := bytes (only parsing).

Definition RADIX_PREFIX : bytes := byte_literal "radix:".

Definition partition_prefix (partition_key : DbPartitionKey) : bytes :=
  RADIX_PREFIX ++ pk_node_key partition_key ++ [pk_partition_num partition_key].

Definition to_storage_key (partition_key : DbPartitionKey) (sort_key : DbSortKey) : bytes :=
  RADIX_PREFIX ++ pk_node_key partition_key ++ [pk_partition_num partition_key] ++ sort_key.

(** The loop of [next_prefix], from the last byte on; [None] when it runs out
    of bytes. *)
Fixpoint increment_rev (reversed : bytes) : option bytes :=
  match reversed with
  | [] => None
  | b :: rest => if b <? 255 then Some (b + 1 :: rest) else cons 0 <$> increment_rev rest
  end.

Definition next_prefix (prefix : bytes) : bytes :=
  match increment_rev (rev prefix) with
  | Some next => rev next
  | None => replicate (length prefix) 0 ++ [0]
  end.

(** ** The database the engine reads *)

(** [SubstateDatabase]; iterators are the lists of what they yield. *)
Record SubstateDatabase := mk_substate_database {
  get_raw_substate_by_db_key : DbPartitionKey -> DbSortKey -> option bytes;
  list_raw_values_from_db_key : DbPartitionKey -> option DbSortKey -> list (DbSortKey * bytes)
}.

(** [raw_iterator], [seek] and the check of the end. *)
Fixpoint seek {A} (start : bytes) (entries : list (bytes * A)) : list (bytes * A) :=
  match entries with
  | [] => []
  | e :: rest => if key_ltb e.1 start then seek start rest else entries
  end.

Definition range_of {A} (start end_ : bytes) (entries : list (bytes * A)) : list (bytes * A) :=
  take_while (fun e => key_ltb e.1 end_) (seek start entries).

Definition iter_range (d : Db) (start end_ : bytes) : list (bytes * bytes) :=
  range_of start end_ (iterator_cf CfDefault d).

(** The part of a key after the prefix. *)
Definition strip_prefix {A} (prefix_len : usize) (e : bytes * A) : option (DbSortKey * A) :=
  if Nat.ltb prefix_len (length e.1) then Some (drop prefix_len e.1, e.2) else None.

Definition scan_start (prefix : bytes) (from_sort_key : option DbSortKey) : bytes :=
  match from_sort_key with Some sort_key => prefix ++ sort_key | None => prefix end.

(** [RocksDbStorage] and its snapshots: both read the default column family. *)
Definition rocksdb_substates (d : Db) : SubstateDatabase := {|
  get_raw_substate_by_db_key partition_key sort_key :=
    cf CfDefault d !! to_storage_key partition_key sort_key;
  list_raw_values_from_db_key partition_key from_sort_key :=
    let prefix := partition_prefix partition_key in
    filter_map (strip_prefix (length prefix))
      (iter_range d (scan_start prefix from_sort_key) (next_prefix prefix))
|}.

(** ** Provisions over a database *)

(** The entries of a [BTreeMap] in the order of their keys. *)
Definition btree_entries {A} (m : gmap bytes A) : list (bytes * A) := merge_sort key_le (map_to_list m).

Definition provisions_of (entries : list StateEntry) : gmap bytes (option bytes) :=
  foldl (fun m entry => <[se_storage_key entry := se_value entry]> m) ∅ entries.

(** [MergedPartitionIterator::next]: the item and what is left of both. *)
Fixpoint merged_next (base : list (DbSortKey * bytes)) (provisions : list (DbSortKey * option bytes))
    : option ((DbSortKey * bytes) * list (DbSortKey * bytes) * list (DbSortKey * option bytes)) :=
  match provisions with
  | [] => match base with
          | [] => None
          | item :: base' => Some (item, base', [])
          end
  | (prov_key, value) :: provisions' =>
      match base with
      | [] => match value with
              | Some v => Some ((prov_key, v), [], provisions')
              | None => merged_next [] provisions'
              end
      | (base_key, base_value) :: base' =>
          if key_ltb base_key prov_key then Some ((base_key, base_value), base', provisions)
          else if bool_decide (base_key = prov_key) then
            match value with
            | Some v => Some ((prov_key, v), base', provisions')
            | None => merged_next base' provisions'
            end
          else
            match value with
            | Some v => Some ((prov_key, v), base, provisions')
            | None => merged_next base provisions'
            end
      end
  end.

(** Every call takes an item of one of the lists. *)
Fixpoint collect_merged (fuel : nat) (base : list (DbSortKey * bytes))
    (provisions : list (DbSortKey * option bytes)) : list (DbSortKey * bytes) :=
  match fuel with
  | O => []
  | S fuel' =>
      match merged_next base provisions with
      | None => []
      | Some (item, base', provisions') => item :: collect_merged fuel' base' provisions'
      end
  end.

Definition merged_partition (base : list (DbSortKey * bytes))
    (provisions : list (DbSortKey * option bytes)) : list (DbSortKey * bytes) :=
  collect_merged (length base + length provisions) base provisions.

(** [ProvisionedSnapshot]. *)
Definition provisioned_snapshot (base : SubstateDatabase) (provisions : gmap bytes (option bytes))
    : SubstateDatabase := {|
  get_raw_substate_by_db_key partition_key sort_key :=
    match provisions !! to_storage_key partition_key sort_key with
    | Some value => value
    | None => get_raw_substate_by_db_key base partition_key sort_key
    end;
  list_raw_values_from_db_key partition_key from_sort_key :=
    let prefix := partition_prefix partition_key in
    let base_iter := list_raw_values_from_db_key base partition_key from_sort_key in
    let prov_entries :=
      filter_map (strip_prefix (length prefix))
        (range_of (scan_start prefix from_sort_key) (next_prefix prefix) (btree_entries provisions)) in
    match prov_entries with
    | [] => base_iter
    | _ => merged_partition base_iter prov_entries
    end
|}.

(** ** Updates *)

(** [IndexMap]: the entries in the order of their insertion. *)
(** [entry(k).or_insert(init)] and a change of the value. *)
Fixpoint index_update {K V} `{EqDecision K} (k : K) (init : V) (f : V -> V) (m : list (K * V)) : list (K * V) :=
  match m with
  | [] => [(k, f init)]
  | e :: m' => if bool_decide (e.1 = k) then (k, f e.2) :: m' else e :: index_update k init f m'
  end.

Definition index_insert {K V} `{EqDecision K} (k : K) (v : V) : list (K * V) -> list (K * V) :=
  index_update k v (fun _ => v).

Inductive DatabaseUpdate :=
  | SetValue (value : bytes)
  | DeleteValue.

Inductive PartitionDatabaseUpdates :=
  | Delta (substate_updates : list (DbSortKey * DatabaseUpdate))
  | Reset (new_substate_values : list (DbSortKey * bytes)).

Abbreviation NodeDatabaseUpdates := (list (N * PartitionDatabaseUpdates)) (only parsing).
Abbreviation DatabaseUpdates := (list (bytes * list (N * PartitionDatabaseUpdates))) (only parsing).

(** [TransactionResult]; a commit has the updates of its state. *)
Inductive TransactionReceipt :=
  | ReceiptCommit (state_updates : DatabaseUpdates)
  | ReceiptReject (reason : bytes)
  | ReceiptAbort (reason : bytes).

(** What comes from the Radix crates: [SpreadPrefixKeyMapper], the validator
    of a transaction's signatures, [execute_transaction] and the text of a
    failed receipt. *)
Class Radix := {
  to_db_node_key : NodeId -> bytes;
  to_db_partition_num : N -> N;
  ExecutableTransaction : Type;
  get_or_validate : RoutableTransaction -> option ExecutableTransaction;
  execute_transaction : SubstateDatabase -> ExecutableTransaction -> TransactionReceipt;
  describe_result : TransactionReceipt -> bytes
}.

Section engine.
Context `{CR : Crypto} `{RX : Radix}.

Definition node_prefix (node_id : NodeId) : bytes := RADIX_PREFIX ++ to_db_node_key node_id.

Definition extract_state_updates (receipt : TransactionReceipt) : option DatabaseUpdates :=
  match receipt with
  | ReceiptCommit state_updates => Some state_updates
  | ReceiptReject _ | ReceiptAbort _ => None
  end.

Definition is_commit_success (receipt : TransactionReceipt) : bool :=
  match receipt with ReceiptCommit _ => true | _ => false end.

(** The thirty bytes after the hash prefix; [None] skips the node. *)
Definition node_of_db_key (db_node_key : bytes) : option NodeId :=
  if Nat.leb 50 (length db_node_key)
  then Some (from_le_bytes (rev (take 30 (drop 20 db_node_key)))) else None.

Definition partition_writes (node_id : NodeId) (entry : N * PartitionDatabaseUpdates) : list SubstateWrite :=
  match entry.2 with
  | Delta substate_updates =>
      filter_map (fun e => match e.2 with
                           | SetValue value => Some (mk_substate_write node_id entry.1 e.1 value)
                           | DeleteValue => None
                           end) substate_updates
  | Reset _ => []
  end.

Definition writes_of_updates (updates : DatabaseUpdates) : list SubstateWrite :=
  updates ≫= fun e =>
    match node_of_db_key e.1 with
    | Some node_id => e.2 ≫= partition_writes node_id
    | None => []
    end.

Definition extract_substate_writes (receipt : TransactionReceipt) : list SubstateWrite :=
  match extract_state_updates receipt with
  | Some updates => writes_of_updates updates
  | None => []
  end.

(** The value of a write goes into the partition's delta. *)
Definition set_in_delta (write : SubstateWrite) (partition_updates : PartitionDatabaseUpdates)
    : PartitionDatabaseUpdates :=
  match partition_updates with
  | Delta substate_updates =>
      Delta (index_insert (sw_sort_key write) (SetValue (sw_value write)) substate_updates)
  | Reset _ => partition_updates
  end.

Definition add_write (updates : DatabaseUpdates) (write : SubstateWrite) : DatabaseUpdates :=
  index_update (to_db_node_key (sw_node_id write)) []
    (index_update (to_db_partition_num (sw_partition write)) (Delta []) (set_in_delta write)) updates.

Definition substate_writes_to_database_updates (writes : list SubstateWrite) : DatabaseUpdates :=
  foldl add_write [] writes.

(** ** The commitment to the writes *)

(** The order of [(node_id, partition, sort_key)]. *)
Definition write_ltb (a b : SubstateWrite) : bool :=
  if bool_decide (node_bytes (sw_node_id a) = node_bytes (sw_node_id b)) then
    if sw_partition a =? sw_partition b then key_ltb (sw_sort_key a) (sw_sort_key b)
    else sw_partition a <? sw_partition b
  else key_ltb (node_bytes (sw_node_id a)) (node_bytes (sw_node_id b)).

Definition write_le (a b : SubstateWrite) : Prop := write_ltb b a = false.

#[export] Instance write_le_dec : RelDecision write_le.
Proof. intros a b. unfold write_le. apply _. Defined.

Definition write_data (write : SubstateWrite) : bytes :=
  node_bytes (sw_node_id write) ++ [sw_partition write] ++ sw_sort_key write ++ sw_value write.

Definition compute_writes_commitment (writes : list SubstateWrite) : Hash :=
  match writes with
  | [] => ZERO
  | _ => blake3 (merge_sort write_le writes ≫= write_data)
  end.

(** ** Results *)

Definition result_success (tx_hash outputs_merkle_root : Hash) (state_writes : list SubstateWrite)
    : SingleTxResult := mk_single_tx_result tx_hash true outputs_merkle_root state_writes None.

Definition result_failure (tx_hash : Hash) (error : bytes) : SingleTxResult :=
  mk_single_tx_result tx_hash false ZERO [] (Some error).

Definition receipt_to_result (tx_hash : Hash) (receipt : TransactionReceipt) : SingleTxResult :=
  if is_commit_success receipt then
    let state_writes := extract_substate_writes receipt in
    result_success tx_hash (compute_writes_commitment state_writes) state_writes
  else result_failure tx_hash (describe_result receipt).

Definition receipt_to_cross_shard_result (tx_hash : Hash) (receipt : TransactionReceipt)
    (declared_writes : list NodeId) : SingleTxResult :=
  if is_commit_success receipt then
    let filtered_writes :=
      filter (fun w => sw_node_id w ∈ declared_writes) (extract_substate_writes receipt) in
    result_success tx_hash (compute_writes_commitment filtered_writes) filtered_writes
  else result_failure tx_hash (describe_result receipt).

(** ** The executor *)

(** [execute_one]; [None] is [Err(Preparation)]. *)
Definition execute_one (snapshot : SubstateDatabase) (tx : RoutableTransaction) : option SingleTxResult :=
  executable ← get_or_validate tx;
  Some (receipt_to_result (rt_hash tx) (execute_transaction snapshot executable)).

(** Nothing is committed between the snapshots of a call. *)
Definition executor_single_shard (storage : SubstateDatabase) (transactions : list RoutableTransaction)
    : option (list SingleTxResult) := mapM (execute_one storage) transactions.

Definition execute_provisioned (provisioned : SubstateDatabase) (tx : RoutableTransaction)
    : option SingleTxResult :=
  executable ← get_or_validate tx;
  Some (receipt_to_cross_shard_result (rt_hash tx) (execute_transaction provisioned executable)
          (rt_declared_writes tx)).

Definition executor_cross_shard (storage : SubstateDatabase) (transactions : list RoutableTransaction)
    (provisions : list StateProvision) : option (list SingleTxResult) :=
  let all_entries := provisions ≫= sp_entries in
  let provisioned := provisioned_snapshot storage (provisions_of all_entries) in
  mapM (execute_provisioned provisioned) transactions.

(** ** Fetching state for other shards *)

(** [list_substates_for_node]: partition, sort key and value. *)
Definition list_substates_for_node (d : Db) (node_id : NodeId) : list (N * DbSortKey * bytes) :=
  let prefix := node_prefix node_id in
  filter_map (fun e => match strip_prefix (length prefix) e with
                       | Some (partition_num :: sort_key, value) => Some (partition_num, sort_key, value)
                       | _ => None
                       end)
    (iter_range d prefix (next_prefix prefix)).

Definition fetch_state_entries (d : Db) (nodes : list NodeId) : list StateEntry :=
  nodes ≫= fun node =>
    (fun '(partition_num, sort_key, value) =>
       mk_state_entry (RADIX_PREFIX ++ to_db_node_key node ++ [partition_num] ++ sort_key) (Some value))
    <$> list_substates_for_node d node.
End engine.

(** The executor on the database of a validator is the engine of its runner. *)
Definition radix_engine `{Crypto} `{Radix} (d : Db)
    (verify : list bytes -> list Bls12381G1PublicKey -> list Bls12381G2Signature -> bool) : Engine := {|
  execute_single_shard tx := executor_single_shard (rocksdb_substates d) [tx];
  execute_cross_shard tx provisions := executor_cross_shard (rocksdb_substates d) [tx] provisions;
  verify_multiple_aggregate_signatures := verify
|}.
