(* ===== verification/SubstateTheory.v ===== *)
(** * Reading substates

    Scans of the database, the merge of provisions with it, and the state one
    shard sends to another. *)

From stdpp Require Import base gmap list numbers sorting.
From Stdlib Require Import NArith Lia.
From S2P Require Import Prelude Bitfield Types Encoding Topology Transactions Livelock ExecutionRunner.
From S2P Require Import Sbor BftState Storage StorageChain Substates.

(** ** The order of keys *)

Lemma key_ltb_irrefl a : key_ltb a a = false.
Proof. induction a as [|x a IH]; [done|]. cbn. by rewrite N.eqb_refl. Qed.

Lemma key_ltb_cons x y a b :
  key_ltb (x :: a) (y :: b) = true <-> x < y \/ (x = y /\ key_ltb a b = true).
Proof.
  cbn. destruct (N.eqb_spec x y) as [->|Hne]; [|rewrite N.ltb_lt; naive_solver].
  split; [auto|]. intros [|[_ ?]]; [lia|done].
Qed.

Lemma key_ltb_trans a b c : key_ltb a b = true -> key_ltb b c = true -> key_ltb a c = true.
Proof.
  revert b c. induction a as [|x a IH]; intros [|y b] [|z c]; try done.
  rewrite !key_ltb_cons. intros [|[-> ?]] [|[-> ?]]; eauto; left; lia.
Qed.

Lemma key_ltb_total a b : key_ltb a b = false -> key_ltb b a = false -> a = b.
Proof.
  revert b. induction a as [|x a IH]; intros [|y b]; try done. cbn. rewrite (N.eqb_sym y x).
  destruct (N.eqb_spec x y) as [->|Hne]; [intros; f_equal; auto|]. rewrite !N.ltb_ge. lia.
Qed.

Lemma key_ltb_asym a b : key_ltb a b = true -> key_ltb b a = false.
Proof.
  intros H1. apply not_true_is_false. intros H2.
  pose proof (key_ltb_trans _ _ _ H1 H2) as H3. by rewrite key_ltb_irrefl in H3.
Qed.

Lemma key_ltb_prefix p a b : key_ltb (p ++ a) (p ++ b) = key_ltb a b.
Proof. rewrite key_ltb_app by done. by rewrite decide_True. Qed.

#[export] Instance key_le_trans {A} : Transitive (@key_le A).
Proof.
  intros x y z. unfold key_le. intros H1 H2. apply not_true_is_false. intros H3.
  destruct (key_ltb y.1 z.1) eqn:H4.
  - pose proof (key_ltb_trans _ _ _ H4 H3). congruence.
  - rewrite (key_ltb_total _ _ H4 H2) in H1. congruence.
Qed.

#[export] Instance key_le_total {A} : Total (@key_le A).
Proof.
  intros x y. unfold key_le. destruct (key_ltb y.1 x.1) eqn:H1; [right; by apply key_ltb_asym|by left].
Qed.

(** ** Sorted lists of entries *)

Definition key_lt {A} (x y : bytes * A) : Prop := key_ltb x.1 y.1 = true.

Lemma strictly_sorted {A} (l : list (bytes * A)) :
  StronglySorted key_le l -> NoDup l.*1 -> StronglySorted key_lt l.
Proof.
  induction 1 as [|x l Hl IH Hx]; cbn; [constructor|]. intros [Hni Hnd]%NoDup_cons.
  constructor; [by apply IH|]. rewrite Forall_forall in Hx |- *. intros y Hy. specialize (Hx y Hy).
  unfold key_lt, key_le in *. apply not_false_is_true. intros Hf.
  apply Hni. rewrite (key_ltb_total _ _ Hf Hx). by apply list_elem_of_fmap_2.
Qed.

Lemma merge_sort_strict {A} (l : list (bytes * A)) : NoDup l.*1 -> StronglySorted key_lt (merge_sort key_le l).
Proof.
  intros Hnd. apply strictly_sorted; [apply StronglySorted_merge_sort; apply _|].
  by rewrite merge_sort_Permutation.
Qed.

Lemma btree_sorted {A} (m : gmap bytes A) : StronglySorted key_lt (btree_entries m).
Proof. apply merge_sort_strict, NoDup_fst_map_to_list. Qed.

Lemma elem_of_btree {A} (m : gmap bytes A) k v : (k, v) ∈ btree_entries m <-> m !! k = Some v.
Proof. unfold btree_entries. by rewrite merge_sort_Permutation, elem_of_map_to_list. Qed.

Lemma iterator_sorted c d : StronglySorted key_lt (iterator_cf c d).
Proof. apply merge_sort_strict, NoDup_fst_map_to_list. Qed.

Lemma sorted_filter {A} {R : A -> A -> Prop} (P : A -> Prop) `{forall x, Decision (P x)} l :
  StronglySorted R l -> StronglySorted R (filter P l).
Proof.
  induction 1 as [|x l Hl IH Hx]; [constructor|]. rewrite filter_cons. case_decide; [|done].
  constructor; [done|]. rewrite Forall_forall in Hx |- *. intros y [_ Hy]%list_elem_of_filter. by apply Hx.
Qed.

Lemma filter_keeps_all {A} (P : A -> Prop) `{forall x, Decision (P x)} l : Forall P l -> filter P l = l.
Proof. induction 1; [done|]. rewrite filter_cons, decide_True by done. by f_equal. Qed.

Lemma filter_drops_all {A} (P : A -> Prop) `{forall x, Decision (P x)} l :
  Forall (fun x => ~ P x) l -> filter P l = [].
Proof. induction 1; [done|]. by rewrite filter_cons, decide_False. Qed.

(** On a sorted list the bounds of a scan filter it. *)
Lemma seek_filter {A} start (l : list (bytes * A)) : StronglySorted key_lt l ->
  seek start l = filter (fun e => key_ltb e.1 start = false) l.
Proof.
  induction 1 as [|x l Hl IH Hx]; [done|]. cbn [seek]. rewrite filter_cons.
  destruct (key_ltb x.1 start) eqn:E; [by rewrite decide_False|].
  rewrite decide_True by done. f_equal. symmetry. apply filter_keeps_all.
  rewrite Forall_forall in Hx |- *. intros y Hy. specialize (Hx y Hy). unfold key_lt in Hx.
  apply not_true_is_false. intros H2. pose proof (key_ltb_trans _ _ _ Hx H2). congruence.
Qed.

Lemma take_while_filter {A} end_ (l : list (bytes * A)) : StronglySorted key_lt l ->
  take_while (fun e => key_ltb e.1 end_) l = filter (fun e => key_ltb e.1 end_ = true) l.
Proof.
  induction 1 as [|x l Hl IH Hx]; [done|]. cbn [take_while]. rewrite filter_cons.
  destruct (key_ltb x.1 end_) eqn:E; [rewrite decide_True by done; by f_equal|].
  rewrite decide_False by done. symmetry. apply filter_drops_all.
  rewrite Forall_forall in Hx |- *. intros y Hy H2. specialize (Hx y Hy). unfold key_lt in Hx.
  pose proof (key_ltb_trans _ _ _ Hx H2). congruence.
Qed.

Lemma range_of_filter {A} start end_ (l : list (bytes * A)) : StronglySorted key_lt l ->
  range_of start end_ l =
  filter (fun e => key_ltb e.1 end_ = true) (filter (fun e => key_ltb e.1 start = false) l).
Proof.
  intros Hl. unfold range_of. rewrite seek_filter, take_while_filter; [done|by apply sorted_filter|done].
Qed.

Lemma elem_of_range {A} start end_ (l : list (bytes * A)) e : StronglySorted key_lt l ->
  e ∈ range_of start end_ l <-> e ∈ l /\ key_ltb e.1 start = false /\ key_ltb e.1 end_ = true.
Proof. intros Hl. rewrite range_of_filter by done. rewrite !list_elem_of_filter. naive_solver. Qed.

Lemma range_sorted {A} start end_ (l : list (bytes * A)) : StronglySorted key_lt l ->
  StronglySorted key_lt (range_of start end_ l).
Proof. intros Hl. rewrite range_of_filter by done. by do 2 apply sorted_filter. Qed.

(** ** The end of a prefix scan *)

Definition bytes_ok (b : bytes) : Prop := Forall (fun x => x < 256) b.

#[export] Instance bytes_ok_dec b : Decision (bytes_ok b).
Proof. unfold bytes_ok. apply _. Defined.

(** [next_prefix] from the first byte on. *)
Fixpoint increment (p : bytes) : option bytes :=
  match p with
  | [] => None
  | x :: p' => match increment p' with
               | Some n => Some (x :: n)
               | None => if x <? 255 then Some (x + 1 :: replicate (length p') 0) else None
               end
  end.

Lemma increment_rev_snoc r x :
  increment_rev (r ++ [x]) =
  match increment_rev r with
  | Some n => Some (n ++ [x])
  | None => if x <? 255 then Some (replicate (length r) 0 ++ [x + 1]) else None
  end.
Proof.
  induction r as [|b r IH]; [done|]. cbn [app increment_rev]. destruct (b <? 255) eqn:E; [done|].
  rewrite IH. destruct (increment_rev r); [done|]. by destruct (x <? 255).
Qed.

Lemma rev_replicate {A} n (x : A) : rev (replicate n x) = replicate n x.
Proof. induction n as [|n IH]; [done|]. cbn [replicate rev]. rewrite IH. symmetry. apply replicate_S_end. Qed.

Lemma increment_rev_increment p : increment_rev (rev p) = rev (A := N) <$> increment p.
Proof.
  induction p as [|x p IH]; [done|]. cbn [rev increment]. rewrite increment_rev_snoc, IH.
  destruct (increment p); [done|]. cbn. destruct (x <? 255); [|done]. cbn.
  by rewrite length_rev, rev_replicate.
Qed.

Lemma next_prefix_increment p n : increment p = Some n -> next_prefix p = n.
Proof. intros E. unfold next_prefix. rewrite increment_rev_increment, E. cbn. apply rev_involutive. Qed.

(** A key that is not below bytes that are all 255 starts with them. *)
Lemma increment_None_prefix p k : bytes_ok p -> bytes_ok k -> increment p = None ->
  key_ltb k p = false -> exists s, k = p ++ s.
Proof.
  revert k. induction p as [|x p IH]; intros k Hp Hk Hn Hle; [by exists k|].
  apply Forall_cons_1 in Hp as [Hx Hp]. cbn [increment] in Hn.
  destruct (increment p) eqn:E; [done|]. destruct (N.ltb_spec x 255); [done|].
  destruct k as [|y k]; [done|]. apply Forall_cons_1 in Hk as [Hy Hk]. cbn in Hle.
  destruct (N.eqb_spec y x) as [->|Hne]; [|bool_to_prop; lia].
  destruct (IH k Hp Hk eq_refl Hle) as [s ->]. by exists s.
Qed.

Lemma key_ltb_zeros k m : key_ltb k (replicate m 0) = true -> (length k < m)%nat.
Proof.
  revert m. induction k as [|y k IH]; intros [|m]; try done; [cbn; lia|]. cbn [replicate].
  rewrite key_ltb_cons. intros [|[-> Hk]]; [lia|]. specialize (IH m Hk). cbn. lia.
Qed.

Lemma scan_only_prefix p n k : bytes_ok p -> bytes_ok k -> increment p = Some n ->
  key_ltb k p = false -> key_ltb k n = true -> (length p < length k)%nat -> exists s, k = p ++ s.
Proof.
  revert n k. induction p as [|x p IH]; intros n k Hp Hk Hn Hle Hlt Hlen; [by exists k|].
  apply Forall_cons_1 in Hp as [Hx Hp]. destruct k as [|y k]; [done|]. apply Forall_cons_1 in Hk as [Hy Hk].
  cbn [length increment] in Hlen, Hn. destruct (increment p) as [n'|] eqn:E.
  - injection Hn as <-. apply key_ltb_cons in Hlt. cbn in Hle.
    destruct (N.eqb_spec y x) as [->|Hne]; [|bool_to_prop; lia].
    destruct (IH n' k) as [s ->]; [done..|naive_solver lia|lia|]. by exists s.
  - destruct (N.ltb_spec x 255); [|done]. injection Hn as <-. apply key_ltb_cons in Hlt. cbn in Hle.
    destruct (N.eqb_spec y x) as [->|Hne].
    + destruct (increment_None_prefix p k) as [s ->]; [done..|]. by exists s.
    + bool_to_prop. destruct Hlt as [|[-> Hz]]; [lia|]. apply key_ltb_zeros in Hz. lia.
Qed.

Lemma scan_all_prefix p n s : increment p = Some n ->
  key_ltb (p ++ s) p = false /\ key_ltb (p ++ s) n = true.
Proof.
  revert n. induction p as [|x p IH]; intros n Hn; [done|]. cbn [increment] in Hn.
  destruct (increment p) as [n'|] eqn:E.
  - injection Hn as <-. destruct (IH n' eq_refl) as [H1 H2]. cbn. by rewrite !N.eqb_refl.
  - destruct (N.ltb_spec x 255); [|done]. injection Hn as <-. split.
    + rewrite <- (app_nil_r (x :: p)) at 2. rewrite key_ltb_prefix. by destruct s.
    + apply key_ltb_cons. left. lia.
Qed.

(** A prefix that has a byte below 255 has an end. *)
Lemma increment_Some p : Exists (fun x => x < 255) p -> is_Some (increment p).
Proof.
  induction 1 as [x p Hx|x p _ [n IH]]; cbn.
  - destruct (increment p); [by eexists|]. rewrite (proj2 (N.ltb_lt _ _)) by done. by eexists.
  - rewrite IH. by eexists.
Qed.

(** A scan from a prefix to [next_prefix] of it finds the keys that continue
    the prefix; a shorter key that falls into the range is dropped by the
    check of the length. *)
Lemma prefix_scan p k : bytes_ok p -> bytes_ok k -> Exists (fun x => x < 255) p ->
  (key_ltb k p = false /\ key_ltb k (next_prefix p) = true /\ (length p < length k)%nat <->
   exists s, s <> [] /\ k = p ++ s).
Proof.
  intros Hp Hk [n Hn]%increment_Some. rewrite (next_prefix_increment _ _ Hn). split.
  - intros (H1 & H2 & H3). destruct (scan_only_prefix p n k) as [s ->]; [done..|].
    exists s. split; [|done]. intros ->. rewrite length_app in H3. cbn in H3. lia.
  - intros (s & Hs & ->). destruct (scan_all_prefix p n s Hn). rewrite length_app.
    destruct s; [done|]. cbn [length]. split_and!; [done..|lia].
Qed.

(** ** Lawful databases *)

(** The keys of nodes have fifty bytes. *)
Definition partition_ok (pk : DbPartitionKey) : Prop :=
  bytes_ok (pk_node_key pk) /\ length (pk_node_key pk) = 50%nat /\ pk_partition_num pk < 256.

(** The sort keys from [from] on. *)
Definition from_ok (from : option DbSortKey) (sk : DbSortKey) : Prop :=
  match from with Some f => key_ltb sk f = false | None => True end.

(** What the engine relies on: the scan of a partition lists, in the order of
    their sort keys and once each, exactly the substates single reads find. *)
Class LawfulDatabase (db : SubstateDatabase) : Prop := {
  list_sorted pk from : partition_ok pk -> StronglySorted key_lt (list_raw_values_from_db_key db pk from);
  list_exact pk from sk v : partition_ok pk ->
    (sk, v) ∈ list_raw_values_from_db_key db pk from <->
    sk <> [] /\ get_raw_substate_by_db_key db pk sk = Some v /\ from_ok from sk
}.

Lemma partition_prefix_ok pk : partition_ok pk ->
  bytes_ok (partition_prefix pk) /\ Exists (fun x => x < 255) (partition_prefix pk).
Proof.
  intros (Hk & _ & Hn). unfold partition_prefix. split.
  - apply Forall_app. split; [apply (bool_decide_unpack _); vm_compute; reflexivity|].
    apply Forall_app. split; [done|]. by apply Forall_singleton.
  - apply Exists_app. left. apply (bool_decide_unpack _); vm_compute; reflexivity.
Qed.

Lemma storage_key_prefix pk sk : to_storage_key pk sk = partition_prefix pk ++ sk.
Proof. unfold to_storage_key, partition_prefix. by rewrite <- !app_assoc. Qed.

(** The keys of a scan of a partition, apart from short ones. *)
Lemma scan_keys {A} (m : list (bytes * A)) p from e :
  StronglySorted key_lt m -> Forall (fun e => bytes_ok e.1) m ->
  bytes_ok p -> Exists (fun x => x < 255) p -> (length p < length e.1)%nat ->
  e ∈ range_of (scan_start p from) (next_prefix p) m <->
  e ∈ m /\ exists s, s <> [] /\ e.1 = p ++ s /\ from_ok from s.
Proof.
  intros Hm Hok Hp He Hlen. rewrite Forall_forall in Hok. rewrite elem_of_range by done.
  assert (forall s, key_ltb (p ++ s) (scan_start p from) = false <-> from_ok from s) as Hfrom.
  { intros s. destruct from as [f|]; cbn [scan_start from_ok]; [by rewrite key_ltb_prefix|].
    pose proof (key_ltb_prefix p s []) as E. rewrite app_nil_r in E. rewrite E. by destruct s. }
  split; intros [Hin Hr]; (split; [done|]).
  - destruct Hr as [Hs Ht]. assert (key_ltb e.1 p = false) as Hkp.
    { destruct from as [f|]; [|done]. cbn in Hs. apply not_true_is_false. intros Hc.
      destruct (increment_Some p He) as [n Hn]. destruct (scan_all_prefix p n f Hn) as [Hge _].
      destruct (key_ltb p (p ++ f)) eqn:Hpf.
      - pose proof (key_ltb_trans _ _ _ Hc Hpf). congruence.
      - rewrite <- (key_ltb_total _ _ Hpf Hge) in Hs. congruence. }
    destruct (proj1 (prefix_scan p e.1 Hp (Hok _ Hin) He)) as (s & Hs0 & E); [done|].
    exists s. split_and!; [done..|]. apply Hfrom. by rewrite <- E.
  - destruct Hr as (s & Hs & E & Hf). split; [rewrite E; by apply Hfrom|].
    apply (prefix_scan p e.1 Hp (Hok _ Hin) He). by exists s.
Qed.

Lemma strip_prefix_Some {A} n (e : bytes * A) x : strip_prefix n e = Some x <->
  (n < length e.1)%nat /\ x = (drop n e.1, e.2).
Proof. unfold strip_prefix. destruct (Nat.ltb_spec n (length e.1)); naive_solver lia. Qed.

Section scans.
Context {A : Type} (m : list (bytes * A)) (pk : DbPartitionKey) (from : option DbSortKey).
Hypothesis (Hm : StronglySorted key_lt m) (Hok : Forall (fun e => bytes_ok e.1) m) (Hpk : partition_ok pk).

Definition stripped_scan : list (bytes * A) :=
  filter_map (strip_prefix (length (partition_prefix pk)))
    (range_of (scan_start (partition_prefix pk) from) (next_prefix (partition_prefix pk)) m).

Lemma strip_scan_exact sk v :
  (sk, v) ∈ stripped_scan <-> sk <> [] /\ (to_storage_key pk sk, v) ∈ m /\ from_ok from sk.
Proof.
  destruct (partition_prefix_ok pk Hpk) as [Hp He]. rewrite storage_key_prefix. unfold stripped_scan.
  revert Hp He. generalize (partition_prefix pk) as p. intros p Hp He. rewrite list_elem_of_omap. split.
  - intros (e & Hin & (Hlen & [= -> ->])%strip_prefix_Some).
    apply scan_keys in Hin as (Hin & s & Hs & E & Hf); [|done..]. rewrite E, drop_app_length.
    split_and!; [done| |done]. rewrite <- E. by destruct e.
  - intros (Hne & Hin & Hf). exists (p ++ sk, v).
    assert (length p < length (p ++ sk))%nat as Hlen.
    { rewrite length_app. destruct sk; [done|cbn; lia]. }
    rewrite scan_keys by done. rewrite strip_prefix_Some. cbn [fst snd]. rewrite drop_app_length.
    split_and!; [done|by exists sk|done..].
Qed.

Lemma strip_scan_sorted : StronglySorted key_lt stripped_scan.
Proof.
  destruct (partition_prefix_ok pk Hpk) as [Hp He]. unfold stripped_scan.
  revert Hp He. generalize (partition_prefix pk) as p. intros p Hp He.
  assert (forall e x, e ∈ range_of (scan_start p from) (next_prefix p) m ->
    strip_prefix (length p) e = Some x -> e.1 = p ++ x.1) as Hshape.
  { intros e x Hin (Hlen & ->)%strip_prefix_Some.
    apply scan_keys in Hin as (Hin & s & Hs & E & Hf); [|done..]. cbn. by rewrite E, drop_app_length. }
  pose proof (range_sorted (scan_start p from) (next_prefix p) m Hm) as Hs.
  revert Hs Hshape. generalize (range_of (scan_start p from)
    (next_prefix p) m) as l. induction 1 as [|e l Hl IH He1]; intros Hshape; [constructor|].
  cbn. assert (StronglySorted key_lt (filter_map (strip_prefix (length p)) l)) as Hrest.
  { apply IH. intros. apply Hshape; [by right|done]. }
  destruct (strip_prefix _ e) as [x|] eqn:Ex; [|done]. constructor; [done|].
  rewrite Forall_forall in He1 |- *. intros y (e' & Hin & Ey)%list_elem_of_omap.
  specialize (He1 e' Hin). unfold key_lt in *.
  rewrite (Hshape e x), (Hshape e' y) in He1 by (done || by left || by right). by rewrite key_ltb_prefix in He1.
Qed.
End scans.

Definition keys_ok (d : Db) : Prop := map_Forall (fun k _ => bytes_ok k) (cf CfDefault d).

Lemma map_keys_ok {A} (m : gmap bytes A) : map_Forall (fun k _ => bytes_ok k) m ->
  Forall (fun e => bytes_ok e.1) (btree_entries m).
Proof. intros Hm. apply Forall_forall. intros [k v] Hin%elem_of_btree. by apply (Hm k v). Qed.

(** A scan of RocksDB lists exactly what single reads find. *)
Lemma rocksdb_lawful d : keys_ok d -> LawfulDatabase (rocksdb_substates d).
Proof.
  intros Hd. split.
  - intros pk from Hpk. apply (strip_scan_sorted (iterator_cf CfDefault d)); [|by apply map_keys_ok|done].
    apply iterator_sorted.
  - intros pk from sk v Hpk. cbn [get_raw_substate_by_db_key rocksdb_substates].
    rewrite <- elem_of_iterator_cf.
    apply (strip_scan_exact (iterator_cf CfDefault d)); [|by apply map_keys_ok|done]. apply iterator_sorted.
Qed.

(** ** Provisions *)

(** What a merge shows: provisions first. *)
Definition merged_view (base : list (bytes * bytes)) (prov : list (bytes * option bytes)) (e : bytes * bytes) : Prop :=
  (e.1, Some e.2) ∈ prov \/ (e ∈ base /\ e.1 ∉ prov.*1).

Lemma sorted_head {A} (x y : bytes * A) l : StronglySorted key_lt (x :: l) -> y ∈ l -> key_ltb x.1 y.1 = true.
Proof. intros [_ Hx]%StronglySorted_inv Hy. rewrite Forall_forall in Hx. by apply Hx. Qed.

(** One call of [next]: the item is the least of the view, and the rest of
    the lists shows the rest of it. *)
Definition next_ok (base : list (bytes * bytes)) (prov : list (bytes * option bytes))
    (r : option ((bytes * bytes) * list (bytes * bytes) * list (bytes * option bytes))) : Prop :=
  match r with
  | None => forall e, ~ merged_view base prov e
  | Some (item, base', prov') =>
      (forall e, merged_view base prov e <-> e = item \/ merged_view base' prov' e) /\
      (forall e, merged_view base' prov' e -> key_lt item e) /\
      StronglySorted key_lt base' /\ StronglySorted key_lt prov' /\
      (length base' + length prov' < length base + length prov)%nat
  end.

Lemma next_ok_skip base prov base' prov' r :
  (forall e, merged_view base' prov' e <-> merged_view base prov e) ->
  (length base' + length prov' <= length base + length prov)%nat ->
  next_ok base' prov' r -> next_ok base prov r.
Proof.
  intros Hv Hl. destruct r as [[[item b] p]|]; cbn.
  - intros (H1 & H2 & H3 & H4 & H5). split_and!; [|done..|lia]. intros e. by rewrite <- Hv.
  - intros H1 e. rewrite <- Hv. apply H1.
Qed.

(** All keys of a list lie above [k]. *)
Definition above {A} (k : bytes) (l : list (bytes * A)) : Prop := forall e, e ∈ l -> key_ltb k e.1 = true.

Lemma above_not_in {A} k (l : list (bytes * A)) : above k l -> k ∉ l.*1.
Proof.
  intros Ha ([z w] & -> & Hz)%list_elem_of_fmap. specialize (Ha _ Hz). cbn in Ha. by rewrite key_ltb_irrefl in Ha.
Qed.

Lemma sorted_above {A} (x : bytes * A) l k : StronglySorted key_lt (x :: l) -> key_ltb k x.1 = true ->
  above k (x :: l).
Proof.
  intros Hs Hk e [->|He]%elem_of_cons; [done|]. apply (key_ltb_trans _ _ _ Hk). by apply (sorted_head _ _ _ Hs).
Qed.

Lemma view_above base prov k e : above k base -> above k prov -> merged_view base prov e -> key_ltb k e.1 = true.
Proof. intros Hb Hp [He|[He _]]; [by apply (Hp _ He)|by apply Hb]. Qed.

Lemma next_ok_provision base prov k v : StronglySorted key_lt base -> StronglySorted key_lt ((k, Some v) :: prov) ->
  above k base -> next_ok base ((k, Some v) :: prov) (Some ((k, v), base, prov)).
Proof.
  intros Hb Hp Hk. assert (above k prov) as Hkp by (intros e; apply (sorted_head _ _ _ Hp)).
  pose proof (above_not_in _ _ Hk) as Hn. pose proof (above_not_in _ _ Hkp) as Hnp.
  cbn [next_ok]. split_and!; [|intros e Hv; exact (view_above _ _ _ _ Hk Hkp Hv)|done|exact (proj1 (StronglySorted_inv Hp))|cbn; lia].
  intros [x y]. unfold merged_view. cbn. rewrite !elem_of_cons. split.
  - intros [[[= -> ->]|?]|[? Hno]]; [by left|by right; left|right; right; naive_solver].
  - intros [[= -> ->]|[?|[Hin ?]]]; [by left; left|by left; right|]. right. split; [done|].
    intros [->|?]; [|done]. apply Hn. by apply (list_elem_of_fmap_2 fst) in Hin.
Qed.

Lemma view_deleted base prov k e : above k base ->
  merged_view base prov e <-> merged_view base ((k, None) :: prov) e.
Proof.
  intros Hn%above_not_in. unfold merged_view. cbn. rewrite elem_of_cons, not_elem_of_cons. split.
  - intros [?|[Hin ?]]; [by left; right|]. right. split_and!; [done| |done].
    intros E. apply Hn. rewrite <- E. by apply (list_elem_of_fmap_2 fst).
  - intros [[?|?]|[? [_ ?]]]; [done|by left|by right].
Qed.

Lemma view_shadowed base prov k w v e :
  merged_view base ((k, v) :: prov) e <-> merged_view ((k, w) :: base) ((k, v) :: prov) e.
Proof.
  unfold merged_view. rewrite (elem_of_cons base). split; [naive_solver|].
  intros [?|[[->|?] Hn]]; [by left| |by right]. destruct Hn. cbn. by left.
Qed.

Lemma next_ok_base base prov k w : StronglySorted key_lt ((k, w) :: base) -> StronglySorted key_lt prov ->
  above k prov -> next_ok ((k, w) :: base) prov (Some ((k, w), base, prov)).
Proof.
  intros Hb Hp Hk. assert (above k base) as Hkb by (intros e; apply (sorted_head _ _ _ Hb)).
  pose proof (above_not_in _ _ Hk) as Hn.
  cbn [next_ok]. split_and!; [|intros e Hv; exact (view_above _ _ _ _ Hkb Hk Hv)|exact (proj1 (StronglySorted_inv Hb))|done|cbn; lia].
  intros e. unfold merged_view. rewrite elem_of_cons. split; [naive_solver|].
  intros [->|[?|[? ?]]]; [right; by split; [left|]|by left|right; split; auto].
Qed.

Lemma merged_next_ok base prov : StronglySorted key_lt base -> StronglySorted key_lt prov ->
  next_ok base prov (merged_next base prov).
Proof.
  revert base. induction prov as [|[pk pv] prov IH]; intros base Hb Hp.
  { destruct base as [|[bk bv] base]; cbn [merged_next]; [|apply next_ok_base; [done..|]].
    - unfold next_ok, merged_view. set_solver.
    - intros e He. by apply not_elem_of_nil in He. }
  pose proof (StronglySorted_inv Hp) as [Hp' _].
  assert (forall base, StronglySorted key_lt base -> above pk base ->
    next_ok base ((pk, pv) :: prov)
      match pv with Some v => Some ((pk, v), base, prov) | None => merged_next base prov end) as Htake.
  { intros base0 Hb0 Ha. destruct pv as [v|]; [by apply next_ok_provision|].
    eapply next_ok_skip; [intros e; by apply view_deleted|cbn; lia|by apply IH]. }
  destruct base as [|[bk bv] base]; cbn [merged_next].
  { apply Htake; [done|]. intros e He. by apply not_elem_of_nil in He. }
  pose proof (StronglySorted_inv Hb) as [Hb' _]. destruct (key_ltb bk pk) eqn:Hlt; [|case_bool_decide as Heq].
  - apply next_ok_base; [done..|]. by apply (sorted_above _ _ _ Hp).
  - subst bk. eapply next_ok_skip; [intros e; apply view_shadowed|cbn; lia|]. apply Htake; [done|].
    intros e. apply (sorted_head _ _ _ Hb).
  - apply Htake; [done|]. apply (sorted_above _ _ _ Hb). cbn. apply not_false_is_true. intros Hf.
    apply Heq. by apply key_ltb_total.
Qed.

(** The merged list is sorted and shows the view: the fuel is enough. *)
Lemma collect_merged_ok fuel base prov : StronglySorted key_lt base -> StronglySorted key_lt prov ->
  (length base + length prov <= fuel)%nat ->
  StronglySorted key_lt (collect_merged fuel base prov) /\
  forall e, e ∈ collect_merged fuel base prov <-> merged_view base prov e.
Proof.
  revert base prov. induction fuel as [|fuel IH]; intros base prov Hb Hp Hf.
  - destruct base, prov; try (cbn in Hf; lia). split; [constructor|]. unfold merged_view. set_solver.
  - cbn [collect_merged]. pose proof (merged_next_ok base prov Hb Hp) as Hn.
    destruct (merged_next base prov) as [[[item base'] prov']|]; cbn in Hn.
    + destruct Hn as (Hv & Hlt & Hb' & Hp' & Hl). destruct (IH base' prov') as [IHs IHe]; [done..|lia|].
      split; [constructor; [done|]|].
      * apply Forall_forall. intros e He%IHe. by apply Hlt.
      * intros e. by rewrite elem_of_cons, IHe, Hv.
    + split; [constructor|]. intros e. split; [by intros ?%not_elem_of_nil|]. intros He. by destruct (Hn e).
Qed.

(** A database with provisions over it lists what single reads find, provided
    the database below does. *)
Lemma provisioned_lawful base m : LawfulDatabase base -> map_Forall (fun k _ => bytes_ok k) m ->
  LawfulDatabase (provisioned_snapshot base m).
Proof.
  intros Hbase Hm. assert (forall pk from, partition_ok pk ->
    let l := list_raw_values_from_db_key (provisioned_snapshot base m) pk from in
    StronglySorted key_lt l /\
    forall e, e ∈ l <-> merged_view (list_raw_values_from_db_key base pk from) (stripped_scan (btree_entries m) pk from) e)
    as Hl.
  { intros pk from Hpk. cbn [list_raw_values_from_db_key provisioned_snapshot]. fold (stripped_scan (btree_entries m) pk from).
    pose proof (list_sorted pk from Hpk) as Hs.
    pose proof (strip_scan_sorted _ pk from (btree_sorted m) (map_keys_ok m Hm) Hpk) as Hp.
    destruct (stripped_scan (btree_entries m) pk from) as [|e0 prov] eqn:E.
    - split; [done|]. intros e. unfold merged_view. set_solver.
    - apply collect_merged_ok; [done..|lia]. }
  split; [intros pk from Hpk; by apply Hl|]. intros pk from sk v Hpk.
  rewrite (proj2 (Hl pk from Hpk)). unfold merged_view. cbn [fst snd].
  assert (forall w, (sk, w) ∈ stripped_scan (btree_entries m) pk from <->
    sk <> [] /\ m !! to_storage_key pk sk = Some w /\ from_ok from sk) as Hp.
  { intros w. rewrite <- elem_of_btree. apply strip_scan_exact; [apply btree_sorted|by apply map_keys_ok|done]. }
  rewrite Hp, list_exact by done. cbn [get_raw_substate_by_db_key provisioned_snapshot].
  assert (sk ∈ (stripped_scan (btree_entries m) pk from).*1 <->
    sk <> [] /\ is_Some (m !! to_storage_key pk sk) /\ from_ok from sk) as ->.
  { rewrite list_elem_of_fmap. split.
    - intros ([? w] & -> & Hin%Hp). cbn in *. destruct Hin as (? & ? & ?). eauto.
    - intros (? & [w ?] & ?). exists (sk, w). split; [done|]. by apply Hp. }
  destruct (m !! to_storage_key pk sk) as [w|]; naive_solver.
Qed.

(** ** Databases that answer alike *)

Definition db_equiv (db1 db2 : SubstateDatabase) : Prop := forall pk, partition_ok pk ->
  (forall sk, get_raw_substate_by_db_key db1 pk sk = get_raw_substate_by_db_key db2 pk sk) /\
  (forall from, list_raw_values_from_db_key db1 pk from = list_raw_values_from_db_key db2 pk from).

#[export] Instance db_equiv_equivalence : Equivalence db_equiv.
Proof.
  split.
  - intros db pk Hpk. done.
  - intros db1 db2 H12 pk Hpk. destruct (H12 pk Hpk). done.
  - intros db1 db2 db3 H12 H23 pk Hpk. destruct (H12 pk Hpk), (H23 pk Hpk). split; congruence.
Qed.

Lemma key_lt_NoDup {A} (l : list (bytes * A)) : StronglySorted key_lt l -> NoDup l.
Proof.
  induction 1 as [|x l Hl IH Hx]; constructor; [|done]. intros Hin. rewrite Forall_forall in Hx.
  specialize (Hx x Hin). unfold key_lt in Hx. by rewrite key_ltb_irrefl in Hx.
Qed.

Lemma key_lt_unique {A} (l1 l2 : list (bytes * A)) : StronglySorted key_lt l1 -> StronglySorted key_lt l2 ->
  (forall e, e ∈ l1 <-> e ∈ l2) -> l1 = l2.
Proof.
  intros H1 H2 He. apply (StronglySorted_unique_strong key_lt); [|done..|].
  - intros x y _ _ Hxy Hyx. unfold key_lt in *. pose proof (key_ltb_asym _ _ Hxy). congruence.
  - apply NoDup_Permutation; [by apply key_lt_NoDup..|done].
Qed.

(** For lawful databases the single reads determine the scans. *)
Lemma lawful_equiv db1 db2 : LawfulDatabase db1 -> LawfulDatabase db2 ->
  (forall pk sk, partition_ok pk -> get_raw_substate_by_db_key db1 pk sk = get_raw_substate_by_db_key db2 pk sk) ->
  db_equiv db1 db2.
Proof.
  intros H1 H2 Hget pk Hpk. split; [intros sk; by apply Hget|]. intros from.
  apply key_lt_unique; [by apply list_sorted..|]. intros [sk v]. rewrite !list_exact by done. by rewrite Hget.
Qed.
