(* ===== verification/CrossShard.v ===== *)
(** * Execution across shards (crates/engine)

    What one shard fetches for another, when two shards execute a transaction
    alike, and the writes that come out of it. *)

From stdpp Require Import base gmap list numbers sorting.
From Stdlib Require Import NArith Lia.
From S2P Require Import Prelude Bitfield Types Encoding Topology Transactions Livelock ExecutionRunner.
From S2P Require Import Sbor BftState Storage StorageChain Substates SubstateTheory.

Definition is_node (n : NodeId) : Prop := n < 256 ^ 30.

(** Documented behaviour of the Radix crates: a node key is a hash of twenty
    bytes and the thirty bytes of the node, partitions keep their number, and
    the engine is a function of what it reads. *)
Class RadixLaws `{Radix} : Prop := {
  node_key_shape n : exists h, length h = 20%nat /\ bytes_ok h /\ to_db_node_key n = h ++ node_bytes n;
  partition_num_same p : to_db_partition_num p = p;
  execute_transaction_proper db1 db2 tx : db_equiv db1 db2 ->
    execute_transaction db1 tx = execute_transaction db2 tx
}.

Lemma le_bytes_ok k n : bytes_ok (le_bytes k n).
Proof.
  revert n. induction k as [|k IH]; intros n; [constructor|]. cbn [le_bytes]. constructor; [|apply IH].
  apply N.mod_lt. lia.
Qed.

Lemma node_bytes_ok n : bytes_ok (node_bytes n).
Proof. unfold node_bytes, bytes_ok. apply Forall_rev, le_bytes_ok. Qed.

Lemma length_node_bytes n : length (node_bytes n) = 30%nat.
Proof. unfold node_bytes. by rewrite length_rev, length_le_bytes. Qed.

Lemma node_bytes_inj n m : is_node n -> is_node m -> node_bytes n = node_bytes m -> n = m.
Proof.
  unfold node_bytes. intros Hn Hm Heq. apply (le_bytes_inj 30); [done..|].
  by rewrite <- (rev_involutive (le_bytes 30 n)), <- (rev_involutive (le_bytes 30 m)), Heq.
Qed.

Lemma node_of_bytes n : is_node n -> from_le_bytes (rev (node_bytes n)) = n.
Proof.
  intros Hn. unfold node_bytes. rewrite rev_involutive. by apply from_le_bytes_le_bytes.
Qed.

Section laws.
Context `{RX : Radix} `{RL : !RadixLaws}.

Lemma length_node_key n : length (to_db_node_key n) = 50%nat.
Proof. destruct (node_key_shape n) as (h & Hl & _ & ->). by rewrite length_app, length_node_bytes, Hl. Qed.

Lemma node_key_ok n : bytes_ok (to_db_node_key n).
Proof. destruct (node_key_shape n) as (h & _ & Hh & ->). apply Forall_app. split; [done|apply node_bytes_ok]. Qed.

Lemma node_key_suffix n : drop 20 (to_db_node_key n) = node_bytes n.
Proof. destruct (node_key_shape n) as (h & Hl & _ & ->). rewrite <- Hl. apply drop_app_length. Qed.

Lemma node_key_inj n m : is_node n -> is_node m -> to_db_node_key n = to_db_node_key m -> n = m.
Proof. intros Hn Hm E. apply node_bytes_inj; [done..|]. rewrite <- !node_key_suffix. by rewrite E. Qed.

Lemma node_of_node_key n : is_node n -> node_of_db_key (to_db_node_key n) = Some n.
Proof.
  intros Hn. unfold node_of_db_key. rewrite length_node_key, node_key_suffix. cbn [Nat.leb].
  rewrite take_ge by (by rewrite length_node_bytes). by rewrite node_of_bytes.
Qed.

(** The key of a partition of a node. *)
Definition partition_of (n : NodeId) (p : N) : DbPartitionKey := mk_partition_key (to_db_node_key n) p.

Lemma node_prefix_ok n : bytes_ok (node_prefix n) /\ Exists (fun x => x < 255) (node_prefix n).
Proof.
  unfold node_prefix. split.
  - apply Forall_app. split; [apply (bool_decide_unpack _); vm_compute; reflexivity|apply node_key_ok].
  - apply Exists_app. left. apply (bool_decide_unpack _); vm_compute; reflexivity.
Qed.

Lemma storage_key_node n p sk : to_storage_key (partition_of n p) sk = node_prefix n ++ p :: sk.
Proof.
  unfold to_storage_key, node_prefix, partition_of. cbn [pk_node_key pk_partition_num].
  by rewrite <- app_assoc.
Qed.

(** ** Fetching *)

Lemma list_substates_exact d n p sk v : keys_ok d ->
  (p, sk, v) ∈ list_substates_for_node d n <-> cf CfDefault d !! to_storage_key (partition_of n p) sk = Some v.
Proof.
  intros Hd. destruct (node_prefix_ok n) as [Hp He]. unfold list_substates_for_node.
  rewrite storage_key_node, <- elem_of_iterator_cf, list_elem_of_omap.
  pose proof (iterator_sorted CfDefault d) as Hs. pose proof (map_keys_ok _ Hd) as Hk.
  revert Hp He. generalize (node_prefix n) as pre. intros pre Hp He.
  assert (forall e, (length pre < length e.1)%nat -> e ∈ iter_range d pre (next_prefix pre) <->
    e ∈ iterator_cf CfDefault d /\ exists s, s <> [] /\ e.1 = pre ++ s /\ True) as Hscan.
  { intros e Hlen. apply (scan_keys _ pre None); done. }
  split.
  - intros (e & Hin & E). destruct (strip_prefix (length pre) e) as [[[|p' sk'] v']|] eqn:Ex; [done| |done].
    injection E as -> -> ->. apply strip_prefix_Some in Ex as (Hlen & Ex). apply Hscan in Hin as (Hin & s & _ & E & _); [|done].
    rewrite E, drop_app_length in Ex. injection Ex as <- ->. destruct e. cbn in *. by subst.
  - intros Hin. exists (pre ++ p :: sk, v).
    assert (length pre < length (pre ++ p :: sk))%nat as Hlen by (rewrite length_app; cbn; lia).
    rewrite Hscan by done. rewrite (proj2 (strip_prefix_Some _ _ (p :: sk, v))); [|split; [done|]; cbn [fst snd]; by rewrite drop_app_length].
    split; [|done]. split; [done|]. by exists (p :: sk).
Qed.

(** The entries that are fetched for a list of nodes. *)
Lemma fetched_exact d nodes e : keys_ok d ->
  e ∈ fetch_state_entries d nodes <->
  exists n p sk v, n ∈ nodes /\ cf CfDefault d !! to_storage_key (partition_of n p) sk = Some v /\
    e = mk_state_entry (to_storage_key (partition_of n p) sk) (Some v).
Proof.
  intros Hd. unfold fetch_state_entries. rewrite list_elem_of_bind. split.
  - intros (n & He & Hn). apply list_elem_of_fmap in He as ([[p sk] v] & -> & Hin).
    apply list_substates_exact in Hin; [|done]. by exists n, p, sk, v.
  - intros (n & p & sk & v & Hn & Hv & ->). exists n. split; [|done].
    apply list_elem_of_fmap. exists (p, sk, v). split; [done|]. by apply list_substates_exact.
Qed.

(** The livelock component finds out which node an entry is about: for
    every entry that the executor fetches for a node, [StateEntry::node_id]
    is that node. *)
Theorem fetched_entry_names_node d nodes e : keys_ok d -> Forall is_node nodes ->
  e ∈ fetch_state_entries d nodes -> exists n, n ∈ nodes /\ entry_node_id e = Some n.
Proof.
  intros Hd Hnodes (n & p & sk & v & Hn & _ & ->)%fetched_exact; [|done]. exists n. split; [done|].
  rewrite Forall_forall in Hnodes. unfold entry_node_id. cbn [se_storage_key]. rewrite storage_key_node. unfold node_prefix.
  rewrite <- app_assoc. rewrite !length_app, length_node_key. cbn [length RADIX_PREFIX].
  rewrite (proj2 (Nat.leb_le _ _)) by (cbn; lia).
  replace (RADIX_PREFIX_LEN + HASH_PREFIX_LEN)%nat with (6 + 20)%nat by done. rewrite <- drop_drop.
  rewrite (drop_app_length' RADIX_PREFIX) by done. rewrite drop_app_le by (rewrite length_node_key; lia).
  rewrite node_key_suffix, take_app_length' by (by rewrite length_node_bytes). f_equal. by apply node_of_bytes, Hnodes.
Qed.

(** ** Provisions of several shards *)

Lemma provisions_of_None es k : (forall e, e ∈ es -> se_storage_key e <> k) -> provisions_of es !! k = None.
Proof.
  intros Hk. unfold provisions_of. assert (forall m : gmap bytes (option bytes), m !! k = None ->
    foldl (fun m e => <[se_storage_key e := se_value e]> m) m es !! k = None) as H; [|by apply H].
  induction es as [|e es IH]; intros m Hm; [done|]. cbn [foldl]. apply IH; [set_solver|].
  rewrite lookup_insert_ne; [done|]. apply Hk. by left.
Qed.

Lemma provisions_of_Some es k w : (exists e, e ∈ es /\ se_storage_key e = k) ->
  (forall e, e ∈ es -> se_storage_key e = k -> se_value e = w) -> provisions_of es !! k = Some w.
Proof.
  induction es as [|e es IH] using rev_ind; intros (e' & He' & Hk') Hall; [by apply not_elem_of_nil in He'|].
  unfold provisions_of in *. rewrite foldl_app. cbn [foldl].
  destruct (decide (se_storage_key e = k)) as [<-|Hne].
  - rewrite lookup_insert_eq. f_equal. apply Hall; [set_solver|done].
  - rewrite lookup_insert_ne by done. apply IH; [|set_solver]. exists e'. split; [|done].
    apply elem_of_app in He' as [?|He'%list_elem_of_singleton]; [done|]. by subst.
Qed.

Lemma provisions_of_keys es : Forall (fun e => bytes_ok (se_storage_key e)) es ->
  map_Forall (fun k _ => bytes_ok k) (provisions_of es).
Proof.
  intros Hes. unfold provisions_of.
  assert (forall m : gmap bytes (option bytes), map_Forall (fun k _ => bytes_ok k) m ->
    map_Forall (fun k _ => bytes_ok k) (foldl (fun m e => <[se_storage_key e := se_value e]> m) m es)) as H.
  { induction Hes as [|e es He _ IH]; intros m Hm; [done|]. cbn [foldl]. apply IH. by apply map_Forall_insert_2. }
  apply H, map_Forall_empty.
Qed.

Section shards.
(** The participating shards with their databases and the nodes of the
    transaction they hold. *)
Context (ps : list ShardGroupId) (st : ShardGroupId -> Db) (nodes : ShardGroupId -> list NodeId).
Hypothesis Hkeys : forall k, k ∈ ps -> keys_ok (st k).
Hypothesis Hnodes : forall k, k ∈ ps -> Forall is_node (nodes k).
Hypothesis Hdisjoint : forall k k' n, k ∈ ps -> k' ∈ ps -> n ∈ nodes k -> n ∈ nodes k' -> k = k'.

(** The entries a shard gets from the others. *)
Definition received (i : ShardGroupId) (es : list StateEntry) : Prop :=
  forall e, e ∈ es <-> exists k, k ∈ ps /\ k <> i /\ e ∈ fetch_state_entries (st k) (nodes k).

Lemma storage_key_inj n n' pk sk p' sk' : pk_node_key pk = to_db_node_key n ->
  to_storage_key pk sk = to_storage_key (partition_of n' p') sk' ->
  to_db_node_key n = to_db_node_key n' /\ pk = partition_of n p' /\ sk = sk'.
Proof.
  intros Hpk E. unfold to_storage_key, partition_of in E. cbn [pk_node_key pk_partition_num] in E.
  apply (inj (app RADIX_PREFIX)) in E. apply app_inj_1 in E as [E1 E2];
    [|by rewrite Hpk, !length_node_key]. injection E2 as E2 ->. destruct pk as [nk p]. cbn in *. subst.
  by rewrite <- E1.
Qed.

Lemma received_keys i es : received i es -> Forall (fun e => bytes_ok (se_storage_key e)) es.
Proof.
  intros Hes. apply Forall_forall. intros e (k & Hk & _ & He)%Hes.
  apply fetched_exact in He as (n & p & sk & v & _ & Hv & ->); [|by apply Hkeys].
  by apply (Hkeys k Hk _ v).
Qed.

(** For a node of another shard a read finds that shard's value, or the
    local one where that shard has none. *)
Lemma provisioned_read i k es n pk sk : received i es -> i ∈ ps -> k ∈ ps -> k <> i -> n ∈ nodes k ->
  pk_node_key pk = to_db_node_key n ->
  get_raw_substate_by_db_key (provisioned_snapshot (rocksdb_substates (st i)) (provisions_of es)) pk sk =
  match cf CfDefault (st k) !! to_storage_key pk sk with
  | Some v => Some v
  | None => cf CfDefault (st i) !! to_storage_key pk sk
  end.
Proof.
  intros Hes Hi Hk Hne Hn Hpk. cbn [get_raw_substate_by_db_key provisioned_snapshot rocksdb_substates].
  assert (is_node n) as Hin by (pose proof (Hnodes k Hk) as F; rewrite Forall_forall in F; by apply F).
  assert (forall e, e ∈ es -> se_storage_key e = to_storage_key pk sk ->
    exists v, se_value e = Some v /\ cf CfDefault (st k) !! to_storage_key pk sk = Some v) as Hval.
  { intros e (k' & Hk' & _ & He)%Hes E. apply fetched_exact in He as (n' & p' & sk' & v & Hn' & Hv & ->); [|by apply Hkeys].
    cbn in E |- *. destruct (storage_key_inj n n' pk sk p' sk') as (En & -> & ->); [done..|].
    assert (is_node n') as Hin' by (pose proof (Hnodes k' Hk') as F; rewrite Forall_forall in F; by apply F).
    apply node_key_inj in En; [|done..]. subst n'. rewrite (Hdisjoint k k' n) by done. by exists v. }
  destruct (cf CfDefault (st k) !! to_storage_key pk sk) as [v|] eqn:E.
  - rewrite (provisions_of_Some es _ (Some v)); [done| |].
    + exists (mk_state_entry (to_storage_key pk sk) (Some v)). split; [|done]. apply Hes. exists k.
      split_and!; [done..|]. apply fetched_exact; [by apply Hkeys|]. exists n, (pk_partition_num pk), sk, v.
      assert (partition_of n (pk_partition_num pk) = pk) as ->; [destruct pk; cbn in *; by subst|done].
    + intros e He Ee. destruct (Hval e He Ee) as (v' & Hv' & E'). congruence.
  - rewrite provisions_of_None; [done|]. intros e He Ee. destruct (Hval e He Ee) as (v' & _ & E'). congruence.
Qed.

(** For its own nodes, and for nodes that nobody sends, a shard reads its own
    database. *)
Lemma own_read i es pk sk : received i es -> i ∈ ps ->
  (forall k n, k ∈ ps -> k <> i -> n ∈ nodes k -> pk_node_key pk <> to_db_node_key n) ->
  length (pk_node_key pk) = 50%nat ->
  get_raw_substate_by_db_key (provisioned_snapshot (rocksdb_substates (st i)) (provisions_of es)) pk sk =
  cf CfDefault (st i) !! to_storage_key pk sk.
Proof.
  intros Hes Hi Hno Hlen. cbn [get_raw_substate_by_db_key provisioned_snapshot rocksdb_substates].
  rewrite provisions_of_None; [done|]. intros e (k & Hk & Hne & He)%Hes E.
  apply fetched_exact in He as (n & p & sk' & v & Hn & _ & ->); [|by apply Hkeys].
  apply (Hno k n Hk Hne Hn). cbn in E. unfold to_storage_key, partition_of in E. cbn [pk_node_key pk_partition_num] in E.
  apply (inj (app RADIX_PREFIX)) in E. apply app_inj_1 in E as [E1 _]; [done|]. by rewrite length_node_key, Hlen.
Qed.

(** No shard has a substate of a node that the node's own shard lacks, and the
    shards agree on the nodes that nobody sends. *)
Hypothesis Hnewer : forall k i n pk sk, k ∈ ps -> i ∈ ps -> n ∈ nodes k -> pk_node_key pk = to_db_node_key n ->
  is_Some (cf CfDefault (st i) !! to_storage_key pk sk) -> is_Some (cf CfDefault (st k) !! to_storage_key pk sk).
Hypothesis Hshared : forall i j pk sk, i ∈ ps -> j ∈ ps -> partition_ok pk ->
  (forall k n, k ∈ ps -> n ∈ nodes k -> pk_node_key pk <> to_db_node_key n) ->
  cf CfDefault (st i) !! to_storage_key pk sk = cf CfDefault (st j) !! to_storage_key pk sk.

(** A shard with its provisions reads the database of a node's owner. *)
Lemma owner_read i k es n pk sk : received i es -> i ∈ ps -> k ∈ ps -> n ∈ nodes k ->
  pk_node_key pk = to_db_node_key n -> partition_ok pk ->
  get_raw_substate_by_db_key (provisioned_snapshot (rocksdb_substates (st i)) (provisions_of es)) pk sk =
  cf CfDefault (st k) !! to_storage_key pk sk.
Proof.
  intros Hes Hi Hk Hn Hpk (_ & Hlen & _). destruct (decide (k = i)) as [->|Hne].
  - apply own_read; [done..| |done]. intros k' n' Hk' Hne' Hn' E. apply Hne', (Hdisjoint k' i n'); [done..|].
    pose proof (Hnodes k' Hk') as F'. pose proof (Hnodes i Hi) as F. rewrite Forall_forall in F, F'.
    rewrite (node_key_inj n' n); [done|by apply F'|by apply F|congruence].
  - rewrite (provisioned_read i k es n) by done.
    destruct (cf CfDefault (st k) !! to_storage_key pk sk) eqn:E; [done|].
    destruct (cf CfDefault (st i) !! to_storage_key pk sk) eqn:E'; [|done].
    destruct (Hnewer k i n pk sk) as [v Hv]; [done..|by eexists|congruence].
Qed.

Lemma views_agree i j es_i es_j : i ∈ ps -> j ∈ ps -> received i es_i -> received j es_j ->
  db_equiv (provisioned_snapshot (rocksdb_substates (st i)) (provisions_of es_i))
           (provisioned_snapshot (rocksdb_substates (st j)) (provisions_of es_j)).
Proof.
  intros Hi Hj Hei Hej. apply lawful_equiv.
  - apply provisioned_lawful; [by apply rocksdb_lawful, Hkeys|]. by apply provisions_of_keys, (received_keys i).
  - apply provisioned_lawful; [by apply rocksdb_lawful, Hkeys|]. by apply provisions_of_keys, (received_keys j).
  - intros pk sk Hpk.
    destruct (decide (Exists (fun k => Exists (fun n => pk_node_key pk = to_db_node_key n) (nodes k)) ps))
      as [(k & Hk & (n & Hn & E)%Exists_exists)%Exists_exists|Hno].
    + by rewrite !(owner_read _ k _ n) by done.
    + assert (forall k n, k ∈ ps -> n ∈ nodes k -> pk_node_key pk <> to_db_node_key n) as Hout.
      { intros k n Hk Hn E. apply Hno, Exists_exists. exists k. split; [done|]. apply Exists_exists. by exists n. }
      pose proof Hpk as (_ & Hlen & _). rewrite !own_read by eauto. by apply Hshared.
Qed.

End shards.
End laws.

(** ** A concrete engine *)

(** Node keys with a constant hash; a transaction adds up the values of the
    nodes it reads and writes the sum to the nodes it writes. *)
Definition sample_node_key (n : NodeId) : bytes := replicate 20 7 ++ node_bytes n.

Definition sample_read (db : SubstateDatabase) (n : NodeId) : N :=
  foldr N.add 0 ((fun e => foldr N.add 0 e.2) <$>
    list_raw_values_from_db_key db (mk_partition_key (sample_node_key n) 0) None).

Definition sample_execute (db : SubstateDatabase) (tx : RoutableTransaction) : TransactionReceipt :=
  let sum := foldr N.add 0 (sample_read db <$> rt_declared_reads tx) in
  ReceiptCommit ((fun n => (sample_node_key n, [(0, Delta [([1], SetValue [sum])])])) <$> rt_declared_writes tx).

Definition sample_radix : Radix := {|
  to_db_node_key := sample_node_key;
  to_db_partition_num p := p;
  ExecutableTransaction := RoutableTransaction;
  get_or_validate tx := Some tx;
  execute_transaction := sample_execute;
  describe_result _ := []
|}.

Lemma sample_radix_laws : @RadixLaws sample_radix.
Proof.
  split; [|done|].
  - intros n. exists (replicate 20 7). split_and!; [done| |done]. apply (bool_decide_unpack _); vm_compute; reflexivity.
  - intros db1 db2 tx Heq. cbn. unfold sample_execute.
    assert (sample_read db1 <$> rt_declared_reads tx = sample_read db2 <$> rt_declared_reads tx) as ->; [|done].
    apply list_fmap_ext. intros _ n _. unfold sample_read.
    destruct (Heq (mk_partition_key (sample_node_key n) 0)) as [_ ->]; [|done].
    split_and!; cbn [pk_node_key pk_partition_num]; [|unfold sample_node_key; by rewrite length_app, length_replicate, length_node_bytes|lia].
    apply Forall_app. split; [apply (bool_decide_unpack _); vm_compute; reflexivity|apply node_bytes_ok].
Qed.

(** Two shards with one node each. *)
Definition two_nodes (k : ShardGroupId) : list NodeId := if k =? 0 then [5] else [6].
Definition two_key (k : ShardGroupId) : bytes :=
  to_storage_key (mk_partition_key (sample_node_key (if k =? 0 then 5 else 6)) 0) [1].
Definition two_dbs (k : ShardGroupId) : Db := put CfDefault (two_key k) [10 + k] empty_db.
Definition two_provisions (k : ShardGroupId) : list StateProvision :=
  [mk_state_provision 3 k (1 - k) 1 0 (@fetch_state_entries sample_radix (two_dbs (1 - k)) (two_nodes (1 - k))) 0 0].
Definition two_tx : RoutableTransaction := mk_routable_transaction [] [5; 6] [5; 6] None 3.

Lemma two_dbs_lookup k key : cf CfDefault (two_dbs k) !! key = if decide (two_key k = key) then Some [10 + k] else None.
Proof.
  unfold two_dbs. rewrite cf_put_eq. case_decide as E; [subst; by rewrite lookup_insert_eq|].
  by rewrite lookup_insert_ne.
Qed.

Lemma two_key_node k n pk sk : pk_node_key pk = sample_node_key n -> two_key k = to_storage_key pk sk ->
  sample_node_key n = sample_node_key (if k =? 0 then 5 else 6).
Proof.
  intros Hpk E. symmetry in E.
  exact (proj1 (@storage_key_inj sample_radix sample_radix_laws n (if k =? 0 then 5 else 6) pk sk 0 [1] Hpk E)).
Qed.

Lemma two_key_nodes k pk sk : k ∈ [0; 1] -> length (pk_node_key pk) = 50%nat ->
  (forall k n, k ∈ [0; 1] -> n ∈ two_nodes k -> pk_node_key pk <> sample_node_key n) ->
  two_key k <> to_storage_key pk sk.
Proof.
  intros Hk Hlen Hno E. apply (Hno k (if k =? 0 then 5 else 6) Hk); [unfold two_nodes; case_match; by left|].
  unfold two_key, to_storage_key in E. cbn [pk_node_key pk_partition_num] in E.
  apply (inj (app RADIX_PREFIX)) in E. apply app_inj_1 in E as [E1 _]; [done|].
  rewrite Hlen. apply (@length_node_key sample_radix sample_radix_laws).
Qed.

Lemma two_received k : k ∈ [0; 1] -> @received sample_radix [0; 1] two_dbs two_nodes k (two_provisions k ≫= sp_entries).
Proof.
  intros Hk e. cbn [two_provisions mbind list_bind sp_entries]. rewrite app_nil_r. split.
  - intros He. exists (1 - k). split_and!; [set_solver|set_solver by lia|done].
  - intros (k' & Hk' & Hne & He). assert (k' = 1 - k) as ->; [|done]. set_solver by lia.
Qed.


Lemma fetched_entry_names_node_witness :
  exists n, n ∈ [5] /\ entry_node_id (mk_state_entry (two_key 0) (Some [10])) = Some n.
Proof.
  apply (@fetched_entry_names_node sample_radix sample_radix_laws (two_dbs 0) [5]).
  - apply (bool_decide_unpack _); vm_compute; reflexivity.
  - repeat constructor.
  - apply (bool_decide_unpack _); vm_compute; reflexivity.
Defined.
