(* ===== verification/StateWrites.v ===== *)
(** * The writes of a transaction (crates/engine/src/execution.rs)

    From the updates of a receipt to the writes of a certificate and back, and
    the commitment that is voted on. *)

From stdpp Require Import base gmap list numbers sorting.
From Stdlib Require Import NArith Lia.
From S2P Require Import Prelude Bitfield Types Encoding Topology Transactions ExecutionRunner.
From S2P Require Import Sbor BftState Storage StorageChain Substates SubstateTheory CrossShard.

(** ** The commitment *)

(** The key of a write. *)
Definition write_key (w : SubstateWrite) : bytes :=
  node_bytes (sw_node_id w) ++ [sw_partition w] ++ sw_sort_key w.

Lemma write_ltb_key a b : write_ltb a b = key_ltb (write_key a) (write_key b).
Proof.
  unfold write_ltb, write_key. rewrite key_ltb_app by (by rewrite !length_node_bytes).
  case_bool_decide; [rewrite decide_True by done|by rewrite decide_False by done]. cbn. by destruct (_ =? _).
Qed.

#[export] Instance write_le_trans : Transitive write_le.
Proof.
  intros a b c. unfold write_le. rewrite !write_ltb_key. intros H1 H2.
  exact (key_le_trans (write_key a, tt) (write_key b, tt) (write_key c, tt) H1 H2).
Qed.

#[export] Instance write_le_total : Total write_le.
Proof.
  intros a b. unfold write_le. rewrite !write_ltb_key.
  exact (key_le_total (write_key a, tt) (write_key b, tt)).
Qed.

(** The order in which writes are listed does not matter: writes to different
    substates have the same commitment in every order. *)
Lemma commitment_order_irrelevant `{Crypto} ws ws' : ws ≡ₚ ws' -> NoDup (write_key <$> ws) ->
  compute_writes_commitment ws = compute_writes_commitment ws'.
Proof.
  intros Hp Hnd. assert (merge_sort write_le ws = merge_sort write_le ws') as E.
  { apply (StronglySorted_unique_strong write_le); [|apply StronglySorted_merge_sort; apply _..|].
    - intros x y Hx Hy Hxy Hyx. rewrite merge_sort_Permutation in Hx, Hy. rewrite <- Hp in Hy.
      assert (write_key x = write_key y) as Ek.
      { unfold write_le in *. rewrite write_ltb_key in Hxy, Hyx. by apply key_ltb_total. }
      apply list_elem_of_lookup_1 in Hx as [n Hn], Hy as [m Hm].
      assert (n = m) as ->; [|congruence].
      apply (NoDup_lookup _ n m (write_key x) Hnd); rewrite list_lookup_fmap; [by rewrite Hn|by rewrite Hm, Ek].
    - by rewrite !merge_sort_Permutation. }
  unfold compute_writes_commitment. rewrite E. destruct ws as [|w ws], ws' as [|w' ws']; try done.
  - by apply Permutation_nil_cons in Hp.
  - symmetry in Hp. by apply Permutation_nil_cons in Hp.
Qed.

(** The commitment that validators vote on does not determine the writes.
    Sort key and value follow one another without their lengths, so that a
    write with the first byte of its value moved to the end of its sort key,
    which is a write of another value to another substate, has the same
    commitment, for every hash function. *)
Theorem commitment_ambiguous `{Crypto} n p sk b value :
  compute_writes_commitment [mk_substate_write n p sk (b :: value)] =
  compute_writes_commitment [mk_substate_write n p (sk ++ [b]) value].
Proof.
  unfold compute_writes_commitment. f_equal. cbn. unfold write_data. cbn. by rewrite <- !app_assoc.
Qed.

(** ** Updates and writes *)

Section updates.
Context `{RX : Radix} `{RL : !RadixLaws}.

Lemma index_update_cases {K V} `{EqDecision K} (k : K) (init : V) f m :
  (k ∉ m.*1 /\ index_update k init f m = m ++ [(k, f init)]) \/
  (exists m1 v m2, m = m1 ++ (k, v) :: m2 /\ index_update k init f m = m1 ++ (k, f v) :: m2).
Proof.
  induction m as [|[k' v] m IH]; [left; set_solver|]. cbn [index_update fst snd]. case_bool_decide as E.
  - subst k'. right. by exists [], v, m.
  - destruct IH as [[Hn ->]|(m1 & v' & m2 & -> & ->)].
    + left. split; [|done]. cbn. intros [?|?]%elem_of_cons; [by subst|done].
    + right. by exists ((k', v) :: m1), v', m2.
Qed.

(** A partition with set values only. *)
Definition partition_set (pe : N * PartitionDatabaseUpdates) : Prop :=
  exists l : list (bytes * bytes), pe.2 = Delta ((fun e => (e.1, SetValue e.2)) <$> l).

Definition all_set (updates : DatabaseUpdates) : Prop := Forall (fun e => Forall partition_set e.2) updates.

Lemma partition_writes_set n p (l : list (bytes * bytes)) :
  partition_writes n (p, Delta ((fun e => (e.1, SetValue e.2)) <$> l)) =
  (fun e => mk_substate_write n p e.1 e.2) <$> l.
Proof. unfold partition_writes. cbn [fst snd]. induction l as [|[k v] l IH]; [done|]. cbn in *. by rewrite IH. Qed.

Lemma delta_insert_fresh n p sk v (l : list (bytes * bytes)) :
  (sk, p) ∉ (fun w => (sw_sort_key w, sw_partition w)) <$>
    partition_writes n (p, Delta ((fun e => (e.1, SetValue e.2)) <$> l)) ->
  index_insert sk (SetValue v) ((fun e => (e.1, SetValue e.2)) <$> l) =
  (fun e => (e.1, SetValue e.2)) <$> (l ++ [(sk, v)]).
Proof.
  rewrite partition_writes_set. intros Hno. unfold index_insert.
  destruct (index_update_cases sk (SetValue v) (fun _ => SetValue v) ((fun e => (e.1, SetValue e.2)) <$> l))
    as [[_ ->]|(m1 & w & m2 & E & _)]; [by rewrite fmap_app|]. destruct Hno.
  assert ((sk, w) ∈ (fun e : bytes * bytes => (e.1, SetValue e.2)) <$> l) as Hin by (rewrite E; set_solver).
  apply list_elem_of_fmap in Hin as ([k v'] & [= -> ->] & Hin). rewrite <- list_fmap_compose.
  apply list_elem_of_fmap. by exists (k, v').
Qed.

(** The substate of a write within its node. *)
Definition place (w : SubstateWrite) : bytes * N := (sw_sort_key w, sw_partition w).

Lemma partitions_add w (ps : list (N * PartitionDatabaseUpdates)) :
  let n := sw_node_id w in
  Forall partition_set ps -> place w ∉ place <$> (ps ≫= partition_writes n) ->
  let ps' := index_update (sw_partition w) (Delta []) (set_in_delta w) ps in
  Forall partition_set ps' /\ ps' ≫= partition_writes n ≡ₚ (ps ≫= partition_writes n) ++ [w].
Proof.
  intros n Hset Hno ps'. destruct w as [n' p sk v]. cbn in n. subst n. cbn [sw_partition sw_sort_key sw_value] in *.
  unfold ps'. clear ps'.
  destruct (index_update_cases p (Delta []) (set_in_delta (mk_substate_write n' p sk v)) ps)
    as [[_ ->]|(m1 & d & m2 & -> & ->)].
  - split; [|by rewrite bind_app]. apply Forall_app. split; [done|]. apply Forall_singleton. by exists [(sk, v)].
  - apply Forall_app in Hset as [Hm1 [[l Hl] Hm2]%Forall_cons_1]. cbn in Hl. subst d.
    rewrite !bind_app, !bind_cons in *. cbn [set_in_delta sw_sort_key sw_value].
    rewrite (delta_insert_fresh n' p) by (intros Hin; apply Hno; rewrite !fmap_app, !elem_of_app; right; left; exact Hin).
    split; [apply Forall_app; split; [done|]; constructor; [by exists (l ++ [(sk, v)])|done]|].
    rewrite !partition_writes_set, fmap_app, <- !app_assoc. do 2 apply Permutation_app_head.
    apply Permutation_app_comm.
Qed.

(** The substate of a write. *)
Definition substate_of (w : SubstateWrite) : NodeId * (bytes * N) := (sw_node_id w, place w).

Lemma partition_writes_node n pe w : w ∈ partition_writes n pe -> sw_node_id w = n.
Proof.
  unfold partition_writes. destruct (pe.2); [|by intros ?%not_elem_of_nil].
  intros ([k u] & _ & E)%list_elem_of_omap. by destruct u; simplify_eq/=.
Qed.

Lemma add_write_fresh updates w : is_node (sw_node_id w) -> all_set updates ->
  substate_of w ∉ substate_of <$> writes_of_updates updates ->
  all_set (add_write updates w) /\ writes_of_updates (add_write updates w) ≡ₚ writes_of_updates updates ++ [w].
Proof.
  intros Hn Hset Hno. unfold add_write. rewrite partition_num_same.
  destruct (index_update_cases (to_db_node_key (sw_node_id w)) []
    (index_update (sw_partition w) (Delta []) (set_in_delta w)) updates) as [[_ ->]|(m1 & ps & m2 & -> & ->)].
  - destruct (partitions_add w []) as [Hs Hw]; [constructor|by apply not_elem_of_nil|].
    split; [apply Forall_app; split; [done|]; by apply Forall_singleton|].
    unfold writes_of_updates. rewrite bind_app. cbn [fst snd mbind list_bind]. rewrite node_of_node_key by done.
    by rewrite app_nil_r, Hw.
  - apply Forall_app in Hset as [Hm1 [Hps Hm2]%Forall_cons_1]. cbn [snd] in Hps.
    unfold writes_of_updates in *. rewrite !bind_app, !bind_cons in *. cbn [fst snd] in *.
    rewrite node_of_node_key in * by done.
    destruct (partitions_add w ps) as [Hs Hw]; [done| |].
    { intros (w' & E & Hin)%list_elem_of_fmap. apply Hno. rewrite !fmap_app, !elem_of_app. right. left.
      apply list_elem_of_fmap. exists w'. split; [|done]. unfold substate_of. rewrite E. f_equal.
      apply list_elem_of_bind in Hin as (pe & Hin & _). symmetry. by apply (partition_writes_node _ pe). }
    split; [apply Forall_app; split; [done|]; by constructor|].
    rewrite Hw, <- !app_assoc. do 2 apply Permutation_app_head. apply Permutation_app_comm.
Qed.

(** Turning the writes of a certificate into database updates and
    extracting the writes of a receipt with these updates are inverse to one
    another: writes to different substates come back, each once and with its
    value (grouped by node and partition). *)
Theorem writes_roundtrip ws : Forall (fun w => is_node (sw_node_id w)) ws -> NoDup (substate_of <$> ws) ->
  extract_substate_writes (ReceiptCommit (substate_writes_to_database_updates ws)) ≡ₚ ws.
Proof.
  intros Hn Hnd. cbn [extract_substate_writes extract_state_updates].
  assert (all_set (substate_writes_to_database_updates ws) /\
    writes_of_updates (substate_writes_to_database_updates ws) ≡ₚ ws) as [_ H]; [|done].
  unfold substate_writes_to_database_updates. induction ws as [|w ws IH] using rev_ind; [by split; [constructor|]|].
  apply Forall_app in Hn as [Hn [Hw _]%Forall_cons_1]. rewrite fmap_app in Hnd.
  apply NoDup_app in Hnd as (Hnd & Hno & _). destruct IH as [IHs IHw]; [done..|]. rewrite foldl_app. cbn [foldl].
  destruct (add_write_fresh (foldl add_write [] ws) w) as [H1 H2]; [apply Hw|done| |].
  - rewrite IHw. intros Hin. apply (Hno _ Hin). cbn. by left.
  - split; [done|]. by rewrite H2, IHw.
Qed.

(** Deletions and resets of a receipt leave no write. *)
Lemma deletions_dropped n p (l : list bytes) values :
  partition_writes n (p, Delta ((fun k => (k, DeleteValue)) <$> l)) = [] /\
  partition_writes n (p, Reset values) = [].
Proof. split; [|done]. unfold partition_writes. cbn. by induction l. Qed.
End updates.

(** ** A concrete input *)

Definition kept_writes : list SubstateWrite :=
  [mk_substate_write 5 0 [1] [10]; mk_substate_write 6 0 [1] [11]; mk_substate_write 5 0 [2] [12]].

Lemma writes_roundtrip_witness :
  @extract_substate_writes (ReceiptCommit (@substate_writes_to_database_updates sample_radix kept_writes))
  ≡ₚ kept_writes.
Proof.
  apply (@writes_roundtrip sample_radix sample_radix_laws kept_writes).
  - repeat constructor; vm_compute; reflexivity.
  - apply (bool_decide_unpack _); vm_compute; reflexivity.
Defined.
