(* ===== verification/StorageTree.v ===== *)
(** * The state tree in storage (crates/production/src/storage.rs)

    The Jellyfish Merkle tree of the Radix crates reads and writes nodes
    through a store.  This file has the store on RocksDB, the overlay for
    speculative computation, the cache of prepared block commits, and the two
    ways in which the state of a block is committed. *)

From stdpp Require Import base gmap list numbers sorting strings.
From Stdlib Require Import NArith Lia.
From S2P Require Import Prelude Bitfield Types Encoding Topology Transactions Runner Sbor BftState Storage Substates.

(** ** The tree of the Radix crates *)

Abbreviation StateRootHash := bytes (only parsing).

Inductive AssociatedSubstateValue :=
  | Upserted (value : bytes)
  | Unchanged.

Inductive StaleTreePart (K : Type) :=
  | StaleNode (key : K)
  | StaleSubtree (key : K).
Arguments StaleNode {K} _.
Arguments StaleSubtree {K} _.

Definition part_key {K} (part : StaleTreePart K) : K :=
  match part with StaleNode k | StaleSubtree k => k end.

#[export] Instance StaleTreePart_eq_dec {K} `{EqDecision K} : EqDecision (StaleTreePart K).
Proof. solve_decision. Defined.
#[export] Instance StaleTreePart_countable {K} `{Countable K} : Countable (StaleTreePart K).
Proof.
  apply (inj_countable' (fun p => match p with StaleNode k => inl k | StaleSubtree k => inr k end)
           (fun s => match s with inl k => StaleNode k | inr k => StaleSubtree k end)). by intros [].
Defined.

(** What a run of the tree does with its store, call by call, and the root it
    returns. *)
Inductive TreeProgram (K V : Type) :=
  | TreeRoot (root : StateRootHash)
  | GetNode (key : K) (continue : option V -> TreeProgram K V)
  | InsertNode (key : K) (node : V) (continue : TreeProgram K V)
  | AssociateSubstate (leaf : K) (partition_key : DbPartitionKey) (sort_key : DbSortKey)
      (value : AssociatedSubstateValue) (continue : TreeProgram K V)
  | RecordStaleTreePart (part : StaleTreePart K) (continue : TreeProgram K V).
Arguments TreeRoot {K V} _.
Arguments GetNode {K V} _ _.
Arguments InsertNode {K V} _ _ _.
Arguments AssociateSubstate {K V} _ _ _ _ _.
Arguments RecordStaleTreePart {K V} _ _.

(** The tree and its encodings; [gen_child_node_keys] are the keys of the
    children of an internal node, none for a leaf. *)
Class Jmt := {
  StoredTreeNodeKey : Type;
  TreeNode : Type;
  #[global] tree_key_eq_dec :: EqDecision StoredTreeNodeKey;
  #[global] tree_key_countable :: Countable StoredTreeNodeKey;
  #[global] tree_node_eq_dec :: EqDecision TreeNode;
  #[global] tree_node_countable :: Countable TreeNode;
  encode_jmt_key : StoredTreeNodeKey -> bytes;
  gen_child_node_keys : StoredTreeNodeKey -> TreeNode -> list StoredTreeNodeKey;
  put_at_next_version : option u64 -> DatabaseUpdates -> TreeProgram StoredTreeNodeKey TreeNode
}.

Section tree.
Context `{CR : Crypto} `{SB : Sbor} `{RX : Radix} `{J : Jmt}.

(** ** Stores *)

(** [ReadableTreeStore] of RocksDB and of a snapshot of it. *)
Definition get_node (d : Db) (key : StoredTreeNodeKey) : option TreeNode :=
  cf CfJmtNodes d !! encode_jmt_key key ≫= basic_decode.

Definition get_substate (d : Db) (partition_key : DbPartitionKey) (sort_key : DbSortKey) : option bytes :=
  cf CfState d !! to_storage_key partition_key sort_key.

Record OverlayTreeStore := mk_overlay {
  ov_inserted_nodes : gmap StoredTreeNodeKey TreeNode;
  ov_stale_keys : gset StoredTreeNodeKey;
  ov_stale_tree_parts : list (StaleTreePart StoredTreeNodeKey);
  ov_leaf_substate_associations : list (StoredTreeNodeKey * bytes)
}.

Definition overlay_new : OverlayTreeStore := mk_overlay ∅ ∅ [] [].

Definition overlay_get_node (base : Db) (ov : OverlayTreeStore) (key : StoredTreeNodeKey) : option TreeNode :=
  if bool_decide (key ∈ ov_stale_keys ov) then None
  else match ov_inserted_nodes ov !! key with
       | Some node => Some node
       | None => get_node base key
       end.

Definition overlay_insert_node (key : StoredTreeNodeKey) (node : TreeNode) (ov : OverlayTreeStore)
    : OverlayTreeStore :=
  mk_overlay (<[key := node]> (ov_inserted_nodes ov)) (ov_stale_keys ov ∖ {[key]})
    (ov_stale_tree_parts ov) (ov_leaf_substate_associations ov).

(** [historical] is [enable_historical_values], with the snapshot of the base. *)
Definition overlay_associate_substate (base : Db) (historical : bool) (leaf : StoredTreeNodeKey)
    (partition_key : DbPartitionKey) (sort_key : DbSortKey) (value : AssociatedSubstateValue)
    (ov : OverlayTreeStore) : OverlayTreeStore :=
  if negb historical then ov
  else
    match (match value with
           | Upserted v => Some v
           | Unchanged => get_substate base partition_key sort_key
           end) with
    | None => ov
    | Some v => mk_overlay (ov_inserted_nodes ov) (ov_stale_keys ov) (ov_stale_tree_parts ov)
                  (ov_leaf_substate_associations ov ++ [(leaf, v)])
    end.

Definition overlay_record_stale_tree_part (part : StaleTreePart StoredTreeNodeKey) (ov : OverlayTreeStore)
    : OverlayTreeStore :=
  mk_overlay (ov_inserted_nodes ov) ({[part_key part]} ∪ ov_stale_keys ov)
    (ov_stale_tree_parts ov ++ [part]) (ov_leaf_substate_associations ov).

(** A run of the tree on an overlay. *)
Fixpoint run_tree (base : Db) (historical : bool) (program : TreeProgram StoredTreeNodeKey TreeNode)
    (ov : OverlayTreeStore) : StateRootHash * OverlayTreeStore :=
  match program with
  | TreeRoot root => (root, ov)
  | GetNode key continue => run_tree base historical (continue (overlay_get_node base ov key)) ov
  | InsertNode key node continue => run_tree base historical continue (overlay_insert_node key node ov)
  | AssociateSubstate leaf partition_key sort_key value continue =>
      run_tree base historical continue
        (overlay_associate_substate base historical leaf partition_key sort_key value ov)
  | RecordStaleTreePart part continue =>
      run_tree base historical continue (overlay_record_stale_tree_part part ov)
  end.

Record JmtSnapshot := mk_jmt_snapshot {
  js_base_root : StateRootHash;
  js_base_version : u64;
  js_result_root : StateRootHash;
  js_num_versions : u64;
  js_nodes : gmap StoredTreeNodeKey TreeNode;
  js_stale_tree_parts : list (StaleTreePart StoredTreeNodeKey);
  js_leaf_substate_associations : list (StoredTreeNodeKey * bytes)
}.

Definition into_snapshot (ov : OverlayTreeStore) (base_root : StateRootHash) (base_version : u64)
    (result_root : StateRootHash) (num_versions : u64) : JmtSnapshot :=
  mk_jmt_snapshot base_root base_version result_root num_versions (ov_inserted_nodes ov)
    (ov_stale_tree_parts ov) (ov_leaf_substate_associations ov).

(** ** The cache of block commits *)

Definition BLOCK_COMMIT_CACHE_MAX_SIZE : usize := 32.

Record BlockCommitCache := mk_block_commit_cache {
  bc_write_batch : WriteBatch;
  bc_jmt_snapshot : JmtSnapshot
}.

Record BlockCommitCacheLru := mk_lru {
  lru_map : gmap Hash BlockCommitCache;
  lru_order : list Hash
}.

Definition lru_new : BlockCommitCacheLru := mk_lru ∅ [].

(** The [while] loop of [insert]. *)
Fixpoint lru_evict (map : gmap Hash BlockCommitCache) (order : list Hash) : BlockCommitCacheLru :=
  match order with
  | oldest :: order' =>
      if Nat.leb BLOCK_COMMIT_CACHE_MAX_SIZE (size map) then lru_evict (delete oldest map) order'
      else mk_lru map order
  | [] => mk_lru map []
  end.

Definition lru_insert (block_hash : Hash) (cache : BlockCommitCache) (c : BlockCommitCacheLru)
    : BlockCommitCacheLru :=
  let order := if contains_key (lru_map c) block_hash
               then filter (fun h => h <> block_hash) (lru_order c) else lru_order c in
  let c1 := lru_evict (lru_map c) order in
  mk_lru (<[block_hash := cache]> (lru_map c1)) (lru_order c1 ++ [block_hash]).

Definition lru_remove (block_hash : Hash) (c : BlockCommitCacheLru)
    : option BlockCommitCache * BlockCommitCacheLru :=
  match lru_map c !! block_hash with
  | Some cache =>
      (Some cache, mk_lru (delete block_hash (lru_map c)) (filter (fun h => h <> block_hash) (lru_order c)))
  | None => (None, c)
  end.

(** ** Storage *)

Record RocksDbStorage := mk_storage {
  rs_db : Db;
  rs_current_version : u64;
  rs_current_root_hash : StateRootHash;
  rs_block_commit_cache : BlockCommitCacheLru;
  rs_enable_historical_substate_values : bool;
  rs_state_version_history_length : u64
}.

Definition JMT_VERSION_KEY : bytes := byte_literal "jmt:version".
Definition JMT_ROOT_HASH_KEY : bytes := byte_literal "jmt:root_hash".

(** [load_jmt_state], and [read_jmt_metadata] of a snapshot. *)
Definition load_jmt_state (d : Db) : u64 * StateRootHash :=
  (default 0 (cf CfDefault d !! JMT_VERSION_KEY ≫= from_be_bytes),
   match cf CfDefault d !! JMT_ROOT_HASH_KEY with
   | Some v => if Nat.eqb (length v) 32 then v else replicate 32 0
   | None => replicate 32 0
   end).

(** [open_with_config] on the column families of [d]. *)
Definition open_storage (d : Db) (historical : bool) (history_length : u64) : RocksDbStorage :=
  let '(version, root_hash) := load_jmt_state d in
  mk_storage d version root_hash lru_new historical history_length.

Definition state_version (st : RocksDbStorage) : u64 := rs_current_version st.
Definition state_root_hash (st : RocksDbStorage) : StateRootHash := rs_current_root_hash st.
Definition storage_jmt_root (st : RocksDbStorage) : Hash := blake3 (rs_current_root_hash st).

Definition parent_version_of (version : u64) : option u64 := if version =? 0 then None else Some version.

(** *** Batches *)

(** The writes of updates to the column family "state"; resets are skipped. *)
Definition state_ops (updates : DatabaseUpdates) : WriteBatch :=
  updates ≫= fun '(db_node_key, node_updates) =>
    node_updates ≫= fun '(partition_num, partition_updates) =>
      match partition_updates with
      | Delta substate_updates =>
          (fun '(db_sort_key, update) =>
             let storage_key := to_storage_key (mk_partition_key db_node_key partition_num) db_sort_key in
             match update with
             | SetValue value => PutCf CfState storage_key value
             | DeleteValue => DeleteCf CfState storage_key
             end) <$> substate_updates
      | Reset _ => []
      end.

Definition cert_writes (local_shard : ShardGroupId) (cert : TransactionCertificate) : list SubstateWrite :=
  match tc_shard_proofs cert !! local_shard with
  | Some proof => sc_state_writes proof
  | None => []
  end.

Definition build_write_batch (certificates : list TransactionCertificate) (local_shard : ShardGroupId)
    : WriteBatch :=
  certificates ≫= fun cert =>
    PutCf CfCertificates (as_bytes (tc_transaction_hash cert)) (basic_encode cert)
    :: match tc_shard_proofs cert !! local_shard with
       | Some shard_proof => state_ops (substate_writes_to_database_updates (sc_state_writes shard_proof))
       | None => []
       end.

(** The nodes, the stale parts, the associations and the metadata of a
    snapshot, as each of the three commits adds them to its batch. *)
Definition snapshot_ops (historical : bool) (new_version : u64) (snapshot : JmtSnapshot) : WriteBatch :=
  ((fun '(key, node) => PutCf CfJmtNodes (encode_jmt_key key) (basic_encode node))
     <$> map_to_list (js_nodes snapshot))
  ++ (match js_stale_tree_parts snapshot with
      | [] => []
      | parts => [PutCf CfStaleParts (to_be_bytes new_version) (basic_encode parts)]
      end)
  ++ (if historical
      then (fun '(key, value) => PutCf CfAssociatedValues (encode_jmt_key key) value)
             <$> js_leaf_substate_associations snapshot
      else [])
  ++ [PutCf CfDefault JMT_VERSION_KEY (to_be_bytes new_version);
      PutCf CfDefault JMT_ROOT_HASH_KEY (js_result_root snapshot)].

(** The write and the update of the in-memory state. *)
Definition apply_batch (batch : WriteBatch) (version : u64) (root : StateRootHash) (st : RocksDbStorage)
    : RocksDbStorage :=
  mk_storage (write batch (rs_db st)) version root (rs_block_commit_cache st)
    (rs_enable_historical_substate_values st) (rs_state_version_history_length st).

(** Steps 3 to 6 of a commit of one set of updates: the overlay is without
    historical values. *)
Definition commit_updates (batch : WriteBatch) (updates : DatabaseUpdates) (st : RocksDbStorage)
    : RocksDbStorage :=
  let base_version := rs_current_version st in
  let base_root := rs_current_root_hash st in
  let '(new_root, overlay) :=
    run_tree (rs_db st) false (put_at_next_version (parent_version_of base_version) updates) overlay_new in
  let new_version := base_version +w 1 in
  let snapshot := into_snapshot overlay base_root base_version new_root 1 in
  apply_batch (batch ++ snapshot_ops (rs_enable_historical_substate_values st) new_version snapshot)
    new_version new_root st.

Definition commit_certificate_with_writes (certificate : TransactionCertificate)
    (writes : list SubstateWrite) (st : RocksDbStorage) : RocksDbStorage :=
  let updates := substate_writes_to_database_updates writes in
  commit_updates
    (PutCf CfCertificates (as_bytes (tc_transaction_hash certificate)) (basic_encode certificate)
     :: state_ops updates) updates st.

(** [commit]: the writes of genesis, to the default column family. *)
Definition reset_ops (d : Db) (partition_key : DbPartitionKey) (values : list (DbSortKey * bytes)) : WriteBatch :=
  let prefix := partition_prefix partition_key in
  ((fun e => DeleteCf CfDefault e.1) <$> iter_range d prefix (next_prefix prefix))
  ++ ((fun '(sort_key, value) => PutCf CfDefault (to_storage_key partition_key sort_key) value) <$> values).

Definition commit_ops (d : Db) (updates : DatabaseUpdates) : WriteBatch :=
  updates ≫= fun '(node_key, node_updates) =>
    node_updates ≫= fun '(partition_num, partition_updates) =>
      let partition_key := mk_partition_key node_key partition_num in
      match partition_updates with
      | Delta substate_updates =>
          (fun '(sort_key, update) =>
             match update with
             | SetValue value => PutCf CfDefault (to_storage_key partition_key sort_key) value
             | DeleteValue => DeleteCf CfDefault (to_storage_key partition_key sort_key)
             end) <$> substate_updates
      | Reset new_substate_values => reset_ops d partition_key new_substate_values
      end.

Definition commit (updates : DatabaseUpdates) (st : RocksDbStorage) : RocksDbStorage :=
  commit_updates (commit_ops (rs_db st) updates) updates st.

(** *** Speculative roots *)

(** One certificate of [compute_speculative_root_from_base]. *)
Definition speculative_step (base : Db) (historical : bool)
    (acc : StateRootHash * OverlayTreeStore * u64) (writes : list SubstateWrite)
    : StateRootHash * OverlayTreeStore * u64 :=
  let '(_, overlay, current_version) := acc in
  let '(root, overlay') :=
    run_tree base historical
      (put_at_next_version (parent_version_of current_version) (substate_writes_to_database_updates writes))
      overlay in
  (root, overlay', current_version +w 1).

(** The expected base root only decides whether a warning is logged. *)
Definition compute_speculative_root (st : RocksDbStorage) (expected_base_root : Hash)
    (writes_per_cert : list (list SubstateWrite)) : Hash * JmtSnapshot :=
  let '(base_version, base_root) := load_jmt_state (rs_db st) in
  match writes_per_cert with
  | [] => (blake3 base_root, mk_jmt_snapshot base_root base_version base_root 0 ∅ [] [])
  | _ =>
      let '(root, overlay, _) :=
        foldl (speculative_step (rs_db st) (rs_enable_historical_substate_values st))
          (base_root, overlay_new, base_version) writes_per_cert in
      (blake3 root, into_snapshot overlay base_root base_version root (N.of_nat (length writes_per_cert)))
  end.

Definition cache_block_commit (block_hash : Hash) (entry : BlockCommitCache) (st : RocksDbStorage)
    : RocksDbStorage :=
  mk_storage (rs_db st) (rs_current_version st) (rs_current_root_hash st)
    (lru_insert block_hash entry (rs_block_commit_cache st))
    (rs_enable_historical_substate_values st) (rs_state_version_history_length st).

Definition take_block_commit_cache (block_hash : Hash) (st : RocksDbStorage)
    : option BlockCommitCache * RocksDbStorage :=
  let '(cache, lru) := lru_remove block_hash (rs_block_commit_cache st) in
  (cache, mk_storage (rs_db st) (rs_current_version st) (rs_current_root_hash st) lru
            (rs_enable_historical_substate_values st) (rs_state_version_history_length st)).

Definition try_apply_block_commit_cache (cache : BlockCommitCache) (st : RocksDbStorage)
    : bool * RocksDbStorage :=
  let snapshot := bc_jmt_snapshot cache in
  if negb (bool_decide (rs_current_root_hash st = js_base_root snapshot)) then (false, st)
  else if negb (rs_current_version st =? js_base_version snapshot) then (false, st)
  else
    let new_version := js_base_version snapshot +w js_num_versions snapshot in
    (true, apply_batch
             (bc_write_batch cache
              ++ snapshot_ops (rs_enable_historical_substate_values st) new_version snapshot)
             new_version (js_result_root snapshot) st).

(** ** The runner on the storage *)

(** [Action::VerifyStateRoot]: the answer, and the prepared commit. *)
Definition verify_state_root_task (local_shard : ShardGroupId) (block_hash parent_state_root expected_root : Hash)
    (certificates : list TransactionCertificate) (st : RocksDbStorage) : bool * RocksDbStorage :=
  let '(computed_root, jmt_snapshot) :=
    compute_speculative_root st parent_state_root (writes_per_cert local_shard certificates) in
  if computed_root =? expected_root then
    (true, cache_block_commit block_hash
             (mk_block_commit_cache (build_write_batch certificates local_shard) jmt_snapshot) st)
  else (false, st).

(** The slow path of the commit task. *)
Definition commit_certificates (local_shard : ShardGroupId) (certificates : list TransactionCertificate)
    (st : RocksDbStorage) : RocksDbStorage :=
  foldl (fun st cert => commit_certificate_with_writes cert (cert_writes local_shard cert) st) st certificates.

(** One request of the block commit task; the event is [StateCommitComplete]
    with the version and the root. *)
Definition commit_block (local_shard : ShardGroupId) (block_hash : Hash)
    (certificates : list TransactionCertificate) (st : RocksDbStorage) : RocksDbStorage * (u64 * Hash) :=
  let '(cache, st1) := take_block_commit_cache block_hash st in
  let '(used_fast_path, st2) :=
    match cache with
    | Some cache => try_apply_block_commit_cache cache st1
    | None => (false, st1)
    end in
  let st3 := if used_fast_path then st2 else commit_certificates local_shard certificates st2 in
  (st3, (state_version st3, storage_jmt_root st3)).

(** ** Garbage collection *)

(** The deletion of a node and of the value associated with it. *)
Definition delete_node_ops (historical : bool) (key : StoredTreeNodeKey) : WriteBatch :=
  DeleteCf CfJmtNodes (encode_jmt_key key)
  :: (if historical then [DeleteCf CfAssociatedValues (encode_jmt_key key)] else []).

(** [delete_subtree_recursive]; the fuel bounds the depth of the tree. *)
Fixpoint delete_subtree_recursive (fuel : nat) (d : Db) (historical : bool) (root_key : StoredTreeNodeKey)
    : WriteBatch :=
  match fuel with
  | O => []
  | S fuel' =>
      match cf CfJmtNodes d !! encode_jmt_key root_key with
      | None => []
      | Some bytes =>
          match basic_decode bytes with
          | None => delete_node_ops historical root_key
          | Some node =>
              (gen_child_node_keys root_key node ≫= delete_subtree_recursive fuel' d historical)
              ++ delete_node_ops historical root_key
          end
      end
  end.

Definition stale_part_ops (fuel : nat) (d : Db) (historical : bool) (part : StaleTreePart StoredTreeNodeKey)
    : WriteBatch :=
  match part with
  | StaleNode key => delete_node_ops historical key
  | StaleSubtree key => delete_subtree_recursive fuel d historical key
  end.

(** The loop over the queue of stale parts. *)
Fixpoint gc_ops (fuel : nat) (d : Db) (historical : bool) (cutoff_version : u64)
    (entries : list (bytes * bytes)) : WriteBatch :=
  match entries with
  | [] => []
  | (version_key, value) :: rest =>
      match from_be_bytes version_key with
      | None => gc_ops fuel d historical cutoff_version rest
      | Some version =>
          if cutoff_version <=? version then []
          else (match basic_decode value with
                | Some stale_parts => stale_parts ≫= stale_part_ops fuel d historical
                | None => []
                end)
               ++ DeleteCf CfStaleParts version_key :: gc_ops fuel d historical cutoff_version rest
      end
  end.

Definition run_jmt_gc (fuel : nat) (st : RocksDbStorage) : RocksDbStorage :=
  let cutoff_version := rs_current_version st - rs_state_version_history_length st in
  if cutoff_version =? 0 then st
  else
    mk_storage
      (write (gc_ops fuel (rs_db st) (rs_enable_historical_substate_values st) cutoff_version
                (iterator_cf CfStaleParts (rs_db st))) (rs_db st))
      (rs_current_version st) (rs_current_root_hash st) (rs_block_commit_cache st)
      (rs_enable_historical_substate_values st) (rs_state_version_history_length st).

(** The storage as the runner queries it. *)
Definition jmt_store_of (st : RocksDbStorage) : JmtStore :=
  mk_jmt_store (storage_jmt_root st) (fun base writes => (compute_speculative_root st base writes).1).
End tree.
