(* ===== verification/StorageCommit.v ===== *)
(** * Committing state

    The prepared commit of a block and the commit certificate by certificate
    write the same state, the version and root on disk are those in memory,
    and what the engine reads of committed state. *)

From stdpp Require Import base gmap list numbers sorting.
From Stdlib Require Import NArith Lia.
From S2P Require Import Prelude Bitfield Types Encoding Topology Transactions Runner ExecutionRunner.
From S2P Require Import Sbor BftState Storage StorageChain Substates SubstateTheory CrossShard StorageTree.

(** ** Batches by column family *)

Lemma cf_write_congr c batch d d' : cf c d = cf c d' -> cf c (write batch d) = cf c (write batch d').
Proof.
  revert d d'. induction batch as [|op batch IH]; intros d d' E; [done|]. cbn [write foldl]. apply IH.
  destruct op; cbn [write_op]; rewrite !cf_with_cf; by case_decide; rewrite ?E.
Qed.

Lemma cf_write_app_other c b1 b2 d : Forall (fun op => op_cf op <> c) b2 ->
  cf c (write (b1 ++ b2) d) = cf c (write b1 d).
Proof. intros Hb. rewrite write_app. by apply cf_write_other. Qed.

Section commit.
Context `{CR : Crypto} `{SB : Sbor} `{RX : Radix} `{J : Jmt}.

(** Documented behaviour of the tree: the encoding of keys is injective, and a
    root has 32 bytes. *)
Class JmtLaws : Prop := {
  encode_jmt_key_inj k k' : encode_jmt_key k = encode_jmt_key k' -> k = k';
  root_length d historical parent updates ov :
    length (run_tree d historical (put_at_next_version parent updates) ov).1 = 32%nat
}.

(** ** Runs of the tree on an overlay *)

(** The run reads no node of [avoid] before it has inserted it. *)
Fixpoint no_stale_reads (base : Db) (historical : bool) (avoid : gset StoredTreeNodeKey)
    (program : TreeProgram StoredTreeNodeKey TreeNode) (ov : OverlayTreeStore) : Prop :=
  match program with
  | TreeRoot _ => True
  | GetNode key continue =>
      key ∉ avoid /\ no_stale_reads base historical avoid (continue (overlay_get_node base ov key)) ov
  | InsertNode key node continue =>
      no_stale_reads base historical (avoid ∖ {[key]}) continue (overlay_insert_node key node ov)
  | AssociateSubstate leaf partition_key sort_key value continue =>
      no_stale_reads base historical avoid continue
        (overlay_associate_substate base historical leaf partition_key sort_key value ov)
  | RecordStaleTreePart part continue =>
      no_stale_reads base historical avoid continue (overlay_record_stale_tree_part part ov)
  end.

(** The nodes on disk are those of [d0] with [inserted] over them. *)
Record nodes_over (d d0 : Db) (inserted : gmap StoredTreeNodeKey TreeNode) : Prop := {
  nodes_inserted key node : inserted !! key = Some node ->
    cf CfJmtNodes d !! encode_jmt_key key = Some (basic_encode node);
  nodes_kept k : (forall key, is_Some (inserted !! key) -> encode_jmt_key key <> k) ->
    cf CfJmtNodes d !! k = cf CfJmtNodes d0 !! k
}.

Section laws.
Context `{JL : !JmtLaws}.

Lemma nodes_over_read d d0 inserted key : nodes_over d d0 inserted ->
  get_node d key = match inserted !! key with Some node => Some node | None => get_node d0 key end.
Proof.
  intros [Hi Hk]. unfold get_node. destruct (inserted !! key) as [node|] eqn:E.
  - rewrite (Hi key node E). apply sbor_roundtrip.
  - rewrite Hk; [done|]. intros key' [n Hn] Heq%encode_jmt_key_inj. congruence.
Qed.

Lemma nodes_over_unique d d' d0 inserted : nodes_over d d0 inserted -> nodes_over d' d0 inserted ->
  cf CfJmtNodes d = cf CfJmtNodes d'.
Proof.
  intros [Hi Hk] [Hi' Hk']. apply map_eq. intros k.
  destruct (decide (Exists (fun e => encode_jmt_key e.1 = k) (map_to_list inserted)))
    as [([key node] & Hin%elem_of_map_to_list & <-)%Exists_exists|Hno].
  - cbn [fst]. by rewrite (Hi key node), (Hi' key node).
  - assert (forall key, is_Some (inserted !! key) -> encode_jmt_key key <> k) as Hout.
    { intros key [node Hn] E. apply Hno, Exists_exists. exists (key, node). by rewrite elem_of_map_to_list. }
    by rewrite Hk, Hk'.
Qed.

(** A run over an overlay that holds the nodes of earlier runs, and a run over
    the disk those nodes were written to. *)
Lemma run_tree_sim program d d0 historical before ovf ovs avoid :
  nodes_over d d0 before ->
  ov_inserted_nodes ovf = ov_inserted_nodes ovs ∪ before ->
  ov_stale_keys ovf = ov_stale_keys ovs ∪ avoid ->
  no_stale_reads d0 historical avoid program ovf ->
  let rf := run_tree d0 historical program ovf in
  let rs := run_tree d false program ovs in
  rf.1 = rs.1 /\ ov_inserted_nodes rf.2 = ov_inserted_nodes rs.2 ∪ before.
Proof.
  intros Hd. revert ovf ovs avoid.
  induction program as [root|key k IH|key node k IH|leaf pk sk value k IH|part k IH];
    intros ovf ovs avoid Hi Hs Hr; cbn [run_tree no_stale_reads] in *; cbv zeta in *.
  - done.
  - destruct Hr as [Ha Hr].
    assert (overlay_get_node d0 ovf key = overlay_get_node d ovs key) as E; [|rewrite E in *; by apply (IH _ _ _ avoid)].
    unfold overlay_get_node. rewrite Hs, Hi, (bool_decide_ext (key ∈ ov_stale_keys ovs ∪ avoid) (key ∈ ov_stale_keys ovs))
      by (clear -Ha; set_solver). case_bool_decide; [done|].
    rewrite (nodes_over_read d d0 before) by done. rewrite lookup_union.
    by destruct (ov_inserted_nodes ovs !! key), (before !! key).
  - apply (IH _ _ (avoid ∖ {[key]})); [| |done].
    + cbn [overlay_insert_node ov_inserted_nodes]. by rewrite Hi, insert_union_l.
    + cbn [overlay_insert_node ov_stale_keys]. rewrite Hs. apply difference_union_distr_l_L.
  - apply (IH _ _ avoid); [| |done]; unfold overlay_associate_substate; cbn [negb];
      destruct (negb historical); [done| |done|]; by destruct (match value with Upserted v => _ | Unchanged => _ end).
  - apply (IH _ _ avoid); [done| |done].
    cbn [overlay_record_stale_tree_part ov_stale_keys]. by rewrite Hs, (assoc_L (∪)).
Qed.

(** ** What the batches write *)

Definition node_ops (nodes : gmap StoredTreeNodeKey TreeNode) : list BatchOp :=
  puts CfJmtNodes (fun e => encode_jmt_key e.1) (fun e => basic_encode e.2) (map_to_list nodes).

(** The parts of [snapshot_ops] after the nodes. *)
Definition rest_ops (historical : bool) (new_version : u64) (snapshot : JmtSnapshot) : list BatchOp :=
  (match js_stale_tree_parts snapshot with
   | [] => []
   | parts => [PutCf CfStaleParts (to_be_bytes new_version) (basic_encode parts)]
   end)
  ++ (if historical
      then (fun '(key, value) => PutCf CfAssociatedValues (encode_jmt_key key) value)
             <$> js_leaf_substate_associations snapshot
      else [])
  ++ [PutCf CfDefault JMT_VERSION_KEY (to_be_bytes new_version);
      PutCf CfDefault JMT_ROOT_HASH_KEY (js_result_root snapshot)].

Lemma snapshot_ops_split historical version snapshot :
  snapshot_ops historical version snapshot = node_ops (js_nodes snapshot) ++ rest_ops historical version snapshot.
Proof.
  unfold snapshot_ops, node_ops, puts. f_equal. apply list_fmap_ext. by intros _ [key node] _.
Qed.

Lemma rest_ops_elsewhere c historical version snapshot :
  c <> CfStaleParts -> c <> CfAssociatedValues -> c <> CfDefault ->
  Forall (fun op => op_cf op <> c) (rest_ops historical version snapshot).
Proof.
  intros H1 H2 H3. unfold rest_ops. apply Forall_app. split; [by destruct (js_stale_tree_parts snapshot); repeat constructor|].
  apply Forall_app. split; [|by repeat constructor]. destruct historical; [|constructor].
  apply Forall_fmap, Forall_forall. by intros [key value] _.
Qed.

Lemma snapshot_ops_elsewhere c historical version snapshot :
  c <> CfStaleParts -> c <> CfAssociatedValues -> c <> CfDefault -> c <> CfJmtNodes ->
  Forall (fun op => op_cf op <> c) (snapshot_ops historical version snapshot).
Proof.
  intros H1 H2 H3 H4. rewrite snapshot_ops_split. apply Forall_app. split; [|by apply rest_ops_elsewhere].
  by apply puts_elsewhere.
Qed.

Lemma state_ops_cf updates : Forall (fun op => op_cf op = CfState) (state_ops updates).
Proof.
  apply Forall_forall. intros op ([nk ps] & Hin & _)%list_elem_of_bind.
  apply list_elem_of_bind in Hin as ([p pu] & Hin & _). destruct pu as [l|l]; [|by apply not_elem_of_nil in Hin].
  apply list_elem_of_fmap in Hin as ([sk [v|]] & -> & _); done.
Qed.

Definition cert_batch (cert : TransactionCertificate) (writes : list SubstateWrite) : list BatchOp :=
  PutCf CfCertificates (as_bytes (tc_transaction_hash cert)) (basic_encode cert)
  :: state_ops (substate_writes_to_database_updates writes).

Lemma cert_batch_elsewhere c cert writes : c <> CfState -> c <> CfCertificates ->
  Forall (fun op => op_cf op <> c) (cert_batch cert writes).
Proof.
  intros H1 H2. constructor; [by apply not_eq_sym|].
  eapply Forall_impl; [apply state_ops_cf|]. by intros op ->; apply not_eq_sym.
Qed.

Lemma build_write_batch_concat ls certs :
  build_write_batch certs ls = certs ≫= fun cert => cert_batch cert (cert_writes ls cert).
Proof.
  unfold build_write_batch. apply list_bind_ext; [|done]. intros cert. unfold cert_batch, cert_writes. f_equal.
  by destruct (tc_shard_proofs cert !! ls).
Qed.

Lemma batch_elsewhere c ls certs : c <> CfState -> c <> CfCertificates ->
  Forall (fun op => op_cf op <> c) (build_write_batch certs ls).
Proof.
  intros H1 H2. rewrite build_write_batch_concat. apply Forall_forall. intros op (cert & Hop & _)%list_elem_of_bind.
  revert op Hop. apply Forall_forall. by apply cert_batch_elsewhere.
Qed.

(** Inserting nodes over nodes. *)
Lemma nodes_over_write batch version historical snapshot d d0 before :
  nodes_over d d0 before -> Forall (fun op => op_cf op <> CfJmtNodes) batch ->
  nodes_over (write (batch ++ snapshot_ops historical version snapshot) d) d0 (js_nodes snapshot ∪ before).
Proof.
  intros [Hi Hk] Hb. rewrite snapshot_ops_split, app_assoc.
  assert (forall k, cf CfJmtNodes (write ((batch ++ node_ops (js_nodes snapshot)) ++ rest_ops historical version snapshot) d) !! k
    = cf CfJmtNodes (write (node_ops (js_nodes snapshot)) d) !! k) as E.
  { intros k. rewrite cf_write_app_other by (by apply rest_ops_elsewhere). rewrite write_app.
    by rewrite (cf_write_congr _ _ (write batch d) d) by (by apply cf_write_other). }
  split.
  - intros key node [Hn|[Hn Hb']]%lookup_union_Some_raw; rewrite E.
    + apply (lookup_puts CfJmtNodes (fun e => encode_jmt_key e.1) (fun e => basic_encode e.2) _ d (key, node));
        [by apply elem_of_map_to_list|].
      intros [key' node'] Hin%elem_of_map_to_list Heq%encode_jmt_key_inj. cbn in *. subst. congruence.
    + unfold node_ops. rewrite lookup_puts_other; [by apply Hi|].
      intros [key' node'] Hin%elem_of_map_to_list Heq%encode_jmt_key_inj. cbn in *. subst. congruence.
  - intros k Hout. rewrite E. unfold node_ops. rewrite lookup_puts_other.
    + apply Hk. intros key [n Hn]. apply Hout. rewrite lookup_union, Hn. by destruct (js_nodes snapshot !! key); eexists.
    + intros [key node] Hin%elem_of_map_to_list. cbn. apply Hout. rewrite lookup_union, Hin. by destruct (before !! key); eexists.
Qed.

(** The metadata after a commit. *)
Lemma load_jmt_state_commit batch version historical snapshot d :
  is_u64 version -> length (js_result_root snapshot) = 32%nat ->
  load_jmt_state (write (batch ++ snapshot_ops historical version snapshot) d) = (version, js_result_root snapshot).
Proof.
  intros Hv Hl. unfold snapshot_ops. rewrite !app_assoc, write_app.
  set (d' := write _ d). clearbody d'. cbn [write foldl write_op]. unfold load_jmt_state.
  rewrite !cf_with_cf, !(decide_True (P := CfDefault = CfDefault)) by done.
  rewrite lookup_insert_ne, !lookup_insert_eq by discriminate. cbn [mbind option_bind].
  rewrite from_be_bytes_to_be_bytes by done. by rewrite Hl.
Qed.

(** Keys of the default column family other than the metadata of the tree. *)
Lemma snapshot_ops_default historical version snapshot d k :
  k <> JMT_VERSION_KEY -> k <> JMT_ROOT_HASH_KEY ->
  cf CfDefault (write (snapshot_ops historical version snapshot) d) !! k = cf CfDefault d !! k.
Proof.
  intros H1 H2. unfold snapshot_ops. rewrite !app_assoc, write_app.
  set (b := _ ++ (if historical then _ else _)). assert (Forall (fun op => op_cf op <> CfDefault) b) as Hb.
  { unfold b. apply Forall_app. split; [apply Forall_app; split|].
    - apply Forall_fmap, Forall_forall. by intros [key node] _.
    - by destruct (js_stale_tree_parts snapshot); repeat constructor.
    - destruct historical; [|constructor]. apply Forall_fmap, Forall_forall. by intros [key value] _. }
  pose proof (cf_write_other CfDefault b d Hb) as E. clearbody b. cbn [write foldl write_op].
  fold (write b d). rewrite !cf_with_cf, !(decide_True (P := CfDefault = CfDefault)) by done.
  rewrite !lookup_insert_ne by done. by rewrite E.
Qed.

(** ** A block, certificate by certificate *)

(** No run for a certificate of the block reads a node that the run for an
    earlier one has recorded as stale: such nodes are not part of the tree of
    a later version. *)
Fixpoint stale_not_read (base : Db) (historical : bool) (acc : StateRootHash * OverlayTreeStore * u64)
    (writes_per_cert : list (list SubstateWrite)) : Prop :=
  match writes_per_cert with
  | [] => True
  | writes :: rest =>
      no_stale_reads base historical (ov_stale_keys acc.1.2)
        (put_at_next_version (parent_version_of acc.2) (substate_writes_to_database_updates writes)) acc.1.2 /\
      stale_not_read base historical (speculative_step base historical acc writes) rest
  end.

(** The storage after the commits of some certificates, and the overlay after
    the runs for them. *)
Record commits_sim (st : RocksDbStorage) (acc : StateRootHash * OverlayTreeStore * u64) (d0 : Db) : Prop := {
  sim_version : rs_current_version st = acc.2;
  sim_root : rs_current_root_hash st = acc.1.1;
  sim_nodes : nodes_over (rs_db st) d0 (ov_inserted_nodes acc.1.2)
}.

Lemma commit_step_sim d0 historical st acc cert writes :
  commits_sim st acc d0 ->
  no_stale_reads d0 historical (ov_stale_keys acc.1.2)
    (put_at_next_version (parent_version_of acc.2) (substate_writes_to_database_updates writes)) acc.1.2 ->
  commits_sim (commit_certificate_with_writes cert writes st) (speculative_step d0 historical acc writes) d0.
Proof.
  destruct acc as [[root ov] version]. intros [Hv Hr Hn] Hreads. cbn [fst snd] in *.
  unfold commit_certificate_with_writes, commit_updates, speculative_step. rewrite Hv.
  set (program := put_at_next_version _ _) in *.
  pose proof (run_tree_sim program (rs_db st) d0 historical (ov_inserted_nodes ov) ov overlay_new (ov_stale_keys ov) Hn) as Hsim.
  destruct Hsim as [E1 E2]; [cbn; by rewrite map_empty_union|cbn; by rewrite union_empty_l_L|done|].
  destruct (run_tree d0 historical program ov) as [rf ovf] eqn:Ef, (run_tree (rs_db st) false program overlay_new) as [rs ovs] eqn:Es.
  cbn [fst snd] in E1, E2. subst rs. split; [done|done|]. cbn [rs_db apply_batch fst snd]. rewrite E2.
  pose proof (nodes_over_write (cert_batch cert writes) (version +w 1) (rs_enable_historical_substate_values st)
    (into_snapshot ovs (rs_current_root_hash st) version rf 1) _ _ _ Hn) as Hw.
  apply Hw. by apply cert_batch_elsewhere.
Qed.

Lemma commit_certificates_sim ls d0 historical certs st acc :
  commits_sim st acc d0 -> stale_not_read d0 historical acc (writes_per_cert ls certs) ->
  commits_sim (commit_certificates ls certs st)
    (foldl (speculative_step d0 historical) acc (writes_per_cert ls certs)) d0.
Proof.
  revert st acc. induction certs as [|cert certs IH]; intros st acc Hsim Hreads; [done|].
  cbn [writes_per_cert fmap list_fmap stale_not_read] in Hreads. destruct Hreads as [H1 H2].
  cbn [commit_certificates foldl writes_per_cert fmap list_fmap]. apply IH; [|done]. by apply commit_step_sim.
Qed.

(** The column families both ways of committing write alike. *)
Definition same_cf (c : ColumnFamily) : Prop := c <> CfStaleParts /\ c <> CfAssociatedValues /\ c <> CfDefault.

Lemma commit_certificate_cf c cert writes st : same_cf c -> c <> CfJmtNodes ->
  cf c (rs_db (commit_certificate_with_writes cert writes st)) = cf c (write (cert_batch cert writes) (rs_db st)).
Proof.
  intros (H1 & H2 & H3) H4. unfold commit_certificate_with_writes, commit_updates.
  destruct (run_tree _ _ _ _) as [root ov]. cbn [rs_db apply_batch]. by apply cf_write_app_other, snapshot_ops_elsewhere.
Qed.

Lemma commit_certificates_cf c ls certs st : same_cf c -> c <> CfJmtNodes ->
  cf c (rs_db (commit_certificates ls certs st)) = cf c (write (build_write_batch certs ls) (rs_db st)).
Proof.
  intros Hc Hj. rewrite build_write_batch_concat. unfold commit_certificates.
  revert st. induction certs as [|cert certs IH]; intros st; [done|]. cbn [foldl]. rewrite IH, bind_cons, write_app.
  apply cf_write_congr. by apply commit_certificate_cf.
Qed.

Lemma commit_certificate_default cert writes st k : k <> JMT_VERSION_KEY -> k <> JMT_ROOT_HASH_KEY ->
  cf CfDefault (rs_db (commit_certificate_with_writes cert writes st)) !! k = cf CfDefault (rs_db st) !! k.
Proof.
  intros H1 H2. unfold commit_certificate_with_writes, commit_updates. destruct (run_tree _ _ _ _) as [root ov].
  cbn [rs_db apply_batch]. rewrite write_app, snapshot_ops_default by done.
  by rewrite (cf_write_other _ (cert_batch cert writes)) by (by apply cert_batch_elsewhere).
Qed.

Lemma commit_certificates_default ls certs st k : k <> JMT_VERSION_KEY -> k <> JMT_ROOT_HASH_KEY ->
  cf CfDefault (rs_db (commit_certificates ls certs st)) !! k = cf CfDefault (rs_db st) !! k.
Proof.
  intros H1 H2. unfold commit_certificates. revert st. induction certs as [|cert certs IH]; intros st; [done|].
  cbn [foldl]. by rewrite IH, commit_certificate_default.
Qed.

(** The metadata on disk is what is in memory. *)
Definition disk_agrees (st : RocksDbStorage) : Prop :=
  load_jmt_state (rs_db st) = (rs_current_version st, rs_current_root_hash st) /\
  is_u64 (rs_current_version st) /\ length (rs_current_root_hash st) = 32%nat.

Lemma commit_updates_agrees batch updates st : disk_agrees (commit_updates batch updates st).
Proof.
  unfold commit_updates. pose proof (root_length (rs_db st) false (parent_version_of (rs_current_version st)) updates overlay_new) as Hl.
  destruct (run_tree _ _ _ _) as [root ov]. cbn [fst] in Hl. split_and!; [|apply wadd_lt|done].
  cbn [rs_db apply_batch rs_current_version rs_current_root_hash]. apply load_jmt_state_commit; [apply wadd_lt|done].
Qed.

Lemma commit_certificates_agrees ls certs st : disk_agrees st -> disk_agrees (commit_certificates ls certs st).
Proof.
  unfold commit_certificates. revert st. induction certs as [|cert certs IH]; intros st Hst; [done|].
  cbn [foldl]. apply IH, commit_updates_agrees.
Qed.

(** ** The prepared commit *)

Definition speculative (st : RocksDbStorage) (ws : list (list SubstateWrite)) : StateRootHash * OverlayTreeStore * u64 :=
  let '(version, root) := load_jmt_state (rs_db st) in
  foldl (speculative_step (rs_db st) (rs_enable_historical_substate_values st)) (root, overlay_new, version) ws.

Lemma compute_speculative st base ws :
  let acc := speculative st ws in let '(version, root) := load_jmt_state (rs_db st) in
  compute_speculative_root st base ws =
  (blake3 acc.1.1, into_snapshot acc.1.2 root version acc.1.1 (N.of_nat (length ws))).
Proof.
  unfold compute_speculative_root, speculative. destruct (load_jmt_state (rs_db st)) as [version root].
  destruct ws as [|w ws]; [done|]. by destruct (foldl _ _ _) as [[r ov] v].
Qed.

Lemma speculative_version d historical acc ws : is_u64 acc.2 ->
  (foldl (speculative_step d historical) acc ws).2 = acc.2 +w N.of_nat (length ws).
Proof.
  revert acc. induction ws as [|w ws IH] using rev_ind; intros acc Hu; [cbn; by rewrite wadd_0_r|].
  rewrite foldl_app. cbn [foldl]. specialize (IH acc Hu).
  destruct (foldl (speculative_step d historical) acc ws) as [[r ov] v]. cbn [snd] in IH. subst v.
  unfold speculative_step. destruct (run_tree _ _ _ _) as [r' ov']. cbn [snd].
  rewrite wadd_assoc_1, length_app. f_equal. cbn [length]. lia.
Qed.

(** Two storages with the same state, apart from what is kept for history:
    the queue of stale parts and the associated values. *)
Record same_state (st st' : RocksDbStorage) : Prop := {
  same_version : rs_current_version st = rs_current_version st';
  same_root : rs_current_root_hash st = rs_current_root_hash st';
  same_metadata : load_jmt_state (rs_db st) = load_jmt_state (rs_db st');
  same_families c : same_cf c -> cf c (rs_db st) = cf c (rs_db st');
  same_default k : k <> JMT_VERSION_KEY -> k <> JMT_ROOT_HASH_KEY ->
    cf CfDefault (rs_db st) !! k = cf CfDefault (rs_db st') !! k
}.

Lemma nodes_over_same d d0 : cf CfJmtNodes d = cf CfJmtNodes d0 -> nodes_over d d0 ∅.
Proof. intros E. split; [|intros k _; by rewrite E]. intros key node H. by rewrite lookup_empty in H. Qed.

Lemma fast_path st0 st ls certs base :
  disk_agrees st -> load_jmt_state (rs_db st0) = (rs_current_version st, rs_current_root_hash st) ->
  cf CfJmtNodes (rs_db st) = cf CfJmtNodes (rs_db st0) ->
  stale_not_read (rs_db st0) (rs_enable_historical_substate_values st0)
    (rs_current_root_hash st, overlay_new, rs_current_version st) (writes_per_cert ls certs) ->
  let cache := mk_block_commit_cache (build_write_batch certs ls)
                 (compute_speculative_root st0 base (writes_per_cert ls certs)).2 in
  exists st', try_apply_block_commit_cache cache st = (true, st') /\ same_state st' (commit_certificates ls certs st) /\
    disk_agrees st' /\ cf CfJmtNodes (rs_db st') = cf CfJmtNodes (rs_db (commit_certificates ls certs st)).
Proof.
  intros Hagree H0 Hnodes Hreads cache. pose proof (compute_speculative st0 base (writes_per_cert ls certs)) as Hc.
  unfold speculative in Hc. rewrite H0 in Hc. cbv zeta in Hc. unfold cache. rewrite Hc. cbn [snd].
  set (d0 := rs_db st0) in *. set (historical := rs_enable_historical_substate_values st0) in *.
  set (acc := foldl (speculative_step d0 historical) _ _) in *.
  assert (commits_sim (commit_certificates ls certs st) acc d0) as [Sv Sr Sn].
  { apply commit_certificates_sim; [|done]. split; [done|done|]. by apply nodes_over_same. }
  assert (acc.2 = rs_current_version st +w N.of_nat (length (writes_per_cert ls certs))) as Hv.
  { unfold acc. rewrite speculative_version; [done|]. by destruct Hagree as (_ & ? & _). }
  pose proof (commit_certificates_agrees ls certs st Hagree) as (Ag & Au & Al). 
  rewrite Sv, Sr in Ag. rewrite Sv in Au. rewrite Sr in Al.
  unfold try_apply_block_commit_cache. cbn [bc_jmt_snapshot bc_write_batch].
  set (snapshot := into_snapshot _ _ _ _ _). change (js_base_root snapshot) with (rs_current_root_hash st).
  change (js_base_version snapshot) with (rs_current_version st).
  change (js_num_versions snapshot) with (N.of_nat (length (writes_per_cert ls certs))).
  rewrite bool_decide_true, N.eqb_refl by done. cbn [negb]. rewrite <- Hv. eexists. split; [done|].
  assert (load_jmt_state (write (build_write_batch certs ls ++ snapshot_ops (rs_enable_historical_substate_values st) acc.2 snapshot) (rs_db st))
    = (acc.2, acc.1.1)) as Hload by (by apply load_jmt_state_commit).
  assert (cf CfJmtNodes (write (build_write_batch certs ls ++ snapshot_ops (rs_enable_historical_substate_values st) acc.2 snapshot) (rs_db st))
    = cf CfJmtNodes (rs_db (commit_certificates ls certs st))) as Hn.
  { apply (nodes_over_unique _ _ d0 (ov_inserted_nodes acc.1.2)); [|done].
    rewrite <- (map_union_empty (ov_inserted_nodes acc.1.2)).
    apply (nodes_over_write _ _ _ snapshot); [|by apply batch_elsewhere]. by apply nodes_over_same. }
  split_and!; [|split_and!; [done..]|done].
  split; cbn [apply_batch rs_current_version rs_current_root_hash rs_db]; [done|done|by rewrite Hload, Ag| |].
  - intros c Hsame. destruct (decide (c = CfJmtNodes)) as [->|Hne]; [done|].
    rewrite commit_certificates_cf by done. destruct Hsame as (? & ? & ?). by apply cf_write_app_other, snapshot_ops_elsewhere.
  - intros k H1 H2. rewrite commit_certificates_default by done. rewrite write_app, snapshot_ops_default by done.
    by rewrite cf_write_other by (by apply batch_elsewhere).
Qed.

(** ** Storage in use *)

Definition with_db (f : Db -> Db) (st : RocksDbStorage) : RocksDbStorage :=
  mk_storage (f (rs_db st)) (rs_current_version st) (rs_current_root_hash st) (rs_block_commit_cache st)
    (rs_enable_historical_substate_values st) (rs_state_version_history_length st).

Definition with_cache (lru : BlockCommitCacheLru) (st : RocksDbStorage) : RocksDbStorage :=
  mk_storage (rs_db st) (rs_current_version st) (rs_current_root_hash st) lru
    (rs_enable_historical_substate_values st) (rs_state_version_history_length st).

Lemma commit_certificates_cache ls certs lru st :
  commit_certificates ls certs (with_cache lru st) = with_cache lru (commit_certificates ls certs st).
Proof.
  unfold commit_certificates. revert st. induction certs as [|cert certs IH]; intros st; [done|]. cbn [foldl].
  rewrite <- IH. f_equal. unfold commit_certificate_with_writes, commit_updates.
  cbn [with_cache rs_db rs_current_version rs_current_root_hash rs_enable_historical_substate_values].
  by destruct (run_tree _ _ _ _).
Qed.

(** The runs for the certificates of a block on the state of [st] read
    nothing stale. *)
Definition block_reads_fresh (st : RocksDbStorage) (ls : ShardGroupId) (certs : list TransactionCertificate) : Prop :=
  stale_not_read (rs_db st) (rs_enable_historical_substate_values st)
    ((load_jmt_state (rs_db st)).2, overlay_new, (load_jmt_state (rs_db st)).1) (writes_per_cert ls certs).

(** The runner on the storage: verifications, commits and writes to the chain;
    [certs_of] are the certificates that belong to a block hash, and the
    version counter does not wrap. *)
Inductive storage_step (ls : ShardGroupId) (certs_of : Hash -> list TransactionCertificate)
    (st : RocksDbStorage) : RocksDbStorage -> Prop :=
  | step_verify hash parent expected :
      block_reads_fresh st ls (certs_of hash) ->
      storage_step ls certs_of st (verify_state_root_task ls hash parent expected (certs_of hash) st).2
  | step_commit hash :
      is_u64 (N.of_nat (length (certs_of hash))) ->
      rs_current_version st <= rs_current_version (commit_block ls hash (certs_of hash) st).1 ->
      storage_step ls certs_of st (commit_block ls hash (certs_of hash) st).1
  | step_chain op : storage_step ls certs_of st (with_db (fun d => apply_op d op) st).

(** A storage that has been opened and used. *)
Inductive storage_reach (ls : ShardGroupId) (certs_of : Hash -> list TransactionCertificate)
    : RocksDbStorage -> Prop :=
  | reach_open d historical len :
      is_u64 (load_jmt_state d).1 -> storage_reach ls certs_of (open_storage d historical len)
  | reach_genesis st updates :
      storage_reach ls certs_of st -> rs_current_version st <= rs_current_version (commit updates st) ->
      storage_reach ls certs_of (commit updates st)
  | reach_step st st' : storage_reach ls certs_of st -> storage_step ls certs_of st st' -> storage_reach ls certs_of st'.

(** A cached commit was prepared on an earlier state, and that state is the
    current one when the versions agree. *)
Definition cache_ok (ls : ShardGroupId) (certs : list TransactionCertificate) (st : RocksDbStorage)
    (cache : BlockCommitCache) : Prop :=
  exists st0 base,
    cache = mk_block_commit_cache (build_write_batch certs ls)
              (compute_speculative_root st0 base (writes_per_cert ls certs)).2 /\
    block_reads_fresh st0 ls certs /\
    (load_jmt_state (rs_db st0)).1 <= rs_current_version st /\
    ((load_jmt_state (rs_db st0)).1 = rs_current_version st ->
     (load_jmt_state (rs_db st0)).2 = rs_current_root_hash st /\
     cf CfJmtNodes (rs_db st) = cf CfJmtNodes (rs_db st0)).

Record storage_ok (ls : ShardGroupId) (certs_of : Hash -> list TransactionCertificate) (st : RocksDbStorage) : Prop := {
  ok_disk : disk_agrees st;
  ok_caches hash cache : lru_map (rs_block_commit_cache st) !! hash = Some cache ->
    cache_ok ls (certs_of hash) st cache
}.

Lemma take_cache hash st :
  take_block_commit_cache hash st =
  (lru_map (rs_block_commit_cache st) !! hash, with_cache (lru_remove hash (rs_block_commit_cache st)).2 st).
Proof.
  unfold take_block_commit_cache, lru_remove. by destruct (lru_map (rs_block_commit_cache st) !! hash).
Qed.

Lemma try_apply_cases cache st :
  try_apply_block_commit_cache cache st = (false, st) \/
  (rs_current_version st = js_base_version (bc_jmt_snapshot cache) /\
   exists st', try_apply_block_commit_cache cache st = (true, st') /\
     rs_block_commit_cache st' = rs_block_commit_cache st).
Proof.
  unfold try_apply_block_commit_cache. destruct (negb _); [by left|].
  destruct (N.eqb_spec (rs_current_version st) (js_base_version (bc_jmt_snapshot cache))); [|by left].
  right. split; [done|]. by eexists.
Qed.

(** Whether the prepared commit is used or not, the state is the same. *)
Lemma commit_block_same ls certs_of st hash : storage_ok ls certs_of st ->
  let st' := (commit_block ls hash (certs_of hash) st).1 in
  same_state st' (commit_certificates ls (certs_of hash) st) /\ disk_agrees st' /\
  rs_block_commit_cache st' = (lru_remove hash (rs_block_commit_cache st)).2.
Proof.
  intros [Hd Hc]. unfold commit_block. rewrite take_cache. generalize ((lru_remove hash (rs_block_commit_cache st)).2) as lru.
  intros lru. assert (let st' := commit_certificates ls (certs_of hash) (with_cache lru st) in
    same_state st' (commit_certificates ls (certs_of hash) st) /\ disk_agrees st' /\ rs_block_commit_cache st' = lru) as Hslow.
  { rewrite commit_certificates_cache. split_and!; [by split|by apply (commit_certificates_agrees ls _ st)|done]. }
  destruct (lru_map (rs_block_commit_cache st) !! hash) as [cache|] eqn:E; [|done].
  destruct (try_apply_cases cache (with_cache lru st)) as [->|(Hv & st2 & Et & Hlru)]; [done|]. rewrite Et. cbn [fst].
  destruct (Hc hash cache E) as (st0 & base & -> & Hfresh & _ & Heq).
  pose proof (compute_speculative st0 base (writes_per_cert ls (certs_of hash))) as Hcomp.
  unfold block_reads_fresh in Hfresh. destruct (load_jmt_state (rs_db st0)) as [v0 r0] eqn:E0. cbv zeta in Hcomp. cbn [fst snd] in *.
  cbn [bc_jmt_snapshot] in Hv. rewrite Hcomp in Hv. cbn in Hv. symmetry in Hv. destruct (Heq Hv) as [-> Hn].
  rewrite Hv in *.
  destruct (fast_path st0 (with_cache lru st) ls (certs_of hash) base) as (st2' & Et' & Hsame & Hd2 & _); [done..|].
  rewrite Et in Et'. injection Et' as <-. rewrite commit_certificates_cache in Hsame.
  split_and!; [|done..]. by destruct Hsame.
Qed.

Lemma commit_certificates_version ls certs st : is_u64 (rs_current_version st) ->
  rs_current_version (commit_certificates ls certs st) = rs_current_version st +w N.of_nat (length certs).
Proof.
  intros Hu. unfold commit_certificates. induction certs as [|cert certs IH] using rev_ind; [cbn; by rewrite wadd_0_r|].
  rewrite foldl_app. cbn [foldl]. unfold commit_certificate_with_writes at 1, commit_updates.
  destruct (run_tree _ _ _ _). cbn [rs_current_version apply_batch]. rewrite IH, wadd_assoc_1, length_app.
  f_equal. cbn [length]. lia.
Qed.

Lemma wadd_moves v n : is_u64 v -> 0 < n -> is_u64 n -> v +w n <> v.
Proof.
  unfold is_u64, wadd, as_u64. intros Hv Hn Hn'. destruct (N.lt_ge_cases (v + n) u64_modulus).
  - rewrite N.mod_small by done. lia.
  - assert (v + n = (v + n - u64_modulus) + 1 * u64_modulus) as -> by lia.
    rewrite N.Div0.mod_add, N.mod_small by lia. lia.
Qed.

(** A cached commit stays good when the version grows or nothing changes. *)
Lemma cache_ok_later ls certs st st' cache :
  rs_current_version st <= rs_current_version st' ->
  (rs_current_version st = rs_current_version st' ->
   rs_current_root_hash st' = rs_current_root_hash st /\ cf CfJmtNodes (rs_db st') = cf CfJmtNodes (rs_db st)) ->
  cache_ok ls certs st cache -> cache_ok ls certs st' cache.
Proof.
  intros Hle Hsame (st0 & base & -> & Hf & Hv & Heq). exists st0, base. split_and!; [done|done|lia|].
  intros E. assert (rs_current_version st = rs_current_version st') as E2 by lia.
  destruct (Hsame E2) as [-> ->]. apply Heq. lia.
Qed.

Lemma lru_evict_lookup map order h c : lru_map (lru_evict map order) !! h = Some c -> map !! h = Some c.
Proof.
  revert map. induction order as [|o order IH]; intros map; [done|]. cbn [lru_evict]. case_match; [|done].
  intros Hl%IH. by apply lookup_delete_Some in Hl as [_ ?].
Qed.

Lemma lru_insert_lookup hash cache c h x : lru_map (lru_insert hash cache c) !! h = Some x ->
  (h = hash /\ x = cache) \/ lru_map c !! h = Some x.
Proof.
  cbn [lru_insert lru_map]. intros [[-> ->]|[_ Hl]]%lookup_insert_Some; [by left|]. right. by eapply lru_evict_lookup.
Qed.

Lemma lru_remove_lookup hash c h x : lru_map (lru_remove hash c).2 !! h = Some x -> lru_map c !! h = Some x.
Proof.
  unfold lru_remove. case_match; [|done]. cbn. by intros [_ ?]%lookup_delete_Some.
Qed.

Lemma apply_op_tree op d : load_jmt_state (apply_op d op) = load_jmt_state d /\ cf CfJmtNodes (apply_op d op) = cf CfJmtNodes d.
Proof.
  assert (forall d', cf CfDefault d' = cf CfDefault d -> load_jmt_state d' = load_jmt_state d) as Hload.
  { intros d' E. unfold load_jmt_state. by rewrite E. }
  destruct op as [b q|tx|cert|h x q|h r x|h]; cbn [apply_op].
  - rewrite block_batch_cf, !cf_write_other, cf_put_ne by (done || by apply puts_elsewhere).
    split; [|done]. apply Hload. by rewrite block_batch_cf, !cf_write_other, cf_put_ne by (done || by apply puts_elsewhere).
  - split; [apply Hload|]; by apply cf_put_ne.
  - split; [apply Hload|]; by apply cf_put_ne.
  - unfold set_chain_metadata. split; [|destruct x, q; by rewrite !cf_put_ne].
    unfold load_jmt_state. destruct x, q; rewrite !cf_put_eq, !lookup_insert_ne by discriminate; done.
  - split; [apply Hload|]; by apply cf_put_ne.
  - unfold prune_own_votes. split; [apply Hload|]; by rewrite cf_write_other by (by apply Forall_fmap, Forall_forall).
Qed.

Lemma storage_step_ok ls certs_of st st' : storage_ok ls certs_of st -> storage_step ls certs_of st st' ->
  storage_ok ls certs_of st'.
Proof.
  intros Hok [hash parent expected Hf|hash Hlen Hle|op]; pose proof Hok as [Hd Hc].
  - unfold verify_state_root_task. destruct (compute_speculative_root _ _ _) as [root snapshot] eqn:Es.
    destruct (root =? expected); [|by split]. split; [done|]. cbn [snd cache_block_commit rs_block_commit_cache].
    intros h cache [[-> ->]|Hl]%lru_insert_lookup; [|by apply (cache_ok_later _ _ st); [| |by apply Hc]].
    exists st, parent. rewrite Es. destruct Hd as (Hd & _). split_and!; [done|done|by rewrite Hd|]. by rewrite Hd.
  - destruct (commit_block_same ls certs_of st hash Hok) as ([Sv Sr _ Sf _] & Hd' & Hl').
    split; [done|]. rewrite Hl'. intros h cache Hl%lru_remove_lookup. apply (cache_ok_later _ _ st); [done| |by apply Hc].
    intros E. rewrite Sr, Sf by done. rewrite Sv, commit_certificates_version in E by apply Hd.
    destruct (certs_of hash) as [|cert certs] eqn:Ec; [done|]. exfalso.
    apply (wadd_moves (rs_current_version st) (N.of_nat (length (cert :: certs)))); [apply Hd|cbn; lia|done|done].
  - destruct (apply_op_tree op (rs_db st)) as [Hm Hn]. destruct Hd as (Hd & ? & ?).
    split; [split_and!; [by cbn; rewrite Hm|done..]|].
    intros h cache Hl. by apply (cache_ok_later _ _ st); [| |apply Hc].
Qed.

Lemma storage_reach_ok ls certs_of st : storage_reach ls certs_of st -> storage_ok ls certs_of st.
Proof.
  induction 1 as [d historical len Hu|st updates _ [Hd Hc] Hle|st st' _ IH Hstep]; [| |by eapply storage_step_ok].
  - unfold open_storage. destruct (load_jmt_state d) as [v r] eqn:E. cbn [fst] in Hu.
    split; [|intros hash cache Hl; cbn in Hl; by rewrite lookup_empty in Hl].
    split_and!; [done|done|]. cbn. unfold load_jmt_state in E. injection E as _ <-. repeat case_match; try done.
    by apply Nat.eqb_eq.
  - split; [apply commit_updates_agrees|]. unfold commit, commit_updates in *. destruct (run_tree _ _ _ _) as [r ov].
    cbn [apply_batch rs_block_commit_cache rs_current_version] in *. intros hash cache Hl.
    apply (cache_ok_later _ _ st); [done| |by apply Hc]. cbn [rs_current_version]. intros E.
    destruct (wadd_moves (rs_current_version st) 1); [apply Hd|done|done|done].
Qed.

(** C18: The prepared commit of a block is an optimisation that cannot be
    seen.  In every state that storage can get into by opening it, genesis,
    verifications of blocks that cache a prepared commit, commits of blocks
    and writes to the chain, in any order, committing a block leaves the same
    state as committing it certificate by certificate: the same version and
    root in memory and on disk, the same certificates, substates and tree
    nodes, the same blocks, votes and metadata.  A cached batch is used only
    if it was prepared on the current state, which the check of the base root
    and version ensures. *)
Theorem prepared_commit_transparent ls certs_of st hash :
  storage_reach ls certs_of st ->
  same_state (commit_block ls hash (certs_of hash) st).1 (commit_certificates ls (certs_of hash) st).
Proof. intros Hst%storage_reach_ok. by apply commit_block_same. Qed.

(** C19: What a validator verifies is what it commits: when the runner has
    answered that the state root of a block's header is right, the commit of
    the block on that state reports exactly this root, and a version that has
    grown by the number of certificates, whether a prepared commit is cached
    or not. *)
Theorem verified_root_is_committed ls certs_of st hash parent expected :
  storage_reach ls certs_of st -> block_reads_fresh st ls (certs_of hash) ->
  verify_state_root (jmt_store_of st) ls parent expected (certs_of hash) = true ->
  (commit_block ls hash (certs_of hash) st).2 =
  (rs_current_version st +w N.of_nat (length (certs_of hash)), expected).
Proof.
  intros Hst%storage_reach_ok Hf Hv. destruct (commit_block_same ls certs_of st hash Hst) as ([Sv Sr _ _ _] & _).
  destruct Hst as [(Hd & Hu & _) _]. unfold verify_state_root in Hv. apply N.eqb_eq in Hv.
  cbn [jmt_store_of compute_speculative_root_from_base] in Hv.
  pose proof (compute_speculative st parent (writes_per_cert ls (certs_of hash))) as Hc.
  unfold block_reads_fresh in Hf. unfold speculative in Hc. rewrite Hd in Hc, Hf. cbv zeta in Hc. rewrite Hc in Hv. cbn [fst] in Hv.
  assert (commits_sim st (rs_current_root_hash st, overlay_new, rs_current_version st) (rs_db st)) as Hsim
    by (split; [done|done|by apply nodes_over_same]).
  destruct (commit_certificates_sim ls _ _ _ _ _ Hsim Hf) as [Cv Cr _].
  assert ((commit_block ls hash (certs_of hash) st).2 =
    (state_version (commit_block ls hash (certs_of hash) st).1, storage_jmt_root (commit_block ls hash (certs_of hash) st).1)) as ->.
  { unfold commit_block. destruct (take_block_commit_cache hash st) as [cache st1]. by case_match. }
  unfold state_version, storage_jmt_root. rewrite Sv, Sr, Cr, <- Hv. f_equal. by apply commit_certificates_version.
Qed.

(** ** What the engine reads *)

(** Two databases with the same substates in the default column family. *)
Definition same_radix (d d' : Db) : Prop :=
  forall k, key_ltb k RADIX_PREFIX = false -> cf CfDefault d !! k = cf CfDefault d' !! k.

Lemma apply_op_radix op d : same_radix (apply_op d op) d.
Proof.
  intros k Hk. destruct op as [b q|tx|cert|h x q|h r x|h]; cbn [apply_op].
  - by rewrite block_batch_cf, !cf_write_other, cf_put_ne by (done || by apply puts_elsewhere).
  - unfold put_transaction. by rewrite cf_put_ne.
  - unfold put_certificate. by rewrite cf_put_ne.
  - unfold set_chain_metadata. destruct x, q; rewrite !cf_put_eq, !lookup_insert_ne; try done; intros <-; discriminate Hk.
  - unfold put_own_vote. by rewrite cf_put_ne.
  - unfold prune_own_votes. by rewrite cf_write_other by (by apply Forall_fmap, Forall_forall).
Qed.

Lemma storage_step_radix ls certs_of st st' : storage_ok ls certs_of st -> storage_step ls certs_of st st' ->
  same_radix (rs_db st') (rs_db st).
Proof.
  intros Hok [hash parent expected Hf|hash Hlen Hle|op].
  - unfold verify_state_root_task. destruct (compute_speculative_root _ _ _). by case_match.
  - intros k Hk. destruct (commit_block_same ls certs_of st hash Hok) as ([_ _ _ _ Sd] & _).
    assert (k <> JMT_VERSION_KEY /\ k <> JMT_ROOT_HASH_KEY) as [H1 H2] by (split; intros ->; discriminate Hk).
    by rewrite Sd, commit_certificates_default.
  - apply apply_op_radix.
Qed.

Lemma iter_range_radix d d' prefix start : same_radix d d' -> key_ltb start RADIX_PREFIX = false ->
  iter_range d start prefix = iter_range d' start prefix.
Proof.
  intros Hr Hs. unfold iter_range. apply key_lt_unique; [apply range_sorted, iterator_sorted..|].
  intros [k v]. rewrite !elem_of_range by apply iterator_sorted. rewrite !elem_of_iterator_cf. cbn [fst].
  assert (key_ltb k start = false -> key_ltb k RADIX_PREFIX = false) as Hk.
  { intros H. exact (key_le_trans (RADIX_PREFIX, tt) (start, tt) (k, tt) Hs H). }
  split; intros (Hin & H1 & H2); (split_and!; [|done..]).
  - by rewrite <- Hr by auto.
  - by rewrite Hr by auto.
Qed.

Lemma radix_key_ge p : key_ltb (RADIX_PREFIX ++ p) RADIX_PREFIX = false.
Proof. rewrite <- (app_nil_r RADIX_PREFIX) at 2. rewrite key_ltb_prefix. by destruct p. Qed.

Lemma same_radix_equiv d d' : same_radix d d' -> db_equiv (rocksdb_substates d) (rocksdb_substates d').
Proof.
  intros Hr pk _. split; [intros sk; apply Hr, radix_key_ge|]. intros from.
  cbn [list_raw_values_from_db_key rocksdb_substates]. f_equal. apply iter_range_radix; [done|].
  destruct from as [f|]; cbn [scan_start]; unfold partition_prefix; rewrite <- ?app_assoc; apply radix_key_ge.
Qed.

Lemma same_radix_fetch d d' nodes : same_radix d d' -> fetch_state_entries d nodes = fetch_state_entries d' nodes.
Proof.
  intros Hr. unfold fetch_state_entries. apply list_bind_ext; [|done]. intros n. f_equal.
  unfold list_substates_for_node. f_equal. apply iter_range_radix; [done|apply radix_key_ge].
Qed.

Lemma storage_steps_radix ls certs_of st st' : storage_reach ls certs_of st ->
  rtc (storage_step ls certs_of) st st' -> same_radix (rs_db st') (rs_db st).
Proof.
  intros Hst Hsteps. revert Hst. induction Hsteps as [st|st st1 st2 Hstep _ IH]; intros Hst; [done|].
  intros k Hk. rewrite IH by (done || by eapply reach_step).
  by apply (storage_step_radix ls certs_of st); [apply storage_reach_ok|..].
Qed.

(** C40: Committed state is never read.  The writes of certificates go to the
    column family "state", while the engine and the fetching of state for
    other shards read the default column family, which only genesis writes:
    after any sequence of verifications, committed blocks and other writes,
    the execution of any transaction gives the result it gave before them,
    and other shards are sent the state from before them. *)
Theorem committed_state_never_read `{!RadixLaws} ls certs_of st st' verify tx nodes :
  storage_reach ls certs_of st -> rtc (storage_step ls certs_of) st st' ->
  @execute_single_shard (radix_engine (rs_db st') verify) tx =
  @execute_single_shard (radix_engine (rs_db st) verify) tx /\
  fetch_state_entries (rs_db st') nodes = fetch_state_entries (rs_db st) nodes.
Proof.
  intros Hst Hsteps. pose proof (storage_steps_radix ls certs_of st st' Hst Hsteps) as Hr.
  split; [|by apply same_radix_fetch]. cbn [execute_single_shard radix_engine]. unfold executor_single_shard.
  assert (execute_one (rocksdb_substates (rs_db st')) tx = execute_one (rocksdb_substates (rs_db st)) tx) as E.
  { unfold execute_one. destruct (get_or_validate tx); [|done]. cbn.
    by rewrite (execute_transaction_proper _ _ _ (same_radix_equiv _ _ Hr)). }
  cbn [mapM]. by rewrite E.
Qed.

(** ** The cache of prepared commits *)

Record lru_ok (c : BlockCommitCacheLru) : Prop := {
  lru_order_map : dom (lru_map c) = list_to_set (lru_order c);
  lru_order_NoDup : NoDup (lru_order c);
  lru_bounded : (size (lru_map c) <= BLOCK_COMMIT_CACHE_MAX_SIZE)%nat
}.

Lemma lru_evict_ok order (X : gset Hash) map :
  NoDup order -> dom map = list_to_set order ∪ X -> (forall h, h ∈ X -> h ∉ order) ->
  let c := lru_evict map order in
  dom (lru_map c) = list_to_set (lru_order c) ∪ X /\ NoDup (lru_order c) /\ (forall h, h ∈ lru_order c -> h ∈ order) /\
  ((size (lru_map c) < BLOCK_COMMIT_CACHE_MAX_SIZE)%nat \/ lru_order c = []).
Proof.
  revert map. induction order as [|o order IH]; intros map Hnd Hdom HX; cbn [lru_evict].
  { split_and!; [done|done|done|by right]. }
  destruct (Nat.leb_spec BLOCK_COMMIT_CACHE_MAX_SIZE (size map)) as [_|Hlt]; [|split_and!; [done..|by left]].
  apply NoDup_cons in Hnd as [Hno Hnd]. destruct (IH (delete o map)) as (H1 & H2 & H3 & H4); [done| | |].
  - rewrite dom_delete_L, Hdom. assert (o ∉ X) by (intros Ho; apply (HX o Ho); by left). set_solver.
  - intros h Hh Hin. apply (HX h Hh). by right.
  - split_and!; [done|done| |done]. intros h Hh. right. by apply H3.
Qed.

Lemma lru_insert_ok hash cache c : lru_ok c -> lru_ok (lru_insert hash cache c).
Proof.
  intros [Hdom Hnd _]. unfold lru_insert. set (order := if contains_key _ _ then _ else _).
  set (X := if contains_key (lru_map c) hash then {[hash]} else ∅ : gset Hash).
  assert (NoDup order /\ hash ∉ order /\ dom (lru_map c) = list_to_set order ∪ X) as (Ho & Hn & Hd).
  { unfold order, X. unfold contains_key. destruct (lru_map c !! hash) as [x|] eqn:E; cbn.
    - assert (hash ∈ lru_order c) as Hin.
      { apply (elem_of_list_to_set (C := gset Hash)). rewrite <- Hdom. apply elem_of_dom. by eexists. }
      split_and!; [by apply NoDup_filter|intros [? _]%list_elem_of_filter; done|]. rewrite Hdom. apply set_eq. intros y.
      rewrite elem_of_union, !elem_of_list_to_set, list_elem_of_filter, elem_of_singleton.
      destruct (decide (y = hash)); naive_solver.
    - split_and!; [done| |by rewrite union_empty_r_L]. intros Hin%(elem_of_list_to_set (C := gset Hash)).
      rewrite <- Hdom in Hin. apply elem_of_dom in Hin as [? ?]. congruence. }
  destruct (lru_evict_ok order X (lru_map c) Ho Hd) as (H1 & H2 & H3 & H4).
  { intros h Hh. unfold X in Hh. destruct (contains_key _ _); [apply elem_of_singleton in Hh; by subst|set_solver]. }
  assert (X ⊆ {[hash]}) as HX by (unfold X; destruct (contains_key _ _); set_solver).
  assert (size (lru_map (lru_evict (lru_map c) order)) < BLOCK_COMMIT_CACHE_MAX_SIZE)%nat as Hsize.
  { destruct H4 as [|H4]; [done|]. rewrite <- size_dom, H1, H4. cbn [list_to_set]. rewrite union_empty_l_L.
    assert (size X <= 1)%nat; [|unfold BLOCK_COMMIT_CACHE_MAX_SIZE; lia].
    transitivity (size ({[hash]} : gset Hash)); [by apply subseteq_size|by rewrite size_singleton]. }
  split; cbn [lru_map lru_order].
  - rewrite dom_insert_L, H1, list_to_set_app_L. cbn [list_to_set]. set_solver.
  - apply NoDup_app. split_and!; [done| |apply NoDup_singleton].
    intros h Hh ->%list_elem_of_singleton. by apply Hn, H3.
  - rewrite map_size_insert. unfold BLOCK_COMMIT_CACHE_MAX_SIZE in *. case_match; cbn; lia.
Qed.

Lemma lru_remove_ok hash c : lru_ok c -> lru_ok (lru_remove hash c).2.
Proof.
  intros [Hdom Hnd Hs]. unfold lru_remove. destruct (lru_map c !! hash) as [x|] eqn:E; [|by split]. cbn.
  split; cbn [lru_map lru_order].
  - rewrite dom_delete_L, Hdom. apply set_eq. intros y.
    rewrite elem_of_difference, !elem_of_list_to_set, list_elem_of_filter, elem_of_singleton. naive_solver.
  - by apply NoDup_filter.
  - rewrite map_size_delete, E. cbn. lia.
Qed.

(** The cache holds at most 32 prepared commits, each once in its queue. *)
Lemma cache_bounded ls certs_of st : storage_reach ls certs_of st -> lru_ok (rs_block_commit_cache st).
Proof.
  induction 1 as [d historical len _|st updates _ IH _|st st' Hst IH Hstep].
  - unfold open_storage. destruct (load_jmt_state d). split; [done|apply NoDup_nil_2|]. cbn [rs_block_commit_cache lru_new lru_map].
    rewrite map_size_empty. lia.
  - unfold commit, commit_updates. by destruct (run_tree _ _ _ _).
  - destruct Hstep as [hash parent expected _|hash _ _|op]; [| |done].
    + unfold verify_state_root_task. destruct (compute_speculative_root _ _ _). case_match; [|done]. by apply lru_insert_ok.
    + apply storage_reach_ok in Hst. destruct (commit_block_same ls certs_of st hash Hst) as (_ & _ & ->).
      by apply lru_remove_ok.
Qed.
End laws.
End commit.

(** ** A concrete tree *)

(** One node per version, which counts the updates; the node of the version
    before is stale. *)
Definition sample_put (parent : option u64) (updates : DatabaseUpdates) : TreeProgram N N :=
  let v := default 0 parent in
  GetNode v (fun node =>
    let count := default 0 node + N.of_nat (length updates) in
    InsertNode (v + 1) count
      (RecordStaleTreePart (StaleNode v) (TreeRoot (replicate 31 0 ++ [count])))).

Definition sample_jmt : Jmt := {|
  StoredTreeNodeKey := N;
  TreeNode := N;
  encode_jmt_key k := [k];
  gen_child_node_keys _ _ := [];
  put_at_next_version := sample_put
|}.

Lemma sample_jmt_laws : @JmtLaws sample_sbor sample_jmt.
Proof. split; [by intros k k' [= ->]|done]. Qed.

Definition storing_proof (w : list SubstateWrite) : StateCertificate :=
  mk_state_certificate 4 0 [] w 0 true 0 SignerBitfieldOps.empty 3.

Definition storing_certs (hash : Hash) : list TransactionCertificate :=
  [mk_transaction_certificate 4 Accept {[0 := storing_proof [mk_substate_write 5 0 [1] [10]]]};
   mk_transaction_certificate 6 Accept {[0 := storing_proof [mk_substate_write 5 0 [1] [20]; mk_substate_write 6 0 [1] [30]]]}].

Definition fresh_storage : @RocksDbStorage sample_jmt := @open_storage sample_jmt empty_db false 10.

(** The storage after the verification of block 1. *)
Definition verified_storage : @RocksDbStorage sample_jmt :=
  (@verify_state_root_task sample_crypto sample_sbor sample_radix sample_jmt 0 1 0
     (@compute_speculative_root sample_crypto sample_sbor sample_radix sample_jmt fresh_storage 0
        (writes_per_cert 0 (storing_certs 1))).1 (storing_certs 1) fresh_storage).2.

Lemma storing_reads_fresh : @block_reads_fresh sample_sbor sample_radix sample_jmt fresh_storage 0 (storing_certs 1).
Proof.
  split; [split; [apply (bool_decide_unpack _); vm_compute; reflexivity|exact I]|].
  split; [split; [apply (bool_decide_unpack _); vm_compute; reflexivity|exact I]|exact I].
Qed.

Lemma fresh_reach : @storage_reach sample_crypto sample_sbor sample_radix sample_jmt 0 storing_certs fresh_storage.
Proof. apply reach_open. vm_compute; reflexivity. Qed.

Lemma verified_step : @storage_step sample_crypto sample_sbor sample_radix sample_jmt 0 storing_certs fresh_storage verified_storage.
Proof. apply (step_verify 0 storing_certs fresh_storage 1). apply storing_reads_fresh. Qed.

Lemma verified_version : rs_current_version verified_storage = 0.
Proof.
  unfold verified_storage, verify_state_root_task. destruct (compute_speculative_root _ _ _) as [root snapshot].
  cbn [fst]. by rewrite N.eqb_refl.
Qed.

Lemma verified_cached : is_Some (lru_map (rs_block_commit_cache verified_storage) !! 1).
Proof.
  unfold verified_storage, verify_state_root_task. destruct (compute_speculative_root _ _ _) as [root snapshot].
  cbn [fst]. rewrite N.eqb_refl. cbn [snd cache_block_commit rs_block_commit_cache lru_insert lru_map].
  rewrite lookup_insert_eq. by eexists.
Qed.

Lemma prepared_commit_transparent_witness :
  is_Some (lru_map (rs_block_commit_cache verified_storage) !! 1) /\
  same_state (@commit_block sample_crypto sample_sbor sample_radix sample_jmt 0 1 (storing_certs 1) verified_storage).1
    (@commit_certificates sample_sbor sample_radix sample_jmt 0 (storing_certs 1) verified_storage).
Proof.
  split; [apply verified_cached|].
  apply (@prepared_commit_transparent sample_crypto sample_sbor sample_radix sample_jmt sample_jmt_laws 0 storing_certs).
  exact (reach_step 0 storing_certs _ _ fresh_reach verified_step).
Defined.

Lemma verified_root_is_committed_witness :
  (@commit_block sample_crypto sample_sbor sample_radix sample_jmt 0 1 (storing_certs 1) fresh_storage).2 =
  (2, @blake3 sample_crypto (replicate 31 0 ++ [3])).
Proof.
  apply (@verified_root_is_committed sample_crypto sample_sbor sample_radix sample_jmt sample_jmt_laws 0 storing_certs
           fresh_storage 1 0 (@blake3 sample_crypto (replicate 31 0 ++ [3]))).
  - apply fresh_reach.
  - apply storing_reads_fresh.
  - vm_compute; reflexivity.
Defined.

(** The storage after the commit of block 1. *)
Definition committed_storage : @RocksDbStorage sample_jmt :=
  (@commit_block sample_crypto sample_sbor sample_radix sample_jmt 0 1 (storing_certs 1) verified_storage).1.

Lemma committed_version : rs_current_version committed_storage = 2.
Proof.
  pose proof (@storage_reach_ok sample_crypto sample_sbor sample_radix sample_jmt sample_jmt_laws 0 storing_certs _
    (reach_step 0 storing_certs _ _ fresh_reach verified_step)) as Hok.
  destruct (@commit_block_same sample_crypto sample_sbor sample_radix sample_jmt sample_jmt_laws 0 storing_certs _ 1 Hok)
    as ([Hv _ _ _ _] & _).
  unfold committed_storage. by rewrite Hv, commit_certificates_version, verified_version by (by rewrite verified_version).
Qed.

Lemma committed_step :
  @storage_step sample_crypto sample_sbor sample_radix sample_jmt 0 storing_certs verified_storage committed_storage.
Proof.
  pose proof committed_version as Hv. unfold committed_storage in *.
  refine (@step_commit sample_crypto sample_sbor sample_radix sample_jmt 0 storing_certs verified_storage 1 _ _).
  - vm_compute; reflexivity.
  - rewrite Hv, verified_version. discriminate.
Qed.

Lemma committed_state_never_read_witness :
  rs_current_version committed_storage = 2 /\
  @execute_single_shard (@radix_engine sample_crypto sample_radix (rs_db committed_storage) (fun _ _ _ => true)) two_tx =
  @execute_single_shard (@radix_engine sample_crypto sample_radix (rs_db fresh_storage) (fun _ _ _ => true)) two_tx /\
  @fetch_state_entries sample_radix (rs_db committed_storage) [5] = @fetch_state_entries sample_radix (rs_db fresh_storage) [5].
Proof.
  split; [apply committed_version|].
  apply (@committed_state_never_read sample_crypto sample_sbor sample_radix sample_jmt sample_jmt_laws sample_radix_laws
           0 storing_certs fresh_storage committed_storage).
  - apply fresh_reach.
  - apply (rtc_l _ _ verified_storage); [apply verified_step|]. apply rtc_once.
    apply committed_step.
Defined.
