(* ===== verification/StorageGc.v ===== *)
(** * Garbage collection of the state tree

    What [run_jmt_gc] deletes and what it keeps. *)

From stdpp Require Import base gmap list numbers sorting.
From Stdlib Require Import NArith Lia.
From S2P Require Import Prelude Bitfield Types Encoding Topology Transactions Runner.
From S2P Require Import Sbor BftState Storage StorageChain Substates SubstateTheory CrossShard StorageTree StorageCommit.

#[export] Instance BatchOp_eq_dec : EqDecision BatchOp.
Proof. solve_decision. Defined.

Definition is_delete (op : BatchOp) : Prop := match op with DeleteCf _ _ => True | PutCf _ _ _ => False end.

(** A batch of deletions. *)
Lemma lookup_deletions c batch d k : Forall is_delete batch ->
  cf c (write batch d) !! k = if decide (DeleteCf c k ∈ batch) then None else cf c d !! k.
Proof.
  intros Hb. revert d. induction Hb as [|op batch Hop _ IH]; intros d.
  { by rewrite decide_False by apply not_elem_of_nil. }
  destruct op as [|c' k']; [done|]. cbn [write foldl write_op]. fold (write batch (with_cf c' (delete k') d)).
  rewrite IH, cf_with_cf. case_decide as H1.
  { rewrite decide_True; [done|]. by right. }
  destruct (decide (c' = c)) as [->|Hc].
  - destruct (decide (k = k')) as [->|Hk]; [rewrite lookup_delete_eq, decide_True; [done|by left]|].
    rewrite lookup_delete_ne by done. rewrite decide_False; [done|]. intros [[= ?]|?]%elem_of_cons; done.
  - rewrite decide_False; [done|]. intros [[= ? ?]|?]%elem_of_cons; [by subst|done].
Qed.

Section gc.
Context `{SB : Sbor} `{J : Jmt}.

(** The keys at and below a node. *)
Inductive below (d : Db) : StoredTreeNodeKey -> StoredTreeNodeKey -> Prop :=
  | below_here key : below d key key
  | below_child key node child key' :
      get_node d key = Some node -> child ∈ gen_child_node_keys key node -> below d child key' -> below d key key'.

(** The subtree of a node is at most [n] levels deep. *)
Inductive depth (d : Db) : nat -> StoredTreeNodeKey -> Prop :=
  | depth_none n key : get_node d key = None -> depth d (S n) key
  | depth_node n key node : get_node d key = Some node ->
      (forall child, child ∈ gen_child_node_keys key node -> depth d n child) -> depth d (S n) key.

(** A part that is recorded at a version before the cutoff. *)
Definition old_part (d : Db) (cutoff : u64) (part : StaleTreePart StoredTreeNodeKey) : Prop :=
  exists version (parts : list (StaleTreePart StoredTreeNodeKey)), version < cutoff /\ is_u64 version /\
    cf CfStaleParts d !! to_be_bytes version = Some (basic_encode parts) /\ part ∈ parts.

(** The keys that a part stands for. *)
Definition part_covers (d : Db) (part : StaleTreePart StoredTreeNodeKey) (key : StoredTreeNodeKey) : Prop :=
  match part with StaleNode k => key = k | StaleSubtree k => below d k key end.

Lemma delete_node_ops_in historical key op : op ∈ delete_node_ops historical key ->
  op = DeleteCf CfJmtNodes (encode_jmt_key key) \/ op = DeleteCf CfAssociatedValues (encode_jmt_key key).
Proof. unfold delete_node_ops. destruct historical; set_solver. Qed.

Lemma delete_subtree_sound fuel d historical key op : op ∈ delete_subtree_recursive fuel d historical key ->
  exists key', below d key key' /\ op ∈ delete_node_ops historical key'.
Proof.
  revert key. induction fuel as [|fuel IH]; intros key; cbn [delete_subtree_recursive]; [by intros ?%not_elem_of_nil|].
  destruct (cf CfJmtNodes d !! encode_jmt_key key) as [bytes|] eqn:E; [|by intros ?%not_elem_of_nil].
  destruct (basic_decode bytes) as [node|] eqn:En.
  - intros [(child & Hop & Hc)%list_elem_of_bind|Hop]%elem_of_app.
    + destruct (IH child Hop) as (key' & Hb & Hin). exists key'. split; [|done].
      apply (below_child _ key node child); [|done..]. unfold get_node. by rewrite E.
    + exists key. split; [constructor|done].
  - intros Hop. exists key. split; [constructor|done].
Qed.

(** With fuel for its depth the whole subtree is deleted, as far as it is
    there. *)
Lemma delete_subtree_complete fuel d historical key key' : depth d fuel key -> below d key key' ->
  is_Some (get_node d key') ->
  DeleteCf CfJmtNodes (encode_jmt_key key') ∈ delete_subtree_recursive fuel d historical key.
Proof.
  intros Hd Hb. revert fuel Hd. induction Hb as [key|key node child key' Hn Hc _ IH]; intros fuel Hd Hsome.
  - destruct fuel as [|fuel]; [by inversion Hd|]. cbn [delete_subtree_recursive]. destruct Hsome as [node Hn].
    unfold get_node in Hn. destruct (cf CfJmtNodes d !! encode_jmt_key key) as [bytes|]; [|done]. cbn in Hn.
    rewrite Hn. apply elem_of_app. right. by left.
  - inversion Hd as [|fuel' ? node' Hn' Hch]; subst; [congruence|]. assert (node' = node) as -> by congruence.
    cbn [delete_subtree_recursive]. unfold get_node in Hn.
    destruct (cf CfJmtNodes d !! encode_jmt_key key) as [bytes|]; [|done]. cbn in Hn. rewrite Hn.
    apply elem_of_app. left. apply list_elem_of_bind. exists child. split; [|done]. apply IH; [by apply Hch|done].
Qed.

(** ** The queue *)

Definition queue_ok (d : Db) : Prop := forall k v, cf CfStaleParts d !! k = Some v ->
  exists version (parts : list (StaleTreePart StoredTreeNodeKey)),
    is_u64 version /\ k = to_be_bytes version /\ v = basic_encode parts.

Lemma gc_ops_exact fuel d historical cutoff entries op :
  StronglySorted key_lt entries ->
  (forall k v, (k, v) ∈ entries -> exists version (parts : list (StaleTreePart StoredTreeNodeKey)),
     is_u64 version /\ k = to_be_bytes version /\ v = basic_encode parts) ->
  op ∈ gc_ops fuel d historical cutoff entries <->
  exists version (parts : list (StaleTreePart StoredTreeNodeKey)), version < cutoff /\ is_u64 version /\
    (to_be_bytes version, basic_encode parts) ∈ entries /\
    (op = DeleteCf CfStaleParts (to_be_bytes version) \/ op ∈ parts ≫= stale_part_ops fuel d historical).
Proof.
  induction 1 as [|[k v] entries Hs IH Hlt]; intros Hq; cbn [gc_ops].
  { split; [by intros ?%not_elem_of_nil|]. intros (? & ? & _ & _ & Hin & _). by apply not_elem_of_nil in Hin. }
  destruct (Hq k v) as (version & parts & Hu & -> & ->); [by left|]. rewrite from_be_bytes_to_be_bytes by done.
  destruct (N.leb_spec cutoff version) as [Hge|Hv].
  - split; [by intros ?%not_elem_of_nil|]. intros (version' & parts' & Hv & Hu' & Hin & _). exfalso.
    apply elem_of_cons in Hin as [E|Hin].
    + apply (f_equal fst), to_be_bytes_inj in E; [|done..]. lia.
    + rewrite Forall_forall in Hlt. specialize (Hlt _ Hin). unfold key_lt in Hlt. cbn [fst] in Hlt.
      rewrite key_ltb_to_be_bytes in Hlt by done. apply N.ltb_lt in Hlt. lia.
  - rewrite sbor_roundtrip, elem_of_app, elem_of_cons, IH by (intros; apply Hq; by right). split.
    + intros [Hop|[->|(version' & parts' & ? & ? & ? & ?)]].
      * exists version, parts. split_and!; [done|done|by left|by right].
      * exists version, parts. split_and!; [done|done|by left|by left].
      * exists version', parts'. split_and!; [done|done|by right|done].
    + intros (version' & parts' & Hv' & Hu' & [E|Hin]%elem_of_cons & Hop).
      * pose proof (f_equal fst E) as E1. apply to_be_bytes_inj in E1; [|done..].
        pose proof (f_equal snd E) as E2. apply basic_encode_inj in E2. subst. naive_solver.
      * right. right. by exists version', parts'.
Qed.

Definition gc_cutoff (st : RocksDbStorage) : u64 := rs_current_version st - rs_state_version_history_length st.

Definition gc_batch (fuel : nat) (st : RocksDbStorage) : list BatchOp :=
  gc_ops fuel (rs_db st) (rs_enable_historical_substate_values st) (gc_cutoff st) (iterator_cf CfStaleParts (rs_db st)).

Lemma gc_batch_exact fuel st op : queue_ok (rs_db st) ->
  op ∈ gc_batch fuel st <->
  (exists version (parts : list (StaleTreePart StoredTreeNodeKey)), version < gc_cutoff st /\ is_u64 version /\
     cf CfStaleParts (rs_db st) !! to_be_bytes version = Some (basic_encode parts) /\
     op = DeleteCf CfStaleParts (to_be_bytes version)) \/
  (exists part, old_part (rs_db st) (gc_cutoff st) part /\
     op ∈ stale_part_ops fuel (rs_db st) (rs_enable_historical_substate_values st) part).
Proof.
  intros Hq. unfold gc_batch. rewrite gc_ops_exact; [|apply iterator_sorted|intros k v Hin%elem_of_iterator_cf; by apply Hq].
  setoid_rewrite elem_of_iterator_cf. unfold old_part. split.
  - intros (version & parts & Hv & Hu & Hin & [->|(part & Hop & Hp)%list_elem_of_bind]).
    + left. by exists version, parts.
    + right. exists part. split; [|done]. by exists version, parts.
  - intros [(version & parts & Hv & Hu & Hin & ->)|(part & (version & parts & Hv & Hu & Hin & Hp) & Hop)];
      exists version, parts; (split_and!; [done..|]); [by left|right]. apply list_elem_of_bind. by exists part.
Qed.

Lemma stale_part_ops_in fuel d historical part op : op ∈ stale_part_ops fuel d historical part ->
  exists key, part_covers d part key /\ op ∈ delete_node_ops historical key.
Proof. destruct part as [key|key]; [intros Hop; by exists key|apply delete_subtree_sound]. Qed.

Lemma gc_batch_deletes fuel st : queue_ok (rs_db st) -> Forall is_delete (gc_batch fuel st).
Proof.
  intros Hq. apply Forall_forall. intros op [(? & ? & _ & _ & _ & ->)|(part & _ & Hop)]%gc_batch_exact; [done| |done].
  apply stale_part_ops_in in Hop as (key & _ & [->| ->]%delete_node_ops_in); done.
Qed.

Lemma run_gc_write fuel st : queue_ok (rs_db st) -> rs_db (run_jmt_gc fuel st) = write (gc_batch fuel st) (rs_db st).
Proof.
  intros Hq. unfold run_jmt_gc. fold (gc_cutoff st). destruct (N.eqb_spec (gc_cutoff st) 0) as [E|]; [|done].
  assert (gc_batch fuel st = []) as ->; [|done]. apply elem_of_nil_inv. intros op.
  intros [(version & ? & Hv & _)|(part & (version & ? & Hv & _) & _)]%gc_batch_exact; lia || done.
Qed.

Section run.
Context (fuel : nat) (st : RocksDbStorage).
Hypothesis Hq : queue_ok (rs_db st).
Hypothesis Hdepth : forall key, old_part (rs_db st) (gc_cutoff st) (StaleSubtree key) -> depth (rs_db st) fuel key.

Lemma gc_deletes_covered key part : old_part (rs_db st) (gc_cutoff st) part -> part_covers (rs_db st) part key ->
  get_node (write (gc_batch fuel st) (rs_db st)) key = None.
Proof.
  intros Hold Hcov. unfold get_node. rewrite lookup_deletions by (by apply gc_batch_deletes).
  case_decide as Hin; [done|]. fold (get_node (rs_db st) key). destruct (get_node (rs_db st) key) as [node|] eqn:E; [|done].
  exfalso. apply Hin, gc_batch_exact; [done|]. right. exists part. split; [done|].
  destruct part as [k|k]; cbn in Hcov |- *; [subst; by left|].
  apply delete_subtree_complete; [by apply Hdepth|done|by eexists].
Qed.

Lemma gc_keeps_uncovered `{!JmtLaws} key :
  (forall part, old_part (rs_db st) (gc_cutoff st) part -> ~ part_covers (rs_db st) part key) ->
  get_node (write (gc_batch fuel st) (rs_db st)) key = get_node (rs_db st) key.
Proof.
  intros Hno. unfold get_node. rewrite lookup_deletions by (by apply gc_batch_deletes). rewrite decide_False; [done|].
  intros [(? & ? & _ & _ & _ & [=])|(part & Hold & Hop)]%gc_batch_exact; [|done].
  apply stale_part_ops_in in Hop as (key' & Hcov & [[= E]|[=]]%delete_node_ops_in).
  apply encode_jmt_key_inj in E. subst key'. by apply (Hno part).
Qed.

Lemma gc_queue version : is_u64 version ->
  cf CfStaleParts (write (gc_batch fuel st) (rs_db st)) !! to_be_bytes version =
  if version <? gc_cutoff st then None else cf CfStaleParts (rs_db st) !! to_be_bytes version.
Proof.
  intros Hu. rewrite lookup_deletions by (by apply gc_batch_deletes). destruct (N.ltb_spec version (gc_cutoff st)) as [Hlt|Hge].
  - case_decide as Hin; [done|]. destruct (cf CfStaleParts (rs_db st) !! to_be_bytes version) as [v|] eqn:E; [|done].
    exfalso. apply Hin, gc_batch_exact; [done|]. left. destruct (Hq _ _ E) as (version' & parts & Hu' & Ek & ->).
    exists version, parts. done.
  - rewrite decide_False; [done|]. intros [(version' & ? & Hv & Hu' & _ & E)|(part & _ & Hop)]%gc_batch_exact; [| |done].
    + assert (to_be_bytes version = to_be_bytes version') as E' by congruence. apply to_be_bytes_inj in E'; [lia|done..].
    + apply stale_part_ops_in in Hop as (key' & _ & [[=]|[=]]%delete_node_ops_in).
Qed.
End run.

End gc.

(** ** A concrete run *)

(** Version 3 with a window of one version: the node that became stale at
    version 1 goes, that of version 2 stays. *)
Definition collected_storage : @RocksDbStorage sample_jmt :=
  mk_storage
    (write [PutCf CfJmtNodes [0] (@basic_encode sample_sbor _ _ _ (10 : N));
            PutCf CfJmtNodes [1] (@basic_encode sample_sbor _ _ _ (11 : N));
            PutCf CfStaleParts (to_be_bytes 1) (@basic_encode sample_sbor _ _ _ [StaleNode (0 : N)]);
            PutCf CfStaleParts (to_be_bytes 2) (@basic_encode sample_sbor _ _ _ [StaleNode (1 : N)])] empty_db)
    3 (replicate 32 0) lru_new false 1.

Lemma collected_queue : iterator_cf CfStaleParts (rs_db collected_storage) =
  [(to_be_bytes 1, @basic_encode sample_sbor _ _ _ [StaleNode (0 : N)]);
   (to_be_bytes 2, @basic_encode sample_sbor _ _ _ [StaleNode (1 : N)])].
Proof. vm_compute; reflexivity. Qed.

Lemma collected_old part : @old_part sample_sbor sample_jmt (rs_db collected_storage) 2 part <-> part = StaleNode (0 : N).
Proof.
  split.
  - intros (version & parts & Hv & Hu & Hin & Hp). apply elem_of_iterator_cf in Hin. rewrite collected_queue in Hin.
    apply list_elem_of_In in Hin. destruct Hin as [E|[E|[]]].
    + apply (f_equal snd), (@basic_encode_inj sample_sbor) in E. cbn in Hp. rewrite <- E in Hp.
      by apply list_elem_of_singleton in Hp.
    + apply (f_equal fst), to_be_bytes_inj in E; [lia|done..].
  - intros ->. exists 1, [StaleNode (0 : N)]. split_and!; [done|done| |by left]. vm_compute; reflexivity.
Qed.

