(* ===== verification/Batchers.v ===== *)
(** * Batching of outgoing messages (message_batcher.rs of crates/production)

    Votes, certificates and provisions of the execution layer are collected by
    shard and sent together; batches that could not be sent are tried again.
    The outcome of every broadcast and the clock are given by the environment;
    a loop that never ends is [None]. *)

From stdpp Require Import base gmap list numbers.
From Stdlib Require Import NArith Lia.
From S2P Require Import Prelude Bitfield Types.

(** ** Data *)

Record MessageBatcherConfig := mk_batcher_config {
  mc_flush_interval : Duration;
  mc_max_batch_size : usize;
  mc_enabled : bool;
  mc_max_retry_attempts : N;
  mc_initial_retry_delay : Duration;
  mc_max_retry_delay : Duration;
  mc_max_retry_queue_size : usize
}.

Definition default_batcher_config : MessageBatcherConfig := {|
  mc_flush_interval := from_millis 50;
  mc_max_batch_size := 64;
  mc_enabled := true;
  mc_max_retry_attempts := 5;
  mc_initial_retry_delay := from_millis 100;
  mc_max_retry_delay := from_secs 5;
  mc_max_retry_queue_size := 1000
|}.

Inductive BatchableItem :=
  | ItemVote (vote : StateVoteBlock)
  | ItemCertificate (certificate : StateCertificate)
  | ItemProvision (provision : StateProvision).

Record PendingBatch := mk_pending_batch {
  pb_votes : list StateVoteBlock;
  pb_certificates : list StateCertificate;
  pb_provisions : list StateProvision;
  pb_first_item_time : option Duration
}.

Definition pending_batch_default : PendingBatch := mk_pending_batch [] [] [] None.

Definition pending_batch_is_empty (b : PendingBatch) : bool :=
  Nat.eqb (length (pb_votes b)) 0 && Nat.eqb (length (pb_certificates b)) 0
  && Nat.eqb (length (pb_provisions b)) 0.

Definition total_items (b : PendingBatch) : usize :=
  (length (pb_votes b) + length (pb_certificates b) + length (pb_provisions b))%nat.

Inductive FailedBatchType :=
  | BatchVotes (votes : list StateVoteBlock)
  | BatchCertificates (certificates : list StateCertificate)
  | BatchProvisions (provisions : list StateProvision).

Record RetryEntry := mk_retry_entry {
  re_shard : ShardGroupId;
  re_batch : FailedBatchType;
  re_attempts : N;
  re_next_retry_at : Duration;
  re_created_at : Duration
}.

Definition retry_entry_new (shard : ShardGroupId) (batch : FailedBatchType) (initial_delay now : Duration)
    : RetryEntry := mk_retry_entry shard batch 0 (now + initial_delay) now.

(** [2u32.saturating_pow] stays below [u32::MAX]. *)
Definition next_delay (entry : RetryEntry) (initial max : Duration) : Duration :=
  N.min (initial * N.min (2 ^ re_attempts entry) (2 ^ 32 - 1)) max.

Record MessageBatcher := mk_message_batcher {
  mb_config : MessageBatcherConfig;
  mb_pending : gmap ShardGroupId PendingBatch;
  mb_retry_queue : list RetryEntry
}.

Definition batcher_new (config : MessageBatcherConfig) : MessageBatcher := mk_message_batcher config ∅ [].

Definition with_pending (f : gmap ShardGroupId PendingBatch -> gmap ShardGroupId PendingBatch)
    (m : MessageBatcher) : MessageBatcher :=
  mk_message_batcher (mb_config m) (f (mb_pending m)) (mb_retry_queue m).

Definition with_queue (queue : list RetryEntry) (m : MessageBatcher) : MessageBatcher :=
  mk_message_batcher (mb_config m) (mb_pending m) queue.

(** What becomes of a batch. *)
Inductive BatchEvent :=
  | Broadcast (shard : ShardGroupId) (batch : FailedBatchType)
  | Dropped (shard : ShardGroupId) (batch : FailedBatchType).

(** ** The batcher's effects

    The outcomes of the broadcasts and the times the clock shows are streams
    of the environment, read one after the other. *)

Class Outside := {
  outcome : nat -> bool;
  clock : nat -> Duration
}.

Definition batcher (A : Type) : Type := nat * MessageBatcher -> option (A * (nat * MessageBatcher) * list BatchEvent).

Declare Scope batcher_scope.
Delimit Scope batcher_scope with batcher.

Definition b_ret {A} (x : A) : batcher A := fun w => Some (x, w, []).

Definition b_bind {A B} (m : batcher A) (f : A -> batcher B) : batcher B := fun w =>
  match m w with
  | None => None
  | Some (x, w1, ev1) =>
      match f x w1 with
      | None => None
      | Some (y, w2, ev2) => Some (y, w2, ev1 ++ ev2)
      end
  end.

Notation "x <~ m ;~ k" := (b_bind m (fun x => k)) (at level 90, m at level 80, right associativity) : batcher_scope.
Notation "m ;~ k" := (b_bind m (fun _ => k)) (at level 90, right associativity) : batcher_scope.

Definition b_get : batcher MessageBatcher := fun w => Some (w.2, w, []).
Definition b_modify (f : MessageBatcher -> MessageBatcher) : batcher unit := fun w => Some (tt, (w.1, f w.2), []).
Definition b_emit (e : BatchEvent) : batcher unit := fun w => Some (tt, w, [e]).

(** A loop that never ends. *)
Definition b_spin {A} : batcher A := fun _ => None.

Section ops.
Context `{O : Outside} `{HI : HashIter}.
Open Scope batcher_scope.

Definition b_now : batcher Duration := fun w => Some (clock w.1, (S w.1, w.2), []).

(** [broadcast_shard]. *)
Definition b_broadcast (shard : ShardGroupId) (batch : FailedBatchType) : batcher bool := fun w =>
  Some (outcome w.1, (S w.1, w.2), if outcome w.1 then [Broadcast shard batch] else []).

Fixpoint b_for {A} (l : list A) (f : A -> batcher unit) : batcher unit :=
  match l with
  | [] => b_ret tt
  | x :: l' => f x ;~ b_for l' f
  end.

(** ** The retry queue *)

(** The [while] loop of [enqueue_retry]: nothing leaves the loop when the queue
    is empty and still too long. *)
Fixpoint make_room (max : usize) (queue : list RetryEntry) : batcher unit :=
  if Nat.leb max (length queue) then
    match queue with
    | dropped :: queue' =>
        b_modify (with_queue queue') ;~ b_emit (Dropped (re_shard dropped) (re_batch dropped)) ;~
        make_room max queue'
    | [] => b_spin
    end
  else b_ret tt.

(** Before the first entry that is due later. *)
Fixpoint insert_retry (entry : RetryEntry) (queue : list RetryEntry) : list RetryEntry :=
  match queue with
  | [] => [entry]
  | e :: queue' => if re_next_retry_at entry <? re_next_retry_at e then entry :: queue
                   else e :: insert_retry entry queue'
  end.

Definition enqueue_retry (entry : RetryEntry) : batcher unit :=
  m <~ b_get ;~
  make_room (mc_max_retry_queue_size (mb_config m)) (mb_retry_queue m) ;~
  b_modify (fun m => with_queue (insert_retry entry (mb_retry_queue m)) m).

(** The entries in front that are due, and the rest. *)
Fixpoint split_due (now : Duration) (queue : list RetryEntry) : list RetryEntry * list RetryEntry :=
  match queue with
  | [] => ([], [])
  | e :: queue' => if re_next_retry_at e <=? now then let '(due, rest) := split_due now queue' in (e :: due, rest)
                   else ([], queue)
  end.

Definition process_retry (entry : RetryEntry) : batcher unit :=
  let attempts := re_attempts entry + 1 in
  sent <~ b_broadcast (re_shard entry) (re_batch entry) ;~
  if sent then b_ret tt
  else
    m <~ b_get ;~
    if mc_max_retry_attempts (mb_config m) <=? attempts
    then b_emit (Dropped (re_shard entry) (re_batch entry))
    else
      now <~ b_now ;~
      let entry' := mk_retry_entry (re_shard entry) (re_batch entry) attempts (re_next_retry_at entry) (re_created_at entry) in
      let delay := next_delay entry' (mc_initial_retry_delay (mb_config m)) (mc_max_retry_delay (mb_config m)) in
      enqueue_retry (mk_retry_entry (re_shard entry) (re_batch entry) attempts (now + delay) (re_created_at entry)).

Definition process_retries : batcher unit :=
  now <~ b_now ;~
  m <~ b_get ;~
  let '(due, rest) := split_due now (mb_retry_queue m) in
  b_modify (with_queue rest) ;~ b_for due process_retry.

(** ** Pending batches *)

(** The batches of a shard, in the order in which they are sent. *)
Definition batches_of (b : PendingBatch) : list FailedBatchType :=
  (match pb_votes b with [] => [] | votes => [BatchVotes votes] end)
  ++ (match pb_certificates b with [] => [] | certificates => [BatchCertificates certificates] end)
  ++ (match pb_provisions b with [] => [] | provisions => [BatchProvisions provisions] end).

(** Sends batches one after the other and returns those that failed. *)
Fixpoint send_batches (shard : ShardGroupId) (batches : list FailedBatchType) : batcher (list FailedBatchType) :=
  match batches with
  | [] => b_ret []
  | batch :: rest =>
      sent <~ b_broadcast shard batch ;~
      failed <~ send_batches shard rest ;~
      b_ret (if sent then failed else batch :: failed)
  end.

Definition flush_shard (shard : ShardGroupId) : batcher unit :=
  m <~ b_get ;~
  match mb_pending m !! shard with
  | None => b_ret tt
  | Some batch =>
      if pending_batch_is_empty batch then b_ret tt
      else
        b_modify (with_pending (fun p => <[shard := pending_batch_default]> p)) ;~
        failed <~ send_batches shard (batches_of batch) ;~
        b_for failed (fun batch =>
          now <~ b_now ;~
          enqueue_retry (retry_entry_new shard batch (mc_initial_retry_delay (mb_config m)) now))
  end.

Definition push_item (item : BatchableItem) (b : PendingBatch) : PendingBatch :=
  match item with
  | ItemVote vote => mk_pending_batch (pb_votes b ++ [vote]) (pb_certificates b) (pb_provisions b) (pb_first_item_time b)
  | ItemCertificate c => mk_pending_batch (pb_votes b) (pb_certificates b ++ [c]) (pb_provisions b) (pb_first_item_time b)
  | ItemProvision p => mk_pending_batch (pb_votes b) (pb_certificates b) (pb_provisions b ++ [p]) (pb_first_item_time b)
  end.

Definition stamp (now : Duration) (b : PendingBatch) : PendingBatch :=
  mk_pending_batch (pb_votes b) (pb_certificates b) (pb_provisions b) (Some now).

Definition queue_item (shard : ShardGroupId) (item : BatchableItem) : batcher unit :=
  m <~ b_get ;~
  let batch := default pending_batch_default (mb_pending m !! shard) in
  batch <~ (match pb_first_item_time batch with
            | Some _ => b_ret batch
            | None => now <~ b_now ;~ b_ret (stamp now batch)
            end) ;~
  let batch := push_item item batch in
  b_modify (with_pending (fun p => <[shard := batch]> p)) ;~
  if Nat.leb (mc_max_batch_size (mb_config m)) (total_items batch) then flush_shard shard else b_ret tt.

Definition expired (interval now : Duration) (b : PendingBatch) : bool :=
  match pb_first_item_time b with Some t => interval <=? now - t | None => false end.

Definition flush_expired : batcher unit :=
  now <~ b_now ;~
  m <~ b_get ;~
  b_for (fst <$> List.filter (fun e => expired (mc_flush_interval (mb_config m)) now e.2) (hm_iter (mb_pending m)))
    flush_shard.

Definition flush_all : batcher unit :=
  m <~ b_get ;~ b_for (fst <$> hm_iter (mb_pending m)) flush_shard.

(** ** The loop *)

Inductive BatcherCommand :=
  | QueueCommand (shard : ShardGroupId) (item : BatchableItem)
  | FlushCommand
  | ShutdownCommand.

Inductive BatcherInput :=
  | Command (command : BatcherCommand)
  | FlushTick
  | RetryTick.

(** One turn of [run]; the loop ends with the shutdown. *)
Definition batcher_turn (input : BatcherInput) : batcher unit :=
  match input with
  | Command (QueueCommand shard item) => queue_item shard item
  | Command FlushCommand => flush_all
  | Command ShutdownCommand => flush_all ;~ process_retries
  | FlushTick => flush_expired
  | RetryTick => process_retries
  end.

Fixpoint run_batcher (inputs : list BatcherInput) : batcher unit :=
  match inputs with
  | [] => b_ret tt
  | input :: rest =>
      batcher_turn input ;~
      match input with
      | Command ShutdownCommand => b_ret tt
      | _ => run_batcher rest
      end
  end.
End ops.
