(* ===== verification/BatcherRuns.v ===== *)
(** * Runs of the message batcher

    No item is lost or sent twice, the retry queue conserves its order and its
    bounds, and working broadcasts empty the batcher. *)

From stdpp Require Import base gmap list numbers sorting.
From Stdlib Require Import NArith Lia.
From S2P Require Import Prelude Bitfield Types Batchers.

(** ** Items *)

Definition batch_items (b : FailedBatchType) : list BatchableItem :=
  match b with
  | BatchVotes votes => ItemVote <$> votes
  | BatchCertificates certificates => ItemCertificate <$> certificates
  | BatchProvisions provisions => ItemProvision <$> provisions
  end.

Definition for_shard (shard : ShardGroupId) (items : list BatchableItem) : list (ShardGroupId * BatchableItem) :=
  pair shard <$> items.

Definition pending_items (b : PendingBatch) : list BatchableItem :=
  (ItemVote <$> pb_votes b) ++ (ItemCertificate <$> pb_certificates b) ++ (ItemProvision <$> pb_provisions b).

Definition pending_all (p : gmap ShardGroupId PendingBatch) : list (ShardGroupId * BatchableItem) :=
  map_to_list p ≫= fun e => for_shard e.1 (pending_items e.2).

Definition retry_items (queue : list RetryEntry) : list (ShardGroupId * BatchableItem) :=
  queue ≫= fun e => for_shard (re_shard e) (batch_items (re_batch e)).

(** What the batcher holds. *)
Definition held (m : MessageBatcher) : list (ShardGroupId * BatchableItem) :=
  pending_all (mb_pending m) ++ retry_items (mb_retry_queue m).

Definition event_items (e : BatchEvent) : list (ShardGroupId * BatchableItem) :=
  match e with Broadcast shard batch | Dropped shard batch => for_shard shard (batch_items batch) end.

Definition gone (events : list BatchEvent) : list (ShardGroupId * BatchableItem) := events ≫= event_items.

(** What was handed to the network, and what was given up. *)
Definition sent (events : list BatchEvent) : list (ShardGroupId * BatchableItem) :=
  events ≫= fun e => match e with Broadcast _ _ => event_items e | Dropped _ _ => [] end.

Definition dropped (events : list BatchEvent) : list (ShardGroupId * BatchableItem) :=
  events ≫= fun e => match e with Dropped _ _ => event_items e | Broadcast _ _ => [] end.

Lemma gone_split events : gone events ≡ₚ sent events ++ dropped events.
Proof.
  induction events as [|[shard b|shard b] events IH]; [done|..]; unfold gone, sent, dropped in *; rewrite !bind_cons, IH;
    solve_Permutation.
Qed.

Lemma gone_app a b : gone (a ++ b) = gone a ++ gone b.
Proof. apply bind_app. Qed.

Lemma retry_items_app a b : retry_items (a ++ b) = retry_items a ++ retry_items b.
Proof. apply bind_app. Qed.

Lemma retry_items_cons e queue :
  retry_items (e :: queue) = for_shard (re_shard e) (batch_items (re_batch e)) ++ retry_items queue.
Proof. done. Qed.

Lemma batches_items b : batches_of b ≫= batch_items = pending_items b.
Proof. unfold batches_of, pending_items. rewrite !bind_app. by destruct (pb_votes b), (pb_certificates b), (pb_provisions b); cbn; rewrite ?app_nil_r. Qed.

Lemma for_shard_app shard a b : for_shard shard (a ++ b) = for_shard shard a ++ for_shard shard b.
Proof. apply fmap_app. Qed.

Lemma pending_insert p shard b :
  pending_all (<[shard := b]> p) ≡ₚ for_shard shard (pending_items b) ++ pending_all (delete shard p).
Proof.
  unfold pending_all. rewrite <- insert_delete_eq, map_to_list_insert by apply lookup_delete_eq. by rewrite bind_cons.
Qed.

Lemma pending_lookup p shard :
  pending_all p ≡ₚ for_shard shard (pending_items (default pending_batch_default (p !! shard))) ++ pending_all (delete shard p).
Proof.
  destruct (p !! shard) as [b|] eqn:E; cbn [default].
  - rewrite <- pending_insert. by rewrite insert_id.
  - by rewrite delete_id.
Qed.

Lemma push_items item b : pending_items (push_item item b) ≡ₚ pending_items b ++ [item].
Proof.
  unfold pending_items. destruct item; cbn; rewrite !fmap_app, <- !app_assoc; cbn; rewrite ?app_nil_r; [|solve_Permutation|done].
  - solve_Permutation.
Qed.

(** ** The invariant *)

Definition due_before (e e' : RetryEntry) : Prop := re_next_retry_at e <= re_next_retry_at e'.

Record batcher_ok (m : MessageBatcher) : Prop := {
  ok_room : (0 < mc_max_retry_queue_size (mb_config m))%nat;
  ok_attempts_limit : 0 < mc_max_retry_attempts (mb_config m);
  ok_queue_sorted : StronglySorted due_before (mb_retry_queue m);
  ok_queue_size : (length (mb_retry_queue m) <= mc_max_retry_queue_size (mb_config m))%nat;
  ok_attempts : Forall (fun e => re_attempts e < mc_max_retry_attempts (mb_config m)) (mb_retry_queue m)
}.

(** ** Specifications *)

(** The operation returns, with a result that satisfies [Q]. *)
Definition returns {A} (op : batcher A) (w : nat * MessageBatcher)
    (Q : A -> nat * MessageBatcher -> list BatchEvent -> Prop) : Prop :=
  exists x w' ev, op w = Some (x, w', ev) /\ Q x w' ev.

Lemma returns_bind {A B} (m : batcher A) (f : A -> batcher B) w Q :
  returns m w (fun x w1 ev1 => returns (f x) w1 (fun y w2 ev2 => Q y w2 (ev1 ++ ev2))) ->
  returns (b_bind m f) w Q.
Proof.
  intros (x & w1 & ev1 & E1 & y & w2 & ev2 & E2 & HQ). exists y, w2, (ev1 ++ ev2). split; [|done].
  unfold b_bind. by rewrite E1, E2.
Qed.

Lemma returns_mono {A} (op : batcher A) w (Q Q' : A -> nat * MessageBatcher -> list BatchEvent -> Prop) :
  (forall x w' ev, Q x w' ev -> Q' x w' ev) -> returns op w Q -> returns op w Q'.
Proof. intros HQ (x & w' & ev & E & H). exists x, w', ev. auto. Qed.


Section specs.
Context `{O : Outside} `{HI : HashIter}.

(** The invariant is kept, and what is held or gone afterwards is what was
    held before and what came in. *)
Definition conserves {A} (op : batcher A) (w : nat * MessageBatcher) (came : list (ShardGroupId * BatchableItem))
    (left_over : A -> list (ShardGroupId * BatchableItem)) : Prop :=
  returns op w (fun x w' ev =>
    batcher_ok w'.2 /\ mb_config w'.2 = mb_config w.2 /\
    held w'.2 ++ gone ev ++ left_over x ≡ₚ held w.2 ++ came).

Definition nothing {A} (_ : A) : list (ShardGroupId * BatchableItem) := [].

Lemma conserves_bind {A B} (op : batcher A) (f : A -> batcher B) w came mid left_over :
  conserves op w came mid ->
  (forall x w', batcher_ok w'.2 -> mb_config w'.2 = mb_config w.2 -> conserves (f x) w' (mid x) left_over) ->
  conserves (b_bind op f) w came left_over.
Proof.
  intros (x & w1 & ev1 & E1 & Hok & Hc & Hp) Hf. apply returns_bind. exists x, w1, ev1. split; [done|].
  destruct (Hf x w1 Hok Hc) as (y & w2 & ev2 & E2 & Hok2 & Hc2 & Hp2). exists y, w2, ev2. split; [done|].
  split_and!; [done|congruence|]. rewrite gone_app.
  transitivity (gone ev1 ++ (held w2.2 ++ gone ev2 ++ left_over y)); [solve_Permutation|]. rewrite Hp2.
  transitivity (held w1.2 ++ gone ev1 ++ mid x); [solve_Permutation|done].
Qed.

Lemma conserves_ret {A} (x : A) w came left_over : batcher_ok w.2 -> left_over x ≡ₚ came -> conserves (b_ret x) w came left_over.
Proof.
  intros Hok Hl. exists x, w, []. split; [done|]. split_and!; [done|done|]. cbn. by rewrite Hl.
Qed.

Lemma conserves_now w came : batcher_ok w.2 -> conserves b_now w came (fun _ => came).
Proof. intros Hok. exists (clock w.1), (S w.1, w.2), []. by split. Qed.

Lemma conserves_get {A} (f : MessageBatcher -> batcher A) w came left_over :
  conserves (f w.2) w came left_over -> conserves (b_bind b_get f) w came left_over.
Proof. intros (x & w' & ev & E & H). apply returns_bind. exists w.2, w, []. split; [done|]. by exists x, w', ev. Qed.

Lemma conserves_modify f w came rest : batcher_ok (f w.2) -> mb_config (f w.2) = mb_config w.2 ->
  held (f w.2) ++ rest ≡ₚ held w.2 ++ came -> conserves (b_modify f) w came (fun _ => rest).
Proof. intros Hok Hc Hp. exists tt, (w.1, f w.2), []. by split. Qed.

Lemma conserves_broadcast w shard batch rest : batcher_ok w.2 ->
  conserves (b_broadcast shard batch) w (for_shard shard (batch_items batch) ++ rest)
    (fun sent => if sent then rest else for_shard shard (batch_items batch) ++ rest).
Proof.
  intros Hok. unfold conserves, returns, b_broadcast. eexists _, _, _. split; [done|]. split_and!; [done|done|].
  destruct (outcome w.1); cbn; rewrite ?app_nil_r; solve_Permutation.
Qed.

Lemma conserves_frame {A} (op : batcher A) w came left_over rest :
  conserves op w came left_over -> conserves op w (came ++ rest) (fun x => left_over x ++ rest).
Proof.
  intros (x & w' & ev & E & Hok & Hc & Hp). exists x, w', ev. split; [done|]. split_and!; [done|done|].
  rewrite !(assoc (++)). f_equiv. by rewrite <- (assoc (++)).
Qed.

Lemma conserves_for {A} (l : list A) f w (came : A -> list (ShardGroupId * BatchableItem)) : batcher_ok w.2 ->
  (forall x w', x ∈ l -> batcher_ok w'.2 -> mb_config w'.2 = mb_config w.2 -> conserves (f x) w' (came x) nothing) ->
  conserves (b_for l f) w (l ≫= came) nothing.
Proof.
  revert w. induction l as [|x l IH]; intros w Hok Hf; [by apply conserves_ret|]. cbn [b_for]. rewrite bind_cons.
  apply (conserves_bind _ _ _ _ (fun _ => l ≫= came)).
  - apply (conserves_frame _ _ _ nothing). apply Hf; [by left|done|done].
  - intros _ w' Hok' Hc. apply IH; [done|]. intros y w2 Hy Hok2 Hc2. apply Hf; [by right|done|congruence].
Qed.

(** ** The retry queue *)

Lemma make_room_spec max queue w : (0 < max)%nat -> mb_retry_queue w.2 = queue ->
  returns (make_room max queue) w (fun _ w' ev => exists before rest,
    queue = before ++ rest /\ (length rest < max)%nat /\ w'.2 = with_queue rest w.2 /\ gone ev = retry_items before).
Proof.
  intros Hmax. revert w. induction queue as [|e queue IH]; intros w Hq; cbn [make_room].
  - destruct (Nat.leb_spec max (length (@nil RetryEntry))) as [Hl|_]; [cbn in Hl; lia|].
    exists tt, w, []. split; [done|]. exists [], []. split_and!; [done|cbn; lia| |done]. destruct w as [n m], m. cbn in *. by subst.
  - destruct (Nat.leb_spec max (length (e :: queue))) as [_|Hl].
    + apply returns_bind. exists tt, (w.1, with_queue queue w.2), []. split; [done|]. apply returns_bind.
      exists tt, (w.1, with_queue queue w.2), [Dropped (re_shard e) (re_batch e)]. split; [done|].
      destruct (IH (w.1, with_queue queue w.2)) as (x & w' & ev & E & before & rest & Hb & Hr & Hw & Hg); [done|].
      exists x, w', ev. split; [done|]. exists (e :: before), rest. split_and!; [by rewrite Hb|done|by rewrite Hw|].
      rewrite !gone_app. cbn. by rewrite Hg, app_nil_r.
    + exists tt, w, []. split; [done|]. exists [], (e :: queue). split_and!; [done|done| |done].
      destruct w as [n m], m. cbn in *. by subst.
Qed.

Lemma insert_retry_items entry queue :
  retry_items (insert_retry entry queue) ≡ₚ for_shard (re_shard entry) (batch_items (re_batch entry)) ++ retry_items queue.
Proof.
  induction queue as [|e queue IH]; [done|]. cbn [insert_retry]. case_match; [done|].
  rewrite !(retry_items_cons e). rewrite IH. solve_Permutation.
Qed.

Lemma insert_retry_in entry queue e : e ∈ insert_retry entry queue -> e = entry \/ e ∈ queue.
Proof.
  induction queue as [|e' queue IH]; cbn [insert_retry]; [set_solver|]. case_match; set_solver.
Qed.

Lemma insert_retry_sorted entry queue : StronglySorted due_before queue -> StronglySorted due_before (insert_retry entry queue).
Proof.
  induction 1 as [|e queue Hq IH He]; cbn [insert_retry]; [by repeat constructor|].
  destruct (N.ltb_spec (re_next_retry_at entry) (re_next_retry_at e)) as [Hlt|Hge].
  - constructor; [by constructor|]. constructor; [unfold due_before; lia|].
    eapply Forall_impl; [exact He|]. unfold due_before. lia.
  - constructor; [done|]. rewrite Forall_forall in He |- *. intros x [->|Hx]%insert_retry_in; [done|by apply He].
Qed.

Lemma insert_retry_length entry queue : length (insert_retry entry queue) = S (length queue).
Proof. induction queue as [|e queue IH]; [done|]. cbn [insert_retry]. case_match; cbn; by rewrite ?IH. Qed.

Lemma sorted_app_r {A} (R : A -> A -> Prop) l1 l2 : StronglySorted R (l1 ++ l2) -> StronglySorted R l2.
Proof. induction l1 as [|x l1 IH]; [done|]. intros [? _]%StronglySorted_inv. by apply IH. Qed.

Lemma conserves_enqueue entry w : batcher_ok w.2 -> re_attempts entry < mc_max_retry_attempts (mb_config w.2) ->
  conserves (enqueue_retry entry) w (for_shard (re_shard entry) (batch_items (re_batch entry))) nothing.
Proof.
  intros [H1 H2 H3 H4 H5] Hatt. unfold enqueue_retry. apply returns_bind. exists w.2, w, []. split; [done|]. apply returns_bind.
  destruct (make_room_spec (mc_max_retry_queue_size (mb_config w.2)) (mb_retry_queue w.2) w)
    as (x & w' & ev & E & before & rest & Hq & Hlen & Hw & Hg); [done..|].
  exists x, w', ev. split; [done|]. exists tt, (w'.1, with_queue (insert_retry entry (mb_retry_queue w'.2)) w'.2), [].
  split; [done|]. rewrite Hw. cbn [snd with_queue mb_retry_queue mb_config mb_pending].
  rewrite Hq in H3, H5. apply sorted_app_r in H3. apply Forall_app in H5 as [_ H5]. split_and!; [split|done|].
  - done.
  - done.
  - by apply insert_retry_sorted.
  - cbn. rewrite insert_retry_length. lia.
  - apply Forall_forall. intros e [->|He]%insert_retry_in; [done|]. rewrite Forall_forall in H5. by apply H5.
  - unfold held. cbn [mb_pending mb_retry_queue snd fst with_queue]. rewrite insert_retry_items, Hq, retry_items_app. cbn [app].
    rewrite !gone_app, Hg. cbn [gone mbind list_bind]. rewrite !app_nil_r. solve_Permutation.
Qed.

Lemma conserves_dropped w shard batch : batcher_ok w.2 ->
  conserves (b_emit (Dropped shard batch)) w (for_shard shard (batch_items batch)) nothing.
Proof. intros Hok. exists tt, w, [Dropped shard batch]. split; [done|]. split_and!; [done|done|]. cbn. by rewrite !app_nil_r. Qed.

Lemma conserves_process_retry entry w : batcher_ok w.2 ->
  conserves (process_retry entry) w (for_shard (re_shard entry) (batch_items (re_batch entry))) nothing.
Proof.
  intros Hok. unfold process_retry. eapply conserves_bind.
  { rewrite <- (app_nil_r (for_shard _ _)). by apply conserves_broadcast. }
  intros [|] w1 Hok1 Hc1; cbv beta iota; [by apply conserves_ret|]. rewrite app_nil_r. apply conserves_get.
  destruct (N.leb_spec (mc_max_retry_attempts (mb_config w1.2)) (re_attempts entry + 1)); [by apply conserves_dropped|].
  eapply conserves_bind; [by apply conserves_now|]. intros now w2 Hok2 Hc2. cbv beta zeta.
  apply (conserves_enqueue (mk_retry_entry _ _ _ _ _)); [done|]. cbn. by rewrite Hc2.
Qed.

Lemma split_due_app now queue : queue = (split_due now queue).1 ++ (split_due now queue).2.
Proof.
  induction queue as [|e queue IH]; [done|]. cbn [split_due]. case_match; [|done].
  destruct (split_due now queue) as [due rest]. cbn in *. by rewrite IH.
Qed.

Lemma batcher_ok_suffix before rest m : mb_retry_queue m = before ++ rest -> batcher_ok m -> batcher_ok (with_queue rest m).
Proof.
  intros Hq [H1 H2 H3 H4 H5]. rewrite Hq in H3, H4, H5. rewrite length_app in H4. apply sorted_app_r in H3. apply Forall_app in H5 as [_ H5].
  split; cbn; [done..|lia|done].
Qed.

Lemma conserves_process_retries w : batcher_ok w.2 -> conserves process_retries w [] nothing.
Proof.
  intros Hok. unfold process_retries. eapply conserves_bind; [by apply conserves_now|]. intros now w1 Hok1 _. apply conserves_get.
  pose proof (split_due_app now (mb_retry_queue w1.2)) as Hq. destruct (split_due _ _) as [due rest]. cbn [fst snd] in Hq.
  apply (conserves_bind _ _ _ _ (fun _ => retry_items due)).
  - apply conserves_modify; [by eapply batcher_ok_suffix|done|]. unfold held. cbn. rewrite Hq, retry_items_app. solve_Permutation.
  - intros ? w2 Hok2 _. apply conserves_for; [done|]. intros e w3 _ Hok3 _. by apply conserves_process_retry.
Qed.

(** ** Pending batches *)

Lemma batcher_ok_pending f m : batcher_ok m -> batcher_ok (with_pending f m).
Proof. intros [H1 H2 H3 H4 H5]. by split. Qed.

Lemma conserves_send shard batches w rest : batcher_ok w.2 ->
  conserves (send_batches shard batches) w (for_shard shard (batches ≫= batch_items) ++ rest)
    (fun failed => for_shard shard (failed ≫= batch_items) ++ rest).
Proof.
  revert w rest. induction batches as [|b l IH]; intros w rest Hok; cbn [send_batches]; [by apply conserves_ret|].
  rewrite bind_cons, for_shard_app, <- app_assoc. eapply conserves_bind; [by apply conserves_broadcast|]. cbv beta.
  intros sent w1 Hok1 _. set (this := for_shard shard (batch_items b)).
  apply (conserves_bind _ _ _ _ (fun failed => for_shard shard (failed ≫= batch_items) ++ (if sent then rest else this ++ rest))).
  - destruct (IH w1 (if sent then rest else this ++ rest) Hok1) as (x & w' & ev & E & Hok' & Hc & Hp).
    exists x, w', ev. split; [done|]. split_and!; [done|done|]. rewrite Hp. destruct sent; [done|solve_Permutation].
  - intros failed w2 Hok2 _. apply conserves_ret; [done|]. destruct sent; [done|].
    rewrite bind_cons, for_shard_app. subst this. solve_Permutation.
Qed.

Lemma for_shard_batches shard failed :
  for_shard shard (failed ≫= batch_items) = failed ≫= fun b => for_shard shard (batch_items b).
Proof. induction failed as [|b l IH]; [done|]. by rewrite !bind_cons, for_shard_app, IH. Qed.

Lemma conserves_flush_shard shard w : batcher_ok w.2 -> conserves (flush_shard shard) w [] nothing.
Proof.
  intros Hok. unfold flush_shard. apply conserves_get. destruct (mb_pending w.2 !! shard) as [b|] eqn:E; [|by apply conserves_ret].
  case_match; [by apply conserves_ret|]. apply (conserves_bind _ _ _ _ (fun _ => for_shard shard (batches_of b ≫= batch_items) ++ [])).
  - apply conserves_modify; [by apply batcher_ok_pending|done|]. unfold held. cbn [with_pending mb_pending mb_retry_queue].
    rewrite pending_insert, (pending_lookup (mb_pending w.2) shard), E, batches_items. cbn. solve_Permutation.
  - intros ? w1 Hok1 Hc1. eapply conserves_bind; [by apply conserves_send|]. intros failed w2 Hok2 Hc2. cbv beta.
    rewrite app_nil_r, for_shard_batches. apply conserves_for; [done|]. intros batch w3 _ Hok3 Hc3.
    eapply conserves_bind; [by apply conserves_now|]. intros now w4 Hok4 Hc4. cbv beta.
    apply (conserves_enqueue (retry_entry_new shard batch _ now)); [done|]. apply Hok4.
Qed.

Lemma stamp_returns b w :
  returns (match pb_first_item_time b with Some _ => b_ret b | None => b_bind b_now (fun now => b_ret (stamp now b)) end) w
    (fun b' w' ev => pending_items b' = pending_items b /\ w'.2 = w.2 /\ ev = []).
Proof. destruct (pb_first_item_time b); eexists _, _, _; split; done. Qed.

Lemma conserves_queue_item shard item w : batcher_ok w.2 -> conserves (queue_item shard item) w [(shard, item)] nothing.
Proof.
  intros Hok. unfold queue_item. apply conserves_get. set (b := default pending_batch_default (mb_pending w.2 !! shard)).
  cbv zeta. apply returns_bind. destruct (stamp_returns b w) as (b' & w1 & ev & E & Hb & Hw & ->).
  exists b', w1, []. split; [done|]. set (b2 := push_item item b').
  enough (conserves (b_bind (b_modify (with_pending (fun p => <[shard := b2]> p))) (fun _ =>
    if Nat.leb (mc_max_batch_size (mb_config w.2)) (total_items b2) then flush_shard shard else b_ret tt))
    w1 [(shard, item)] nothing) as H.
  { destruct H as (x & w' & ev & E' & H). exists x, w', ev. split; [exact E'|]. rewrite <- Hw. exact H. }
  apply (conserves_bind _ _ _ _ nothing).
  - apply conserves_modify; [apply batcher_ok_pending; by rewrite Hw|done|]. unfold held.
    cbn [with_pending mb_pending mb_retry_queue]. rewrite Hw, pending_insert, (pending_lookup (mb_pending w.2) shard).
    unfold b2, for_shard. rewrite (push_items item b'), Hb, fmap_app. cbn. fold b. solve_Permutation.
  - intros ? w2 Hok2 _. destruct (Nat.leb _ _); [by apply conserves_flush_shard|by apply conserves_ret].
Qed.

Lemma conserves_flush_each shards w : batcher_ok w.2 -> conserves (b_for shards flush_shard) w [] nothing.
Proof.
  intros Hok. replace (@nil (ShardGroupId * BatchableItem)) with (shards ≫= fun _ => @nil (ShardGroupId * BatchableItem)).
  - apply conserves_for; [done|]. intros shard w' _ Hok' _. by apply conserves_flush_shard.
  - clear. by induction shards.
Qed.

Lemma conserves_flush_expired w : batcher_ok w.2 -> conserves flush_expired w [] nothing.
Proof.
  intros Hok. unfold flush_expired. eapply conserves_bind; [by apply conserves_now|]. intros now w1 Hok1 _. apply conserves_get.
  by apply conserves_flush_each.
Qed.

Lemma conserves_flush_all w : batcher_ok w.2 -> conserves flush_all w [] nothing.
Proof. intros Hok. apply conserves_get. by apply conserves_flush_each. Qed.

Definition input_items (input : BatcherInput) : list (ShardGroupId * BatchableItem) :=
  match input with Command (QueueCommand shard item) => [(shard, item)] | _ => [] end.

Lemma conserves_turn input w : batcher_ok w.2 -> conserves (batcher_turn input) w (input_items input) nothing.
Proof.
  intros Hok. destruct input as [[shard item| |]| |]; cbn [batcher_turn input_items].
  - by apply conserves_queue_item.
  - by apply conserves_flush_all.
  - eapply conserves_bind; [by apply conserves_flush_all|]. intros ? w1 Hok1 _. by apply conserves_process_retries.
  - by apply conserves_flush_expired.
  - by apply conserves_process_retries.
Qed.

(** The inputs up to the shutdown. *)
Fixpoint queued (inputs : list BatcherInput) : list (ShardGroupId * BatchableItem) :=
  match inputs with
  | [] => []
  | Command ShutdownCommand :: _ => []
  | input :: rest => input_items input ++ queued rest
  end.

Lemma conserves_run inputs w : batcher_ok w.2 -> conserves (run_batcher inputs) w (queued inputs) nothing.
Proof.
  revert w. induction inputs as [|input inputs IH]; intros w Hok; cbn [run_batcher]; [by apply conserves_ret|].
  pose proof (conserves_turn input w Hok) as Ht. destruct input as [[shard item| |]| |]; cbn [queued input_items] in *;
    [|..]; (eapply conserves_bind; [first [exact Ht | by apply (conserves_frame _ _ _ nothing (queued inputs)) in Ht]
                              | intros ? w1 Hok1 _; first [by apply conserves_ret | by apply IH]]).
Qed.

Lemma batcher_run_ok (config : MessageBatcherConfig) (inputs : list BatcherInput) (start : nat)
    (Hroom : (0 < mc_max_retry_queue_size config)%nat) (Hattempts : 0 < mc_max_retry_attempts config) :
  returns (run_batcher inputs) (start, batcher_new config) (fun _ w ev =>
    held w.2 ++ sent ev ++ dropped ev ≡ₚ queued inputs /\ mb_config w.2 = config /\
    StronglySorted due_before (mb_retry_queue w.2) /\
    (length (mb_retry_queue w.2) <= mc_max_retry_queue_size config)%nat /\
    Forall (fun e => re_attempts e < mc_max_retry_attempts config) (mb_retry_queue w.2)).
Proof.
  destruct (conserves_run inputs (start, batcher_new config)) as (x & w & ev & E & Hok & Hc & Hp).
  { split; cbn; [done|done|constructor|lia|constructor]. }
  exists x, w, ev. split; [done|]. cbn in Hc. destruct Hok as [_ _ H3 H4 H5]. rewrite Hc in H4, H5.
  split_and!; [|done..]. unfold nothing in Hp. rewrite app_nil_r, gone_split in Hp. exact Hp.
Qed.

(** For every run of the batcher with room for at least one retry and at
    least one retry allowed, whatever the outcomes of the broadcasts and the
    times of the clock: no loop of the batcher is endless, every item that was
    queued is afterwards in exactly one place (waiting, handed to the network
    or given up), and the retry queue is ordered by time, within its size, and
    holds no batch that has used up its attempts. *)
Theorem batcher_loses_nothing (config : MessageBatcherConfig) (inputs : list BatcherInput) (start : nat)
    (Hroom : (0 < mc_max_retry_queue_size config)%nat) (Hattempts : 0 < mc_max_retry_attempts config) :
  returns (run_batcher inputs) (start, batcher_new config) (fun _ w ev =>
    held w.2 ++ sent ev ++ dropped ev ≡ₚ queued inputs /\ mb_config w.2 = config /\
    StronglySorted due_before (mb_retry_queue w.2) /\
    (length (mb_retry_queue w.2) <= mc_max_retry_queue_size config)%nat /\
    Forall (fun e => re_attempts e < mc_max_retry_attempts config) (mb_retry_queue w.2)).
Proof. by apply batcher_run_ok. Qed.

(** ** A working network *)

Definition works (from : nat) : Prop := forall k, (from <= k)%nat -> outcome k = true.

(** The operation sends only, and ends in a state that satisfies [Q]. *)
Definition sends {A} (op : batcher A) (w : nat * MessageBatcher) (Q : A -> MessageBatcher -> Prop) : Prop :=
  works w.1 -> returns op w (fun x w' ev => (w.1 <= w'.1)%nat /\ dropped ev = [] /\ Q x w'.2).

Lemma sends_bind {A B} (op : batcher A) (f : A -> batcher B) w Q Q' :
  sends op w Q -> (forall x w', (w.1 <= w'.1)%nat -> Q x w'.2 -> sends (f x) w' Q') -> sends (b_bind op f) w Q'.
Proof.
  intros H Hf Hw. apply returns_bind. destruct (H Hw) as (x & w1 & ev & E & Hle & Hd & HQ). exists x, w1, ev. split; [done|].
  destruct (Hf x w1 Hle HQ) as (y & w2 & ev2 & E2 & Hle2 & Hd2 & HQ2). { intros k Hk. apply Hw. lia. }
  exists y, w2, ev2. split; [done|]. split_and!; [lia| |done]. unfold dropped in *. by rewrite bind_app, Hd, Hd2.
Qed.

Lemma sends_ret {A} (x : A) w (Q : A -> MessageBatcher -> Prop) : Q x w.2 -> sends (b_ret x) w Q.
Proof. intros HQ _. by exists x, w, []. Qed.

Lemma sends_now w (Q : Duration -> MessageBatcher -> Prop) : Q (clock w.1) w.2 -> sends b_now w Q.
Proof. intros HQ _. exists (clock w.1), (S w.1, w.2), []. split; [done|]. split_and!; [cbn; lia|done|done]. Qed.

Lemma sends_get w : sends b_get w (fun m m' => m = w.2 /\ m' = w.2).
Proof. intros _. by exists w.2, w, []. Qed.

Lemma sends_modify f w (Q : unit -> MessageBatcher -> Prop) : Q tt (f w.2) -> sends (b_modify f) w Q.
Proof. intros HQ _. by exists tt, (w.1, f w.2), []. Qed.

Lemma sends_broadcast shard batch w : sends (b_broadcast shard batch) w (fun ok m => ok = true /\ m = w.2).
Proof.
  intros Hw. unfold returns, b_broadcast. rewrite (Hw w.1) by lia. eexists _, _, _. split; [done|]. split_and!; cbn; [lia|done..].
Qed.

Lemma sends_all shard batches w : sends (send_batches shard batches) w (fun failed m => failed = [] /\ m = w.2).
Proof.
  revert w. induction batches as [|b l IH]; intros w; cbn [send_batches]; [by apply sends_ret|].
  eapply sends_bind; [apply sends_broadcast|]. intros ok w1 _ [-> Hm]. eapply sends_bind; [apply IH|].
  intros failed w2 _ [-> Hm2]. apply sends_ret. split; [done|congruence].
Qed.

Definition waiting (m : MessageBatcher) (s : ShardGroupId) : list BatchableItem :=
  pending_items (default pending_batch_default (mb_pending m !! s)).

(** Nothing is pending for the shards flushed; the rest is as it was. *)
Definition flushed (shards : list ShardGroupId) (m m' : MessageBatcher) : Prop :=
  mb_retry_queue m' = mb_retry_queue m /\
  forall s, (s ∈ shards -> waiting m' s = []) /\ (s ∉ shards -> waiting m' s = waiting m s).

Lemma empty_waits b : pending_batch_is_empty b = true -> pending_items b = [].
Proof.
  unfold pending_batch_is_empty, pending_items. intros [[Hv Hc]%andb_prop Hp]%andb_prop.
  apply Nat.eqb_eq in Hv, Hc, Hp. apply length_zero_iff_nil in Hv, Hc, Hp. by rewrite Hv, Hc, Hp.
Qed.

Lemma flushed_here shard m : waiting m shard = [] -> flushed [shard] m m.
Proof. intros H. split; [done|]. intros s. split; [by intros ->%list_elem_of_singleton|done]. Qed.

Lemma sends_flush_shard shard w : sends (flush_shard shard) w (fun _ m => flushed [shard] w.2 m).
Proof.
  unfold flush_shard. eapply sends_bind; [apply sends_get|]. intros m w1 _ [-> Hm].
  destruct (mb_pending w.2 !! shard) as [b|] eqn:E.
  2: { apply sends_ret. rewrite Hm. apply flushed_here. unfold waiting. by rewrite E. }
  destruct (pending_batch_is_empty b) eqn:Ee.
  { apply sends_ret. rewrite Hm. apply flushed_here. unfold waiting. rewrite E. by apply empty_waits. }
  eapply sends_bind; [by apply (sends_modify _ _ (fun _ m => m = with_pending (fun p => <[shard := pending_batch_default]> p) w1.2))|].
  intros ? w2 _ Hm2. eapply sends_bind; [apply sends_all|]. intros failed w3 _ [-> Hm3]. apply sends_ret.
  rewrite Hm3, Hm2, Hm. split; [done|]. intros s. unfold waiting. cbn [mb_pending with_pending]. split.
  - intros ->%list_elem_of_singleton. by rewrite lookup_insert_eq.
  - intros Hs. rewrite lookup_insert_ne; [done|]. set_solver.
Qed.

Lemma sends_flush_each shards w : sends (b_for shards flush_shard) w (fun _ m => flushed shards w.2 m).
Proof.
  revert w. induction shards as [|shard shards IH]; intros w; cbn [b_for].
  { apply sends_ret. split; [done|]. intros s. split; [by intros ?%elem_of_nil|done]. }
  eapply sends_bind; [apply sends_flush_shard|]. intros ? w1 _ [Hq1 Hs1].
  intros Hw. eapply returns_mono; [|by apply (IH w1)]. intros ? w2 ev (Hle & Hd & Hq2 & Hs2).
  split_and!; [done|done|]. split; [congruence|]. intros s. destruct (Hs1 s) as [H1 H2], (Hs2 s) as [H3 H4]. split.
  - intros Hs. destruct (decide (s ∈ shards)) as [Hin|Hout]; [by apply H3|]. rewrite (H4 Hout). apply H1. set_solver.
  - intros Hs. rewrite H4, H2; [done|set_solver..].
Qed.

Lemma nothing_waits m : (forall s, waiting m s = []) -> pending_all (mb_pending m) = [].
Proof.
  intros H. unfold pending_all. assert (Hl : forall s b, (s, b) ∈ map_to_list (mb_pending m) -> pending_items b = []).
  { intros s b E%elem_of_map_to_list. specialize (H s). unfold waiting in H. by rewrite E in H. }
  induction (map_to_list (mb_pending m)) as [|[s b] l IH]; [done|]. rewrite bind_cons. cbn [fst snd].
  rewrite (Hl s b) by set_solver. cbn. apply IH. intros s' b' Hin. apply (Hl s' b'). set_solver.
Qed.

Lemma sends_flush_all w : sends flush_all w (fun _ m => mb_retry_queue m = mb_retry_queue w.2 /\ pending_all (mb_pending m) = []).
Proof.
  unfold flush_all. eapply sends_bind; [apply sends_get|]. intros m w1 _ [-> Hm] Hw.
  eapply returns_mono; [|by apply (sends_flush_each _ w1)]. intros ? w2 ev (Hle & Hd & Hq & Hs).
  split_and!; [done|done|by rewrite Hq, Hm|]. apply nothing_waits. intros s. destruct (Hs s) as [H1 H2].
  destruct (mb_pending w.2 !! s) as [b|] eqn:E.
  - apply H1. apply list_elem_of_fmap. exists (s, b). split; [done|]. by apply elem_of_hm_iter.
  - rewrite H2; [unfold waiting; by rewrite Hm, E|]. intros ([s' b'] & -> & Hin%elem_of_hm_iter)%list_elem_of_fmap. cbn in E; by rewrite E in Hin.
Qed.

Lemma sends_retries l w : sends (b_for l process_retry) w (fun _ m => m = w.2).
Proof.
  revert w. induction l as [|e l IH]; intros w; cbn [b_for]; [by apply sends_ret|].
  eapply (sends_bind _ _ _ (fun _ m => m = w.2)).
  - unfold process_retry. eapply sends_bind; [apply sends_broadcast|]. intros ok w1 _ [-> Hm]. by apply sends_ret.
  - intros ? w1 _ <-. apply IH.
Qed.

Lemma split_due_all now queue : Forall (fun e => re_next_retry_at e <= now) queue -> split_due now queue = (queue, []).
Proof.
  induction 1 as [|e queue He _ IH]; [done|]. cbn [split_due]. apply N.leb_le in He. by rewrite He, IH.
Qed.

(** Once broadcasts work and the batches waiting for a retry are due, the
    shutdown (a flush of everything and a last round of retries) hands every
    item the batcher holds to the network, gives none up, and leaves nothing
    behind. *)
Theorem working_network_drains (w : nat * MessageBatcher) (Hok : batcher_ok w.2) (Hworks : works w.1)
    (Hdue : forall k e, (w.1 <= k)%nat -> e ∈ mb_retry_queue w.2 -> re_next_retry_at e <= clock k) :
  returns (batcher_turn (Command ShutdownCommand)) w (fun _ w' ev =>
    held w'.2 = [] /\ dropped ev = [] /\ sent ev ≡ₚ held w.2).
Proof.
  assert (Hs : sends (batcher_turn (Command ShutdownCommand)) w (fun _ m => held m = [])).
  { cbn [batcher_turn]. eapply sends_bind; [apply sends_flush_all|]. intros ? w1 Hle1 [Hq1 Hp1].
    unfold process_retries. eapply sends_bind; [by apply (sends_now w1 (fun now m => now = clock w1.1 /\ m = w1.2))|].
    intros now w2 Hle2 [-> Hm2]. eapply sends_bind; [apply sends_get|]. intros m w3 _ [-> Hm3].
    rewrite split_due_all by (rewrite Hm2, Hq1; apply Forall_forall; intros e He; by apply Hdue).
    eapply sends_bind; [by apply (sends_modify _ _ (fun _ m => m = with_queue [] w3.2))|]. intros ? w4 _ Hm4 Hw.
    eapply returns_mono; [|by apply (sends_retries _ w4)]. intros ? w5 ev (Hle & Hd & Hm5). split_and!; [done|done|].
    rewrite Hm5, Hm4, Hm3, Hm2. unfold held. cbn. by rewrite Hp1. }
  destruct (Hs Hworks) as (x & w' & ev & E & _ & Hd & Hh). exists x, w', ev. split; [done|]. split_and!; [done|done|].
  destruct (conserves_turn (Command ShutdownCommand) w Hok) as (x' & w2 & ev2 & E2 & _ & _ & Hp).
  rewrite E in E2. inversion E2; subst. cbn in Hp. rewrite Hh, app_nil_r, gone_split, Hd, !app_nil_r in Hp. exact Hp.
Qed.

(** With a retry queue of size zero, a failed broadcast is never given back to
    the loop. *)
Lemma empty_queue_spins entry w : mc_max_retry_queue_size (mb_config w.2) = 0%nat -> enqueue_retry entry w = None.
Proof.
  intros H0. unfold enqueue_retry, b_bind, b_get. rewrite H0.
  enough (Hr : forall queue w, make_room 0 queue w = None) by (by rewrite Hr).
  clear. induction queue as [|e queue IH]; intros w; [done|]. cbn [make_room Nat.leb length]. unfold b_bind. cbn. by rewrite IH.
Qed.
End specs.

(** ** Samples *)

(** Every other answer of the network is an error; a tenth of a second passes
    between two questions. *)
Definition flaky : Outside :=
  {| outcome := fun k => Nat.even k; clock := fun k => from_millis (100 * N.of_nat k) |}.

Definition reliable : Outside :=
  {| outcome := fun _ => true; clock := fun k => from_secs 10 + from_millis (100 * N.of_nat k) |}.

Definition batched_vote (tx : Hash) : BatchableItem := ItemVote (mk_state_vote tx 0 0 true [] 1 0).
Definition batched_provision (tx : Hash) : BatchableItem := ItemProvision (mk_state_provision tx 1 0 3 0 [] 1 0).

Definition narrow_config : MessageBatcherConfig :=
  mk_batcher_config (from_millis 50) 3 true 2 (from_millis 100) (from_secs 5) 1.

Definition batch_inputs : list BatcherInput :=
  [Command (QueueCommand 1 (batched_vote 5)); Command (QueueCommand 1 (batched_provision 5)); FlushTick;
   Command (QueueCommand 2 (batched_vote 6)); Command FlushCommand; RetryTick; RetryTick; Command ShutdownCommand].

Lemma batcher_loses_nothing_witness :
  (0 < mc_max_retry_queue_size narrow_config)%nat /\ 0 < mc_max_retry_attempts narrow_config /\
  returns (run_batcher (O := flaky) (HI := canonical_iter) batch_inputs) (0%nat, batcher_new narrow_config) (fun _ w ev =>
    held w.2 ++ sent ev ++ dropped ev ≡ₚ queued batch_inputs /\ mb_config w.2 = narrow_config /\
    StronglySorted due_before (mb_retry_queue w.2) /\ (length (mb_retry_queue w.2) <= 1)%nat /\
    Forall (fun e => re_attempts e < 2) (mb_retry_queue w.2)).
Proof.
  split; [vm_compute; lia|]. split; [reflexivity|].
  apply (batcher_loses_nothing (O := flaky) (HI := canonical_iter) narrow_config batch_inputs 0); [vm_compute; lia|reflexivity].
Defined.

Definition batcher_after_failure : MessageBatcher :=
  mk_message_batcher narrow_config {[ 2 := push_item (batched_vote 6) pending_batch_default ]}
    [mk_retry_entry 1 (BatchVotes [mk_state_vote 5 0 0 true [] 1 0]) 1 (from_secs 1) 0].

Lemma working_network_drains_witness :
  batcher_ok batcher_after_failure /\
  returns (batcher_turn (O := reliable) (HI := canonical_iter) (Command ShutdownCommand)) (4%nat, batcher_after_failure)
    (fun _ w' ev => held w'.2 = [] /\ dropped ev = [] /\ sent ev ≡ₚ [(2, batched_vote 6); (1, batched_vote 5)]).
Proof.
  assert (Hok : batcher_ok batcher_after_failure).
  { split; [vm_compute; lia|reflexivity|repeat constructor|vm_compute; lia|repeat constructor]. }
  split; [exact Hok|].
  apply (working_network_drains (O := reliable) (HI := canonical_iter) (4%nat, batcher_after_failure)).
  - exact Hok.
  - intros k _. reflexivity.
  - intros k e _ He. apply list_elem_of_singleton in He as ->. cbn [re_next_retry_at clock reliable]. unfold from_secs, from_millis. lia.
Defined.
