(* ===== verification/Topics.v ===== *)
(** * Gossip topics (crates/production/src/network/topic.rs)

    Topics are strings; a string is the list of its bytes.  Numbers are
    printed and parsed in decimal the way the standard library does. *)

From stdpp Require Import base list numbers.
From Stdlib Require Import NArith Lia String.
From S2P Require Import Prelude Types Encoding.

(** ** Decimal numbers *)

(** [Display] for unsigned integers; a number below [2 ^ 64] has at most
    twenty digits. *)
Fixpoint digits (fuel : nat) (n : N) : bytes :=
  match fuel with
  | O => []
  | S fuel => (if n <? 10 then [] else digits fuel (n / 10)) ++ [48 + n mod 10]
  end.

Definition display (n : N) : bytes := digits 20 n.

Definition digit_of (b : N) : option N := if (48 <=? b) && (b <=? 57) then Some (b - 48) else None.

(** The loop of [from_str_radix]: digits only, without overflow. *)
Fixpoint parse_digits (limit acc : N) (s : bytes) : option N :=
  match s with
  | [] => Some acc
  | b :: s => d ← digit_of b; let acc := acc * 10 + d in if acc <? limit then parse_digits limit acc s else None
  end.

(** [str::parse] for an unsigned integer below [limit]: a leading plus sign is
    accepted, the empty string and a lone sign are not. *)
Definition parse_number (limit : N) (s : bytes) : option N :=
  match s with
  | [] => None
  | 43 :: [] => None
  | 43 :: s => parse_digits limit 0 s
  | s => parse_digits limit 0 s
  end.

(** [str::split] with one character: one part more than separators. *)
Fixpoint split_on (sep : N) (s : bytes) : list bytes :=
  match s with
  | [] => [[]]
  | b :: s => if b =? sep then [] :: split_on sep s
              else match split_on sep s with part :: parts => (b :: part) :: parts | [] => [[b]] end
  end.

Fixpoint strip_literal (prefix s : bytes) : option bytes :=
  match prefix, s with
  | [], s => Some s
  | p :: prefix, b :: s => if p =? b then strip_literal prefix s else None
  | _ :: _, [] => None
  end.

(** ** Topics *)

Record ProtocolVersion := mk_version { major : N; minor : N }.

Definition CURRENT : ProtocolVersion := mk_version 1 0.

Record Topic := mk_topic {
  tp_message_type : bytes;
  tp_shard : option ShardGroupId;
  tp_version : ProtocolVersion
}.

Definition topic_global (message_type : bytes) : Topic := mk_topic message_type None CURRENT.
Definition topic_shard (message_type : bytes) (shard : ShardGroupId) : Topic := mk_topic message_type (Some shard) CURRENT.
Definition with_version (version : ProtocolVersion) (t : Topic) : Topic := mk_topic (tp_message_type t) (tp_shard t) version.

Definition is_global (t : Topic) : bool := match tp_shard t with None => true | Some _ => false end.
Definition is_shard (t : Topic) : bool := negb (is_global t).

Definition SLASH : N := 47.
Definition DOT : N := 46.

Definition version_string (v : ProtocolVersion) : bytes :=
  display (major v) ++ DOT :: display (minor v) ++ DOT :: byte_literal "0".

Definition to_topic_string (t : Topic) : bytes :=
  match tp_shard t with
  | Some shard =>
      byte_literal "hyperscale" ++ SLASH :: tp_message_type t ++ SLASH :: byte_literal "shard-" ++ display shard
      ++ SLASH :: version_string (tp_version t)
  | None => byte_literal "hyperscale" ++ SLASH :: tp_message_type t ++ SLASH :: version_string (tp_version t)
  end.

Definition u32_modulus : N := 2 ^ 32.

Definition parse_version (s : bytes) : option ProtocolVersion :=
  match split_on DOT s with
  | [a; b; _] => major ← parse_number u32_modulus a; minor ← parse_number u32_modulus b; Some (mk_version major minor)
  | _ => None
  end.

Definition topic_parse (topic_str : bytes) : option Topic :=
  match split_on SLASH topic_str with
  | [] => None
  | first :: parts =>
      if negb (bool_decide (first = byte_literal "hyperscale")) then None
      else match parts with
      | [message_type; version] => version ← parse_version version; Some (mk_topic message_type None version)
      | [message_type; shard_str; version] =>
          id_str ← strip_literal (byte_literal "shard-") shard_str;
          shard_id ← parse_number u64_modulus id_str;
          version ← parse_version version;
          Some (mk_topic message_type (Some shard_id) version)
      | _ => None
      end
  end.

(** The topics of the message types. *)
Definition topic_block_header : ShardGroupId -> Topic := topic_shard (byte_literal "block.header").
Definition topic_block_vote : ShardGroupId -> Topic := topic_shard (byte_literal "block.vote").
Definition topic_transaction_gossip : ShardGroupId -> Topic := topic_shard (byte_literal "transaction.gossip").
Definition topic_transaction_certificate : ShardGroupId -> Topic := topic_shard (byte_literal "transaction.certificate").
Definition topic_state_provision_batch : ShardGroupId -> Topic := topic_shard (byte_literal "state.provision.batch").
Definition topic_state_vote_batch : ShardGroupId -> Topic := topic_shard (byte_literal "state.vote.batch").
Definition topic_state_certificate_batch : ShardGroupId -> Topic := topic_shard (byte_literal "state.certificate.batch").

(** ** Numbers round-trip *)

Definition is_digit (b : N) : Prop := 48 <= b <= 57.

Lemma digits_are_digits fuel n : Forall is_digit (digits fuel n).
Proof.
  revert n. induction fuel as [|fuel IH]; intros n; cbn [digits]; [constructor|].
  apply Forall_app. split; [destruct (n <? 10); [constructor|apply IH]|].
  constructor; [|constructor]. unfold is_digit.
  pose proof (N.mod_lt n 10 ltac:(lia)) as H. revert H. generalize (n mod 10). intros. lia.
Qed.

Lemma parse_digits_app limit acc s s' n :
  parse_digits limit acc s = Some n -> parse_digits limit acc (s ++ s') = parse_digits limit n s'.
Proof.
  revert acc. induction s as [|b s IH]; intros acc; cbn [parse_digits app]; [by intros [= ->]|].
  destruct (digit_of b); cbn [mbind option_bind]; [|done]. case_match; [apply IH|done].
Qed.

Lemma digit_of_digit d : d < 10 -> digit_of (48 + d) = Some d.
Proof.
  intros Hd. unfold digit_of. destruct (N.leb_spec 48 (48 + d)), (N.leb_spec (48 + d) 57); try lia. cbn. f_equal. lia.
Qed.

Lemma parse_digits_of limit fuel n : n < limit -> n < 10 ^ N.of_nat fuel -> parse_digits limit 0 (digits fuel n) = Some n.
Proof.
  revert n. induction fuel as [|fuel IH]; intros n Hn Hf; [change (n < 1) in Hf; cbn; f_equal; lia|].
  rewrite Nat2N.inj_succ, N.pow_succ_r' in Hf. cbn [digits].
  assert (Hdm : n = 10 * (n / 10) + n mod 10) by (apply N.div_mod; lia).
  assert (Hlt : n mod 10 < 10) by (apply N.mod_lt; lia).
  destruct (N.ltb_spec n 10) as [H|H].
  - rewrite N.mod_small by done. cbn [parse_digits app]. rewrite digit_of_digit by done. cbn.
    rewrite N.add_0_l. destruct (N.ltb_spec n limit); [done|lia].
  - assert (Hq : n / 10 < limit /\ n / 10 < 10 ^ N.of_nat fuel).
    { revert Hdm. generalize (n / 10) (n mod 10). intros. nia. }
    rewrite (parse_digits_app _ _ _ _ (n / 10)) by (apply IH; apply Hq).
    cbn [parse_digits]. rewrite digit_of_digit by done. cbn [mbind option_bind].
    rewrite (N.mul_comm (n / 10)), <- Hdm. cbn. destruct (N.ltb_spec n limit); [done|lia].
Qed.

Lemma digits_not_nil fuel n : digits (S fuel) n <> [].
Proof. cbn [digits]. by destruct (if n <? 10 then [] else digits fuel (n / 10)). Qed.

Lemma parse_display limit n : n < limit -> n < 10 ^ 20 -> parse_number limit (display n) = Some n.
Proof.
  intros Hn Hb. unfold parse_number. pose proof (digits_are_digits 20 n) as Hd. pose proof (digits_not_nil 19 n) as Hnil.
  fold (display n) in *. pose proof (parse_digits_of limit 20 n Hn Hb) as Hp. fold (display n) in Hp.
  destruct (display n) as [|b s]; [done|]. apply Forall_cons_1 in Hd as [Hb' _]. unfold is_digit in Hb'.
  destruct b as [|p]; [lia|]. by do 6 (destruct p; try done; try lia).
Qed.

Lemma display_digits n : Forall is_digit (display n).
Proof. apply digits_are_digits. Qed.

(** ** Topics round-trip *)

(** A text without the separator. *)
Definition free_of (sep : N) (s : bytes) : Prop := Forall (fun b => b <> sep) s.

#[export] Instance free_of_dec sep s : Decision (free_of sep s).
Proof. unfold free_of. apply _. Defined.

Lemma split_free sep s : free_of sep s -> split_on sep s = [s].
Proof.
  induction 1 as [|b s Hb _ IH]; [done|]. cbn [split_on]. destruct (N.eqb_spec b sep); [done|]. by rewrite IH.
Qed.

Lemma split_cons sep s rest : free_of sep s -> split_on sep (s ++ sep :: rest) = s :: split_on sep rest.
Proof.
  induction 1 as [|b s Hb _ IH]; cbn [split_on app]; [by rewrite N.eqb_refl|].
  destruct (N.eqb_spec b sep); [done|]. by rewrite IH.
Qed.

Lemma free_app sep a b : free_of sep a -> free_of sep b -> free_of sep (a ++ b).
Proof. apply Forall_app_2. Qed.

Lemma digits_free sep s : Forall is_digit s -> ~ is_digit sep -> free_of sep s.
Proof. intros H Hs. induction H as [|b s Hb _ IH]; constructor; [by intros ->|done]. Qed.

Lemma free_display sep n : ~ is_digit sep -> free_of sep (display n).
Proof. intros H. apply digits_free; [apply display_digits|done]. Qed.

Lemma strip_literal_app prefix s : strip_literal prefix (prefix ++ s) = Some s.
Proof. induction prefix as [|p prefix IH]; [done|]. cbn. by rewrite N.eqb_refl. Qed.

Record topic_fits (t : Topic) : Prop := {
  fits_message_type : free_of SLASH (tp_message_type t);
  fits_shard : forall s, tp_shard t = Some s -> is_u64 s;
  fits_major : major (tp_version t) < u32_modulus;
  fits_minor : minor (tp_version t) < u32_modulus
}.

Lemma parse_version_string v : major v < u32_modulus -> minor v < u32_modulus -> parse_version (version_string v) = Some v.
Proof.
  intros Ha Hb. unfold parse_version, version_string.
  assert (~ is_digit DOT) by (unfold is_digit, DOT; lia).
  rewrite split_cons by by apply free_display. rewrite split_cons by by apply free_display.
  rewrite split_free by (vm_compute; repeat constructor; lia).
  rewrite !parse_display by (unfold u32_modulus in *; lia). by destruct v.
Qed.

Lemma version_free v : free_of SLASH (version_string v).
Proof.
  assert (~ is_digit SLASH) by (unfold is_digit, SLASH; lia).
  apply free_app; [by apply free_display|]. constructor; [done|].
  apply free_app; [by apply free_display|]. repeat (constructor; [done|]). constructor.
Qed.

(** Parsing the printed form of a topic gives the topic back. *)
Theorem topic_roundtrip (t : Topic) (Ht : topic_fits t) : topic_parse (to_topic_string t) = Some t.
Proof.
  destruct t as [ty sh v], Ht as [Hty Hsh Hma Hmi]. cbn in *. unfold topic_parse, to_topic_string.
  assert (~ is_digit SLASH) by (unfold is_digit, SLASH; lia).
  assert (Hp : free_of SLASH (byte_literal "hyperscale")) by (vm_compute; repeat constructor; lia).
  cbn [tp_shard tp_message_type tp_version].
  destruct sh as [s|]; rewrite split_cons by done; rewrite bool_decide_true by done; cbn [negb]; rewrite split_cons by done.
  - rewrite app_assoc, split_cons, (split_free _ _ (version_free v)).
    2: { apply free_app; [vm_compute; repeat constructor; lia|by apply free_display]. }
    rewrite strip_literal_app. cbn [mbind option_bind]. specialize (Hsh s eq_refl). unfold is_u64, u64_modulus in *.
    rewrite parse_display by lia. cbn [mbind option_bind]. by rewrite parse_version_string.
  - rewrite (split_free _ _ (version_free v)). by rewrite parse_version_string.
Qed.

(** Two topics with the same string are the same topic. *)
Lemma topic_string_inj t t' : topic_fits t -> topic_fits t' -> to_topic_string t = to_topic_string t' -> t = t'.
Proof. intros Ht Ht' E. apply (inj Some). by rewrite <- !topic_roundtrip, E. Qed.

(** Strings that are not the printed form of a topic are parsed, too: the last
    part of a version is ignored, and so are signs and leading zeros. *)
Lemma parse_not_canonical :
  topic_parse (byte_literal "hyperscale/block.vote/shard-+007/01.0.x") = Some (topic_block_vote 7).
Proof. vm_compute. reflexivity. Qed.

(** The predefined topics fit. *)
Lemma topic_shard_fits ty s : free_of SLASH ty -> is_u64 s -> topic_fits (topic_shard ty s).
Proof. intros Hty Hs. split; cbn; [done|by intros ? [= <-]|unfold u32_modulus; lia..]. Qed.
