(* ===== verification/Gossip.v ===== *)
(** * Gossip messages on the wire

    Encoding and decoding of messages (codec.rs, codec_pool.rs, wire.rs of
    crates/production/src/network), their topics, the broadcasts and the
    received messages of the adapter (adapter.rs), and the containers of
    crates/messages/src/gossip.  LZ4 is the class [Lz4], SBOR the class
    [Sbor]. *)

From stdpp Require Import base gmap strings list numbers countable.
From Stdlib Require Import NArith Lia.
From S2P Require Import Prelude Bitfield Types Encoding Core Sbor Topics.

(** ** Compression (wire.rs) *)

(** [lz4_flex]: decompression undoes compression, and the size in front makes
    the output non-empty. *)
Class Lz4 := {
  compress_prepend_size : bytes -> bytes;
  decompress_size_prepended : bytes -> option bytes;
  lz4_roundtrip : forall data, decompress_size_prepended (compress_prepend_size data) = Some data;
  lz4_size_prepended : forall data, compress_prepend_size data <> []
}.

Definition sample_decompress (data : bytes) : option bytes :=
  match data with n :: data => if n =? N.of_nat (length data) then Some data else None | [] => None end.

Lemma sample_lz4_roundtrip data : sample_decompress (N.of_nat (length data) :: data) = Some data.
Proof. cbn. by rewrite N.eqb_refl. Qed.

Definition sample_lz4 : Lz4 := {|
  compress_prepend_size data := N.of_nat (length data) :: data;
  decompress_size_prepended := sample_decompress;
  lz4_roundtrip := sample_lz4_roundtrip;
  lz4_size_prepended data E := ltac:(discriminate E)
|}.

Definition compress `{Lz4} (data : bytes) : bytes := compress_prepend_size data.
Definition decompress `{Lz4} (data : bytes) : option bytes := decompress_size_prepended data.

(** ** Messages *)

Record TraceContext := mk_trace_context { tc_headers : list (bytes * bytes) }.

Definition has_trace (c : TraceContext) : bool := match tc_headers c with [] => false | _ => true end.

Record BlockVoteGossip := mk_block_vote_gossip { bvg_vote : BlockVote }.
Record StateProvisionBatch := mk_provision_batch { spb_provisions : list StateProvision; spb_trace_context : TraceContext }.
Record StateVoteBatch := mk_vote_batch { svb_votes : list StateVoteBlock }.
Record StateCertificateBatch := mk_certificate_batch { scb_certificates : list StateCertificate; scb_trace_context : TraceContext }.
Record TransactionCertificateGossip := mk_certificate_gossip { tcg_certificate : TransactionCertificate }.
Record TransactionGossip := mk_transaction_gossip { tg_transaction : RoutableTransaction; tg_trace_context : TraceContext }.

(** [OutboundMessage], with the batches that the message batcher makes of
    votes, certificates and provisions. *)
Inductive WireMessage :=
  | WireBlockHeader (gossip : BlockHeaderGossip)
  | WireBlockVote (gossip : BlockVoteGossip)
  | WireStateProvisionBatch (batch : StateProvisionBatch)
  | WireStateVoteBatch (batch : StateVoteBatch)
  | WireStateCertificateBatch (batch : StateCertificateBatch)
  | WireTransactionCertificateGossip (gossip : TransactionCertificateGossip)
  | WireTransactionGossip (gossip : TransactionGossip).

#[export] Instance TraceContext_eq_dec : EqDecision TraceContext.
Proof. solve_decision. Defined.
#[export] Instance TraceContext_countable : Countable TraceContext.
Proof. apply (inj_countable' tc_headers mk_trace_context). by intros []. Defined.

#[export] Instance BlockVote_countable : Countable BlockVote.
Proof.
  apply (inj_countable' (fun v => (bv_block_hash v, bv_height v, bv_round v, bv_voter v, bv_signature v, bv_timestamp v))
    (fun '(a, b, c, d, e, f) => mk_block_vote a b c d e f)). by intros [].
Defined.

#[export] Instance StateVoteBlock_countable : Countable StateVoteBlock.
Proof.
  apply (inj_countable' (fun v => (sv_transaction_hash v, sv_shard_group_id v, sv_state_root v, sv_success v,
      sv_state_writes v, sv_validator v, sv_signature v))
    (fun '(a, b, c, d, e, f, g) => mk_state_vote a b c d e f g)). by intros [].
Defined.

#[export] Instance StateProvision_eq_dec : EqDecision StateProvision.
Proof. solve_decision. Defined.
#[export] Instance StateProvision_countable : Countable StateProvision.
Proof.
  apply (inj_countable' (fun p => (sp_transaction_hash p, sp_target_shard p, sp_source_shard p, sp_block_height p,
      sp_block_timestamp p, sp_entries p, sp_validator_id p, sp_signature p))
    (fun '(a, b, c, d, e, f, g, h) => mk_state_provision a b c d e f g h)). by intros [].
Defined.

#[export] Instance BlockHeaderGossip_eq_dec : EqDecision BlockHeaderGossip.
Proof. solve_decision. Defined.
#[export] Instance BlockHeaderGossip_countable : Countable BlockHeaderGossip.
Proof.
  apply (inj_countable' (fun g => (bg_header g, bg_retry_hashes g, bg_priority_hashes g, bg_transaction_hashes g,
      bg_certificate_hashes g, bg_deferred g, bg_aborted g, bg_commitment_proofs g))
    (fun '(a, b, c, d, e, f, g, h) => mk_block_header_gossip a b c d e f g h)). by intros [].
Defined.

#[export] Instance BlockVoteGossip_eq_dec : EqDecision BlockVoteGossip.
Proof. solve_decision. Defined.
#[export] Instance BlockVoteGossip_countable : Countable BlockVoteGossip.
Proof. apply (inj_countable' bvg_vote mk_block_vote_gossip). by intros []. Defined.

#[export] Instance StateProvisionBatch_eq_dec : EqDecision StateProvisionBatch.
Proof. solve_decision. Defined.
#[export] Instance StateProvisionBatch_countable : Countable StateProvisionBatch.
Proof. apply (inj_countable' (fun b => (spb_provisions b, spb_trace_context b)) (fun '(a, b) => mk_provision_batch a b)). by intros []. Defined.

#[export] Instance StateVoteBatch_eq_dec : EqDecision StateVoteBatch.
Proof. solve_decision. Defined.
#[export] Instance StateVoteBatch_countable : Countable StateVoteBatch.
Proof. apply (inj_countable' svb_votes mk_vote_batch). by intros []. Defined.

#[export] Instance StateCertificateBatch_eq_dec : EqDecision StateCertificateBatch.
Proof. solve_decision. Defined.
#[export] Instance StateCertificateBatch_countable : Countable StateCertificateBatch.
Proof. apply (inj_countable' (fun b => (scb_certificates b, scb_trace_context b)) (fun '(a, b) => mk_certificate_batch a b)). by intros []. Defined.

#[export] Instance TransactionCertificateGossip_eq_dec : EqDecision TransactionCertificateGossip.
Proof. solve_decision. Defined.
#[export] Instance TransactionCertificateGossip_countable : Countable TransactionCertificateGossip.
Proof. apply (inj_countable' tcg_certificate mk_certificate_gossip). by intros []. Defined.

#[export] Instance TransactionGossip_eq_dec : EqDecision TransactionGossip.
Proof. solve_decision. Defined.
#[export] Instance TransactionGossip_countable : Countable TransactionGossip.
Proof. apply (inj_countable' (fun g => (tg_transaction g, tg_trace_context g)) (fun '(a, b) => mk_transaction_gossip a b)). by intros []. Defined.

(** ** Encoding and decoding (codec.rs) *)

Inductive CodecError := MessageTooShort | SborDecode | Decompress | UnknownTopic.

Record DecodedMessage := mk_decoded { dm_events : list Event; dm_trace_context : option TraceContext }.

Section codec.
Context `{Sbor} `{Lz4}.

Definition encode_message (message : WireMessage) : bytes :=
  compress (match message with
            | WireBlockHeader gossip => basic_encode gossip
            | WireBlockVote gossip => basic_encode gossip
            | WireStateProvisionBatch batch => basic_encode batch
            | WireStateVoteBatch batch => basic_encode batch
            | WireStateCertificateBatch batch => basic_encode batch
            | WireTransactionCertificateGossip gossip => basic_encode gossip
            | WireTransactionGossip gossip => basic_encode gossip
            end).

Definition trace_of (c : TraceContext) : option TraceContext := if has_trace c then Some c else None.

Definition decode_as {A} `{Countable A} (payload : bytes) (k : A -> DecodedMessage) : DecodedMessage + CodecError :=
  match basic_decode payload with Some x => inl (k x) | None => inr SborDecode end.

Definition decode_message (parsed_topic : Topic) (data : bytes) : DecodedMessage + CodecError :=
  match data with
  | [] => inr MessageTooShort
  | _ =>
      match decompress data with
      | None => inr Decompress
      | Some payload =>
          let for_type name := bool_decide (tp_message_type parsed_topic = byte_literal name) in
          if for_type "block.header" then
            decode_as payload (fun gossip : BlockHeaderGossip => mk_decoded [BlockHeaderReceived gossip] None)
          else if for_type "block.vote" then
            decode_as payload (fun gossip : BlockVoteGossip => mk_decoded [BlockVoteReceived (bvg_vote gossip)] None)
          else if for_type "state.provision.batch" then
            decode_as payload (fun batch : StateProvisionBatch =>
              mk_decoded (StateProvisionReceived <$> spb_provisions batch) (trace_of (spb_trace_context batch)))
          else if for_type "state.vote.batch" then
            decode_as payload (fun batch : StateVoteBatch => mk_decoded (StateVoteReceived <$> svb_votes batch) None)
          else if for_type "state.certificate.batch" then
            decode_as payload (fun batch : StateCertificateBatch =>
              mk_decoded (StateCertificateReceived <$> scb_certificates batch) (trace_of (scb_trace_context batch)))
          else if for_type "transaction.gossip" then
            decode_as payload (fun gossip : TransactionGossip =>
              mk_decoded [TransactionGossipReceived (tg_transaction gossip)] (trace_of (tg_trace_context gossip)))
          else if for_type "transaction.certificate" then
            decode_as payload (fun gossip : TransactionCertificateGossip =>
              mk_decoded [TransactionCertificateReceived (tcg_certificate gossip)] None)
          else inr UnknownTopic
      end
  end.

Definition topic_for_message (message : WireMessage) (shard : ShardGroupId) : Topic :=
  match message with
  | WireBlockHeader _ => topic_block_header shard
  | WireBlockVote _ => topic_block_vote shard
  | WireStateProvisionBatch _ => topic_state_provision_batch shard
  | WireStateVoteBatch _ => topic_state_vote_batch shard
  | WireStateCertificateBatch _ => topic_state_certificate_batch shard
  | WireTransactionCertificateGossip _ => topic_transaction_certificate shard
  | WireTransactionGossip _ => topic_transaction_gossip shard
  end.

(** ** The adapter (adapter.rs, codec_pool.rs) *)

(** What a broadcast hands to gossipsub: the topic and the data. *)
Definition broadcast_shard (shard : ShardGroupId) (message : WireMessage) : bytes * bytes :=
  (to_topic_string (topic_for_message message shard), encode_message message).

Definition subscribe_shard (shard : ShardGroupId) : list bytes :=
  to_topic_string <$>
    [topic_block_header shard; topic_block_vote shard; topic_transaction_gossip shard;
     topic_transaction_certificate shard; topic_state_provision_batch shard; topic_state_vote_batch shard;
     topic_state_certificate_batch shard].

(** Where a received event goes: transactions to the validation batcher, the
    rest to the channel of consensus, which may be full. *)
Inductive Delivery :=
  | ToValidation (tx : RoutableTransaction)
  | ToConsensus (event : Event)
  | LostChannelFull (event : Event).

(** [decode_async]; [space] is the free space of the channel. *)
Fixpoint deliver (space : nat) (events : list Event) : list Delivery :=
  match events with
  | [] => []
  | TransactionGossipReceived tx :: events => ToValidation tx :: deliver space events
  | event :: events =>
      match space with
      | O => LostChannelFull event :: deliver O events
      | S space => ToConsensus event :: deliver space events
      end
  end.

Definition is_shard_local_message (msg_type : bytes) : bool :=
  bool_decide (msg_type = byte_literal "block.header") || bool_decide (msg_type = byte_literal "block.vote")
  || bool_decide (msg_type = byte_literal "state.vote").

(** The gossip branch of [handle_swarm_event]. *)
Definition handle_gossip (local_shard : ShardGroupId) (known_peer : bool) (space : nat) (message : bytes * bytes)
    : list Delivery :=
  match topic_parse message.1 with
  | None => []
  | Some parsed_topic =>
      if negb known_peer then []
      else
        let dropped := is_shard_local_message (tp_message_type parsed_topic)
          && match tp_shard parsed_topic with Some topic_shard => negb (topic_shard =? local_shard) | None => false end in
        if dropped then []
        else match decode_message parsed_topic message.2 with
             | inl decoded => deliver space (dm_events decoded)
             | inr _ => []
             end
  end.
End codec.

(** ** Delivery *)

(** The events a message stands for. *)
Definition message_events (m : WireMessage) : list Event :=
  match m with
  | WireBlockHeader gossip => [BlockHeaderReceived gossip]
  | WireBlockVote gossip => [BlockVoteReceived (bvg_vote gossip)]
  | WireStateProvisionBatch batch => StateProvisionReceived <$> spb_provisions batch
  | WireStateVoteBatch batch => StateVoteReceived <$> svb_votes batch
  | WireStateCertificateBatch batch => StateCertificateReceived <$> scb_certificates batch
  | WireTransactionCertificateGossip gossip => [TransactionCertificateReceived (tcg_certificate gossip)]
  | WireTransactionGossip gossip => [TransactionGossipReceived (tg_transaction gossip)]
  end.

Definition message_trace (m : WireMessage) : option TraceContext :=
  match m with
  | WireStateProvisionBatch batch => trace_of (spb_trace_context batch)
  | WireStateCertificateBatch batch => trace_of (scb_trace_context batch)
  | WireTransactionGossip gossip => trace_of (tg_trace_context gossip)
  | _ => None
  end.

(** An event on its way to a node with room in the channel. *)
Definition arrival (e : Event) : Delivery :=
  match e with TransactionGossipReceived tx => ToValidation tx | _ => ToConsensus e end.

Lemma deliver_all space events : (length events <= space)%nat -> deliver space events = arrival <$> events.
Proof.
  revert space. induction events as [|e events IH]; intros space Hs; [done|]. rewrite fmap_cons. cbn [length] in Hs.
  destruct e; cbn [deliver arrival]; try (destruct space as [|space]; [lia|]); rewrite IH; (done || lia).
Qed.

Section theory.
Context `{Sbor} `{Lz4}.

Lemma decode_as_encode {A} `{Countable A} (x : A) (k : A -> DecodedMessage) : decode_as (basic_encode x) k = inl (k x).
Proof. unfold decode_as. by rewrite sbor_roundtrip. Qed.

Lemma decode_encode_message m shard :
  decode_message (topic_for_message m shard) (encode_message m) = inl (mk_decoded (message_events m) (message_trace m)).
Proof.
  unfold decode_message, encode_message, compress, decompress.
  destruct (compress_prepend_size _) as [|b data] eqn:E; [by apply lz4_size_prepended in E|].
  rewrite <- E, lz4_roundtrip. clear E. cbv zeta.
  destruct m; cbn [topic_for_message tp_message_type]; repeat (rewrite bool_decide_false by done); rewrite bool_decide_true by done;
    by rewrite decode_as_encode.
Qed.

Lemma topic_for_message_fits m shard : is_u64 shard -> topic_fits (topic_for_message m shard).
Proof. intros Hs. destruct m; (apply topic_shard_fits; [|done]); vm_compute; repeat (constructor; [done|]); constructor. Qed.

Lemma topic_for_message_shard m shard : tp_shard (topic_for_message m shard) = Some shard.
Proof. by destruct m. Qed.

Lemma gossip_arrives (shard : ShardGroupId) (message : WireMessage) (space : nat)
    (Hshard : is_u64 shard) (Hspace : (length (message_events message) <= space)%nat) :
  handle_gossip shard true space (broadcast_shard shard message) = arrival <$> message_events message.
Proof.
  unfold handle_gossip, broadcast_shard. cbn [fst snd negb].
  rewrite topic_roundtrip by by apply topic_for_message_fits. rewrite topic_for_message_shard, N.eqb_refl. cbn [negb].
  rewrite andb_false_r, decode_encode_message. by apply deliver_all.
Qed.

(** A message that a node broadcasts to a shard reaches every node of the
    shard that knows the sender and has room in its channel, as exactly the
    events the message stands for, in their order: its topic is parsed back,
    its data are decompressed and decoded as what they were, batches are taken
    apart, and transactions go to the validation batcher. *)
Theorem gossip_delivers (shard : ShardGroupId) (message : WireMessage) (space : nat)
    (Hshard : is_u64 shard) (Hspace : (length (message_events message) <= space)%nat) :
  handle_gossip shard true space (broadcast_shard shard message) = arrival <$> message_events message.
Proof. by apply gossip_arrives. Qed.

(** A node is subscribed to the topic of every message for its shard. *)
Lemma subscribed_to_messages shard m : to_topic_string (topic_for_message m shard) ∈ subscribe_shard shard.
Proof. unfold subscribe_shard. apply list_elem_of_fmap_2. destruct m; set_solver. Qed.

(** Headers and votes of another shard's consensus are dropped. *)
Lemma foreign_consensus_dropped local_shard shard m known space : is_u64 shard -> shard <> local_shard ->
  (exists g, m = WireBlockHeader g) \/ (exists g, m = WireBlockVote g) ->
  handle_gossip local_shard known space (broadcast_shard shard m) = [].
Proof.
  intros Hs Hne Hm. unfold handle_gossip, broadcast_shard. cbn [fst snd].
  rewrite topic_roundtrip by by apply topic_for_message_fits. destruct known; [|done]. cbn [negb].
  rewrite topic_for_message_shard. apply N.eqb_neq in Hne. rewrite Hne. cbn [negb]. rewrite andb_true_r.
  by destruct Hm as [[g ->]|[g ->]].
Qed.

(** Batches of execution votes are not: the check names another type. *)
Lemma foreign_votes_accepted local_shard shard batch space : is_u64 shard -> (length (svb_votes batch) <= space)%nat ->
  handle_gossip local_shard true space (broadcast_shard shard (WireStateVoteBatch batch))
    = ToConsensus <$> (StateVoteReceived <$> svb_votes batch).
Proof.
  intros Hs Hl. unfold handle_gossip, broadcast_shard. cbn [fst snd negb].
  rewrite topic_roundtrip by by apply topic_for_message_fits.
  replace (is_shard_local_message (tp_message_type (topic_for_message (WireStateVoteBatch batch) shard))) with false by done.
  cbn [andb]. rewrite decode_encode_message. cbn [dm_events message_events].
  rewrite deliver_all by (by rewrite length_fmap). by rewrite <- !list_fmap_compose.
Qed.
End theory.
