(* ===== verification/BatchDelivery.v ===== *)
(** * From the batcher of one node to the events of another

    The batches that a message batcher broadcasts, encoded, published under
    their topics, received and taken apart again. *)

From stdpp Require Import base gmap list numbers sorting.
From Stdlib Require Import NArith Lia.
From S2P Require Import Prelude Bitfield Types Encoding Core Sbor Topics Gossip Batchers BatcherRuns.

(** The messages of [send_batch] and [flush_shard]; votes carry no trace. *)
Definition batch_message (trace : TraceContext) (batch : FailedBatchType) : WireMessage :=
  match batch with
  | BatchVotes votes => WireStateVoteBatch (mk_vote_batch votes)
  | BatchCertificates certificates => WireStateCertificateBatch (mk_certificate_batch certificates trace)
  | BatchProvisions provisions => WireStateProvisionBatch (mk_provision_batch provisions trace)
  end.

Definition item_event (item : BatchableItem) : Event :=
  match item with
  | ItemVote vote => StateVoteReceived vote
  | ItemCertificate certificate => StateCertificateReceived certificate
  | ItemProvision provision => StateProvisionReceived provision
  end.

Lemma batch_message_events trace batch : message_events (batch_message trace batch) = item_event <$> batch_items batch.
Proof. by destruct batch; cbn; rewrite <- list_fmap_compose. Qed.

Section delivery.
Context `{Sbor} `{Lz4} `{O : Outside} `{HI : HashIter}.

(** What a node of [shard] gets of the broadcasts, with [space] in its channel
    whenever a batch arrives. *)
Definition received (shard : ShardGroupId) (space : nat) (trace : TraceContext) (events : list BatchEvent) : list Delivery :=
  events ≫= fun e =>
    match e with
    | Broadcast to batch =>
        if to =? shard then handle_gossip shard true space (broadcast_shard to (batch_message trace batch)) else []
    | Dropped _ _ => []
    end.

(** The events of the items for a shard. *)
Definition events_for (shard : ShardGroupId) (items : list (ShardGroupId * BatchableItem)) : list Delivery :=
  (fun e => ToConsensus (item_event e.2)) <$> filter (fun e => e.1 = shard) items.

Lemma events_for_app shard a b : events_for shard (a ++ b) = events_for shard a ++ events_for shard b.
Proof. unfold events_for. by rewrite filter_app, fmap_app. Qed.

#[export] Instance events_for_proper shard : Proper (Permutation ==> Permutation) (events_for shard).
Proof. intros a b Hab. unfold events_for. by rewrite Hab. Qed.

Lemma events_for_shard shard to items :
  events_for shard (for_shard to items) = if to =? shard then (fun i => ToConsensus (item_event i)) <$> items else [].
Proof.
  unfold events_for, for_shard. destruct (N.eqb_spec to shard) as [->|Hne]; (induction items as [|i items IH]; [done|]).
  - by rewrite fmap_cons, filter_cons_True, fmap_cons, IH.
  - by rewrite fmap_cons, filter_cons_False.
Qed.

Lemma arrival_item item : arrival (item_event item) = ToConsensus (item_event item).
Proof. by destruct item. Qed.

Lemma received_sent shard space trace events : is_u64 shard -> (length (sent events) <= space)%nat ->
  received shard space trace events = events_for shard (sent events).
Proof.
  intros Hs. induction events as [|[to batch|to batch] events IH]; intros Hl; [done| |exact (IH Hl)].
  unfold received, sent in *. rewrite !bind_cons in *. rewrite length_app in Hl. cbn [event_items] in *.
  unfold for_shard in Hl at 1. rewrite length_fmap in Hl. rewrite IH by lia. rewrite events_for_app, events_for_shard. f_equal.
  destruct (N.eqb_spec to shard) as [->|]; [|done].
  assert (Hb : length (message_events (batch_message trace batch)) = length (batch_items batch))
    by (by rewrite batch_message_events, length_fmap).
  rewrite gossip_arrives by (rewrite ?Hb; done || lia). rewrite batch_message_events, <- list_fmap_compose.
  apply list_fmap_ext. intros i item _. apply arrival_item.
Qed.

(** C30: Whatever the network answers to a node's batcher, a node of the target
    shard that receives the broadcasts and has room for them gets, as events,
    exactly the votes, certificates and provisions that were queued for its
    shard and that the batcher neither still holds nor has given up; each once. *)
Theorem batched_items_arrive (config : MessageBatcherConfig) (inputs : list BatcherInput) (start : nat)
    (shard : ShardGroupId) (space : nat) (trace : TraceContext) (Hshard : is_u64 shard)
    (Hspace : (length (queued inputs) <= space)%nat)
    (Hroom : (0 < mc_max_retry_queue_size config)%nat) (Hattempts : 0 < mc_max_retry_attempts config) :
  returns (run_batcher inputs) (start, batcher_new config) (fun _ w ev =>
    received shard space trace ev ++ events_for shard (held w.2) ++ events_for shard (dropped ev)
      ≡ₚ events_for shard (queued inputs)).
Proof.
  destruct (batcher_run_ok config inputs start Hroom Hattempts) as (x & w & ev & E & Hp & _).
  exists x, w, ev. split; [done|]. rewrite received_sent; [|done|].
  - rewrite <- Hp, !events_for_app. solve_Permutation.
  - apply Permutation_length in Hp. rewrite !length_app in Hp. lia.
Qed.
End delivery.

(** ** Samples *)

Definition two_votes : WireMessage :=
  WireStateVoteBatch (mk_vote_batch [mk_state_vote 5 0 0 true [] 1 0; mk_state_vote 6 0 0 false [] 1 0]).

Lemma gossip_delivers_witness :
  is_u64 3 /\ (length (message_events two_votes) <= 2)%nat /\
  handle_gossip (H := sample_sbor) (H0 := sample_lz4) 3 true 2
    (broadcast_shard (H := sample_sbor) (H0 := sample_lz4) 3 two_votes) = arrival <$> message_events two_votes.
Proof.
  split; [reflexivity|]. split; [cbn; lia|].
  apply (gossip_delivers (H := sample_sbor) (H0 := sample_lz4) 3 two_votes 2); [reflexivity|cbn; lia].
Defined.

Lemma batched_items_arrive_witness :
  is_u64 1 /\ length (queued batch_inputs) = 3%nat /\
  returns (run_batcher (O := flaky) (HI := canonical_iter) batch_inputs) (0%nat, batcher_new narrow_config) (fun _ w ev =>
    received (H := sample_sbor) (H0 := sample_lz4) 1 3 (mk_trace_context []) ev
      ++ events_for 1 (held w.2) ++ events_for 1 (dropped ev) ≡ₚ events_for 1 (queued batch_inputs)).
Proof.
  split; [reflexivity|]. split; [reflexivity|].
  apply (batched_items_arrive (H := sample_sbor) (H0 := sample_lz4) (O := flaky) (HI := canonical_iter)
    narrow_config batch_inputs 0 1 3 (mk_trace_context [])); [reflexivity|cbn; lia|cbn; lia|reflexivity].
Defined.
