(* ===== verification/Serving.v ===== *)
(** * Requests and answers between nodes

    The requests of the sync and fetch managers on their way to another node
    and back: the streams of the request manager (send_request_static of
    request_manager.rs), the router that answers them (inbound_router.rs) and
    the messages of crates/messages/src/request and response. *)

From stdpp Require Import base gmap list numbers countable.
From Stdlib Require Import NArith Lia.
From S2P Require Import Prelude Bitfield Types Encoding Topology Core Sbor Gossip Storage StorageChain SyncManager FetchManager FetchRuns.

(** ** Messages *)

Definition FETCH_TYPE_TRANSACTION : N := 0.
Definition FETCH_TYPE_CERTIFICATE : N := 1.

Record GetTransactionsRequest := mk_get_transactions {
  gt_fetch_type : N;
  gt_block_hash : Hash;
  gt_tx_hashes : list Hash
}.

Record GetCertificatesRequest := mk_get_certificates {
  gc_fetch_type : N;
  gc_block_hash : Hash;
  gc_cert_hashes : list Hash
}.

Definition get_transactions_request_new (block_hash : Hash) (tx_hashes : list Hash) : GetTransactionsRequest :=
  mk_get_transactions FETCH_TYPE_TRANSACTION block_hash tx_hashes.
Definition get_certificates_request_new (block_hash : Hash) (cert_hashes : list Hash) : GetCertificatesRequest :=
  mk_get_certificates FETCH_TYPE_CERTIFICATE block_hash cert_hashes.

Record GetTransactionsResponse := mk_transactions_response { tr_transactions : list RoutableTransaction }.
Record GetCertificatesResponse := mk_certificates_response { cr_certificates : list TransactionCertificate }.

(** The tag of a request decides the last bit of its number. *)
Definition tagged (tag : N) (p : positive) : positive := if tag =? 0 then xO p else xI p.
Definition untagged (p : positive) : option positive := match p with xO p | xI p => Some p | xH => None end.

#[export] Instance GetTransactionsRequest_eq_dec : EqDecision GetTransactionsRequest.
Proof. solve_decision. Defined.
#[export] Instance GetTransactionsRequest_countable : Countable GetTransactionsRequest.
Proof.
  refine {| encode r := tagged (gt_fetch_type r) (encode (gt_fetch_type r, gt_block_hash r, gt_tx_hashes r));
            decode p := q ← untagged p; x ← decode q; Some (mk_get_transactions x.1.1 x.1.2 x.2) |}.
  intros [t b hs]. cbn [gt_fetch_type gt_block_hash gt_tx_hashes]. unfold tagged.
  destruct (t =? 0); cbn [untagged mbind option_bind]; by rewrite decode_encode.
Defined.

#[export] Instance GetCertificatesRequest_eq_dec : EqDecision GetCertificatesRequest.
Proof. solve_decision. Defined.
#[export] Instance GetCertificatesRequest_countable : Countable GetCertificatesRequest.
Proof.
  refine {| encode r := tagged (gc_fetch_type r) (encode (gc_fetch_type r, gc_block_hash r, gc_cert_hashes r));
            decode p := q ← untagged p; x ← decode q; Some (mk_get_certificates x.1.1 x.1.2 x.2) |}.
  intros [t b hs]. cbn [gc_fetch_type gc_block_hash gc_cert_hashes]. unfold tagged.
  destruct (t =? 0); cbn [untagged mbind option_bind]; by rewrite decode_encode.
Defined.

#[export] Instance GetTransactionsResponse_eq_dec : EqDecision GetTransactionsResponse.
Proof. solve_decision. Defined.
#[export] Instance GetTransactionsResponse_countable : Countable GetTransactionsResponse.
Proof. apply (inj_countable' tr_transactions mk_transactions_response). by intros []. Defined.

#[export] Instance GetCertificatesResponse_eq_dec : EqDecision GetCertificatesResponse.
Proof. solve_decision. Defined.
#[export] Instance GetCertificatesResponse_countable : Countable GetCertificatesResponse.
Proof. apply (inj_countable' cr_certificates mk_certificates_response). by intros []. Defined.

(** The layout the router relies on: SBOR writes a prefix, the kind of the
    value, the number of fields and the kind of the first field, one byte each,
    before the first field. *)
Class SborLayout `{Sbor} : Prop := {
  transactions_tag block_hash tx_hashes :
    basic_encode (get_transactions_request_new block_hash tx_hashes) !! 4%nat = Some FETCH_TYPE_TRANSACTION;
  transactions_size block_hash tx_hashes :
    (8 < length (basic_encode (get_transactions_request_new block_hash tx_hashes)))%nat;
  certificates_tag block_hash cert_hashes :
    basic_encode (get_certificates_request_new block_hash cert_hashes) !! 4%nat = Some FETCH_TYPE_CERTIFICATE;
  certificates_size block_hash cert_hashes :
    (8 < length (basic_encode (get_certificates_request_new block_hash cert_hashes)))%nat
}.

(** An encoder with this layout. *)
Definition layout_decode {A} `{Countable A} (b : bytes) : option A :=
  match b with [_; _; _; _; _; Npos p; _; _; _] => decode p | _ => None end.

Definition layout_sbor : Sbor := {|
  basic_encode A _ _ x := [91; 33; 3; 7; if Pos.testbit (encode x) 0 then 1 else 0; Npos (encode x); 0; 0; 0];
  basic_decode A _ _ b := layout_decode b;
  sbor_roundtrip A _ _ x := decode_encode x
|}.

Lemma layout_sbor_layout : @SborLayout layout_sbor.
Proof. split; intros; cbn; (reflexivity || lia). Qed.

(** ** The router (inbound_router.rs) *)

Definition MAX_REQUEST_SIZE : N := 10 * 1024 * 1024.

(** The caches are what they hold when the request is handled. *)
Record InboundRouter := mk_inbound_router {
  ir_max_items_per_response : usize;
  ir_storage : Db;
  ir_recently_received_txs : gmap Hash RoutableTransaction;
  ir_recently_built_certs : gmap Hash TransactionCertificate
}.

Definition DEFAULT_MAX_ITEMS : usize := 500.

Section serving.
Context `{Sbor} `{Lz4}.

Definition handle_block_request (r : InboundRouter) (payload : bytes) : bytes :=
  if Nat.eqb (length payload) 8
  then basic_encode (get_block_for_sync (ir_storage r) (from_le_bytes payload))
  else basic_encode (@None (Block * QuorumCertificate)).

(** Items from the cache first, the rest from storage. *)
Definition lookup_items {A} (cache : gmap Hash A) (from_storage : list Hash -> list A) (hashes : list Hash) : list A :=
  let missing_hashes := filter (fun h => cache !! h = None) hashes in
  filter_map (fun h => cache !! h) hashes ++ match missing_hashes with [] => [] | _ => from_storage missing_hashes end.

Definition handle_transaction_request (r : InboundRouter) (payload : bytes) : bytes :=
  match basic_decode payload with
  | None => basic_encode (mk_transactions_response [])
  | Some request =>
      basic_encode (mk_transactions_response
        (lookup_items (ir_recently_received_txs r) (get_transactions_batch (ir_storage r))
           (take (ir_max_items_per_response r) (gt_tx_hashes request))))
  end.

Definition handle_certificate_request (r : InboundRouter) (payload : bytes) : bytes :=
  match basic_decode payload with
  | None => basic_encode (mk_certificates_response [])
  | Some request =>
      basic_encode (mk_certificates_response
        (lookup_items (ir_recently_built_certs r) (get_certificates_batch (ir_storage r))
           (take (ir_max_items_per_response r) (gc_cert_hashes request))))
  end.

Definition process_request (r : InboundRouter) (payload : bytes) : bytes :=
  if Nat.eqb (length payload) 8 then handle_block_request r payload
  else if Nat.ltb 8 (length payload) then
    match payload !! 4%nat with
    | Some tag =>
        if tag =? FETCH_TYPE_TRANSACTION then handle_transaction_request r payload
        else if tag =? FETCH_TYPE_CERTIFICATE then handle_certificate_request r payload
        else []
    | None => []
    end
  else [].

(** ** Streams *)

(** [(len as u32).to_be_bytes()] in front of the data. *)
Definition write_frame (data : bytes) : bytes := rev (le_bytes 4 (N.of_nat (length data) mod 2 ^ 32)) ++ data.

Definition frame_length (stream : bytes) : option N :=
  if Nat.ltb (length stream) 4 then None else Some (from_le_bytes (rev (take 4 stream))).

(** Two calls of [read_exact]. *)
Definition read_frame (limit : N) (stream : bytes) : option bytes :=
  len ← frame_length stream;
  if limit <? len then None
  else let body := drop 4 stream in
    if Nat.ltb (length body) (N.to_nat len) then None else Some (take (N.to_nat len) body).

Definition handle_stream (r : InboundRouter) (stream : bytes) : option bytes :=
  compressed_request ← read_frame MAX_REQUEST_SIZE stream;
  request_data ← decompress compressed_request;
  Some (write_frame (compress (process_request r request_data))).

(** ** The requesting side (request_manager.rs) *)

Inductive Request :=
  | BlockRequest (height : BlockHeight)
  | TransactionsRequest (block_hash : Hash) (tx_hashes : list Hash)
  | CertificatesRequest (block_hash : Hash) (cert_hashes : list Hash).

Definition request_payload (request : Request) : bytes :=
  match request with
  | BlockRequest height => to_le_bytes height
  | TransactionsRequest block_hash tx_hashes => basic_encode (get_transactions_request_new block_hash tx_hashes)
  | CertificatesRequest block_hash cert_hashes => basic_encode (get_certificates_request_new block_hash cert_hashes)
  end.

(** The buffer of a read, 64 KB. *)
Definition CHUNK_SIZE : usize := N.to_nat 65536.

(** The loop that reads the body: [sizes] are the bytes that are available at
    each read, none left is a time-out. *)
Fixpoint read_body (sizes : list nat) (response_len : nat) (received stream : bytes) : option bytes :=
  if Nat.leb response_len (length received) then Some received
  else match sizes with
       | [] => None
       | size :: sizes =>
           let to_read := Nat.min (response_len - length received) CHUNK_SIZE in
           let n := Nat.min (Nat.min size to_read) (length stream) in
           if Nat.eqb n 0 then None
           else read_body sizes response_len (received ++ take n stream) (drop n stream)
       end.

(** [send_request_static]; the answering node is a function of the bytes it is
    sent, with [None] for a stream that breaks off. *)
Definition send_request (server : bytes -> option bytes) (sizes : list nat) (request : Request) : option bytes :=
  response ← server (write_frame (compress (request_payload request)));
  response_len ← frame_length response;
  if 10 * 1024 * 1024 <? response_len then None
  else compressed_response ← read_body sizes (N.to_nat response_len) [] (drop 4 response);
       decompress compressed_response.

(** The tasks of the fetch manager (fetch.rs). *)
Definition fetch_transactions (response : option bytes) (block_hash : Hash) (tx_hashes : list Hash) : FetchResult :=
  match response with
  | None => FetchFailedResult block_hash FetchTransaction tx_hashes
  | Some response_bytes =>
      match basic_decode response_bytes with
      | Some response => TransactionsReceived block_hash (tr_transactions response)
      | None => FetchFailedResult block_hash FetchTransaction tx_hashes
      end
  end.

Definition fetch_certificates (response : option bytes) (block_hash : Hash) (cert_hashes : list Hash) : FetchResult :=
  match response with
  | None => FetchFailedResult block_hash FetchCertificate cert_hashes
  | Some response_bytes =>
      match basic_decode response_bytes with
      | Some response => CertificatesReceived block_hash (cr_certificates response)
      | None => FetchFailedResult block_hash FetchCertificate cert_hashes
      end
  end.
End serving.
