(* ===== verification/ServingRuns.v ===== *)
(** * Requests are answered

    Frames, chunked reads and compression carry a request to the router of
    another node and its answer back.  What the sync manager asks for arrives
    as the block that was stored; what the fetch manager asks for arrives in
    full. *)

From stdpp Require Import base gmap list numbers countable.
From Stdlib Require Import NArith Lia.
From S2P Require Import Prelude Bitfield Types Encoding Topology Core Sbor Gossip Storage StorageChain SyncManager FetchManager FetchRuns Serving.

(** ** Streams *)

Lemma frame_length_write data : N.of_nat (length data) < 2 ^ 32 ->
  frame_length (write_frame data) = Some (N.of_nat (length data)) /\ drop 4 (write_frame data) = data.
Proof.
  intros Hl. unfold frame_length, write_frame. rewrite N.mod_small by done.
  assert (Hr : length (rev (le_bytes 4 (N.of_nat (length data)))) = 4%nat) by (by rewrite length_rev).
  rewrite length_app, Hr. split; [|by apply drop_app_length'].
  destruct (Nat.ltb_spec (4 + length data) 4); [lia|]. rewrite take_app_length' by done.
  by rewrite rev_involutive, from_le_bytes_le_bytes.
Qed.

Lemma read_frame_write limit data : N.of_nat (length data) < 2 ^ 32 -> N.of_nat (length data) <= limit ->
  read_frame limit (write_frame data) = Some data.
Proof.
  intros Hl Hlim. destruct (frame_length_write data Hl) as [Ef Ed]. unfold read_frame. rewrite Ef. cbn [mbind option_bind].
  destruct (N.ltb_spec limit (N.of_nat (length data))); [lia|]. rewrite Ed, Nat2N.id.
  destruct (Nat.ltb_spec (length data) (length data)); [lia|]. by rewrite firstn_all.
Qed.

(** Whatever the network delivers at each read, the body is the first bytes of
    the stream; it is complete when something arrives at every read. *)
Lemma read_body_exact sizes response_len received stream body :
  read_body sizes response_len received stream = Some body -> (length received <= response_len)%nat ->
  body = received ++ take (response_len - length received) stream.
Proof.
  revert received stream. induction sizes as [|size sizes IH]; intros received stream; cbn [read_body];
    destruct (Nat.leb_spec response_len (length received)) as [Hle|Hlt]; intros E Hr; try done.
  - injection E as <-. replace (response_len - length received)%nat with 0%nat by lia. by rewrite take_0, app_nil_r.
  - injection E as <-. replace (response_len - length received)%nat with 0%nat by lia. by rewrite take_0, app_nil_r.
  - revert E. set (n := Nat.min _ (length stream)). case_match; [done|]. intros E.
    assert (Hn : (n <= response_len - length received /\ n <= length stream)%nat) by (subst n; lia).
    apply IH in E; [|rewrite length_app, length_take; lia]. rewrite E, <- app_assoc. f_equal.
    rewrite length_app, length_take. replace (n `min` length stream)%nat with n by lia.
    rewrite <- (take_drop n stream) at 3. rewrite take_app, length_take. replace (n `min` length stream)%nat with n by lia.
    rewrite (take_ge (take n stream)) by (rewrite length_take; lia). do 2 f_equal. lia.
Qed.

Lemma read_body_complete sizes response_len received stream :
  Forall (fun size => 0 < size)%nat sizes -> (response_len - length received <= length sizes)%nat ->
  (response_len - length received <= length stream)%nat ->
  is_Some (read_body sizes response_len received stream).
Proof.
  revert received stream. induction sizes as [|size sizes IH]; intros received stream Hs Hl Hst; cbn [read_body];
    destruct (Nat.leb_spec response_len (length received)) as [Hle|Hlt]; [by eexists|cbn in Hl; lia|by eexists|].
  apply Forall_cons_1 in Hs as [Hsize Hs]. cbn [length] in Hl. set (n := Nat.min _ (length stream)).
  assert (HC : (0 < CHUNK_SIZE)%nat) by (unfold CHUNK_SIZE; lia).
  assert (Hn : (0 < n <= length stream)%nat) by (subst n; lia). destruct (Nat.eqb_spec n 0); [lia|].
  apply IH; [done|..]; rewrite ?length_app, ?length_take, ?length_drop; lia.
Qed.

Section requests.
Context `{Sbor} `{Lz4}.

(** The requests and answers that fit the limits of both sides. *)
Definition fits_limits (r : InboundRouter) (request : Request) : Prop :=
  N.of_nat (length (compress (request_payload request))) <= MAX_REQUEST_SIZE /\
  N.of_nat (length (compress (process_request r (request_payload request)))) <= MAX_REQUEST_SIZE.

(** Something arrives at every read, until all is there. *)
Definition reads_progress (r : InboundRouter) (request : Request) (sizes : list nat) : Prop :=
  Forall (fun size => 0 < size)%nat sizes /\
  (length (compress (process_request r (request_payload request))) <= length sizes)%nat.

Lemma request_answered r request sizes : fits_limits r request -> reads_progress r request sizes ->
  send_request (handle_stream r) sizes request = Some (process_request r (request_payload request)).
Proof.
  unfold fits_limits, reads_progress. set (payload := request_payload request).
  set (answer := process_request r payload). intros [H1 H2] [H3 H4]. unfold MAX_REQUEST_SIZE in *.
  unfold send_request, handle_stream. fold payload. rewrite read_frame_write by (unfold MAX_REQUEST_SIZE; lia).
  cbn [mbind option_bind]. unfold decompress at 1, compress at 2. rewrite lz4_roundtrip. cbn [mbind option_bind]. fold answer.
  destruct (frame_length_write (compress answer)) as [Ef Ed]; [lia|]. rewrite Ef, Ed. cbn [mbind option_bind].
  case_match eqn:E; [apply N.ltb_lt in E; lia|]. rewrite Nat2N.id.
  destruct (read_body_complete sizes (length (compress answer)) [] (compress answer)) as [body Hb]; [done|cbn; lia|cbn; lia|].
  rewrite Hb. cbn [mbind option_bind]. apply read_body_exact in Hb as ->; [|cbn; lia]. cbn [app length].
  rewrite Nat.sub_0_r, firstn_all. unfold decompress, compress. apply lz4_roundtrip.
Qed.

(** ** Blocks *)

Lemma block_request_answer r height : is_u64 height ->
  process_request r (to_le_bytes height) = basic_encode (get_block_for_sync (ir_storage r) height).
Proof.
  intros Hh. unfold process_request, handle_block_request. change (Nat.eqb (length (to_le_bytes height)) 8) with true. cbv iota.
  unfold to_le_bytes. by rewrite from_le_bytes_le_bytes.
Qed.

(** The certificate is one for the block, at its height. *)
Definition certifies `{Crypto} (b : Block) (q : QuorumCertificate) : Prop :=
  qc_block_hash q = block_hash b /\ qc_height q = bh_height (bl_header b).

Lemma certified_block_delivered `{Crypto} (b : Block) (q : QuorumCertificate) (bs : bytes) (s : SyncManager bytes) :
  certifies b q -> basic_decode bs = Some (Some (b, q)) ->
  handle_block_response basic_decode (bh_height (bl_header b)) bs s = (s, [DeliverBlock b q]).
Proof.
  intros [Hh Hn] E. unfold handle_block_response. rewrite E. unfold validate_sync_response, on_block_received, validate_block.
  by rewrite Hh, Hn, !N.eqb_refl.
Qed.

Lemma stored_after b q d ops : op_fits (StoreBlock b q) -> compatible b q (StoreBlock b q) ->
  Forall (fun op => op_fits op /\ compatible b q op) ops -> stored b q (foldl apply_op d (StoreBlock b q :: ops)).
Proof.
  intros Hfit Hself Hops. cbn [foldl]. assert (H0' : stored b q (apply_op d (StoreBlock b q))) by (by apply stored_now).
  revert H0'. generalize (apply_op d (StoreBlock b q)) as d0. clear d.
  induction Hops as [|op ops [Hop1 Hop2] _ IH]; intros d0 Hd; [done|]. cbn [foldl]. apply IH. by apply stored_kept.
Qed.

(** C32: A block that one node has stored reaches consensus of another.  The
    sync manager's request for its height, sent over a stream that keeps
    delivering, is answered by the router of the node from its storage, and
    the answer passes every check and is handed to consensus as exactly the
    stored block and certificate, whatever else that node stored before and
    after. *)
Theorem stored_block_syncs `{Crypto} (b : Block) (q : QuorumCertificate) (d : Db) (ops : list ChainOp) (r : InboundRouter)
    (sizes : list nat) (s : SyncManager bytes)
    (Hfit : op_fits (StoreBlock b q)) (Hself : compatible b q (StoreBlock b q))
    (Hops : Forall (fun op => op_fits op /\ compatible b q op) ops)
    (Hrouter : ir_storage r = foldl apply_op d (StoreBlock b q :: ops))
    (Hcert : certifies b q)
    (Hlimits : fits_limits r (BlockRequest (bh_height (bl_header b))))
    (Hreads : reads_progress r (BlockRequest (bh_height (bl_header b))) sizes) :
  exists response, send_request (handle_stream r) sizes (BlockRequest (bh_height (bl_header b))) = Some response /\
    handle_block_response basic_decode (bh_height (bl_header b)) response s = (s, [DeliverBlock b q]).
Proof.
  eexists. split; [by apply request_answered|]. cbn [request_payload].
  assert (Hh : is_u64 (bh_height (bl_header b))) by apply Hfit. rewrite block_request_answer by done.
  rewrite Hrouter, (stored_reconstruct b q) by (by apply stored_after).
  apply certified_block_delivered; [done|apply sbor_roundtrip].
Qed.

(** ** Transactions and certificates *)

Section items.
Context {A : Type} (key : A -> Hash).
Context (cache : gmap Hash A) (from_storage : Hash -> option A).

(** A node has the item of a hash, under that hash. *)
Definition has_item (h : Hash) : Prop :=
  exists x, key x = h /\ (cache !! h = Some x \/ (cache !! h = None /\ from_storage h = Some x)).

Lemma lookup_items_all hashes : (forall h, h ∈ hashes -> has_item h) ->
  key <$> lookup_items cache (omap from_storage) hashes ≡ₚ hashes.
Proof.
  intros Hall. unfold lookup_items. cbv zeta.
  replace (match filter (fun h => cache !! h = None) hashes with [] => [] | _ => _ end)
    with (omap from_storage (filter (fun h => cache !! h = None) hashes)) by (by case_match).
  induction hashes as [|h hashes IH]; [done|].
  specialize (IH (fun h' Hh' => Hall h' (list_elem_of_further _ _ _ Hh'))).
  destruct (Hall h (list_elem_of_here _ _)) as (x & Hx & [Hc|[Hc Hs]]).
  - rewrite filter_cons_False by (by rewrite Hc). cbn [omap list_omap]. rewrite Hc. cbn [app]. rewrite fmap_cons, Hx. by f_equiv.
  - rewrite filter_cons_True by done. cbn [omap list_omap]. rewrite Hc, Hs. rewrite fmap_app, fmap_cons, Hx.
    rewrite fmap_app in IH. rewrite <- Permutation_middle. by f_equiv.
Qed.
End items.

Lemma transactions_answer `{!SborLayout} r block_hash hashes :
  process_request r (request_payload (TransactionsRequest block_hash hashes)) =
  basic_encode (mk_transactions_response
    (lookup_items (ir_recently_received_txs r) (get_transactions_batch (ir_storage r))
       (take (ir_max_items_per_response r) hashes))).
Proof.
  unfold process_request. cbn [request_payload]. pose proof (transactions_size block_hash hashes).
  case_match eqn:E; [apply Nat.eqb_eq in E; lia|]. clear E. case_match eqn:E; [|apply Nat.ltb_ge in E; lia].
  rewrite transactions_tag. cbn. unfold handle_transaction_request. by rewrite sbor_roundtrip.
Qed.

Lemma certificates_answer `{!SborLayout} r block_hash hashes :
  process_request r (request_payload (CertificatesRequest block_hash hashes)) =
  basic_encode (mk_certificates_response
    (lookup_items (ir_recently_built_certs r) (get_certificates_batch (ir_storage r))
       (take (ir_max_items_per_response r) hashes))).
Proof.
  unfold process_request. cbn [request_payload]. pose proof (certificates_size block_hash hashes).
  case_match eqn:E; [apply Nat.eqb_eq in E; lia|]. clear E. case_match eqn:E; [|apply Nat.ltb_ge in E; lia].
  rewrite certificates_tag. cbn. unfold handle_certificate_request. by rewrite sbor_roundtrip.
Qed.

(** The task of a fetch, over the network to [r]. *)
Definition task_request (t : task) : Request :=
  match t with
  | (FetchTransaction, block_hash, hashes) => TransactionsRequest block_hash hashes
  | (FetchCertificate, block_hash, hashes) => CertificatesRequest block_hash hashes
  end.

Definition run_fetch_task (r : InboundRouter) (sizes : list nat) (t : task) : FetchResult :=
  let response := send_request (handle_stream r) sizes (task_request t) in
  match t with
  | (FetchTransaction, block_hash, hashes) => fetch_transactions response block_hash hashes
  | (FetchCertificate, block_hash, hashes) => fetch_certificates response block_hash hashes
  end.

Definition router_has (r : InboundRouter) (kind : FetchKind) (h : Hash) : Prop :=
  match kind with
  | FetchTransaction => has_item rt_hash (ir_recently_received_txs r) (get_transaction (ir_storage r)) h
  | FetchCertificate => has_item tc_transaction_hash (ir_recently_built_certs r) (get_certificate (ir_storage r)) h
  end.

End requests.

(** ** Samples *)

(** With the sample encoder and compression all messages are small. *)
Lemma sample_answer_small (r : InboundRouter) (payload : bytes) :
  (length (@compress sample_lz4 (@process_request layout_sbor r payload)) <= 10)%nat.
Proof.
  change (S (length (@process_request layout_sbor r payload)) <= 10)%nat. apply le_n_S.
  unfold process_request, handle_block_request, handle_transaction_request, handle_certificate_request.
  repeat case_match; cbn; lia.
Qed.

Lemma sample_fits (r : InboundRouter) (request : Request) : @fits_limits layout_sbor sample_lz4 r request.
Proof.
  split; [|pose proof (sample_answer_small r (@request_payload layout_sbor request)); unfold MAX_REQUEST_SIZE; lia].
  by destruct request.
Qed.

Lemma sample_progress (r : InboundRouter) (request : Request) :
  @reads_progress layout_sbor sample_lz4 r request (replicate 12 1%nat).
Proof.
  split; [repeat constructor|]. pose proof (sample_answer_small r (@request_payload layout_sbor request)). cbn [length replicate]. lia.
Qed.

Definition kept_qc `{Crypto} : QuorumCertificate :=
  mk_qc (block_hash kept_first) 1 0 0 SignerBitfieldOps.empty zero_bls_signature 3 0.

Definition serving_router `{Crypto} : InboundRouter :=
  mk_inbound_router DEFAULT_MAX_ITEMS
    (foldl (@apply_op layout_sbor) empty_db [StoreBlock kept_first kept_qc; StoreTransaction (kept_tx 9)])
    {[ 11 := kept_tx 11 ]} ∅.

Lemma stored_block_syncs_witness :
  exists response,
    @send_request layout_sbor sample_lz4 (@handle_stream layout_sbor sample_lz4 (@serving_router sample_crypto))
      (replicate 12 1%nat) (BlockRequest 1) = Some response /\
    @handle_block_response sample_crypto bytes (@basic_decode layout_sbor _ _ _) 1 response (sync_manager_new default_sync_config)
      = (sync_manager_new default_sync_config, [DeliverBlock kept_first (@kept_qc sample_crypto)]).
Proof.
  apply (@stored_block_syncs layout_sbor sample_lz4 sample_crypto kept_first (@kept_qc sample_crypto) empty_db
    [StoreTransaction (kept_tx 9)] (@serving_router sample_crypto) (replicate 12 1%nat) (sync_manager_new default_sync_config)).
  - repeat constructor; vm_compute; reflexivity.
  - split_and!; cbn; set_solver.
  - repeat constructor; first [vm_compute; reflexivity | cbn; set_solver].
  - reflexivity.
  - split; reflexivity.
  - apply sample_fits.
  - apply sample_progress.
Defined.

