(* ===== verification/Requests.v ===== *)
(** * The request manager (request_manager.rs and peer_health.rs of crates/production)

    Requests to other nodes with retries, rotation of peers and a limit on the
    requests at one time.  The moving averages of success and round-trip time
    are floating-point numbers that only weigh the random choice of a peer;
    the choice is an input, any candidate.  Delays are left out. *)

From stdpp Require Import base gmap list numbers.
From Stdlib Require Import NArith Lia.
From S2P Require Import Prelude Types SyncManager.

(** ** Peer health (peer_health.rs) *)

Record PeerHealth := mk_peer_health {
  ph_in_flight : N;
  ph_total_successes : u64;
  ph_total_failures : u64
}.

Definition peer_health_default : PeerHealth := mk_peer_health 0 0 0.

(** Subtraction on [N] saturates. *)
Definition health_success (h : PeerHealth) : PeerHealth :=
  mk_peer_health (ph_in_flight h - 1) (ph_total_successes h + 1) (ph_total_failures h).
Definition health_failure (h : PeerHealth) : PeerHealth :=
  mk_peer_health (ph_in_flight h - 1) (ph_total_successes h) (ph_total_failures h + 1).
Definition health_started (h : PeerHealth) : PeerHealth :=
  mk_peer_health (ph_in_flight h + 1) (ph_total_successes h) (ph_total_failures h).
Definition health_cancelled (h : PeerHealth) : PeerHealth :=
  mk_peer_health (ph_in_flight h - 1) (ph_total_successes h) (ph_total_failures h).

Abbreviation PeerHealthTracker := (gmap PeerId PeerHealth) (only parsing).

(** [entry(peer).or_default()]. *)
Definition with_entry (f : PeerHealth -> PeerHealth) (peer : PeerId) (t : PeerHealthTracker) : PeerHealthTracker :=
  <[peer := f (default peer_health_default (t !! peer))]> t.

Definition record_success : PeerId -> PeerHealthTracker -> PeerHealthTracker := with_entry health_success.
Definition record_failure : PeerId -> PeerHealthTracker -> PeerHealthTracker := with_entry health_failure.
Definition record_request_started : PeerId -> PeerHealthTracker -> PeerHealthTracker := with_entry health_started.
Definition record_request_cancelled (peer : PeerId) (t : PeerHealthTracker) : PeerHealthTracker :=
  alter health_cancelled peer t.

Definition peer_in_flight (t : PeerHealthTracker) (peer : PeerId) : N :=
  match t !! peer with Some h => ph_in_flight h | None => 0 end.

Definition can_send_to (max_in_flight_per_peer : N) (t : PeerHealthTracker) (peer : PeerId) : bool :=
  match t !! peer with Some h => ph_in_flight h <? max_in_flight_per_peer | None => true end.

(** The candidate that the weights and the random number choose. *)
Definition select_peer (choice : nat) (candidates : list PeerId) : option PeerId :=
  match candidates with
  | [] => None
  | _ => candidates !! (choice mod length candidates)%nat
  end.

Definition select_peer_excluding (choice : nat) (candidates : list PeerId) (exclude : PeerId) : option PeerId :=
  match filter (fun p => p <> exclude) candidates with
  | [] => if bool_decide (exclude ∈ candidates) then Some exclude else None
  | filtered => select_peer choice filtered
  end.

(** ** The manager *)

Record RequestManagerConfig := mk_request_config {
  rc_max_concurrent : usize;
  rc_max_per_peer : N;
  rc_retries_before_rotation : N;
  rc_max_total_attempts : N;
  rc_min_concurrent : usize
}.

Definition default_request_config : RequestManagerConfig := mk_request_config 64 8 3 15 4.

Record RequestManager := mk_request_manager {
  rm_config : RequestManagerConfig;
  rm_health : PeerHealthTracker;
  rm_in_flight : usize;
  rm_effective_concurrent : usize
}.

Definition request_manager_new (config : RequestManagerConfig) : RequestManager :=
  mk_request_manager config ∅ 0 (rc_max_concurrent config).

Definition with_health (f : PeerHealthTracker -> PeerHealthTracker) (m : RequestManager) : RequestManager :=
  mk_request_manager (rm_config m) (f (rm_health m)) (rm_in_flight m) (rm_effective_concurrent m).

(** One pass of the loop of [acquire_slot]. *)
Definition acquire_slot (m : RequestManager) : option RequestManager :=
  if Nat.ltb (rm_in_flight m) (rm_effective_concurrent m)
  then Some (mk_request_manager (rm_config m) (rm_health m) (S (rm_in_flight m)) (rm_effective_concurrent m))
  else None.

(** [fetch_sub] of the slot. *)
Definition release_slot (m : RequestManager) : RequestManager :=
  mk_request_manager (rm_config m) (rm_health m) (rm_in_flight m - 1) (rm_effective_concurrent m).

(** [good] says that the success rate is at its target.  The ratio of two
    small integers is compared as a fraction. *)
Definition maybe_increase_concurrency (good : bool) (m : RequestManager) : RequestManager :=
  let current := rm_effective_concurrent m in
  let max := rc_max_concurrent (rm_config m) in
  if Nat.leb max current then m
  else if good then
    let increment := if Nat.ltb (2 * current) max then 4%nat else if Nat.ltb (4 * current) (3 * max) then 2%nat else 1%nat in
    mk_request_manager (rm_config m) (rm_health m) (rm_in_flight m) (Nat.min (current + increment) max)
  else m.

Definition reduce_concurrency (m : RequestManager) : RequestManager :=
  let current := rm_effective_concurrent m in
  let new := Nat.max (current / 2) (rc_min_concurrent (rm_config m)) in
  if Nat.ltb new current then mk_request_manager (rm_config m) (rm_health m) (rm_in_flight m) new else m.

Inductive RequestError := Exhausted (attempts : N) | NoPeers | RequestShutdown.

Definition RequestResult : Type := (PeerId * bytes) + RequestError.

(** The outcome of [send_request_with_speculative_retry]. *)
Inductive NetworkFailure := TimedOut | NetworkStopped | OtherFailure.

Definition Outcome : Type := bytes + NetworkFailure.

(** The variables of the loop of [request_inner]. *)
Record Attempt := mk_attempt {
  at_current_peer : PeerId;
  at_attempts : N;
  at_current_peer_attempts : N
}.

(** The peer of the first attempt, which is then started. *)
Definition request_inner_start (choice : nat) (peers : list PeerId) (preferred_peer : option PeerId) (m : RequestManager)
    : (Attempt + RequestError) * RequestManager :=
  let peer := match preferred_peer with
              | Some peer => if bool_decide (peer ∈ peers) then Some peer else select_peer choice peers
              | None => select_peer choice peers
              end in
  match peer with
  | None => (inr NoPeers, m)
  | Some peer => (inl (mk_attempt peer 0 0), with_health (record_request_started peer) m)
  end.

Definition rotate (choice : nat) (peers : list PeerId) (current_peer : PeerId) : PeerId :=
  default current_peer (select_peer_excluding choice peers current_peer).

(** The rest of a pass of the loop: what the outcome does, the check for the
    last attempt, and the start of the next one. *)
Definition next_attempt (a : Attempt) (m : RequestManager) : (Attempt + RequestResult) * RequestManager :=
  if rc_max_total_attempts (rm_config m) <=? at_attempts a then (inr (inr (Exhausted (at_attempts a))), m)
  else (inl a, with_health (record_request_started (at_current_peer a)) m).

Definition request_inner_step (choice : nat) (good : bool) (peers : list PeerId) (outcome : Outcome) (a : Attempt)
    (m : RequestManager) : (Attempt + RequestResult) * RequestManager :=
  let current_peer := at_current_peer a in
  match outcome with
  | inl response =>
      let m := with_health (record_success current_peer) m in
      (inr (inl (current_peer, response)), maybe_increase_concurrency good m)
  | inr TimedOut =>
      let current_peer_attempts := at_current_peer_attempts a + 1 in
      let attempts := at_attempts a + 1 in
      let m := with_health (record_failure current_peer) m in
      next_attempt
        (if rc_retries_before_rotation (rm_config m) <=? current_peer_attempts
         then mk_attempt (rotate choice peers current_peer) attempts 0
         else mk_attempt current_peer attempts current_peer_attempts) m
  | inr NetworkStopped => (inr (inr RequestShutdown), with_health (record_request_cancelled current_peer) m)
  | inr OtherFailure =>
      let m := with_health (record_failure current_peer) m in
      next_attempt (mk_attempt (rotate choice peers current_peer) (at_attempts a + 1) 0) m
  end.

(** ** Racing requests

    [send_request_with_speculative_retry]: the results of the first and, when
    it is slow, of a second request, in the order in which they arrive. *)
Inductive Racer := First | Second.

Fixpoint race (first_done second_done : bool) (arrivals : list (Racer * Outcome)) : option Outcome :=
  match arrivals with
  | [] => None
  | (racer, result) :: arrivals =>
      let done_already := match racer with First => first_done | Second => second_done end in
      if done_already then race first_done second_done arrivals
      else match result with
      | inl response => Some (inl response)
      | inr error =>
          let first_done := match racer with First => true | Second => first_done end in
          let second_done := match racer with First => second_done | Second => true end in
          if first_done && second_done then Some (inr error) else race first_done second_done arrivals
      end
  end.

(** ** Requests in parallel *)

(** A request that waits for a slot, makes its attempts, or has ended. *)
Inductive RequestTask :=
  | Queued (peers : list PeerId) (preferred_peer : option PeerId)
  | Trying (peers : list PeerId) (a : Attempt)
  | Ended (peers : list PeerId) (result : RequestResult).

Record RequestWorld := mk_request_world { rw_manager : RequestManager; rw_tasks : list RequestTask }.

(** The first check of [request]. *)
Definition request (peers : list PeerId) (preferred_peer : option PeerId) : RequestTask :=
  match peers with [] => Ended [] (inr NoPeers) | _ => Queued peers preferred_peer end.

Definition task_started (choice : nat) (peers : list PeerId) (preferred_peer : option PeerId) (m : RequestManager)
    : RequestTask * RequestManager :=
  match request_inner_start choice peers preferred_peer m with
  | (inl a, m) => (Trying peers a, m)
  | (inr e, m) => (Ended peers (inr e), release_slot m)
  end.

Definition task_stepped (choice : nat) (good : bool) (peers : list PeerId) (outcome : Outcome) (a : Attempt)
    (m : RequestManager) : RequestTask * RequestManager :=
  match request_inner_step choice good peers outcome a m with
  | (inl a, m) => (Trying peers a, m)
  | (inr r, m) => (Ended peers r, release_slot m)
  end.

(** The requests of the node take their steps in any order. *)
Inductive request_step : RequestWorld -> RequestWorld -> Prop :=
  | rs_request m tasks peers preferred_peer :
      request_step (mk_request_world m tasks) (mk_request_world m (tasks ++ [request peers preferred_peer]))
  | rs_acquire m m1 m2 before after_ peers preferred_peer choice task :
      acquire_slot m = Some m1 -> task_started choice peers preferred_peer m1 = (task, m2) ->
      request_step (mk_request_world m (before ++ Queued peers preferred_peer :: after_))
                   (mk_request_world m2 (before ++ task :: after_))
  | rs_no_slot m before after_ peers preferred_peer :
      request_step (mk_request_world m (before ++ Queued peers preferred_peer :: after_))
                   (mk_request_world m (before ++ Ended peers (inr (Exhausted 0)) :: after_))
  | rs_outcome m m1 before after_ peers a choice good outcome task :
      task_stepped choice good peers outcome a m = (task, m1) ->
      request_step (mk_request_world m (before ++ Trying peers a :: after_))
                   (mk_request_world m1 (before ++ task :: after_)).

Inductive request_reach (config : RequestManagerConfig) : RequestWorld -> Prop :=
  | rr_new : request_reach config (mk_request_world (request_manager_new config) [])
  | rr_step w w' : request_reach config w -> request_step w w' -> request_reach config w'.
