(* ===== verification/RequestRuns.v ===== *)
(** * Runs of the request manager

    Slots and requests in flight are accounted for whatever the interleaving
    of the requests, a request ends after a bounded number of attempts, and
    its answer is one of the peers' it was made for. *)

From stdpp Require Import base gmap list numbers.
From Stdlib Require Import NArith Lia.
From S2P Require Import Prelude Types SyncManager Requests.

(** ** Choices *)

Lemma select_peer_in choice l p : select_peer choice l = Some p -> p ∈ l.
Proof. unfold select_peer. destruct l; [done|]. apply list_elem_of_lookup_2. Qed.

Lemma select_peer_some choice l : l <> [] -> is_Some (select_peer choice l).
Proof.
  intros Hl. unfold select_peer. destruct l as [|p l]; [done|]. apply lookup_lt_is_Some_2. apply Nat.mod_upper_bound. done.
Qed.

Lemma rotate_in choice peers p : p ∈ peers -> rotate choice peers p ∈ peers.
Proof.
  intros Hp. unfold rotate, select_peer_excluding. destruct (filter _ peers) as [|q l] eqn:E; [by case_bool_decide|].
  destruct (select_peer choice (q :: l)) as [r|] eqn:Er; [|done]. cbn. apply select_peer_in in Er. rewrite <- E in Er.
  by apply list_elem_of_filter in Er as [_ ?].
Qed.

(** With another candidate, rotation leaves the peer. *)
Lemma rotate_leaves choice peers p q : q ∈ peers -> q <> p -> rotate choice peers p <> p.
Proof.
  intros Hq Hne. unfold rotate, select_peer_excluding.
  assert (Hin : q ∈ filter (fun x => x <> p) peers) by (by apply list_elem_of_filter).
  destruct (filter _ peers) as [|x l] eqn:E; [by apply elem_of_nil in Hin|].
  destruct (select_peer_some choice (x :: l)) as [r Hr]; [done|]. rewrite Hr. cbn. apply select_peer_in in Hr.
  rewrite <- E in Hr. by apply list_elem_of_filter in Hr as [? _].
Qed.

(** ** Accounting *)

Definition is_trying (t : RequestTask) : Prop := match t with Trying _ _ => True | _ => False end.
Definition trying_at (p : PeerId) (t : RequestTask) : Prop :=
  match t with Trying _ a => at_current_peer a = p | _ => False end.

#[export] Instance is_trying_dec t : Decision (is_trying t).
Proof. unfold is_trying. destruct t; apply _. Defined.
#[export] Instance trying_at_dec p t : Decision (trying_at p t).
Proof. unfold trying_at. destruct t; apply _. Defined.

Definition count (P : RequestTask -> Prop) `{!forall t, Decision (P t)} (tasks : list RequestTask) : nat :=
  length (filter P tasks).

Arguments count : simpl never.

Section count.
Context (P : RequestTask -> Prop) `{!forall t, Decision (P t)}.

Definition one (t : RequestTask) : nat := if decide (P t) then 1 else 0.

Lemma count_middle before t after_ : count P (before ++ t :: after_) = (one t + count P (before ++ after_))%nat.
Proof. unfold count, one. rewrite !list.filter_app, filter_cons, !length_app. case_decide; cbn [length]; lia. Qed.

Lemma count_snoc tasks t : count P (tasks ++ [t]) = (one t + count P tasks)%nat.
Proof. rewrite count_middle, app_nil_r. done. Qed.
End count.

(** Every request makes at least one attempt. *)
Definition attempt_limit (config : RequestManagerConfig) : N := N.max 1 (rc_max_total_attempts config).

Definition attempt_ok (config : RequestManagerConfig) (peers : list PeerId) (a : Attempt) : Prop :=
  at_current_peer a ∈ peers /\ at_attempts a < attempt_limit config /\
  at_current_peer_attempts a <= at_attempts a /\
  (at_current_peer_attempts a = 0 \/ at_current_peer_attempts a < rc_retries_before_rotation config).

Definition result_ok (config : RequestManagerConfig) (peers : list PeerId) (r : RequestResult) : Prop :=
  match r with
  | inl (p, _) => p ∈ peers
  | inr (Exhausted n) => n = 0 \/ n = attempt_limit config
  | inr NoPeers => peers = []
  | inr RequestShutdown => True
  end.

Definition task_ok (config : RequestManagerConfig) (t : RequestTask) : Prop :=
  match t with
  | Queued peers _ => peers <> []
  | Trying peers a => attempt_ok config peers a
  | Ended peers r => result_ok config peers r
  end.

Record requests_ok (config : RequestManagerConfig) (w : RequestWorld) : Prop := {
  ro_config : rm_config (rw_manager w) = config;
  ro_slots : rm_in_flight (rw_manager w) = count is_trying (rw_tasks w);
  ro_slot_limit : (rm_in_flight (rw_manager w) <= rm_effective_concurrent (rw_manager w))%nat;
  ro_limit : (rm_effective_concurrent (rw_manager w) <= rc_max_concurrent config)%nat;
  ro_peers p : peer_in_flight (rm_health (rw_manager w)) p = N.of_nat (count (trying_at p) (rw_tasks w));
  ro_tasks : Forall (task_ok config) (rw_tasks w)
}.

Lemma in_flight_with_entry f p q t :
  peer_in_flight (with_entry f p t) q =
  if decide (p = q) then ph_in_flight (f (default peer_health_default (t !! p))) else peer_in_flight t q.
Proof.
  unfold peer_in_flight, with_entry. case_decide as E; [subst; by rewrite lookup_insert_eq|by rewrite lookup_insert_ne].
Qed.

Lemma in_flight_default t p : ph_in_flight (default peer_health_default (t !! p)) = peer_in_flight t p.
Proof. unfold peer_in_flight. by destruct (t !! p). Qed.

Lemma in_flight_started p q t :
  peer_in_flight (record_request_started p t) q = peer_in_flight t q + (if decide (p = q) then 1 else 0).
Proof.
  unfold record_request_started. rewrite in_flight_with_entry. case_decide as E; [|lia]. cbn. by rewrite in_flight_default, E.
Qed.

Lemma in_flight_failed p q t :
  peer_in_flight (record_failure p t) q = peer_in_flight t q - (if decide (p = q) then 1 else 0).
Proof.
  unfold record_failure. rewrite in_flight_with_entry. case_decide as E; [|lia]. cbn. by rewrite in_flight_default, E.
Qed.

Lemma in_flight_succeeded p q t :
  peer_in_flight (record_success p t) q = peer_in_flight t q - (if decide (p = q) then 1 else 0).
Proof.
  unfold record_success. rewrite in_flight_with_entry. case_decide as E; [|lia]. cbn. by rewrite in_flight_default, E.
Qed.

Lemma in_flight_cancelled p q t :
  peer_in_flight (record_request_cancelled p t) q = peer_in_flight t q - (if decide (p = q) then 1 else 0).
Proof.
  unfold record_request_cancelled, peer_in_flight. case_decide as E.
  - subst. rewrite lookup_alter_eq. destruct (t !! q); [done|]. cbn. done.
  - rewrite lookup_alter_ne by done. by rewrite N.sub_0_r.
Qed.

Lemma increase_bounds good m :
  let m' := maybe_increase_concurrency good m in
  rm_config m' = rm_config m /\ rm_health m' = rm_health m /\ rm_in_flight m' = rm_in_flight m /\
  (rm_effective_concurrent m <= rm_effective_concurrent m')%nat /\
  ((rm_effective_concurrent m <= rc_max_concurrent (rm_config m))%nat ->
   (rm_effective_concurrent m' <= rc_max_concurrent (rm_config m))%nat).
Proof.
  cbv zeta. unfold maybe_increase_concurrency. cbv zeta. destruct (Nat.leb_spec (rc_max_concurrent (rm_config m)) (rm_effective_concurrent m)).
  - by split_and!.
  - destruct good; cbn; split_and!; (done || lia).
Qed.

(** ** Steps *)

Definition at_peer (p q : PeerId) : N := if decide (p = q) then 1 else 0.

(** What a step of one request does to the manager's accounts, when its task
    was worth [slots] slots and one request in flight to each [q] with
    [old q]. *)
Definition accounts (config : RequestManagerConfig) (m m' : RequestManager) (t : RequestTask) (slots : nat) (old : PeerId -> N) : Prop :=
  rm_config m' = config /\ task_ok config t /\
  (rm_in_flight m' + slots = rm_in_flight m + one is_trying t)%nat /\
  (forall q, peer_in_flight (rm_health m') q + old q = peer_in_flight (rm_health m) q + N.of_nat (one (trying_at q) t)) /\
  (rm_effective_concurrent m <= rm_effective_concurrent m')%nat /\
  ((rm_effective_concurrent m <= rc_max_concurrent config)%nat -> (rm_effective_concurrent m' <= rc_max_concurrent config)%nat).

Lemma one_trying peers a : one is_trying (Trying peers a) = 1%nat.
Proof. done. Qed.

Lemma one_trying_at q peers a : N.of_nat (one (trying_at q) (Trying peers a)) = at_peer (at_current_peer a) q.
Proof. unfold one, at_peer. cbn [trying_at]. by destruct (decide (at_current_peer a = q)). Qed.

Lemma one_ended peers r : one is_trying (Ended peers r) = 0%nat.
Proof. done. Qed.

Lemma one_ended_at q peers r : one (trying_at q) (Ended peers r) = 0%nat.
Proof. done. Qed.

Lemma one_queued peers preferred : one is_trying (Queued peers preferred) = 0%nat.
Proof. done. Qed.

Lemma one_queued_at q peers preferred : one (trying_at q) (Queued peers preferred) = 0%nat.
Proof. done. Qed.

Lemma start_accounts config choice peers preferred m t m' :
  rm_config m = config -> peers <> [] -> task_started choice peers preferred m = (t, m') ->
  accounts config m m' t 1 (fun _ => 0) /\ is_trying t.
Proof.
  intros Hc Hne E. unfold task_started, request_inner_start in E.
  set (peer := match preferred with Some _ => _ | None => _ end) in E.
  assert (Hp : exists p, peer = Some p /\ p ∈ peers).
  { destruct (select_peer_some choice peers Hne) as [p Hp]. pose proof (select_peer_in _ _ _ Hp) as Hin.
    subst peer. destruct preferred as [q|]; [case_bool_decide|]; eauto. }
  destruct Hp as (p & -> & Hin). injection E as <- <-. split; [|done].
  unfold accounts. rewrite one_trying. cbn [with_health rm_config rm_in_flight rm_health rm_effective_concurrent].
  split_and!; [done| |lia| |lia|done].
  - split_and!; cbn; [done|unfold attempt_limit; lia|lia|by left].
  - intros q. rewrite one_trying_at, in_flight_started. cbn [at_current_peer]. unfold at_peer. lia.
Qed.

Lemma next_attempt_accounts config peers a old_peer m t m' :
  rm_config m = config -> at_current_peer a ∈ peers -> 1 <= at_attempts a <= attempt_limit config ->
  at_current_peer_attempts a <= at_attempts a ->
  (at_current_peer_attempts a = 0 \/ at_current_peer_attempts a < rc_retries_before_rotation config) ->
  (1 <= rm_in_flight m)%nat -> 1 <= peer_in_flight (rm_health m) old_peer ->
  (match next_attempt a (with_health (record_failure old_peer) m) with
   | (inl a, m) => (Trying peers a, m)
   | (inr r, m) => (Ended peers r, release_slot m)
   end) = (t, m') -> accounts config m m' t 1 (at_peer old_peer).
Proof.
  intros Hc Hin Hatt Hle Hrot Hm Hold. unfold next_attempt. cbn [with_health rm_config]. rewrite Hc.
  assert (Hsub : forall q, peer_in_flight (record_failure old_peer (rm_health m)) q + at_peer old_peer q = peer_in_flight (rm_health m) q).
  { intros q. rewrite in_flight_failed. unfold at_peer. case_decide as E; [subst; lia|lia]. }
  destruct (N.leb_spec (rc_max_total_attempts config) (at_attempts a)) as [Hmax|Hmax]; intros [= <- <-]; unfold accounts;
    cbn [with_health release_slot rm_config rm_in_flight rm_health rm_effective_concurrent].
  - rewrite one_ended. split_and!; [done| |lia| |lia|done].
    + right. unfold attempt_limit in *. lia.
    + intros q. rewrite Hsub, one_ended_at. lia.
  - rewrite one_trying. split_and!; [done| |lia| |lia|done].
    + split_and!; [done|unfold attempt_limit; lia|done|done].
    + intros q. rewrite in_flight_started, one_trying_at. specialize (Hsub q). unfold at_peer in *. lia.
Qed.

Lemma step_accounts config choice good peers outcome a m t m' :
  rm_config m = config -> attempt_ok config peers a -> (1 <= rm_in_flight m)%nat ->
  1 <= peer_in_flight (rm_health m) (at_current_peer a) ->
  task_stepped choice good peers outcome a m = (t, m') -> accounts config m m' t 1 (at_peer (at_current_peer a)).
Proof.
  intros Hc (Hin & Hatt & Hle & Hrot) Hm Hold E. unfold task_stepped, request_inner_step in E. cbv zeta in E.
  destruct outcome as [response|[| |]].
  - injection E as <- <-. destruct (increase_bounds good (with_health (record_success (at_current_peer a)) m)) as (I1 & I2 & I3 & I4 & I5).
    unfold accounts. cbn [release_slot rm_config rm_in_flight rm_health rm_effective_concurrent].
    rewrite I1, I2, I3, one_ended. cbn [with_health rm_config rm_in_flight rm_health rm_effective_concurrent] in *. rewrite Hc in *.
    split_and!; [done|done|lia| |done|done].
    intros q. rewrite in_flight_succeeded, one_ended_at. unfold at_peer. case_decide as E; [subst; lia|lia].
  - eapply next_attempt_accounts; [done|..|exact E]; cbn [with_health rm_config]; rewrite ?Hc; try done;
      destruct (N.leb_spec (rc_retries_before_rotation config) (at_current_peer_attempts a + 1)); cbn; try lia; try done.
    + by apply rotate_in.
  - injection E as <- <-. unfold accounts. cbn [with_health release_slot rm_config rm_in_flight rm_health rm_effective_concurrent].
    rewrite one_ended. split_and!; [done|done|lia| |lia|done].
    intros q. rewrite in_flight_cancelled, one_ended_at. unfold at_peer. case_decide as E; [subst; lia|lia].
  - eapply next_attempt_accounts; [done|..|exact E]; cbn; try lia; try done; by apply rotate_in.
Qed.

(** ** Reachable states *)

Lemma Forall_middle {A} (P : A -> Prop) before x after_ :
  Forall P (before ++ x :: after_) <-> P x /\ Forall P (before ++ after_).
Proof. rewrite !list.Forall_app, list.Forall_cons. tauto. Qed.

(** A task is replaced by another, with the accounts of both. *)
Lemma replaced_ok config m m' before after_ t t' :
  requests_ok config (mk_request_world m (before ++ t :: after_)) ->
  accounts config m m' t' (one is_trying t) (fun q => N.of_nat (one (trying_at q) t)) ->
  (rm_in_flight m' <= rm_effective_concurrent m')%nat ->
  requests_ok config (mk_request_world m' (before ++ t' :: after_)).
Proof.
  intros [O1 O2 O3 O4 O5 O6] (A1 & A2 & A3 & A4 & A5 & A6) Hlim. cbn in *. apply Forall_middle in O6 as [_ O6].
  rewrite count_middle in O2. split; cbn; [done|rewrite count_middle; lia|done|auto| |by apply Forall_middle].
  intros p. specialize (A4 p). specialize (O5 p). rewrite count_middle in *. lia.
Qed.

Lemma request_step_ok config w w' : requests_ok config w -> request_step w w' -> requests_ok config w'.
Proof.
  intros Hok Hstep. destruct Hstep as [m tasks peers preferred | m m1 m2 before after_ peers preferred choice task Ha Ht
    | m before after_ peers preferred | m m1 before after_ peers a choice good outcome task Ht].
  - destruct Hok as [O1 O2 O3 O4 O5 O6]. cbn in *.
    assert (Hr : one is_trying (request peers preferred) = 0%nat /\ (forall p, one (trying_at p) (request peers preferred) = 0%nat)
                 /\ task_ok config (request peers preferred)) by (by destruct peers).
    destruct Hr as (R1 & R2 & R3). split; cbn; [done|by rewrite count_snoc, R1|done|done| |].
    + intros p. by rewrite count_snoc, R2.
    + apply Forall_app. split; [done|by constructor].
  - pose proof Hok as [O1 O2 O3 O4 O5 O6]. cbn in *. apply Forall_middle in O6 as [Hne _]. cbn in Hne.
    unfold acquire_slot in Ha. destruct (Nat.ltb_spec (rm_in_flight m) (rm_effective_concurrent m)) as [Hlt|]; [|done].
    injection Ha as <-.
    apply (start_accounts config) in Ht as [(A1 & A2 & A3 & A4 & A5 & A6) Htry]; [|done|done]. cbn in *.
    assert (Hone : one is_trying task = 1%nat) by (unfold one; by rewrite decide_True).
    apply (replaced_ok _ m _ _ _ (Queued peers preferred)); [done| |lia].
    unfold accounts. rewrite one_queued. split_and!; [done|done|lia| |lia|done]. intros q. specialize (A4 q). rewrite one_queued_at. lia.
  - apply (replaced_ok _ m _ _ _ (Queued peers preferred)); [done| |by apply Hok].
    destruct Hok as [O1 _ _ O4 _ _]. cbn in *. unfold accounts. rewrite one_ended. split_and!; [done|by left|done| |lia|done].
    intros q. by rewrite one_ended_at.
  - pose proof Hok as [O1 O2 O3 O4 O5 O6]. cbn in *. apply Forall_middle in O6 as [Ha _]. cbn in Ha.
    assert (Hm : (1 <= rm_in_flight m)%nat) by (rewrite O2, count_middle, one_trying; lia).
    assert (Hp : 1 <= peer_in_flight (rm_health m) (at_current_peer a)).
    { rewrite O5, count_middle, Nat2N.inj_add, one_trying_at. unfold at_peer. rewrite decide_True by done. lia. }
    pose proof (step_accounts config choice good peers outcome a m task m1 O1 Ha Hm Hp Ht) as Hacc.
    apply (replaced_ok _ m _ _ _ (Trying peers a)); [done| |].
    + rewrite one_trying. destruct Hacc as (A1 & A2 & A3 & A4 & A5 & A6). unfold accounts. split_and!; try done.
      intros q. by rewrite one_trying_at.
    + destruct Hacc as (_ & _ & A3 & _ & A5 & _). unfold one in A3. case_decide; lia.
Qed.

Lemma reach_ok config w : request_reach config w -> requests_ok config w.
Proof.
  induction 1 as [|w w' _ IH Hs]; [|by eapply request_step_ok]. split; cbn; [done|done|lia|done| |constructor].
  intros p. unfold peer_in_flight. by rewrite lookup_empty.
Qed.

(** C34: In every state that the requests of a node reach together, in whatever
    order they take their steps and whatever the network answers: the slots in
    use are the requests that are being tried and never exceed the limit; the
    requests counted as in flight to a peer are those whose current attempt is
    with that peer; every attempt is with a peer the request was made for, and
    no peer is tried more often in a row than the configuration says; a
    request that ended was answered by one of its peers, was stopped with the
    network, got no slot, or used up exactly its attempts. *)
Theorem requests_accounted (config : RequestManagerConfig) (w : RequestWorld) (Hreach : request_reach config w) :
  rm_in_flight (rw_manager w) = count is_trying (rw_tasks w) /\
  (rm_in_flight (rw_manager w) <= rc_max_concurrent config)%nat /\
  (forall p, peer_in_flight (rm_health (rw_manager w)) p = N.of_nat (count (trying_at p) (rw_tasks w))) /\
  Forall (task_ok config) (rw_tasks w).
Proof. apply reach_ok in Hreach as [O1 O2 O3 O4 O5 O6]. split_and!; [done|lia|done|done]. Qed.

(** ** A request ends *)

(** The attempts of one request, with what the network does at each. *)
Fixpoint run_attempts (peers : list PeerId) (moves : list (nat * bool * Outcome)) (a : Attempt) (m : RequestManager)
    : option (RequestResult * RequestManager) :=
  match moves with
  | [] => None
  | (choice, good, outcome) :: moves =>
      match request_inner_step choice good peers outcome a m with
      | (inl a, m) => run_attempts peers moves a m
      | (inr r, m) => Some (r, m)
      end
  end.

Lemma inner_step_progress choice good peers outcome a m a' m' :
  request_inner_step choice good peers outcome a m = (inl a', m') ->
  at_attempts a' = at_attempts a + 1 /\ at_attempts a' < rc_max_total_attempts (rm_config m) /\ rm_config m' = rm_config m.
Proof.
  unfold request_inner_step, next_attempt. cbv zeta. cbn [with_health rm_config].
  destruct outcome as [response|[| |]]; [done| |done|].
  - destruct (N.leb_spec (rc_retries_before_rotation (rm_config m)) (at_current_peer_attempts a + 1)); cbn [at_attempts];
      destruct (N.leb_spec (rc_max_total_attempts (rm_config m)) (at_attempts a + 1)); intros [= <- <-]; done.
  - cbn [at_attempts]. destruct (N.leb_spec (rc_max_total_attempts (rm_config m)) (at_attempts a + 1)); intros [= <- <-]; done.
Qed.

Lemma run_attempts_ends peers moves a m :
  rc_max_total_attempts (rm_config m) <= at_attempts a + N.of_nat (length moves) -> moves <> [] ->
  is_Some (run_attempts peers moves a m).
Proof.
  revert a m. induction moves as [|[[choice good] outcome] moves IH]; intros a m Hl Hne; [done|]. cbn [run_attempts].
  destruct (request_inner_step choice good peers outcome a m) as [[a'|r] m'] eqn:E; [|by eexists].
  apply inner_step_progress in E as (H1 & H2 & H3). cbn [length] in Hl.
  destruct moves as [|mv moves]; [cbn in Hl; lia|]. apply IH; [|done]. rewrite H3, H1. lia.
Qed.

(** A request ends: whatever the network does and whichever peers are
    chosen, after as many attempts as the configuration allows (one if it
    allows none) the loop has returned. *)
Theorem request_ends (peers : list PeerId) (preferred : option PeerId) (choice : nat) (m m1 : RequestManager) (a : Attempt)
    (moves : list (nat * bool * Outcome))
    (Hstart : request_inner_start choice peers preferred m = (inl a, m1))
    (Hmoves : attempt_limit (rm_config m) <= N.of_nat (length moves)) :
  is_Some (run_attempts peers moves a m1).
Proof.
  unfold request_inner_start in Hstart. case_match; [|done]. injection Hstart as <- <-. unfold attempt_limit in Hmoves.
  apply run_attempts_ends; [cbn; lia|]. intros ->. cbn in Hmoves. lia.
Qed.

(** ** The race *)

(** The race is won by the first answer, and lost, with the later error, only
    when both requests have failed. *)
Lemma race_spec r (x y : Outcome) :
  race false false [(r, x); (match r with First => Second | Second => First end, y)] =
  Some (match x, y with inl a, _ => inl a | inr _, inl b => inl b | inr _, inr e => inr e end).
Proof. by destruct r, x, y. Qed.

(** Whatever arrives, an answer of the race is an answer that arrived. *)
Lemma race_answer f s arrivals response :
  race f s arrivals = Some (inl response) -> exists r, (r, inl response) ∈ arrivals.
Proof.
  revert f s. induction arrivals as [|[r [x|e]] arrivals IH]; intros f s E; [done|..]; cbn [race] in E.
  - case_match; [apply IH in E as [r' Hr]; exists r'; by right|]. injection E as ->. exists r. by left.
  - repeat case_match; try done; apply IH in E as [r' Hr]; exists r'; by right.
Qed.

(** ** Samples *)

Definition narrow_request_config : RequestManagerConfig := mk_request_config 1 8 2 3 1.

(** One request is being tried with its second peer after two time-outs of the
    first, another waits for the only slot. *)
Definition rotated : RequestWorld :=
  let m1 := mk_request_manager narrow_request_config ∅ 1 1 in
  let s1 := task_started 0 [1; 2] (Some 2) m1 in
  let s2 := task_stepped 0 true [1; 2] (inr TimedOut) (mk_attempt 2 0 0) s1.2 in
  let s3 := task_stepped 0 true [1; 2] (inr TimedOut) (mk_attempt 2 1 1) s2.2 in
  mk_request_world s3.2 [Trying [1; 2] (mk_attempt 1 2 0); Queued [3] None].

Lemma rotated_reached : request_reach narrow_request_config rotated.
Proof.
  eapply rr_step; [eapply rr_step; [eapply rr_step; [eapply rr_step; [eapply rr_step; [apply rr_new|]|]|]|]|].
  - apply (rs_request _ [] [1; 2] (Some 2)).
  - apply (rs_request _ [Queued [1; 2] (Some 2)] [3] None).
  - eapply (rs_acquire _ _ _ [] [Queued [3] None] _ _ 0); reflexivity.
  - eapply (rs_outcome _ _ [] [Queued [3] None] _ _ 0 true (inr TimedOut)). reflexivity.
  - eapply (rs_outcome _ _ [] [Queued [3] None] _ _ 0 true (inr TimedOut)). reflexivity.
Qed.

Lemma requests_accounted_witness :
  request_reach narrow_request_config rotated /\
  rm_in_flight (rw_manager rotated) = count is_trying (rw_tasks rotated) /\
  (rm_in_flight (rw_manager rotated) <= 1)%nat /\
  (forall p, peer_in_flight (rm_health (rw_manager rotated)) p = N.of_nat (count (trying_at p) (rw_tasks rotated))) /\
  Forall (task_ok narrow_request_config) (rw_tasks rotated).
Proof. split; [exact rotated_reached|]. apply (requests_accounted narrow_request_config rotated rotated_reached). Defined.

Lemma request_ends_witness :
  let m := request_manager_new narrow_request_config in
  let moves := [(0%nat, true, inr TimedOut); (0%nat, true, inr OtherFailure); (1%nat, false, inr TimedOut)] in
  attempt_limit narrow_request_config = 3 /\
  is_Some (run_attempts [1; 2] moves (mk_attempt 2 0 0) (with_health (record_request_started 2) m)).
Proof.
  cbv zeta. split; [reflexivity|].
  apply (request_ends [1; 2] (Some 2) 0 (request_manager_new narrow_request_config)); [reflexivity|vm_compute; discriminate].
Defined.
