(* ===== verification/Committee.v ===== *)
(** * A committee of validators

    The validators of one shard, each running the node's state machine
    (node/src/state.rs), with the work its runner does for it
    (production/src/runner.rs, production/src/action_dispatcher.rs) and the
    broadcasts of the shard between them.  The network may delay and reorder
    every message and every result of delegated work; it neither makes up nor
    alters any.  A step hands one event to one validator: a fired proposal
    timer, a message that some validator broadcast, or the result of one of the
    validator's own actions. *)

From stdpp Require Import base gmap list numbers.
From Stdlib Require Import NArith Lia.
From S2P Require Import Prelude Bitfield Types Encoding Merkle Topology VoteSet Core Runner.
From S2P Require Import PendingBlock BftState Node.

(** ** The runner's part *)

Section runner.
Context `{Crypto} `{Topology}.

(** The event that the runner sends back for an action; [None] for actions
    without an answer, and for those whose work stays with storage, network
    and execution. *)
Definition answer (storage : JmtStore) (a : Action) : option Event :=
  match a with
  | EnqueueInternal e => Some e
  | VerifyAndBuildQuorumCertificate block_hash height round parent message votes verified power =>
      '(qc, rest) ← verify_and_build_quorum_certificate block_hash height round parent message
                       votes verified power;
      Some (QuorumCertificateResult block_hash qc rest)
  | VerifyQcSignature qc keys block_hash message =>
      Some (QcSignatureVerified block_hash (verify_qc_signature qc keys message))
  | VerifyCycleProof block_hash i proof keys message threshold =>
      Some (CycleProofVerified block_hash i (verify_cycle_proof proof keys message threshold))
  | VerifyStateRoot block_hash parent expected certs =>
      Some (StateRootVerified block_hash (verify_state_root storage local_shard parent expected certs))
  | VerifyTransactionRoot block_hash expected retry priority txs =>
      Some (TransactionRootVerified block_hash (verify_transaction_root expected retry priority txs))
  | BuildProposal proposer height round parent qc timestamp fallback root version
      retry priority txs certs proofs deferred aborted =>
      let '(block, hash) :=
        build_proposal storage local_shard proposer height round parent qc timestamp fallback
          root version retry priority txs certs proofs deferred aborted in
      Some (ProposalBuilt height round block hash)
  | _ => None
  end.

(** The event that a broadcast becomes at the other validators of the shard. *)
Definition message_event (m : OutboundMessage) : Event :=
  match m with
  | BlockHeaderMessage g => BlockHeaderReceived g
  | BlockVoteMessage v => BlockVoteReceived v
  | TransactionGossipMessage tx => TransactionGossipReceived tx
  end.

Definition broadcast (a : Action) : option Event :=
  match a with
  | BroadcastToShard _ m | PersistAndBroadcastVote _ _ _ _ m => Some (message_event m)
  | _ => None
  end.

Definition committed_block (a : Action) : option Block :=
  match a with EmitCommittedBlock block => Some block | _ => None end.
End runner.

(** ** The system *)

(** Of every validator: its state, the deadline of its proposal timer and the
    results that wait for it; then all messages so far with their senders, and
    the blocks committed so far with the validators that committed them. *)
Record System := mk_system {
  sy_nodes : list NodeState;
  sy_timers : list (option Duration);
  sy_results : list (list Event);
  sy_sent : list (nat * Event);
  sy_committed : list (nat * Block)
}.

Inductive Input :=
  | Fire
  | Deliver (k : nat)
  | Resume (k : nat).

(** The validator, the time on its clock, and what it is handed. *)
Record Label := mk_label { lb_who : nat; lb_now : Duration; lb_input : Input }.

Section system.
Context `{Crypto} `{HashIter}.

(** Validator [i] sees the network through [topology i] and has the tree
    [storage i]. *)
Variable topology : nat -> Topology.
Variable storage : nat -> JmtStore.

(** The proposal timer after the actions: set, cancelled, or as it was. *)
Definition timer_after (now : Duration) (timer : option Duration) (a : Action) : option Duration :=
  match a with
  | SetTimer ProposalTimer d => Some (now + d)
  | CancelTimer ProposalTimer => None
  | _ => timer
  end.

(** The effects of the actions of validator [i]. *)
Definition perform (i : nat) (now : Duration) (acts : list Action) (sy : System) : System :=
  mk_system (sy_nodes sy)
    (alter (fun timer => foldl (timer_after now) timer acts) i (sy_timers sy))
    (alter (fun q => q ++ omap (@answer _ (topology i) (storage i)) acts) i (sy_results sy))
    (sy_sent sy ++ (pair i <$> omap broadcast acts))
    (sy_committed sy ++ (pair i <$> omap committed_block acts)).

Definition node_step (i : nat) (now : Duration) (e : Event) (sy : System) : option System :=
  s ← sy_nodes sy !! i;
  if now <? n_now s then None
  else
    '(s', acts) ← @handle _ (topology i) _ e (node_set_time now s);
    Some (perform i now acts
            (mk_system (<[i := s']> (sy_nodes sy)) (sy_timers sy) (sy_results sy) (sy_sent sy)
               (sy_committed sy))).

(** A timer fires at its deadline or later; a validator does not receive its
    own broadcasts. *)
Definition sys_step (l : Label) (sy : System) : option System :=
  let i := lb_who l in
  match lb_input l with
  | Fire =>
      timer ← sy_timers sy !! i;
      deadline ← timer;
      if lb_now l <? deadline then None
      else node_step i (lb_now l) ProposalTimerFired
             (mk_system (sy_nodes sy) (<[i := None]> (sy_timers sy)) (sy_results sy) (sy_sent sy)
                (sy_committed sy))
  | Deliver k =>
      '(sender, e) ← sy_sent sy !! k;
      if Nat.eqb sender i then None else node_step i (lb_now l) e sy
  | Resume k =>
      q ← sy_results sy !! i;
      e ← q !! k;
      node_step i (lb_now l) e
        (mk_system (sy_nodes sy) (sy_timers sy) (<[i := delete k q]> (sy_results sy))
           (sy_sent sy) (sy_committed sy))
  end.

Fixpoint sys_run (ls : list Label) (sy : System) : option System :=
  match ls with
  | [] => Some sy
  | l :: ls => sy ← sys_step l sy; sys_run ls sy
  end.

(** Validators [0] to [n - 1] with their genesis state, and the actions of
    the initialization. *)
Definition validator_start (key : nat -> Bls12381G1PrivateKey) (config : BftConfig)
    (genesis : Block) (i : nat) : NodeState * list Action :=
  node_initialize_genesis genesis
    (@node_new _ (topology i) (key i) config (mk_recovered_state ∅ 0 None None None)).

Definition sys_start (key : nat -> Bls12381G1PrivateKey) (config : BftConfig) (genesis : Block)
    (n : nat) : System :=
  foldl (fun sy i => perform i 0 (validator_start key config genesis i).2 sy)
    (mk_system ((fun i => (validator_start key config genesis i).1) <$> seq 0 n)
       (replicate n None) (replicate n []) [] []) (seq 0 n).

Lemma sys_run_app ls ls' sy sy1 :
  sys_run ls sy = Some sy1 -> sys_run (ls ++ ls') sy = sys_run ls' sy1.
Proof.
  revert sy. induction ls as [|l ls IH]; intros sy; cbn; [by intros [= ->]|].
  destruct (sys_step l sy) as [sy'|]; [|done]. cbn. apply IH.
Qed.

(** ** Turns

    A validator that handles an input, and then all results of its own work
    in the order in which they come back. *)

Fixpoint settle (fuel i : nat) (now : Duration) (sy : System) : System :=
  match fuel with
  | O => sy
  | S fuel =>
      match sys_step (mk_label i now (Resume 0)) sy with
      | Some sy' => settle fuel i now sy'
      | None => sy
      end
  end.

Definition turn (sy : System) (l : Label) : System :=
  match sys_step l sy with
  | Some sy' => settle 20 (lb_who l) (lb_now l) sy'
  | None => sy
  end.

Lemma settle_run fuel i now sy : exists ls, sys_run ls sy = Some (settle fuel i now sy).
Proof.
  revert sy. induction fuel as [|fuel IH]; intros sy; cbn [settle]; [by exists []|].
  destruct (sys_step (mk_label i now (Resume 0)) sy) as [sy'|] eqn:Hs; [|by exists []].
  destruct (IH sy') as [ls Hls]. exists (mk_label i now (Resume 0) :: ls). cbn [sys_run]. by rewrite Hs.
Qed.

Lemma turn_run l sy : exists ls, sys_run ls sy = Some (turn sy l).
Proof.
  unfold turn. destruct (sys_step l sy) as [sy'|] eqn:Hs; [|by exists []].
  destruct (settle_run 20 (lb_who l) (lb_now l) sy') as [ls Hls].
  exists (l :: ls). cbn [sys_run]. by rewrite Hs.
Qed.

Lemma turns_run turns sy : exists ls, sys_run ls sy = Some (foldl turn sy turns).
Proof.
  revert sy. induction turns as [|l turns IH]; intros sy; cbn [foldl]; [by exists []|].
  destruct (turn_run l sy) as [ls Hls], (IH (turn sy l)) as [ls' Hls'].
  exists (ls ++ ls'). by rewrite (sys_run_app _ _ _ _ Hls).
Qed.
End system.
