(* ===== verification/CommitteeFork.v ===== *)
(** * Two commits at one height

    A run of four validators that all follow the code, on a network that only
    delays messages, in which two of them commit different blocks at height 1.
    The vote lock of a height is released by [advance_round] (bft/src/state.rs)
    when the validator itself has seen no certificate for that height, although
    others may hold one. *)

From stdpp Require Import base gmap list numbers.
From Stdlib Require Import NArith Lia.
From S2P Require Import Prelude Bitfield Types Encoding Merkle Topology VoteSet Core Runner.
From S2P Require Import PendingBlock BftState BftReach Node Committee.

#[local] Existing Instances sample_crypto canonical_iter.

Definition empty_store : JmtStore := mk_jmt_store ZERO (fun root _ => root).
Definition committee_topology (i : nat) : Topology := sample_topology (N.of_nat i).
Definition committee_store (i : nat) : JmtStore := empty_store.
Definition committee_key (i : nat) : Bls12381G1PrivateKey := N.of_nat i + 1.

Definition committee_start : System :=
  sys_start committee_topology committee_store committee_key default_config sample_genesis 4.

Definition fire (i : nat) (ms : N) : Label := mk_label i (from_millis ms) Fire.
Definition recv (i : nat) (ms : N) (k : nat) : Label := mk_label i (from_millis ms) (Deliver k).

(** The messages by number, in the order of their broadcasts:
    - 0 is the block [B] of validator 1 at height 1, round 0; 1 to 4 are the
      votes for it of the validators 1, 0, 2 and 3;
    - 5 is the block [C] of validator 2 at height 2, round 0, on top of [B];
      6 is the vote of validator 2 for it;
    - 7 is the block [B'] of validator 3 at height 1, round 2; 8 to 10 are the
      votes for it of 3, 0 and 1;
    - 11 is the block [C'] of validator 0 at height 2, round 2, on top of
      [B']; 12 is the vote of 0 for it;
    - 13 and 14 are the votes of 1 and 3 for [C];
    - 15 and 16 are a block of validator 1 at height 2, round 3, and its vote;
    - 17 and 18 are the votes of 1 and 3 for [C']. *)
Definition fork_schedule : list Label :=
  [ (* all vote for B; only validator 2 receives the votes, and proposes C *)
    fire 1 300; recv 0 400 0; recv 2 400 0; recv 3 400 0;
    recv 2 500 1; recv 2 500 2; recv 2 500 4; fire 2 900;
    (* the others time out twice, vote for B', and 0 proposes C' *)
    fire 0 4000; fire 0 7900; fire 1 4000; fire 1 7900; fire 3 4000; fire 3 7900;
    recv 0 8000 7; recv 1 8000 7; recv 0 8100 8; recv 0 8100 10; fire 0 8500;
    (* C arrives: 1 and 3 vote for it, and 2 commits B *)
    recv 1 8600 5; recv 3 8600 5; recv 2 8700 13; recv 2 8700 14;
    (* 1 and 3 time out, vote for C', and 0 commits B' *)
    fire 1 14000; fire 3 14000; fire 1 20000; recv 1 20100 11; recv 3 20100 11;
    recv 0 20200 17; recv 0 20200 18 ].

Definition fork_end : System :=
  foldl (turn committee_topology committee_store) committee_start fork_schedule.

Definition fork_block (k : nat) : Block :=
  default sample_genesis (snd <$> sy_committed fork_end !! k).

(** C11: Four validators that all run the node's code, with honest runners and a
    network that only delays messages, can commit different blocks at the same
    height: the round timeout releases the vote lock of a height for which
    another validator already holds a certificate, and neither the header
    checks nor the commit rule look at the rounds of certificates. *)
Theorem correct_validators_fork :
  exists ls sy b b',
    sys_run committee_topology committee_store ls committee_start = Some sy
    /\ sy_committed sy = [(2%nat, b); (0%nat, b')]
    /\ bh_height (bl_header b) = 1 /\ bh_height (bl_header b') = 1
    /\ block_hash b <> block_hash b'.
Proof.
  destruct (turns_run committee_topology committee_store fork_schedule committee_start) as [ls Hls].
  exists ls, fork_end, (fork_block 0), (fork_block 1).
  split_and!; [exact Hls|vm_compute; reflexivity..|vm_compute; discriminate].
Qed.
