(* ===== verification/Agreement.v ===== *)
(** * Where certificates and commits come from

    The consensus state machines of a committee whose members all follow the
    code, connected by the log of everything they do.  The predicates of this
    file say of a header that it was proposed, of a vote that it was cast, of a
    certificate that it is genuine, and of a block that it is certified, all
    with respect to one log; the invariant says it of everything a validator
    stores, and the lemmas carry it through the vote sets and through the
    certificates the runner builds. *)

From stdpp Require Import base gmap list numbers sorting.
From Stdlib Require Import NArith Lia.
From S2P Require Import Prelude Bitfield Types Encoding Merkle Topology VoteSet Core Runner.
From S2P Require Import QcTheory QcRoundtrip PendingBlock BftState BftVote BftCommit BftPropose.
From S2P Require Import BftChain BftReach.

Import VoteSetOps.

Abbreviation Log := (list (ValidatorId * Action)) (only parsing).

Lemma filter_everything {A} (P : A -> Prop) `{!forall x, Decision (P x)} l :
  Forall P l -> filter P l = l.
Proof.
  induction 1 as [|x l Hx _ IH]; [done|]. rewrite list.filter_cons, decide_True by done. by rewrite IH.
Qed.

Lemma wsum_app l1 l2 : wsum (l1 ++ l2) = wsum l1 +w wsum l2.
Proof.
  induction l2 as [|x l2 IH] using rev_ind.
  - rewrite app_nil_r. unfold wsum at 3. cbn. rewrite wadd_0_r; [done|].
    destruct l1 as [|y l1 _] using rev_ind; [done|]. rewrite wsum_snoc. apply wadd_lt.
  - rewrite app_assoc, !wsum_snoc, IH. unfold wadd, as_u64.
    rewrite N.Div0.add_mod_idemp_l, N.Div0.add_mod_idemp_r. f_equal. lia.
Qed.

Section provenance.
Context `{Crypto} `{T : Topology}.

(** The log [L], and the hash of the genesis block. *)
Variable L : list (ValidatorId * Action).
Variable genesis : Hash.

(** ** Predicates on the log *)

Definition proposed (hd : BlockHeader) : Prop :=
  exists i shard g, (i, BroadcastToShard shard (BlockHeaderMessage g)) ∈ L /\ bg_header g = hd.

Definition voted (i : ValidatorId) (v : BlockVote) : Prop :=
  exists height round hash shard,
    (i, PersistAndBroadcastVote height round hash shard (BlockVoteMessage v)) ∈ L.

(** The signature of a vote verifies under the key of its voter. *)
Definition signed (v : BlockVote) : Prop :=
  exists k, public_key (bv_voter v) = Some k /\
    verify_bls12381_v1 (block_vote_message local_shard (bv_height v) (bv_round v) (bv_block_hash v))
      k (bv_signature v) = true.

(** A vote that its voter broadcast, for a block that was proposed. *)
Definition vote_cast (v : BlockVote) : Prop :=
  voted (bv_voter v) v /\ signed v /\
  exists hd, proposed hd /\ header_hash hd = bv_block_hash v /\
    bh_height hd = bv_height v /\ bh_round hd = bv_round v.

(** A certificate for a proposed block, with votes of a quorum behind it. *)
Definition genuine (qc : QuorumCertificate) : Prop :=
  (exists hd, proposed hd /\ header_hash hd = qc_block_hash qc /\ bh_height hd = qc_height qc /\
     bh_parent_hash hd = qc_parent_block_hash qc) /\
  exists A : gset ValidatorId,
    has_quorum_for_shard local_shard (power_in local_shard A) = true /\
    forall i, i ∈ A -> exists v, voted i v /\ bv_block_hash v = qc_block_hash qc /\
      bv_height v = qc_height qc.

Definition certified (hash : Hash) (height : u64) : Prop :=
  exists qc, genuine qc /\ qc_block_hash qc = hash /\ qc_height qc = height.

(** A block that the two-chain rule commits. *)
Definition committable (hash : Hash) : Prop :=
  exists qc, genuine qc /\ qc_parent_block_hash qc = hash.

(** A header as a validator builds it: on top of genesis, or on top of the
    block of a genuine certificate. *)
Definition built_on (height : u64) (parent_hash : Hash) (parent_qc : QuorumCertificate) : Prop :=
  (parent_qc = QC.genesis /\ parent_hash = genesis) \/
  (genuine parent_qc /\ parent_hash = qc_block_hash parent_qc /\ height = qc_height parent_qc + 1).

Definition well_built (hd : BlockHeader) : Prop :=
  0 < bh_height hd < u64_modulus /\
  built_on (bh_height hd) (bh_parent_hash hd) (bh_parent_qc hd).

(** A block handed over by sync, with the certificate for it. *)
Definition sync_good (block : Block) (qc : QuorumCertificate) : Prop :=
  proposed (bl_header block) /\ well_built (bl_header block) /\ genuine qc /\
  qc_block_hash qc = block_hash block.

(** ** Votes in vote sets *)

Definition entry (hash : Hash) (v : VerifiedVote) : Prop :=
  vote_cast (v_vote v) /\ bv_block_hash (v_vote v) = hash /\
  local_committee_index (bv_voter (v_vote v)) = Some (v_index v) /\
  v_power v = power_of (bv_voter (v_vote v)).

Definition uentry (hash : Hash) (u : UnverifiedVote) : Prop :=
  entry hash (to_verified u) /\ public_key (bv_voter (u_vote u)) = Some (u_key u).

Record vset_good (hash : Hash) (vs : VoteSet) : Prop := {
  vg_wf : wf (length local_committee) vs;
  vg_nodup : NoDup (indices vs);
  vg_verified : Forall (entry hash) (vs_verified_votes vs);
  vg_unverified : Forall (uentry hash) (vs_unverified_votes vs);
  vg_height k : vs_height vs = Some k -> exists hd, proposed hd /\ header_hash hd = hash /\
    bh_height hd = k /\ vs_round vs = Some (bh_round hd);
  vg_round : vs_height vs = None -> vs_round vs = None;
  vg_parent p : vs_parent_block_hash vs = Some p ->
    exists hd, proposed hd /\ header_hash hd = hash /\ bh_parent_hash hd = p
}.

(** The arguments of [VerifyAndBuildQuorumCertificate]. *)
Definition batch_good (hash : Hash) (height round : u64) (parent : Hash) (message : bytes)
    (us : list UnverifiedVote) (l : list VerifiedVote) (total : u64) : Prop :=
  total = local_voting_power /\ message = block_vote_message local_shard height round hash /\
  Forall (entry hash) l /\ Forall (uentry hash) us /\
  NoDup ((v_index <$> l) ++ (u_index <$> us)) /\ us <> [] /\
  VotePower.has_quorum (wsum (v_power <$> l) +w wsum (u_power <$> us)) total = true /\
  exists hd, proposed hd /\ header_hash hd = hash /\ bh_height hd = height /\
    bh_round hd = round /\ bh_parent_hash hd = parent.

(** *** Operations of vote sets *)

Lemma index_lookup id i : local_committee_index id = Some i -> local_committee !! i = Some id.
Proof.
  unfold local_committee_index, committee_index_for_shard.
  rewrite fmap_Some. intros ([j x] & (Hx & -> & _)%list_find_Some & ->). exact Hx.
Qed.

Lemma index_lt id i : local_committee_index id = Some i -> (i < length local_committee)%nat.
Proof. intros Hi%index_lookup. by apply lookup_lt_Some in Hi. Qed.

Lemma vset_new hash header :
  (forall hd, header = Some hd -> proposed hd /\ header_hash hd = hash) ->
  vset_good hash (new header (length local_committee)).
Proof.
  intros Hh. split; cbn.
  - apply vote_set_new_wf.
  - constructor.
  - constructor.
  - constructor.
  - intros k (hd & -> & ->)%fmap_Some. exists hd. by destruct (Hh hd eq_refl).
  - by intros ->%fmap_None.
  - intros p (hd & -> & ->)%fmap_Some. exists hd. by destruct (Hh hd eq_refl).
Qed.

Lemma vset_header hash header vs :
  proposed header -> header_hash header = hash -> vset_good hash vs ->
  vset_good hash (set_header vs header).
Proof.
  intros Hp Hh [Hwf Hnd Hv Hu Hk Hr Hpa]. split; cbn; try done.
  - by apply set_header_wf.
  - intros k. destruct (vs_height vs) as [k'|] eqn:E; cbn.
    + intros [= ->]. destruct (Hk k eq_refl) as (hd & ? & ? & ? & ->). by exists hd.
    + intros [= <-]. rewrite (Hr eq_refl). by exists header.
  - by destruct (vs_height vs).
  - intros p. destruct (vs_parent_block_hash vs) as [p'|]; cbn; [auto|].
    intros [= <-]. by exists header.
Qed.

Lemma note_first_good hash vs vote :
  vote_cast vote -> bv_block_hash vote = hash -> vset_good hash vs ->
  vset_good hash (note_first_vote vs vote).
Proof.
  intros (_ & _ & hd & Hp & Hh & Hk & Hr) <- Hg. unfold note_first_vote.
  destruct (vs_block_hash vs); [done|]. destruct Hg as [[] Hnd Hv Hu _ _ Hpa].
  split; cbn; try done. intros k [= <-]. exists hd. by rewrite Hr.
Qed.

(** A vote of a validator not seen yet is recorded. *)
Lemma fresh_nodup n vs i :
  wf n vs -> NoDup (indices vs) -> has_seen_validator vs i = false -> i ∉ indices vs.
Proof. intros Hwf _ Hs Hi. apply (wf_seen n vs Hwf) in Hi. congruence. Qed.

Lemma vset_buffer hash vs i vote k :
  uentry hash (i, vote, k, power_of (bv_voter vote)) -> has_seen_validator vs i = false ->
  vset_good hash vs -> vset_good hash (buffer_unverified_vote vs i vote k (power_of (bv_voter vote))).1.
Proof.
  intros Hu Hs Hg. pose proof Hu as [(Hc & Hb & Hi & _) _].
  pose proof (buffer_wf (length local_committee) vs i vote k (power_of (bv_voter vote))
                (index_lt _ _ Hi) (vg_wf _ _ Hg)) as Hwf'.
  pose proof (fresh_nodup _ _ _ (vg_wf _ _ Hg) (vg_nodup _ _ Hg) Hs) as Hf.
  apply (note_first_good _ _ vote Hc Hb) in Hg. revert Hwf'.
  unfold buffer_unverified_vote. rewrite Hs. cbn [fst].
  destruct (note_first_vote_frame vs vote) as (E1 & E2 & _ & _ & _ & E6).
  unfold indices in Hf. rewrite <-E1, <-E2 in Hf.
  destruct Hg as [_ Hnd Hv Hun Hk Hr Hp]. intros Hwf'. split; cbn; try done.
  - unfold indices in *. cbn. rewrite fmap_app, app_assoc. apply NoDup_app.
    split; [done|]. split; [|apply NoDup_singleton].
    intros j Hj. cbn. rewrite list_elem_of_singleton. by intros ->.
  - apply Forall_app. split; [done|]. by apply Forall_singleton.
Qed.

Lemma vset_own hash vs i vote :
  entry hash (i, vote, power_of (bv_voter vote)) -> has_seen_validator vs i = false ->
  vset_good hash vs -> vset_good hash (add_verified_vote vs i vote (power_of (bv_voter vote))).1.
Proof.
  intros Hu Hs Hg. pose proof Hu as (Hc & Hb & Hi & _).
  pose proof (add_verified_wf (length local_committee) vs i vote (power_of (bv_voter vote))
                (index_lt _ _ Hi) (vg_wf _ _ Hg)) as Hwf'.
  pose proof (fresh_nodup _ _ _ (vg_wf _ _ Hg) (vg_nodup _ _ Hg) Hs) as Hf.
  apply (note_first_good _ _ vote Hc Hb) in Hg. revert Hwf'.
  unfold add_verified_vote. rewrite Hs. cbn [fst].
  destruct (note_first_vote_frame vs vote) as (E1 & E2 & _ & _ & _ & E6).
  unfold indices in Hf. rewrite <-E1, <-E2 in Hf.
  destruct Hg as [_ Hnd Hv Hun Hk Hr Hp]. intros Hwf'. split; cbn; try done.
  - unfold indices in *. cbn. rewrite fmap_app, <-app_assoc. cbn.
    rewrite <-Permutation_middle. by constructor.
  - apply Forall_app. split; [done|]. by apply Forall_singleton.
Qed.

Lemma vset_take hash vs : vset_good hash vs -> vset_good hash (take_unverified_votes vs).1.
Proof.
  intros [Hwf Hnd Hv Hu Hk Hr Hp]. split; cbn; try done.
  - by apply take_wf.
  - unfold indices in *. cbn. rewrite app_nil_r. by apply NoDup_app in Hnd as [? _].
Qed.

Lemma vset_built hash vs : vset_good hash vs -> vset_good hash (on_qc_built vs).
Proof. intros [[] Hnd Hv Hu Hk Hr Hp]. by split. Qed.

(** ** From votes to certificates *)

(** Different headers that were proposed have different hashes. *)
Hypothesis no_collision :
  forall hd hd', proposed hd -> proposed hd' -> header_hash hd = header_hash hd' -> hd = hd'.

Lemma entry_in hash v : entry hash v -> entry_ok v.
Proof.
  intros (_ & _ & Hi & Hp). exists (bv_voter (v_vote v)). split; [by apply index_lookup|done].
Qed.

Lemma entry_signed hash hd v :
  proposed hd -> header_hash hd = hash -> entry hash v ->
  exists k, public_key (bv_voter (v_vote v)) = Some k /\
    verify_bls12381_v1 (block_vote_message local_shard (bh_height hd) (bh_round hd) hash) k
      (bv_signature (v_vote v)) = true.
Proof.
  intros Hp Hh ((_ & (k & Hk & Hv) & hd' & Hp' & Hh' & Hhe & Hr) & Hb & _).
  exists k. split; [done|]. rewrite <-Hhe, <-Hr, Hb in Hv.
  assert (hd' = hd) as -> by (apply no_collision; congruence). done.
Qed.

(** All votes of a batch pass, whichever way they are checked. *)
Lemma batch_all_verified hash hd us :
  proposed hd -> header_hash hd = hash -> Forall (uentry hash) us ->
  verified_of_batch (block_vote_message local_shard (bh_height hd) (bh_round hd) hash) us
  = to_verified <$> us.
Proof.
  intros Hp Hh Hus. unfold verified_of_batch. case_match; [done|]. f_equal.
  apply filter_everything. eapply Forall_impl; [exact Hus|]. intros u [He Hk].
  destruct (entry_signed hash hd _ Hp Hh He) as (k & Hk' & Hv).
  change (v_vote (to_verified u)) with (u_vote u) in *. rewrite Hk in Hk'. by injection Hk' as <-.
Qed.

Lemma entry_voted hash height (l : list VerifiedVote) i :
  Forall (entry hash) l -> (exists hd, proposed hd /\ header_hash hd = hash /\ bh_height hd = height) ->
  i ∈ omap (fun j => local_committee !! j) (v_index <$> l) ->
  exists v, voted i v /\ bv_block_hash v = hash /\ bv_height v = height.
Proof.
  intros Hl (hd & Hp & Hh & Hk) (j & (v & -> & Hv)%list_elem_of_fmap & Hi)%list_elem_of_omap.
  destruct (Forall_elem _ _ _ Hl Hv) as ((Hvoted & _ & hd' & Hp' & Hh' & Hk' & _) & Hb & Hidx & _).
  apply index_lookup in Hidx. rewrite Hidx in Hi. injection Hi as <-.
  exists (v_vote v). split_and!; [done..|].
  assert (hd' = hd) as -> by (apply no_collision; congruence). congruence.
Qed.

Context `{!TopologyLaws T}.
Hypothesis bounded : power_bounded local_shard.
Hypothesis bls : BlsLaws.

(** The runner builds a genuine certificate from such a batch. *)
Lemma batch_builds hash height round parent message us l total :
  batch_good hash height round parent message us l total ->
  exists qc, verify_and_build_quorum_certificate hash height round parent message us l total
      = Some (Some qc, []) /\ genuine qc /\ qc_block_hash qc = hash.
Proof.
  intros (-> & -> & Hl & Hus & Hnd & Hne & Hq & hd & Hp & Hh & <- & <- & <-).
  set (msg := block_vote_message _ _ _ _). set (all := l ++ verified_of_batch msg us).
  assert (Forall entry_ok l) as Hl' by (eapply Forall_impl; [exact Hl|apply entry_in]).
  assert (Forall uentry_ok us) as Hus'
    by (eapply Forall_impl; [exact Hus|intros u [He _]; exact (entry_in _ _ He)]).
  assert (all = l ++ (to_verified <$> us)) as Hall
    by (unfold all, msg; by rewrite (batch_all_verified hash hd us Hp Hh Hus)).
  assert (Forall (entry hash) all) as Hentry.
  { rewrite Hall. apply Forall_app. split; [done|]. apply Forall_fmap.
    eapply Forall_impl; [exact Hus|]. by intros u [? _]. }
  destruct (qc_build_sound hash (bh_height hd) (bh_round hd) (bh_parent_hash hd) msg us l
              bounded Hl' Hus' Hnd) as (qc_opt & votes & Hbuild & Hspec).
  fold all in Hspec. destruct qc_opt as [qc|].
  - destruct Hspec as (-> & Hb & Hhe & _ & Hpa & Hs & Hpow & Hquorum & _).
    exists qc. split_and!; [done| |done]. split.
    + exists hd. rewrite Hb, Hhe, Hpa. done.
    + exists (signer_ids qc). rewrite <-Hpow. split; [done|]. intros i Hi.
      rewrite (signer_ids_of_signers qc all Hs), elem_of_list_to_set in Hi. rewrite Hb, Hhe.
      apply (entry_voted hash (bh_height hd) all i); [done| |done]. by exists hd.
  - exfalso. destruct Hspec as (_ & [Hno|[Hno|Hno]]).
    + rewrite Hall, fmap_app, wsum_app, <-list_fmap_compose in Hno.
      change (v_power ∘ to_verified) with u_power in Hno. congruence.
    + rewrite Hall in Hno. apply app_eq_nil in Hno as [_ Hno%fmap_nil_inv]. done.
    + destruct (group_of_pairs bls msg
        ((fun v => (default 0 (public_key (bv_voter (v_vote v))), bv_signature (v_vote v))) <$> all))
        as (apk & asig & _ & Hagg & _).
      * rewrite Hall. destruct us; [done|]. by destruct l.
      * apply Forall_fmap. eapply Forall_impl; [exact Hentry|]. intros v Hv. cbn.
        destruct (entry_signed hash hd v Hp Hh Hv) as (k & -> & Hver). exact Hver.
      * rewrite <-list_fmap_compose in Hagg. unfold compose in Hagg. cbn [snd] in Hagg. congruence.
Qed.

(** ** One certified block per height *)

Lemma certified_unique :
  (forall i v v', voted i v -> voted i v' -> bv_height v = bv_height v' ->
     bv_block_hash v = bv_block_hash v') ->
  forall hash hash' height, certified hash height -> certified hash' height -> hash = hash'.
Proof.
  intros Honce hash hash' height (qc & (_ & A & HA & VA) & <- & Hk) (qc' & (_ & B & HB & VB) & <- & Hk').
  assert (3 * power_in local_shard ∅ < voting_power_for_shard local_shard) as HF.
  { pose proof (proj1 (has_quorum_for_shard_exact local_shard A bounded) HA) as Hq.
    pose proof (power_in_le local_shard A) as Hle. rewrite total_power in * by done.
    assert (power_in local_shard ∅ = 0) as ->; [|lia].
    clear. unfold power_in. induction (committee_for_shard local_shard) as [|x l IH]; [done|].
    rewrite list.filter_cons, decide_False by set_solver. exact IH. }
  destruct (quorums_meet local_shard A B ∅ bounded HA HB HF) as (i & _ & Hi & Hi' & _).
  destruct (VA i Hi) as (v & Hv & <- & Hvh), (VB i Hi') as (v' & Hv' & <- & Hvh').
  apply (Honce i); [done..|congruence].
Qed.
End provenance.
