(* ===== verification/AgreementSteps.v ===== *)
(** * The invariant of a validator in a committee that follows the code

    Everything a validator stores and announces is backed by the log of the
    committee (Agreement.v), and every handler of the consensus state machine
    keeps it so, given that its own actions end up in the log. *)

From stdpp Require Import base gmap list numbers sorting.
From Stdlib Require Import NArith Lia.
From S2P Require Import Prelude Bitfield Types Encoding Merkle Topology VoteSet Core Runner.
From S2P Require Import QcTheory QcRoundtrip PendingBlock BftState BftVote BftCommit BftPropose.
From S2P Require Import BftLoops BftChain BftReach Agreement.

Section steps.
Context `{Crypto} `{T : Topology} `{HashIter} `{!TopologyLaws T}.
Variable L : list (ValidatorId * Action).
Variable genesis : Hash.

Abbreviation proposed := (proposed L).
Abbreviation vote_cast := (vote_cast L).
Abbreviation genuine := (genuine L).
Abbreviation certified := (certified L).
Abbreviation committable := (committable L).
Abbreviation well_built := (well_built L genesis).
Abbreviation built_on := (built_on L genesis).
Abbreviation sync_good := (sync_good L genesis).
Abbreviation vset_good := (vset_good L).

(** The validator's key, and its public key. *)
Variable key : Bls12381G1PrivateKey.
Hypothesis key_matches :
  exists k, public_key local_validator_id = Some k /\
    forall message, verify_bls12381_v1 message k (sign_v1 key message) = true.
Hypothesis no_collision :
  forall hd hd', proposed hd -> proposed hd' -> header_hash hd = header_hash hd' -> hd = hd'.

Definition has_qc (s : BftState) : Prop := s_latest_qc s <> None.

Record sinv (s : BftState) : Prop := {
  si_key : s_signing_key s = key;
  si_shard : s_shard_group s = local_shard;
  si_qc qc : s_latest_qc s = Some qc -> genuine qc;
  si_fresh : s_latest_qc s = None -> s_committed_hash s = genesis;
  si_pending hash pb : s_pending_blocks s !! hash = Some pb ->
    pending_ok hash pb /\ proposed (pb_header pb) /\ well_built (pb_header pb);
  si_certified hash block qc : s_certified_blocks s !! hash = Some (block, qc) ->
    block_hash block = hash /\ proposed (bl_header block) /\ well_built (bl_header block);
  si_votes hash vs : s_vote_sets s !! hash = Some vs -> vset_good hash vs;
  si_commits k hash qc : s_pending_commits s !! k = Some (hash, qc) -> committable hash /\ has_qc s;
  si_awaiting hash k qc :
    s_pending_commits_awaiting_data s !! hash = Some (k, qc) -> committable hash /\ has_qc s;
  si_buffered k block qc : s_buffered_synced_blocks s !! k = Some (block, qc) -> sync_good block qc;
  si_synced hash p : s_pending_synced_block_verifications s !! hash = Some p ->
    sync_good (psv_block p) (psv_qc p);
  si_headers hash hd : s_pending_qc_verifications s !! hash = Some hd ->
    header_hash hd = hash /\ proposed hd
}.

(** The fields the invariant reads. *)
Definition sview (s : BftState) :=
  (s_signing_key s, s_shard_group s, s_latest_qc s, s_committed_hash s, s_pending_blocks s,
   s_certified_blocks s, s_vote_sets s, s_pending_commits s, s_pending_commits_awaiting_data s,
   s_buffered_synced_blocks s, s_pending_synced_block_verifications s, s_pending_qc_verifications s).

Lemma sinv_view s s' : sview s' = sview s -> sinv s -> sinv s'.
Proof.
  unfold sview. intros [= E1 E2 E3 E4 E5 E6 E7 E8 E9 E10 E11 E12] [].
  split; unfold has_qc in *; rewrite ?E1, ?E2, ?E3, ?E4, ?E5, ?E6, ?E7, ?E8, ?E9, ?E10, ?E11, ?E12; auto.
Qed.

Lemma has_qc_view s s' : sview s' = sview s -> has_qc s -> has_qc s'.
Proof. unfold has_qc. by intros [= _ _ -> _ _ _ _ _ _ _ _ _]. Qed.

(** ** What the actions say *)

Definition agood (s : BftState) (a : Action) : Prop :=
  match a with
  | BroadcastToShard _ (BlockHeaderMessage g) => well_built (bg_header g)
  | PersistAndBroadcastVote _ _ _ _ (BlockVoteMessage v) =>
      vote_cast v /\ bv_voter v = local_validator_id
  | VerifyAndBuildQuorumCertificate hash height round parent message us l total =>
      batch_good L hash height round parent message us l total
  | BuildProposal _ height _ parent qc _ _ _ _ _ _ _ _ _ _ _ =>
      0 < height < u64_modulus /\ built_on height parent qc
  | EnqueueInternal (QuorumCertificateFormed hash qc) => genuine qc /\ qc_block_hash qc = hash
  | EnqueueInternal (BlockReadyToCommit hash _) => committable hash /\ has_qc s
  | PersistBlock block qc => sync_good block qc
  | EmitCommittedBlock block =>
      proposed (bl_header block) /\
      (committable (block_hash block) \/ certified (block_hash block) (bh_height (bl_header block)))
  | _ => True
  end.

(** Actions that say nothing. *)
Definition plain (a : Action) : bool :=
  match a with
  | BroadcastToShard _ _ | PersistAndBroadcastVote _ _ _ _ _
  | VerifyAndBuildQuorumCertificate _ _ _ _ _ _ _ _ | BuildProposal _ _ _ _ _ _ _ _ _ _ _ _ _ _ _ _
  | EnqueueInternal (QuorumCertificateFormed _ _) | EnqueueInternal (BlockReadyToCommit _ _)
  | PersistBlock _ _ | EmitCommittedBlock _ => false
  | _ => true
  end.

Lemma plain_good s acts : Forall (fun a => plain a = true) acts -> Forall (agood s) acts.
Proof. intros Ha. eapply Forall_impl; [exact Ha|]. intros []; try done. by destruct event. Qed.

Definition logged (acts : list Action) : Prop := forall a, a ∈ acts -> (local_validator_id, a) ∈ L.

(** A run of a handler that keeps the invariant, once it is in the log. *)
Record kept (s s' : BftState) (acts : list Action) : Prop := {
  kept_inv : sinv s';
  kept_actions : Forall (agood s') acts;
  kept_qc : has_qc s -> has_qc s'
}.

Definition good (s : BftState) (r : BftState * list Action) : Prop :=
  logged r.2 -> kept s r.1 r.2.

Lemma agood_mono s s' a : (has_qc s -> has_qc s') -> agood s a -> agood s' a.
Proof. destruct a; try done. destruct event; try done. cbn. tauto. Qed.

Lemma logged_app a1 a2 : logged (a1 ++ a2) -> logged a1 /\ logged a2.
Proof. intros Hl. split; intros a Ha; apply Hl, elem_of_app; auto. Qed.

Lemma good_trans s s1 a1 s2 a2 : good s (s1, a1) -> (sinv s1 -> (has_qc s -> has_qc s1) -> good s1 (s2, a2)) ->
  good s (s2, a1 ++ a2).
Proof.
  intros H1 H2 [Hl1 Hl2]%logged_app. cbn [fst snd] in *. destruct (H1 Hl1) as [Hi1 Ha1 Hq1].
  destruct (H2 Hi1 Hq1 Hl2) as [Hi2 Ha2 Hq2]. cbn [fst snd] in *. split; [done| |auto].
  apply Forall_app. split; [|done]. eapply Forall_impl; [exact Ha1|]. intros a. by apply agood_mono.
Qed.

Lemma good_seq s (h1 h2 : handler BftState Action) :
  good s (h1 s) -> (forall s1, sinv s1 -> (has_qc s -> has_qc s1) -> good s1 (h2 s1)) ->
  good s ((h1 ;> h2) s).
Proof.
  unfold hseq. destruct (h1 s) as [s1 a1]. intros H1 H2. specialize (H2 s1).
  destruct (h2 s1) as [s2 a2]. by apply (good_trans s s1).
Qed.

(** A run from a state that differs outside the invariant. *)
Lemma good_from s s0 r : (has_qc s -> has_qc s0) -> good s0 r -> good s r.
Proof. intros Hq Hg Hl. destruct (Hg Hl). split; auto. Qed.

Lemma good_stay s s' acts :
  sinv s' -> (has_qc s -> has_qc s') -> Forall (fun a => plain a = true) acts -> good s (s', acts).
Proof. intros Hi Hq Ha _. split; [done|by apply plain_good|done]. Qed.

Lemma good_view s s' acts :
  sinv s -> sview s' = sview s -> Forall (fun a => plain a = true) acts -> good s (s', acts).
Proof.
  intros Hi Hv Ha. apply good_stay; [by eapply sinv_view|by apply has_qc_view|done].
Qed.

Lemma good_skip s : sinv s -> good s (s, []).
Proof. intros. by apply good_view. Qed.

Lemma good_emit s acts (h : handler BftState Action) :
  Forall (agood s) acts -> good s (h s) -> good s ((hemit acts ;> h) s).
Proof.
  unfold hseq, hemit. intros Ha Hg. destruct (h s) as [s1 a1].
  intros [_ Hl]%logged_app. destruct (Hg Hl) as [Hi Ha1 Hq]. split; [done| |done].
  apply Forall_app. split; [|done]. eapply Forall_impl; [exact Ha|]. intros a. by apply agood_mono.
Qed.

(** ** Votes *)

Lemma with_set_inv s hash vs :
  sinv s -> vset_good hash vs -> sinv (s <| s_vote_sets ::= fun m => <[hash := vs]> m |>).
Proof.
  intros [] Hg. split; cbn; auto. intros h v. rewrite lookup_insert_Some.
  intros [[<- <-]|[_ Hl]]; auto.
Qed.

Lemma trigger_votes_good hash s : sinv s -> good s (maybe_trigger_vote_verification hash s).
Proof.
  intros Hi. unfold maybe_trigger_vote_verification.
  destruct (s_vote_sets s !! hash) as [vs|] eqn:Hvs; [|by apply good_skip].
  destruct (VoteSetOps.should_trigger_verification vs _) eqn:Ht; [|by apply good_skip]. cbn [negb].
  destruct (VoteSetOps.verification_data vs) as [[[[bh h] r] ph]|] eqn:Hd; [|by apply good_skip].
  pose proof (si_votes s Hi hash vs Hvs) as Hg.
  pose proof (vset_take L hash vs Hg) as Hg'. cbn in Hg'. cbn [VoteSetOps.take_unverified_votes].
  assert (sinv (s <| s_vote_sets ::= fun m => <[hash := (VoteSetOps.take_unverified_votes vs).1]> m |>))
    as Hi' by (by apply with_set_inv).
  cbn in Hi'. case_match eqn:Hlen; [by apply good_stay|].
  intros _. split; [done| |done]. apply Forall_singleton. cbn.
  unfold VoteSetOps.should_trigger_verification in Ht. apply andb_true_iff in Ht as [_ Hq].
  unfold VoteSetOps.verification_data in Hd. destruct Hg as [Hwf Hnd Hv Hu Hk _ Hp].
  destruct (vs_block_hash vs); [|done]. destruct (vs_height vs) as [k|]; [|done].
  destruct (vs_parent_block_hash vs) as [p|]; [|done]. injection Hd as -> -> <- ->.
  destruct (Hk h eq_refl) as (hd & Hpr & Hh & Hhe & Hr), (Hp ph eq_refl) as (hd' & Hpr' & Hh' & Hpa).
  assert (hd' = hd) as -> by (apply no_collision; congruence).
  rewrite Hr. cbn. unfold batch_good. rewrite (si_shard s Hi). split_and!; try done.
  - intros E. by rewrite E in Hlen.
  - by rewrite (VoteSetOps.wf_verified_power _ _ Hwf), (VoteSetOps.wf_unverified_power _ _ Hwf) in Hq.
  - by exists hd.
Qed.

Lemma block_vote_good vote s : vote_cast vote -> sinv s -> good s (on_block_vote_internal vote s).
Proof.
  intros Hv Hi. unfold on_block_vote_internal. cbv zeta.
  destruct (_ <=? _); [by apply good_skip|].
  destruct (local_committee_index _) as [i|] eqn:Hidx; [|by apply good_skip].
  destruct (_ =? 0); [by apply good_skip|].
  destruct (if bv_voter vote =? _ then _ else _) as [k|] eqn:Hk; [|by apply good_skip].
  set (hash := bv_block_hash vote).
  set (vs := default _ _).
  assert (vset_good hash vs) as Hg.
  { unfold vs. destruct (s_vote_sets s !! hash) as [vs0|] eqn:E; cbn; [by apply (si_votes s Hi)|].
    apply vset_new. intros hd (pb & Hpb & ->)%fmap_Some.
    destruct (si_pending s Hi _ _ Hpb) as ((Hh & _) & Hp & _). done. }
  clearbody vs.
  assert (entry L hash (i, vote, power_of (bv_voter vote))) as Hentry by done.
  destruct (VoteSetOps.has_seen_validator vs i) eqn:Hs; [apply good_stay; [by apply with_set_inv|done..]|].
  destruct k as [k|]; (eapply good_from; [|apply trigger_votes_good, with_set_inv]); try done.
  - apply vset_buffer; [|done..]. split; [done|]. cbn.
    destruct (bv_voter vote =? local_validator_id); [done|]. by apply fmap_Some in Hk as (k' & -> & [= ->]).
  - by apply vset_own.
Qed.

(** The block a vote is for, by its proposed header. *)
Definition votable (hash : Hash) (height round : u64) : Prop :=
  exists hd, proposed hd /\ header_hash hd = hash /\ bh_height hd = height /\ bh_round hd = round.

Lemma create_vote_good hash height round s :
  votable hash height round -> sinv s -> good s (create_vote hash height round s).
Proof.
  intros Hvt Hi. unfold create_vote. cbv zeta. set (s1 := s <| s_voted_heights ::= _ |>).
  set (vote := mk_block_vote _ _ _ _ _ _).
  assert (sinv s1) as Hi1 by (by apply (sinv_view s)).
  intros Hl. unfold hseq, hemit in *.
  assert (vote_cast vote) as Hv.
  { assert (voted L local_validator_id vote) as Hvoted.
    { exists height, round, hash, local_shard. apply Hl.
      destruct (on_block_vote_internal vote s1). by left. }
    destruct key_matches as (k & Hk & Hver). split_and!; [done| |done].
    exists k. split; [done|]. cbn. rewrite (si_shard s Hi), (si_key s Hi). apply Hver. }
  pose proof (block_vote_good vote s1 Hv Hi1) as Hg. destruct (on_block_vote_internal vote s1) as [s2 a2].
  apply logged_app in Hl as [_ Hl]. destruct (Hg Hl) as [Hi2 Ha2 Hq2]. split; [done| |done].
  constructor; [by split|done].
Qed.

Lemma cycle_actions_plain s hash l :
  Forall (fun a => plain a = true) (imap (cycle_proof_action s hash) l).
Proof.
  apply Forall_forall. intros a (i & d & -> & _)%elem_of_lookup_imap. done.
Qed.

Lemma verifications_good hash block s : sinv s -> good s (initiate_verifications hash block s).
Proof.
  intros Hi. unfold initiate_verifications. apply good_seq; [|intros s1 Hi1 _; apply good_seq; [|intros s2 Hi2 _]];
    unfold when; (case_match; [|by apply good_skip]).
  - unfold initiate_cycle_proof_verification. case_match; [by apply good_skip|].
    apply good_view; [done|done|]. apply cycle_actions_plain.
  - unfold initiate_state_root_verification. case_match; by apply good_view; [..|repeat constructor].
  - by apply good_view; [..|repeat constructor].
Qed.

Lemma try_vote_good hash height round s :
  votable hash height round -> sinv s -> good s (try_vote_on_block hash height round s).
Proof.
  intros Hvt Hi. unfold try_vote_on_block. destruct (s_voted_heights s !! height); [by apply good_skip|].
  destruct (_ ≫= _) as [block|]; [|by apply create_vote_good].
  destruct (validate_deferrals_and_aborts block); [by apply good_skip|].
  destruct (validate_transaction_ordering block); [by apply good_skip|].
  pose proof (verifications_good hash block s Hi) as Hg.
  destruct (initiate_verifications hash block s) as [s1 acts] eqn:E.
  destruct (Nat.eqb_spec (length acts) 0) as [Hz|Hnz]; cbn [negb]; [|done].
  apply length_zero_iff_nil in Hz as ->.
  destruct (Hg ltac:(intros a Ha; by apply elem_of_nil in Ha)) as [Hi1 _ Hq1].
  eapply good_from; [exact Hq1|]. by apply create_vote_good.
Qed.

Lemma pending_votable s hash pb :
  sinv s -> s_pending_blocks s !! hash = Some pb ->
  votable hash (bh_height (pb_header pb)) (bh_round (pb_header pb)).
Proof.
  intros Hi Hpb. destruct (si_pending s Hi hash pb Hpb) as ((Hh & _) & Hp & _). by exists (pb_header pb).
Qed.

Lemma trigger_or_vote_good hash s : sinv s -> good s (trigger_qc_verification_or_vote hash s).
Proof.
  intros Hi. unfold trigger_qc_verification_or_vote.
  destruct (s_pending_blocks s !! hash) as [pb|] eqn:Hpb; [|by apply good_skip]. cbv zeta.
  pose proof (pending_votable s hash pb Hi Hpb) as Hvt.
  destruct (negb _); [|by apply try_vote_good].
  destruct (contains_key _ _); [by apply try_vote_good|].
  destruct (contains_key _ _); [by apply good_skip|].
  destruct collect_qc_signer_keys; [|by apply good_skip].
  apply good_stay; [|done|by repeat constructor].
  destruct (si_pending s Hi hash pb Hpb) as ((Hh & _) & Hp & _). destruct Hi. split; cbn; auto.
  intros h hd. rewrite lookup_insert_Some. intros [[<- <-]|[_ Hl]]; auto.
Qed.

Lemma vote_if_verified_good hash s : sinv s -> good s (vote_if_verified hash s).
Proof.
  intros Hi. unfold vote_if_verified.
  destruct (s_pending_blocks s !! hash) as [pb|] eqn:Hpb; [|by apply good_skip].
  destruct (PendingBlockOps.block pb); [|by apply good_skip].
  destruct (negb _); [by apply good_skip|]. apply create_vote_good; [|done].
  by eapply pending_votable.
Qed.

(** ** Commits *)

Definition commit_good (block : Block) : Prop :=
  committable (block_hash block) \/ certified (block_hash block) (bh_height (bl_header block)).

Lemma block_to_commit_good s hash block :
  sinv s -> block_to_commit s hash = Some block ->
  block_hash block = hash /\ proposed (bl_header block) /\ well_built (bl_header block).
Proof.
  intros Hi. unfold block_to_commit. destruct (s_pending_blocks s !! hash) as [pb|] eqn:Hpb.
  - intros Hb. destruct (si_pending s Hi hash pb Hpb) as ((Hh & _ & Hhd) & Hp & Hw).
    apply Hhd in Hb. unfold block_hash. by rewrite Hb.
  - destruct (s_certified_blocks s !! hash) as [[b q]|] eqn:Hc; [|done].
    intros [= <-]. by apply (si_certified s Hi _ _ _ Hc).
Qed.

Lemma cleanup_sinv h s : sinv s -> sinv (cleanup_old_state h s).1.
Proof.
  intros []. unfold cleanup_old_state. split; cbn -[hm_retain]; auto.
  - intros hash pb [Hl _]%hm_retain_Some. auto.
  - intros hash b q [Hl _]%hm_retain_Some. eauto.
  - intros hash vs [Hl _]%hm_retain_Some. auto.
  - intros hash k q [Hl _]%hm_retain_Some. eauto.
  - intros k b q [Hl _]%hm_retain_Some. eauto.
  - intros hash p [Hl _]%hm_retain_Some. eauto.
  - intros hash hd [Hl _]%hm_retain_Some. eauto.
Qed.

Lemma cancel_plain hashes : Forall (fun a => plain a = true) (CancelFetch <$> hashes).
Proof. by apply Forall_fmap, Forall_true. Qed.

Lemma commit_one_good hash block s :
  sinv s -> has_qc s -> proposed (bl_header block) -> commit_good block ->
  good s (commit_one hash block s).
Proof.
  intros Hi Hq Hp Hc. unfold commit_one. cbv zeta. set (s1 := record_leader_activity _).
  assert (sinv s1) as Hi1.
  { destruct Hi. split; cbn; auto. intros Hn. by destruct Hq. }
  pose proof (cleanup_sinv (bh_height (bl_header block)) s1 Hi1) as Hi2.
  assert (has_qc (cleanup_old_state (bh_height (bl_header block)) s1).1) as Hq2 by exact Hq.
  destruct (cleanup_old_state _ s1) as [s2 removed]. cbn [fst] in *.
  intros _. split; [done| |done]. cbn [fst snd]. apply Forall_app.
  split; [by apply plain_good, cancel_plain|]. constructor; [by split|by repeat constructor].
Qed.

Lemma commit_loop_good fuel hash s :
  sinv s -> has_qc s -> committable hash -> good s (commit_loop fuel hash s).
Proof.
  revert hash s. induction fuel as [|fuel IH]; intros hash s Hi Hq Hc; rewrite commit_loop_eq.
  all: destruct (block_to_commit s hash) as [block|] eqn:Hb; [|by apply good_skip].
  all: destruct (block_to_commit_good s hash block Hi Hb) as (<- & Hp & Hw).
  all: destruct (negb _); [by apply good_skip|].
  all: apply good_seq; [apply commit_one_good; [done..|by left]|]; intros s1 Hi1 Hq1.
  all: destruct (s_pending_commits s1 !! _) as [[next ?]|] eqn:Hn; [|by apply good_skip].
  1: by apply good_skip.
  destruct (si_commits s1 Hi1 _ _ _ Hn) as [Hcn _].
  eapply good_from; [|apply IH]; [done| |by apply Hq1|done].
  destruct Hi1. split; cbn; auto. intros k h q' [_ Hl]%lookup_delete_Some. eauto.
Qed.

Lemma unlock_view qc s : sview (maybe_unlock_for_qc qc s) = sview s.
Proof. unfold maybe_unlock_for_qc. by repeat case_match. Qed.

(** Adopting a certificate, also when the committed hash has just changed. *)
Lemma adopt_tip_inv qc s tip :
  sinv (s <| s_committed_hash := tip |>) -> genuine qc ->
  sinv (adopt_qc qc s) /\ has_qc (adopt_qc qc s).
Proof.
  intros Hi Hg. unfold adopt_qc. destruct (is_none_or _ _) eqn:Hc.
  - split.
    + eapply sinv_view; [apply unlock_view|]. destruct Hi. cbn in *. split; cbn; auto.
      * by intros q [= <-].
      * done.
      * intros k h q Hl. split; [|done]. by eapply si_commits0.
      * intros h k q Hl. split; [|done]. by eapply si_awaiting0.
    + unfold has_qc, maybe_unlock_for_qc. by repeat case_match.
  - assert (has_qc s) as Hq by (unfold has_qc; by destruct (s_latest_qc s)).
    split; [|done]. destruct Hi. cbn in *. split; auto. intros Hn. by destruct Hq.
Qed.

Lemma adopt_inv qc s : sinv s -> genuine qc -> sinv (adopt_qc qc s) /\ has_qc (adopt_qc qc s).
Proof. intros Hi. apply (adopt_tip_inv qc s (s_committed_hash s)). by apply (sinv_view s). Qed.

(** A synced block is certified at its height. *)
Lemma sync_certified block qc :
  sync_good block qc -> certified (block_hash block) (bh_height (bl_header block)).
Proof.
  intros (Hp & _ & Hg & Hh). pose proof Hg as [(hd & Hp' & Hh' & Hk & _) _].
  exists qc. split_and!; [done..|]. rewrite <-Hk. f_equal. apply no_collision; [done..|].
  rewrite Hh', Hh. done.
Qed.

Section cycle.
Variable K : Hash -> handler BftState Action.
Hypothesis K_good : forall hash s, sinv s -> has_qc s -> committable hash -> good s (K hash s).

Lemma ready_good hash qc s :
  sinv s -> has_qc s -> committable hash -> good s (on_block_ready_to_commit_with K hash qc s).
Proof.
  intros Hi Hq Hc. unfold on_block_ready_to_commit_with.
  destruct (block_to_commit s hash) as [block|].
  - destruct (_ <=? _); [by apply good_skip|]. destruct (negb _); [|by apply K_good].
    apply good_stay; [|done..]. destruct Hi. split; cbn; auto.
    intros k h q. rewrite lookup_insert_Some. intros [[_ [= <- _]]|[_ Hl]]; eauto.
  - destruct (s_pending_blocks s !! hash); [|by apply good_skip].
    destruct (_ <? _); [|by apply good_skip]. apply good_stay; [|done..].
    destruct Hi. split; cbn; auto.
    intros h k q. rewrite lookup_insert_Some. intros [[<- _]|[_ Hl]]; eauto.
Qed.

Lemma drain_loop_good fuel s : sinv s -> good s (drain_pending_commits_loop K fuel s).
Proof.
  revert s. induction fuel as [|fuel IH]; intros s Hi; cbn [drain_pending_commits_loop];
    [by apply good_skip|].
  destruct (s_pending_commits s !! _) as [[hash qc]|] eqn:Hn; [|by apply good_skip].
  destruct (si_commits s Hi _ _ _ Hn) as [Hc Hq].
  eapply good_from; [|apply good_seq; [apply ready_good|]]; [done| |done|done|].
  - destruct Hi. split; cbn; auto. intros k h q [_ Hl]%lookup_delete_Some. eauto.
  - intros s1 Hi1 _. destruct (_ <? _); [by apply good_skip|by apply IH].
Qed.

Lemma apply_synced_good block qc s :
  sinv s -> sync_good block qc -> good s (apply_synced_block_with K block qc s).
Proof.
  intros Hi Hs. pose proof Hs as (Hp & Hw & Hg & _). unfold apply_synced_block_with. cbv zeta.
  match goal with |- context [adopt_qc qc ?x] => set (s1 := x) end.
  destruct (adopt_tip_inv qc s1 (s_committed_hash s)) as [Hi2 Hq2]; [by apply (sinv_view s)|done|].
  set (s3 := if QC.is_genesis _ then _ else _).
  assert (sinv s3 /\ has_qc s3) as [Hi3 Hq3].
  { unfold s3. destruct (QC.is_genesis _) eqn:Hgen; [done|].
    apply adopt_inv; [done|]. destruct Hw as [_ [[Heq _]|[? _]]]; [by rewrite Heq in Hgen|done]. }
  clearbody s3. pose proof (cleanup_sinv (bh_height (bl_header block)) s3 Hi3) as Hi4.
  assert (has_qc (cleanup_old_state (bh_height (bl_header block)) s3).1) as Hq4 by exact Hq3.
  destruct (cleanup_old_state _ s3) as [s4 removed]. cbn [fst] in *.
  eapply good_from; [|apply good_emit; [|by apply drain_loop_good]]; [done|].
  do 2 (constructor; [done || by split; [|right; eapply sync_certified]|]).
  constructor; [done|]. by apply plain_good, cancel_plain.
Qed.

Lemma submit_good block qc s :
  sinv s -> sync_good block qc -> good s (submit_synced_block_for_verification_with K block qc s).
Proof.
  intros Hi Hs. unfold submit_synced_block_for_verification_with.
  destruct (QC.is_genesis qc); [by apply apply_synced_good|].
  destruct collect_qc_signer_keys; [|by apply good_skip].
  apply good_stay; [|done|by repeat constructor]. destruct Hi. split; cbn; auto.
  intros h p. rewrite lookup_insert_Some. intros [[_ <-]|[_ Hl]]; eauto.
Qed.

Lemma drain_synced_good slots h s : sinv s -> good s (drain_synced_loop K slots h s).
Proof.
  revert h s. induction slots as [|slots IH]; intros h s Hi; cbn [drain_synced_loop];
    [by apply good_skip|].
  destruct (s_buffered_synced_blocks s !! h) as [[block qc]|] eqn:Hb; [|by apply good_skip].
  eapply good_from; [|apply good_seq; [apply submit_good|]]; [done| | |].
  - destruct Hi. split; cbn; auto. intros k b q [_ Hl]%lookup_delete_Some. eauto.
  - by apply (si_buffered s Hi _ _ _ Hb).
  - intros s1 Hi1 _. by apply IH.
Qed.

Lemma try_drain_good s : sinv s -> good s (try_drain_buffered_synced_blocks_with K s).
Proof.
  intros Hi. unfold try_drain_buffered_synced_blocks_with.
  destruct (Nat.leb _ _); [by apply good_skip|]. by apply drain_synced_good.
Qed.

Lemma commit_with_good hash s :
  sinv s -> has_qc s -> committable hash -> good s (commit_block_and_buffered_with K hash s).
Proof.
  intros Hi Hq Hc. unfold commit_block_and_buffered_with.
  apply good_seq; [by apply commit_loop_good|]. intros s1 Hi1 _. by apply try_drain_good.
Qed.
End cycle.

Lemma commit_good_all hash s :
  sinv s -> has_qc s -> committable hash -> good s (commit_block_and_buffered hash s).
Proof.
  unfold commit_block_and_buffered. generalize (S (size (s_buffered_synced_blocks s))). intros n.
  revert hash s. induction n as [|n IH]; intros hash s Hi Hq Hc; cbn [commit_rec]; [by apply good_skip|].
  by apply commit_with_good.
Qed.

Lemma apply_verified_good fuel s : sinv s -> good s (apply_verified_loop fuel s).
Proof.
  revert s. induction fuel as [|fuel IH]; intros s Hi; cbn [apply_verified_loop]; [by apply good_skip|].
  destruct (find_verified_at s _) as [hash|]; [|by apply good_skip].
  destruct (s_pending_synced_block_verifications s !! hash) as [p|] eqn:Hp; [|by apply good_skip].
  eapply good_from; [|apply good_seq; [apply apply_synced_good|]]; [done|exact commit_good_all| | |].
  - destruct Hi. split; cbn; auto. intros h q [_ Hl]%lookup_delete_Some. eauto.
  - by apply (si_synced s Hi _ _ Hp).
  - intros s1 Hi1 _. by apply IH.
Qed.

Lemma try_apply_good s : sinv s -> good s (try_apply_verified_synced_blocks s).
Proof.
  intros Hi. unfold try_apply_verified_synced_blocks.
  apply good_seq; [by apply apply_verified_good|]. intros s1 Hi1 _.
  apply try_drain_good; [exact commit_good_all|done].
Qed.

Lemma synced_ready_good block qc s :
  sinv s -> sync_good block qc -> good s (on_synced_block_ready block qc s).
Proof.
  intros Hi Hs. unfold on_synced_block_ready.
  destruct (_ <=? _); [by apply good_skip|]. destruct (negb _); [by apply good_skip|].
  repeat (destruct (contains_key _ _); [by apply good_skip|]).
  destruct (_ =? _ +w 1); [apply submit_good; [exact commit_good_all|done..]|].
  destruct (_ <? _); [|by apply good_skip].
  eapply good_from; [|apply try_drain_good; [exact commit_good_all|]]; [done|].
  destruct Hi. split; cbn; auto.
  intros k b q. rewrite lookup_insert_Some. intros [[_ [= <- <-]]|[_ Hl]]; eauto.
Qed.

Lemma delete_pending_sinv hash s : sinv s -> sinv (s <| s_pending_blocks ::= delete hash |>).
Proof. intros []. split; cbn; auto. intros h p [_ Hl]%lookup_delete_Some. auto. Qed.

Lemma qc_signature_good hash valid s : sinv s -> good s (on_qc_signature_verified hash valid s).
Proof.
  intros Hi. unfold on_qc_signature_verified.
  destruct (s_pending_synced_block_verifications s !! hash) as [p|] eqn:Hp.
  - destruct (negb valid).
    + apply good_stay; [|done..]. destruct Hi. split; cbn; auto. intros h q. by rewrite lookup_empty.
    + eapply good_from; [|apply try_apply_good]; [done|].
      pose proof (si_synced s Hi _ _ Hp) as Hs. destruct Hi. split; cbn; auto.
      intros h q. rewrite lookup_insert_Some. intros [[_ <-]|[_ Hl]]; eauto.
  - destruct (s_pending_qc_verifications s !! hash) as [hd|] eqn:Hh; [|by apply good_skip].
    assert (sinv (s <| s_pending_qc_verifications ::= delete hash |>)) as Hi1.
    { destruct Hi. split; cbn; auto. intros h q [_ Hl]%lookup_delete_Some. auto. }
    destruct (negb valid); [apply good_stay; [by apply delete_pending_sinv|done..]|].
    destruct (si_headers s Hi _ _ Hh) as [Hhash Hp'].
    eapply good_from; [|apply try_vote_good]; [done|by exists hd|].
    by eapply sinv_view; [|exact Hi1].
Qed.

(** ** Pending blocks *)

Lemma insert_pending_sinv hash pb s :
  sinv s -> pending_ok hash pb -> proposed (pb_header pb) -> well_built (pb_header pb) ->
  sinv (s <| s_pending_blocks ::= fun m => <[hash := pb]> m |>).
Proof.
  intros [] Hok Hp Hw. split; cbn; auto.
  intros h p. rewrite lookup_insert_Some. intros [[<- <-]|[_ Hl]]; auto.
Qed.

Lemma replace_pending_sinv hash pb0 pb s :
  sinv s -> s_pending_blocks s !! hash = Some pb0 -> same_header pb0 pb ->
  sinv (s <| s_pending_blocks ::= fun m => <[hash := pb]> m |>).
Proof.
  intros Hi Hpb Hsame. destruct (si_pending s Hi _ _ Hpb) as (Hok & Hp & Hw).
  pose proof Hsame as [Hhd _]. apply insert_pending_sinv; rewrite ?Hhd; try done.
  by eapply pending_ok_same.
Qed.

Lemma completed_good hash s : sinv s -> good s (block_completed hash s).
Proof.
  intros Hi. unfold block_completed. apply good_seq; [by apply trigger_or_vote_good|].
  intros s1 Hi1 _. unfold try_commit_pending_data.
  destruct (s_pending_commits_awaiting_data s1 !! hash) as [[k qc]|] eqn:Ha; [|by apply good_skip].
  destruct (si_awaiting s1 Hi1 _ _ _ Ha) as [Hc Hq].
  eapply good_from; [|apply ready_good; [exact commit_good_all|..]]; [done| |done|done].
  destruct Hi1. split; cbn; auto. intros h k' q [_ Hl]%lookup_delete_Some. eauto.
Qed.

Lemma refetch_plain hash pb : Forall (fun a => plain a = true) (refetch hash pb).
Proof. unfold refetch. apply Forall_app. split; case_match; by repeat constructor. Qed.

Lemma after_fetch_good s hash pb0 pb :
  sinv s -> s_pending_blocks s !! hash = Some pb0 -> same_header pb0 pb ->
  good s (after_fetch hash pb s).
Proof.
  intros Hi Hpb Hsame. unfold after_fetch. destruct (negb _).
  { apply good_stay; [by eapply replace_pending_sinv|done|apply refetch_plain]. }
  destruct (construct_if_needed pb) as [pb'|] eqn:Hc.
  - eapply good_from; [|apply completed_good]; [done|]. eapply replace_pending_sinv; [done..|].
    eapply same_header_trans; [done|by apply construct_if_needed_same].
  - apply good_stay; [|done..]. eapply replace_pending_sinv; [done..|].
    eapply same_header_trans; [done|apply construct_same].
Qed.

Lemma fill_pending_good add hash s :
  (forall pb, same_header pb (add pb)) -> sinv s -> good s (fill_pending_block add hash s).
Proof.
  intros Hadd Hi. unfold fill_pending_block.
  destruct (s_pending_blocks s !! hash) as [pb0|] eqn:Hpb; [|by apply good_skip].
  specialize (Hadd pb0). destruct (negb _).
  { apply good_stay; [by eapply replace_pending_sinv|done..]. }
  destruct (construct_if_needed (add pb0)) as [pb'|] eqn:Hc.
  - eapply good_from; [|apply completed_good]; [done|]. eapply replace_pending_sinv; [done..|].
    eapply same_header_trans; [done|by apply construct_if_needed_same].
  - apply good_stay; [|done..]. eapply replace_pending_sinv; [done..|].
    eapply same_header_trans; [done|apply construct_same].
Qed.

Lemma for_each_good {A} (h : A -> handler BftState Action) l s :
  (forall x s, sinv s -> good s (h x s)) -> sinv s -> good s (for_each h l s).
Proof.
  intros Hh. revert s. induction l as [|x l IH]; intros s Hi; [by apply good_skip|].
  apply (good_seq s (h x)); [by apply Hh|]. intros s1 Hi1 _. by apply IH.
Qed.

(** ** Proposals *)

Lemma parent_built s :
  sinv s -> room_for_next s ->
  built_on (next_height s) (parent_of_proposal s).1 (parent_of_proposal s).2.
Proof.
  intros Hi [_ Hroom]. unfold next_height, parent_of_proposal, Agreement.built_on.
  destruct (s_latest_qc s) as [qc|] eqn:Hq.
  - right. split; [by apply (si_qc s Hi)|]. cbn. split; [done|]. apply wadd_1_small. by apply Hroom.
  - left. split; [done|]. by apply (si_fresh s Hi).
Qed.

Lemma emitted acts (h : handler BftState Action) s a : a ∈ acts -> a ∈ ((hemit acts ;> h) s).2.
Proof. unfold hseq, hemit. destruct (h s). cbn. intros. apply elem_of_app. by left. Qed.

Lemma header_logged acts shard g hd :
  logged acts -> BroadcastToShard shard (BlockHeaderMessage g) ∈ acts -> bg_header g = hd ->
  proposed hd.
Proof. intros Hl Ha <-. exists local_validator_id, shard, g. split; [by apply Hl|done]. Qed.

Lemma empty_block_good timestamp fb s height round :
  sinv s -> 0 < height < u64_modulus ->
  built_on height (parent_of_proposal s).1 (parent_of_proposal s).2 ->
  good s (build_and_broadcast_empty_block timestamp fb height round s).
Proof.
  intros Hi Hr Hb. unfold build_and_broadcast_empty_block.
  destruct (parent_of_proposal s) as [parent_hash parent_qc].
  destruct (parent_state s parent_hash) as [root version]. cbn [fst snd] in Hb.
  set (header := mk_block_header _ _ _ _ _ _ _ _ _ _). cbv zeta.
  assert (well_built header) as Hw by done. set (s2 := record_leader_activity _).
  intros Hl. assert (proposed header) as Hp by (eapply header_logged; [exact Hl|apply emitted; by left|done]).
  assert (sinv s2 /\ (has_qc s -> has_qc s2)) as [Hi2 Hq2].
  { unfold s2. destruct (PendingBlockOps.construct_block _) as [pb [b|]] eqn:Hc;
      [|split; [by apply (sinv_view s)|done]].
    destruct (construct_pending_ok (header_hash header) _ _ _
                (new_pending_ok header [] [] [] [] [] [] ∅ Hr) Hc) as [Hpb [Hbh _]].
    pose proof (construct_same (PendingBlockOps.new header [] [] [] [])) as [Hsame _].
    rewrite Hc in Hsame. cbn in Hsame.
    assert (bl_header b = header) as Hbhd by (apply construct_stores in Hc; destruct Hpb as (_ & _ & Hx);
      rewrite (Hx b Hc); exact Hsame).
    split; [|done]. apply (insert_pending_sinv (header_hash header) pb s) in Hi;
      [|done|by rewrite Hsame..].
    destruct Hi. split; cbn in *; auto. intros h b' q. rewrite lookup_insert_Some.
    intros [[<- [= <- <-]]|[_ Hx]]; [by rewrite Hbhd|eauto]. }
  clearbody s2. revert Hl. change (good s ((hemit [BroadcastToShard local_shard
    (BlockHeaderMessage (mk_block_header_gossip header [] [] [] [] [] [] ∅))]
    ;> create_vote (header_hash header) height round
    ;> hemit [SetTimer ProposalTimer (cfg_proposal_interval (s_config s))]) s2)).
  apply (good_from s s2); [done|]. apply good_emit; [by constructor|].
  apply good_seq; [apply create_vote_good; [by exists header|done]|].
  intros s3 Hi3 _. by apply good_view; [..|repeat constructor].
Qed.

Lemma proposal_timer_good s ready deferred aborted certs proofs :
  sinv s -> room_for_next s -> good s (on_proposal_timer ready deferred aborted certs proofs s).
Proof.
  intros Hi Hroom. unfold on_proposal_timer. cbv zeta.
  destruct (negb _); [by apply good_view; [..|repeat constructor]|].
  destruct (contains_key _ _); [by apply good_view; [..|repeat constructor]|].
  pose proof (parent_built s Hi Hroom) as Hb.
  destruct (s_syncing s); [by apply empty_block_good; [|apply next_height_range|]|].
  destruct (parent_of_proposal s), (parent_state s _). cbn [fst snd] in Hb.
  intros _. split; [by apply (sinv_view s)| |done]. constructor; [done|]. apply Forall_singleton.
  split; [by apply next_height_range|done].
Qed.

Lemma proposal_built_good s height round block hash :
  sinv s -> block_hash block = hash -> bh_height (bl_header block) = height ->
  bh_round (bl_header block) = round -> well_built (bl_header block) ->
  good s (on_proposal_built height round block hash s).
Proof.
  intros Hi Hh Hhe Hro Hw. unfold on_proposal_built.
  destruct (s_pending_proposal s); [|by apply good_skip].
  destruct (_ || _); [by apply good_skip|]. cbv zeta.
  set (pb := foldl _ _ (bl_certificates block)).
  assert (pending_ok hash pb /\ pb_header pb = bl_header block) as [Hpb Hhd].
  { assert (same_header (PendingBlockOps.with_proofs (bl_header block)
      (rt_hash <$> bl_retry_transactions block) (rt_hash <$> bl_priority_transactions block)
      (rt_hash <$> bl_transactions block) (tc_transaction_hash <$> bl_certificates block)
      (bl_deferred block) (bl_aborted block) (bl_commitment_proofs block)) pb) as Hsame.
    { eapply same_header_trans; [|apply foldl_same; intros; apply add_cert_same].
      apply foldl_same; intros; apply add_tx_same. }
    split; [|exact (proj1 Hsame)]. rewrite <-Hh. eapply pending_ok_same; [exact Hsame|].
    apply (new_pending_ok (bl_header block)). apply Hw. }
  clearbody pb. pose proof (construct_same pb) as [Hhd' _].
  destruct (PendingBlockOps.construct_block pb) as [pb' [b|]] eqn:Hc; [|by apply good_view].
  destruct (construct_pending_ok _ _ _ _ Hpb Hc) as [Hpb' _]. cbn [fst] in Hhd'.
  match goal with |- good _ ((hemit ?x ;> _) ?y) => set (acts := x); set (s1 := y) end.
  intros Hl. assert (proposed (bl_header block)) as Hp
    by (eapply header_logged; [exact Hl|apply emitted; by left|done]).
  assert (sinv s1) as Hi1.
  { apply (sinv_view (s <| s_pending_blocks ::= fun m => <[hash := pb']> m |>)); [done|].
    apply insert_pending_sinv; rewrite ?Hhd', ?Hhd; done. }
  revert Hl. change (good s ((hemit acts ;> create_vote hash height round) s1)).
  apply (good_from s s1); [done|]. apply good_emit; [by constructor|].
  apply create_vote_good; [by exists (bl_header block)|done].
Qed.

(** ** Headers *)

Lemma start_sync_good height hash s : sinv s -> good s (start_sync height hash s).
Proof.
  intros Hi. unfold start_sync, set_syncing. repeat case_match; by apply good_view; [..|repeat constructor].
Qed.

Lemma note_parent_inv header s :
  sinv s -> well_built header ->
  sinv (note_parent_qc header s).1 /\ (has_qc s -> has_qc (note_parent_qc header s).1)
  /\ Forall (fun a => plain a = true) (note_parent_qc header s).2.
Proof.
  intros Hi Hw. unfold note_parent_qc. destruct (QC.is_genesis _) eqn:Hg; [done|].
  assert (genuine (bh_parent_qc header)) as Hq
    by (destruct Hw as [_ [[Heq _]|[? _]]]; [by rewrite Heq in Hg|done]).
  destruct (has_complete_block_at_height _ _).
  - destruct (adopt_inv (bh_parent_qc header) s Hi Hq) as [Hi1 Hq1]. done.
  - unfold start_sync. destruct (s_syncing s); [done|].
    split_and!; [|done|by repeat constructor]. apply (sinv_view s); [|done].
    unfold set_syncing. by case_match.
Qed.

Lemma header_tail_good hash s :
  sinv s ->
  good s (match s_pending_blocks s !! hash with
    | Some p =>
        if PendingBlockOps.is_complete p then
          match construct_if_needed p with
          | None => (s, [])
          | Some p' =>
              trigger_qc_verification_or_vote hash
                (s <| s_pending_blocks ::= fun m => <[hash := p']> m |>)
          end
        else (s, [])
    | None => (s, [])
    end).
Proof.
  intros Hi. destruct (s_pending_blocks s !! hash) as [p|] eqn:Hp; [|by apply good_skip].
  destruct (PendingBlockOps.is_complete p); [|by apply good_skip].
  destruct (construct_if_needed p) as [p'|] eqn:Hc; [|by apply good_skip].
  eapply good_from; [|apply trigger_or_vote_good]; [done|].
  eapply replace_pending_sinv; [done..|]. by apply construct_if_needed_same.
Qed.

(** The state once the pending block of a header is stored. *)
Lemma store_header_sinv header pb s now :
  sinv s -> proposed header -> well_built header -> pending_ok (header_hash header) pb ->
  pb_header pb = header ->
  sinv (s <| s_pending_blocks ::= fun m => <[header_hash header := pb]> m |>
          <| s_pending_block_created_at ::= fun m => <[header_hash header := now]> m |>
          <| s_vote_sets ::= alter (fun vs => VoteSetOps.set_header vs header) (header_hash header) |>).
Proof.
  intros Hi Hp Hw Hpb Hhd. apply (insert_pending_sinv (header_hash header) pb s) in Hi; rewrite ?Hhd; try done.
  destruct Hi. split; cbn in *; auto. intros h vs Hl.
  destruct (decide (h = header_hash header)) as [->|Hne].
  - rewrite lookup_alter_eq in Hl. apply fmap_Some in Hl as (vs0 & Hl & ->). apply vset_header; auto.
  - rewrite lookup_alter_ne in Hl by done. auto.
Qed.

Lemma block_header_good s header retry priority txs certs deferred aborted proofs mempool store :
  sinv s -> proposed header -> well_built header ->
  good s (on_block_header header retry priority txs certs deferred aborted proofs mempool store s).
Proof.
  intros Hi Hp Hw. unfold on_block_header.
  destruct (note_parent_inv header s Hi Hw) as (Hi1 & Hq1 & Hsync).
  destruct (note_parent_qc header s) as [s1 sync_actions]. cbn [fst snd] in *. cbv zeta.
  set (s2 := if s_view s1 <? _ then _ else s1).
  assert (sview s2 = sview s1) as Hv2 by (unfold s2; by case_match).
  apply (good_from s s2); [intros Hq; apply (has_qc_view _ _ Hv2); auto|].
  clearbody s2. apply (sinv_view _ _ Hv2) in Hi1. clear Hq1 Hv2 Hi s s1.
  destruct (validate_header s2 header); [by apply good_skip|].
  set (s3 := record_header_activity _ _ s2).
  assert (sview s3 = sview s2) as Hv3 by (unfold s3, record_header_activity; by case_match).
  apply (good_from s2 s3); [by apply has_qc_view|].
  clearbody s3. apply (sinv_view _ _ Hv3) in Hi1. clear Hv3 s2.
  destruct (contains_key _ _); [by apply good_skip|].
  set (pb := fill_from_stores _ _ _ _ _).
  assert (same_header (PendingBlockOps.with_proofs header retry priority txs certs deferred aborted proofs)
            pb) as Hsame by apply fill_from_stores_same.
  assert (pending_ok (header_hash header) pb) as Hpb
    by (eapply pending_ok_same; [exact Hsame|]; apply new_pending_ok; apply Hw).
  pose proof (store_header_sinv header pb s3 (s_now s3) Hi1 Hp Hw Hpb (proj1 Hsame)) as Hi4.
  match type of Hi4 with sinv ?x => set (s4 := x) in * end.
  apply (good_from s3 s4); [done|]. clearbody s4. clear Hi1 s3.
  pose proof (trigger_votes_good (header_hash header) s4 Hi4) as Hg.
  destruct (maybe_trigger_vote_verification _ s4) as [s5 acts].
  assert (good s4 (s5, acts ++ sync_actions)) as Hg'.
  { intros [Hl _]%logged_app. destruct (Hg Hl) as [Hi5 Ha5 Hq5]. split; [done| |done].
    apply Forall_app. split; [done|by apply plain_good]. }
  destruct (existsb _ _); [done|].
  unfold hseq, hemit.
  match goal with |- good s4 (let '(_, _) := ?r in _) => destruct r as [s6 a6] eqn:E end.
  apply (good_trans s4 s5); [done|]. intros Hi5 _. rewrite <-E. by apply header_tail_good.
Qed.

(** ** Certificates and views *)

Lemma qc_result_good s hash qc votes :
  sinv s -> genuine qc -> qc_block_hash qc = hash -> good s (on_qc_result hash (Some qc) votes s).
Proof.
  intros Hi Hg Hh _. split; [|by apply Forall_singleton|done]. destruct Hi. split; cbn; auto.
  intros h vs Hl. destruct (decide (h = hash)) as [->|Hne].
  - rewrite lookup_alter_eq in Hl. apply fmap_Some in Hl as (vs0 & Hl & ->). apply vset_built; auto.
  - rewrite lookup_alter_ne in Hl by done. auto.
Qed.

Lemma qc_formed_good s hash qc ready deferred aborted certs proofs :
  sinv s -> room_for_next s -> qc_height qc < u64_max -> genuine qc -> qc_block_hash qc = hash ->
  good s (on_qc_formed hash qc ready deferred aborted certs proofs s).
Proof.
  intros Hi Hroom Hlt Hg Hh. unfold on_qc_formed. cbv zeta.
  destruct (adopt_inv qc (record_leader_activity s)) as [Hi1 Hq1]; [by apply (sinv_view s)|done|].
  assert (room_for_next (adopt_qc qc (record_leader_activity s))) as Hroom1 by (by apply adopt_qc_room).
  set (s1 := adopt_qc qc _) in *. clearbody s1.
  apply (good_from s s1); [done|]. apply good_emit; [apply Forall_app; split|].
  - destruct (block_to_commit s1 hash) as [block|] eqn:Hb; [|done]. apply Forall_singleton.
    destruct (block_to_commit_good s1 hash block Hi1 Hb) as (<- & Hp & Hw). done.
  - unfold two_chain_commit, QC.committable_height, QC.committable_hash.
    destruct (QC.has_committable_block qc); [|done]. destruct (_ <? _); [|done].
    apply Forall_singleton. split; [|done]. by exists qc.
  - case_match; [by apply proposal_timer_good|by apply good_skip].
Qed.

Lemma advance_round_good s : sinv s -> room_for_next s -> good s (advance_round s).
Proof.
  intros Hi Hroom. unfold advance_round. cbv zeta.
  set (s1 := s <| s_view := _ |> <| s_view_changes := _ |>).
  assert (sinv s1) as Hi1 by (by apply (sinv_view s)).
  set (s2 := if _ <? _ then _ else _).
  assert (sinv s2 /\ next_height s2 = next_height s /\ room_for_next s2 /\ (has_qc s -> has_qc s2))
    as (Hi2 & Hn & Hroom2 & Hq2).
  { unfold s2. case_match; [|done]. split_and!; [|done..]. unfold clear_vote_tracking_for_height.
    destruct Hi1. split; cbn -[hm_retain]; auto. intros h vs [Hl _]%hm_retain_Some. auto. }
  clearbody s2. apply (good_from s s2); [done|].
  destruct (should_propose _ _); [|by apply good_view; [..|repeat constructor]].
  destruct (s_voted_heights s2 !! _) as [[existing r]|].
  - unfold repropose_locked_block. destruct (s_pending_blocks s2 !! existing) as [pb|] eqn:Hpb;
      [|by apply good_view; [..|repeat constructor]].
    intros _. split; [by apply (sinv_view s2)| |done].
    constructor; [|by repeat constructor]. cbn. by destruct (si_pending s2 Hi2 _ _ Hpb) as (_ & _ & ?).
  - apply empty_block_good; [done|rewrite <-Hn; by apply next_height_range|].
    rewrite <-Hn. by apply parent_built.
Qed.

Lemma fetches_plain s : Forall (fun a => plain a = true) (check_pending_block_fetches s).
Proof.
  unfold check_pending_block_fetches. case_match; [done|].
  induction (hm_iter (s_pending_blocks s)) as [|[hash pb] l IH]; [done|]. cbn [flat_map].
  apply Forall_app. split; [|exact IH]. unfold fetches_for.
  repeat case_match; try done; by repeat constructor.
Qed.

Lemma sync_health_good s : sinv s -> good s (check_sync_health s).
Proof.
  intros Hi. unfold check_sync_health.
  repeat case_match; try (by apply good_skip); by apply start_sync_good.
Qed.

Lemma state_commit_good s version root : sinv s -> good s (on_state_commit_complete version root s).
Proof.
  intros Hi. unfold on_state_commit_complete. case_match; [by apply good_skip|]. cbv zeta.
  set (s1 := s <| s_last_committed_jmt_state := _ |>).
  apply (good_from s s1); [done|]. apply for_each_good; [|by apply (sinv_view s)].
  intros h s2 Hi2. unfold start_queued_verification.
  case_match; [by apply good_view; [..|repeat constructor]|by apply good_skip].
Qed.

(** ** Every step *)

(** An event that is backed by the log. *)
Definition egood (s : BftState) (e : bft_event) : Prop :=
  match e with
  | OnBlockHeader g _ _ => proposed (bg_header g) /\ well_built (bg_header g)
  | OnBlockVote v => vote_cast v
  | OnQcResult hash qc _ => exists q, qc = Some q /\ genuine q /\ qc_block_hash q = hash
  | OnProposalBuilt height round block hash =>
      block_hash block = hash /\ bh_height (bl_header block) = height /\
      bh_round (bl_header block) = round /\ well_built (bl_header block)
  | OnQcFormed hash qc _ _ _ _ _ => genuine qc /\ qc_block_hash qc = hash /\ qc_height qc < u64_max
  | OnBlockReadyToCommit hash _ => committable hash /\ has_qc s
  | OnSyncBlockReadyToApply block qc => sync_good block qc
  | _ => True
  end.

Lemma verified_tail_good s s' hash :
  sinv s -> sview s' = sview s -> good s (vote_if_verified hash s').
Proof.
  intros Hi Hv. apply (good_from s s'); [by apply has_qc_view|].
  apply vote_if_verified_good. by eapply sinv_view.
Qed.

Lemma rejected_good s s' hash :
  sinv s -> sview s' = sview s -> good s (s' <| s_pending_blocks ::= delete hash |>, []).
Proof.
  intros Hi Hv. apply good_stay; [|exact (has_qc_view _ _ Hv)|done].
  apply delete_pending_sinv. by eapply sinv_view.
Qed.

Lemma step_good s e : sinv s -> room_for_next s -> egood s e -> good s (bft_handle e s).
Proof.
  intros Hi Hroom He. destruct e; cbn [bft_handle egood] in *.
  - by apply good_view.
  - by apply proposal_timer_good.
  - unfold check_round_timeout. case_match; cbn [default]; [by apply good_skip|].
    eapply good_from; [|apply advance_round_good]; [done|by apply (sinv_view s)|done].
  - destruct He. by apply block_header_good.
  - by apply block_vote_good.
  - destruct He as (q & -> & Hg & Hh). by apply qc_result_good.
  - by apply qc_signature_good.
  - unfold on_cycle_proof_verified. case_match; [|by apply good_skip].
    destruct (Nat.ltb _ _); [by apply good_view|].
    destruct (negb _); [by apply rejected_good|by apply verified_tail_good].
  - unfold on_state_root_verified. destruct (negb _); [by apply rejected_good|by apply verified_tail_good].
  - unfold on_transaction_root_verified.
    destruct (negb _); [by apply rejected_good|by apply verified_tail_good].
  - destruct He as (? & ? & ? & ?). by apply proposal_built_good.
  - by apply state_commit_good.
  - destruct He as (? & ? & ?). by apply qc_formed_good.
  - destruct He. apply ready_good; [exact commit_good_all|done..].
  - unfold on_sync_block_ready_to_apply. case_match; [by apply good_skip|]. by apply synced_ready_good.
  - unfold on_sync_complete. cbv zeta.
    apply good_view; [done|unfold set_syncing; by case_match|apply fetches_plain].
  - by apply sync_health_good.
  - unfold on_transaction_fetch_received. case_match; [|by apply good_skip].
    eapply after_fetch_good; [done..|]. apply foldl_same. intros. apply add_tx_same.
  - unfold on_certificate_fetch_received. case_match; [|by apply good_skip].
    eapply after_fetch_good; [done..|]. apply foldl_same. intros. apply add_cert_same.
  - apply for_each_good; [|done]. intros hash s1 Hi1. apply fill_pending_good; [|done].
    intros pb. case_match; [apply add_tx_same|apply same_header_refl].
  - apply for_each_good; [|done]. intros hash s1 Hi1. apply fill_pending_good; [|done].
    intros pb. case_match; [apply add_cert_same|apply same_header_refl].
  - apply good_view; [done..|apply fetches_plain].
Qed.
End steps.
