(* ===== verification/AgreementRuns.v ===== *)
(** * Agreement of a committee

    The validators of a shard run their consensus state machines
    (bft/src/state.rs) with delegated work done by their runners, on a network
    that delivers what was broadcast, in any order, any number of times, or not
    at all; validators may stop at any time.  Mempool, certificate stores,
    timers, verification results and fetched data are arbitrary.  As long as no
    validator votes for two blocks at one height, no two validators commit
    different blocks at one height, whether through consensus or through
    sync.

    The last part is a concrete run: four validators agree on a first block,
    one proposes it, another a second block on top of it, and two of them form
    the certificate of the second block and commit the first one. *)

From stdpp Require Import base gmap list numbers sorting.
From Stdlib Require Import NArith Lia.
From S2P Require Import Prelude Bitfield Types Encoding Merkle Topology VoteSet Core Runner.
From S2P Require Import QcTheory QcRoundtrip PendingBlock BftState BftVote BftCommit BftPropose.
From S2P Require Import BftChain BftReach Agreement AgreementSteps.

(** The topology as validator [i] sees it. *)
Definition seen_by (T : Topology) (i : ValidatorId) : Topology := {|
  local_validator_id := i;
  local_shard := @local_shard T;
  num_shards := @num_shards T;
  committee_for_shard := @committee_for_shard T;
  voting_power_for_shard := @voting_power_for_shard T;
  voting_power := @voting_power T;
  public_key := @public_key T;
  global_validator_set := @global_validator_set T;
  shard_for_node_id := @shard_for_node_id T
|}.

#[export] Instance seen_by_laws T `{L : !TopologyLaws T} i : TopologyLaws (seen_by T i).
Proof. destruct L as [Hnd Hp]. split; [exact Hnd|exact Hp]. Qed.

Section committee.
Context `{Crypto} `{HashIter} (T : Topology).
Variable key : ValidatorId -> Bls12381G1PrivateKey.
Variable config : BftConfig.
Variable genesis : Block.

(** ** Runs *)

(** What validator [i] can be handed when [log] has been done so far:
    messages of any validator, results of its own requests, blocks that some
    validator stored, and anything of its own surroundings. *)
Definition delivers (log : list (ValidatorId * Action)) (i : ValidatorId) (e : bft_event) : Prop :=
  match e with
  | OnBlockHeader g _ _ =>
      exists j shard, (j, BroadcastToShard shard (BlockHeaderMessage g)) ∈ log
  | OnBlockVote v => exists j, voted log j v
  | OnQcResult hash qc votes =>
      exists height round parent message us l total,
        (i, VerifyAndBuildQuorumCertificate hash height round parent message us l total) ∈ log /\
        verify_and_build_quorum_certificate hash height round parent message us l total
        = Some (qc, votes)
  | OnProposalBuilt height round block hash =>
      exists storage proposer parent qc timestamp fb root version retry priority txs certs proofs
        deferred aborted,
        (i, BuildProposal proposer height round parent qc timestamp fb root version retry priority
              txs certs proofs deferred aborted) ∈ log /\
        build_proposal storage (@local_shard T) proposer height round parent qc timestamp fb root
          version retry priority txs certs proofs deferred aborted = (block, hash)
  | OnQcFormed hash qc _ _ _ _ _ => (i, EnqueueInternal (QuorumCertificateFormed hash qc)) ∈ log
  | OnBlockReadyToCommit hash qc => (i, EnqueueInternal (BlockReadyToCommit hash qc)) ∈ log
  | OnSyncBlockReadyToApply block qc => exists j, (j, PersistBlock block qc) ∈ log
  | _ => True
  end.

(** Heights stay below the end of [u64]. *)
Definition in_range (s : BftState) (e : bft_event) : Prop :=
  room_for_next s /\
  match e with OnQcFormed _ qc _ _ _ _ _ => qc_height qc < u64_max | _ => True end.

Definition validator_init (i : ValidatorId) : BftState :=
  @start_fresh _ (seen_by T i) (key i) config genesis.

Definition put (st : ValidatorId -> BftState) (i : ValidatorId) (s : BftState)
    : ValidatorId -> BftState :=
  fun j => if decide (j = i) then s else st j.

Abbreviation handle_at i e s := (@bft_handle _ (seen_by T i) _ e s) (only parsing).

Inductive committee_run : (ValidatorId -> BftState) -> list (ValidatorId * Action) -> Prop :=
  | cr_start : committee_run validator_init []
  | cr_step st log i e :
      committee_run st log -> i ∈ @local_committee T -> delivers log i e -> in_range (st i) e ->
      committee_run (put st i (handle_at i e (st i)).1)
        (log ++ (pair i <$> (handle_at i e (st i)).2)).

(** No validator votes for two blocks at one height. *)
Definition votes_once (log : list (ValidatorId * Action)) : Prop := forall i v v',
  voted log i v -> voted log i v' -> bv_height v = bv_height v' ->
  bv_block_hash v = bv_block_hash v'.

(** The headers that occur, genesis included, have different hashes. *)
Definition hashes_distinct (log : list (ValidatorId * Action)) : Prop := forall hd hd',
  hd = bl_header genesis \/ proposed log hd -> hd' = bl_header genesis \/ proposed log hd' ->
  header_hash hd = header_hash hd' -> hd = hd'.

(** ** The invariant along a run *)

Context `{!TopologyLaws T}.
Variable L : list (ValidatorId * Action).

Hypothesis bounded : @power_bounded T (@local_shard T).
Hypothesis bls : BlsLaws.
Hypothesis keys_match : forall i, i ∈ @local_committee T ->
  exists k, @public_key T i = Some k /\
    forall message, verify_bls12381_v1 message k (sign_v1 (key i) message) = true.
Hypothesis no_collision : forall hd hd',
  proposed L hd -> proposed L hd' -> header_hash hd = header_hash hd' -> hd = hd'.

Abbreviation inv_at i := (@sinv _ (seen_by T i) L (block_hash genesis) (key i)) (only parsing).
Abbreviation good_at i := (@agood _ (seen_by T i) L (block_hash genesis)) (only parsing).

Lemma init_inv i : inv_at i (validator_init i).
Proof. split; cbn; try done; intros *; by rewrite lookup_empty. Qed.

Record run_inv (st : ValidatorId -> BftState) (log : list (ValidatorId * Action)) : Prop := {
  ri_states i : inv_at i (st i);
  ri_log i a : (i, a) ∈ log -> good_at i (st i) a
}.

Lemma delivered_good st log i e :
  run_inv st log -> (forall x, x ∈ log -> x ∈ L) -> delivers log i e -> in_range (st i) e ->
  @egood _ (seen_by T i) L (block_hash genesis) (st i) e.
Proof.
  intros [Hs Hlog] HL. destruct e; cbn [delivers egood]; try done.
  - intros (j & shard & Hin) _. split.
    + exists j, shard, gossip. auto.
    + exact (Hlog _ _ Hin).
  - intros (j & h & r & b & sh & Hin) _. exact (proj1 (Hlog _ _ Hin)).
  - intros (h & r & parent & message & us & l & total & Hin & Hbuild) _.
    destruct (@batch_builds _ (seen_by T i) L no_collision _ bounded bls block_hash h r parent message us l
                total (Hlog _ _ Hin)) as (q & Hq & Hg & Hh).
    rewrite Hq in Hbuild. injection Hbuild as <- <-. by exists q.
  - intros (storage & proposer & parent & qc & timestamp & fb & root & version & retry & priority
      & txs & certs & proofs & deferred & aborted & Hin & Hbuild) _.
    destruct (Hlog _ _ Hin) as [Hr Hb]. unfold build_proposal in Hbuild.
    repeat case_match; simplify_eq; by split_and!.
  - intros Hin [_ Hlt]. destruct (Hlog _ _ Hin) as [Hg Hh]. by split_and!.
  - intros Hin _. exact (Hlog _ _ Hin).
  - intros [j Hin] _. exact (Hlog _ _ Hin).
Qed.

Lemma run_keeps st log :
  committee_run st log -> (forall x, x ∈ log -> x ∈ L) -> run_inv st log.
Proof.
  induction 1 as [|st log i e Hrun IH Hi Hd Hr]; intros HL.
  { split; [exact init_inv|]. intros i a Ha. by apply elem_of_nil in Ha. }
  assert (forall x, x ∈ log -> x ∈ L) as HL0 by (intros x Hx; apply HL, elem_of_app; auto).
  specialize (IH HL0). pose proof (delivered_good st log i e IH HL0 Hd Hr) as He.
  destruct IH as [Hs Hlog].
  assert (@kept _ (seen_by T i) L (block_hash genesis) (key i) (st i) (handle_at i e (st i)).1
            (handle_at i e (st i)).2) as [Hi' Ha Hq].
  { apply (step_good (T := seen_by T i) L (block_hash genesis) (key i) (keys_match i Hi) no_collision
             (st i) e (Hs i) (proj1 Hr) He).
    intros a Ha. apply HL, elem_of_app. right. by apply list_elem_of_fmap_2. }
  split.
  - intros j. unfold put. case_decide as Hj; [by subst|apply Hs].
  - intros j a [Hin|(a' & [= -> ->] & Hin)%list_elem_of_fmap]%elem_of_app; unfold put.
    + case_decide as Hj; [|by apply Hlog]. subst. eapply agood_mono; [exact Hq|by apply Hlog].
    + rewrite decide_True by done. by apply (Forall_elem _ _ _ Ha).
Qed.

(** A block the two-chain rule commits is certified at its own height. *)
Lemma committable_certified block :
  bh_height (bl_header genesis) = 0 -> hashes_distinct L ->
  (forall hd, proposed L hd -> @well_built _ T L (block_hash genesis) hd) ->
  proposed L (bl_header block) -> @committable _ T L (block_hash block) ->
  @certified _ T L (block_hash block) (bh_height (bl_header block)).
Proof.
  intros Hg0 Hdist Hwell Hp (qc & [(hd & Hpr & Hh & Hk & Hpa) _] & Hparent).
  destruct (Hwell hd Hpr) as [_ [[_ Hgen]|(Hg & Hph & _)]].
  - assert (bl_header block = bl_header genesis) as Heq.
    { apply Hdist; [by right|by left|]. unfold block_hash in *. congruence. }
    destruct (Hwell _ Hp) as [Hr _]. rewrite Heq, Hg0 in Hr. lia.
  - exists (bh_parent_qc hd). split; [done|]. split; [congruence|].
    destruct Hg as [(hd' & Hp' & Hh' & Hk' & _) _].
    assert (hd' = bl_header block) as ->; [|done].
    apply no_collision; [done..|]. unfold block_hash in *. congruence.
Qed.

Lemma committed_certified st i block :
  bh_height (bl_header genesis) = 0 -> hashes_distinct L -> committee_run st L ->
  (i, EmitCommittedBlock block) ∈ L ->
  @certified _ T L (block_hash block) (bh_height (bl_header block)).
Proof.
  intros Hg0 Hdist Hrun Hin. destruct (run_keeps st L Hrun (fun x Hx => Hx)) as [_ Hlog].
  destruct (Hlog i _ Hin) as [Hp [Hc|Hc]]; [|exact Hc].
  apply committable_certified; [done..| |done|exact Hc].
  intros hd (j & shard & g & Hj & <-). exact (Hlog j _ Hj).
Qed.
End committee.

(** ** Agreement *)

(** C2: Agreement.  Validators that follow the code, with honest runners, on a
    network that may delay, reorder, repeat and lose messages, and some of
    which may stop: if no validator votes for two blocks at one height, then
    any two blocks committed at the same height, by consensus or by sync, by
    any two validators, have the same hash.  The hypotheses are that the
    powers do not overflow, that BLS signatures aggregate and verify, and that
    no two headers of the run collide. *)
Theorem committee_agreement `{Crypto} `{HashIter} (T : Topology) `{!TopologyLaws T}
    (key : ValidatorId -> Bls12381G1PrivateKey) (config : BftConfig) (genesis : Block)
    (st : ValidatorId -> BftState) (log : list (ValidatorId * Action)) i j block block' :
  @power_bounded T (@local_shard T) -> BlsLaws ->
  (forall v, v ∈ @local_committee T -> exists k, @public_key T v = Some k /\
     forall message, verify_bls12381_v1 message k (sign_v1 (key v) message) = true) ->
  bh_height (bl_header genesis) = 0 ->
  committee_run T key config genesis st log ->
  hashes_distinct genesis log -> votes_once log ->
  (i, EmitCommittedBlock block) ∈ log -> (j, EmitCommittedBlock block') ∈ log ->
  bh_height (bl_header block) = bh_height (bl_header block') ->
  block_hash block = block_hash block'.
Proof.
  intros Hb Hbls Hkeys Hg0 Hrun Hdist Honce Hi Hj Hh.
  assert (forall hd hd', proposed log hd -> proposed log hd' -> header_hash hd = header_hash hd' ->
    hd = hd') as Hnc by (intros; apply Hdist; auto).
  apply (certified_unique log Hb Honce _ _ (bh_height (bl_header block))).
  - by eapply committed_certified.
  - rewrite Hh. by eapply committed_certified.
Qed.

(** ** Playing a run *)

(** An entry of the log handled by a validator: its own request or internal
    event, or a message of another one. *)
Definition reaction `{Crypto} (T : Topology) (storage : JmtStore) (i : ValidatorId)
    (entry : ValidatorId * Action) : option bft_event :=
  let '(j, a) := entry in
  if decide (j = i) then
    match a with
    | VerifyAndBuildQuorumCertificate hash height round parent message us l total =>
        '(qc, votes) ← verify_and_build_quorum_certificate hash height round parent message us l total;
        Some (OnQcResult hash qc votes)
    | VerifyQcSignature qc keys hash message =>
        Some (OnQcSignatureVerified hash (verify_qc_signature qc keys message))
    | BuildProposal proposer height round parent qc timestamp fb root version retry priority txs
        certs proofs deferred aborted =>
        let '(block, hash) :=
          build_proposal storage (@local_shard T) proposer height round parent qc timestamp fb root
            version retry priority txs certs proofs deferred aborted in
        Some (OnProposalBuilt height round block hash)
    | EnqueueInternal (QuorumCertificateFormed hash qc) =>
        Some (OnQcFormed hash qc (mk_ready_transactions [] [] []) [] [] [] ∅)
    | EnqueueInternal (BlockReadyToCommit hash qc) => Some (OnBlockReadyToCommit hash qc)
    | _ => None
    end
  else
    match a with
    | BroadcastToShard _ (BlockHeaderMessage g) => Some (OnBlockHeader g ∅ ∅)
    | PersistAndBroadcastVote _ _ _ _ (BlockVoteMessage v) => Some (OnBlockVote v)
    | PersistBlock block qc => Some (OnSyncBlockReadyToApply block qc)
    | _ => None
    end.

Inductive Turn := Tick | Handle (k : nat).

Section play.
Context `{Crypto} `{HashIter} (T : Topology).
Variable key : ValidatorId -> Bls12381G1PrivateKey.
Variable config : BftConfig.
Variable genesis : Block.
Variable storage : JmtStore.

Abbreviation Committee := ((ValidatorId -> BftState) * list (ValidatorId * Action))%type.

Definition in_rangeb (s : BftState) (e : bft_event) : bool :=
  (s_committed_height s <? u64_max)
  && is_none_or (s_latest_qc s) (fun qc => qc_height qc <? u64_max)
  && match e with OnQcFormed _ qc _ _ _ _ _ => qc_height qc <? u64_max | _ => true end.

Definition play_event (c : Committee) (i : ValidatorId) (e : bft_event) : option Committee :=
  let '(st, log) := c in
  if bool_decide (i ∈ @local_committee T) && in_rangeb (st i) e then
    let r := @bft_handle _ (seen_by T i) _ e (st i) in
    Some (put st i r.1, log ++ (pair i <$> r.2))
  else None.

Definition play_turn (c : Committee) (turn : ValidatorId * Turn) : option Committee :=
  let '(i, t) := turn in
  match t with
  | Tick => play_event c i (OnProposalTimer (mk_ready_transactions [] [] []) [] [] [] ∅)
  | Handle k => entry ← c.2 !! k; e ← reaction T storage i entry; play_event c i e
  end.

Fixpoint play (turns : list (ValidatorId * Turn)) (c : Committee) : option Committee :=
  match turns with
  | [] => Some c
  | t :: turns => c ← play_turn c t; play turns c
  end.

Lemma in_rangeb_ok s e : in_rangeb s e = true -> in_range s e.
Proof.
  unfold in_rangeb, in_range, room_for_next. intros [[Hc%N.ltb_lt Hq]%andb_true_iff He]%andb_true_iff.
  split_and!; [done| |by destruct e; try apply N.ltb_lt].
  intros qc Hqc. rewrite Hqc in Hq. by apply N.ltb_lt.
Qed.

Lemma reaction_delivers log i k entry e :
  log !! k = Some entry -> reaction T storage i entry = Some e -> delivers T log i e.
Proof.
  intros Hin%list_elem_of_lookup_2. destruct entry as [j a]. unfold reaction.
  case_decide as Hj.
  - subst j. destruct a; try done; cbn.
    + destruct event; try done; by intros [= <-].
    + destruct (verify_and_build_quorum_certificate _ _ _ _ _ _ _ _) as [[qc votes]|] eqn:E; [|done].
      intros [= <-]. cbn. by do 7 eexists.
    + by intros [= <-].
    + destruct (build_proposal _ _ _ _ _ _ _ _ _ _ _ _ _ _ _ _ _ _) as [block hash] eqn:E.
      intros [= <-]. cbn. by do 15 eexists.
  - destruct a; try done; [destruct message; try done| |destruct message; try done]; intros [= <-]; cbn.
    + by exists j, shard.
    + by exists j.
    + by exists j, height, round, block_hash, shard.
Qed.

Lemma play_run turns c c' :
  committee_run T key config genesis c.1 c.2 -> play turns c = Some c' ->
  committee_run T key config genesis c'.1 c'.2.
Proof.
  revert c. induction turns as [|t turns IH]; intros c Hrun; cbn; [by intros [= <-]|].
  destruct (play_turn c t) as [c1|] eqn:Ht; [|done]. cbn. apply IH. clear IH.
  assert (forall i e, delivers T c.2 i e -> play_event c i e = Some c1 ->
    committee_run T key config genesis c1.1 c1.2) as Hstep.
  { intros i e Hd. unfold play_event. destruct c as [st log].
    destruct (bool_decide _ && _) eqn:Hc; [|done]. intros [= <-].
    apply andb_true_iff in Hc as [Hi%bool_decide_eq_true Hr%in_rangeb_ok]. by apply cr_step. }
  destruct t as [i []]; cbn in Ht; [by eapply Hstep; [|exact Ht]|].
  destruct (c.2 !! k) as [entry|] eqn:Hk; [|done]. cbn in Ht.
  destruct (reaction T storage i entry) as [e|] eqn:He; [|done]. cbn in Ht.
  eapply Hstep; [|exact Ht]. by eapply reaction_delivers.
Qed.

Lemma play_default turns c :
  committee_run T key config genesis c.1 c.2 ->
  committee_run T key config genesis (default c (play turns c)).1 (default c (play turns c)).2.
Proof. intros Hrun. destruct (play turns c) eqn:E; [by eapply play_run|done]. Qed.
End play.

(** ** Checks on a log *)

Definition headers_of (log : list (ValidatorId * Action)) : list BlockHeader :=
  omap (fun x => match x.2 with
                 | BroadcastToShard _ (BlockHeaderMessage g) => Some (bg_header g)
                 | _ => None
                 end) log.

Definition votes_of (log : list (ValidatorId * Action)) : list (ValidatorId * BlockVote) :=
  omap (fun x => match x.2 with
                 | PersistAndBroadcastVote _ _ _ _ (BlockVoteMessage v) => Some (x.1, v)
                 | _ => None
                 end) log.

Lemma NoDup_key {A B} (f : A -> B) l x y : NoDup (f <$> l) -> x ∈ l -> y ∈ l -> f x = f y -> x = y.
Proof.
  intros Hnd [i Hi]%list_elem_of_lookup [j Hj]%list_elem_of_lookup Heq.
  assert (i = j) as ->; [|congruence].
  apply (NoDup_lookup _ _ _ (f x) Hnd); rewrite list_lookup_fmap, ?Hi, ?Hj; [done|].
  cbn. by rewrite Heq.
Qed.

Lemma headers_distinct `{Crypto} genesis log :
  NoDup (header_hash <$> (bl_header genesis :: headers_of log)) -> hashes_distinct genesis log.
Proof.
  intros Hnd hd hd' Hh Hh'.
  assert (forall x, x = bl_header genesis \/ proposed log x -> x ∈ bl_header genesis :: headers_of log)
    as Hin.
  { intros x [->|(i & shard & g & Hg & <-)]; [by left|]. right. unfold headers_of.
    apply list_elem_of_omap. by exists (i, BroadcastToShard shard (BlockHeaderMessage g)). }
  by apply (NoDup_key header_hash _ _ _ Hnd); apply Hin.
Qed.

Lemma keys_once log :
  NoDup ((fun x => (x.1, bv_height x.2)) <$> votes_of log) -> votes_once log.
Proof.
  intros Hnd i v v' Hv Hv' Hh.
  assert (forall x, voted log i x -> (i, x) ∈ votes_of log) as Hin.
  { intros x (h & r & b & shard & Hx). apply list_elem_of_omap.
    by exists (i, PersistAndBroadcastVote h r b shard (BlockVoteMessage x)). }
  assert ((i, v) = (i, v')) as [= ->]; [|done].
  apply (NoDup_key _ _ _ _ Hnd); [by apply Hin..|]. cbn. by rewrite Hh.
Qed.

(** ** Four validators *)

#[local] Existing Instances sample_crypto canonical_iter.
Definition four_topology : Topology := sample_topology 0.
Definition four_key (i : ValidatorId) : Bls12381G1PrivateKey := i + 1.

Definition four_turns : list (ValidatorId * Turn) :=
  [(1, Tick); (1, Handle 1); (0, Handle 2); (2, Handle 2); (3, Handle 2);
   (2, Handle 3); (2, Handle 4); (2, Handle 7); (2, Handle 8); (2, Tick); (2, Handle 11);
   (1, Handle 12); (3, Handle 12); (1, Handle 14); (3, Handle 15);
   (2, Handle 16); (2, Handle 17); (2, Handle 18); (2, Handle 19); (2, Handle 21);
   (0, Handle 9); (0, Handle 25)].
Definition four_store : JmtStore := mk_jmt_store ZERO (fun root _ => root).

Definition four_end : (ValidatorId -> BftState) * list (ValidatorId * Action) :=
  default (validator_init four_topology four_key default_config sample_genesis, [])
    (play four_topology four_store four_turns
       (validator_init four_topology four_key default_config sample_genesis, [])).

Definition four_commit (k : nat) : Block :=
  match four_end.2 !! k with Some (_, EmitCommittedBlock block) => block | _ => sample_genesis end.

Lemma four_run :
  committee_run four_topology four_key default_config sample_genesis four_end.1 four_end.2.
Proof.
  exact (play_default four_topology four_key default_config sample_genesis four_store four_turns
    (validator_init four_topology four_key default_config sample_genesis, []) (cr_start _ _ _ _)).
Qed.

Lemma four_distinct : hashes_distinct sample_genesis four_end.2.
Proof. apply headers_distinct. apply (bool_decide_unpack _). vm_compute. exact I. Qed.

Lemma four_once : votes_once four_end.2.
Proof. apply keys_once. apply (bool_decide_unpack _). vm_compute. exact I. Qed.

(** The first block, committed by validator 2 through consensus and by
    validator 0 through sync. *)
Lemma committee_agreement_witness :
  (2, EmitCommittedBlock (four_commit 23)) ∈ four_end.2 /\
  (0, EmitCommittedBlock (four_commit 27)) ∈ four_end.2 /\
  block_hash (four_commit 23) = block_hash (four_commit 27).
Proof.
  assert ((2, EmitCommittedBlock (four_commit 23)) ∈ four_end.2) as H2
    by (apply (list_elem_of_lookup_2 _ 23); vm_compute; reflexivity).
  assert ((0, EmitCommittedBlock (four_commit 27)) ∈ four_end.2) as H0
    by (apply (list_elem_of_lookup_2 _ 27); vm_compute; reflexivity).
  split; [exact H2|]. split; [exact H0|].
  apply (@committee_agreement sample_crypto canonical_iter four_topology (sample_topology_laws 0)
    four_key default_config sample_genesis four_end.1 four_end.2 2 0).
  - vm_compute; reflexivity.
  - exact sample_bls_laws.
  - intros v Hv. exists (v + 1). split; [|intros message; apply N.eqb_refl].
    revert v Hv. apply Forall_forall. vm_compute. repeat constructor.
  - reflexivity.
  - exact four_run.
  - exact four_distinct.
  - exact four_once.
  - exact H2.
  - exact H0.
  - vm_compute; reflexivity.
Defined.
